(* ===== verification/_CoqProject ===== *)
-Q . S2P
Prelude.v
Dict.v
JsValue.v
JsText.v
JsAsync.v
AgentIds.v
AgentState.v
AgentFold.v
AgentEffects.v
AgentContext.v
AgentStep.v
AgentCache.v
AgentOutbox.v
AgentPolicies.v
AgentScenario.v
AgentSamples.v
AgentFoldLaws.v
AgentFoldProps.v
AgentStepLaws.v
AgentStepProps.v
AgentEffectsProps.v
AgentContextProps.v
AgentPolicyProps.v
AgentScenarioProps.v
AgentCascadeProps.v
AgentCacheProps.v
AgentOutboxProps.v
Diff3.v
Diff3Laws.v
Diff3Props.v
GadMerge.v
GadMergeProps.v
GadHunksProps.v
JsBytes.v
JsJson.v
JsJsonLaws.v
RpcFrames.v
RpcFramesLaws.v
RpcFramesProps.v
RpcControl.v
RpcControlProps.v
BuildGraph.v
BuildGraphLaws.v
BuildEv.v
BuildEvLaws.v
BuildTrigger.v
BuildTriggerLaws.v
BuildProps.v
GadCanon.v
GadCanonLaws.v
GadRefs.v
GadStored.v
GadLog.v
GadAppend.v
GadLogLaws.v
GadRefsLaws.v
GadAppendLaws.v
GadTables.v
GadAppendOk.v
GadForks.v
GadReplay.v
GadStore.v
GadWindow.v
GadSamples.v
GadStoreProps.v
ChannelState.v
ChannelPolicy.v
ChannelCalls.v
ChannelDo.v
ChannelLaws.v
ChannelAppends.v
ChannelSafety.v
ChannelSystem.v
ChannelCrash.v
GadChannel.v
ChannelProps.v
AgentLoops.v
AgentDriver.v
AgentDriverLaws.v
AgentDriverProps.v
