(* ===== verification/Prelude.v ===== *)
(** * NatStack: agents, version control, calls and builds

    NatStack runs agents as event-sourced loops over durable logs, keeps their
    workspaces under a content-addressed version control, builds the units of a
    workspace as its states advance, and carries calls between its processes over
    framed streams. This library models these parts, written in TypeScript, as pure
    definitions, and proves what makes them correct.

    ** The parts and how they meet

    - The agent loop (workspace/packages/agent-loop/src). A log of envelopes is
      the only authority. The fold turns a log into a state; the step turns a
      state and an input (a command, an appended event, a failed effect) into
      envelopes to append and effects to dispatch; policies rewrite the step's
      output; an executor's outcome maps back to terminal envelopes. The effects
      that have to run are derivable from the state alone.
    - The durable driver (workspace/packages/agentic-do/src). It loads the state
      through the fold cache, runs the loop, keeps a row per unresolved effect in
      the outbox, leases and retries the rows, and after a crash reconciles the
      table with the effects the log derives. Its functions run beside each other:
      between two awaits of one, others append to the same log and replace the
      same loop.
    - The gad store (workspace/workers/gad-store). The unified log under all of it:
      heads of named logs, each a hash chain of envelopes that continues its
      parent's when the head is a fork. Agents append to trajectory logs, which
      publish to channels; clients read pages and replay windows; the fold cache
      reads its head and its tail.
    - The channel (workspace/workers/pubsub-channel, workspace/packages/channel-policies).
      A durable object per channel between agents and panels: it appends what
      participants publish to the channel's log in the gad store, shows it to all of
      them, replays the log to who joins, counts the hops of agents in policies folded
      over the log, and carries method calls from a caller to a target and back. Its
      tables and keys outlive a crash; functions under way, promises and deliveries do not.
    - The worktree merge (src/server/gadVcs). Two states of a workspace and their
      base are merged path by path; contents both sides changed go through a line
      merge; replace edits patch a working file.
    - The build graph (src/server/buildV2). Each state of the workspace has a graph
      of units; a unit's effective version hashes its content and that of all it
      depends on; the state trigger follows the advances of the main head and
      builds the units whose versions changed.
    - The framed streams of rpc (packages/rpc/src). Streaming responses and session
      frames are cut into frames, multiplexed or fragmented to the message limit of
      a data channel, and put together again by the other side.

    ** Files

    Shared: Prelude (throwing computations, strings, tactics, the hint database
    [natstack]); Dict (insertion-ordered JavaScript objects); JsValue (values of
    type unknown and the reading of their fields); JsText (text functions of the
    language); JsBytes (typed arrays and data views); JsJson ([JSON.stringify] and
    [JSON.parse]) with JsJsonLaws.

    The agent loop, one file per source file: AgentIds (ids.ts: the constructors
    of [ids], the hash of a configuration patch), AgentState (state.ts: the record
    [AgentState], the shape predicates of the data the code casts,
    [overlayInputConfig]), AgentFold (fold.ts: [applyEvent] with one function per
    event kind, [foldEvents]), AgentEffects (effects.ts: [derivePendingEffects],
    [outcomeEvents]; the inputs of commands.ts), AgentContext (context.ts: [buildModelContext]),
    AgentStep (step.ts: [coreStep], [commandStep],
    [eventStep], [effectFailedStep], [composeStep]), AgentPolicies
    (policies/index.ts), AgentScenario (scenario.ts, the in-memory driver that
    states the contract of the durable one).

    The driver: AgentCache (fold-cache.ts: [loadState]), AgentOutbox
    (effect-outbox.ts, and [reconcile], [retryEffect] and the redrives of
    agent-loop-driver.ts) say what each does alone. AgentLoops and AgentDriver are
    agent-loop-driver.ts as asynchronous programs over the record [World]: AgentLoops
    the driver up to its effects ([loop], [load_state], [append_items], [runStep],
    [settle], [handleIncoming], [maybeCompact], [wake] and the recovery of stranded
    turns), AgentDriver the effects ([outboxExternalId], [applyOutcome],
    [suspendOnCredential], [deliverEffectOutcome], [dispatchRow], [dispatchDue], [pump],
    [alarm], [abortChannel], and [crash]). A loop is an object the functions share by its number in a
    heap, since a function keeps the loop it was called with when another one replaces
    it. AgentDriverLaws has the class [AgentStoreLaws] of what a driver asks of the gad
    store, the invariant, and a lemma per function that keeps it from await to await: a
    function owns the answers of its appends until it has folded them, which JsAsync
    states with one relation for its own moves and one for those of the others.

    The store: GadCanon (canonical-json.ts and log-envelope.ts of
    the protocol), GadRefs (participant-ref.ts, stored-values.ts and the sanitizers
    of gad-store/index.ts), GadLog (index.ts: the tables and every read), GadAppend
    (index.ts: [appendLogEvent], [forkLog], [deleteLogHead], [archiveRepoMain],
    [restoreRepoMain], [checkLogIntegrity]).
    Its laws: GadCanonLaws and GadRefsLaws (values, stored values), GadLogLaws (the relation
    [log_is] between a head and its log, the abstract state, and the reads as cuts of
    it), GadAppendLaws (rows and envelopes, chains), GadTables (well-formed tables),
    and what adding rows does to every log, GadAppendOk (the loop of an append
    and its publications), GadForks, GadReplay, GadWindow, GadStore (steps and
    reachable stores, the store as the [GadPort] of the fold cache), GadSamples.

    The channel: JsAsync (asynchronous functions as programs that stop at their
    awaits, their steps and runs, and [wp], what holds at every stop and at the end),
    GadStored (stored-values.ts), ChannelState (types.ts, log-store.ts,
    broadcast.ts: the record [World] of everything a channel sees), ChannelPolicy
    (channel-policies, policy-host.ts and [appendDurable]), ChannelCalls (calls.ts),
    ChannelDo (channel-do.ts, and [crash]). Its laws: ChannelLaws (the class
    [ChannelStoreLaws] of what a channel asks of the gad store, the invariant [inv] and
    the moves that keep it), ChannelAppends (with what a replay shows), ChannelSafety (every
    function keeps [inv] from await to await), ChannelSystem (the step relation: an
    operation comes in, one runs to its next await, the world outside moves, a crash; and
    clones),
    ChannelCrash (a settle that is stopped and tried again, and the sweep), GadChannel
    (the gad store meets [ChannelStoreLaws]; the data of the witnesses).

    The merge: Diff3 (diff3.ts: [diffChunks], [diff3Merge],
    [computeReplaceHunks]), GadMerge (merge.ts: [mergeFromBase];
    workspaceVcs.ts: [applyReplaceHunks]).

    The build: BuildGraph (packageGraph.ts: the discovery, its order, the reverse
    dependencies), BuildEv (effectiveVersion.ts: [computeEffectiveVersions],
    [recomputeFromNodes], [diffEvMaps], the keys of the build store), BuildTrigger
    (stateTrigger.ts: [process], [handleAdvance], [buildChanged]).

    The streams: RpcFrames (protocol/streamCodec.ts: the frame codec, the
    multiplexer, [decodeFramedStream]), RpcControl (transports/controlFraming.ts and
    channelIo.ts, protocol/sessionNegotiation.ts and closeCodes.ts: fragmentation,
    the session frame codec, [writeChunked]).

    Laws and properties are in files of their own: AgentFoldLaws, AgentStepLaws
    (how batches fold), AgentSamples (the concrete data of the
    witnesses), Diff3Laws (the line diff and the merge loop),
    BuildGraphLaws, BuildEvLaws and BuildTriggerLaws, RpcFramesLaws, and the files
    ending in Props, each with one Module of theorems.

    ** What the theorems show

    - Step (AgentStepProps): every effect a step emits can be rebuilt from the log
      ([effects_reconstructible], the P2 invariant of step.ts, with the one grant that
      breaks it); one model call at a time, but for a completion that is not the call's
      own while steers wait; redelivered messages are not taken twice, unless deferred;
      interrupts leave nothing pending; the model call budget holds.
    - Effects (AgentEffectsProps): an outcome settles its effect; approvals decide
      what is dispatched; pending effects have distinct ids.
    - Fold (AgentFoldProps): which events throw; other participants' events are
      never adopted; folded states are well formed; edits, retracts and
      acknowledgements of queued messages.
    - Context, Policies, Loop, Cascade: no queued message misses the model's context,
      a call's context can be rebuilt, others' words are attributed; the approval
      gate, the fork cut and the silent agent; the in-memory driver never loses its
      place, and what one input sets off always comes to an end.
    - Cache: loading through any cached row is folding the log, when the log does not
      change the configuration; up to the configuration and the fork number it always is
      ([loadState_plain]).
    - Outbox: reconcile restores the rows of the derived effects (a refinement of
      the table to [derivePendingEffects]), leases exclude, no wake is missed,
      retries are bounded.
    - Driver (AgentDriverProps): whatever interleaves and crashes, every loop in memory
      and every cached state is the fold of a beginning of its log
      ([fold_never_diverges]); after a crash the loop loads and the outbox has a row for
      exactly the effects of its log ([crash_recovers]); external ids lead back to their
      rows; a stranded turn is closed for good. The first two are proved against
      [AgentStoreLaws], and the gad store meets them ([gad_agent_laws]).
    - Logs (GadStoreProps): the tables refine the abstract logs: appends extend one
      log and never rewrite, can be repeated, and are refused exactly as a reference
      decision over the log says; the integrity check is exact, and passes every head
      that was never archived or restored to; forks are snapshots; a head hash pins down the history; replay
      windows are slices; and, composed with the fold cache, a load over the store is
      the fold of the log, which discharges the contract [serves] and
      [hashes_identify] of the cache's own theorem.
    - Channel (ChannelProps): with any operations interleaved and any crashes, one call
      or one idempotency key has one answer, and it is in the log; nothing is shown that
      is not durable; policy states are folds of the log, in a clone too; ids and handles are unique; a
      call survives a crash of its settling; the sweep, which always ends, restores the
      rows of exactly the open calls; a replay shows what was shown live; stored values
      come back. The first five are proved against [ChannelStoreLaws] and hold of the
      gad store by its instance.
    - Diff: a diff patches the base into the side and is minimal; the merge always
      ends and cuts the three texts into the same spans, the abstract specification
      being the relation [Merged]; edits apart from each other merge cleanly.
    - Merge: a path only one side changed is that side's; conflicts are real; modes
      and blobs are not lost; the merge does not throw when the blobs are there.
    - Hunks: which replace edits are accepted, given in which order, and what they give.
    - Builds: discovery ends with the units after their dependencies or with the
      cycle; versions identify the contents a unit transitively depends on;
      recomputing incrementally is recomputing from scratch; the trigger refines
      discovery and versioning of the pushed state, and announces exactly what changed
      among the units that are still there.
    - Frames: a response comes out of a shared channel as it was sent, whatever else
      is multiplexed with it and however the bytes are cut, and its stream is freed.
    - Control: session frames survive fragmentation and interleaving; fragments
      respect the message limit; chunked bulk writes decode to the frames written.

    The examples of the Props files also pin down behaviour at the edges where the
    code departs from what its comments say (Module Edges of AgentScenarioProps,
    [config_change_lost_in_cache], [newline_text_lost], [same_start_order],
    [deleted_template_unnoticed], [lost_start_is_hidden], [start_taken_for_end],
    [duplicate_delivery_diverges], [archived_reported], [archived_parent],
    [deleted_parent], [archived_twice], [offset_time_folds_apart],
    [opaque_replayed_as_message]).

    ** Conventions and bounds

    A computation that may throw is a [res]; the string is the error's message.
    Values of type unknown are [val]; numbers in them, and in JSON, are integers.
    Strings are sequences of 8-bit characters, the UTF-8 bytes of the text, so
    offsets, lengths and the order of paths are by byte. A timestamp is read by
    [Date.parse] in the ISO format only. Objects list their keys in the order of
    insertion, and keys of [Object.prototype] are not inherited.

    Recursion that is not structural takes fuel and returns [None] or throws
    without it. The cascade of AgentScenario takes the depth of nested inputs: six
    suffice for any input ([cascade_terminates]). The walk of [diffChunks] takes the
    number of lines of both texts; the merge loop the number of chunks, and the loop
    that grows a region the chunks left; [readAll] more than the length of the log;
    the walks of the package graph more than its number of nodes; the lineage of a
    head two more than there are heads; an append recurs into publications, which
    publish nothing, so two levels suffice. That these suffice
    is part of the theorems ([diff_roundtrip], [diff3_merge_sound],
    [cached_load_is_refold], [discovery_orders_units], [group_push_reflected]), which
    conclude with a result. The cells of the diff's table are 32-bit;
    [diff_minimal] asks for fewer than 2^32 lines. Lengths and ids in frames are
    32-bit and wrap as the code's [>>> 0] does.

    A loop that awaits ([while] of JsAsync) has no fuel: its runs are a relation, and
    that a run exists is proved where it matters ([sweep_restores_rows]). References in
    a blob are followed 64 deep ([HYDRATE_DEPTH], and [HYDRATE_FUEL] for a descriptor); an
    encoded payload needs one level ([stored_payload_returns]). Decoding a percent-encoded
    text takes its length ([external_id_returns]).

    Parts outside a model are interfaces: [ModelFailureClassifier] (model-errors.ts),
    [GadPort] and [GadCaller] (the gad store as the cache and the merge see it),
    [EventSchema] (the zod schema of agentic events) and [LogProjections] (the tables
    folded from the log and the worktree heads: an append only needs to know which states
    exist, and that folding an event never loses one; archiving, which state a worktree
    head has), [BlobStore] and [TextBlobs] with their laws, [ChannelStore] with its laws,
    [AgentStore] with its laws, [DriverDeps] (the settings, policies and connect specs of the
    vessel, and how a thrown model call is classified), [Sha256],
    [StateSource] (the workspace states the build reads) and [BuildHost] (the build
    store and the builder). The hypotheses of [cached_load_is_refold] ([serves],
    [hashes_identify]) are the store's contract: pages in order, and hashes that
    chain the log. The rows of a table are a list in the order of insertion, and a
    transaction that throws leaves the store as it was. Appends are taken with their
    declared types ([typed_append]: objects with distinct keys, ids without the
    character the cycle guard joins them by; the instance of [AgentStore] refuses others). A call to the store is one step.

    [store_step] are the operations of the store on any heads. The stores the theorems are
    about ([reachable] of GadStore) are reached by [orderly] steps: a head that is deleted,
    archived or restored has no fork, since the code does not look for forks and leaves
    them with a parent that is gone. Archiving and restoring move the rows of a head under
    another name, but the name is part of the hashed text: [reachable] carries the heads
    that were renamed, and the envelopes of those may be [sealed] under another name; the
    strict chains the integrity check asks for are those of the other heads.

    A channel starts unused, or as a clone: [reachable_clone] is postClone run to its end on
    a copy of another channel's tables, while others write to the store at its awaits. What
    [fold_states_are_folds] says of a log needs its envelopes [inline]: log-store.ts reads
    the log for policies without the values stored by reference.

    [fold_never_diverges] is about runs in which no append is answered with a replay of
    envelopes its instance has not folded yet ([Fresh] of AgentDriverLaws). The driver does
    not ensure it: an outcome delivered twice at once breaks it, and
    [duplicate_delivery_diverges] is the run that shows what follows. The same runs are
    those [crash_recovers] is about. The vessel's policies are taken to publish nothing of
    their own ([VesselLaws]), which those of policies/index.ts do not
    ([source_policies_name_acks]); the rows the driver keeps are then well formed, and those
    outside the log are named as read acks ([rows_ok]). Executors answer
    with any outcome at any time, other writers append to the logs, and the payloads of a
    batch are encoded one after the other.

    ** Not modelled, and what comes next

    User interfaces, process hosting, sockets and external services are not
    modelled. Of the channel, the queues that deliver what it sends, the title it
    pushes to the server and its read-only listings (participants, message types,
    inspection) are left out; what is sent is a list in the order it is handed over.
    Next, in this order: the
    pending requests of the rpc client; the vessel around the driver
    (agent-vessel.ts); the classifier of model failures; the approval queue; the channel reducers of agentic-protocol; the
    panel leases; the edits and commits of workspaceVcs.ts and the transition graph
    and the projections
    of the gad store. *)
From Stdlib Require Export Lia ZArith.
From stdpp Require Export base tactics option list strings pretty numbers.

(** * Computations that may throw *)

(** A JavaScript computation either returns a value or throws an [Error];
    the string is the error's message. *)
Inductive res (A : Type) : Type :=
  | Ok (a : A)
  | Throw (msg : string).
Arguments Ok {A} a.
Arguments Throw {A} msg.

Definition res_bind {A B} (m : res A) (k : A -> res B) : res B :=
  match m with
  | Ok a => k a
  | Throw e => Throw e
  end.

Definition res_ok {A} (m : res A) : bool :=
  match m with Ok _ => true | Throw _ => false end.

Declare Scope natstack_scope.
Delimit Scope natstack_scope with ns.
Notation "'let!' x := m 'in' k" := (res_bind m (fun x => k))
  (at level 10, x pattern, m at level 100, k at level 200) : natstack_scope.
Notation "s =s? t" := (String.eqb s t) (at level 70, no associativity) : natstack_scope.
Notation "s <>s? t" := (negb (String.eqb s t)) (at level 70, no associativity) : natstack_scope.
Notation "s ^^ t" := (String.append s t) (at level 60, right associativity) : natstack_scope.
#[global] Open Scope natstack_scope.

(** Left fold of a throwing step over a list, stopping at the first throw: the
    meaning of [for (const x of l) acc = f(acc, x)]. *)
Fixpoint res_foldl {St A} (f : St -> A -> res St) (s : St) (l : list A) : res St :=
  match l with
  | [] => Ok s
  | x :: l' => let! s' := f s x in res_foldl f s' l'
  end.

Lemma res_bind_Ok {A B} (m : res A) (k : A -> res B) b :
  res_bind m k = Ok b -> exists a, m = Ok a /\ k a = Ok b.
Proof. destruct m; simpl; [eauto | discriminate]. Qed.

Section Res.
Context {St A : Type}.

Lemma res_foldl_app (f : St -> A -> res St) s l1 l2 :
  res_foldl f s (l1 ++ l2) = res_bind (res_foldl f s l1) (fun s' => res_foldl f s' l2).
Proof.
  revert s; induction l1 as [|x l1 IH]; intros s; simpl; [done|].
  destruct (f s x); simpl; [apply IH | done].
Qed.

(** Rule for loops: an invariant of every successful step holds at the end. *)
Lemma res_foldl_inv (P : St -> Prop) (f : St -> A -> res St) l :
  (forall s x s', P s -> f s x = Ok s' -> P s') ->
  forall s s', P s -> res_foldl f s l = Ok s' -> P s'.
Proof.
  intros Hstep; induction l as [|x l IH]; intros s s' Hs H; simpl in H.
  - by simplify_eq.
  - apply res_bind_Ok in H as (s1 & H1 & H2). eauto.
Qed.
End Res.

(** [Boolean(o)] for an optional object. *)
Definition isSome {A} (o : option A) : bool :=
  match o with Some _ => true | None => false end.

(** * Lists *)

Lemma find_app {A} (p : A -> bool) l1 l2 :
  List.find p (l1 ++ l2) = match List.find p l1 with Some x => Some x | None => List.find p l2 end.
Proof. induction l1 as [|x l1 IH]; [done|]. simpl. by destruct (p x). Qed.

(** * Strings *)

Lemma string_eqb_refl s : (s =s? s) = true.
Proof. apply String.eqb_refl. Qed.

Lemma string_eqb_ne s t : s <> t -> (s =s? t) = false.
Proof. apply String.eqb_neq. Qed.

Lemma string_app_cons a s t : String.append (String a s) t = String a (String.append s t).
Proof. done. Qed.

Lemma string_app_inj_l (p s t : string) : String.append p s = String.append p t -> s = t.
Proof. induction p; [done|]. rewrite !string_app_cons. intros; simplify_eq; auto. Qed.

Lemma string_app_nil_r (s : string) : String.append s "" = s.
Proof. induction s; [done|]. rewrite string_app_cons. congruence. Qed.

Lemma string_app_assoc (s t u : string) :
  String.append s (String.append t u) = String.append (String.append s t) u.
Proof. induction s; [done|]. rewrite !string_app_cons. congruence. Qed.

(** [s.startsWith(p)]. *)
Definition startsWith (s p : string) : bool := String.prefix p s.

(** [s.slice(n)] for a non-negative [n]. *)
Fixpoint str_slice (n : nat) (s : string) : string :=
  match n, s with
  | O, _ => s
  | S n', String _ s' => str_slice n' s'
  | S _, EmptyString => EmptyString
  end.

Lemma startsWith_app p s : startsWith (String.append p s) p = true.
Proof.
  unfold startsWith. induction p as [|a p IH]; [by destruct s|].
  rewrite string_app_cons. simpl. by destruct (Ascii.ascii_dec a a).
Qed.

Lemma str_slice_app p s : str_slice (String.length p) (String.append p s) = s.
Proof. induction p; [done|]. by rewrite string_app_cons. Qed.

Lemma startsWith_inv s p :
  startsWith s p = true -> s = String.append p (str_slice (String.length p) s).
Proof.
  unfold startsWith. revert s; induction p as [|a p IH]; intros s H; [done|].
  destruct s as [|b s]; simpl in *; [done|].
  destruct (Ascii.ascii_dec a b); [subst | done].
  rewrite string_app_cons. f_equal. auto.
Qed.

(** * Tactics shared by the development *)

(** Invert every equation between results. *)
Ltac res_inv :=
  repeat match goal with
    | H : Ok _ = Ok _ |- _ => injection H as H
    | H : Throw _ = Ok _ |- _ => discriminate H
    | H : Ok _ = Throw _ |- _ => discriminate H
    | H : res_bind ?m _ = Ok _ |- _ =>
        let E := fresh "Hbind" in
        apply res_bind_Ok in H as (? & E & H)
    end.

(** Case analysis on the string comparisons of the goal or of the hypotheses. *)
Ltac case_str :=
  match goal with
  | |- context [String.eqb ?a ?b] => destruct (String.eqb_spec a b)
  | H : context [String.eqb ?a ?b] |- _ => destruct (String.eqb_spec a b)
  end.

(** Case analysis on the scrutinee of a match or conditional. *)
Ltac case_any :=
  match goal with
  | |- context [match ?x with _ => _ end] => destruct x eqn:?
  | H : context [match ?x with _ => _ end] |- _ => destruct x eqn:?
  end.

(** Decide a goal of propositional boolean equations by cases on its atoms. *)
Ltac bool_atom b :=
  lazymatch b with
  | true => fail | false => fail
  | andb _ _ => fail | orb _ _ => fail | negb _ => fail
  | _ => idtac
  end.

Ltac case_bool :=
  match goal with
  | |- context [negb ?b] => bool_atom b; destruct b eqn:?
  | |- context [andb ?b _] => bool_atom b; destruct b eqn:?
  | |- context [andb _ ?b] => bool_atom b; destruct b eqn:?
  | |- context [orb ?b _] => bool_atom b; destruct b eqn:?
  | |- context [orb _ ?b] => bool_atom b; destruct b eqn:?
  | H : context [negb ?b] |- _ => bool_atom b; destruct b eqn:?
  | H : context [andb ?b _] |- _ => bool_atom b; destruct b eqn:?
  | H : context [andb _ ?b] |- _ => bool_atom b; destruct b eqn:?
  | H : context [orb ?b _] |- _ => bool_atom b; destruct b eqn:?
  | H : context [orb _ ?b] |- _ => bool_atom b; destruct b eqn:?
  end.

Ltac bool_solve := repeat (case_bool; simpl in *; try congruence); try congruence.

Create HintDb natstack.
Create Rewrite HintDb natstack_rw.
#[export] Hint Rewrite string_eqb_refl string_app_nil_r startsWith_app str_slice_app : natstack_rw.
#[export] Hint Resolve string_app_inj_l : natstack.
