(* ===== verification/Dict.v ===== *)
(** Insertion-ordered dictionaries: the JavaScript objects the program uses as
    maps ([Record<string, T>], [Map<string, T>]) and the fields of object
    values.  Assigning an existing key keeps its position; a new key goes last;
    [Object.values] and [Object.keys] list in that order.  (Keys that spell an
    array index, which JavaScript moves to the front, are listed in insertion
    order here.) *)
From S2P Require Import Prelude.

Section Dict.
Context {V : Type}.

Definition dict := list (string * V).

Fixpoint dict_get (k : string) (d : dict) : option V :=
  match d with
  | [] => None
  | (k', v) :: d' => if k =s? k' then Some v else dict_get k d'
  end.

Fixpoint dict_set (k : string) (v : V) (d : dict) : dict :=
  match d with
  | [] => [(k, v)]
  | (k', v') :: d' => if k =s? k' then (k', v) :: d' else (k', v') :: dict_set k v d'
  end.

Fixpoint dict_del (k : string) (d : dict) : dict :=
  match d with
  | [] => []
  | (k', v') :: d' => if k =s? k' then dict_del k d' else (k', v') :: dict_del k d'
  end.

Definition dict_has (k : string) (d : dict) : bool :=
  match dict_get k d with Some _ => true | None => false end.

Definition dict_keys (d : dict) : list string := map fst d.
Definition dict_values (d : dict) : list V := map snd d.

(** [{ ...d, ...e }]. *)
Definition dict_merge (d e : dict) : dict :=
  fold_left (fun acc '(k, v) => dict_set k v acc) e d.

(** Every key occurs once. *)
Definition dict_wf (d : dict) : Prop := NoDup (dict_keys d).

Lemma dict_get_set_eq k v d : dict_get k (dict_set k v d) = Some v.
Proof.
  induction d as [|[k' v'] d IH]; simpl; [by rewrite string_eqb_refl|].
  destruct (String.eqb_spec k k'); simpl.
  - subst. by rewrite string_eqb_refl.
  - by rewrite string_eqb_ne.
Qed.

Lemma dict_get_set_ne k k' v d : k <> k' -> dict_get k' (dict_set k v d) = dict_get k' d.
Proof.
  intros Hne. induction d as [|[k1 v1] d IH]; simpl.
  - by rewrite string_eqb_ne by congruence.
  - destruct (String.eqb_spec k k1); simpl; [|by rewrite IH].
    subst. by rewrite string_eqb_ne by congruence.
Qed.

Lemma dict_set_set k v w d : dict_set k v (dict_set k w d) = dict_set k v d.
Proof.
  induction d as [|[k' v'] d IH]; simpl; [by rewrite string_eqb_refl|].
  destruct (k =s? k') eqn:E; simpl; rewrite E; [done|]. by rewrite IH.
Qed.

Lemma dict_set_same k v d : dict_get k d = Some v -> dict_set k v d = d.
Proof.
  induction d as [|[k' v'] d IH]; simpl; [done|].
  destruct (k =s? k'); [congruence|]. intros Hd. by rewrite IH.
Qed.

Lemma dict_get_del_eq k d : dict_get k (dict_del k d) = None.
Proof.
  induction d as [|[k' v'] d IH]; simpl; [done|].
  destruct (String.eqb_spec k k'); simpl; [done|]. by rewrite string_eqb_ne.
Qed.

Lemma dict_get_del_ne k k' d : k <> k' -> dict_get k' (dict_del k d) = dict_get k' d.
Proof.
  intros Hne. induction d as [|[k1 v1] d IH]; simpl; [done|].
  destruct (String.eqb_spec k k1); simpl; [|by rewrite IH].
  subst. by rewrite string_eqb_ne by congruence.
Qed.

Lemma dict_del_not_key k d : dict_get k d = None -> dict_del k d = d.
Proof.
  induction d as [|[k' v'] d IH]; simpl; [done|].
  destruct (k =s? k'); [done|]. intros. by rewrite IH.
Qed.

Lemma dict_get_app k d e :
  dict_get k (d ++ e) = match dict_get k d with Some v => Some v | None => dict_get k e end.
Proof.
  induction d as [|[k' v'] d IH]; simpl; [done|]. by destruct (k =s? k').
Qed.

Lemma dict_get_In k v d : dict_get k d = Some v -> In (k, v) d.
Proof.
  induction d as [|[k' v'] d IH]; simpl; [done|].
  destruct (String.eqb_spec k k'); intros; simplify_eq; auto.
Qed.

Lemma dict_get_value k v d : dict_get k d = Some v -> In v (dict_values d).
Proof. intros H%dict_get_In. apply (in_map snd) in H. done. Qed.

Lemma dict_In_get k v d : dict_wf d -> In (k, v) d -> dict_get k d = Some v.
Proof.
  unfold dict_wf. induction d as [|[k' v'] d IH]; simpl; [done|].
  intros [Hnin Hnd]%list.NoDup_cons [Heq|Hin]; simplify_eq; [by rewrite string_eqb_refl|].
  destruct (String.eqb_spec k k'); [subst|auto].
  destruct Hnin. apply list_elem_of_In. by apply (in_map fst) in Hin.
Qed.

Lemma dict_value_get v d : dict_wf d -> In v (dict_values d) -> exists k, dict_get k d = Some v.
Proof.
  intros Hwf ([k v'] & <- & Hin)%in_map_iff. exists k. by apply dict_In_get.
Qed.

Lemma dict_get_None_keys k d : dict_get k d = None <-> ~ In k (dict_keys d).
Proof.
  induction d as [|[k' v'] d IH]; simpl; [tauto|].
  destruct (String.eqb_spec k k'); [split; [done|]; intros []; auto|].
  rewrite IH. intuition congruence.
Qed.

Lemma dict_keys_set k v d :
  dict_keys (dict_set k v d) = if dict_has k d then dict_keys d else dict_keys d ++ [k].
Proof.
  unfold dict_has. induction d as [|[k' v'] d IH]; simpl; [done|].
  destruct (String.eqb_spec k k'); simpl; [done|].
  rewrite IH. by destruct (dict_get k d).
Qed.

Lemma dict_set_wf k v d : dict_wf d -> dict_wf (dict_set k v d).
Proof.
  unfold dict_wf. rewrite dict_keys_set. unfold dict_has.
  destruct (dict_get k d) eqn:E; [done|]. intros Hnd.
  apply list.NoDup_app. split; [done|]. split; [|apply NoDup_singleton].
  intros x Hx ->%list_elem_of_singleton.
  apply dict_get_None_keys in E. by apply list_elem_of_In in Hx.
Qed.

Lemma dict_keys_del_incl k d x : In x (dict_keys (dict_del k d)) -> In x (dict_keys d) /\ x <> k.
Proof.
  induction d as [|[k' v'] d IH]; simpl; [done|].
  destruct (String.eqb_spec k k'); simpl; [subst; intuition auto|].
  intros [<-|Hin]; [auto|]. intuition auto.
Qed.

Lemma dict_del_wf k d : dict_wf d -> dict_wf (dict_del k d).
Proof.
  unfold dict_wf. induction d as [|[k' v'] d IH]; simpl; [done|].
  intros [Hnin Hnd]%list.NoDup_cons. destruct (k =s? k'); simpl; [auto|].
  apply list.NoDup_cons. split; [|auto]. intros Hin. apply Hnin.
  apply list_elem_of_In in Hin. apply dict_keys_del_incl in Hin as [? _].
  by apply list_elem_of_In.
Qed.

Lemma dict_set_In k v d k' v' :
  In (k', v') (dict_set k v d) -> (k', v') = (k, v) \/ In (k', v') d.
Proof.
  induction d as [|[k1 v1] d IH]; simpl; [intros [?|[]]; auto|].
  destruct (String.eqb_spec k k1); simpl; intros [H|H]; simplify_eq; auto.
  destruct (IH H); auto.
Qed.

Lemma dict_del_In k d k' v' : In (k', v') (dict_del k d) -> In (k', v') d /\ k' <> k.
Proof.
  induction d as [|[k1 v1] d IH]; simpl; [done|].
  destruct (String.eqb_spec k k1); simpl.
  - subst. intros H. destruct (IH H). auto.
  - intros [H|H]; [simplify_eq; auto|]. destruct (IH H). auto.
Qed.

Lemma dict_del_del k d : dict_del k (dict_del k d) = dict_del k d.
Proof.
  induction d as [|[k' v] d IH]; simpl; [done|]. destruct (k =s? k') eqn:E; [done|]. simpl. by rewrite E, IH.
Qed.

Lemma dict_del_comm k k' d : dict_del k (dict_del k' d) = dict_del k' (dict_del k d).
Proof.
  induction d as [|[k2 v] d IH]; simpl; [done|]. destruct (k' =s? k2) eqn:E', (k =s? k2) eqn:E; simpl; rewrite ?E, ?E'; congruence.
Qed.

Lemma dict_del_keys k k' d : In k' (dict_keys (dict_del k d)) <-> In k' (dict_keys d) /\ k' <> k.
Proof.
  induction d as [|[k2 v] d IH]; simpl; [tauto|]. destruct (String.eqb_spec k k2) as [->|Hne]; simpl; rewrite IH; intuition congruence.
Qed.

(** A property of all bindings, kept by updates and removals. *)
Definition dict_all (P : string -> V -> Prop) (d : dict) : Prop :=
  forall k v, In (k, v) d -> P k v.

Lemma dict_all_set (P : string -> V -> Prop) k v d :
  P k v -> dict_all P d -> dict_all P (dict_set k v d).
Proof. intros Hkv Hall k' v' [Heq|?]%dict_set_In; simplify_eq; auto. Qed.

Lemma dict_all_del (P : string -> V -> Prop) k d : dict_all P d -> dict_all P (dict_del k d).
Proof. intros Hall k' v' [? _]%dict_del_In; auto. Qed.

Lemma dict_all_get (P : string -> V -> Prop) k v d : dict_all P d -> dict_get k d = Some v -> P k v.
Proof. intros Hall H%dict_get_In. auto. Qed.
End Dict.
Arguments dict V : clear implicits.

#[export] Hint Resolve dict_set_wf dict_del_wf dict_all_set dict_all_del : natstack.
#[export] Hint Rewrite @dict_get_set_eq @dict_get_del_eq : natstack_rw.
