(* ===== verification/JsValue.v ===== *)
(** JavaScript values, as far as the program handles values of type [unknown]:
    event payloads, causality records, configuration and session entries travel
    through the code as plain JSON data, are read field by field with [typeof]
    tests and defaults, and are cast without validation.  Numbers are integers,
    strings are strings of 8-bit characters. *)
From S2P Require Import Prelude Dict.
#[local] Open Scope Z_scope.

Inductive val : Type :=
  | VUndef
  | VNull
  | VBool (b : bool)
  | VNum (z : Z)
  | VStr (s : string)
  | VArr (l : list val)
  | VObj (fs : list (string * val)).

(** * Induction and decidable equality *)

Section ValInd.
Context (P : val -> Prop)
  (Hundef : P VUndef) (Hnull : P VNull) (Hbool : forall b, P (VBool b))
  (Hnum : forall z, P (VNum z)) (Hstr : forall s, P (VStr s))
  (Harr : forall l, Forall P l -> P (VArr l))
  (Hobj : forall fs, Forall (fun kv => P kv.2) fs -> P (VObj fs)).

Fixpoint val_ind_nested (v : val) : P v :=
  match v with
  | VUndef => Hundef
  | VNull => Hnull
  | VBool b => Hbool b
  | VNum z => Hnum z
  | VStr s => Hstr s
  | VArr l => Harr l ((fix go (l : list val) : Forall P l :=
      match l with
      | [] => Forall_nil_2 P
      | x :: l' => Forall_cons_2 P x l' (val_ind_nested x) (go l')
      end) l)
  | VObj fs => Hobj fs ((fix go (fs : list (string * val)) : Forall (fun kv => P kv.2) fs :=
      match fs with
      | [] => Forall_nil_2 _
      | kv :: fs' => Forall_cons_2 _ kv fs' (val_ind_nested kv.2) (go fs')
      end) fs)
  end.
End ValInd.

(** Equality of value trees. *)
Fixpoint val_eqb (v w : val) : bool :=
  match v, w with
  | VUndef, VUndef | VNull, VNull => true
  | VBool a, VBool b => Bool.eqb a b
  | VNum a, VNum b => a =? b
  | VStr a, VStr b => a =s? b
  | VArr l, VArr m =>
      (fix go (l m : list val) : bool :=
        match l, m with
        | [], [] => true
        | x :: l', y :: m' => val_eqb x y && go l' m'
        | _, _ => false
        end) l m
  | VObj f, VObj g =>
      (fix go (f g : list (string * val)) : bool :=
        match f, g with
        | [], [] => true
        | (k, x) :: f', (k', y) :: g' => (k =s? k') && val_eqb x y && go f' g'
        | _, _ => false
        end) f g
  | _, _ => false
  end.

Lemma val_eqb_eq v w : val_eqb v w = true <-> v = w.
Proof.
  revert w; induction v as [| | b | z | s | l IH | fs IH] using val_ind_nested;
    intros [| | b' | z' | s' | m | gs]; simpl; try (split; congruence).
  - rewrite Bool.eqb_true_iff. split; congruence.
  - rewrite Z.eqb_eq. split; congruence.
  - rewrite String.eqb_eq. split; congruence.
  - transitivity (l = m); [|split; congruence].
    revert m; induction IH as [|x l Hx _ IHl]; intros [|y m]; try (split; congruence).
    rewrite andb_true_iff, Hx, IHl. split; [intros [-> ->]|]; naive_solver.
  - transitivity (fs = gs); [|split; congruence].
    revert gs; induction IH as [|[k x] fs Hx _ IHfs]; intros [|[k' y] gs]; try (split; congruence).
    simpl in Hx. rewrite !andb_true_iff, Hx, IHfs, String.eqb_eq.
    split; [intros [[-> ->] ->]; done|]. intros Heq; by simplify_eq/=.
Qed.

#[global] Instance val_eq_dec : EqDecision val.
Proof.
  refine (fun v w => if decide (val_eqb v w = true) then left _ else right _);
    by rewrite <- val_eqb_eq.
Defined.

(** * Reading values *)

(** [v[k]] (with [v?.[k]] the same: a missing object reads as [undefined]). *)
Definition js_get (k : string) (v : val) : val :=
  match v with
  | VObj fs => match dict_get k fs with Some w => w | None => VUndef end
  | _ => VUndef
  end.

Notation "v .! k" := (js_get k v) (at level 2, k at level 0, left associativity, format "v '.!' k")
  : natstack_scope.

(** [a ?? b]. *)
Definition js_nullish (a b : val) : val :=
  match a with VUndef | VNull => b | _ => a end.

Notation "a ?? b" := (js_nullish a b) (at level 55, right associativity) : natstack_scope.

Definition truthy (v : val) : bool :=
  match v with
  | VUndef | VNull => false
  | VBool b => b
  | VNum z => negb (z =? 0)
  | VStr s => s <>s? ""
  | VArr _ | VObj _ => true
  end.

(** [typeof v === "string"], and the string. *)
Definition as_str (v : val) : option string :=
  match v with VStr s => Some s | _ => None end.

(** [typeof v === "number"], and the number. *)
Definition as_num (v : val) : option Z :=
  match v with VNum z => Some z | _ => None end.

(** [Array.isArray(v) ? v : []]. *)
Definition arr_or_nil (v : val) : list val :=
  match v with VArr l => l | _ => [] end.

(** [v && typeof v === "object" && !Array.isArray(v)]. *)
Definition is_record (v : val) : bool :=
  match v with VObj _ => true | _ => false end.

(** [v && typeof v === "object"]. *)
Definition is_object (v : val) : bool :=
  match v with VObj _ | VArr _ => true | _ => false end.

(** The own fields of a value that is spread into an object literal. *)
Definition fields (v : val) : list (string * val) :=
  match v with VObj fs => fs | _ => [] end.

(** [v === "lit"], [v === true]. *)
Definition is_lit (v : val) (s : string) : bool :=
  match v with VStr t => t =s? s | _ => false end.
Definition is_true (v : val) : bool :=
  match v with VBool b => b | _ => false end.
Definition is_false (v : val) : bool :=
  match v with VBool b => negb b | _ => false end.

(** [a === b]; two objects that were built separately are never identical. *)
Definition strict_eqb (a b : val) : bool :=
  match a, b with
  | VUndef, VUndef | VNull, VNull => true
  | VBool x, VBool y => Bool.eqb x y
  | VNum x, VNum y => x =? y
  | VStr x, VStr y => x =s? y
  | _, _ => false
  end.

(** [n > v] for a number [n]; a missing bound compares as [NaN]. *)
Definition num_gt (n : Z) (v : val) : bool :=
  match v with
  | VNum m => m <? n
  | VNull => 0 <? n
  | VBool b => (if b then 1 else 0) <? n
  | _ => false
  end.

(** [n <= v]. *)
Definition num_le (n : Z) (v : val) : bool :=
  match v with
  | VNum m => n <=? m
  | VNull => n <=? 0
  | VBool b => n <=? (if b then 1 else 0)
  | _ => false
  end.

(** [String(v)]; an array joins its elements with commas. *)
Fixpoint to_str (v : val) : string :=
  match v with
  | VUndef => "undefined"
  | VNull => "null"
  | VBool b => if b then "true" else "false"
  | VNum z => pretty z
  | VStr s => s
  | VArr l =>
      String.concat "," ((fix go (l : list val) : list string :=
        match l with
        | [] => []
        | (VUndef | VNull) :: l' => "" :: go l'
        | x :: l' => to_str x :: go l'
        end) l)
  | VObj _ => "[object Object]"
  end.

(** * Building values *)

(** [...(v ? { k: v } : {})]. *)
Definition opt_field (k : string) (v : val) : list (string * val) :=
  if truthy v then [(k, v)] else [].

(** [...(v !== undefined ? { k: v } : {})]. *)
Definition def_field (k : string) (v : val) : list (string * val) :=
  match v with VUndef => [] | _ => [(k, v)] end.

(** An optional string as a value. *)
Definition of_ostr (o : option string) : val :=
  match o with Some s => VStr s | None => VUndef end.
Definition of_onum (o : option Z) : val :=
  match o with Some z => VNum z | None => VUndef end.

Lemma js_get_obj k fs : js_get k (VObj fs) = default VUndef (dict_get k fs).
Proof. simpl. by destruct (dict_get k fs). Qed.

Lemma dict_get_opt_field k k' v :
  dict_get k (opt_field k' v) = if truthy v then (if k =s? k' then Some v else None) else None.
Proof. unfold opt_field. by destruct (truthy v). Qed.

Lemma dict_get_def_field k k' v :
  dict_get k (def_field k' v) =
  match v with VUndef => None | _ => if k =s? k' then Some v else None end.
Proof. by destruct v. Qed.

Lemma is_record_truthy v : is_record v = true -> truthy v = true.
Proof. by destruct v. Qed.

Lemma is_lit_str v s : is_lit v s = true <-> v = VStr s.
Proof. destruct v; simpl; try (split; congruence). rewrite String.eqb_eq. split; congruence. Qed.

Lemma is_true_bool v : is_true v = true <-> v = VBool true.
Proof. destruct v as [| |[]| | | |]; simpl; split; congruence. Qed.

#[export] Hint Rewrite js_get_obj @dict_get_app dict_get_opt_field dict_get_def_field : natstack_rw.
