(* ===== verification/JsText.v ===== *)
(** The parts of JavaScript's standard library on text that the program calls:
    [toLowerCase], [trim], [includes], [indexOf], [JSON.stringify], and
    dates in the ISO date-time format; and the digest function of the platform. *)
From S2P Require Import Prelude Dict JsValue.
From Stdlib Require Import Ascii.
#[local] Open Scope Z_scope.

Definition code (c : ascii) : Z := Z.of_nat (nat_of_ascii c).

Definition in_range (lo hi z : Z) : bool := (lo <=? z) && (z <=? hi).

(** [s.toLowerCase()] on ASCII letters. *)
Definition lower_char (c : ascii) : ascii :=
  if in_range 65 90 (code c) then ascii_of_nat (nat_of_ascii c + 32) else c.

Fixpoint toLowerCase (s : string) : string :=
  match s with
  | EmptyString => EmptyString
  | String c s' => String (lower_char c) (toLowerCase s')
  end.

(** White space removed by [trim]: tab, line feed, vertical tab, form feed,
    carriage return, space and the no-break space. *)
Definition is_space (c : ascii) : bool :=
  in_range 9 13 (code c) || (code c =? 32) || (code c =? 160).

Fixpoint trim_start (s : string) : string :=
  match s with
  | String c s' => if is_space c then trim_start s' else s
  | EmptyString => EmptyString
  end.

Fixpoint str_rev_onto (s acc : string) : string :=
  match s with
  | EmptyString => acc
  | String c s' => str_rev_onto s' (String c acc)
  end.

Definition str_rev (s : string) : string := str_rev_onto s "".

(** [s.trim()]. *)
Definition trim (s : string) : string := str_rev (trim_start (str_rev (trim_start s))).

(** [s.includes(needle)]. *)
Fixpoint includes (needle s : string) : bool :=
  startsWith s needle ||
  match s with
  | EmptyString => false
  | String _ s' => includes needle s'
  end.

(** [s.indexOf(c)] for a one-character needle; [None] is -1. *)
Fixpoint indexOf (c : ascii) (s : string) : option nat :=
  match s with
  | EmptyString => None
  | String d s' => if Ascii.eqb c d then Some O else S <$> indexOf c s'
  end.

(** [s.slice(0, n)]. *)
Fixpoint str_take (n : nat) (s : string) : string :=
  match n, s with
  | S n', String c s' => String c (str_take n' s')
  | _, _ => EmptyString
  end.

(** A character that [\b] counts as part of a word. *)
Definition is_word (c : ascii) : bool :=
  in_range 48 57 (code c) || in_range 65 90 (code c) || in_range 97 122 (code c) || (code c =? 95).

Definition starts_with_word (s : string) : bool :=
  match s with String c _ => is_word c | EmptyString => false end.

(** [/\b(w1|w2|...)\b/.test(s)] for non-empty words of word characters;
    [prev] says whether the character before [s] is a word character. *)
Fixpoint matches_word (words : list string) (prev : bool) (s : string) : bool :=
  match s with
  | EmptyString => false
  | String c s' =>
      (negb prev &&
       existsb (fun w => startsWith s w && negb (starts_with_word (str_slice (String.length w) s))) words)
      || matches_word words (is_word c) s'
  end.

(** * JSON.stringify *)

Definition hex_digit (z : Z) : ascii :=
  ascii_of_nat (Z.to_nat (if z <? 10 then 48 + z else 87 + z)).

Definition json_escape_char (c : ascii) : string :=
  let n := code c in
  if n =? 34 then String "\" (String c "")
  else if n =? 92 then String "\" (String c "")
  else if n =? 8 then "\b"
  else if n =? 9 then "\t"
  else if n =? 10 then "\n"
  else if n =? 12 then "\f"
  else if n =? 13 then "\r"
  else if n <? 32 then
    String.append "\u00" (String (hex_digit (n / 16)) (String (hex_digit (n mod 16)) ""))
  else String c "".

Fixpoint json_escape (s : string) : string :=
  match s with
  | EmptyString => EmptyString
  | String c s' => String.append (json_escape_char c) (json_escape s')
  end.

Definition json_quote (s : string) : string :=
  String.append (String "034" (json_escape s)) (String "034" "").

(** [JSON.stringify(v)]; [None] is [undefined].  Fields that are [undefined]
    are left out of objects and become [null] in arrays. *)
Fixpoint json_stringify (v : val) : option string :=
  match v with
  | VUndef => None
  | VNull => Some "null"
  | VBool b => Some (if b then "true" else "false")
  | VNum z => Some (pretty z)
  | VStr s => Some (json_quote s)
  | VArr l =>
      let items := (fix go (l : list val) : list string :=
        match l with
        | [] => []
        | x :: l' => default "null" (json_stringify x) :: go l'
        end) l in
      Some (String.append "[" (String.append (String.concat "," items) "]"))
  | VObj fs =>
      let items := (fix go (fs : list (string * val)) : list string :=
        match fs with
        | [] => []
        | (k, x) :: fs' =>
            match json_stringify x with
            | None => go fs'
            | Some t => String.append (json_quote k) (String.append ":" t) :: go fs'
            end
        end) fs in
      Some (String.append "{" (String.append (String.concat "," items) "}"))
  end.

(** * Date.parse *)

Definition digit (c : ascii) : option Z :=
  if in_range 48 57 (code c) then Some (code c - 48) else None.

(** Reads exactly [n] decimal digits. *)
Fixpoint read_digits (n : nat) (acc : Z) (s : string) : option (Z * string) :=
  match n with
  | O => Some (acc, s)
  | S n' =>
      match s with
      | String c s' => match digit c with Some d => read_digits n' (10 * acc + d) s' | None => None end
      | EmptyString => None
      end
  end.

Definition read_char (c : ascii) (s : string) : option string :=
  match s with
  | String d s' => if Ascii.eqb c d then Some s' else None
  | EmptyString => None
  end.

(** Days from 1970-01-01 to a date of the proleptic Gregorian calendar. *)
Definition days_from_civil (y m d : Z) : Z :=
  let y' := if m <=? 2 then y - 1 else y in
  let era := y' / 400 in
  let yoe := y' - era * 400 in
  let doy := (153 * (if 2 <? m then m - 3 else m + 9) + 2) / 5 + d - 1 in
  let doe := yoe * 365 + yoe / 4 - yoe / 100 + doy in
  era * 146097 + doe - 719468.

(** Fractions of a second: one to three digits, in milliseconds. *)
Definition read_millis (s : string) : option (Z * string) :=
  match read_char "." s with
  | None => Some (0, s)
  | Some s1 =>
      match read_digits 3 0 s1 with
      | Some r => Some r
      | None =>
          match read_digits 2 0 s1 with
          | Some (v, r) => Some (10 * v, r)
          | None => match read_digits 1 0 s1 with Some (v, r) => Some (100 * v, r) | None => None end
          end
      end
  end.

(** The zone, in minutes east of UTC: [Z] or [+hh:mm] or [-hh:mm]. *)
Definition read_zone (s : string) : option Z :=
  match s with
  | String "Z" EmptyString => Some 0
  | String c s1 =>
      match (if Ascii.eqb c "+" then Some 1 else if Ascii.eqb c "-" then Some (-1) else None) with
      | None => None
      | Some sign =>
          match read_digits 2 0 s1 with
          | Some (h, s2) =>
              match read_char ":" s2 with
              | Some s3 =>
                  match read_digits 2 0 s3 with
                  | Some (m, EmptyString) => Some (sign * (60 * h + m))
                  | _ => None
                  end
              | None => None
              end
          | None => None
          end
      end
  | EmptyString => None
  end.

#[local] Notation "'try!' x := m 'in' k" := (match m with Some x => k | None => None end)
  (at level 10, x pattern, m at level 100, k at level 200).

(** [Date.parse(s)] in milliseconds, on [YYYY-MM-DDTHH:mm:ss(.s+)?(Z|+hh:mm)]
    and [YYYY-MM-DD]; [None] is [NaN]. *)
Definition Date_parse (s : string) : option Z :=
  try! (y, s1) := read_digits 4 0 s in
  try! s2 := read_char "-" s1 in
  try! (mo, s3) := read_digits 2 0 s2 in
  try! s4 := read_char "-" s3 in
  try! (d, s5) := read_digits 2 0 s4 in
  if negb (in_range 1 12 mo && in_range 1 31 d) then None
  else
    let day := days_from_civil y mo d * 86400000 in
    match s5 with
    | EmptyString => Some day
    | _ =>
        try! s6 := read_char "T" s5 in
        try! (h, s7) := read_digits 2 0 s6 in
        try! s8 := read_char ":" s7 in
        try! (mi, s9) := read_digits 2 0 s8 in
        try! s10 := read_char ":" s9 in
        try! (sec, s11) := read_digits 2 0 s10 in
        try! (ms, s12) := read_millis s11 in
        try! zone := read_zone s12 in
        if in_range 0 23 h && in_range 0 59 mi && in_range 0 59 sec
        then Some (day + ((h * 60 + mi - zone) * 60 + sec) * 1000 + ms)
        else None
    end.

Example Date_parse_epoch : Date_parse "1970-01-01T00:00:00.000Z" = Some 0.
Proof. reflexivity. Qed.
Example Date_parse_2026 : Date_parse "2026-05-20T12:00:00.000Z" = Some 1779278400000.
Proof. reflexivity. Qed.

(** [Date.prototype.toISOString]: the text of an instant, the inverse of [Date_parse]. *)
(** The date of a day counted from 1970-01-01. *)
Definition civil_from_days (days : Z) : Z * Z * Z :=
  let z := days + 719468 in
  let era := z / 146097 in
  let doe := z - era * 146097 in
  let yoe := (doe - doe / 1460 + doe / 36524 - doe / 146096) / 365 in
  let doy := doe - (365 * yoe + yoe / 4 - yoe / 100) in
  let mp := (5 * doy + 2) / 153 in
  let d := doy - (153 * mp + 2) / 5 + 1 in
  let m := if mp <? 10 then mp + 3 else mp - 9 in
  ((if m <=? 2 then yoe + era * 400 + 1 else yoe + era * 400), m, d).

Definition digit_char (d : Z) : ascii := ascii_of_nat (48 + Z.to_nat d).

(** The last [n] decimal digits of a number. *)
Fixpoint pad (n : nat) (z : Z) (rest : string) : string :=
  match n with
  | O => rest
  | S n' => pad n' (z / 10) (String (digit_char (z mod 10)) rest)
  end.

(** For the years 0 to 9999. *)
Definition toISOString (t : Z) : string :=
  let days := t / 86400000 in
  let ms := t mod 86400000 in
  let '(y, m, d) := civil_from_days days in
  pad 4 y (String "-" (pad 2 m (String "-" (pad 2 d (String "T"
    (pad 2 (ms / 3600000) (String ":" (pad 2 (ms / 60000 mod 60) (String ":"
    (pad 2 (ms / 1000 mod 60) (String "." (pad 3 (ms mod 1000) "Z")))))))))))).

Example iso_epoch : toISOString 0 = "1970-01-01T00:00:00.000Z".
Proof. reflexivity. Qed.
Example iso_2026 : toISOString 1779278400123 = "2026-05-20T12:00:00.123Z".
Proof. reflexivity. Qed.
Example iso_leap_day : toISOString 951782399999 = "2000-02-28T23:59:59.999Z" /\ Date_parse (toISOString 951825600000) = Some 951825600000.
Proof. split; reflexivity. Qed.

(** SHA-256 as the program uses it: the hexadecimal digest of the bytes of a text. *)
(** [crypto.createHash("sha256")] on the bytes updated, in hexadecimal. *)
Class Sha256 := sha256_hex : string -> string.
