(* ===== verification/JsAsync.v ===== *)
(** Asynchronous functions. A program is what an [async] function does from one [await]
    to the next: the code between two awaits runs alone, and at an await any other
    function of the process, or another process, may run. A program is data, so a loop
    over remote pages needs no bound. Programs run alone ([run], [exec]), or among
    others, where they are verified one at a time: [wp] asks a program to keep the
    invariant and the relation [R] in which the world may move under everyone. *)
From S2P Require Import Prelude.

Inductive prog (W : Type) : Type -> Type :=
| Done {A} (r : res A) : prog W A
| Act {A B} (f : W -> W * B) (k : B -> prog W A) : prog W A
| Yield {A} (k : prog W A) : prog W A
| Until {A} (c : W -> bool) (k : prog W A) : prog W A
| Loop {A T B} (body : T -> prog W (T + B)) (s : T) (k : res B -> prog W A) : prog W A.
Arguments Done {W A} r.
Arguments Act {W A B} f k.
Arguments Yield {W A} k.
Arguments Until {W A} c k.
Arguments Loop {W A T B} body s k.

Section Prog.
Context {W : Type}.
Abbreviation prog := (prog W).

(** [k] after [p], told how [p] ended: the one sequencing of [try], [catch], [finally]. *)
Fixpoint bindr {A B} (p : prog A) : (res A -> prog B) -> prog B :=
  match p in JsAsync.prog _ A return (res A -> prog B) -> prog B with
  | Done r => fun k => k r
  | Act f c => fun k => Act f (fun b => bindr (c b) k)
  | Yield c => fun k => Yield (bindr c k)
  | Until cond c => fun k => Until cond (bindr c k)
  | Loop body s c => fun k => Loop body s (fun r => bindr (c r) k)
  end.

(** Sequencing; a throw ends both. *)
Definition bind {A B} (p : prog A) (k : A -> prog B) : prog B :=
  bindr p (fun r => match r with Ok a => k a | Throw e => Done (Throw e) end).

Definition ret {A} (a : A) : prog A := Done (Ok a).
Definition raise {A} (e : string) : prog A := Done (Throw e).
Definition act {A} (f : W -> W * A) : prog A := Act f ret.
Definition act_res {A} (f : W -> W * res A) : prog A := Act f Done.
Definition get {A} (f : W -> A) : prog A := act (fun w => (w, f w)).
Definition modify (f : W -> W) : prog unit := act (fun w => (f w, tt)).

(** A call to another process: it is sent, served at some time, and answered later. *)
Definition remote {A} (f : W -> W * res A) : prog A := Yield (Act f (fun r => Yield (Done r))).

Definition while {T B} (body : T -> prog (T + B)) (s : T) : prog B := Loop body s Done.

(** An [async] function: whoever awaits it goes on in a later turn. *)
Definition async {A} (p : prog A) : prog A := bindr p (fun r => Yield (Done r)).

(** [for (const x of l) await f(x)]. *)
Fixpoint for_each {A} (f : A -> prog unit) (l : list A) : prog unit :=
  match l with
  | [] => ret tt
  | x :: l' => bind (f x) (fun _ => for_each f l')
  end.

(** One round of a loop. *)
Definition unroll {A T B} (body : T -> prog (T + B)) (s : T) (k : res B -> prog A) : prog A :=
  bindr (body s) (fun r =>
    match r with
    | Ok (inl s') => Loop body s' k
    | Ok (inr b) => k (Ok b)
    | Throw e => k (Throw e)
    end).

(** One step; [None] when it waits or has ended. *)
Definition pstep {A} (p : prog A) (w : W) : option (W * prog A) :=
  match p in JsAsync.prog _ A return option (W * prog A) with
  | Done _ => None
  | Act f k => let '(w', b) := f w in Some (w', k b)
  | Yield k => Some (w, k)
  | Until c k => if c w then Some (w, k) else None
  | Loop body s k => Some (w, unroll body s k)
  end.

(** At an await, or at its end. *)
Definition parked {A} (p : prog A) : bool :=
  match p with Done _ | Yield _ | Until _ _ => true | Act _ _ | Loop _ _ _ => false end.

(** [n] steps, or as many as there are: where a crash may stop a program. *)
Fixpoint steps {A} (n : nat) (p : prog A) (w : W) : W * prog A :=
  match n, pstep p w with
  | S n', Some (w', p') => steps n' p' w'
  | _, _ => (w, p)
  end.

(** How it ended, when it has. *)
Definition outcome {A} (p : prog A) : option (res A) :=
  match p in JsAsync.prog _ A return option (res A) with Done r => Some r | _ => None end.

Lemma outcome_Done A (p : prog A) r : outcome p = Some r -> p = Done r.
Proof. by destruct p; simpl; intros [= <-]. Qed.

(** * Running alone *)

Inductive run : forall {A}, prog A -> W -> W -> res A -> Prop :=
| run_done A (r : res A) w : run (Done r) w w r
| run_act A B (f : W -> W * B) (k : B -> prog A) w w' r : run (k (f w).2) (f w).1 w' r -> run (Act f k) w w' r
| run_yield A (k : prog A) w w' r : run k w w' r -> run (Yield k) w w' r
| run_until A c (k : prog A) w w' r : c w = true -> run k w w' r -> run (Until c k) w w' r
| run_again A T B (body : T -> prog (T + B)) s (k : res B -> prog A) s' w w1 w' r :
    run (body s) w w1 (Ok (inl s')) -> run (Loop body s' k) w1 w' r -> run (Loop body s k) w w' r
| run_break A T B (body : T -> prog (T + B)) s (k : res B -> prog A) b w w1 w' r :
    run (body s) w w1 (Ok (inr b)) -> run (k (Ok b)) w1 w' r -> run (Loop body s k) w w' r
| run_throw A T B (body : T -> prog (T + B)) s (k : res B -> prog A) e w w1 w' r :
    run (body s) w w1 (Throw e) -> run (k (Throw e)) w1 w' r -> run (Loop body s k) w w' r.

Fixpoint exec (fuel : nat) {A} (p : prog A) (w : W) : option (W * res A) :=
  match fuel with
  | O => None
  | S fuel' =>
      match p in JsAsync.prog _ A return option (W * res A) with
      | Done r => Some (w, r)
      | Act f k => let '(w', b) := f w in exec fuel' (k b) w'
      | Yield k => exec fuel' k w
      | Until c k => if c w then exec fuel' k w else None
      | Loop body s k =>
          match exec fuel' (body s) w with
          | Some (w1, Ok (inl s')) => exec fuel' (Loop body s' k) w1
          | Some (w1, Ok (inr b)) => exec fuel' (k (Ok b)) w1
          | Some (w1, Throw e) => exec fuel' (k (Throw e)) w1
          | None => None
          end
      end
  end.

Lemma exec_run fuel : forall A (p : prog A) w w' r, exec fuel p w = Some (w', r) -> run p w w' r.
Proof.
  induction fuel as [|fuel IH]; intros A p w w' r; [done|].
  destruct p as [A r'|A B f k|A k|A c k|A T B body s k]; simpl; intros H.
  - injection H as <- <-. constructor.
  - constructor. destruct (f w). by apply IH.
  - constructor. by apply IH.
  - destruct (c w) eqn:E; [|done]. constructor; [done|by apply IH].
  - destruct (exec fuel (body s) w) as [[w1 [[s'|b]|e]]|] eqn:E; [..|done]; apply IH in E, H.
    + by eapply run_again.
    + by eapply run_break.
    + by eapply run_throw.
Qed.

Lemma run_bindr A B (p : prog A) (k : res A -> prog B) w w1 w' r1 r :
  run p w w1 r1 -> run (k r1) w1 w' r -> run (bindr p k) w w' r.
Proof.
  intros Hp. revert B k r. induction Hp; intros B' k' r' Hk; simpl.
  - done.
  - constructor. by apply IHHp.
  - constructor. by apply IHHp.
  - constructor; [done|]. by apply IHHp.
  - eapply run_again; [done|]. by apply IHHp2.
  - eapply run_break; [done|]. by apply IHHp2.
  - eapply run_throw; [done|]. by apply IHHp2.
Qed.

Lemma run_bind A B (p : prog A) (k : A -> prog B) w w1 w' a r :
  run p w w1 (Ok a) -> run (k a) w1 w' r -> run (bind p k) w w' r.
Proof. intros H1 H2. by eapply run_bindr. Qed.

Lemma run_remote A (f : W -> W * res A) w w' r : f w = (w', r) -> run (remote f) w w' r.
Proof. intros E. do 3 constructor. rewrite E. constructor. Qed.

Lemma run_async A (p : prog A) w w' r : run p w w' r -> run (async p) w w' r.
Proof. intros H. eapply run_bindr; [done|]. repeat constructor. Qed.

Lemma run_Act A (f : W -> W * A) w w' a : f w = (w', a) -> run (act f) w w' (Ok a).
Proof. intros E. constructor. rewrite E. constructor. Qed.

(** * Running among others *)

Section Wp.
Context (R : W -> W -> Prop) (I : W -> Prop).

(** [wp p Q w]: from [w], whatever the others do at its awaits within [R] and [I], [p]
    only takes steps of [R] that keep [I], and ends with [Q]. *)
Fixpoint wp {A} (p : prog A) : (res A -> W -> Prop) -> W -> Prop :=
  match p in JsAsync.prog _ A return (res A -> W -> Prop) -> W -> Prop with
  | Done r => fun Q w => Q r w
  | Act f k => fun Q w => R w (f w).1 /\ I (f w).1 /\ wp (k (f w).2) Q (f w).1
  | Yield k => fun Q w => forall w', R w w' -> I w' -> wp k Q w'
  | Until c k => fun Q w => forall w', R w w' -> I w' -> c w' = true -> wp k Q w'
  | @Loop _ _ T B body s k => fun Q w =>
      exists Inv : T -> W -> Prop, Inv s w /\
        forall s w, I w -> Inv s w ->
          wp (body s) (fun r w =>
            match r with
            | Ok (inl s') => Inv s' w
            | Ok (inr b) => wp (k (Ok b)) Q w
            | Throw e => wp (k (Throw e)) Q w
            end) w
  end.

Lemma wp_mono A (p : prog A) : forall (Q Q' : res A -> W -> Prop) w, I w ->
  (forall r w, I w -> Q r w -> Q' r w) -> wp p Q w -> wp p Q' w.
Proof.
  induction p as [A r|A B f k IH|A k IH|A c k IH|A T B body IHb s k IH]; intros Q Q' w HI HQ H; simpl in *.
  - auto.
  - destruct H as (HR & HI' & H). eauto.
  - eauto.
  - eauto.
  - destruct H as (Inv & Hs & Hbody). exists Inv. split; [done|]. intros s1 w1 HI1 Hs1.
    eapply IHb; [done| |by apply Hbody]. intros [[s'|b]|e] w2 HI2 H2; simpl in *; eauto.
Qed.

Lemma wp_bindr A (p : prog A) : forall B (k : res A -> prog B) Q w, I w ->
  wp p (fun r w => wp (k r) Q w) w -> wp (bindr p k) Q w.
Proof.
  induction p as [A r|A B f c IH|A c IH|A cond c IH|A T B body IHb s c IH]; intros C k Q w HI H; simpl in *.
  - done.
  - destruct H as (HR & HI' & H). eauto.
  - eauto.
  - eauto.
  - destruct H as (Inv & Hs & Hbody). exists Inv. split; [done|]. intros s1 w1 HI1 Hs1.
    eapply wp_mono; [done| |by apply Hbody]. intros [[s'|b]|e] w2 HI2 H2; simpl in *; eauto.
Qed.

Lemma wp_async A (p : prog A) Q w : I w -> (forall r w w', I w -> R w w' -> I w' -> Q r w -> Q r w') ->
  wp p Q w -> wp (async p) Q w.
Proof. intros HI HQ H. apply wp_bindr; [done|]. eapply wp_mono; [done| |done]. simpl. eauto. Qed.

Lemma wp_bind A B (p : prog A) (k : A -> prog B) Q w : I w ->
  wp p (fun r w => match r with Ok a => wp (k a) Q w | Throw e => Q (Throw e) w end) w -> wp (bind p k) Q w.
Proof. intros HI H. apply wp_bindr; [done|]. eapply wp_mono; [done| |done]. by intros [a|e] w' _. Qed.

(** A step keeps the invariant, is in [R], and leaves the rest verified. *)
Lemma wp_step A (p p' : prog A) Q w w' : I w -> R w w ->
  wp p Q w -> pstep p w = Some (w', p') -> (R w w' /\ I w') /\ wp p' Q w'.
Proof.
  intros HI HR. destruct p as [A r|A B f k|A k|A c k|A T B body s k]; simpl; intros H E.
  - done.
  - destruct H as (H1 & H2 & H3). destruct (f w) as [w1 b]. by simplify_eq.
  - simplify_eq. auto.
  - destruct (c w) eqn:Hc; simplify_eq. auto.
  - simplify_eq. split; [done|]. destruct H as (Inv & Hs & Hbody). unfold unroll.
    apply wp_bindr; [done|]. eapply wp_mono; [done| |by apply Hbody].
    intros [[s'|b]|e] w2 HI2 H2; [|done..]. simpl. by exists Inv.
Qed.

Lemma wp_remote A (f : W -> W * res A) Q w :
  (forall w1, R w w1 -> I w1 -> R w1 (f w1).1 /\ I (f w1).1 /\
     forall w2, R (f w1).1 w2 -> I w2 -> Q (f w1).2 w2) -> wp (remote f) Q w.
Proof. intros H. simpl. intros w1 H1 HI1. by apply H. Qed.

Context `{!PreOrder R}.

(** What [R] keeps of the start is known at the end. *)
Lemma wp_R A (p : prog A) : forall (Q : res A -> W -> Prop) w0 w, R w0 w ->
  wp p Q w -> wp p (fun r w' => R w0 w' /\ Q r w') w.
Proof.
  induction p as [A r|A B f k IH|A k IH|A c k IH|A T B body IHb s k IH]; intros Q w0 w HR H; simpl in *.
  - done.
  - destruct H as (H1 & H2 & H3). split; [done|]. split; [done|]. apply IH; [by trans w|done].
  - intros w' H1 HI1. apply IH; [by trans w|by apply H].
  - intros w' H1 HI1 Hc. apply IH; [by trans w|by apply H].
  - destruct H as (Inv & Hs & Hbody). exists (fun s w => R w0 w /\ Inv s w). split; [done|].
    intros s1 w1 HI1 [HR1 Hs1]. eapply wp_mono; [done| |apply IHb; [exact HR1|by apply Hbody]].
    intros [[s'|b]|e] w2 HI2 [HR2 H2]; simpl in *; [done|by apply IH..].
Qed.

(** * Programs that may throw at any time *)

(** [Q] when the program ends without a throw. *)
Definition okp {A} (Q : A -> W -> Prop) (r : res A) (w : W) : Prop :=
  match r with Ok a => Q a w | Throw _ => True end.

Lemma wp_seq A B (p : prog A) (k : A -> prog B) Q1 Q w : I w -> wp p (okp Q1) w ->
  (forall a w', R w w' -> I w' -> Q1 a w' -> wp (k a) (okp Q) w') -> wp (bind p k) (okp Q) w.
Proof.
  intros HI Hp Hk. apply wp_bind; [done|]. apply (wp_R _ _ _ w w (reflexivity w)) in Hp.
  eapply wp_mono; [done| |exact Hp]. intros [a|e] w' HI' [HR HQ]; simpl in *; eauto.
Qed.

Lemma wp_ok A (p : prog A) (Q Q' : A -> W -> Prop) w : I w -> wp p (okp Q) w ->
  (forall a w', R w w' -> I w' -> Q a w' -> Q' a w') -> wp p (okp Q') w.
Proof.
  intros HI Hp HQ. apply (wp_R _ _ _ w w (reflexivity w)) in Hp.
  eapply wp_mono; [done| |exact Hp]. intros [a|e] w' HI' [HR H]; simpl in *; eauto.
Qed.

(** After [p], whatever becomes of it. *)
Lemma wp_after A B (p : prog A) (k : res A -> prog B) Q1 Q w : I w -> wp p (okp Q1) w ->
  (forall r w', R w w' -> I w' -> okp Q1 r w' -> wp (k r) (okp Q) w') -> wp (bindr p k) (okp Q) w.
Proof.
  intros HI Hp Hk. apply wp_bindr; [done|]. apply (wp_R _ _ _ w w (reflexivity w)) in Hp.
  eapply wp_mono; [done| |exact Hp]. intros r w' HI' [HR HQ]. by apply Hk.
Qed.

Lemma wp_async_ok A (p : prog A) (Q : A -> W -> Prop) w : I w ->
  (forall a w w', I w -> R w w' -> I w' -> Q a w -> Q a w') -> wp p (okp Q) w -> wp (async p) (okp Q) w.
Proof. intros HI HQ. apply wp_async; [done|]. intros [a|e] w1 w2 HI1 HR HI2; simpl; eauto. Qed.

Lemma wp_get A (f : W -> A) (Q : A -> W -> Prop) w : I w -> Q (f w) w -> wp (get f) (okp Q) w.
Proof. intros HI HQ. split; [reflexivity|by split]. Qed.

Lemma wp_modify f (Q : unit -> W -> Prop) w : R w (f w) -> I (f w) -> Q tt (f w) -> wp (modify f) (okp Q) w.
Proof. by repeat split. Qed.

Lemma wp_query A (f : W -> res A) (Q : A -> W -> Prop) w :
  (forall w1 a w2, R w w1 -> I w1 -> f w1 = Ok a -> R w1 w2 -> I w2 -> Q a w2) -> wp (remote (fun w => (w, f w))) (okp Q) w.
Proof.
  intros H. apply wp_remote. intros w1 H1 HI1. cbn [fst snd]. split; [reflexivity|]. split; [done|].
  intros w2 H2 HI2. destruct (f w1) as [a|e] eqn:E; simpl; [|done]. by eapply H.
Qed.

Lemma wp_each A (f : A -> prog unit) l w : I w ->
  (forall x w', In x l -> R w w' -> I w' -> wp (f x) (okp (fun _ _ => True)) w') -> wp (for_each f l) (okp (fun _ _ => True)) w.
Proof.
  revert w. induction l as [|x l IH]; intros w HI Hf; simpl; [done|].
  eapply wp_seq; [done|apply Hf; [by left|reflexivity|done]|]. intros _ w' HR HI' _. apply IH; [done|].
  intros y w2 Hy HR2 HI2. apply Hf; [by right|by trans w'|done].
Qed.

Lemma wp_while T B (body : T -> prog (T + B)) (Inv : T -> W -> Prop) s (Q : B -> W -> Prop) w : Inv s w ->
  (forall s w', R w w' -> I w' -> Inv s w' ->
     wp (body s) (okp (fun r w2 => match r with inl s' => Inv s' w2 | inr b => Q b w2 end)) w') ->
  wp (while body s) (okp Q) w.
Proof.
  intros Hs Hb. simpl. exists (fun s w' => R w w' /\ Inv s w'). split; [split; [reflexivity|done]|].
  intros s1 w1 HI1 [HR1 Hs1]. eapply wp_mono; [done| |exact (wp_R _ (body s1) _ w w1 HR1 (Hb s1 w1 HR1 HI1 Hs1))].
  intros [[s'|b]|e] w2 HI2 [HR2 H2]; [done..|done].
Qed.

Lemma wp_parked A (p : prog A) Q w w' :
  parked p = true -> (forall r, Q r w -> Q r w') -> R w w' -> wp p Q w -> wp p Q w'.
Proof.
  destruct p; simpl; intros Hp HQ HR H; try done.
  - by apply HQ.
  - intros w2 H2 HI2. apply H; [by trans w'|done].
  - intros w2 H2 HI2. apply H; [by trans w'|done].
Qed.

(** Any prefix of a run alone. *)
Lemma wp_steps A n (p : prog A) Q w : I w -> wp p Q w -> R w (steps n p w).1 /\ I (steps n p w).1 /\ wp (steps n p w).2 Q (steps n p w).1.
Proof.
  revert p w. induction n as [|n IH]; intros p w HI H; simpl; [by repeat split|].
  destruct (pstep p w) as [[w1 p1]|] eqn:E; [|by repeat split].
  destruct (wp_step _ _ _ _ _ _ HI (reflexivity w) H E) as [[HR HI1] H1].
  destruct (IH p1 w1 HI1 H1) as (HR2 & HI2 & H2). split; [by trans w1|done].
Qed.

(** A run alone. *)
Lemma wp_run A (p : prog A) w w' r : run p w w' r -> forall Q, I w -> wp p Q w -> R w w' /\ I w' /\ Q r w'.
Proof.
  induction 1 as [A r w|A B f k w w' r _ IH|A k w w' r _ IH|A c k w w' r Hc _ IH
    |A T B body s k s' w w1 w' r _ IH1 _ IH2|A T B body s k b w w1 w' r _ IH1 _ IH2|A T B body s k e w w1 w' r _ IH1 _ IH2];
    intros Q HI H; simpl in H.
  - done.
  - destruct H as (HR & HI' & H). destruct (IH Q HI' H) as (? & ? & ?). split; [by trans (f w).1|done].
  - apply IH; [done|]. by apply H.
  - apply IH; [done|]. by apply H.
  - destruct H as (Inv & Hs & Hbody). destruct (IH1 _ HI (Hbody _ _ HI Hs)) as (HR1 & HI1 & Hs1).
    destruct (IH2 Q HI1) as (? & ? & ?); [by exists Inv|]. split; [by trans w1|done].
  - destruct H as (Inv & Hs & Hbody). destruct (IH1 _ HI (Hbody _ _ HI Hs)) as (HR1 & HI1 & H1).
    destruct (IH2 Q HI1 H1) as (? & ? & ?). split; [by trans w1|done].
  - destruct H as (Inv & Hs & Hbody). destruct (IH1 _ HI (Hbody _ _ HI Hs)) as (HR1 & HI1 & H1).
    destruct (IH2 Q HI1 H1) as (? & ? & ?). split; [by trans w1|done].
Qed.
End Wp.
End Prog.

(** * Running among others that own something *)

(** As [wp], for programs that own a part of the world for a while: [T] says what a
    program owns, and what others may do and what it may do itself depend on it. Worlds
    outside [F] are not looked at any more. *)
Section Owning.
Context {W T : Type} (Rely : T -> W -> W -> Prop) (Guar : T -> W -> T -> W -> Prop).
Context (I : T -> W -> Prop) (F : W -> Prop).
Abbreviation prog := (prog W).

Fixpoint owp {A} (p : prog A) : (res A -> T -> W -> Prop) -> T -> W -> Prop :=
  match p in JsAsync.prog _ A return (res A -> T -> W -> Prop) -> T -> W -> Prop with
  | Done r => fun Q t w => Q r t w
  | Act f k => fun Q t w =>
      F (f w).1 -> exists t', Guar t w t' (f w).1 /\ I t' (f w).1 /\ owp (k (f w).2) Q t' (f w).1
  | Yield k => fun Q t w => forall w', F w' -> Rely t w w' -> I t w' -> owp k Q t w'
  | Until c k => fun Q t w => forall w', F w' -> Rely t w w' -> I t w' -> c w' = true -> owp k Q t w'
  | @Loop _ _ X B body s k => fun Q t w =>
      exists Inv : X -> T -> W -> Prop, Inv s t w /\
        forall s t w, F w -> I t w -> Inv s t w ->
          owp (body s) (fun r t w =>
            match r with
            | Ok (inl s') => Inv s' t w
            | Ok (inr b) => owp (k (Ok b)) Q t w
            | Throw e => owp (k (Throw e)) Q t w
            end) t w
  end.

Lemma owp_mono A (p : prog A) : forall (Q Q' : res A -> T -> W -> Prop) t w, F w -> I t w ->
  (forall r t w, F w -> I t w -> Q r t w -> Q' r t w) -> owp p Q t w -> owp p Q' t w.
Proof.
  induction p as [A r|A B f k IH|A k IH|A c k IH|A X B body IHb s k IH]; intros Q Q' t w HF HI HQ H; simpl in *.
  - auto.
  - intros HF'. destruct (H HF') as (t' & HG & HI' & H'). eauto 6.
  - eauto.
  - eauto.
  - destruct H as (Inv & Hs & Hbody). exists Inv. split; [done|]. intros s1 t1 w1 HF1 HI1 Hs1.
    eapply IHb; [done|done| |by apply Hbody]. intros [[s'|b]|e] t2 w2 HF2 HI2 H2; simpl in *; eauto.
Qed.

Lemma owp_bindr A (p : prog A) : forall B (k : res A -> prog B) Q t w, F w -> I t w ->
  owp p (fun r t w => owp (k r) Q t w) t w -> owp (bindr p k) Q t w.
Proof.
  induction p as [A r|A B f c IH|A c IH|A cond c IH|A X B body IHb s c IH]; intros C k Q t w HF HI H; simpl in *.
  - done.
  - intros HF'. destruct (H HF') as (t' & HG & HI' & H'). eauto 6.
  - eauto.
  - eauto.
  - destruct H as (Inv & Hs & Hbody). exists Inv. split; [done|]. intros s1 t1 w1 HF1 HI1 Hs1.
    eapply owp_mono; [done|done| |by apply Hbody]. intros [[s'|b]|e] t2 w2 HF2 HI2 H2; simpl in *; eauto.
Qed.

(** What a step makes of the obligations. *)
Lemma owp_step A (p p' : prog A) Q t w w' : (forall t w, F w -> I t w -> Rely t w w) -> (forall t w, I t w -> Guar t w t w) ->
  F w -> I t w -> owp p Q t w -> pstep p w = Some (w', p') -> F w' ->
  exists t', Guar t w t' w' /\ I t' w' /\ owp p' Q t' w'.
Proof.
  intros HR HG HF HI. destruct p as [A r|A B f k|A k|A c k|A X B body s k]; simpl; intros H E HF'.
  - done.
  - destruct (f w) as [w1 b]. simplify_eq. destruct (H HF') as (t' & ? & ? & ?). eauto.
  - simplify_eq. exists t. auto.
  - destruct (c w) eqn:Hc; simplify_eq. exists t. auto 6.
  - simplify_eq. exists t. split; [auto|]. split; [done|]. destruct H as (Inv & Hs & Hbody). unfold unroll.
    apply owp_bindr; [done|done|]. eapply owp_mono; [done|done| |by apply Hbody].
    intros [[s'|b]|e] t2 w2 HF2 HI2 H2; [|done..]. simpl. by exists Inv.
Qed.

(** At an await others may have moved. *)
Lemma owp_parked A (p : prog A) Q t w w' :
  (forall t w1 w2 w3, Rely t w1 w2 -> Rely t w2 w3 -> Rely t w1 w3) -> (forall r, Q r t w -> Q r t w') ->
  parked p = true -> Rely t w w' -> owp p Q t w -> owp p Q t w'.
Proof.
  intros HT HQ. destruct p; simpl; intros Hp HR H; try done.
  - by apply HQ.
  - intros w2 HF2 H2 HI2. apply H; [done|by eapply HT|done].
  - intros w2 HF2 H2 HI2. apply H; [done|by eapply HT|done].
Qed.

(** What both sides keep of the start is known later. *)
Context (Grow : W -> W -> Prop) `{!PreOrder Grow}.
Context (HRely : forall t w w', Rely t w w' -> Grow w w') (HGuar : forall t w t' w', Guar t w t' w' -> Grow w w').

Lemma owp_grow A (p : prog A) : forall (Q : res A -> T -> W -> Prop) w0 t w, Grow w0 w ->
  owp p Q t w -> owp p (fun r t w' => Grow w0 w' /\ Q r t w') t w.
Proof.
  induction p as [A r|A B f k IH|A k IH|A c k IH|A X B body IHb s k IH]; intros Q w0 t w HR H; simpl in *.
  - done.
  - intros HF. destruct (H HF) as (t' & H1 & H2 & H3). exists t'. split; [done|]. split; [done|].
    apply IH; [|done]. trans w; [done|by eapply HGuar].
  - intros w' HF H1 HI1. apply IH; [|by apply H]. trans w; [done|by eapply HRely].
  - intros w' HF H1 HI1 Hc. apply IH; [|by apply H]. trans w; [done|by eapply HRely].
  - destruct H as (Inv & Hs & Hbody). exists (fun s t w => Grow w0 w /\ Inv s t w). split; [done|].
    intros s1 t1 w1 HF1 HI1 [HR1 Hs1]. eapply owp_mono; [done|done| |apply IHb; [exact HR1|by apply Hbody]].
    intros [[s'|b]|e] t2 w2 HF2 HI2 [HR2 H2]; simpl in *; [done|by apply IH..].
Qed.

Definition ogrow {A} (w0 : W) (Q : res A -> T -> W -> Prop) : res A -> T -> W -> Prop := fun r t w => Grow w0 w /\ Q r t w.

(** [p] and then [k], however [p] ended. *)
Lemma owp_seq A B (p : prog A) (k : res A -> prog B) Q1 Q t w : F w -> I t w -> owp p Q1 t w ->
  (forall r t' w', F w' -> I t' w' -> Grow w w' -> Q1 r t' w' -> owp (k r) Q t' w') -> owp (bindr p k) Q t w.
Proof.
  intros HF HI Hp Hk. apply owp_bindr; [done|done|]. apply (owp_grow _ _ _ w t w (reflexivity w)) in Hp.
  eapply owp_mono; [done|done| |exact Hp]. intros r t' w' HF' HI' [HR HQ]. by apply Hk.
Qed.

(** A program that owns what it owns throughout. *)
Lemma wp_owp (R : W -> W -> Prop) (J : W -> Prop) t : (forall w w', Rely t w w' -> R w w') ->
  (forall w w', R w w' -> Guar t w t w') -> (forall w, I t w <-> J w) ->
  forall A (p : prog A) Q w, wp R J p Q w -> owp p (fun r t' w => t' = t /\ Q r w) t w.
Proof.
  intros HR HG HI A p. induction p as [A r|A B f k IH|A k IH|A c k IH|A X B body IHb s k IH]; intros Q w H; simpl in *.
  - done.
  - intros _. destruct H as (H1 & H2 & H3). exists t. split; [auto|]. split; [by apply HI|auto].
  - intros w' _ HR' HI'. apply IH, H; [auto|by apply HI].
  - intros w' _ HR' HI' Hc. apply IH, H; [auto|by apply HI|done].
  - destruct H as (Inv & Hs & Hbody). exists (fun s t' w => t' = t /\ Inv s w). split; [done|].
    intros s1 t1 w1 HF HI1 [-> Hs1]. apply HI in HI1. specialize (IHb s1 _ w1 (Hbody s1 w1 HI1 Hs1)).
    eapply owp_mono; [done|by apply HI| |exact IHb]. intros [[s'|b]|e] t2 w2 _ _ [-> H2]; [done|by apply IH..].
Qed.
End Owning.

Notation "'let*' x := p 'in' k" := (bind p (fun x => k))
  (at level 10, x pattern, p at level 100, k at level 200) : natstack_scope.
Notation "p ;; k" := (bind p (fun _ => k)) (at level 100, k at level 200, right associativity) : natstack_scope.
