(* ===== verification/AgentIds.v ===== *)
(** Deterministic identifiers of the agent loop
    (workspace/packages/agent-loop/src/ids.ts): every envelope id and effect id
    is a function of stable coordinates, written as prefixed strings. *)
From S2P Require Import Prelude Dict JsValue JsText.
From Stdlib Require Import Ascii.
#[local] Open Scope Z_scope.


Module ids.
Definition logIdForChannel (channelId : string) : string := "branch:channel:" ^^ channelId.

Definition turnId (channelId triggerEnvelopeId actorId : string) : string :=
  "t:" ^^ channelId ^^ ":" ^^ triggerEnvelopeId ^^ ":" ^^ actorId.

Definition messageId (turnId : string) (modelCallCount : Z) : string :=
  "m:" ^^ turnId ^^ ":" ^^ pretty modelCallCount.

Definition attemptId (messageId : string) : string := "att:" ^^ messageId.

Definition transportCallId (invocationId : string) : string := "tc:" ^^ invocationId.

Definition approvalId (invocationId : string) : string := "approval:" ^^ invocationId.

Definition credKey (channelId providerId : string) : string :=
  "cred:" ^^ channelId ^^ ":" ^^ providerId.

(** Envelope ids. *)

Definition recvUserMessage (channelId channelEnvelopeId : string) : string :=
  "recv:" ^^ channelId ^^ ":" ^^ channelEnvelopeId.

Definition recvPromoted (sourceMessageId : string) (n : Z) : string :=
  "recv:promoted:" ^^ sourceMessageId ^^ ":" ^^ pretty n.

Definition messageEdited (sourceMessageId : string) (n : Z) : string :=
  "msg:" ^^ sourceMessageId ^^ ":edited:" ^^ pretty n.

Definition messageRetracted (sourceMessageId : string) (n : Z) : string :=
  "msg:" ^^ sourceMessageId ^^ ":retracted:" ^^ pretty n.

Definition turnOpened (turnId : string) : string := "turn:" ^^ turnId ^^ ":opened".

Definition turnClosed (turnId : string) : string := "turn:" ^^ turnId ^^ ":closed".

Definition turnWaiting (turnId : string) (n : Z) : string :=
  "turn:" ^^ turnId ^^ ":waiting:" ^^ pretty n.

Definition messageStarted (messageId : string) : string := "msg:" ^^ messageId ^^ ":started".

Definition messageTerminal (messageId : string) : string := "msg:" ^^ messageId ^^ ":terminal".

Definition invocationStart (invocationId : string) : string := "inv:" ^^ invocationId ^^ ":start".

Definition invocationTerminal (invocationId : string) : string :=
  "inv:" ^^ invocationId ^^ ":terminal".

Definition invocationOutput (invocationId : string) (n : Z) : string :=
  "inv:" ^^ invocationId ^^ ":output:" ^^ pretty n.

Definition approvalRequested (approvalId : string) : string :=
  "appr:" ^^ approvalId ^^ ":requested".

Definition approvalResolved (approvalId : string) : string :=
  "appr:" ^^ approvalId ^^ ":resolved".

Definition systemEvent (scope detailKind : string) (n : option Z) : string :=
  match n with
  | None => "sys:" ^^ scope ^^ ":" ^^ detailKind
  | Some n => "sys:" ^^ scope ^^ ":" ^^ detailKind ^^ ":" ^^ pretty n
  end.

Definition compaction (turnId : string) (n : Z) : string :=
  "sys:compaction:" ^^ turnId ^^ ":" ^^ pretty n.

Definition configChange (patchHash : string) (n : Z) : string :=
  "sys:config:" ^^ patchHash ^^ ":" ^^ pretty n.

(** Effect ids. *)

Definition modelEffect (messageId : string) : string := "model:" ^^ messageId.

Definition invocationEffect (invocationId : string) : string := "inv:" ^^ invocationId.

Definition approvalFormEffect (approvalId : string) : string := "form:" ^^ approvalId.

Definition credentialWaitEffect (credKey : string) : string := "credwait:" ^^ credKey.
End ids.

(** [hash.toString(16).padStart(8, "0")] for a 32-bit [hash]. *)
Fixpoint hex_digits (n : nat) (z : Z) (acc : string) : string :=
  match n with
  | O => acc
  | S n' => hex_digits n' (z / 16) (String (hex_digit (z mod 16)) acc)
  end.

(** One round of FNV-1a: [hash ^= c; hash = Math.imul(hash, 0x01000193) >>> 0].
    [Math.imul] keeps the low 32 bits of the product. *)
Definition fnv1a_step (hash : Z) (c : ascii) : Z :=
  (Z.lxor hash (code c) * 16777619) mod 2 ^ 32.

Fixpoint fnv1a (hash : Z) (text : string) : Z :=
  match text with
  | EmptyString => hash
  | String c text' => fnv1a (fnv1a_step hash c) text'
  end.

Definition patchHash (value : val) : string :=
  let text := default "null" (json_stringify value) in
  hex_digits 8 (fnv1a 2166136261 text) "".
