(* ===== verification/AgentState.v ===== *)
(** The state of the agent loop (workspace/packages/agent-loop/src/state.ts):
    the records the fold builds, the shape predicates of the data it casts from
    event payloads, the initial state, and the derived turn status. *)
From S2P Require Import Prelude Dict JsValue JsText AgentIds.
#[local] Open Scope Z_scope.

(** * Shapes of cast data *)

(** The program casts configuration, turn metadata and model requests from
    JSON without checking them, so the state keeps them as values; these
    predicates say what the declared interfaces promise. *)

Definition isStr (v : val) : bool := match v with VStr _ => true | _ => false end.
Definition isNum (v : val) : bool := match v with VNum _ => true | _ => false end.
Definition isBool (v : val) : bool := match v with VBool _ => true | _ => false end.
Definition isUndef (v : val) : bool := match v with VUndef => true | _ => false end.
Definition isNull (v : val) : bool := match v with VNull => true | _ => false end.
Definition opt (p : val -> bool) (v : val) : bool := isUndef v || p v.
Definition isArr (p : val -> bool) (v : val) : bool :=
  match v with VArr l => forallb p l | _ => false end.
Definition oneOf (ss : list string) (v : val) : bool :=
  match v with VStr s => existsb (String.eqb s) ss | _ => false end.

Definition isThinkingLevel : val -> bool := oneOf ["minimal"; "low"; "medium"; "high"].

Definition isRespondPolicy : val -> bool :=
  oneOf ["all"; "mentioned"; "mentioned-strict"; "mentioned-or-followup"; "from-participants"].

Definition isParticipantRef (v : val) : bool :=
  is_record v && isStr v.!"kind" && isStr v.!"id"
  && opt isStr v.!"participantId" && opt isStr v.!"displayName" && opt is_record v.!"metadata".

Definition isRosterMethod (v : val) : bool :=
  is_record v && isStr v.!"name" && opt isStr v.!"description".

Definition isRosterEntry (v : val) : bool :=
  is_record v && isStr v.!"participantId" && isParticipantRef v.!"ref"
  && opt isStr v.!"handle" && opt isStr v.!"type" && isArr isRosterMethod v.!"methods".

Definition isRosterSnapshot (v : val) : bool :=
  is_record v && isArr isRosterEntry v.!"participants".

Definition isAgentLoopConfig (v : val) : bool :=
  is_record v && isStr v.!"model" && isThinkingLevel v.!"thinkingLevel"
  && (strict_eqb v.!"approvalLevel" (VNum 0) || strict_eqb v.!"approvalLevel" (VNum 1)
      || strict_eqb v.!"approvalLevel" (VNum 2))
  && isRespondPolicy v.!"respondPolicy" && isStr v.!"systemPromptHash"
  && opt isStr v.!"skillIndexHash" && opt isStr v.!"toolSchemasHash"
  && isArr isStr v.!"activeToolNames" && isRosterSnapshot v.!"roster"
  && opt isNum v.!"agentHopLimit"
  && opt (fun x => isNum x || isNull x) v.!"maxModelCallsPerTurn"
  && opt (fun x => isNum x || isNull x) v.!"modelStreamIdleTimeoutMs".

Definition isAgentTurnContextPolicy (v : val) : bool :=
  is_record v && opt (oneOf ["full"; "heartbeat"; "isolated"]) v.!"mode"
  && opt isBool v.!"includeWorkspacePrompt" && opt isBool v.!"includeSkillIndex"
  && opt isStr v.!"promptFile" && opt isStr v.!"promptFileContent" && opt isNum v.!"tokenBudget".

Definition isLoopConfigPatch (v : val) : bool :=
  is_record v
  && forallb (fun kv => (kv.1 =s? "maxModelCallsPerTurn") || (kv.1 =s? "modelStreamIdleTimeoutMs"))
       (fields v)
  && opt (fun x => isNum x || isNull x) v.!"maxModelCallsPerTurn"
  && opt (fun x => isNum x || isNull x) v.!"modelStreamIdleTimeoutMs".

Definition isAgentTurnMetadata (v : val) : bool :=
  is_record v && opt (oneOf ["agent-initiated"; "heartbeat"; "scheduled"]) v.!"origin"
  && opt isAgentTurnContextPolicy v.!"contextPolicy" && opt isLoopConfigPatch v.!"loopConfigPatch"
  && opt (oneOf ["none"; "channel"; "last-contact"]) v.!"delivery"
  && opt isStr v.!"ackToken" && opt isBool v.!"silentOk" && opt isBool v.!"deliverAfterTurn".

Definition isModelRequestDescriptor (v : val) : bool :=
  is_record v && isStr v.!"provider" && isStr v.!"model" && opt isStr v.!"modelBaseUrl"
  && isThinkingLevel v.!"thinkingLevel" && isStr v.!"systemPromptHash"
  && opt isStr v.!"skillIndexHash" && opt isStr v.!"toolSchemasHash"
  && isArr isStr v.!"activeToolNames" && isNum v.!"contextThroughSeq" && isStr v.!"attemptId"
  && opt (fun o => is_record o && opt isNum o.!"deltaBatchMs"
                   && opt (fun x => isNum x || isNull x) o.!"idleTimeoutMs") v.!"streamOptions"
  && opt isAgentTurnMetadata v.!"turnMetadata".

(** * Configuration overlay *)

(** The keys the reducer owns. *)
Definition FOLD_OWNED_CONFIG_KEYS : list string := ["roster"].

Definition overlayInputConfig (folded input : val) : val :=
  VObj (fold_left (fun merged key => dict_set key (js_get key folded) merged)
          FOLD_OWNED_CONFIG_KEYS (fields input)).

(** * Records of the state *)

Record OpenTurn := mkOpenTurn {
  ot_turnId : string;
  ot_openedAtSeq : Z;
  ot_reason : option string;
  ot_modelCallCount : Z;
  ot_interrupted : bool;
  ot_waitingCount : Z;
  ot_metadata : val;
  (** [pendingFlush] is ["steers"]. *)
  ot_pendingFlush : bool
}.

Record InFlightModelCall := mkInFlight {
  im_messageId : string;
  im_attemptId : val;
  im_contextThroughSeq : val;
  im_request : val
}.

Inductive ApprovalState := ApprNone | ApprPending | ApprGranted.

#[global] Instance ApprovalState_eq_dec : EqDecision ApprovalState.
Proof. solve_decision. Defined.

Record PendingInvocation := mkPendingInvocation {
  pi_invocationId : string;
  pi_turnId : string;
  pi_startedAtSeq : Z;
  pi_attemptId : option string;
  pi_name : string;
  pi_transport : val;
  pi_request : val;
  pi_requiresApproval : bool;
  pi_approvalId : option string;
  pi_approvalState : ApprovalState
}.

Record PendingApproval := mkPendingApproval {
  pa_approvalId : string;
  pa_invocationId : string;
  pa_turnId : string;
  pa_startedAtSeq : Z;
  pa_question : string;
  pa_toolName : val;
  pa_input : val
}.

Record PendingCredentialWait := mkPendingCredentialWait {
  pw_credKey : string;
  pw_providerId : string;
  pw_turnId : string;
  pw_startedAtSeq : Z;
  pw_connectSpec : val;
  pw_modelBaseUrl : option string;
  pw_waitReason : option string;
  pw_reason : option string;
  pw_failureCode : option string;
  pw_expiresAt : string
}.

Record SteeringEntry := mkSteeringEntry {
  se_envelopeId : string;
  se_seq : Z;
  se_sourceMessageId : option string;
  se_senderRef : val;
  se_content : val;
  se_metadata : val
}.

Record PendingPrompt := mkPendingPrompt {
  pp_envelopeId : string;
  pp_seq : Z;
  pp_sourceMessageId : option string;
  pp_senderRef : val;
  pp_content : val;
  pp_agentHops : option Z;
  pp_metadata : val
}.

Record DeferredPrompt := mkDeferredPrompt {
  dp_sourceMessageId : string;
  dp_envelopeId : string;
  dp_seq : Z;
  dp_senderRef : val;
  dp_content : val;
  dp_metadata : val;
  dp_agentHops : option Z
}.

(** Session entries: the four object literals of the union, as values, because
    a recorded compaction replaces the list by whatever the payload carries. *)

Definition ostr_field (k : string) (o : option string) : list (string * val) :=
  match o with Some s => [(k, VStr s)] | None => [] end.

Definition user_entry (seq : Z) (envelopeId : string) (sourceMessageId : option string)
    (senderRef content metadata : val) : val :=
  VObj ([("kind", VStr "user"); ("seq", VNum seq); ("envelopeId", VStr envelopeId)]
        ++ ostr_field "sourceMessageId" sourceMessageId
        ++ [("senderRef", senderRef); ("content", content)]
        ++ opt_field "metadata" metadata).

Definition assistant_entry (seq : Z) (messageId : string) (senderRef : val) (blocks : list val)
    (outcome : option string) : val :=
  VObj [("kind", VStr "assistant"); ("seq", VNum seq); ("messageId", VStr messageId);
        ("senderRef", senderRef); ("blocks", VArr blocks); ("outcome", of_ostr outcome)].

Definition tool_result_entry (seq : Z) (invocationId name : string) (result : val) (isError : bool)
    : val :=
  VObj [("kind", VStr "tool-result"); ("seq", VNum seq); ("invocationId", VStr invocationId);
        ("name", VStr name); ("result", result); ("isError", VBool isError)].

Definition isSessionEntry (v : val) : bool :=
  is_record v && isNum v.!"seq" &&
  (is_lit v.!"kind" "user" && isStr v.!"envelopeId" && opt isStr v.!"sourceMessageId"
   || is_lit v.!"kind" "assistant" && isStr v.!"messageId" && isArr (fun _ => true) v.!"blocks"
      && opt isStr v.!"outcome"
   || is_lit v.!"kind" "tool-result" && isStr v.!"invocationId" && isStr v.!"name"
      && isBool v.!"isError"
   || is_lit v.!"kind" "note" && isStr v.!"text").

Record AgentState := mkAgentState {
  logId : string;
  head : string;
  channelId : string;
  lastSeq : Z;
  lastHash : string;
  forkSeq : Z;
  selfId : option string;
  config : val;
  entries : list val;
  openTurn : option OpenTurn;
  inFlightModelCall : option InFlightModelCall;
  pendingInvocations : dict PendingInvocation;
  pendingApprovals : dict PendingApproval;
  pendingCredentialWaits : dict PendingCredentialWait;
  steeringQueue : list SteeringEntry;
  pendingPrompt : option PendingPrompt;
  deferredPostTurnQueue : list DeferredPrompt
}.

(** [{ ...state, field: x }]. *)
Definition with_lastSeq (x : Z) (st : AgentState) : AgentState :=
  mkAgentState st.(logId) st.(head) st.(channelId) x st.(lastHash) st.(forkSeq) st.(selfId) st.(config)
    st.(entries) st.(openTurn) st.(inFlightModelCall) st.(pendingInvocations)
    st.(pendingApprovals) st.(pendingCredentialWaits) st.(steeringQueue) st.(pendingPrompt)
    st.(deferredPostTurnQueue).
Definition with_lastHash (x : string) (st : AgentState) : AgentState :=
  mkAgentState st.(logId) st.(head) st.(channelId) st.(lastSeq) x st.(forkSeq) st.(selfId) st.(config)
    st.(entries) st.(openTurn) st.(inFlightModelCall) st.(pendingInvocations)
    st.(pendingApprovals) st.(pendingCredentialWaits) st.(steeringQueue) st.(pendingPrompt)
    st.(deferredPostTurnQueue).
Definition with_config (x : val) (st : AgentState) : AgentState :=
  mkAgentState st.(logId) st.(head) st.(channelId) st.(lastSeq) st.(lastHash) st.(forkSeq) st.(selfId) x
    st.(entries) st.(openTurn) st.(inFlightModelCall) st.(pendingInvocations)
    st.(pendingApprovals) st.(pendingCredentialWaits) st.(steeringQueue) st.(pendingPrompt)
    st.(deferredPostTurnQueue).
Definition with_entries (x : list val) (st : AgentState) : AgentState :=
  mkAgentState st.(logId) st.(head) st.(channelId) st.(lastSeq) st.(lastHash) st.(forkSeq) st.(selfId)
    st.(config) x st.(openTurn) st.(inFlightModelCall) st.(pendingInvocations)
    st.(pendingApprovals) st.(pendingCredentialWaits) st.(steeringQueue) st.(pendingPrompt)
    st.(deferredPostTurnQueue).
Definition with_openTurn (x : option OpenTurn) (st : AgentState) : AgentState :=
  mkAgentState st.(logId) st.(head) st.(channelId) st.(lastSeq) st.(lastHash) st.(forkSeq) st.(selfId)
    st.(config) st.(entries) x st.(inFlightModelCall) st.(pendingInvocations)
    st.(pendingApprovals) st.(pendingCredentialWaits) st.(steeringQueue) st.(pendingPrompt)
    st.(deferredPostTurnQueue).
Definition with_inFlightModelCall (x : option InFlightModelCall) (st : AgentState) : AgentState :=
  mkAgentState st.(logId) st.(head) st.(channelId) st.(lastSeq) st.(lastHash) st.(forkSeq) st.(selfId)
    st.(config) st.(entries) st.(openTurn) x st.(pendingInvocations) st.(pendingApprovals)
    st.(pendingCredentialWaits) st.(steeringQueue) st.(pendingPrompt)
    st.(deferredPostTurnQueue).
Definition with_pendingInvocations (x : dict PendingInvocation) (st : AgentState) : AgentState :=
  mkAgentState st.(logId) st.(head) st.(channelId) st.(lastSeq) st.(lastHash) st.(forkSeq) st.(selfId)
    st.(config) st.(entries) st.(openTurn) st.(inFlightModelCall) x st.(pendingApprovals)
    st.(pendingCredentialWaits) st.(steeringQueue) st.(pendingPrompt)
    st.(deferredPostTurnQueue).
Definition with_pendingApprovals (x : dict PendingApproval) (st : AgentState) : AgentState :=
  mkAgentState st.(logId) st.(head) st.(channelId) st.(lastSeq) st.(lastHash) st.(forkSeq) st.(selfId)
    st.(config) st.(entries) st.(openTurn) st.(inFlightModelCall) st.(pendingInvocations) x
    st.(pendingCredentialWaits) st.(steeringQueue) st.(pendingPrompt)
    st.(deferredPostTurnQueue).
Definition with_pendingCredentialWaits (x : dict PendingCredentialWait) (st : AgentState) : AgentState :=
  mkAgentState st.(logId) st.(head) st.(channelId) st.(lastSeq) st.(lastHash) st.(forkSeq) st.(selfId)
    st.(config) st.(entries) st.(openTurn) st.(inFlightModelCall) st.(pendingInvocations)
    st.(pendingApprovals) x st.(steeringQueue) st.(pendingPrompt) st.(deferredPostTurnQueue).
Definition with_steeringQueue (x : list SteeringEntry) (st : AgentState) : AgentState :=
  mkAgentState st.(logId) st.(head) st.(channelId) st.(lastSeq) st.(lastHash) st.(forkSeq) st.(selfId)
    st.(config) st.(entries) st.(openTurn) st.(inFlightModelCall) st.(pendingInvocations)
    st.(pendingApprovals) st.(pendingCredentialWaits) x st.(pendingPrompt)
    st.(deferredPostTurnQueue).
Definition with_pendingPrompt (x : option PendingPrompt) (st : AgentState) : AgentState :=
  mkAgentState st.(logId) st.(head) st.(channelId) st.(lastSeq) st.(lastHash) st.(forkSeq) st.(selfId)
    st.(config) st.(entries) st.(openTurn) st.(inFlightModelCall) st.(pendingInvocations)
    st.(pendingApprovals) st.(pendingCredentialWaits) st.(steeringQueue) x
    st.(deferredPostTurnQueue).
Definition with_deferredPostTurnQueue (x : list DeferredPrompt) (st : AgentState) : AgentState :=
  mkAgentState st.(logId) st.(head) st.(channelId) st.(lastSeq) st.(lastHash) st.(forkSeq) st.(selfId)
    st.(config) st.(entries) st.(openTurn) st.(inFlightModelCall) st.(pendingInvocations)
    st.(pendingApprovals) st.(pendingCredentialWaits) st.(steeringQueue) st.(pendingPrompt) x.


(** * The initial state *)

Definition GENESIS_LAST_HASH : string :=
  "0000000000000000000000000000000000000000000000000000000000000000".

Record InitialStateInput := mkInitialStateInput {
  is_channelId : string;
  is_logId : option string;
  is_head : option string;
  is_config : val;
  is_forkSeq : option Z;
  is_lastSeq : option Z;
  is_lastHash : option string;
  is_selfId : option string
}.

Definition initialAgentState (input : InitialStateInput) : AgentState :=
  let logId := default (ids.logIdForChannel input.(is_channelId)) input.(is_logId) in
  {| logId := logId;
     head := default logId input.(is_head);
     channelId := input.(is_channelId);
     lastSeq := default (default 0 input.(is_forkSeq)) input.(is_lastSeq);
     lastHash := default GENESIS_LAST_HASH input.(is_lastHash);
     forkSeq := default 0 input.(is_forkSeq);
     selfId := match input.(is_selfId) with
               | Some s => if s =s? "" then None else Some s
               | None => None
               end;
     config := input.(is_config);
     entries := [];
     openTurn := None;
     inFlightModelCall := None;
     pendingInvocations := [];
     pendingApprovals := [];
     pendingCredentialWaits := [];
     steeringQueue := [];
     pendingPrompt := None;
     deferredPostTurnQueue := [] |}.

(** * Turn status *)

Inductive TurnStatus := Idle | Starting | RunningModel | WaitingExternal | Continuing.

#[global] Instance TurnStatus_eq_dec : EqDecision TurnStatus.
Proof. solve_decision. Defined.

Definition nonempty {A} (l : list A) : bool := match l with [] => false | _ => true end.

Definition derivedTurnStatus (state : AgentState) : TurnStatus :=
  match state.(openTurn) with
  | None => Idle
  | Some turn =>
      match state.(inFlightModelCall) with
      | Some _ => RunningModel
      | None =>
          if turn.(ot_modelCallCount) =? 0 then Starting
          else
            let pendings := dict_values state.(pendingInvocations) in
            let hasExternal :=
              existsb (fun inv => negb (is_lit inv.(pi_transport).!"kind" "local")) pendings
              || nonempty state.(pendingApprovals)
              || nonempty state.(pendingCredentialWaits) in
            if nonempty pendings || hasExternal then WaitingExternal else Continuing
      end
  end.

(** * Well-formed states *)

(** Every pending record is filed once, under its own id; no invocation has the
    empty id. *)
Record wf_state (st : AgentState) : Prop := {
  wf_invocations : dict_wf st.(pendingInvocations);
  wf_invocation_ids : dict_all (fun k inv => inv.(pi_invocationId) = k) st.(pendingInvocations);
  wf_invocation_named : dict_get "" st.(pendingInvocations) = None;
  wf_approvals : dict_wf st.(pendingApprovals);
  wf_approval_ids : dict_all (fun k ap => ap.(pa_approvalId) = k) st.(pendingApprovals);
  wf_waits : dict_wf st.(pendingCredentialWaits);
  wf_wait_keys : dict_all (fun k w => w.(pw_credKey) = k) st.(pendingCredentialWaits)
}.

Lemma dict_all_nil {V} (P : string -> V -> Prop) : dict_all P [].
Proof. intros k v []. Qed.

Lemma dict_wf_nil {V} : dict_wf (V := V) [].
Proof. apply NoDup_nil_2. Qed.

#[export] Hint Resolve dict_all_nil dict_wf_nil : natstack.

Lemma initialAgentState_wf input : wf_state (initialAgentState input).
Proof. constructor; simpl; auto with natstack. Qed.

(** A boolean test for well-formed states. *)
Definition dict_okb {V} (id : V -> string) (d : dict V) : bool :=
  bool_decide (NoDup (dict_keys d)) && forallb (fun kv => id kv.2 =s? kv.1) d.

Definition wf_stateb (st : AgentState) : bool :=
  dict_okb pi_invocationId st.(pendingInvocations)
  && negb (dict_has "" st.(pendingInvocations))
  && dict_okb pa_approvalId st.(pendingApprovals)
  && dict_okb pw_credKey st.(pendingCredentialWaits).

Lemma dict_okb_spec {V} (id : V -> string) (d : dict V) :
  dict_okb id d = true -> dict_wf d /\ dict_all (fun k v => id v = k) d.
Proof.
  unfold dict_okb. rewrite andb_true_iff. intros [Hnd Hids]. split.
  - by apply bool_decide_eq_true_1 in Hnd.
  - intros k v Hin. rewrite forallb_forall in Hids. specialize (Hids (k, v) Hin).
    by apply String.eqb_eq in Hids.
Qed.

Lemma wf_stateb_spec st : wf_stateb st = true -> wf_state st.
Proof.
  unfold wf_stateb. rewrite !andb_true_iff. intros [[[H1 H0] H2] H3].
  apply dict_okb_spec in H1 as [], H2 as [], H3 as []. constructor; try done.
  unfold dict_has in H0. by destruct (dict_get "" (pendingInvocations st)).
Qed.

Module State.
(** An input settings overlay never loses the folded roster: the roster of
    the result is the folded one and every other key reads as in the input. *)
Theorem overlayInputConfig_spec folded input k :
  js_get k (overlayInputConfig folded input)
  = if k =s? "roster" then js_get "roster" folded else js_get k (VObj (fields input)).
Proof.
  unfold overlayInputConfig. simpl fold_left. rewrite js_get_obj.
  destruct (String.eqb_spec k "roster"); [subst; by rewrite dict_get_set_eq|].
  rewrite dict_get_set_ne by congruence. by rewrite js_get_obj.
Qed.
End State.
