(* ===== verification/AgentFold.v ===== *)
(** The fold of the agent loop (workspace/packages/agent-loop/src/fold.ts): one
    reducer over log envelopes, translated case by case, and its laws. *)
From S2P Require Import Prelude Dict JsValue JsText AgentIds AgentState.
#[local] Open Scope Z_scope.

(** A durable log envelope (agentic-protocol/src/log-envelope.ts); [causality]
    is [VUndef] when the envelope has none. *)
Record LogEnvelope := mkEnvelope {
  env_logId : string;
  env_head : string;
  env_seq : Z;
  env_envelopeId : string;
  env_actor : val;
  env_payloadKind : string;
  env_payload : val;
  env_causality : val;
  env_appendedAt : string;
  env_prevHash : string;
  env_hash : string
}.

(** * Reading an envelope *)

Definition payloadRecord (envelope : LogEnvelope) : val :=
  if is_record envelope.(env_payload) then envelope.(env_payload) else VObj [].

Definition metadataFromPayload (payload : val) : val :=
  if is_record payload.!"metadata" then payload.!"metadata" else VUndef.

Definition sourceMessageIdFromPayload (payload : val) : option string :=
  match payload.!"sourceMessageId" with
  | VStr s => if s =s? "" then None else Some s
  | _ => None
  end.

Definition senderRefFromPayload (payload fallback : val) : val :=
  if is_record payload.!"senderRef" then payload.!"senderRef" else fallback.

(** [participantKey] (agentic-protocol/src/handlers.ts). *)
Definition participantKey (participant : val) : val :=
  if truthy participant.!"participantId" then participant.!"participantId"
  else VStr (to_str participant.!"kind" ^^ ":" ^^ to_str participant.!"id").

(** [o === Some id] on an optional string. *)
Definition ostr_is (id : string) (o : option string) : bool :=
  match o with Some s => s =s? id | None => false end.

(** The sender of a message that is still in a live queue. *)
Definition liveSenderRef (state : AgentState) (sourceMessageId : string) : option val :=
  match find (fun e => ostr_is sourceMessageId e.(se_sourceMessageId)) state.(steeringQueue) with
  | Some e => Some e.(se_senderRef)
  | None =>
      let deferred :=
        dp_senderRef <$>
          find (fun d => d.(dp_sourceMessageId) =s? sourceMessageId) state.(deferredPostTurnQueue) in
      match state.(pendingPrompt) with
      | Some p => if ostr_is sourceMessageId p.(pp_sourceMessageId) then Some p.(pp_senderRef) else deferred
      | None => deferred
      end
  end.

Definition withEditedBlocks (content : val) (blocks : list val) : val :=
  VObj (dict_set "blocks" (VArr blocks) (fields content)).

Definition withAdvance (state : AgentState) (envelope : LogEnvelope) : AgentState :=
  with_lastHash envelope.(env_hash) (with_lastSeq envelope.(env_seq) state).

Definition env_causalityRecord (envelope : LogEnvelope) : val :=
  envelope.(env_causality) ?? VObj [].

(** [String(causality[k] ?? "")]. *)
Definition causality_id (k : string) (causality : val) : string :=
  to_str (js_get k causality ?? VStr "").

Definition isForeignAuthor (state : AgentState) (envelope : LogEnvelope) : bool :=
  match state.(selfId) with
  | None => false
  | Some self => negb (is_lit envelope.(env_actor).!"id" self)
  end.

(** [turnId ?? state.openTurn?.turnId ?? ""]. *)
Definition turnIdOr (turnId : option string) (state : AgentState) : string :=
  match turnId, state.(openTurn) with
  | Some t, _ => t
  | None, Some turn => turn.(ot_turnId)
  | None, None => ""
  end.

(** * The cases of [applyEvent] *)

Definition fold_turn_opened (state : AgentState) (envelope : LogEnvelope) (payload : val)
    (turnId : option string) (foreignAuthor : bool) : AgentState :=
  match turnId with
  | None => state
  | Some turnId =>
      if (turnId =s? "") || foreignAuthor then state
      else
        with_pendingPrompt None
          (with_openTurn (Some
             {| ot_turnId := turnId;
                ot_openedAtSeq := envelope.(env_seq);
                ot_reason := as_str payload.!"reason";
                ot_modelCallCount := 0;
                ot_interrupted := false;
                ot_waitingCount := 0;
                ot_metadata := metadataFromPayload payload;
                ot_pendingFlush := false |}) state)
  end.

Definition fold_turn_closed (state : AgentState) (turnId : option string) (foreignAuthor : bool)
    : AgentState :=
  if foreignAuthor then state
  else
    let close := with_inFlightModelCall None (with_openTurn None state) in
    match state.(openTurn), turnId with
    | Some turn, Some t =>
        if (t <>s? "") && (turn.(ot_turnId) <>s? t) then state else close
    | _, _ => close
    end.

Definition set_waitingCount (n : Z) (t : OpenTurn) : OpenTurn :=
  mkOpenTurn t.(ot_turnId) t.(ot_openedAtSeq) t.(ot_reason) t.(ot_modelCallCount)
    t.(ot_interrupted) n t.(ot_metadata) t.(ot_pendingFlush).
Definition set_interrupted (b : bool) (t : OpenTurn) : OpenTurn :=
  mkOpenTurn t.(ot_turnId) t.(ot_openedAtSeq) t.(ot_reason) t.(ot_modelCallCount)
    b t.(ot_waitingCount) t.(ot_metadata) t.(ot_pendingFlush).
Definition set_pendingFlush (b : bool) (t : OpenTurn) : OpenTurn :=
  mkOpenTurn t.(ot_turnId) t.(ot_openedAtSeq) t.(ot_reason) t.(ot_modelCallCount)
    t.(ot_interrupted) t.(ot_waitingCount) t.(ot_metadata) b.
Definition set_modelCallCount (n : Z) (t : OpenTurn) : OpenTurn :=
  mkOpenTurn t.(ot_turnId) t.(ot_openedAtSeq) t.(ot_reason) n
    t.(ot_interrupted) t.(ot_waitingCount) t.(ot_metadata) t.(ot_pendingFlush).

Definition fold_turn_waiting (state : AgentState) (foreignAuthor : bool) : AgentState :=
  match state.(openTurn) with
  | Some turn =>
      if foreignAuthor then state
      else with_openTurn (Some (set_waitingCount (turn.(ot_waitingCount) + 1) turn)) state
  | None => state
  end.

Definition fold_message_started (state : AgentState) (payload causality : val)
    (foreignAuthor : bool) : res AgentState :=
  if negb (is_lit payload.!"role" "assistant") || foreignAuthor then Ok state
  else
    let messageId := causality_id "messageId" causality in
    let request := payload.!"modelRequest" in
    if negb (truthy request)
    then Throw ("assistant message.started " ^^ messageId ^^ " lacks a modelRequest descriptor")
    else
      let contextThroughSeq := request.!"contextThroughSeq" in
      Ok (with_steeringQueue
            (List.filter (fun e => num_gt e.(se_seq) contextThroughSeq) state.(steeringQueue))
         (with_openTurn
            ((fun turn => set_pendingFlush false
                            (set_modelCallCount (turn.(ot_modelCallCount) + 1) turn))
             <$> state.(openTurn))
         (with_inFlightModelCall (Some
            {| im_messageId := messageId;
               im_attemptId := request.!"attemptId";
               im_contextThroughSeq := contextThroughSeq;
               im_request := request |}) state))).

Definition fold_assistant_completed (state : AgentState) (envelope : LogEnvelope)
    (payload : val) (messageId : string) (foreignAuthor : bool) : AgentState :=
  let entry :=
    assistant_entry envelope.(env_seq) messageId envelope.(env_actor)
      (arr_or_nil payload.!"blocks") (as_str payload.!"outcome") in
  if foreignAuthor then with_entries (state.(entries) ++ [entry]) state
  else
    let settle := with_entries (state.(entries) ++ [entry]) (with_inFlightModelCall None state) in
    match state.(inFlightModelCall) with
    | Some call => if call.(im_messageId) <>s? messageId then state else settle
    | None => settle
    end.

Definition fold_user_completed (state : AgentState) (envelope : LogEnvelope)
    (payload causality : val) : AgentState :=
  let metadata := metadataFromPayload payload in
  let sourceMessageId := sourceMessageIdFromPayload payload in
  let senderRef := senderRefFromPayload payload envelope.(env_actor) in
  let agentHops := as_num causality.!"agentHops" in
  let id := envelope.(env_envelopeId) in
  let seq := envelope.(env_seq) in
  let deferred :=
    {| dp_sourceMessageId := default id sourceMessageId;
       dp_envelopeId := id;
       dp_seq := seq;
       dp_senderRef := senderRef;
       dp_content := payload;
       dp_metadata := metadata;
       dp_agentHops := agentHops |} in
  if truthy metadata.!"deliverAfterTurn" && isSome state.(openTurn)
  then with_deferredPostTurnQueue (state.(deferredPostTurnQueue) ++ [deferred]) state
  else
    let deferredQueue :=
      match sourceMessageId with
      | Some s => List.filter (fun d => d.(dp_sourceMessageId) <>s? s) state.(deferredPostTurnQueue)
      | None => state.(deferredPostTurnQueue)
      end in
    let entry := user_entry seq id sourceMessageId senderRef payload metadata in
    let base :=
      with_entries (state.(entries) ++ [entry]) (with_deferredPostTurnQueue deferredQueue state) in
    match state.(openTurn) with
    | Some _ =>
        with_steeringQueue
          (state.(steeringQueue) ++
           [{| se_envelopeId := id;
               se_seq := seq;
               se_sourceMessageId := sourceMessageId;
               se_senderRef := senderRef;
               se_content := payload;
               se_metadata := metadata |}]) base
    | None =>
        with_pendingPrompt (Some
          {| pp_envelopeId := id;
             pp_seq := seq;
             pp_sourceMessageId := sourceMessageId;
             pp_senderRef := senderRef;
             pp_content := payload;
             pp_agentHops := agentHops;
             pp_metadata := metadata |}) base
    end.

Definition fold_message_completed (state : AgentState) (envelope : LogEnvelope)
    (payload causality : val) (foreignAuthor : bool) : AgentState :=
  if is_lit payload.!"role" "assistant"
  then fold_assistant_completed state envelope payload (causality_id "messageId" causality) foreignAuthor
  else fold_user_completed state envelope payload causality.

(** A user entry of the given message. *)
Definition user_entry_of (sourceMessageId : string) (entry : val) : bool :=
  is_lit entry.!"kind" "user" && is_lit entry.!"sourceMessageId" sourceMessageId.

Definition edit_steering (id : string) (blocks : list val) (e : SteeringEntry) : SteeringEntry :=
  if ostr_is id e.(se_sourceMessageId)
  then mkSteeringEntry e.(se_envelopeId) e.(se_seq) e.(se_sourceMessageId) e.(se_senderRef)
         (withEditedBlocks e.(se_content) blocks) e.(se_metadata)
  else e.

Definition edit_prompt (id : string) (blocks : list val) (p : PendingPrompt) : PendingPrompt :=
  if ostr_is id p.(pp_sourceMessageId)
  then mkPendingPrompt p.(pp_envelopeId) p.(pp_seq) p.(pp_sourceMessageId) p.(pp_senderRef)
         (withEditedBlocks p.(pp_content) blocks) p.(pp_agentHops) p.(pp_metadata)
  else p.

Definition edit_deferred (id : string) (blocks : list val) (d : DeferredPrompt) : DeferredPrompt :=
  if d.(dp_sourceMessageId) =s? id
  then mkDeferredPrompt d.(dp_sourceMessageId) d.(dp_envelopeId) d.(dp_seq) d.(dp_senderRef)
         (withEditedBlocks d.(dp_content) blocks) d.(dp_metadata) d.(dp_agentHops)
  else d.

Definition edit_entry (id : string) (blocks : list val) (entry : val) : val :=
  if user_entry_of id entry
  then VObj (dict_set "content" (withEditedBlocks entry.!"content" blocks) (fields entry))
  else entry.

(** The message named by an edit or retract, when it is live and the mutation's
    author is its sender. *)
Definition mutable_message (state : AgentState) (payload causality : val) : option string :=
  let sourceMessageId := causality_id "messageId" causality in
  if sourceMessageId =s? "" then None
  else
    match liveSenderRef state sourceMessageId with
    | None => None
    | Some sender =>
        let by_ := payload.!"by" in
        if truthy by_ && negb (strict_eqb (participantKey by_) (participantKey sender))
        then None else Some sourceMessageId
    end.

Definition fold_message_edited (state : AgentState) (payload causality : val) : AgentState :=
  match mutable_message state payload causality with
  | None => state
  | Some id =>
      let blocks := arr_or_nil payload.!"blocks" in
      with_entries (map (edit_entry id blocks) state.(entries))
        (with_deferredPostTurnQueue (map (edit_deferred id blocks) state.(deferredPostTurnQueue))
        (with_pendingPrompt (edit_prompt id blocks <$> state.(pendingPrompt))
        (with_steeringQueue (map (edit_steering id blocks) state.(steeringQueue)) state)))
  end.

Definition fold_message_retracted (state : AgentState) (payload causality : val) : AgentState :=
  match mutable_message state payload causality with
  | None => state
  | Some id =>
      with_entries (List.filter (fun e => negb (user_entry_of id e)) state.(entries))
        (with_deferredPostTurnQueue
           (List.filter (fun d => d.(dp_sourceMessageId) <>s? id) state.(deferredPostTurnQueue))
        (with_pendingPrompt
           (match state.(pendingPrompt) with
            | Some p => if ostr_is id p.(pp_sourceMessageId) then None else Some p
            | None => None
            end)
        (with_steeringQueue
           (List.filter (fun e => negb (ostr_is id e.(se_sourceMessageId))) state.(steeringQueue))
           state)))
  end.

Definition fold_message_failed (state : AgentState) (causality : val) (foreignAuthor : bool)
    : AgentState :=
  if foreignAuthor then state
  else
    match state.(inFlightModelCall) with
    | Some call =>
        if call.(im_messageId) <>s? causality_id "messageId" causality then state
        else with_inFlightModelCall None state
    | None => state
    end.

Definition fold_invocation_started (state : AgentState) (envelope : LogEnvelope)
    (payload causality : val) (turnId : option string) (foreignAuthor : bool) : res AgentState :=
  let invocationId := causality_id "invocationId" causality in
  if foreignAuthor || (invocationId =s? "") then Ok state
  else
    let transport := payload.!"transport" in
    if negb (truthy transport)
    then Throw ("invocation.started " ^^ invocationId ^^ " lacks a transport (WS1 §1.9)")
    else
      let pending :=
        {| pi_invocationId := invocationId;
           pi_turnId := turnIdOr turnId state;
           pi_startedAtSeq := envelope.(env_seq);
           pi_attemptId := as_str causality.!"attemptId";
           pi_name := to_str (payload.!"name" ?? VStr "unknown");
           pi_transport := transport;
           pi_request := payload.!"request";
           pi_requiresApproval := is_true payload.!"requiresApproval";
           pi_approvalId := None;
           pi_approvalState := ApprNone |} in
      Ok (with_pendingInvocations (dict_set invocationId pending state.(pendingInvocations)) state).

(** The tool result recorded for a terminal invocation event. *)
Definition invocation_terminal_result (kind : string) (payload : val) : val :=
  if kind =s? "invocation.completed" then payload.!"result"
  else if kind =s? "invocation.abandoned"
  then VStr ("abandoned: " ^^ to_str (payload.!"reason" ?? VStr "abandoned"))
  else payload.!"error" ?? payload.!"reason" ?? VStr "failed".

Definition fold_invocation_terminal (state : AgentState) (envelope : LogEnvelope) (kind : string)
    (payload causality : val) (foreignAuthor : bool) : AgentState :=
  if foreignAuthor then state
  else
    let invocationId := causality_id "invocationId" causality in
    match dict_get invocationId state.(pendingInvocations) with
    | None => state
    | Some pending =>
        let entry :=
          tool_result_entry envelope.(env_seq) invocationId pending.(pi_name)
            (invocation_terminal_result kind payload) (kind <>s? "invocation.completed") in
        with_entries (state.(entries) ++ [entry])
          (with_pendingInvocations (dict_del invocationId state.(pendingInvocations)) state)
    end.

Definition set_approval (st : ApprovalState) (approvalId : option string) (i : PendingInvocation)
    : PendingInvocation :=
  mkPendingInvocation i.(pi_invocationId) i.(pi_turnId) i.(pi_startedAtSeq) i.(pi_attemptId)
    i.(pi_name) i.(pi_transport) i.(pi_request) i.(pi_requiresApproval) approvalId st.

Definition fold_approval_requested (state : AgentState) (envelope : LogEnvelope)
    (payload causality : val) (turnId : option string) (foreignAuthor : bool) : AgentState :=
  let approvalId := causality_id "approvalId" causality in
  let invocationId := causality_id "invocationId" causality in
  if foreignAuthor || (approvalId =s? "") then state
  else
    let details := payload.!"details" ?? VObj [] in
    let approval :=
      {| pa_approvalId := approvalId;
         pa_invocationId := invocationId;
         pa_turnId := turnIdOr turnId state;
         pa_startedAtSeq := envelope.(env_seq);
         pa_question := to_str (payload.!"question" ?? VStr "Allow tool call?");
         pa_toolName := details.!"toolName" ?? VStr "";
         pa_input := details.!"input" |} in
    with_pendingInvocations
      (match dict_get invocationId state.(pendingInvocations) with
       | Some invocation =>
           dict_set invocationId (set_approval ApprPending (Some approvalId) invocation)
             state.(pendingInvocations)
       | None => state.(pendingInvocations)
       end)
      (with_pendingApprovals (dict_set approvalId approval state.(pendingApprovals)) state).

Definition fold_approval_resolved (state : AgentState) (payload causality : val)
    (foreignAuthor : bool) : AgentState :=
  if foreignAuthor then state
  else
    let approvalId := causality_id "approvalId" causality in
    match dict_get approvalId state.(pendingApprovals) with
    | None => state
    | Some approval =>
        let granted := is_true payload.!"granted" in
        with_pendingInvocations
          (match dict_get approval.(pa_invocationId) state.(pendingInvocations) with
           | Some invocation =>
               if granted
               then dict_set approval.(pa_invocationId)
                      (set_approval ApprGranted invocation.(pi_approvalId) invocation)
                      state.(pendingInvocations)
               else state.(pendingInvocations)
           | None => state.(pendingInvocations)
           end)
          (with_pendingApprovals (dict_del approvalId state.(pendingApprovals)) state)
    end.

Definition fold_compaction_recorded (state : AgentState) (payload : val) : AgentState :=
  match payload.!"replacement" with
  | VArr replacement => with_entries replacement state
  | _ => state
  end.

(** [payload[k] ?? details[k]]. *)
Definition payload_first (k : string) (payload details : val) : val :=
  js_get k payload ?? js_get k details.

Definition fold_wait_started (state : AgentState) (envelope : LogEnvelope)
    (payload details causality : val) (turnId : option string) : AgentState :=
  let field k := payload_first k payload details in
  let credKey := to_str (field "credKey" ?? VStr "") in
  let waitReason := field "waitReason" in
  let messageId := to_str (field "messageId" ?? causality.!"messageId" ?? VStr "") in
  let wait :=
    {| pw_credKey := credKey;
       pw_providerId := to_str (field "providerId" ?? VStr "");
       pw_turnId := turnIdOr turnId state;
       pw_startedAtSeq := envelope.(env_seq);
       pw_connectSpec := details.!"connectSpec" ?? VObj [];
       pw_modelBaseUrl := as_str (field "modelBaseUrl");
       pw_waitReason :=
         if is_lit waitReason "model_credential_reconnect_required"
            || is_lit waitReason "model_credential_required"
         then as_str waitReason else None;
       pw_reason := as_str (field "reason");
       pw_failureCode := as_str (field "failureCode");
       pw_expiresAt := to_str (field "expiresAt" ?? VStr "") |} in
  let next :=
    with_pendingCredentialWaits (dict_set credKey wait state.(pendingCredentialWaits)) state in
  match state.(inFlightModelCall) with
  | Some call =>
      if (messageId <>s? "") && (call.(im_messageId) =s? messageId)
      then with_inFlightModelCall None next else next
  | None => next
  end.

Definition fold_wait_settled (state : AgentState) (payload details : val) : AgentState :=
  let credKey := to_str (payload_first "credKey" payload details ?? VStr "") in
  if negb (dict_has credKey state.(pendingCredentialWaits)) then state
  else with_pendingCredentialWaits (dict_del credKey state.(pendingCredentialWaits)) state.

Definition fold_system_event (state : AgentState) (envelope : LogEnvelope)
    (payload causality : val) (turnId : option string) : AgentState :=
  let details := payload.!"details" ?? VObj [] in
  let detailKind := to_str (details.!"kind" ?? payload.!"kind" ?? VStr "") in
  if detailKind =s? "credential.wait_started"
  then fold_wait_started state envelope payload details causality turnId
  else if (detailKind =s? "credential.wait_resolved") || (detailKind =s? "credential.wait_expired")
  then fold_wait_settled state payload details
  else if detailKind =s? "roster.snapshot"
  then
    with_config (VObj (dict_set "roster"
                         (details.!"roster" ?? VObj [("participants", VArr [])])
                         (fields state.(config)))) state
  else if detailKind =s? "config.changed"
  then with_config (VObj (dict_merge (fields state.(config)) (fields details.!"patch"))) state
  else if detailKind =s? "interrupt"
  then with_openTurn (set_interrupted true <$> state.(openTurn)) state
  else if detailKind =s? "flush_steers"
  then with_openTurn (set_pendingFlush true <$> state.(openTurn)) state
  else state.

(** * The reducer *)

Definition applyEvent (prev : AgentState) (envelope : LogEnvelope) : res AgentState :=
  let state := withAdvance prev envelope in
  let kind := envelope.(env_payloadKind) in
  let payload := payloadRecord envelope in
  let causality := env_causalityRecord envelope in
  let turnId := as_str causality.!"turnId" in
  let foreignAuthor := isForeignAuthor state envelope in
  if kind =s? "message.delta"
  then Throw "message.delta must never be appended to a trajectory log"
  else if kind =s? "turn.opened"
  then Ok (fold_turn_opened state envelope payload turnId foreignAuthor)
  else if kind =s? "turn.closed" then Ok (fold_turn_closed state turnId foreignAuthor)
  else if kind =s? "turn.waiting" then Ok (fold_turn_waiting state foreignAuthor)
  else if kind =s? "message.started" then fold_message_started state payload causality foreignAuthor
  else if kind =s? "message.completed"
  then Ok (fold_message_completed state envelope payload causality foreignAuthor)
  else if kind =s? "message.edited" then Ok (fold_message_edited state payload causality)
  else if kind =s? "message.retracted" then Ok (fold_message_retracted state payload causality)
  else if kind =s? "message.failed" then Ok (fold_message_failed state causality foreignAuthor)
  else if kind =s? "invocation.started"
  then fold_invocation_started state envelope payload causality turnId foreignAuthor
  else if (kind =s? "invocation.completed") || (kind =s? "invocation.failed")
          || (kind =s? "invocation.cancelled") || (kind =s? "invocation.abandoned")
  then Ok (fold_invocation_terminal state envelope kind payload causality foreignAuthor)
  else if kind =s? "approval.requested"
  then Ok (fold_approval_requested state envelope payload causality turnId foreignAuthor)
  else if kind =s? "approval.resolved"
  then Ok (fold_approval_resolved state payload causality foreignAuthor)
  else if kind =s? "system.compaction_recorded" then Ok (fold_compaction_recorded state payload)
  else if kind =s? "system.event" then Ok (fold_system_event state envelope payload causality turnId)
  else Ok state.

Definition foldEvents (initial : AgentState) (envelopes : list LogEnvelope) : res AgentState :=
  res_foldl applyEvent initial envelopes.
