(* ===== verification/AgentEffects.v ===== *)
(** Effects of the agent loop (workspace/packages/agent-loop/src/effects.ts):
    the effect descriptors, their derivation from the folded state, and the
    mapping of executor outcomes to terminal log events; the inputs of the loop. *)
From S2P Require Import Prelude Dict JsValue JsText AgentIds AgentState.
From Stdlib Require Import Ascii.
From S2P Require Import AgentFold.
#[local] Open Scope Z_scope.

Definition AGENTIC_PROTOCOL_VERSION : string := "agentic.trajectory.v1".
Definition AGENTIC_EVENT_PAYLOAD_KIND : string := "agentic.trajectory.v1/event".
Definition protocol_field : string * val := ("protocol", VStr AGENTIC_PROTOCOL_VERSION).

(** * Model failures, as the effects and the step see them *)

Inductive ModelFailureClass :=
  | usage_limit_terminal
  | quota_exhausted_terminal
  | rate_limited_retryable
  | provider_overloaded_retryable
  | auth_or_credentials
  | request_invalid_terminal
  | context_overflow_terminal
  | unknown_retryable.

Definition failure_code (c : ModelFailureClass) : string :=
  match c with
  | usage_limit_terminal => "usage_limit_terminal"
  | quota_exhausted_terminal => "quota_exhausted_terminal"
  | rate_limited_retryable => "rate_limited_retryable"
  | provider_overloaded_retryable => "provider_overloaded_retryable"
  | auth_or_credentials => "auth_or_credentials"
  | request_invalid_terminal => "request_invalid_terminal"
  | context_overflow_terminal => "context_overflow_terminal"
  | unknown_retryable => "unknown_retryable"
  end.

Record ModelFailureInfo := mkFailureInfo {
  mf_code : ModelFailureClass;
  mf_reason : string;
  mf_recoverable : bool;
  mf_retryAfterMs : option Z;
  mf_resetAt : option string
}.

(** The fields of [ModelFailureInput] that the loop fills in. *)
Record ModelFailureInput := mkFailureInput {
  mfi_provider : val;
  mfi_model : val;
  mfi_message : option string;
  mfi_rawReason : option string;
  mfi_now : string
}.

(** What the loop needs of the failure classifier (model-errors.ts). *)
Class ModelFailureClassifier := {
  classifyModelFailure : ModelFailureInput -> ModelFailureInfo
}.

(** * Descriptors *)

Inductive EffectKind :=
  | KModelCall | KLocalTool | KChannelCall | KHttpCall | KCredentialWait | KPublishEnvelope.

#[global] Instance EffectKind_eq_dec : EqDecision EffectKind.
Proof. solve_decision. Defined.

Record EffectBase := mkEffectBase {
  eb_effectId : string;
  eb_channelId : string;
  eb_idempotencyKey : val
}.

Record ModelCallEffect := mkModelCallEffect {
  mc_base : EffectBase;
  mc_messageId : string;
  mc_turnId : string;
  mc_request : val
}.

Record LocalToolEffect := mkLocalToolEffect {
  lt_base : EffectBase;
  lt_invocationId : string;
  lt_turnId : string;
  lt_tool : string;
  lt_args : val
}.

Record ChannelCallEffect := mkChannelCallEffect {
  cc_base : EffectBase;
  cc_invocationId : string;
  cc_turnId : string;
  cc_transportCallId : val;
  cc_target : val;
  cc_method : string;
  cc_args : val;
  cc_purpose : option string;
  cc_approvalId : option string
}.

Record HttpCallEffect := mkHttpCallEffect {
  hc_base : EffectBase;
  hc_invocationId : string;
  hc_turnId : string;
  hc_targetUrl : val;
  hc_request : val
}.

Record CredentialWaitEffect := mkCredentialWaitEffect {
  cw_base : EffectBase;
  cw_credKey : string;
  cw_startedAtSeq : Z;
  cw_providerId : string;
  cw_turnId : string;
  cw_connectSpec : val;
  cw_modelBaseUrl : option string;
  cw_waitReason : option string;
  cw_reason : option string;
  cw_failureCode : option string;
  cw_expiresAt : string
}.

Record PublishEnvelopeEffect := mkPublishEnvelopeEffect {
  pe_base : EffectBase;
  pe_payloadKind : string;
  pe_payload : val
}.

Inductive EffectDescriptor :=
  | EModelCall (e : ModelCallEffect)
  | ELocalTool (e : LocalToolEffect)
  | EChannelCall (e : ChannelCallEffect)
  | EHttpCall (e : HttpCallEffect)
  | ECredentialWait (e : CredentialWaitEffect)
  | EPublishEnvelope (e : PublishEnvelopeEffect).

Definition effect_base (e : EffectDescriptor) : EffectBase :=
  match e with
  | EModelCall e => e.(mc_base)
  | ELocalTool e => e.(lt_base)
  | EChannelCall e => e.(cc_base)
  | EHttpCall e => e.(hc_base)
  | ECredentialWait e => e.(cw_base)
  | EPublishEnvelope e => e.(pe_base)
  end.

Definition effectId (e : EffectDescriptor) : string := (effect_base e).(eb_effectId).

Definition effect_kind (e : EffectDescriptor) : EffectKind :=
  match e with
  | EModelCall _ => KModelCall
  | ELocalTool _ => KLocalTool
  | EChannelCall _ => KChannelCall
  | EHttpCall _ => KHttpCall
  | ECredentialWait _ => KCredentialWait
  | EPublishEnvelope _ => KPublishEnvelope
  end.

(** * Deriving the pending effects *)

Definition modelCallEffect (state : AgentState) (call : InFlightModelCall) : ModelCallEffect :=
  {| mc_base :=
       {| eb_effectId := ids.modelEffect call.(im_messageId);
          eb_channelId := state.(channelId);
          eb_idempotencyKey := call.(im_attemptId) |};
     mc_messageId := call.(im_messageId);
     mc_turnId := match state.(openTurn) with Some turn => turn.(ot_turnId) | None => "" end;
     mc_request := call.(im_request) |}.

Definition truthy_ostr (o : option string) : option string :=
  match o with Some s => if s =s? "" then None else Some s | None => None end.

Definition invocationEffect (state : AgentState) (invocation : PendingInvocation)
    : EffectDescriptor :=
  let base key :=
    {| eb_effectId := ids.invocationEffect invocation.(pi_invocationId);
       eb_channelId := state.(channelId);
       eb_idempotencyKey := key |} in
  let transport := invocation.(pi_transport) in
  if is_lit transport.!"kind" "local"
  then ELocalTool
         {| lt_base := base (VStr invocation.(pi_invocationId));
            lt_invocationId := invocation.(pi_invocationId);
            lt_turnId := invocation.(pi_turnId);
            lt_tool := invocation.(pi_name);
            lt_args := invocation.(pi_request) |}
  else if is_lit transport.!"kind" "channel"
  then
    let transportCallId :=
      transport.!"transportCallId" ?? VStr (ids.transportCallId invocation.(pi_invocationId)) in
    EChannelCall
      {| cc_base := base transportCallId;
         cc_invocationId := invocation.(pi_invocationId);
         cc_turnId := invocation.(pi_turnId);
         cc_transportCallId := transportCallId;
         cc_target := transport.!"target";
         cc_method := invocation.(pi_name);
         cc_args := invocation.(pi_request);
         cc_purpose := (fun _ => "tool") <$> truthy_ostr invocation.(pi_approvalId);
         cc_approvalId := truthy_ostr invocation.(pi_approvalId) |}
  else EHttpCall
         {| hc_base := base transport.!"idempotencyKey";
            hc_invocationId := invocation.(pi_invocationId);
            hc_turnId := invocation.(pi_turnId);
            hc_targetUrl := transport.!"targetUrl";
            hc_request := invocation.(pi_request) |}.

(** The participant that answers prompts: the first panel or user. *)
Definition promptingUser (config : val) : option val :=
  find (fun p => is_lit p.!"type" "panel" || is_lit p.!"ref".!"kind" "user")
    (arr_or_nil config.!"roster".!"participants").

Definition approvalFormEffect (state : AgentState) (approval : PendingApproval)
    : ChannelCallEffect :=
  let target :=
    match promptingUser state.(config) with
    | Some p => p.!"ref" ?? VObj [("kind", VStr "user"); ("id", VStr "user")]
    | None => VObj [("kind", VStr "user"); ("id", VStr "user")]
    end in
  {| cc_base :=
       {| eb_effectId := ids.approvalFormEffect approval.(pa_approvalId);
          eb_channelId := state.(channelId);
          eb_idempotencyKey := VStr approval.(pa_approvalId) |};
     cc_invocationId := approval.(pa_invocationId);
     cc_turnId := approval.(pa_turnId);
     cc_transportCallId := VStr (ids.transportCallId approval.(pa_approvalId));
     cc_target := target;
     cc_method := "confirm";
     cc_args :=
       VObj [("question", VStr approval.(pa_question));
             ("details", VObj [("toolName", approval.(pa_toolName)); ("input", approval.(pa_input))])];
     cc_purpose := Some "approval-form";
     cc_approvalId := Some approval.(pa_approvalId) |}.

Definition credentialWaitEffect (state : AgentState) (wait : PendingCredentialWait)
    : CredentialWaitEffect :=
  {| cw_base :=
       {| eb_effectId := ids.credentialWaitEffect wait.(pw_credKey);
          eb_channelId := state.(channelId);
          eb_idempotencyKey := VStr wait.(pw_credKey) |};
     cw_credKey := wait.(pw_credKey);
     cw_startedAtSeq := wait.(pw_startedAtSeq);
     cw_providerId := wait.(pw_providerId);
     cw_turnId := wait.(pw_turnId);
     cw_connectSpec := wait.(pw_connectSpec);
     cw_modelBaseUrl := truthy_ostr wait.(pw_modelBaseUrl);
     cw_waitReason := truthy_ostr wait.(pw_waitReason);
     cw_reason := truthy_ostr wait.(pw_reason);
     cw_failureCode := truthy_ostr wait.(pw_failureCode);
     cw_expiresAt := wait.(pw_expiresAt) |}.

(** An invocation whose dispatch waits for a grant. *)
Definition gated (invocation : PendingInvocation) : bool :=
  invocation.(pi_requiresApproval)
  && negb (bool_decide (invocation.(pi_approvalState) = ApprGranted)).

Definition derivePendingEffects (state : AgentState) : list EffectDescriptor :=
  match state.(inFlightModelCall) with
  | Some call => [EModelCall (modelCallEffect state call)]
  | None => []
  end
  ++ map (invocationEffect state)
       (List.filter (fun i => negb (gated i)) (dict_values state.(pendingInvocations)))
  ++ map (fun a => EChannelCall (approvalFormEffect state a)) (dict_values state.(pendingApprovals))
  ++ map (fun w => ECredentialWait (credentialWaitEffect state w))
       (dict_values state.(pendingCredentialWaits)).

(** * Outcomes *)

Record AppendItem := mkAppendItem {
  ai_envelopeId : string;
  ai_payloadKind : string;
  ai_payload : val;
  ai_causality : val;
  ai_publish : bool
}.

Inductive StopReason := StopCompleted | StopAborted | StopError.

Inductive EffectOutcome :=
  | OModel (blocks : list val) (stopReason : StopReason) (outcome : option string) (usage : val)
      (errorReason : option string) (recoverable : option bool) (failure : option ModelFailureInfo)
  | ORetry (reason : string) (retryAfterMs : option Z) (code : option string)
  | OModelSuspended (providerId : string) (modelBaseUrl waitReason diagnosticReason failureCode : option string)
  | OTool (result : val) (summary : option string) (isError : bool) (reason : option string)
  | OApproval (granted : bool) (resolvedBy : val) (reason : option string)
  | OCredential (resolved : bool) (reason : option string).

Definition modelFailurePayload (failure : ModelFailureInfo) (recoverableOverride : option bool) : val :=
  let recoverable := failure.(mf_recoverable) && default true recoverableOverride in
  VObj ([protocol_field; ("reason", VStr failure.(mf_reason)); ("recoverable", VBool recoverable);
         ("code", VStr (failure_code failure.(mf_code)))]
        ++ def_field "retryAfterMs" (of_onum failure.(mf_retryAfterMs))
        ++ opt_field "resetAt" (of_ostr failure.(mf_resetAt))).

(** The [type] field of a content block. *)
Definition block_type (block : val) : val := if is_object block then block.!"type" else VUndef.

Definition classifyModelOutcome (blocks : list val) (stopReason : StopReason)
    (outcome : option string) : string :=
  match truthy_ostr outcome with
  | Some o => o
  | None =>
      match stopReason, blocks with
      | StopAborted, _ => "interrupted"
      | _, [] => "empty"
      | _, _ =>
          let hasContent :=
            existsb (fun b => is_lit (block_type b) "text" || is_lit (block_type b) "thinking") blocks in
          if negb hasContent then "tool_calls_only" else "completed"
      end
  end.

Definition messageHasToolCalls (blocks : list val) : bool :=
  existsb (fun b => is_lit (block_type b) "toolCall" || is_lit (block_type b) "tool_call") blocks.

Definition blocksLookSuccessful (blocks : list val) : bool :=
  let text :=
    String.concat (String "010"%char "")
      (map (fun b => if is_object b
                     then match b.!"content" with VStr s => toLowerCase s | _ => "" end
                     else "") blocks) in
  negb (matches_word ["error"; "failed"; "failure"; "blocked"; "unable"; "cannot"] false text).

Definition blocksContainText (blocks : list val) (needle : string) : bool :=
  if needle =s? "" then false
  else
    existsb (fun b => if is_object b
                      then match b.!"content" with VStr s => includes needle s | _ => false end
                      else false) blocks.

Definition shouldPublishModelOutcome (request : val) (blocks : list val) : bool :=
  let metadata := request.!"turnMetadata" in
  if negb (truthy metadata) then true
  else if is_lit metadata.!"delivery" "none" then false
  else if truthy metadata.!"silentOk" && blocksLookSuccessful blocks then false
  else if truthy metadata.!"ackToken" && blocksContainText blocks (to_str metadata.!"ackToken")
  then false
  else true.

(** agentic-protocol/src/events.ts. *)
Definition invocationCompletedPayload (opts : list (string * val)) : val :=
  VObj ([protocol_field] ++ opts ++ [("terminalOutcome", VStr "success")]).

Definition invocationFailurePayload (outcome reason : string) (opts : list (string * val)) : val :=
  VObj ([protocol_field; ("reason", VStr reason)] ++ opts ++ [("terminalOutcome", VStr outcome)]).

Definition invocationFailedPayload := invocationFailurePayload.

(** * outcomeEvents *)

Section Outcomes.
Context `{ModelFailureClassifier}.

Definition outcomeEvents_model (d : ModelCallEffect) (outcome : EffectOutcome) (now : string)
    : res (list AppendItem) :=
  match outcome with
  | OModelSuspended _ _ _ _ _ => Ok []
  | ORetry _ _ _ => Ok []
  | OModel blocks StopError _ _ errorReason recoverable failure =>
      let failure :=
        default
          (classifyModelFailure
             {| mfi_provider := d.(mc_request).!"provider";
                mfi_model := d.(mc_request).!"model";
                mfi_message := errorReason;
                mfi_rawReason := errorReason;
                mfi_now := now |}) failure in
      Ok [ {| ai_envelopeId := ids.messageTerminal d.(mc_messageId);
              ai_payloadKind := "message.failed";
              ai_payload := modelFailurePayload failure recoverable;
              ai_causality := VObj [("messageId", VStr d.(mc_messageId))];
              ai_publish := shouldPublishModelOutcome d.(mc_request) [] |} ]
  | OModel blocks stopReason outcome usage _ _ _ =>
      let publish := shouldPublishModelOutcome d.(mc_request) blocks in
      let messageOutcome := classifyModelOutcome blocks stopReason outcome in
      let tier :=
        if (messageOutcome <>s? "interrupted") && messageHasToolCalls blocks
        then "secondary" else "primary" in
      Ok [ {| ai_envelopeId := ids.messageTerminal d.(mc_messageId);
              ai_payloadKind := "message.completed";
              ai_payload :=
                VObj ([protocol_field; ("role", VStr "assistant"); ("blocks", VArr blocks);
                       ("outcome", VStr messageOutcome); ("tier", VStr tier)]
                      ++ opt_field "usage" usage);
              ai_causality := VObj [("messageId", VStr d.(mc_messageId))];
              ai_publish := publish |} ]
  | _ => Throw "model_call expects a model outcome"
  end.

Definition kind_name (k : EffectKind) : string :=
  match k with
  | KModelCall => "model_call"
  | KLocalTool => "local_tool"
  | KChannelCall => "channel_call"
  | KHttpCall => "http_call"
  | KCredentialWait => "credential_wait"
  | KPublishEnvelope => "publish_envelope"
  end.

Definition outcomeEvents_tool (kind : EffectKind) (invocationId turnId : string)
    (transportCallId : val) (outcome : EffectOutcome) : res (list AppendItem) :=
  match outcome with
  | OTool result summary isError reason =>
      let causality :=
        VObj ([("invocationId", VStr invocationId)]
              ++ (if bool_decide (kind = KChannelCall)
                  then [("transportCallId", transportCallId)] else [])
              ++ [("turnId", VStr turnId)]) in
      Ok [ {| ai_envelopeId := ids.invocationTerminal invocationId;
              ai_payloadKind := if isError then "invocation.failed" else "invocation.completed";
              ai_payload :=
                if isError
                then invocationFailedPayload "tool_error" (default "tool failed" reason)
                       [("error", result)]
                else invocationCompletedPayload
                       ([("result", result)] ++ opt_field "summary" (of_ostr summary));
              ai_causality := causality;
              ai_publish := true |} ]
  | _ => Throw (kind_name kind ^^ " expects a tool outcome")
  end.

Definition outcomeEvents_approval (d : ChannelCallEffect) (outcome : EffectOutcome)
    : res (list AppendItem) :=
  match outcome with
  | OApproval granted resolvedBy reason =>
      Ok [ {| ai_envelopeId := ids.approvalResolved (default "undefined" d.(cc_approvalId));
              ai_payloadKind := "approval.resolved";
              ai_payload :=
                VObj ([protocol_field; ("granted", VBool granted); ("resolvedBy", resolvedBy)]
                      ++ opt_field "reason" (of_ostr reason));
              ai_causality :=
                VObj [("approvalId", of_ostr d.(cc_approvalId));
                      ("invocationId", VStr d.(cc_invocationId)); ("turnId", VStr d.(cc_turnId))];
              ai_publish := true |} ]
  | _ => Throw "approval form expects an approval outcome"
  end.

Definition outcomeEvents_credential (d : CredentialWaitEffect) (outcome : EffectOutcome)
    : res (list AppendItem) :=
  match outcome with
  | OCredential resolved reason =>
      Ok [ {| ai_envelopeId := ids.systemEvent d.(cw_credKey) "resolved" (Some d.(cw_startedAtSeq));
              ai_payloadKind := "system.event";
              ai_payload :=
                VObj [protocol_field; ("kind", VStr "credential.wait_resolved");
                      ("credKey", VStr d.(cw_credKey));
                      ("details",
                        VObj ([("kind", VStr "credential.wait_resolved");
                               ("credKey", VStr d.(cw_credKey));
                               ("providerId", VStr d.(cw_providerId));
                               ("resolved", VBool resolved)]
                              ++ opt_field "reason" (of_ostr reason)))];
              ai_causality := VObj [("turnId", VStr d.(cw_turnId))];
              ai_publish := true |} ]
  | _ => Throw "credential_wait expects credential"
  end.

Definition outcomeEvents (descriptor : EffectDescriptor) (outcome : EffectOutcome) (now : string)
    : res (list AppendItem) :=
  match descriptor with
  | EModelCall d => outcomeEvents_model d outcome now
  | ELocalTool d => outcomeEvents_tool KLocalTool d.(lt_invocationId) d.(lt_turnId) VUndef outcome
  | EHttpCall d => outcomeEvents_tool KHttpCall d.(hc_invocationId) d.(hc_turnId) VUndef outcome
  | EChannelCall d =>
      if negb (bool_decide (d.(cc_purpose) = Some "approval-form"))
      then outcomeEvents_tool KChannelCall d.(cc_invocationId) d.(cc_turnId)
             d.(cc_transportCallId) outcome
      else outcomeEvents_approval d outcome
  | ECredentialWait d => outcomeEvents_credential d outcome
  | EPublishEnvelope _ => Ok []
  end.
End Outcomes.

(** Commands and inputs of the agent loop
    (workspace/packages/agent-loop/src/commands.ts) and the step output. *)
Record SerializedError := mkSerializedError {
  err_message : string;
  err_name : option string;
  err_stack : option string
}.

(** The fields shared by [prompt] and [steer]. *)
Record PromptCommand := mkPromptCommand {
  pc_channelId : string;
  pc_sourceEnvelopeId : string;
  pc_sourceMessageId : option string;
  pc_content : val;
  pc_senderRef : val;
  pc_agentHops : option Z;
  pc_metadata : val
}.

Inductive Command :=
  | CPrompt (c : PromptCommand)
  | CSteer (c : PromptCommand)
  | CInterrupt (flushDeferred : bool)
  | CAbort (reason : option string)
  | CEdit (sourceMessageId : string) (blocks : list val) (by_ : val)
  | CRetract (sourceMessageId : string) (by_ : val)
  | CSetConfig (patch : val)
  | CCompact
  | CResumeAfterReset (messageId resetAt : string)
  | CWake.

Inductive Incoming :=
  | ICommand (command : Command)
  | IEventAppended (envelope : LogEnvelope)
  | IEffectFailed (effectId : string) (kind : EffectKind) (error : SerializedError) (attempts : Z).

Record StepContext := mkStepContext {
  ctx_now : string;
  ctx_random : unit -> string;
  ctx_selfRef : val
}.

Record StepOutput := mkStepOutput {
  so_append : list AppendItem;
  so_effects : list EffectDescriptor
}.

Definition EMPTY : StepOutput := mkStepOutput [] [].
