(* ===== verification/AgentContext.v ===== *)
(** The model context (workspace/packages/agent-loop/src/context.ts): folded
    session entries as the message array a model call is given. *)
From S2P Require Import Prelude Dict JsValue JsText AgentIds AgentState AgentFold.
From Stdlib Require Import Ascii.
#[local] Open Scope Z_scope.

Inductive MessageRole := RoleUser | RoleAssistant | RoleToolResult.

Record ModelMessage := mkModelMessage {
  mm_role : MessageRole;
  mm_content : val;
  mm_blocks : val;
  mm_toolCallId : val;
  mm_toolName : val;
  mm_isError : val
}.

Definition user_message (content : val) : ModelMessage :=
  mkModelMessage RoleUser content VUndef VUndef VUndef VUndef.

(** Speaker label: display name, else handle, else id. *)
Definition participantLabel (ref : val) : string :=
  match ref.!"displayName" with
  | VStr s =>
      if s =s? "" then
        match ref.!"metadata".!"handle" with
        | VStr h => if h =s? "" then to_str ref.!"id" else h
        | _ => to_str ref.!"id"
        end
      else s
  | _ =>
      match ref.!"metadata".!"handle" with
      | VStr h => if h =s? "" then to_str ref.!"id" else h
      | _ => to_str ref.!"id"
      end
  end.

Definition block_text (raw : val) : list string :=
  if is_object raw && is_lit raw.!"type" "text"
  then
    let text := match raw.!"content" with VStr s => VStr s | _ => raw.!"text" end in
    match text with VStr s => [s] | _ => [] end
  else [].

Definition assistantBlocksToText (blocks : list val) : string :=
  let text := trim (String.concat (String "010"%char "") (flat_map block_text blocks)) in
  if text =s? "" then "(no text content)" else text.

(** Whether an author is somebody else than [selfId]. *)
Definition isOtherAuthor (selfId : option string) (author : val) : bool :=
  match selfId with
  | Some self => (self <>s? "") && truthy author.!"id" && negb (is_lit author.!"id" self)
  | None => false
  end.

(** [None]: an entry of no known kind falls through the switch. *)
Definition modelMessageFromEntry (entry : val) (selfId : option string) : option ModelMessage :=
  if is_lit entry.!"kind" "user" then Some (user_message entry.!"content")
  else if is_lit entry.!"kind" "assistant"
  then
    let author := entry.!"senderRef" in
    if isOtherAuthor selfId author
    then Some (user_message (VStr ("[" ^^ participantLabel author ^^ "]: "
                                   ^^ assistantBlocksToText (arr_or_nil entry.!"blocks"))))
    else Some (mkModelMessage RoleAssistant VUndef entry.!"blocks" VUndef VUndef VUndef)
  else if is_lit entry.!"kind" "tool-result"
  then Some (mkModelMessage RoleToolResult entry.!"result" VUndef entry.!"invocationId"
               entry.!"name" entry.!"isError")
  else if is_lit entry.!"kind" "note"
  then Some (user_message (VObj [("note", entry.!"text")]))
  else None.

(** [entry.seq > contextThroughSeq]; no bound is an infinite one. *)
Definition beyond (contextThroughSeq : option Z) (entry : val) : bool :=
  match contextThroughSeq, entry.!"seq" with
  | Some bound, VNum seq => bound <? seq
  | _, _ => false
  end.

Fixpoint context_messages (selfId : option string) (contextThroughSeq : option Z)
    (entries : list val) : list (option ModelMessage) :=
  match entries with
  | [] => []
  | entry :: rest =>
      if beyond contextThroughSeq entry then []
      else modelMessageFromEntry entry selfId :: context_messages selfId contextThroughSeq rest
  end.

Definition buildModelContext (state : AgentState) (contextThroughSeq : option Z)
    : list (option ModelMessage) :=
  context_messages state.(selfId) contextThroughSeq state.(entries).
