(* ===== verification/AgentStep.v ===== *)
(** The step of the agent loop (workspace/packages/agent-loop/src/step.ts):
    from a folded state and one input to the events to append and the effects
    to dispatch. *)
From S2P Require Import Prelude Dict JsValue JsText AgentIds AgentState AgentFold AgentEffects.
From S2P Require Import AgentEffects.
From Stdlib Require Import Ascii.
#[local] Open Scope Z_scope.

Definition TypeError : string := "TypeError".

(** * Model calls *)

Definition parseModel (model : val) : res (string * string) :=
  match model with
  | VStr model =>
      match indexOf ":"%char model with
      | None => Ok ("anthropic", model)
      | Some idx => Ok (str_take idx model, str_slice (S idx) model)
      end
  | _ => Throw TypeError
  end.

Definition turnConfig (state : AgentState) : val :=
  let patch :=
    match state.(openTurn) with
    | Some turn => turn.(ot_metadata).!"loopConfigPatch"
    | None => VUndef
    end in
  if negb (truthy patch) then state.(config)
  else VObj (dict_merge (fields state.(config)) (fields patch)).

Definition shouldPublishTurnLifecycle (metadata : val) : bool :=
  negb (is_lit metadata.!"delivery" "none").

Definition openTurnMetadata (state : AgentState) : val :=
  match state.(openTurn) with Some turn => turn.(ot_metadata) | None => VUndef end.

Definition modelStartItems (state : AgentState) (turnId : string) (modelCallCount itemsBefore : Z)
    : res (AppendItem * ModelCallEffect) :=
  let messageId := ids.messageId turnId modelCallCount in
  let attemptId := ids.attemptId messageId in
  let config := turnConfig state in
  let! (provider, model) := parseModel config.!"model" in
  let request :=
    VObj ([("provider", VStr provider); ("model", VStr model);
           ("thinkingLevel", config.!"thinkingLevel");
           ("systemPromptHash", config.!"systemPromptHash")]
          ++ opt_field "skillIndexHash" config.!"skillIndexHash"
          ++ opt_field "toolSchemasHash" config.!"toolSchemasHash"
          ++ [("activeToolNames", config.!"activeToolNames");
              ("contextThroughSeq", VNum (state.(lastSeq) + itemsBefore));
              ("attemptId", VStr attemptId)]
          ++ (match config.!"modelStreamIdleTimeoutMs" with
              | VUndef => []
              | ms => [("streamOptions", VObj [("idleTimeoutMs", ms)])]
              end)
          ++ opt_field "turnMetadata" (openTurnMetadata state)) in
  Ok ({| ai_envelopeId := ids.messageStarted messageId;
         ai_payloadKind := "message.started";
         ai_payload := VObj [protocol_field; ("role", VStr "assistant"); ("modelRequest", request)];
         ai_causality := VObj [("messageId", VStr messageId); ("turnId", VStr turnId)];
         ai_publish := shouldPublishTurnLifecycle (openTurnMetadata state) |},
      {| mc_base :=
           {| eb_effectId := ids.modelEffect messageId;
              eb_channelId := state.(channelId);
              eb_idempotencyKey := VStr attemptId |};
         mc_messageId := messageId;
         mc_turnId := turnId;
         mc_request := request |}).

(** * Items *)

Definition recvItem (command : PromptCommand) : AppendItem :=
  let id := ids.recvUserMessage command.(pc_channelId) command.(pc_sourceEnvelopeId) in
  {| ai_envelopeId := id;
     ai_payloadKind := "message.completed";
     ai_payload :=
       VObj ([protocol_field; ("role", VStr "user");
              ("blocks",
                match command.(pc_content) with
                | VArr l => VArr l
                | c => VArr [VObj [("type", VStr "text"); ("content", VStr (to_str (c ?? VStr "")))]]
                end);
              ("outcome", VStr "completed")]
             ++ opt_field "metadata" command.(pc_metadata)
             ++ opt_field "sourceMessageId" (of_ostr command.(pc_sourceMessageId))
             ++ [("senderRef", command.(pc_senderRef))]);
     ai_causality :=
       VObj ([("messageId", VStr id)] ++ def_field "agentHops" (of_onum command.(pc_agentHops)));
     ai_publish := false |}.

Definition turnOpenedItem (turnId : string) (metadata : val) : AppendItem :=
  {| ai_envelopeId := ids.turnOpened turnId;
     ai_payloadKind := "turn.opened";
     ai_payload := VObj ([protocol_field] ++ opt_field "metadata" metadata);
     ai_causality := VObj [("turnId", VStr turnId)];
     ai_publish := shouldPublishTurnLifecycle metadata |}.

Definition turnClosedItem (turnId : string) (reason summary : option string) : AppendItem :=
  {| ai_envelopeId := ids.turnClosed turnId;
     ai_payloadKind := "turn.closed";
     ai_payload :=
       VObj ([protocol_field] ++ opt_field "reason" (of_ostr reason)
             ++ opt_field "summary" (of_ostr summary));
     ai_causality := VObj [("turnId", VStr turnId)];
     ai_publish := true |}.

Definition turnWaitingItem (turnId : string) (waitingCount : Z) (reason : string)
    (summary : option string) : AppendItem :=
  {| ai_envelopeId := ids.turnWaiting turnId waitingCount;
     ai_payloadKind := "turn.waiting";
     ai_payload :=
       VObj ([protocol_field; ("reason", VStr reason)] ++ opt_field "summary" (of_ostr summary));
     ai_causality := VObj [("turnId", VStr turnId)];
     ai_publish := true |}.

(** * Read acks *)

Definition selfRefId (ctx : StepContext) : string := to_str ctx.(ctx_selfRef).!"id".

Definition readAckEffect (channelId sourceMessageId turnId : string) (ctx : StepContext)
    : EffectDescriptor :=
  let id := "read:" ^^ sourceMessageId ^^ ":" ^^ turnId in
  EPublishEnvelope
    {| pe_base :=
         {| eb_effectId := id; eb_channelId := channelId; eb_idempotencyKey := VStr id |};
       pe_payloadKind := AGENTIC_EVENT_PAYLOAD_KIND;
       pe_payload :=
         VObj [("kind", VStr "message.read"); ("actor", ctx.(ctx_selfRef));
               ("causality", VObj [("messageId", VStr sourceMessageId)]);
               ("payload", VObj [protocol_field; ("turnId", VStr turnId)]);
               ("createdAt", VStr ctx.(ctx_now))] |}.

(** [Set.prototype.add] on a set kept as a list in insertion order. *)
Definition set_add (x : string) (s : list string) : list string :=
  if existsb (String.eqb x) s then s else s ++ [x].

(** The messages an upcoming model call consumes. *)
Definition consumedMessages (state : AgentState) (contextThroughSeq : val)
    (freshSourceMessageIds : list string) : list string :=
  let fresh :=
    fold_left (fun s x => set_add x s)
      (List.filter (fun x => x <>s? "") freshSourceMessageIds) [] in
  fold_left
    (fun s e =>
       match truthy_ostr e.(se_sourceMessageId) with
       | Some x => if num_le e.(se_seq) contextThroughSeq then set_add x s else s
       | None => s
       end) state.(steeringQueue) fresh.

Definition readAckEffects (state : AgentState) (contextThroughSeq : val)
    (freshSourceMessageIds : list string) (turnId : string) (ctx : StepContext)
    : list EffectDescriptor :=
  map (fun m => readAckEffect state.(channelId) m turnId ctx)
    (consumedMessages state contextThroughSeq freshSourceMessageIds).

Definition ostr_list (o : option string) : list string :=
  match truthy_ostr o with Some s => [s] | None => [] end.

(** * Opening turns *)

(** The open turn a batch will have after its [turn.opened] item. *)
Definition openedTurn (turnId : string) (openedAtSeq : Z) (metadata : val) : OpenTurn :=
  {| ot_turnId := turnId;
     ot_openedAtSeq := openedAtSeq;
     ot_reason := None;
     ot_modelCallCount := 0;
     ot_interrupted := false;
     ot_waitingCount := 0;
     ot_metadata := if truthy metadata then metadata else VUndef;
     ot_pendingFlush := false |}.

Definition promotedRecvItem (head : DeferredPrompt) (promotionSeq : Z) : AppendItem :=
  let id := ids.recvPromoted head.(dp_sourceMessageId) promotionSeq in
  let metadata :=
    if truthy head.(dp_metadata)
    then VObj (dict_set "deliverAfterTurn" VUndef (fields head.(dp_metadata))) else VUndef in
  {| ai_envelopeId := id;
     ai_payloadKind := "message.completed";
     ai_payload :=
       VObj (dict_merge (fields head.(dp_content))
               ([protocol_field; ("role", VStr "user"); ("outcome", VStr "completed");
                 ("sourceMessageId", VStr head.(dp_sourceMessageId));
                 ("senderRef", head.(dp_senderRef))]
                ++ opt_field "metadata" metadata));
     ai_causality :=
       VObj ([("messageId", VStr id)] ++ def_field "agentHops" (of_onum head.(dp_agentHops)));
     ai_publish := false |}.

(** Opens a turn on a trigger and starts its first model call. *)
Definition promoteTrigger (state : AgentState) (ctx : StepContext) (precedingAppend : list AppendItem)
    (envelopeId : string) (metadata : val) (freshSourceMessageIds : list string) : res StepOutput :=
  let turnId := ids.turnId state.(channelId) envelopeId (selfRefId ctx) in
  let opened := turnOpenedItem turnId metadata in
  let afterOpened :=
    with_openTurn (Some (openedTurn turnId (state.(lastSeq) + 1) metadata)) state in
  let! (item, effect) := modelStartItems afterOpened turnId 0 1 in
  let readAcks :=
    readAckEffects afterOpened effect.(mc_request).!"contextThroughSeq" freshSourceMessageIds
      turnId ctx in
  Ok {| so_append := precedingAppend ++ [opened; item];
        so_effects := EModelCall effect :: readAcks |}.

Definition promotePendingPrompt (state : AgentState) (ctx : StepContext)
    (precedingAppend : list AppendItem) : res StepOutput :=
  match state.(pendingPrompt) with
  | None => Throw TypeError
  | Some prompt =>
      promoteTrigger state ctx precedingAppend prompt.(pp_envelopeId) prompt.(pp_metadata)
        (ostr_list prompt.(pp_sourceMessageId))
  end.

Definition promoteSteersAsTurn (state : AgentState) (ctx : StepContext) : res StepOutput :=
  match state.(steeringQueue) with
  | [] => Throw TypeError
  | head :: _ => promoteTrigger state ctx [] head.(se_envelopeId) head.(se_metadata) []
  end.

(** * Cleanup of an interrupted turn *)

Definition invocationCancelledItem (reason : string) (invocation : PendingInvocation) : AppendItem :=
  let transportCallId :=
    invocation.(pi_transport).!"transportCallId"
    ?? VStr (ids.transportCallId invocation.(pi_invocationId)) in
  {| ai_envelopeId := ids.invocationTerminal invocation.(pi_invocationId);
     ai_payloadKind := "invocation.cancelled";
     ai_payload :=
       VObj [protocol_field; ("reason", VStr reason); ("terminalOutcome", VStr "cancelled");
             ("terminalReasonCode", VStr reason)];
     ai_causality :=
       VObj [("invocationId", VStr invocation.(pi_invocationId));
             ("transportCallId", transportCallId); ("turnId", VStr invocation.(pi_turnId))];
     ai_publish := true |}.

Definition approvalDeniedItem (resolver reason : string) (approval : PendingApproval) : AppendItem :=
  {| ai_envelopeId := ids.approvalResolved approval.(pa_approvalId);
     ai_payloadKind := "approval.resolved";
     ai_payload :=
       VObj [protocol_field; ("granted", VBool false);
             ("resolvedBy", VObj [("kind", VStr "system"); ("id", VStr resolver)]);
             ("reason", VStr reason)];
     ai_causality :=
       VObj [("approvalId", VStr approval.(pa_approvalId));
             ("invocationId", VStr approval.(pa_invocationId)); ("turnId", VStr approval.(pa_turnId))];
     ai_publish := true |}.

Definition waitUnresolvedItem (reason : string) (wait : PendingCredentialWait) : AppendItem :=
  {| ai_envelopeId := ids.systemEvent wait.(pw_credKey) "resolved" (Some wait.(pw_startedAtSeq));
     ai_payloadKind := "system.event";
     ai_payload :=
       VObj [protocol_field; ("kind", VStr "credential.wait_resolved");
             ("credKey", VStr wait.(pw_credKey));
             ("details",
               VObj [("kind", VStr "credential.wait_resolved"); ("credKey", VStr wait.(pw_credKey));
                     ("providerId", VStr wait.(pw_providerId)); ("resolved", VBool false);
                     ("reason", VStr reason)])];
     ai_causality := VObj [("turnId", VStr wait.(pw_turnId))];
     ai_publish := true |}.

Definition interruptCleanupItems (state : AgentState) (reason : string) : list AppendItem :=
  map (invocationCancelledItem reason) (dict_values state.(pendingInvocations))
  ++ map (approvalDeniedItem "agent-loop" reason) (dict_values state.(pendingApprovals))
  ++ map (waitUnresolvedItem reason) (dict_values state.(pendingCredentialWaits))
  ++ match state.(openTurn) with
     | Some turn =>
         [turnClosedItem turn.(ot_turnId)
            (Some (if reason =s? "forked" then "forked" else "user_interrupted")) None]
     | None => []
     end.

(** * Projection of a batch *)

Definition projectedEnvelope (state : AgentState) (seq : Z) (prevHash : string) (now : string)
    (item : AppendItem) : LogEnvelope :=
  {| env_logId := state.(logId);
     env_head := state.(head);
     env_seq := seq;
     env_envelopeId := item.(ai_envelopeId);
     env_actor :=
       VObj [("kind", VStr "agent"); ("id", VStr (default "self" state.(selfId)))];
     env_payloadKind := item.(ai_payloadKind);
     env_payload := item.(ai_payload);
     env_causality := item.(ai_causality);
     env_appendedAt := now;
     env_prevHash := prevHash;
     env_hash := "projected:" ^^ pretty seq |}.

Fixpoint projectFrom (state next : AgentState) (seq : Z) (append : list AppendItem) (now : string)
    : res AgentState :=
  match append with
  | [] => Ok next
  | item :: rest =>
      let seq := seq + 1 in
      let! next := applyEvent next (projectedEnvelope state seq next.(lastHash) now item) in
      projectFrom state next seq rest now
  end.

Definition projectAppend (state : AgentState) (append : list AppendItem) (now : string)
    : res AgentState :=
  projectFrom state state state.(lastSeq) append now.

(** * Tool calls *)

Record ToolCallBlock := mkToolCallBlock {
  tb_id : string;
  tb_name : string;
  tb_arguments : val
}.

(** [isToolCallBlock], with the block it recognises. *)
Definition toolCallBlock (block : val) : option ToolCallBlock :=
  if is_object block && (is_lit block.!"type" "toolCall" || is_lit block.!"type" "tool_call")
  then
    match block.!"id", block.!"name" with
    | VStr id, VStr name => Some (mkToolCallBlock id name block.!"arguments")
    | _, _ => None
    end
  else None.

(** [blocks.filter(isToolCallBlock)]. *)
Definition toolCallBlocks (blocks : list val) : list ToolCallBlock := omap toolCallBlock blocks.

Definition advertises (name : string) (participant : val) : bool :=
  existsb (fun m => is_lit m.!"name" name) (arr_or_nil participant.!"methods").

Definition transportForToolCall (state : AgentState) (name invocationId : string) : val :=
  let local := VObj [("kind", VStr "local"); ("awaiterId", VStr invocationId)] in
  if existsb (fun n => is_lit n name) (arr_or_nil state.(config).!"activeToolNames") then local
  else
    match find (advertises name) (arr_or_nil state.(config).!"roster".!"participants") with
    | Some participant =>
        VObj [("kind", VStr "channel"); ("channelId", VStr state.(channelId));
              ("target", participant.!"ref");
              ("transportCallId", VStr (ids.transportCallId invocationId))]
    | None => local
    end.

Definition invocationStartedItem (state : AgentState) (messageId attemptId turnId : string)
    (block : ToolCallBlock) : AppendItem :=
  {| ai_envelopeId := ids.invocationStart block.(tb_id);
     ai_payloadKind := "invocation.started";
     ai_payload :=
       VObj [protocol_field; ("name", VStr block.(tb_name)); ("invocationType", VStr "tool");
             ("request", block.(tb_arguments));
             ("transport", transportForToolCall state block.(tb_name) block.(tb_id));
             ("userVisible", VBool true)];
     ai_causality :=
       VObj (opt_field "messageId" (VStr messageId)
             ++ [("invocationId", VStr block.(tb_id)); ("modelToolCallId", VStr block.(tb_id));
                 ("attemptId", VStr attemptId); ("turnId", VStr turnId)]);
     ai_publish := true |}.

Fixpoint expandFrom (state projected : AgentState) (toolCalls : list ToolCallBlock)
    (messageId attemptId turnId now : string) : res StepOutput :=
  match toolCalls with
  | [] => Ok EMPTY
  | block :: rest =>
      let item := invocationStartedItem state messageId attemptId turnId block in
      let! projected := projectAppend projected [item] now in
      match dict_get block.(tb_id) projected.(pendingInvocations) with
      | None => Throw TypeError
      | Some invocation =>
          let effect := invocationEffect projected invocation in
          let! out := expandFrom state projected rest messageId attemptId turnId now in
          Ok {| so_append := item :: out.(so_append); so_effects := effect :: out.(so_effects) |}
      end
  end.

Definition expandToolCalls (state : AgentState) (toolCalls : list ToolCallBlock)
    (messageId turnId : string) (ctx : StepContext) : res StepOutput :=
  let attemptId := if messageId =s? "" then "" else ids.attemptId messageId in
  expandFrom state state toolCalls messageId attemptId turnId ctx.(ctx_now).

(** * Guards and the next model call *)

(** The duplicate-dispatch guard: the attempts of the pending invocations,
    as a set, must be empty. *)
Definition wakeGuardSatisfied (state : AgentState) : bool :=
  if isSome state.(inFlightModelCall) then false
  else
    let currentAttempts :=
      fold_left (fun s i => set_add (default "" i.(pi_attemptId)) s)
        (dict_values state.(pendingInvocations)) [] in
    Nat.eqb (length currentAttempts) 0.

Definition hasFreshInput (state : AgentState) : bool :=
  nonempty state.(steeringQueue)
  || match hd_error (rev state.(entries)) with
     | Some entry => is_lit entry.!"kind" "tool-result"
     | None => false
     end.

Definition DEFAULT_MAX_MODEL_CALLS_PER_TURN : option Z := None.

(** Numbers are finite integers here, so flooring is the identity. *)
Definition maxModelCallsPerTurn (state : AgentState) : option Z :=
  match state.(config).!"maxModelCallsPerTurn" with
  | VNum configured => if configured <=? 0 then DEFAULT_MAX_MODEL_CALLS_PER_TURN else Some configured
  | _ => DEFAULT_MAX_MODEL_CALLS_PER_TURN
  end.

Definition budgetDiagnosticItem (turn : OpenTurn) (maxModelCalls : Z) : AppendItem :=
  let id := "diag:" ^^ turn.(ot_turnId) ^^ ":max-model-calls-per-turn" in
  let content :=
    "Configured maxModelCallsPerTurn reached for " ^^ turn.(ot_turnId) ^^ ": "
    ^^ pretty turn.(ot_modelCallCount) ^^ " model call(s) have already run, "
    ^^ "and the configured limit is " ^^ pretty maxModelCalls ^^ "." in
  {| ai_envelopeId := id;
     ai_payloadKind := "message.completed";
     ai_payload :=
       VObj [protocol_field; ("role", VStr "assistant");
             ("blocks",
               VArr [VObj [("type", VStr "diagnostic"); ("content", VStr content);
                           ("metadata",
                             VObj [("code", VStr "max_model_calls_per_turn");
                                   ("severity", VStr "error");
                                   ("configKey", VStr "maxModelCallsPerTurn");
                                   ("limit", VNum maxModelCalls);
                                   ("modelCallCount", VNum turn.(ot_modelCallCount));
                                   ("turnId", VStr turn.(ot_turnId))])]]);
             ("outcome", VStr "completed")];
     ai_causality := VObj [("messageId", VStr id); ("turnId", VStr turn.(ot_turnId))];
     ai_publish := negb (is_lit turn.(ot_metadata).!"delivery" "none") |}.

Definition nextModelCall (state : AgentState) (itemsBefore : Z) (ctx : StepContext)
    (freshSourceMessageIds : list string) : res StepOutput :=
  match state.(openTurn) with
  | None => Throw TypeError
  | Some turn =>
      let start :=
        let! (item, effect) :=
          modelStartItems state turn.(ot_turnId) turn.(ot_modelCallCount) itemsBefore in
        let readAcks :=
          readAckEffects state effect.(mc_request).!"contextThroughSeq" freshSourceMessageIds
            turn.(ot_turnId) ctx in
        Ok {| so_append := [item]; so_effects := EModelCall effect :: readAcks |} in
      match maxModelCallsPerTurn state with
      | Some maxModelCalls =>
          if maxModelCalls <=? turn.(ot_modelCallCount)
          then Ok {| so_append :=
                       [budgetDiagnosticItem turn maxModelCalls;
                        turnClosedItem turn.(ot_turnId) (Some "max_model_calls_per_turn") None];
                     so_effects := [] |}
          else start
      | None => start
      end
  end.

(** * Flush *)

Definition flushSteersItem (state : AgentState) (turn : OpenTurn) : AppendItem :=
  {| ai_envelopeId := ids.systemEvent turn.(ot_turnId) "flush-steers" (Some state.(lastSeq));
     ai_payloadKind := "system.event";
     ai_payload :=
       VObj [protocol_field; ("kind", VStr "flush_steers");
             ("details", VObj [("kind", VStr "flush_steers")])];
     ai_causality := VObj [("turnId", VStr turn.(ot_turnId))];
     ai_publish := true |}.

Definition interruptItem (turn : OpenTurn) (reason : string) : AppendItem :=
  {| ai_envelopeId := ids.systemEvent turn.(ot_turnId) "interrupt" None;
     ai_payloadKind := "system.event";
     ai_payload :=
       VObj [protocol_field; ("kind", VStr "interrupt");
             ("details", VObj [("kind", VStr "interrupt"); ("reason", VStr reason)])];
     ai_causality := VObj [("turnId", VStr turn.(ot_turnId))];
     ai_publish := true |}.

(** Promotes the first deferred message into a turn of its own. *)
Definition promoteDeferredHead (state : AgentState) (head : DeferredPrompt) (ctx : StepContext)
    : res StepOutput :=
  let recv := promotedRecvItem head state.(lastSeq) in
  let! afterRecv := projectAppend state [recv] ctx.(ctx_now) in
  promotePendingPrompt afterRecv ctx [recv].

(** [Ok None] falls through to a plain interrupt. *)
Definition flushStep (state : AgentState) (ctx : StepContext) : res (option StepOutput) :=
  match state.(steeringQueue) with
  | _ :: _ =>
      match state.(openTurn) with
      | None => let! out := promoteSteersAsTurn state ctx in Ok (Some out)
      | Some turn =>
          if isSome state.(inFlightModelCall)
          then Ok (Some {| so_append := [flushSteersItem state turn]; so_effects := [] |})
          else if negb turn.(ot_interrupted) && wakeGuardSatisfied state
          then let! out := nextModelCall state 0 ctx [] in Ok (Some out)
          else Ok (Some {| so_append := interruptCleanupItems state "user_interrupted";
                           so_effects := [] |})
      end
  | [] =>
      match state.(deferredPostTurnQueue) with
      | head :: _ =>
          match state.(openTurn) with
          | Some turn =>
              if isSome state.(inFlightModelCall)
              then Ok (Some {| so_append := [interruptItem turn "user_interrupted"];
                               so_effects := [] |})
              else Ok (Some {| so_append := interruptCleanupItems state "user_interrupted";
                               so_effects := [] |})
          | None => let! out := promoteDeferredHead state head ctx in Ok (Some out)
          end
      | [] => Ok None
      end
  end.

(** * Commands *)

Definition alreadyIngested (state : AgentState) (recvEnvelopeId : string) : bool :=
  match state.(pendingPrompt) with
  | Some p => p.(pp_envelopeId) =s? recvEnvelopeId
  | None => false
  end
  || existsb (fun e => e.(se_envelopeId) =s? recvEnvelopeId) state.(steeringQueue)
  || existsb (fun e => is_lit e.!"kind" "user" && is_lit e.!"envelopeId" recvEnvelopeId)
       state.(entries).

Definition commandRecvId (command : PromptCommand) : string :=
  ids.recvUserMessage command.(pc_channelId) command.(pc_sourceEnvelopeId).

Definition deliverAfterTurn (command : PromptCommand) : bool :=
  truthy command.(pc_metadata).!"deliverAfterTurn".

Definition steerStep (state : AgentState) (command : PromptCommand) (ctx : StepContext)
    : res StepOutput :=
  let recv := recvItem command in
  if alreadyIngested state recv.(ai_envelopeId) then Ok EMPTY
  else if deliverAfterTurn command && isSome state.(openTurn)
  then Ok {| so_append := [recv]; so_effects := [] |}
  else
    let canContinue :=
      match state.(openTurn) with
      | Some turn =>
          negb turn.(ot_interrupted) && negb (isSome state.(inFlightModelCall))
          && negb (nonempty state.(pendingInvocations))
      | None => false
      end in
    if canContinue
    then
      let! next := nextModelCall state 1 ctx (ostr_list command.(pc_sourceMessageId)) in
      Ok {| so_append := recv :: next.(so_append); so_effects := next.(so_effects) |}
    else Ok {| so_append := [recv]; so_effects := [] |}.

Definition promptStep (state : AgentState) (command : PromptCommand) (ctx : StepContext)
    : res StepOutput :=
  if alreadyIngested state (commandRecvId command) then Ok EMPTY
  else if deliverAfterTurn command && isSome state.(openTurn)
  then Ok {| so_append := [recvItem command]; so_effects := [] |}
  else if isSome state.(openTurn) then steerStep state command ctx
  else
    let recv := recvItem command in
    let turnId := ids.turnId command.(pc_channelId) command.(pc_sourceEnvelopeId) (selfRefId ctx) in
    let opened := turnOpenedItem turnId command.(pc_metadata) in
    let afterOpened :=
      with_openTurn (Some (openedTurn turnId (state.(lastSeq) + 2) command.(pc_metadata))) state in
    let! (item, effect) := modelStartItems afterOpened turnId 0 2 in
    let readAcks :=
      readAckEffects afterOpened effect.(mc_request).!"contextThroughSeq"
        (ostr_list command.(pc_sourceMessageId)) turnId ctx in
    Ok {| so_append := [recv; opened; item]; so_effects := EModelCall effect :: readAcks |}.

Definition editItem (state : AgentState) (sourceMessageId : string) (blocks : list val) (by_ : val)
    : AppendItem :=
  {| ai_envelopeId := ids.messageEdited sourceMessageId state.(lastSeq);
     ai_payloadKind := "message.edited";
     ai_payload := VObj [protocol_field; ("by", by_); ("blocks", VArr blocks)];
     ai_causality := VObj [("messageId", VStr sourceMessageId)];
     ai_publish := false |}.

Definition retractItem (state : AgentState) (sourceMessageId : string) (by_ : val) : AppendItem :=
  {| ai_envelopeId := ids.messageRetracted sourceMessageId state.(lastSeq);
     ai_payloadKind := "message.retracted";
     ai_payload := VObj [protocol_field; ("by", by_)];
     ai_causality := VObj [("messageId", VStr sourceMessageId)];
     ai_publish := false |}.

(** A plain interrupt or abort of the open turn. *)
Definition interruptStep (state : AgentState) (reason : string) (ctx : StepContext)
    : res StepOutput :=
  match state.(openTurn) with
  | None => Ok EMPTY
  | Some turn =>
      let marker := interruptItem turn reason in
      if isSome state.(inFlightModelCall)
      then Ok {| so_append := [marker]; so_effects := [] |}
      else
        let! interrupted := projectAppend state [marker] ctx.(ctx_now) in
        Ok {| so_append := marker :: interruptCleanupItems interrupted reason; so_effects := [] |}
  end.

Definition setConfigItem (state : AgentState) (patch : val) : AppendItem :=
  {| ai_envelopeId := ids.configChange (patchHash patch) state.(lastSeq);
     ai_payloadKind := "system.event";
     ai_payload :=
       VObj [protocol_field; ("kind", VStr "config.changed");
             ("details", VObj [("kind", VStr "config.changed"); ("patch", patch)])];
     ai_causality := VUndef;
     ai_publish := true |}.

Definition compactStep (state : AgentState) : StepOutput :=
  match state.(entries) with
  | [] => EMPTY
  | first :: _ =>
      let n := length state.(entries) in
      let keep := skipn (n - 8) state.(entries) in
      let turnId :=
        match state.(openTurn) with Some turn => turn.(ot_turnId) | None => "idle" end in
      let rangeEnd := match keep with e :: _ => e.!"seq" | [] => VUndef end in
      {| so_append :=
           [{| ai_envelopeId := ids.compaction turnId state.(lastSeq);
               ai_payloadKind := "system.compaction_recorded";
               ai_payload :=
                 VObj [protocol_field;
                       ("summary",
                         VStr ("compacted " ^^ pretty (Z.of_nat (n - length keep)) ^^ " entries"));
                       ("rangeStart", VStr (to_str (first.!"seq" ?? VNum 0)));
                       ("rangeEnd", VStr (to_str (rangeEnd ?? VNum 0)));
                       ("replacement", VArr keep)];
               ai_causality := VUndef;
               ai_publish := false |}];
         so_effects := [] |}
  end.

(** The [message.failed] that settles a model call nobody is running. *)
Definition orphanItem (call : InFlightModelCall) : AppendItem :=
  {| ai_envelopeId := ids.messageTerminal call.(im_messageId);
     ai_payloadKind := "message.failed";
     ai_payload :=
       VObj [protocol_field; ("reason", VStr "interrupted by restart"); ("recoverable", VBool true)];
     ai_causality := VObj [("messageId", VStr call.(im_messageId))];
     ai_publish := true |}.

Definition lastAssistantEntry (entries : list val) : option val :=
  find (fun e => is_lit e.!"kind" "assistant") (rev entries).

(** The tool calls of the last assistant entry that are neither pending nor settled. *)
Definition unprocessedToolCalls (state : AgentState) (lastAssistant : val) : list ToolCallBlock :=
  let settled :=
    map (fun e => e.!"invocationId")
      (List.filter (fun e => is_lit e.!"kind" "tool-result") state.(entries)) in
  List.filter
    (fun b => negb (dict_has b.(tb_id) state.(pendingInvocations))
              && negb (existsb (fun i => is_lit i b.(tb_id)) settled))
    (toolCallBlocks (arr_or_nil lastAssistant.!"blocks")).

Definition prepend (items : list AppendItem) (out : StepOutput) : StepOutput :=
  {| so_append := items ++ out.(so_append); so_effects := out.(so_effects) |}.

(** Steps 2 to 4 of the wake, after the orphan cleanup [append]. *)
Definition wakeContinue (afterOrphan : AgentState) (append : list AppendItem) (ctx : StepContext)
    : res StepOutput :=
  match afterOrphan.(openTurn) with
  | Some turn =>
      if negb turn.(ot_interrupted) && wakeGuardSatisfied afterOrphan
         && (hasFreshInput afterOrphan || (turn.(ot_modelCallCount) =? 0) || nonempty append)
      then
        let! next := nextModelCall afterOrphan (Z.of_nat (length append)) ctx [] in
        Ok (prepend append next)
      else Ok {| so_append := append; so_effects := [] |}
  | None =>
      if isSome afterOrphan.(pendingPrompt)
      then promotePendingPrompt afterOrphan ctx append
      else Ok {| so_append := append; so_effects := [] |}
  end.

Definition wakeStep (state : AgentState) (ctx : StepContext) : res StepOutput :=
  let append :=
    match state.(inFlightModelCall) with Some call => [orphanItem call] | None => [] end in
  let! afterOrphan := projectAppend state append ctx.(ctx_now) in
  match afterOrphan.(openTurn) with
  | Some turn =>
      if turn.(ot_interrupted) && negb (isSome afterOrphan.(inFlightModelCall))
      then Ok {| so_append := append ++ interruptCleanupItems afterOrphan "user_interrupted";
                 so_effects := [] |}
      else
        let unprocessed :=
          if negb turn.(ot_interrupted) && negb (isSome afterOrphan.(inFlightModelCall))
          then
            match lastAssistantEntry afterOrphan.(entries) with
            | Some lastAssistant =>
                (default "" (as_str lastAssistant.!"messageId"), unprocessedToolCalls afterOrphan lastAssistant)
            | None => ("", [])
            end
          else ("", []) in
        match unprocessed with
        | (messageId, (_ :: _) as blocks) =>
            let! expansion := expandToolCalls afterOrphan blocks messageId turn.(ot_turnId) ctx in
            Ok (prepend append expansion)
        | (_, []) => wakeContinue afterOrphan append ctx
        end
  | None => wakeContinue afterOrphan append ctx
  end.

Definition resumeMarkerItem (state : AgentState) (turn : OpenTurn) (messageId resetAt : string)
    : AppendItem :=
  {| ai_envelopeId := ids.systemEvent messageId "model-limit-resume-due" (Some state.(lastSeq));
     ai_payloadKind := "system.event";
     ai_payload :=
       VObj [protocol_field; ("kind", VStr "model.limit_resume_due"); ("messageId", VStr messageId);
             ("resetAt", VStr resetAt);
             ("details",
               VObj [("kind", VStr "model.limit_resume_due"); ("messageId", VStr messageId);
                     ("resetAt", VStr resetAt)])];
     ai_causality := VObj [("turnId", VStr turn.(ot_turnId)); ("messageId", VStr messageId)];
     ai_publish := true |}.

(** Whether a reset instant is more than a second after now. *)
Definition resetIsLater (resetAt now : string) : bool :=
  match Date_parse resetAt, Date_parse now with
  | Some resetAtMs, Some nowMs => nowMs + 1000 <? resetAtMs
  | _, _ => false
  end.

Definition resumeAfterResetStep (state : AgentState) (messageId resetAt : string)
    (ctx : StepContext) : res StepOutput :=
  match state.(openTurn) with
  | None => Ok EMPTY
  | Some turn =>
      if turn.(ot_interrupted) || isSome state.(inFlightModelCall) then Ok EMPTY
      else if negb (startsWith messageId ("m:" ^^ turn.(ot_turnId) ^^ ":")) then Ok EMPTY
      else if resetIsLater resetAt ctx.(ctx_now) then Ok EMPTY
      else if negb (wakeGuardSatisfied state) then Ok EMPTY
      else
        let! next := nextModelCall state 1 ctx [] in
        Ok (prepend [resumeMarkerItem state turn messageId resetAt] next)
  end.

Definition commandStep (state : AgentState) (command : Command) (ctx : StepContext)
    : res StepOutput :=
  match command with
  | CPrompt c => promptStep state c ctx
  | CSteer c => steerStep state c ctx
  | CEdit id blocks by_ =>
      Ok {| so_append := [editItem state id blocks by_]; so_effects := [] |}
  | CRetract id by_ => Ok {| so_append := [retractItem state id by_]; so_effects := [] |}
  | CInterrupt flushDeferred =>
      if flushDeferred
      then
        let! flushed := flushStep state ctx in
        match flushed with
        | Some out => Ok out
        | None => interruptStep state "user_interrupted" ctx
        end
      else interruptStep state "user_interrupted" ctx
  | CAbort reason => interruptStep state (default "work_failed" reason) ctx
  | CSetConfig patch => Ok {| so_append := [setConfigItem state patch]; so_effects := [] |}
  | CCompact => Ok (compactStep state)
  | CWake => wakeStep state ctx
  | CResumeAfterReset messageId resetAt => resumeAfterResetStep state messageId resetAt ctx
  end.

(** * Appended events *)

(** [String(payload[k] ?? d)]. *)
Definition str_or (d : string) (v : val) : string := to_str (v ?? VStr d).

Definition assistantCompletedStep (state : AgentState) (payload causality : val) (ctx : StepContext)
    : res StepOutput :=
  match state.(openTurn) with
  | None => Ok EMPTY
  | Some turn =>
      let outcome := str_or "completed" payload.!"outcome" in
      if (outcome =s? "interrupted") || turn.(ot_interrupted)
      then
        if turn.(ot_pendingFlush) && negb turn.(ot_interrupted)
           && nonempty state.(steeringQueue) && wakeGuardSatisfied state
        then nextModelCall state 0 ctx []
        else Ok {| so_append := interruptCleanupItems state "user_interrupted"; so_effects := [] |}
      else
        match toolCallBlocks (arr_or_nil payload.!"blocks") with
        | (_ :: _) as toolCalls =>
            expandToolCalls state toolCalls (causality_id "messageId" causality) turn.(ot_turnId) ctx
        | [] =>
            if nonempty state.(steeringQueue) then nextModelCall state 0 ctx []
            else Ok {| so_append := [turnClosedItem turn.(ot_turnId) None None]; so_effects := [] |}
        end
  end.

Definition turnClosedStep (state : AgentState) (ctx : StepContext) : res StepOutput :=
  if isSome state.(openTurn) then Ok EMPTY
  else
    match state.(steeringQueue), state.(deferredPostTurnQueue) with
    | _ :: _, _ => promoteSteersAsTurn state ctx
    | [], [] => Ok EMPTY
    | [], head :: _ => promoteDeferredHead state head ctx
    end.

Definition messageFailedStep (state : AgentState) (payload : val) (ctx : StepContext)
    : res StepOutput :=
  match state.(openTurn) with
  | None => Ok EMPTY
  | Some turn =>
      if turn.(ot_interrupted) then Ok EMPTY
      else if match payload.!"resetAt" with VStr s => trim s <>s? "" | _ => false end
      then Ok {| so_append :=
                   [turnWaitingItem turn.(ot_turnId) turn.(ot_waitingCount) "model_usage_limit_reset"
                      (Some "Waiting for model usage limit reset")];
                 so_effects := [] |}
      else if negb (is_true payload.!"recoverable")
      then Ok {| so_append := [turnClosedItem turn.(ot_turnId) (Some "work_failed") None];
                 so_effects := [] |}
      else if negb (wakeGuardSatisfied state) then Ok EMPTY
      else nextModelCall state 0 ctx []
  end.

Definition invocationTerminalStep (state : AgentState) (ctx : StepContext) : res StepOutput :=
  match state.(openTurn) with
  | None => Ok EMPTY
  | Some turn =>
      if turn.(ot_interrupted) || isSome state.(inFlightModelCall)
         || nonempty state.(pendingInvocations) || nonempty state.(pendingApprovals)
         || nonempty state.(pendingCredentialWaits)
      then Ok EMPTY
      else nextModelCall state 0 ctx []
  end.

Definition approvalDeniedFailureItem (invocationId : string) (invocation : PendingInvocation)
    : AppendItem :=
  {| ai_envelopeId := ids.invocationTerminal invocationId;
     ai_payloadKind := "invocation.failed";
     ai_payload :=
       VObj [protocol_field; ("reason", VStr "approval denied");
             ("terminalOutcome", VStr "tool_error"); ("terminalReasonCode", VStr "approval_denied")];
     ai_causality :=
       VObj [("invocationId", VStr invocationId); ("turnId", VStr invocation.(pi_turnId))];
     ai_publish := true |}.

Definition approvalResolvedStep (state : AgentState) (payload causality : val) : StepOutput :=
  let invocationId := causality_id "invocationId" causality in
  match dict_get invocationId state.(pendingInvocations) with
  | None => EMPTY
  | Some invocation =>
      if is_true payload.!"granted"
      then {| so_append := []; so_effects := [invocationEffect state invocation] |}
      else {| so_append := [approvalDeniedFailureItem invocationId invocation]; so_effects := [] |}
  end.

Definition systemEventStep (state : AgentState) (payload : val) (ctx : StepContext)
    : res StepOutput :=
  let details := payload.!"details" ?? VObj [] in
  if is_lit details.!"kind" "interrupt" && isSome state.(openTurn)
     && negb (isSome state.(inFlightModelCall))
  then Ok {| so_append :=
               interruptCleanupItems state (str_or "user_interrupted" details.!"reason");
             so_effects := [] |}
  else if (is_lit details.!"kind" "credential.wait_resolved" && is_true details.!"resolved")
          || is_lit details.!"kind" "credential.resolved"
  then
    match state.(openTurn) with
    | Some turn =>
        if negb turn.(ot_interrupted) && wakeGuardSatisfied state
           && negb (nonempty state.(pendingInvocations))
        then nextModelCall state 0 ctx []
        else Ok EMPTY
    | None => Ok EMPTY
    end
  else Ok EMPTY.

(** [state] already includes the envelope. *)
Definition eventStep (state : AgentState) (envelope : LogEnvelope) (ctx : StepContext)
    : res StepOutput :=
  let kind := envelope.(env_payloadKind) in
  let payload :=
    if is_object envelope.(env_payload) then envelope.(env_payload) else VObj [] in
  let causality := env_causalityRecord envelope in
  if (kind =s? "message.completed") && is_lit payload.!"role" "assistant"
  then assistantCompletedStep state payload causality ctx
  else if kind =s? "turn.closed" then turnClosedStep state ctx
  else if kind =s? "message.failed" then messageFailedStep state payload ctx
  else if (kind =s? "invocation.completed") || (kind =s? "invocation.failed")
          || (kind =s? "invocation.cancelled") || (kind =s? "invocation.abandoned")
  then invocationTerminalStep state ctx
  else if kind =s? "approval.resolved" then Ok (approvalResolvedStep state payload causality)
  else if kind =s? "system.event" then systemEventStep state payload ctx
  else Ok EMPTY.

(** * Failed effects *)

(** A published diagnostic message of a failed turn. *)
Definition diagnosticItem (id turnId content code : string) : AppendItem :=
  {| ai_envelopeId := id;
     ai_payloadKind := "message.completed";
     ai_payload :=
       VObj [protocol_field; ("role", VStr "assistant");
             ("blocks",
               VArr [VObj [("type", VStr "diagnostic"); ("content", VStr content);
                           ("metadata",
                             VObj [("code", VStr code); ("severity", VStr "error")])]]);
             ("outcome", VStr "completed")];
     ai_causality := VObj [("messageId", VStr id); ("turnId", VStr turnId)];
     ai_publish := true |}.

Definition waitExpiredItem (wait : PendingCredentialWait) : AppendItem :=
  {| ai_envelopeId := ids.systemEvent wait.(pw_credKey) "expired" (Some wait.(pw_startedAtSeq));
     ai_payloadKind := "system.event";
     ai_payload :=
       VObj [protocol_field; ("kind", VStr "credential.wait_expired");
             ("credKey", VStr wait.(pw_credKey));
             ("details",
               VObj [("kind", VStr "credential.wait_expired"); ("credKey", VStr wait.(pw_credKey));
                     ("providerId", VStr wait.(pw_providerId))])];
     ai_causality := VObj [("turnId", VStr wait.(pw_turnId))];
     ai_publish := true |}.

Definition dispatchFailedItem (invocationId message : string) (invocation : PendingInvocation)
    : AppendItem :=
  {| ai_envelopeId := ids.invocationTerminal invocationId;
     ai_payloadKind := "invocation.failed";
     ai_payload :=
       VObj [protocol_field; ("reason", VStr message);
             ("terminalOutcome", VStr "infrastructure_error");
             ("terminalReasonCode", VStr "dispatch_failed")];
     ai_causality :=
       VObj [("invocationId", VStr invocationId); ("turnId", VStr invocation.(pi_turnId))];
     ai_publish := true |}.

Section Step.
Context `{ModelFailureClassifier}.

Definition modelCallFailedStep (state : AgentState) (effectId message : string)
    (ctx : StepContext) : StepOutput :=
  let failure :=
    classifyModelFailure
      {| mfi_provider :=
           match state.(inFlightModelCall) with
           | Some call => call.(im_request).!"provider" | None => VUndef end;
         mfi_model :=
           match state.(inFlightModelCall) with
           | Some call => call.(im_request).!"model" | None => VUndef end;
         mfi_message := Some message;
         mfi_rawReason := Some message;
         mfi_now := ctx.(ctx_now) |} in
  let failed :=
    match state.(inFlightModelCall) with
    | Some call =>
        if call.(im_messageId) =s? "" then []
        else [{| ai_envelopeId := ids.messageTerminal call.(im_messageId);
                 ai_payloadKind := "message.failed";
                 ai_payload := modelFailurePayload failure (Some false);
                 ai_causality := VObj [("messageId", VStr call.(im_messageId))];
                 ai_publish := true |}]
    | None => []
    end in
  let closing :=
    match state.(openTurn), truthy_ostr failure.(mf_resetAt) with
    | Some turn, None =>
        [diagnosticItem ("diag:" ^^ turn.(ot_turnId) ^^ ":" ^^ effectId) turn.(ot_turnId)
           ("Turn failed: " ^^ failure.(mf_reason)) "work_failed";
         turnClosedItem turn.(ot_turnId) (Some "work_failed") None]
    | _, _ => []
    end in
  {| so_append := failed ++ closing; so_effects := [] |}.

Definition closeFailed (state : AgentState) : list AppendItem :=
  match state.(openTurn) with
  | Some turn => [turnClosedItem turn.(ot_turnId) (Some "work_failed") None]
  | None => []
  end.

Definition waitFailedStep (state : AgentState) (effectId : string) : StepOutput :=
  let wait :=
    find (fun w => ids.credentialWaitEffect w.(pw_credKey) =s? effectId)
      (dict_values state.(pendingCredentialWaits)) in
  {| so_append :=
       match wait with Some w => [waitExpiredItem w] | None => [] end ++ closeFailed state;
     so_effects := [] |}.

Definition approvalFailedStep (state : AgentState) (approvalId message : string) : StepOutput :=
  match dict_get approvalId state.(pendingApprovals) with
  | None => EMPTY
  | Some approval =>
      let reason := if message =s? "" then "delivery-failed" else message in
      {| so_append :=
           [{| ai_envelopeId := ids.approvalResolved approvalId;
               ai_payloadKind := "approval.resolved";
               ai_payload :=
                 VObj [protocol_field; ("granted", VBool false);
                       ("resolvedBy",
                         VObj [("kind", VStr "system"); ("id", VStr "delivery-failed")]);
                       ("reason", VStr reason)];
               ai_causality :=
                 VObj [("approvalId", VStr approvalId);
                       ("invocationId", VStr approval.(pa_invocationId));
                       ("turnId", VStr approval.(pa_turnId))];
               ai_publish := true |}];
         so_effects := [] |}
  end.

Definition unmappedFailedStep (state : AgentState) (effectId : string) : StepOutput :=
  {| so_append :=
       match state.(openTurn) with
       | Some turn =>
           let id := "diag:" ^^ turn.(ot_turnId) ^^ ":unknown-effect:" ^^ effectId in
           [diagnosticItem id turn.(ot_turnId)
              ("Turn failed: unmapped effect failure " ^^ effectId) "unmapped_effect_failure";
            turnClosedItem turn.(ot_turnId) (Some "work_failed") None]
       | None => []
       end;
     so_effects := [] |}.

Definition invocationFailedStep (state : AgentState) (invocationId message : string) : StepOutput :=
  match dict_get invocationId state.(pendingInvocations) with
  | None => EMPTY
  | Some invocation =>
      {| so_append := [dispatchFailedItem invocationId message invocation]; so_effects := [] |}
  end.

Definition effectFailedStep (state : AgentState) (effectId : string) (kind : EffectKind)
    (error : SerializedError) (ctx : StepContext) : StepOutput :=
  match kind with
  | KModelCall => modelCallFailedStep state effectId error.(err_message) ctx
  | KCredentialWait => waitFailedStep state effectId
  | KPublishEnvelope => EMPTY
  | KLocalTool | KChannelCall | KHttpCall =>
      if startsWith effectId "form:"
      then approvalFailedStep state (str_slice 5 effectId) error.(err_message)
      else if negb (startsWith effectId "inv:") then unmappedFailedStep state effectId
      else invocationFailedStep state (str_slice 4 effectId) error.(err_message)
  end.

Definition coreStep (state : AgentState) (incoming : Incoming) (ctx : StepContext)
    : res StepOutput :=
  match incoming with
  | ICommand command => commandStep state command ctx
  | IEventAppended envelope => eventStep state envelope ctx
  | IEffectFailed effectId kind error _ => Ok (effectFailedStep state effectId kind error ctx)
  end.
End Step.
