(* ===== verification/AgentCache.v ===== *)
(** The fold cache of the agent vessel (agentic-do/src/fold-cache.ts): a row per
    log head with the folded state, validated against the gad store's head hash,
    extended by the tail of the log or thrown away for a cold refold. *)
From stdpp Require Import gmap.
From S2P Require Import Prelude Dict JsValue JsText AgentIds AgentState AgentFold.
#[local] Open Scope Z_scope.

(** What [getLogHead] answers. *)
Record LogHead := mkLogHead {
  lh_seq : Z;
  lh_hash : string;
  lh_forkSeq : option Z;
  lh_forkHash : option string
}.

(** The calls the cache makes on the gad store. *)
Class GadPort := {
  getLogHead : string -> string -> option LogHead;
  readLog : string -> string -> Z -> nat -> list LogEnvelope
}.

(** The rows of [fold_cache] by log and head; [None] is a blob [JSON.parse]
    rejects. A state survives [JSON.stringify] and [JSON.parse] unchanged. *)
Definition CacheTable := gmap (string * string) (option AgentState).

Definition cache_write (cache : CacheTable) (state : AgentState) : CacheTable :=
  <[(state.(logId), state.(head)) := Some state]> cache.

Definition cache_read (cache : CacheTable) (logId head : string) : option AgentState :=
  match cache !! (logId, head) with Some row => row | None => None end.

Definition cache_delete (cache : CacheTable) (logId head : string) : CacheTable :=
  delete (logId, head) cache.

Definition PAGE : nat := 500.

Record LoadInput := mkLoadInput {
  li_logId : string;
  li_head : string;
  li_channelId : string;
  li_config : val;
  li_selfId : option string
}.

(** A string that is set and not empty. *)
Definition truthy (s : option string) : option string :=
  match s with Some s => if s =s? "" then None else Some s | None => None end.

Definition emptyState (input : LoadInput) (remote : option LogHead) : AgentState :=
  let forkSeq := default 0 (remote ≫= lh_forkSeq) in
  initialAgentState
    {| is_channelId := input.(li_channelId);
       is_logId := Some input.(li_logId);
       is_head := Some input.(li_head);
       is_config := input.(li_config);
       is_forkSeq := Some forkSeq;
       is_lastSeq := Some forkSeq;
       is_lastHash := truthy (remote ≫= lh_forkHash);
       is_selfId := truthy input.(li_selfId) |}.

Definition with_forkSeq (x : Z) (st : AgentState) : AgentState :=
  mkAgentState st.(logId) st.(head) st.(channelId) st.(lastSeq) st.(lastHash) x st.(selfId) st.(config)
    st.(entries) st.(openTurn) st.(inFlightModelCall) st.(pendingInvocations)
    st.(pendingApprovals) st.(pendingCredentialWaits) st.(steeringQueue) st.(pendingPrompt)
    st.(deferredPostTurnQueue).

Definition with_selfId (x : option string) (st : AgentState) : AgentState :=
  mkAgentState st.(logId) st.(head) st.(channelId) st.(lastSeq) st.(lastHash) st.(forkSeq) x st.(config)
    st.(entries) st.(openTurn) st.(inFlightModelCall) st.(pendingInvocations)
    st.(pendingApprovals) st.(pendingCredentialWaits) st.(steeringQueue) st.(pendingPrompt)
    st.(deferredPostTurnQueue).

(** [{ ...cached, forkSeq, selfId?, config: overlayInputConfig(...) }]. *)
Definition overlayCached (input : LoadInput) (forkSeq : Z) (cached : AgentState) : AgentState :=
  let state := with_forkSeq forkSeq cached in
  let state := match truthy input.(li_selfId) with Some s => with_selfId (Some s) state | None => state end in
  with_config (overlayInputConfig cached.(config) input.(li_config)) state.

Section Cache.
Context `{GadPort}.

(** The pages of the log behind [afterSeq]. [None]: out of fuel. *)
Fixpoint readAll (fuel : nat) (logId head : string) (cursor : Z) : option (list LogEnvelope) :=
  match fuel with
  | O => None
  | S fuel' =>
      let page := readLog logId head cursor PAGE in
      match rev page with
      | [] => Some []
      | e :: _ =>
          if (length page <? PAGE)%nat then Some page
          else (fun rest => page ++ rest) <$> readAll fuel' logId head e.(env_seq)
      end
  end.

Definition coldRefold (fuel : nat) (initial : AgentState) (logId head : string) (forkSeq : Z)
    : option (res AgentState) :=
  let state := with_lastSeq 0 initial in
  envelopes ← readAll fuel logId head 0;
  let state := match envelopes with e :: _ => with_lastHash e.(env_prevHash) state | [] => state end in
  Some (let! state := foldEvents state envelopes in
        let state := match envelopes with [] => with_lastSeq forkSeq state | _ => state end in
        Ok (with_forkSeq forkSeq state)).

(** [this.write(state); return state]. *)
Definition store (cache : CacheTable) (r : res AgentState) : res (AgentState * CacheTable) :=
  let! state := r in Ok (state, cache_write cache state).

(** A row that is not the head: fold the tail when it continues the row. *)
Definition extendCached (fuel : nat) (cache : CacheTable) (input : LoadInput) (remote : LogHead)
    (cached : AgentState) : option (res (AgentState * CacheTable)) :=
  let forkSeq := default 0 remote.(lh_forkSeq) in
  let refold :=
    store cache <$> coldRefold fuel (emptyState input (Some remote)) input.(li_logId) input.(li_head) forkSeq in
  if cached.(lastSeq) <? remote.(lh_seq)
  then
    tail ← readAll fuel input.(li_logId) input.(li_head) cached.(lastSeq);
    if match tail with e :: _ => e.(env_prevHash) <>s? cached.(lastHash) | [] => false end
    then refold
    else Some (store cache (foldEvents (overlayCached input forkSeq cached) tail))
  else refold.

(** Validate or refold: the state, and the cache with its row. *)
Definition loadState (fuel : nat) (cache : CacheTable) (input : LoadInput)
    : option (res (AgentState * CacheTable)) :=
  let logId := input.(li_logId) in
  let head := input.(li_head) in
  match getLogHead logId head with
  | None => Some (Ok (emptyState input None, cache))
  | Some remote =>
      let forkSeq := default 0 remote.(lh_forkSeq) in
      match cache_read cache logId head with
      | None => store cache <$> coldRefold fuel (emptyState input (Some remote)) logId head forkSeq
      | Some cached =>
          if (cached.(lastSeq) =? remote.(lh_seq)) && (cached.(lastHash) =s? remote.(lh_hash))
          then Some (Ok (overlayCached input forkSeq cached, cache))
          else extendCached fuel cache input remote cached
      end
  end.
End Cache.
