(* ===== verification/AgentOutbox.v ===== *)
(** The effect outbox of the agent vessel (agentic-do/src/effect-outbox.ts) and
    the parts of its driver that schedule and reconcile it
    (agentic-do/src/agent-loop-driver.ts). A row exists exactly while its effect is
    unresolved. *)
From S2P Require Import Prelude Dict JsValue JsText AgentIds AgentState AgentEffects.
#[local] Open Scope Z_scope.

Record OutboxRow := mkOutboxRow {
  or_effectId : string;
  or_branchId : string;
  or_channelId : string;
  or_kind : EffectKind;
  or_idempotencyKey : val;
  or_descriptor : EffectDescriptor;
  or_attempts : Z;
  or_nextAttemptAt : option Z;
  or_leaseExpiresAt : option Z;
  or_createdAt : Z
}.

(** The table, in the order of insertion; (branch, effect) is its primary key. *)
Definition Outbox := list OutboxRow.

(** The attempts an effect gets; [None] is unbounded. *)
Definition maxAttempts (kind : EffectKind) (mutating : bool) : option Z :=
  match kind with
  | KModelCall => Some 3
  | KLocalTool => Some (if mutating then 1 else 3)
  | KChannelCall | KHttpCall => Some 5
  | KCredentialWait => None
  | KPublishEnvelope => Some 1
  end.

Definition leaseMs (kind : EffectKind) : Z :=
  match kind with
  | KModelCall => 10 * 60 * 1000
  | KLocalTool => 2 * 60 * 1000
  | KChannelCall | KHttpCall => 60 * 1000
  | KCredentialWait => 60 * 1000
  | KPublishEnvelope => 30 * 1000
  end.

Definition backoffMs (attempts : Z) : Z := Z.min 30000 (500 * 2 ^ attempts).

(** [WHERE branch_id = ? AND effect_id = ?]. *)
Definition at_key (branchId effectId : string) (row : OutboxRow) : bool :=
  (row.(or_branchId) =s? branchId) && (row.(or_effectId) =s? effectId).

Definition outbox_get (ob : Outbox) (branchId effectId : string) : option OutboxRow :=
  find (at_key branchId effectId) ob.

(** [INSERT OR IGNORE]. *)
Definition outbox_insert (ob : Outbox) (branchId : string) (descriptor : EffectDescriptor)
    (nextAttemptAt : option Z) (now : Z) : Outbox :=
  match outbox_get ob branchId (effectId descriptor) with
  | Some _ => ob
  | None =>
      ob ++ [{| or_effectId := effectId descriptor;
                or_branchId := branchId;
                or_channelId := (effect_base descriptor).(eb_channelId);
                or_kind := effect_kind descriptor;
                or_idempotencyKey := (effect_base descriptor).(eb_idempotencyKey);
                or_descriptor := descriptor;
                or_attempts := 0;
                or_nextAttemptAt := nextAttemptAt;
                or_leaseExpiresAt := None;
                or_createdAt := now |}]
  end.

Definition outbox_delete (ob : Outbox) (branchId effectId : string) : Outbox :=
  List.filter (fun row => negb (at_key branchId effectId row)) ob.

(** [UPDATE ... WHERE branch_id = ? AND effect_id = ?]. *)
Definition update_row (f : OutboxRow -> OutboxRow) (ob : Outbox) (branchId effectId : string) : Outbox :=
  map (fun row => if at_key branchId effectId row then f row else row) ob.

Definition set_schedule (attempts : Z) (next lease : option Z) (row : OutboxRow) : OutboxRow :=
  mkOutboxRow row.(or_effectId) row.(or_branchId) row.(or_channelId) row.(or_kind)
    row.(or_idempotencyKey) row.(or_descriptor) attempts next lease row.(or_createdAt).

Definition getForChannel (ob : Outbox) (channelId effectId : string) : res (option OutboxRow) :=
  match List.filter (fun r => (r.(or_channelId) =s? channelId) && (r.(or_effectId) =s? effectId)) ob with
  | [] => Ok None
  | [row] => Ok (Some row)
  | _ => Throw ("ambiguous outbox effect " ^^ effectId ^^ " for channel " ^^ channelId)
  end.

Definition getUnique (ob : Outbox) (effectId : string) : res (option OutboxRow) :=
  match List.filter (fun r => r.(or_effectId) =s? effectId) ob with
  | [] => Ok None
  | [row] => Ok (Some row)
  | _ => Throw ("ambiguous outbox effect " ^^ effectId ^^ "; provide branch or channel")
  end.

Definition forBranch (ob : Outbox) (branchId : string) : list OutboxRow :=
  List.filter (fun r => (r.(or_branchId) =s? branchId)
                        && negb (bool_decide (r.(or_kind) = KPublishEnvelope))) ob.

(** [x IS NULL OR x <= now]. *)
Definition past (x : option Z) (now : Z) : bool := match x with Some t => t <=? now | None => true end.

Definition is_due (now : Z) (row : OutboxRow) : bool :=
  past row.(or_nextAttemptAt) now && past row.(or_leaseExpiresAt) now.

Definition due (ob : Outbox) (now : Z) : list OutboxRow := List.filter (is_due now) ob.

Definition lease (ob : Outbox) (branchId effectId : string) (now : Z) : Outbox :=
  update_row (fun row => set_schedule row.(or_attempts) None (Some (now + leaseMs row.(or_kind))) row)
    ob branchId effectId.

Definition releaseLease (ob : Outbox) (branchId effectId : string) : Outbox :=
  update_row (fun row => set_schedule row.(or_attempts) row.(or_nextAttemptAt) None row) ob branchId effectId.

Definition recordFailure (ob : Outbox) (branchId effectId : string) (now : Z) (delayMs : option Z)
    : Outbox * option OutboxRow :=
  match outbox_get ob branchId effectId with
  | None => (ob, None)
  | Some row =>
      let attempts := row.(or_attempts) + 1 in
      let delay :=
        match delayMs with
        | Some d => if 0 <=? d then d else backoffMs attempts
        | None => backoffMs attempts
        end in
      let ob := update_row (fun r => set_schedule attempts (Some (now + delay)) None r) ob branchId effectId in
      (ob, outbox_get ob branchId effectId)
  end.

(** The instant a row can wake the pump: its lease's end, else its next attempt. *)
Definition wake_of (row : OutboxRow) : Z :=
  match row.(or_leaseExpiresAt) with Some t => t | None => default 0 row.(or_nextAttemptAt) end.

(** [SELECT MIN(...)]. *)
Definition earliestDueAt (ob : Outbox) : option Z :=
  match ob with
  | [] => None
  | row :: rest => Some (fold_left (fun m r => Z.min m (wake_of r)) rest (wake_of row))
  end.

(** * The driver's part *)

(** The wake the alarm is armed for, with the earliest scheduled model resume. *)
Definition nextWakeAt (ob : Outbox) (resumeDue : option Z) : option Z :=
  match earliestDueAt ob, resumeDue with
  | Some a, Some b => Some (Z.min a b)
  | Some a, None => Some a
  | None, r => r
  end.

(** The instant the alarm is armed for, if any. *)
Definition scheduleEarliest (ob : Outbox) (resumeDue : option Z) (now : Z) : option Z :=
  (fun t => Z.max t (now + 50)) <$> nextWakeAt ob resumeDue.

(** [requestPump]: a running pump goes round again; an idle one is woken by
    the alarm (and, where the host has one, a background pump). *)
Inductive PumpRequest := Repump | PumpAt (t : Z).

Definition requestPump (pumping : bool) (now : Z) : PumpRequest :=
  if pumping then Repump else PumpAt (now + 1).

(** The table and the alarm. *)
Definition deferRedrive (ob : Outbox) (row : OutboxRow) (delayMs : Z) (resumeDue : option Z) (now : Z)
    : Outbox * option Z :=
  let ob :=
    update_row (fun r =>
        set_schedule r.(or_attempts)
          (match r.(or_nextAttemptAt) with
           | Some t => if t <=? now then Some t else Some (now + delayMs)
           | None => Some (now + delayMs)
           end) None r)
      ob row.(or_branchId) row.(or_effectId) in
  (ob, scheduleEarliest ob resumeDue now).

Definition nudgeRedrive (ob : Outbox) (row : OutboxRow) (pumping : bool) (now : Z) : Outbox * PumpRequest :=
  (update_row (fun r => set_schedule r.(or_attempts) (Some now) None r) ob row.(or_branchId) row.(or_effectId),
   requestPump pumping now).

(** What [retryEffect] decides: another attempt with the alarm armed, or giving up
    on the row ([failEffect]). *)
Inductive RetryDecision := RetryLater (alarm : option Z) | GiveUp (row : OutboxRow).

Definition retryEffect (ob : Outbox) (row : OutboxRow) (retryAfterMs resumeDue : option Z) (now : Z)
    : Outbox * RetryDecision :=
  let '(ob, updated) := recordFailure ob row.(or_branchId) row.(or_effectId) now retryAfterMs in
  let later := (ob, RetryLater (scheduleEarliest ob resumeDue now)) in
  match updated with
  | Some updated =>
      match maxAttempts updated.(or_kind) false with
      | Some max => if max <=? updated.(or_attempts) then (ob, GiveUp updated) else later
      | None => later
      end
  | None => later
  end.

(** Every effect dispatches immediately. *)
Definition initialDeadline (_effect : EffectDescriptor) : option Z := None.

(** Rows without a derivable effect go, effects without a row get one. *)
Definition reconcile_rows (ob : Outbox) (branchId : string) (state : AgentState) (now : Z) : Outbox :=
  let expected := derivePendingEffects state in
  let rows := forBranch ob branchId in
  let expects id := existsb (fun e => effectId e =s? id) expected in
  let present id := existsb (fun r => r.(or_effectId) =s? id) rows in
  let ob :=
    fold_left (fun ob row =>
        if expects row.(or_effectId) then ob else outbox_delete ob row.(or_branchId) row.(or_effectId))
      rows ob in
  fold_left (fun ob effect =>
      if present (effectId effect) then ob else outbox_insert ob branchId effect (initialDeadline effect) now)
    expected ob.

(** The reconciled table, and the alarm armed for it. *)
Definition reconcile (ob : Outbox) (branchId : string) (state : AgentState) (resumeDue : option Z) (now : Z)
    : Outbox * option Z :=
  let ob := reconcile_rows ob branchId state now in
  (ob, scheduleEarliest ob resumeDue now).
