(* ===== verification/AgentPolicies.v ===== *)
(** Step policies (workspace/packages/agent-loop/src/policies/index.ts): pure
    interceptors over the output of the core step, and their composition. *)
From S2P Require Import Prelude Dict JsValue JsText AgentIds AgentState AgentFold AgentEffects.
From S2P Require Import AgentEffects AgentStep.
#[local] Open Scope Z_scope.

(** The event an executor signals without journaling it. *)
Record EphemeralSignal := mkEphemeralSignal {
  es_channelId : string;
  es_event : val
}.

Record StepPolicy := mkStepPolicy {
  sp_name : string;
  sp_intercept : AgentState -> Incoming -> StepContext -> StepOutput -> StepOutput;
  sp_transformAppend : option (AgentState -> list AppendItem -> list AppendItem);
  sp_filterEphemeral : option (AgentState -> EphemeralSignal -> option EphemeralSignal)
}.

Definition composeStep `{ModelFailureClassifier} (policies : list StepPolicy)
    (state : AgentState) (incoming : Incoming) (ctx : StepContext) : res StepOutput :=
  let! output := coreStep state incoming ctx in
  Ok (fold_left (fun out policy => policy.(sp_intercept) state incoming ctx out) policies output).

Definition DEFAULT_SAFE_TOOL_NAMES : list string :=
  ["read"; "grep"; "find"; "ls"; "ask_user"; "set_title"; "close_turn_without_response"].

(** * Reading and rewriting invocation.started items *)

Definition is_started (item : AppendItem) : bool := item.(ai_payloadKind) =s? "invocation.started".

(** [String(item.causality?.invocationId ?? "")]. *)
Definition item_invocationId (item : AppendItem) : string :=
  to_str (item.(ai_causality).!"invocationId" ?? VStr "").

(** [{ ...item, payload: { ...payload, ...overrides } }]. *)
Definition item_with_payload (overrides : list (string * val)) (item : AppendItem) : AppendItem :=
  mkAppendItem item.(ai_envelopeId) item.(ai_payloadKind)
    (VObj (dict_merge (fields item.(ai_payload)) overrides))
    item.(ai_causality) item.(ai_publish).

Definition channel_transport (state : AgentState) (target : val) (invocationId : string) : val :=
  VObj [("kind", VStr "channel"); ("channelId", VStr state.(channelId)); ("target", target);
        ("transportCallId", VStr (ids.transportCallId invocationId))].

(** * channel-tools *)

Definition rosterParticipants (state : AgentState) : list val :=
  arr_or_nil state.(config).!"roster".!"participants".

(** The first participant that advertises each method. *)
Definition methodOwners (roster : list val) : dict val :=
  fold_left
    (fun owners participant =>
       fold_left
         (fun owners m =>
            let name := to_str m.!"name" in
            if dict_has name owners then owners else dict_set name participant.!"ref" owners)
         (arr_or_nil participant.!"methods") owners) roster [].

(** The participant a started item is rerouted to. *)
Definition channelOwner (owners : dict val) (item : AppendItem) : option val :=
  if negb (is_started item) then None
  else
    let payload := item.(ai_payload) in
    match dict_get (to_str (payload.!"name" ?? VStr "")) owners with
    | Some owner =>
        if truthy owner && is_lit payload.!"transport".!"kind" "local" then Some owner else None
    | None => None
    end.

Definition channelRewrite (state : AgentState) (owners : dict val) (item : AppendItem) : AppendItem :=
  match channelOwner owners item with
  | Some owner =>
      item_with_payload
        [("invocationType", VStr "panel");
         ("transport", channel_transport state owner (item_invocationId item))] item
  | None => item
  end.

Definition channelEffectRewrite (append : list AppendItem) (effect : EffectDescriptor)
    : EffectDescriptor :=
  match effect with
  | ELocalTool e =>
      match find (fun item =>
                    is_started item
                    && (to_str item.(ai_causality).!"invocationId" =s? e.(lt_invocationId))
                    && is_lit item.(ai_payload).!"transport".!"kind" "channel") append with
      | Some rewritten =>
          let payload := rewritten.(ai_payload) in
          let transport := payload.!"transport" in
          EChannelCall
            {| cc_base :=
                 {| eb_effectId := e.(lt_base).(eb_effectId);
                    eb_channelId := e.(lt_base).(eb_channelId);
                    eb_idempotencyKey := transport.!"transportCallId" |};
               cc_invocationId := e.(lt_invocationId);
               cc_turnId := e.(lt_turnId);
               cc_transportCallId := transport.!"transportCallId";
               cc_target := transport.!"target";
               cc_method := to_str payload.!"name";
               cc_args := payload.!"request";
               cc_purpose := None;
               cc_approvalId := None |}
      | None => effect
      end
  | _ => effect
  end.

Definition channelToolsPolicy : StepPolicy :=
  {| sp_name := "channel-tools";
     sp_intercept := fun state _ _ output =>
       let roster := rosterParticipants state in
       if negb (nonempty roster) then output
       else
         let owners := methodOwners roster in
         if negb (existsb (fun item => isSome (channelOwner owners item)) output.(so_append))
         then output
         else
           let append := map (channelRewrite state owners) output.(so_append) in
           {| so_append := append;
              so_effects := map (channelEffectRewrite append) output.(so_effects) |};
     sp_transformAppend := None;
     sp_filterEphemeral := None |}.

(** * approval-gate *)

Definition needsApproval (level : val) (item : AppendItem) : bool :=
  is_started item
  && negb (strict_eqb level (VNum 1)
           && existsb (String.eqb (to_str (item.(ai_payload).!"name" ?? VStr "")))
                DEFAULT_SAFE_TOOL_NAMES).

Definition approvalRequestItem (ctx : StepContext) (item : AppendItem) : AppendItem :=
  let payload := item.(ai_payload) in
  let name := to_str (payload.!"name" ?? VStr "") in
  let invocationId := item_invocationId item in
  let approvalId := ids.approvalId invocationId in
  {| ai_envelopeId := ids.approvalRequested approvalId;
     ai_payloadKind := "approval.requested";
     ai_payload :=
       VObj [protocol_field; ("question", VStr "Allow tool call?");
             ("requestedBy", ctx.(ctx_selfRef));
             ("details", VObj [("toolName", VStr name); ("input", payload.!"request")])];
     ai_causality :=
       VObj [("approvalId", VStr approvalId); ("invocationId", VStr invocationId);
             ("modelToolCallId", VStr invocationId); ("turnId", item.(ai_causality).!"turnId")];
     ai_publish := true |}.

Definition gateItem (level : val) (ctx : StepContext) (item : AppendItem) : list AppendItem :=
  if needsApproval level item
  then [item_with_payload [("requiresApproval", VBool true)] item; approvalRequestItem ctx item]
  else [item].

(** The invocation an effect dispatches. *)
Definition effect_invocationId (effect : EffectDescriptor) : option string :=
  match effect with
  | ELocalTool e => Some e.(lt_invocationId)
  | EChannelCall e => Some e.(cc_invocationId)
  | EHttpCall e => Some e.(hc_invocationId)
  | _ => None
  end.

Definition approvalGatePolicy : StepPolicy :=
  {| sp_name := "approval-gate";
     sp_intercept := fun state _ ctx output =>
       let level := state.(config).!"approvalLevel" in
       if strict_eqb level (VNum 2) then output
       else
         let gatedIds :=
           map item_invocationId (List.filter (needsApproval level) output.(so_append)) in
         if negb (nonempty gatedIds) then output
         else
           {| so_append := flat_map (gateItem level ctx) output.(so_append);
              so_effects :=
                List.filter
                  (fun effect =>
                     match effect_invocationId effect with
                     | Some id => negb (existsb (String.eqb id) gatedIds)
                     | None => true
                     end) output.(so_effects) |};
     sp_transformAppend := None;
     sp_filterEphemeral := None |}.

(** * ask-user *)

Definition feedbackFormArgsFromAskUser (raw : val) : val :=
  let input := if is_object raw then raw else VObj [] in
  let question :=
    match input.!"question" with
    | VStr q => if trim q =s? "" then "Question" else q
    | _ => "Question"
    end in
  let options := List.filter isStr (arr_or_nil input.!"options") in
  let freeform := input.!"allowFreeform" in
  let multiSelect := is_true input.!"multiSelect" in
  if nonempty options
  then
    VObj [("title", VStr question);
          ("fields",
            VArr [VObj ([("key", VStr "answer");
                         ("type", VStr (if multiSelect then "multiSelect" else "select"));
                         ("label", VStr question); ("required", VBool true);
                         ("options",
                           VArr (map (fun o => VObj [("value", o); ("label", o)]) options))]
                        ++ (if is_false freeform then [("allowFreeText", VBool false)] else [])
                        ++ (if multiSelect then []
                            else [("submitOnSelect", VBool (negb (is_true freeform)))]))]);
          ("hideSubmit", VBool (if multiSelect then false else negb (is_true freeform)))]
  else
    VObj [("title", VStr question);
          ("fields",
            VArr [VObj [("key", VStr "answer"); ("type", VStr "string"); ("label", VStr question);
                        ("required", VBool true)]])].

Definition is_ask_user (item : AppendItem) : bool :=
  is_started item && is_lit item.(ai_payload).!"name" "ask_user".

Definition askUserRewrite (state : AgentState) (target : val) (item : AppendItem) : AppendItem :=
  if is_ask_user item
  then
    item_with_payload
      [("name", VStr "feedback_form"); ("invocationType", VStr "user");
       ("request", feedbackFormArgsFromAskUser item.(ai_payload).!"request");
       ("transport", channel_transport state target (item_invocationId item))] item
  else item.

Definition askUserEffect (target : val) (rewrittenIds : list string) (effect : EffectDescriptor)
    : EffectDescriptor :=
  match effect with
  | ELocalTool e =>
      if negb (existsb (String.eqb e.(lt_invocationId)) rewrittenIds) then effect
      else
        let transportCallId := VStr (ids.transportCallId e.(lt_invocationId)) in
        EChannelCall
          {| cc_base :=
               {| eb_effectId := e.(lt_base).(eb_effectId);
                  eb_channelId := e.(lt_base).(eb_channelId);
                  eb_idempotencyKey := transportCallId |};
             cc_invocationId := e.(lt_invocationId);
             cc_turnId := e.(lt_turnId);
             cc_transportCallId := transportCallId;
             cc_target := target;
             cc_method := "feedback_form";
             cc_args := feedbackFormArgsFromAskUser e.(lt_args);
             cc_purpose := Some "ask-user";
             cc_approvalId := None |}
  | _ => effect
  end.

Definition askUserPolicy : StepPolicy :=
  {| sp_name := "ask-user";
     sp_intercept := fun state _ _ output =>
       match promptingUser state.(config) with
       | None => output
       | Some user =>
           let rewrittenIds := map item_invocationId (List.filter is_ask_user output.(so_append)) in
           if negb (nonempty rewrittenIds) then output
           else
             {| so_append := map (askUserRewrite state user.!"ref") output.(so_append);
                so_effects := map (askUserEffect user.!"ref" rewrittenIds) output.(so_effects) |}
       end;
     sp_transformAppend := None;
     sp_filterEphemeral := None |}.

(** * fork *)

Definition abandonedItem (invocation : PendingInvocation) : AppendItem :=
  {| ai_envelopeId := ids.invocationTerminal invocation.(pi_invocationId);
     ai_payloadKind := "invocation.abandoned";
     ai_payload :=
       VObj [protocol_field; ("reason", VStr "forked"); ("terminalOutcome", VStr "abandoned");
             ("terminalReasonCode", VStr "forked")];
     ai_causality :=
       VObj [("invocationId", VStr invocation.(pi_invocationId));
             ("turnId", VStr invocation.(pi_turnId))];
     ai_publish := true |}.

Definition preCut {T} (startedAtSeq : T -> Z) (forkSeq : Z) (record : dict T) : list T :=
  List.filter (fun item => startedAtSeq item <=? forkSeq) (dict_values record).

Definition forkItems (state : AgentState) : list AppendItem :=
  map abandonedItem (preCut pi_startedAtSeq state.(forkSeq) state.(pendingInvocations))
  ++ map (approvalDeniedItem "fork" "forked")
       (preCut pa_startedAtSeq state.(forkSeq) state.(pendingApprovals))
  ++ map (waitUnresolvedItem "forked")
       (preCut pw_startedAtSeq state.(forkSeq) state.(pendingCredentialWaits)).

Definition is_wake (incoming : Incoming) : bool :=
  match incoming with ICommand CWake => true | _ => false end.

Definition forkPolicy : StepPolicy :=
  {| sp_name := "fork";
     sp_intercept := fun state incoming _ output =>
       if negb (is_wake incoming) then output
       else if state.(forkSeq) <=? 0 then output
       else
         let append := output.(so_append) ++ forkItems state in
         match state.(openTurn) with
         | Some turn =>
             if turn.(ot_openedAtSeq) <=? state.(forkSeq)
             then
               {| so_append := append ++ [turnClosedItem turn.(ot_turnId) (Some "forked") None];
                  so_effects :=
                    List.filter (fun e => negb (bool_decide (effect_kind e = KModelCall)))
                      output.(so_effects) |}
             else {| so_append := append; so_effects := output.(so_effects) |}
         | None => {| so_append := append; so_effects := output.(so_effects) |}
         end;
     sp_transformAppend := None;
     sp_filterEphemeral := None |}.

(** * silent *)

Definition silentFilter (items : list AppendItem) : list AppendItem :=
  map (fun item =>
         if (item.(ai_payloadKind) =s? "turn.opened") || (item.(ai_payloadKind) =s? "turn.closed")
         then item
         else mkAppendItem item.(ai_envelopeId) item.(ai_payloadKind) item.(ai_payload)
                item.(ai_causality) false) items.

Definition silentPolicy : StepPolicy :=
  {| sp_name := "silent";
     sp_intercept := fun _ _ _ output =>
       {| so_append := silentFilter output.(so_append); so_effects := output.(so_effects) |};
     sp_transformAppend := Some (fun _ items => silentFilter items);
     sp_filterEphemeral := Some (fun _ _ => None) |}.

Definition defaultPolicies : list StepPolicy :=
  [channelToolsPolicy; approvalGatePolicy; askUserPolicy; forkPolicy].
