(* ===== verification/AgentScenario.v ===== *)
(** The scenario harness (workspace/packages/agent-loop/src/scenario.ts): the
    loop step, append, fold, register effects, and the depth-first cascade of
    appended events, the way the driver runs them. *)
From S2P Require Import Prelude Dict JsValue JsText AgentIds AgentState AgentFold AgentEffects.
From S2P Require Import AgentEffects AgentStep AgentPolicies.
#[local] Open Scope Z_scope.

Record ScenarioEnvelopeRecord := mkRow {
  row_seq : Z;
  row_envelopeId : string;
  row_payloadKind : string;
  row_payload : val;
  row_causality : val;
  row_publish : bool
}.

Record Scenario := mkScenario {
  sc_state : AgentState;
  sc_log : list ScenarioEnvelopeRecord;
  sc_effects : dict EffectDescriptor;
  sc_outputs : list StepOutput;
  sc_ctx : StepContext;
  sc_policies : list StepPolicy
}.

Definition createScenario (state : AgentState) (policies : list StepPolicy) (now : option string)
    : Scenario :=
  {| sc_state := state;
     sc_log := [];
     sc_effects := [];
     sc_outputs := [];
     sc_ctx :=
       {| ctx_now := default "2026-05-20T12:00:00.000Z" now;
          ctx_random := fun _ => "r1";
          ctx_selfRef :=
            VObj [("kind", VStr "agent"); ("id", VStr "agent:self");
                  ("participantId", VStr "agent:self")] |};
     sc_policies := policies |}.

Definition scenarioEnvelope (scenario : Scenario) (item : AppendItem) : LogEnvelope :=
  let seq := scenario.(sc_state).(lastSeq) + 1 in
  {| env_logId := scenario.(sc_state).(logId);
     env_head := scenario.(sc_state).(head);
     env_seq := seq;
     env_envelopeId := item.(ai_envelopeId);
     env_actor := scenario.(sc_ctx).(ctx_selfRef);
     env_payloadKind := item.(ai_payloadKind);
     env_payload := item.(ai_payload);
     env_causality := item.(ai_causality);
     env_appendedAt := scenario.(sc_ctx).(ctx_now);
     env_prevHash := scenario.(sc_state).(lastHash);
     env_hash := "h:" ^^ scenario.(sc_state).(logId) ^^ ":" ^^ pretty seq |}.

Definition logged (scenario : Scenario) (envelopeId : string) : bool :=
  existsb (fun row => row.(row_envelopeId) =s? envelopeId) scenario.(sc_log).

(** One item of [applyAppend]: an envelope id already in the log is a no-op. *)
Definition appendOne (acc : Scenario * list LogEnvelope) (item : AppendItem)
    : res (Scenario * list LogEnvelope) :=
  let (scenario, envelopes) := acc in
  if logged scenario item.(ai_envelopeId) then Ok (scenario, envelopes)
  else
    let envelope := scenarioEnvelope scenario item in
    let row :=
      {| row_seq := envelope.(env_seq);
         row_envelopeId := item.(ai_envelopeId);
         row_payloadKind := item.(ai_payloadKind);
         row_payload := item.(ai_payload);
         row_causality := item.(ai_causality);
         row_publish := item.(ai_publish) |} in
    let! state := applyEvent scenario.(sc_state) envelope in
    Ok (mkScenario state (scenario.(sc_log) ++ [row]) scenario.(sc_effects) scenario.(sc_outputs)
          scenario.(sc_ctx) scenario.(sc_policies),
        envelopes ++ [envelope]).

Definition applyAppend (scenario : Scenario) (append : list AppendItem)
    : res (Scenario * list LogEnvelope) :=
  res_foldl appendOne (scenario, []) append.

Definition set_effects (effects : dict EffectDescriptor) (s : Scenario) : Scenario :=
  mkScenario s.(sc_state) s.(sc_log) effects s.(sc_outputs) s.(sc_ctx) s.(sc_policies).

Definition set_outputs (outputs : list StepOutput) (s : Scenario) : Scenario :=
  mkScenario s.(sc_state) s.(sc_log) s.(sc_effects) outputs s.(sc_ctx) s.(sc_policies).

(** An emitted effect the folded state does not derive. *)
Definition underivable (derived : list EffectDescriptor) (effect : EffectDescriptor) : bool :=
  negb (bool_decide (effect_kind effect = KPublishEnvelope))
  && negb (existsb (fun d => effectId d =s? effectId effect) derived).

Definition registerEffects (scenario : Scenario) (emitted : list EffectDescriptor) : res Scenario :=
  let derived := derivePendingEffects scenario.(sc_state) in
  match find (underivable derived) emitted with
  | Some effect =>
      Throw ("step emitted effect " ^^ effectId effect
             ^^ " that is not derivable from the folded state "
             ^^ "(violates the P2 reconstructibility invariant)")
  | None =>
      Ok (set_effects (fold_left (fun m e => dict_set (effectId e) e m) derived []) scenario)
  end.

Section Dispatch.
Context `{ModelFailureClassifier}.

(** [None]: the cascade is deeper than [fuel]. *)
Fixpoint dispatch (fuel : nat) (scenario : Scenario) (incoming : Incoming)
    : option (res Scenario) :=
  match fuel with
  | O => None
  | S fuel' =>
      match composeStep scenario.(sc_policies) scenario.(sc_state) incoming scenario.(sc_ctx) with
      | Throw e => Some (Throw e)
      | Ok output =>
          let scenario := set_outputs (scenario.(sc_outputs) ++ [output]) scenario in
          match applyAppend scenario output.(so_append) with
          | Throw e => Some (Throw e)
          | Ok (scenario, envelopes) =>
              match registerEffects scenario output.(so_effects) with
              | Throw e => Some (Throw e)
              | Ok scenario =>
                  fold_left
                    (fun acc envelope =>
                       match acc with
                       | Some (Ok s) => dispatch fuel' s (IEventAppended envelope)
                       | other => other
                       end) envelopes (Some (Ok scenario))
              end
          end
      end
  end.

Definition cascade (fuel : nat) (scenario : Scenario) (envelopes : list LogEnvelope)
    : option (res Scenario) :=
  fold_left
    (fun acc envelope =>
       match acc with
       | Some (Ok s) => dispatch fuel s (IEventAppended envelope)
       | other => other
       end) envelopes (Some (Ok scenario)).

Definition resolveEffect (fuel : nat) (scenario : Scenario) (effectId : string)
    (outcome : EffectOutcome) : option (res Scenario) :=
  match dict_get effectId scenario.(sc_effects) with
  | None => Some (Throw ("no pending effect " ^^ effectId))
  | Some descriptor =>
      match outcomeEvents descriptor outcome scenario.(sc_ctx).(ctx_now) with
      | Throw e => Some (Throw e)
      | Ok items =>
          let items :=
            fold_left
              (fun items policy =>
                 match policy.(sp_transformAppend) with
                 | Some transform => transform scenario.(sc_state) items
                 | None => items
                 end) scenario.(sc_policies) items in
          let scenario := set_effects (dict_del effectId scenario.(sc_effects)) scenario in
          match applyAppend scenario items with
          | Throw e => Some (Throw e)
          | Ok (scenario, envelopes) =>
              match registerEffects scenario [] with
              | Throw e => Some (Throw e)
              | Ok scenario => cascade fuel scenario envelopes
              end
          end
      end
  end.
End Dispatch.
