(* ===== verification/AgentSamples.v ===== *)
(** Concrete states, events and inputs the witnesses evaluate on. *)
From S2P Require Import Prelude Dict JsValue JsText AgentIds AgentState AgentFold AgentEffects.
From S2P Require Import AgentEffects AgentStep.
#[local] Open Scope Z_scope.

Definition sample_config : val :=
  VObj [("model", VStr "openai:gpt"); ("thinkingLevel", VStr "low"); ("approvalLevel", VNum 0);
        ("respondPolicy", VStr "all"); ("systemPromptHash", VStr "h");
        ("activeToolNames", VArr [VStr "bash"; VStr "ask_user"]);
        ("roster",
          VObj [("participants",
                  VArr [VObj [("participantId", VStr "panel:1");
                              ("ref", VObj [("kind", VStr "user"); ("id", VStr "u1")]);
                              ("type", VStr "panel");
                              ("methods", VArr [VObj [("name", VStr "eval")]])]])])].

Definition sample_user : val := VObj [("kind", VStr "user"); ("id", VStr "u1")].
Definition sample_other_user : val := VObj [("kind", VStr "user"); ("id", VStr "u2")].
Definition sample_self : val := VObj [("kind", VStr "agent"); ("id", VStr "a1")].
Definition sample_other_agent : val := VObj [("kind", VStr "agent"); ("id", VStr "a2")].

Definition sample_ctx : StepContext :=
  {| ctx_now := "2026-05-20T12:00:00.000Z"; ctx_random := fun _ => "r1"; ctx_selfRef := sample_self |}.

Definition sample_initial : AgentState :=
  initialAgentState (mkInitialStateInput "c" None None sample_config None None None (Some "a1")).

(** An event of the sample log. *)
Definition sample_event (seq : Z) (actor : val) (kind : string) (causality payload : list (string * val))
    : LogEnvelope :=
  {| env_logId := "branch:channel:c"; env_head := "branch:channel:c"; env_seq := seq;
     env_envelopeId := "e" ^^ pretty seq; env_actor := actor; env_payloadKind := kind;
     env_payload := VObj payload; env_causality := VObj causality;
     env_appendedAt := "2026-05-20T12:00:00.000Z"; env_prevHash := "h" ^^ pretty (seq - 1);
     env_hash := "h" ^^ pretty seq |}.

Definition sample_prompt : PromptCommand :=
  {| pc_channelId := "c"; pc_sourceEnvelopeId := "e1"; pc_sourceMessageId := Some "m1";
     pc_content := VStr "hello"; pc_senderRef := sample_user; pc_agentHops := None;
     pc_metadata := VUndef |}.

Definition sample_steer : PromptCommand :=
  {| pc_channelId := "c"; pc_sourceEnvelopeId := "e2"; pc_sourceMessageId := Some "m2";
     pc_content := VStr "also"; pc_senderRef := sample_user; pc_agentHops := None;
     pc_metadata := VUndef |}.

Definition sample_deferred : PromptCommand :=
  {| pc_channelId := "c"; pc_sourceEnvelopeId := "e3"; pc_sourceMessageId := Some "m3";
     pc_content := VStr "later"; pc_senderRef := sample_user; pc_agentHops := None;
     pc_metadata := VObj [("deliverAfterTurn", VBool true)] |}.

(** The value of a computation that succeeds. *)
Definition get_ok {A} (d : A) (m : res A) : A := match m with Ok a => a | Throw _ => d end.

(** The state after running a command and folding what it appends. *)
Definition run (st : AgentState) (c : Command) : AgentState :=
  match commandStep st c sample_ctx with
  | Ok out => get_ok st (projectAppend st out.(so_append) sample_ctx.(ctx_now))
  | Throw _ => st
  end.

Definition play (st : AgentState) (events : list LogEnvelope) : AgentState :=
  get_ok st (foldEvents st events).

(** A turn whose first model call is running. *)
Definition sample_running : AgentState := run sample_initial (CPrompt sample_prompt).

(** ... with a steer queued behind it. *)
Definition sample_steered : AgentState := run sample_running (CSteer sample_steer).

(** ... and a message to deliver after the turn. *)
Definition sample_queued : AgentState := run sample_steered (CPrompt sample_deferred).

Definition sample_tool_block (id name : string) : val :=
  VObj [("type", VStr "toolCall"); ("id", VStr id); ("name", VStr name);
        ("arguments", VObj [("cmd", VStr "ls")])].

(** A turn waiting on a granted tool call, a gated one with its approval form,
    and a credential. *)
Definition sample_waiting : AgentState :=
  play sample_running
    [ sample_event 4 sample_self "message.completed" [("messageId", VStr "m:t:c:e1:a1:0")]
        [("role", VStr "assistant");
         ("blocks", VArr [sample_tool_block "i1" "bash"; sample_tool_block "i2" "bash"])];
      sample_event 5 sample_self "invocation.started"
        [("invocationId", VStr "i1"); ("turnId", VStr "t:c:e1:a1")]
        [("name", VStr "bash"); ("request", VNull);
         ("transport", VObj [("kind", VStr "local"); ("awaiterId", VStr "i1")])];
      sample_event 6 sample_self "invocation.started"
        [("invocationId", VStr "i2"); ("turnId", VStr "t:c:e1:a1")]
        [("name", VStr "bash"); ("request", VNull); ("requiresApproval", VBool true);
         ("transport", VObj [("kind", VStr "local"); ("awaiterId", VStr "i2")])];
      sample_event 7 sample_self "approval.requested"
        [("approvalId", VStr "approval:i2"); ("invocationId", VStr "i2")]
        [("question", VStr "Allow tool call?")];
      sample_event 8 sample_self "system.event" [("turnId", VStr "t:c:e1:a1")]
        [("details",
           VObj [("kind", VStr "credential.wait_started"); ("credKey", VStr "cred:c:p");
                 ("providerId", VStr "p")])] ].

Example sample_running_turn :
  (ot_turnId <$> sample_running.(openTurn), im_messageId <$> sample_running.(inFlightModelCall))
  = (Some "t:c:e1:a1", Some "m:t:c:e1:a1:0").
Proof. reflexivity. Qed.

Example sample_queued_queues :
  (map se_sourceMessageId sample_queued.(steeringQueue),
   map dp_sourceMessageId sample_queued.(deferredPostTurnQueue)) = ([Some "m2"], ["m3"]).
Proof. reflexivity. Qed.

Example sample_waiting_effects :
  map effectId (derivePendingEffects sample_waiting)
  = ["inv:i1"; "form:approval:i2"; "credwait:cred:c:p"].
Proof. reflexivity. Qed.

Lemma sample_initial_wf : wf_state sample_initial.
Proof. apply initialAgentState_wf. Qed.

(** A classifier that finds every failure worth a retry. *)
#[export] Instance sample_classifier : ModelFailureClassifier := {|
  classifyModelFailure input :=
    {| mf_code := unknown_retryable;
       mf_reason := default "model error" input.(mfi_rawReason);
       mf_recoverable := true;
       mf_retryAfterMs := None;
       mf_resetAt := None |}
|}.

(** A log forked at position 4, with a turn, a tool call, an approval and a
    credential wait inherited from before the cut. *)
Definition sample_forked : AgentState :=
  play (initialAgentState
          (mkInitialStateInput "c" None None sample_config (Some 4) (Some 0) None (Some "a1")))
    [ sample_event 1 sample_self "turn.opened" [("turnId", VStr "t:c:e1:a1")] [];
      sample_event 2 sample_self "invocation.started"
        [("invocationId", VStr "i1"); ("turnId", VStr "t:c:e1:a1")]
        [("name", VStr "bash"); ("requiresApproval", VBool true);
         ("transport", VObj [("kind", VStr "local"); ("awaiterId", VStr "i1")])];
      sample_event 3 sample_self "approval.requested"
        [("approvalId", VStr "approval:i1"); ("invocationId", VStr "i1")] [];
      sample_event 4 sample_self "system.event" [("turnId", VStr "t:c:e1:a1")]
        [("details",
           VObj [("kind", VStr "credential.wait_started"); ("credKey", VStr "cred:c:p");
                 ("providerId", VStr "p")])] ].
