(* ===== verification/AgentFoldLaws.v ===== *)
(** Laws of the fold: what every event may change, when folding throws, and the
    invariants of the folded state. *)
From S2P Require Import Prelude Dict JsValue JsText AgentIds AgentState AgentFold.
#[local] Open Scope Z_scope.

(** * Automation *)

(** Unfold the case functions of the reducer. *)
Ltac unfold_cases :=
  unfold fold_turn_opened, fold_turn_closed, fold_turn_waiting, fold_message_started,
    fold_message_completed, fold_assistant_completed, fold_user_completed, fold_message_edited,
    fold_message_retracted, fold_message_failed, fold_invocation_started,
    fold_invocation_terminal, fold_approval_requested, fold_approval_resolved,
    fold_compaction_recorded, fold_system_event, fold_wait_started, fold_wait_settled in *.

(** Split [H : applyEvent st env = _] along the event kinds. *)
Ltac event_cases H :=
  unfold applyEvent in H; cbv zeta in H;
  repeat match type of H with
    | context [if ?c then _ else _] =>
        match c with
        | context [String.eqb (env_payloadKind _) _] => destruct c eqn:?
        end
    end;
  res_inv; try discriminate H.

(** Turn a positive comparison of the event kind into a known kind. *)
Ltac kind_known :=
  repeat match goal with
    | E : _ || _ = true |- _ => apply orb_true_iff in E as [E|E]
    | E : (env_payloadKind _ =s? _) = true |- _ => apply String.eqb_eq in E
    end;
  try match goal with
    | E : env_payloadKind _ = _ |- _ => rewrite ?E in *
    end;
  cbn [String.eqb Ascii.eqb Bool.eqb orb andb] in *.

(** * Every event advances the position and keeps the identity *)

Definition same_identity (a b : AgentState) : Prop :=
  a.(logId) = b.(logId) /\ a.(head) = b.(head) /\ a.(channelId) = b.(channelId)
  /\ a.(forkSeq) = b.(forkSeq) /\ a.(selfId) = b.(selfId).

Lemma applyEvent_frame st env st' :
  applyEvent st env = Ok st' ->
  st'.(lastSeq) = env.(env_seq) /\ st'.(lastHash) = env.(env_hash) /\ same_identity st st'.
Proof.
  intros H. unfold same_identity. event_cases H; subst; unfold_cases;
    repeat (case_match; simplify_eq/=); auto 10.
Qed.

(** * Foreign authors *)

(** The part of the state that says what this agent is doing. *)
Definition loop_part (st : AgentState) :=
  (st.(openTurn), st.(inFlightModelCall), st.(pendingInvocations), st.(pendingApprovals),
   st.(pendingCredentialWaits)).

Lemma isForeignAuthor_advance st env :
  isForeignAuthor (withAdvance st env) env = isForeignAuthor st env.
Proof. done. Qed.

Lemma foreign_loop_part st env st' :
  isForeignAuthor st env = true -> env.(env_payloadKind) <> "system.event" ->
  applyEvent st env = Ok st' -> loop_part st' = loop_part st.
Proof.
  intros Hf Hk H. rewrite <- isForeignAuthor_advance in Hf.
  event_cases H; rewrite ?Hf in *; unfold loop_part; unfold_cases; rewrite ?orb_true_r in *;
    simplify_eq/=; try done;
    try match goal with E : (_ =s? "system.event") = true |- _ => by apply String.eqb_eq in E end;
    repeat (case_match; simplify_eq/=; try done);
    rewrite ?orb_true_r in *; congruence.
Qed.

Lemma system_event_turn_id st env payload causality turnId :
  ot_turnId <$> (fold_system_event st env payload causality turnId).(openTurn)
  = ot_turnId <$> st.(openTurn).
Proof.
  unfold_cases. repeat (case_match; simplify_eq/=; try done); by destruct (openTurn st).
Qed.

(** * Well-formedness *)

(** [wf_state] reads only the three dictionaries. *)
Lemma wf_state_dicts st st' :
  wf_state st ->
  st'.(pendingInvocations) = st.(pendingInvocations) ->
  st'.(pendingApprovals) = st.(pendingApprovals) ->
  st'.(pendingCredentialWaits) = st.(pendingCredentialWaits) -> wf_state st'.
Proof. intros [] E1 E2 E3. constructor; rewrite ?E1, ?E2, ?E3; done. Qed.

Lemma set_approval_wf invocations id s a invocation :
  dict_wf invocations -> dict_all (fun k i => i.(pi_invocationId) = k) invocations ->
  dict_get "" invocations = None -> dict_get id invocations = Some invocation ->
  let d := dict_set id (set_approval s a invocation) invocations in
  dict_wf d /\ dict_all (fun k i => i.(pi_invocationId) = k) d /\ dict_get "" d = None.
Proof.
  intros Hwf Hids Hne Hget. split; [auto with natstack|]. split.
  - apply dict_all_set; [|done]. simpl. by apply (dict_all_get _ _ _ _ Hids Hget).
  - rewrite dict_get_set_ne; [done | congruence].
Qed.

Lemma dict_get_del_None {V} k k' (d : dict V) : dict_get k d = None -> dict_get k (dict_del k' d) = None.
Proof.
  intros H. destruct (String.eqb_spec k k') as [->|Hne].
  - apply dict_get_del_eq.
  - by rewrite dict_get_del_ne.
Qed.

#[local] Hint Resolve dict_get_del_None : natstack.

Ltac wf_solve :=
  match goal with
  | Hwf : wf_state ?st |- wf_state _ =>
      first [ exact Hwf
            | apply (wf_state_dicts st); [exact Hwf | reflexivity | reflexivity | reflexivity]
            | destruct Hwf; constructor; simpl; eauto with natstack ]
  end.

Lemma fold_approval_requested_wf st env payload causality turnId f :
  wf_state st -> wf_state (fold_approval_requested st env payload causality turnId f).
Proof.
  intros Hwf. unfold fold_approval_requested. case_match; [done|].
  destruct (dict_get _ (pendingInvocations st)) eqn:E; destruct Hwf;
    constructor; simpl; eauto with natstack.
  all: eapply set_approval_wf; eauto.
Qed.

Lemma fold_approval_resolved_wf st payload causality f :
  wf_state st -> wf_state (fold_approval_resolved st payload causality f).
Proof.
  intros Hwf. unfold fold_approval_resolved. case_match; [done|].
  destruct (dict_get _ (pendingApprovals st)); [|done].
  destruct (dict_get _ (pendingInvocations st)) eqn:E; [|wf_solve].
  case_match; [|wf_solve]. destruct Hwf; constructor; simpl; eauto with natstack.
  all: eapply set_approval_wf; eauto.
Qed.

Lemma applyEvent_wf st env st' : wf_state st -> applyEvent st env = Ok st' -> wf_state st'.
Proof.
  intros Hwf H. assert (wf_state (withAdvance st env)) as Hwf' by wf_solve.
  clear Hwf. rename Hwf' into Hwf. event_cases H; subst; try exact Hwf;
    eauto using fold_approval_requested_wf, fold_approval_resolved_wf.
  all: unfold_cases; repeat (case_match; simplify_eq/=; try exact Hwf); try wf_solve.
  rewrite dict_get_set_ne; [done|]. intros E. rewrite E, orb_true_r in *. done.
Qed.

Lemma foldEvents_wf st envs st' : wf_state st -> foldEvents st envs = Ok st' -> wf_state st'.
Proof. intros Hwf. apply (res_foldl_inv wf_state); [apply applyEvent_wf | done]. Qed.
