(* ===== verification/AgentFoldProps.v ===== *)
(** Properties of the fold: replay, throwing, authorship, and the life of a
    message from arrival to consumption. *)
From S2P Require Import Prelude Dict JsValue JsText AgentIds AgentState AgentFold AgentFoldLaws.
From S2P Require Import AgentEffects AgentStep AgentSamples.
#[local] Open Scope Z_scope.

(** * When folding throws *)

(** The events a trajectory log must not hold: deltas, and this agent's own
    model calls and invocations that lack the data to resume them. *)
Definition malformed (st : AgentState) (env : LogEnvelope) : bool :=
  let kind := env.(env_payloadKind) in
  let payload := payloadRecord env in
  (kind =s? "message.delta")
  || ((kind =s? "message.started") && is_lit payload.!"role" "assistant"
      && negb (isForeignAuthor st env) && negb (truthy payload.!"modelRequest"))
  || ((kind =s? "invocation.started") && negb (isForeignAuthor st env)
      && negb (causality_id "invocationId" (env_causalityRecord env) =s? "")
      && negb (truthy payload.!"transport")).

(** Rewrite with what is known of the event's kind. *)
Ltac kind_is H :=
  unfold applyEvent; cbv zeta; rewrite H;
  cbn [String.eqb Ascii.eqb Bool.eqb orb andb].

(** * The reducer at a known kind *)

Lemma applyEvent_edited st env :
  env.(env_payloadKind) = "message.edited" ->
  applyEvent st env
  = Ok (fold_message_edited (withAdvance st env) (payloadRecord env) (env_causalityRecord env)).
Proof. intros H. unfold applyEvent. by rewrite H. Qed.

Lemma applyEvent_retracted st env :
  env.(env_payloadKind) = "message.retracted" ->
  applyEvent st env
  = Ok (fold_message_retracted (withAdvance st env) (payloadRecord env) (env_causalityRecord env)).
Proof. intros H. unfold applyEvent. by rewrite H. Qed.

Lemma applyEvent_completed st env :
  env.(env_payloadKind) = "message.completed" ->
  applyEvent st env
  = Ok (fold_message_completed (withAdvance st env) env (payloadRecord env)
          (env_causalityRecord env) (isForeignAuthor st env)).
Proof. intros H. unfold applyEvent. by rewrite H. Qed.

Lemma applyEvent_started st env :
  env.(env_payloadKind) = "message.started" ->
  applyEvent st env
  = fold_message_started (withAdvance st env) (payloadRecord env) (env_causalityRecord env)
      (isForeignAuthor st env).
Proof. intros H. unfold applyEvent. by rewrite H. Qed.

(** * Live messages *)

Lemma find_filter_excluded {A} (p q : A -> bool) l :
  (forall x, p x = true -> q x = false) -> find p (List.filter q l) = None.
Proof.
  intros Hpq. induction l as [|x l IH]; simpl; [done|].
  destruct (q x) eqn:Hq; [|done]. simpl. destruct (p x) eqn:Hp; [|done].
  rewrite (Hpq x Hp) in Hq. done.
Qed.

Lemma find_filter_kept {A} (p q : A -> bool) l :
  (forall x, p x = true -> q x = true) -> find p (List.filter q l) = find p l.
Proof.
  intros Hpq. induction l as [|x l IH]; simpl; [done|].
  destruct (q x) eqn:Hq; simpl.
  - by rewrite IH.
  - rewrite IH. destruct (p x) eqn:Hp; [|done]. rewrite (Hpq x Hp) in Hq. done.
Qed.

Lemma find_map_same {A B} (p : A -> bool) (f : A -> A) (g : A -> B) l :
  (forall x, p (f x) = p x) -> (forall x, g (f x) = g x) ->
  g <$> find p (map f l) = g <$> find p l.
Proof.
  intros Hp Hg. induction l as [|x l IH]; simpl; [done|].
  rewrite Hp. destruct (p x); simpl; [by rewrite Hg | done].
Qed.

Lemma liveSenderRef_fmap st id :
  liveSenderRef st id =
  match se_senderRef <$> find (fun e => ostr_is id e.(se_sourceMessageId)) st.(steeringQueue) with
  | Some r => Some r
  | None =>
      match st.(pendingPrompt) with
      | Some p =>
          if ostr_is id p.(pp_sourceMessageId) then Some p.(pp_senderRef)
          else dp_senderRef <$>
                 find (fun d => d.(dp_sourceMessageId) =s? id) st.(deferredPostTurnQueue)
      | None =>
          dp_senderRef <$> find (fun d => d.(dp_sourceMessageId) =s? id) st.(deferredPostTurnQueue)
      end
  end.
Proof. unfold liveSenderRef. by destruct (find _ (steeringQueue st)). Qed.

Lemma edit_steering_live id blocks id' q :
  se_senderRef <$> find (fun e => ostr_is id' e.(se_sourceMessageId)) (map (edit_steering id blocks) q)
  = se_senderRef <$> find (fun e => ostr_is id' e.(se_sourceMessageId)) q.
Proof. apply find_map_same; intros x; unfold edit_steering; by case_match. Qed.

Lemma edit_deferred_live id blocks id' q :
  dp_senderRef <$> find (fun d => d.(dp_sourceMessageId) =s? id') (map (edit_deferred id blocks) q)
  = dp_senderRef <$> find (fun d => d.(dp_sourceMessageId) =s? id') q.
Proof. apply find_map_same; intros x; unfold edit_deferred; by case_match. Qed.

(** A mutation is refused when its message is no longer live or its author is
    not the sender. *)
Definition mutation_refused (st : AgentState) (env : LogEnvelope) : Prop :=
  let id := causality_id "messageId" (env_causalityRecord env) in
  let by_ := (payloadRecord env).!"by" in
  id = "" \/ liveSenderRef st id = None \/
  (truthy by_ = true /\
   exists sender, liveSenderRef st id = Some sender
                  /\ strict_eqb (participantKey by_) (participantKey sender) = false).

Lemma mutable_message_refused st env :
  mutation_refused st env ->
  mutable_message (withAdvance st env) (payloadRecord env) (env_causalityRecord env) = None.
Proof.
  unfold mutation_refused, mutable_message. intros H.
  change (liveSenderRef (withAdvance st env)) with (liveSenderRef st).
  destruct H as [->|[->|(Hby & sender & -> & Heq)]].
  - done.
  - by case_match.
  - rewrite Hby, Heq. by case_match.
Qed.

(** An authorised mutation of a live message. *)
Definition mutation_allowed (st : AgentState) (env : LogEnvelope) (id : string) : Prop :=
  causality_id "messageId" (env_causalityRecord env) = id /\ id <> "" /\
  exists sender, liveSenderRef st id = Some sender /\
    (truthy (payloadRecord env).!"by" = false
     \/ strict_eqb (participantKey (payloadRecord env).!"by") (participantKey sender) = true).

Lemma mutable_message_allowed st env id :
  mutation_allowed st env id ->
  mutable_message (withAdvance st env) (payloadRecord env) (env_causalityRecord env) = Some id.
Proof.
  intros (Hid & Hne & sender & Hlive & Hby). unfold mutable_message.
  change (liveSenderRef (withAdvance st env)) with (liveSenderRef st).
  rewrite Hid, string_eqb_ne, Hlive by done.
  destruct Hby as [->| ->]; simpl; [done|]. by rewrite andb_false_r.
Qed.

(** * Reading acknowledgements *)

Lemma set_add_In x y s : In x (set_add y s) <-> x = y \/ In x s.
Proof.
  unfold set_add. destruct (existsb (String.eqb y) s) eqn:E.
  - apply existsb_exists in E as (z & Hz & ->%String.eqb_eq). intuition congruence.
  - rewrite in_app_iff. simpl. intuition congruence.
Qed.

Lemma set_add_NoDup y s : NoDup s -> NoDup (set_add y s).
Proof.
  unfold set_add. intros Hs. destruct (existsb (String.eqb y) s) eqn:E; [done|].
  apply list.NoDup_app. split; [done|]. split; [|apply NoDup_singleton].
  intros z Hz ->%list_elem_of_singleton. apply list_elem_of_In in Hz.
  assert (existsb (String.eqb y) s = true) by (apply existsb_exists; exists y; by rewrite String.eqb_refl).
  congruence.
Qed.

Lemma fold_set_add_In {A} (f : A -> option string) (l : list A) s x :
  In x (fold_left (fun s e => match f e with Some y => set_add y s | None => s end) l s)
  <-> In x s \/ exists e, In e l /\ f e = Some x.
Proof.
  revert s; induction l as [|e l IH]; intros s; simpl; [naive_solver|].
  rewrite IH. destruct (f e) eqn:E; [rewrite set_add_In|]; naive_solver.
Qed.

Lemma fold_set_add_NoDup {A} (f : A -> option string) (l : list A) s :
  NoDup s -> NoDup (fold_left (fun s e => match f e with Some y => set_add y s | None => s end) l s).
Proof.
  revert s; induction l as [|e l IH]; intros s Hs; simpl; [done|].
  apply IH. destruct (f e); [by apply set_add_NoDup | done].
Qed.

(** The message a steering entry consumed by a call is acknowledged under. *)
Definition acked_as (bound : val) (e : SteeringEntry) : option string :=
  match truthy_ostr e.(se_sourceMessageId) with
  | Some x => if num_le e.(se_seq) bound then Some x else None
  | None => None
  end.

Lemma consumedMessages_fold st bound fresh :
  consumedMessages st bound fresh
  = fold_left (fun s e => match acked_as bound e with Some y => set_add y s | None => s end)
      st.(steeringQueue)
      (fold_left (fun s x => match Some x with Some y => set_add y s | None => s end)
         (List.filter (fun x => x <>s? "") fresh) []).
Proof.
  unfold consumedMessages. generalize (fold_left (fun s x => set_add x s)
    (List.filter (fun x => x <>s? "") fresh) []). intros s; revert s.
  unfold acked_as. induction (steeringQueue st) as [|e l IH]; intros s; simpl; [done|].
  destruct (truthy_ostr _) as [x|]; [|apply IH]. destruct (num_le _ _); apply IH.
Qed.

Module Fold.
(** Folding an event throws exactly on the malformed ones: a delta, this
    agent's own assistant [message.started] without a model request, or its own
    [invocation.started] without a transport.  Every other event, whatever its
    payload, folds. *)
Theorem applyEvent_throws_iff_malformed st env :
  res_ok (applyEvent st env) = negb (malformed st env).
Proof.
  unfold malformed. cbv zeta. rewrite <- (isForeignAuthor_advance st env).
  destruct (applyEvent st env) eqn:H; event_cases H; kind_known; try done;
    repeat match goal with E : (_ =s? _) = false |- _ => rewrite E; clear E end;
    unfold_cases; repeat (case_match; simplify_eq/=; try done); bool_solve.
Qed.

(** Events authored by another participant never become this agent's own
    work: outside [system.event]s they leave the open turn, the model call in
    flight and every pending record as they were, and no event of theirs changes
    which turn is open. *)
Theorem foreign_events_never_adopted st env st' :
  isForeignAuthor st env = true -> applyEvent st env = Ok st' ->
  ot_turnId <$> st'.(openTurn) = ot_turnId <$> st.(openTurn) /\
  (env.(env_payloadKind) <> "system.event" ->
   st'.(openTurn) = st.(openTurn) /\ st'.(inFlightModelCall) = st.(inFlightModelCall) /\
   st'.(pendingInvocations) = st.(pendingInvocations) /\
   st'.(pendingApprovals) = st.(pendingApprovals) /\
   st'.(pendingCredentialWaits) = st.(pendingCredentialWaits)).
Proof.
  intros Hf H. destruct (String.eqb_spec env.(env_payloadKind) "system.event") as [Hk|Hk].
  - split; [|done]. unfold applyEvent in H. rewrite Hk in H. simpl in H. res_inv. subst.
    by rewrite system_event_turn_id.
  - pose proof (foreign_loop_part _ _ _ Hf Hk H) as Hlp. unfold loop_part in Hlp.
    injection Hlp as E1 E2 E3 E4 E5. split; [by rewrite E1|]. intros _. auto.
Qed.

Lemma foreign_events_never_adopted_witness :
  isForeignAuthor sample_running
    (sample_event 4 sample_other_agent "turn.opened" [("turnId", VStr "t:other")] []) = true /\
  ot_turnId <$> (play sample_running
    [sample_event 4 sample_other_agent "turn.opened" [("turnId", VStr "t:other")] []]).(openTurn)
  = Some "t:c:e1:a1".
Proof.
  split; [vm_compute; reflexivity|].
  refine (eq_trans (proj1 (foreign_events_never_adopted sample_running
    (sample_event 4 sample_other_agent "turn.opened" [("turnId", VStr "t:other")] []) _
    _ _)) _); vm_compute; reflexivity.
Defined.

(** C27: every pending invocation, approval and credential wait of a folded state
    is filed exactly once, under its own id, whatever log was folded. *)
Theorem folded_states_wf input envs st :
  foldEvents (initialAgentState input) envs = Ok st -> wf_state st.
Proof. apply foldEvents_wf, initialAgentState_wf. Qed.

Lemma folded_states_wf_witness :
  wf_state (play sample_initial
    [sample_event 1 sample_self "turn.opened" [("turnId", VStr "t")] [];
     sample_event 2 sample_self "invocation.started" [("invocationId", VStr "i")]
       [("transport", VObj [])]]).
Proof.
  apply (folded_states_wf
           (mkInitialStateInput "c" None None sample_config None None None (Some "a1"))
           [sample_event 1 sample_self "turn.opened" [("turnId", VStr "t")] [];
            sample_event 2 sample_self "invocation.started" [("invocationId", VStr "i")]
              [("transport", VObj [])]]).
  vm_compute. reflexivity.
Defined.

(** Replaying a log from a cached state of one of its prefixes gives the same
    state as replaying it from the start, and the state stands at the last
    envelope replayed. *)
Theorem foldEvents_resume st envs last_env envs2 st1 st2 :
  foldEvents st (envs ++ [last_env]) = Ok st1 ->
  (foldEvents st ((envs ++ [last_env]) ++ envs2) = Ok st2 <-> foldEvents st1 envs2 = Ok st2) /\
  st1.(lastSeq) = last_env.(env_seq) /\ st1.(lastHash) = last_env.(env_hash) /\
  same_identity st st1.
Proof.
  intros H. split; [unfold foldEvents in *; rewrite res_foldl_app, H; done|].
  unfold foldEvents in H. rewrite res_foldl_app in H. res_inv. simpl in H. res_inv. subst.
  apply applyEvent_frame in Hbind0 as (Hs & Hh & Hid). split; [done|]. split; [done|].
  apply (res_foldl_inv (same_identity st) applyEvent) in Hbind.
  - unfold same_identity in *. intuition congruence.
  - intros s e s' Hss (_ & _ & Hs')%applyEvent_frame. unfold same_identity in *. intuition congruence.
  - by unfold same_identity.
Qed.

Lemma foldEvents_resume_witness :
  (play sample_initial
     [sample_event 1 sample_self "turn.opened" [("turnId", VStr "t")] []]).(lastSeq) = 1.
Proof.
  refine (proj1 (proj2 (foldEvents_resume sample_initial []
            (sample_event 1 sample_self "turn.opened" [("turnId", VStr "t")] []) [] _
            sample_initial _))).
  vm_compute. reflexivity.
Defined.

(** Read wins and the author guard: an edit or retract of a message that no
    queue holds any more, or by somebody other than its sender, folds to nothing
    but the advance of the log position. *)
Theorem refused_mutation_is_noop st env :
  env.(env_payloadKind) = "message.edited" \/ env.(env_payloadKind) = "message.retracted" ->
  mutation_refused st env -> applyEvent st env = Ok (withAdvance st env).
Proof.
  intros [Hk|Hk] H%mutable_message_refused.
  - rewrite applyEvent_edited by done. unfold fold_message_edited. by rewrite H.
  - rewrite applyEvent_retracted by done. unfold fold_message_retracted. by rewrite H.
Qed.

Lemma refused_mutation_is_noop_witness :
  let env := sample_event 9 sample_self "message.retracted" [("messageId", VStr "m2")]
               [("by", sample_other_user)] in
  liveSenderRef sample_steered "m2" = Some sample_user /\
  applyEvent sample_steered env = Ok (withAdvance sample_steered env).
Proof.
  split; [reflexivity|]. apply refused_mutation_is_noop; [right; reflexivity|].
  right; right. split; [reflexivity|]. exists sample_user. split; reflexivity.
Defined.

(** A retract by its sender removes a queued message everywhere: it is live
    in no queue, no user entry of it remains in the model context, and the other
    entries stay, in order. *)
Theorem retract_removes st env id :
  env.(env_payloadKind) = "message.retracted" -> mutation_allowed st env id ->
  exists st', applyEvent st env = Ok st' /\ liveSenderRef st' id = None /\
    st'.(entries) = List.filter (fun e => negb (user_entry_of id e)) st.(entries) /\
    (forall id', id' <> id ->
       liveSenderRef st' id' = None -> liveSenderRef st id' = None).
Proof.
  intros Hk H%mutable_message_allowed. rewrite applyEvent_retracted by done.
  unfold fold_message_retracted. rewrite H. eexists; split; [done|].
  rewrite liveSenderRef_fmap. simpl. split; [|split; [done|]].
  - rewrite find_filter_excluded by (intros ? ->; done).
    rewrite find_filter_excluded by (intros ? ->; done). simpl.
    destruct (pendingPrompt st) as [p|]; [|done].
    destruct (ostr_is id (pp_sourceMessageId p)) eqn:E; [done | by rewrite E].
  - intros id' Hne. rewrite !liveSenderRef_fmap. simpl.
    rewrite !find_filter_kept.
    + destruct (_ <$> find _ (steeringQueue st)); [done|].
      destruct (pendingPrompt st) as [p|]; [|done].
      destruct (ostr_is id (pp_sourceMessageId p)) eqn:E1;
        destruct (ostr_is id' (pp_sourceMessageId p)) eqn:E2; try done.
      * unfold ostr_is in *. destruct (pp_sourceMessageId p); [|done].
        apply String.eqb_eq in E1, E2. congruence.
    + intros d ->%String.eqb_eq. by rewrite string_eqb_ne.
    + unfold ostr_is. intros e. destruct (se_sourceMessageId e); [|done].
      intros ->%String.eqb_eq. by rewrite string_eqb_ne.
Qed.

Lemma retract_removes_witness :
  let env := sample_event 9 sample_self "message.retracted" [("messageId", VStr "m2")]
               [("by", sample_user)] in
  exists st', applyEvent sample_steered env = Ok st' /\ liveSenderRef st' "m2" = None.
Proof.
  destruct (retract_removes sample_steered
    (sample_event 9 sample_self "message.retracted" [("messageId", VStr "m2")]
       [("by", sample_user)]) "m2") as (st' & H1 & H2 & _).
  - reflexivity.
  - split; [reflexivity|]. split; [done|]. exists sample_user. split; [reflexivity|].
    right; reflexivity.
  - exists st'. split; [exact H1 | exact H2].
Defined.

(** An edit by its sender replaces the blocks of every copy of a queued
    message and nothing else: each entry keeps its place, its kind and its other
    fields, entries of other messages are untouched, and the same messages stay
    live with the same senders. *)
Theorem edit_replaces_blocks st env id :
  env.(env_payloadKind) = "message.edited" -> mutation_allowed st env id ->
  exists st', applyEvent st env = Ok st' /\
    (forall id', liveSenderRef st' id' = liveSenderRef st id') /\
    length st'.(entries) = length st.(entries) /\
    (forall (i : nat) e, st.(entries) !! i = Some e ->
       exists e', st'.(entries) !! i = Some e' /\
         (user_entry_of id e = false -> e' = e) /\
         (user_entry_of id e = true ->
            e'.!"content".!"blocks" = VArr (arr_or_nil (payloadRecord env).!"blocks") /\
            (forall k, k <> "content" -> js_get k e' = js_get k e))).
Proof.
  intros Hk H%mutable_message_allowed. rewrite applyEvent_edited by done.
  unfold fold_message_edited. rewrite H. eexists; split; [done|]. simpl.
  split; [|split; [by rewrite length_map|]].
  - intros id'. rewrite !liveSenderRef_fmap. simpl.
    rewrite edit_steering_live, edit_deferred_live.
    destruct (pendingPrompt st) as [p|]; [|done]. simpl. unfold edit_prompt. by destruct (ostr_is id (pp_sourceMessageId p)).
  - intros i e Hi. exists (edit_entry id (arr_or_nil (payloadRecord env).!"blocks") e).
    split; [by rewrite list_lookup_fmap, Hi|]. unfold edit_entry.
    split; intros ->; [done|]. rewrite js_get_obj, dict_get_set_eq. simpl default.
    unfold withEditedBlocks at 1. rewrite js_get_obj, dict_get_set_eq.
    split; [done|]. intros k Hne. rewrite js_get_obj, dict_get_set_ne by done.
    by destruct e.
Qed.

Lemma edit_replaces_blocks_witness :
  let env := sample_event 9 sample_self "message.edited" [("messageId", VStr "m2")]
               [("by", sample_user); ("blocks", VArr [VStr "new"])] in
  exists st', applyEvent sample_steered env = Ok st' /\ length st'.(entries) = 2%nat.
Proof.
  destruct (edit_replaces_blocks sample_steered
    (sample_event 9 sample_self "message.edited" [("messageId", VStr "m2")]
       [("by", sample_user); ("blocks", VArr [VStr "new"])]) "m2") as (st' & H1 & _ & H2 & _).
  - reflexivity.
  - split; [reflexivity|]. split; [done|]. exists sample_user. split; [reflexivity|].
    right; reflexivity.
  - exists st'. split; [exact H1 | rewrite H2; reflexivity].
Defined.

(** Starting a model call consumes exactly the steers its context covers, and
    the read acks computed for it name exactly the messages of the consumed
    steers, each once. *)
Theorem read_acks_match_consumption st env bound st' :
  env.(env_payloadKind) = "message.started" -> isForeignAuthor st env = false ->
  (payloadRecord env).!"role" = VStr "assistant" ->
  (payloadRecord env).!"modelRequest".!"contextThroughSeq" = VNum bound ->
  applyEvent st env = Ok st' ->
  NoDup (consumedMessages st (VNum bound) []) /\
  (forall m, In m (consumedMessages st (VNum bound) []) <->
     m <> "" /\ exists e, In e st.(steeringQueue) /\ ~ In e st'.(steeringQueue)
                         /\ e.(se_sourceMessageId) = Some m) /\
  (forall e, In e st'.(steeringQueue) <-> In e st.(steeringQueue) /\ bound < e.(se_seq)).
Proof.
  intros Hk Hf Hrole Hbound H. rewrite applyEvent_started in H by done.
  unfold fold_message_started in H. rewrite Hf, Hrole in H. simpl in H.
  destruct (truthy _); [|done]. simpl in H. res_inv. subst. simpl.
  rewrite Hbound. rewrite consumedMessages_fold. simpl.
  assert (Hin : forall e, In e (List.filter (fun e => bound <? e.(se_seq)) st.(steeringQueue))
    <-> In e st.(steeringQueue) /\ bound < e.(se_seq)).
  { intros e. rewrite filter_In, Z.ltb_lt. done. }
  split; [apply fold_set_add_NoDup, NoDup_nil_2|]. split; [|done].
  intros m. rewrite fold_set_add_In. unfold acked_as, truthy_ostr. simpl. split.
  - intros [[]|(e & He & Hm)]. destruct (se_sourceMessageId e) as [x|] eqn:Ex; [|done].
    destruct (String.eqb_spec x ""); [done|]. destruct (Z.leb_spec (se_seq e) bound); [|done].
    simplify_eq. split; [done|]. exists e. rewrite Hin. split; [done|]. split; [lia|done].
  - intros (Hne & e & He & Hnin & Hsrc). right. exists e. split; [done|]. rewrite Hsrc.
    rewrite string_eqb_ne by done. rewrite Hin in Hnin.
    destruct (Z.leb_spec (se_seq e) bound); [done|]. destruct Hnin. auto.
Qed.

Lemma read_acks_match_consumption_witness :
  let env := sample_event 5 sample_self "message.started" [("messageId", VStr "x")]
               [("role", VStr "assistant");
                ("modelRequest", VObj [("contextThroughSeq", VNum 4)])] in
  consumedMessages sample_steered (VNum 4) [] = ["m2"] /\
  NoDup (consumedMessages sample_steered (VNum 4) []).
Proof.
  split; [vm_compute; reflexivity|].
  refine (proj1 (read_acks_match_consumption sample_steered
    (sample_event 5 sample_self "message.started" [("messageId", VStr "x")]
       [("role", VStr "assistant"); ("modelRequest", VObj [("contextThroughSeq", VNum 4)])]) 4
    (get_ok sample_steered (applyEvent sample_steered
      (sample_event 5 sample_self "message.started" [("messageId", VStr "x")]
       [("role", VStr "assistant"); ("modelRequest", VObj [("contextThroughSeq", VNum 4)])])))
    _ _ _ _ _)); vm_compute; reflexivity.
Defined.

(** A message to deliver after the turn stays out of the context of the open
    turn: folding it while a turn is open appends it to the deferred queue, under
    the sender's message id, and changes neither the session entries nor the
    steering queue; without an open turn it becomes the pending prompt. *)
Theorem deferred_message_held st env :
  env.(env_payloadKind) = "message.completed" ->
  is_lit (payloadRecord env).!"role" "assistant" = false ->
  truthy (metadataFromPayload (payloadRecord env)).!"deliverAfterTurn" = true ->
  exists st', applyEvent st env = Ok st' /\
    match st.(openTurn) with
    | Some _ =>
        st'.(entries) = st.(entries) /\ st'.(steeringQueue) = st.(steeringQueue) /\
        st'.(pendingPrompt) = st.(pendingPrompt) /\
        exists d, st'.(deferredPostTurnQueue) = st.(deferredPostTurnQueue) ++ [d] /\
          d.(dp_sourceMessageId)
          = default env.(env_envelopeId) (sourceMessageIdFromPayload (payloadRecord env)) /\
          d.(dp_content) = payloadRecord env
    | None => pp_envelopeId <$> st'.(pendingPrompt) = Some env.(env_envelopeId)
    end.
Proof.
  intros Hk Hrole Hdefer. rewrite applyEvent_completed by done.
  unfold fold_message_completed. rewrite Hrole. unfold fold_user_completed.
  rewrite Hdefer. eexists; split; [done|]. simpl.
  destruct (openTurn st); simpl; [|done]. repeat split; eauto.
Qed.

Lemma deferred_message_held_witness :
  let env := sample_event 9 sample_self "message.completed" []
               [("role", VStr "user"); ("sourceMessageId", VStr "m9");
                ("metadata", VObj [("deliverAfterTurn", VBool true)])] in
  exists st', applyEvent sample_running env = Ok st' /\ st'.(entries) = sample_running.(entries).
Proof.
  destruct (deferred_message_held sample_running
    (sample_event 9 sample_self "message.completed" []
       [("role", VStr "user"); ("sourceMessageId", VStr "m9");
        ("metadata", VObj [("deliverAfterTurn", VBool true)])]) eq_refl eq_refl eq_refl)
    as (st' & H1 & H2).
  exists st'. split; [exact H1 | exact (proj1 H2)].
Defined.
End Fold.
