(* ===== verification/AgentStepLaws.v ===== *)
(** Laws of the step: how an appended batch folds, which items a step emits, and
    that the effects it emits are derivable from the folded batch. *)
From S2P Require Import Prelude Dict JsValue JsText AgentIds AgentState AgentFold AgentFoldLaws.
From S2P Require Import AgentEffects AgentStep AgentScenario.
#[local] Open Scope Z_scope.

(** * Appended batches *)

(** The envelope records the item, under this agent's name. *)
Record records (self : option string) (item : AppendItem) (env : LogEnvelope) : Prop := {
  rec_envelopeId : env.(env_envelopeId) = item.(ai_envelopeId);
  rec_kind : env.(env_payloadKind) = item.(ai_payloadKind);
  rec_payload : env.(env_payload) = item.(ai_payload);
  rec_causality : env.(env_causality) = item.(ai_causality);
  rec_own : forall st, st.(selfId) = self -> isForeignAuthor st env = false
}.

(** The envelopes record a batch: one per item, in order, numbered from the
    position after [seq]. *)
Inductive appended (self : option string) : Z -> list AppendItem -> list LogEnvelope -> Prop :=
  | appended_nil seq : appended self seq [] []
  | appended_cons seq item items env envs :
      records self item env -> env.(env_seq) = seq + 1 -> appended self (seq + 1) items envs ->
      appended self seq (item :: items) (env :: envs).

#[export] Hint Constructors appended : natstack.

Lemma appended_app_inv self seq items1 items2 envs :
  appended self seq (items1 ++ items2) envs ->
  exists envs1 envs2, envs = envs1 ++ envs2 /\ appended self seq items1 envs1 /\
    appended self (seq + Z.of_nat (length items1)) items2 envs2.
Proof.
  revert seq envs; induction items1 as [|i items1 IH]; intros seq envs H; simpl in *.
  - exists [], envs. rewrite Z.add_0_r. eauto with natstack.
  - inversion H as [|? ? ? env envs' Hr Hs Ha]; subst.
    apply IH in Ha as (e1 & e2 & -> & H1 & H2). exists (env :: e1), e2. split; [done|].
    split; [eauto with natstack|]. by replace (seq + Z.of_nat (S (length items1)))
      with (seq + 1 + Z.of_nat (length items1)) by lia.
Qed.

Lemma payloadRecord_get env k : js_get k (payloadRecord env) = js_get k env.(env_payload).
Proof. unfold payloadRecord. by destruct (env_payload env). Qed.

Lemma causalityRecord_get env k :
  js_get k (env_causalityRecord env) = js_get k env.(env_causality).
Proof. unfold env_causalityRecord. by destruct (env_causality env). Qed.

Lemma causality_id_record env k :
  causality_id k (env_causalityRecord env) = causality_id k env.(env_causality).
Proof. unfold causality_id. by rewrite causalityRecord_get. Qed.

(** * Items that fold *)

Definition foldable (item : AppendItem) : bool :=
  (item.(ai_payloadKind) <>s? "message.delta")
  && ((item.(ai_payloadKind) <>s? "message.started") || truthy item.(ai_payload).!"modelRequest")
  && ((item.(ai_payloadKind) <>s? "invocation.started") || truthy item.(ai_payload).!"transport").

Lemma foldable_applies self st item env :
  records self item env -> foldable item = true -> exists st', applyEvent st env = Ok st'.
Proof.
  intros [_ Hk Hp _ _]. unfold foldable. rewrite <- Hk, <- Hp. intros Hf.
  destruct (applyEvent st env) as [st'|e] eqn:H; [eauto|exfalso].
  rewrite !andb_true_iff in Hf. destruct Hf as [[Hd Hs] Hi].
  unfold applyEvent in H. unfold fold_message_started, fold_invocation_started in H.
  rewrite !payloadRecord_get in H.
  repeat case_str; simpl in *; try discriminate;
    rewrite ?Hs, ?Hi in H; simpl in H; repeat (case_match; try discriminate).
Qed.

(** A batch of foldable items folds. *)
Lemma appended_folds self seq items envs st :
  appended self seq items envs -> forallb foldable items = true ->
  exists st', foldEvents st envs = Ok st'.
Proof.
  intros H; revert st; induction H as [|seq item items env envs Hr Hs Ha IH];
    intros st Hf; simpl in *; [eauto|].
  apply andb_true_iff in Hf as [Hf1 Hf2].
  destruct (foldable_applies self st item env Hr Hf1) as [st1 H1].
  unfold foldEvents in *; simpl. rewrite H1. simpl. apply IH, Hf2.
Qed.

Lemma foldEvents_frame st envs st' :
  foldEvents st envs = Ok st' -> same_identity st st'.
Proof.
  revert st; induction envs as [|env envs IH]; intros st H.
  - unfold foldEvents in H. simpl in H. injection H as <-. by repeat split.
  - unfold foldEvents in H; simpl in H. apply res_bind_Ok in H as (st1 & H1 & H2).
    apply applyEvent_frame in H1 as (_ & _ & Hid). apply IH in H2.
    unfold same_identity in *. intuition congruence.
Qed.

Lemma foldEvents_app_inv st e1 e2 st' :
  foldEvents st (e1 ++ e2) = Ok st' ->
  exists st1, foldEvents st e1 = Ok st1 /\ foldEvents st1 e2 = Ok st'.
Proof. unfold foldEvents. rewrite res_foldl_app. apply res_bind_Ok. Qed.

(** * The item that starts a model call *)

Definition starts_call (messageId : string) (item : AppendItem) : Prop :=
  item.(ai_payloadKind) = "message.started" /\ item.(ai_payload).!"role" = VStr "assistant" /\
  truthy item.(ai_payload).!"modelRequest" = true /\
  causality_id "messageId" item.(ai_causality) = messageId.

(** Folding it makes the call the one in flight. *)
Lemma starts_call_folds st self messageId item env :
  st.(selfId) = self -> records self item env -> starts_call messageId item ->
  exists st', applyEvent st env = Ok st' /\
    im_messageId <$> st'.(inFlightModelCall) = Some messageId /\
    im_request <$> st'.(inFlightModelCall) = Some item.(ai_payload).!"modelRequest" /\
    ot_turnId <$> st'.(openTurn) = ot_turnId <$> st.(openTurn) /\
    st'.(pendingInvocations) = st.(pendingInvocations).
Proof.
  intros Hself [_ Hk Hp Hc Hown] (Hkind & Hrole & Hreq & Hid).
  unfold applyEvent. rewrite Hk, Hkind. simpl. unfold fold_message_started.
  rewrite !payloadRecord_get, Hp, Hrole, Hreq, causality_id_record, Hc, Hid.
  rewrite isForeignAuthor_advance, Hown by done. simpl.
  eexists; split; [done|]. simpl. by destruct (openTurn st).
Qed.

Lemma modelStartItems_spec st turnId n before item effect :
  modelStartItems st turnId n before = Ok (item, effect) ->
  starts_call (ids.messageId turnId n) item /\ foldable item = true /\
  effectId (EModelCall effect) = ids.modelEffect (ids.messageId turnId n) /\
  effect.(mc_request) = item.(ai_payload).!"modelRequest" /\
  effect.(mc_request).!"contextThroughSeq" = VNum (st.(lastSeq) + before).
Proof.
  unfold modelStartItems. intros H. apply res_bind_Ok in H as ([p m] & _ & H).
  injection H as <- <-. unfold starts_call. repeat split.
  cbn [mc_request]. unfold opt_field.
  by destruct (truthy (turnConfig st).!"skillIndexHash"), (truthy (turnConfig st).!"toolSchemasHash").
Qed.

(** * Effects derivable from a state *)

Definition derivable (st : AgentState) (effect : EffectDescriptor) : Prop :=
  underivable (derivePendingEffects st) effect = false.

Lemma derivable_publish st effect : effect_kind effect = KPublishEnvelope -> derivable st effect.
Proof. unfold derivable, underivable. intros ->. by rewrite bool_decide_eq_true_2. Qed.

Lemma derivable_In st d effect :
  In d (derivePendingEffects st) -> effectId d = effectId effect -> derivable st effect.
Proof.
  intros Hin Hid. unfold derivable, underivable.
  rewrite (proj2 (existsb_exists _ _)); [by rewrite andb_false_r|].
  exists d. by rewrite Hid, string_eqb_refl.
Qed.

Lemma derivable_inflight st messageId effect :
  im_messageId <$> st.(inFlightModelCall) = Some messageId ->
  effectId effect = ids.modelEffect messageId -> derivable st effect.
Proof.
  intros Hin Hid. destruct (inFlightModelCall st) as [call|] eqn:E; [|done].
  injection Hin as Hin. apply (derivable_In st (EModelCall (modelCallEffect st call))).
  - unfold derivePendingEffects. rewrite E. left. reflexivity.
  - rewrite Hid, <- Hin. reflexivity.
Qed.

Lemma derivable_invocation st id i effect :
  dict_get id st.(pendingInvocations) = Some i -> gated i = false ->
  effectId effect = ids.invocationEffect i.(pi_invocationId) -> derivable st effect.
Proof.
  intros Hget Hg Hid. apply (derivable_In st (invocationEffect st i)).
  - unfold derivePendingEffects. rewrite !in_app_iff, in_map_iff. right; left.
    exists i. split; [done|]. apply filter_In. split; [by eapply dict_get_value | by rewrite Hg].
  - rewrite Hid. unfold invocationEffect. by repeat case_match.
Qed.

(** * Outputs whose effects their own batch backs *)

(** The batch folds, and wherever it is recorded the emitted effects are
    derivable from the state it folds to. *)
Definition backed (st : AgentState) (out : StepOutput) : Prop :=
  forallb foldable out.(so_append) = true /\
  forall envs st', appended st.(selfId) st.(lastSeq) out.(so_append) envs ->
    foldEvents st envs = Ok st' -> Forall (derivable st') out.(so_effects).

Definition publishes (effect : EffectDescriptor) : Prop := effect_kind effect = KPublishEnvelope.

Lemma readAckEffects_publish st bound fresh turnId ctx :
  Forall publishes (readAckEffects st bound fresh turnId ctx).
Proof.
  unfold readAckEffects. induction (consumedMessages st bound fresh); simpl; by constructor.
Qed.

Lemma publish_derivable st effects : Forall publishes effects -> Forall (derivable st) effects.
Proof. apply Forall_impl. intros e. apply derivable_publish. Qed.

Lemma backed_no_effects st items :
  forallb foldable items = true -> backed st {| so_append := items; so_effects := [] |}.
Proof. intros Hf. split; [done|]. intros. by constructor. Qed.

Lemma backed_model st pre item messageId effect acks :
  forallb foldable pre = true -> foldable item = true -> starts_call messageId item ->
  effectId (EModelCall effect) = ids.modelEffect messageId -> Forall publishes acks ->
  backed st {| so_append := pre ++ [item]; so_effects := EModelCall effect :: acks |}.
Proof.
  intros Hpre Hitem Hstart Hid Hacks. split; simpl.
  { rewrite forallb_app. by rewrite Hpre; simpl; rewrite Hitem. }
  intros envs st' Happ Hfold. constructor; [|by apply publish_derivable].
  apply appended_app_inv in Happ as (e1 & e2 & -> & _ & Happ).
  inversion Happ as [|? ? ? env ? Hr _ Hnil]; subst. inversion Hnil; subst.
  apply foldEvents_app_inv in Hfold as (st1 & H1 & H2).
  apply foldEvents_frame in H1 as (_ & _ & _ & _ & Hself).
  destruct (starts_call_folds st1 st.(selfId) messageId item env) as (st2 & H3 & Hin & _);
    [done..|].
  unfold foldEvents in H2. simpl in H2. rewrite H3 in H2. simpl in H2. injection H2 as <-.
  by apply (derivable_inflight _ messageId).
Qed.

(** Unfolds the runs of a step into their cases. *)
Ltac step_cases H :=
  repeat match type of H with
    | context [match ?x with _ => _ end] => destruct x eqn:?
    | res_bind _ _ = Ok _ => let E := fresh "Hrun" in apply res_bind_Ok in H as (? & E & H)
    end; res_inv.

Lemma modelStartItems_backed st0 st turnId n before pre item effect acks :
  modelStartItems st0 turnId n before = Ok (item, effect) -> forallb foldable pre = true ->
  Forall publishes acks ->
  backed st {| so_append := pre ++ [item]; so_effects := EModelCall effect :: acks |}.
Proof.
  intros H%modelStartItems_spec Hpre Hacks. destruct H as (Hs & Hf & Hid & _).
  by eapply backed_model.
Qed.

Lemma nextModelCall_backed st0 st before ctx fresh pre out :
  nextModelCall st0 before ctx fresh = Ok out -> forallb foldable pre = true ->
  backed st (prepend pre out).
Proof.
  unfold nextModelCall. intros H Hpre. destruct (openTurn st0) as [turn|]; [|done].
  assert (Hstart : forall o,
    (let! (item, effect) :=
       modelStartItems st0 (ot_turnId turn) (ot_modelCallCount turn) before in
     Ok {| so_append := [item];
           so_effects := EModelCall effect ::
             readAckEffects st0 (effect.(mc_request)).!"contextThroughSeq" fresh (ot_turnId turn) ctx |})
    = Ok o -> backed st (prepend pre o)).
  { intros o Ho. apply res_bind_Ok in Ho as ([item effect] & Hm & Ho). injection Ho as <-.
    eapply modelStartItems_backed; eauto using readAckEffects_publish. }
  destruct (maxModelCallsPerTurn st0) as [m|]; [|by apply Hstart].
  destruct (m <=? ot_modelCallCount turn); [|by apply Hstart].
  injection H as <-. apply backed_no_effects. simpl. by rewrite forallb_app, Hpre.
Qed.

Lemma promoteTrigger_backed st0 st ctx pre envelopeId metadata fresh out :
  promoteTrigger st0 ctx pre envelopeId metadata fresh = Ok out -> forallb foldable pre = true ->
  backed st out.
Proof.
  unfold promoteTrigger. intros H Hpre.
  apply res_bind_Ok in H as ([item effect] & Hm & H). injection H as <-.
  change (pre ++ _) with (pre ++ [turnOpenedItem (ids.turnId st0.(channelId) envelopeId (selfRefId ctx)) metadata] ++ [item]).
  rewrite app_assoc. eapply modelStartItems_backed; eauto using readAckEffects_publish.
  by rewrite forallb_app, Hpre.
Qed.

(** * Expanding tool calls *)

Lemma projectedEnvelope_records st seq prevHash now item :
  records st.(selfId) item (projectedEnvelope st seq prevHash now item).
Proof.
  constructor; try done. intros st' H. unfold isForeignAuthor, projectedEnvelope. rewrite H. simpl.
  destruct (selfId st); simpl; [by rewrite string_eqb_refl | done].
Qed.

(** The envelopes of a projection, numbered after [seq]. *)
Fixpoint recorded (st : AgentState) (seq : Z) (items : list AppendItem) : list LogEnvelope :=
  match items with
  | [] => []
  | item :: items =>
      projectedEnvelope st (seq + 1) ("h" ^^ pretty seq) "2026-05-20T12:00:00.000Z" item
      :: recorded st (seq + 1) items
  end.

Lemma recorded_appended st seq items : appended st.(selfId) seq items (recorded st seq items).
Proof.
  revert seq; induction items; intros seq; simpl; constructor; auto using projectedEnvelope_records.
Qed.

(** The invocation is pending and free to be dispatched. *)
Definition dispatchable (st : AgentState) (id : string) : Prop :=
  exists i, dict_get id st.(pendingInvocations) = Some i /\ gated i = false /\
            i.(pi_invocationId) = id.

Lemma invocationStartedItem_id st messageId attemptId turnId block :
  causality_id "invocationId" (invocationStartedItem st messageId attemptId turnId block).(ai_causality)
  = block.(tb_id).
Proof.
  unfold causality_id, invocationStartedItem, opt_field. simpl. by destruct (negb (messageId =s? "")).
Qed.

Lemma invocation_started_unnamed st0 st self messageId attemptId turnId block env :
  block.(tb_id) = "" -> records self (invocationStartedItem st0 messageId attemptId turnId block) env ->
  applyEvent st env = Ok (withAdvance st env).
Proof.
  intros Hid [_ Hk Hp Hc _]. unfold applyEvent. rewrite Hk. simpl. unfold fold_invocation_started.
  by rewrite causality_id_record, Hc, invocationStartedItem_id, Hid, orb_true_r.
Qed.

Lemma invocation_started_folds st0 st self messageId attemptId turnId block env :
  st.(selfId) = self -> block.(tb_id) <> "" ->
  records self (invocationStartedItem st0 messageId attemptId turnId block) env ->
  exists st' i, applyEvent st env = Ok st' /\
    st'.(pendingInvocations) = dict_set block.(tb_id) i st.(pendingInvocations) /\
    gated i = false /\ i.(pi_invocationId) = block.(tb_id).
Proof.
  intros Hself Hne [_ Hk Hp Hc Hown].
  assert (Hid : causality_id "invocationId" (env_causality env) = block.(tb_id))
    by (rewrite Hc; apply invocationStartedItem_id).
  unfold applyEvent. rewrite Hk. simpl. unfold fold_invocation_started.
  rewrite !payloadRecord_get, Hp, causality_id_record, Hid, string_eqb_ne by done.
  rewrite isForeignAuthor_advance, Hown by done. simpl.
  assert (Ht : truthy (transportForToolCall st0 (tb_name block) (tb_id block)) = true).
  { unfold transportForToolCall. by repeat case_match. }
  rewrite Ht. simpl. eexists _, _. split; [done|]. split; [reflexivity|]. done.
Qed.

Lemma invocationStartedItem_foldable st messageId attemptId turnId block :
  foldable (invocationStartedItem st messageId attemptId turnId block) = true.
Proof. unfold foldable. simpl. unfold transportForToolCall. by repeat case_match. Qed.

Lemma expandFrom_spec st projected calls messageId attemptId turnId now out :
  dict_get "" projected.(pendingInvocations) = None ->
  expandFrom st projected calls messageId attemptId turnId now = Ok out ->
  out.(so_append) = map (invocationStartedItem st messageId attemptId turnId) calls /\
  map effectId out.(so_effects) = map (fun b => ids.invocationEffect b.(tb_id)) calls /\
  Forall (fun b => b.(tb_id) <> "") calls.
Proof.
  revert projected out; induction calls as [|b calls IH]; intros projected out Hne H; simpl in H.
  { injection H as <-. by split; [|split]. }
  apply res_bind_Ok in H as (proj1 & Hproj & H).
  unfold projectAppend in Hproj. simpl in Hproj. apply res_bind_Ok in Hproj as (p1 & Happ & Heq).
  injection Heq as ->.
  pose proof (projectedEnvelope_records projected (projected.(lastSeq) + 1) projected.(lastHash) now
    (invocationStartedItem st messageId attemptId turnId b)) as Hrec.
  destruct (decide (tb_id b = "")) as [Hempty|Hn].
  { exfalso. destruct (dict_get (tb_id b) (pendingInvocations proj1)) eqn:Eg; [|done].
    rewrite (invocation_started_unnamed _ _ _ _ _ _ _ _ Hempty Hrec) in Happ.
    injection Happ as <-. simpl in Eg. congruence. }
  destruct (invocation_started_folds st projected projected.(selfId) messageId attemptId turnId b
    _ eq_refl Hn Hrec) as (st' & i & Happ' & Hpend & Hg & Hi).
  rewrite Happ in Happ'. injection Happ' as <-.
  rewrite Hpend, dict_get_set_eq in H. apply res_bind_Ok in H as (o & Ho & H). injection H as <-.
  apply IH in Ho as (H1 & H2 & H3); [|by rewrite Hpend, dict_get_set_ne].
  split; [simpl; by rewrite H1|]. split; [|by constructor].
  simpl. rewrite H2. f_equal. unfold invocationEffect. rewrite <- Hi. by repeat case_match.
Qed.

Lemma started_batch_folds st0 self messageId attemptId turnId calls seq envs st st' :
  st.(selfId) = self -> Forall (fun b => b.(tb_id) <> "") calls ->
  appended self seq (map (invocationStartedItem st0 messageId attemptId turnId) calls) envs ->
  foldEvents st envs = Ok st' ->
  (forall id, dispatchable st id -> dispatchable st' id) /\
  Forall (fun b => dispatchable st' b.(tb_id)) calls.
Proof.
  revert seq envs st; induction calls as [|b calls IH]; intros seq envs st Hself Hne Ha Hf;
    inversion Ha as [|? ? ? env envs' Hr _ Ha']; subst.
  { unfold foldEvents in Hf. injection Hf as <-. by split; [|constructor]. }
  inversion Hne as [|? ? Hb Hne']; subst.
  destruct (invocation_started_folds _ st _ _ _ _ _ _ eq_refl Hb Hr) as (st1 & i & H1 & Hp & Hg & Hi).
  unfold foldEvents in Hf. simpl in Hf. rewrite H1 in Hf. simpl in Hf.
  pose proof H1 as (_ & _ & _ & _ & _ & _ & Hs)%applyEvent_frame.
  destruct (IH _ _ _ (eq_sym Hs) Hne' Ha' Hf) as [IH1 IH2].
  assert (Hset : forall id, dispatchable st id \/ id = b.(tb_id) -> dispatchable st1 id).
  { intros id [(j & Hj & Hgj & Hij)| ->]; unfold dispatchable; rewrite Hp.
    - destruct (String.eqb_spec (tb_id b) id) as [<-|Hd].
      + exists i. by rewrite dict_get_set_eq.
      + exists j. by rewrite dict_get_set_ne.
    - exists i. by rewrite dict_get_set_eq. }
  split; [auto|]. constructor; auto.
Qed.

Lemma expandToolCalls_backed st0 st calls messageId turnId ctx pre out :
  dict_get "" st0.(pendingInvocations) = None -> forallb foldable pre = true ->
  expandToolCalls st0 calls messageId turnId ctx = Ok out -> backed st (prepend pre out).
Proof.
  intros Hne Hpre H. apply expandFrom_spec in H as (Ha & He & Hids); [|done].
  unfold prepend. rewrite Ha. split; simpl.
  { rewrite forallb_app, Hpre. simpl. apply forallb_forall. intros item.
    rewrite in_map_iff. intros (b & <- & _). apply invocationStartedItem_foldable. }
  intros envs st' Happ Hf. apply appended_app_inv in Happ as (e1 & e2 & -> & _ & Happ).
  apply foldEvents_app_inv in Hf as (st1 & H1 & H2).
  apply foldEvents_frame in H1 as (_ & _ & _ & _ & Hself).
  destruct (started_batch_folds _ _ _ _ _ _ _ _ st1 st' (eq_sym Hself) Hids Happ H2) as [_ Hd].
  rewrite Forall_forall in *. intros e Hin.
  apply (in_map effectId) in Hin. rewrite He, in_map_iff in Hin.
  destruct Hin as (b & Hb & Hbin).
  destruct (Hd b Hbin) as (i & Hi1 & Hi2 & Hi3).
  eapply derivable_invocation; [done..|]. by rewrite Hi3.
Qed.

(** * Every command's output is backed *)

Lemma prepend_nil out : prepend [] out = out.
Proof. by destruct out. Qed.

Lemma nextModelCall_backed_alone st0 st before ctx fresh out :
  nextModelCall st0 before ctx fresh = Ok out -> backed st out.
Proof. intros H. rewrite <- (prepend_nil out). by eapply nextModelCall_backed. Qed.

Lemma interruptCleanupItems_foldable st reason :
  forallb foldable (interruptCleanupItems st reason) = true.
Proof.
  unfold interruptCleanupItems. rewrite !forallb_app.
  assert (Hmap : forall {A} (f : A -> AppendItem) l, (forall x, foldable (f x) = true) ->
    forallb foldable (map f l) = true).
  { intros A f l Hf. induction l; simpl; [done|]. by rewrite Hf. }
  rewrite !Hmap by done. simpl. by destruct (openTurn st).
Qed.

Lemma projectAppend_wf st items now st' :
  wf_state st -> projectAppend st items now = Ok st' -> wf_state st'.
Proof.
  intros Hwf. unfold projectAppend.
  assert (Hg : forall next seq, wf_state next -> projectFrom st next seq items now = Ok st' -> wf_state st').
  { induction items as [|i items IH]; intros next seq Hn H; simpl in H; [by injection H as <-|].
    apply res_bind_Ok in H as (n1 & H1 & H2). eauto using applyEvent_wf. }
  by apply Hg.
Qed.

#[export] Hint Resolve backed_no_effects nextModelCall_backed nextModelCall_backed_alone
  interruptCleanupItems_foldable wf_invocation_named projectAppend_wf : natstack.

Lemma steerStep_backed st command ctx out : steerStep st command ctx = Ok out -> backed st out.
Proof.
  unfold steerStep. intros H.
  repeat case_match; res_inv; subst; eauto using backed_no_effects;
    change {| so_append := ?r :: ?n.(so_append); so_effects := _ |} with (prepend [r] n);
    eauto with natstack.
Qed.

Lemma promptStep_backed st command ctx out : promptStep st command ctx = Ok out -> backed st out.
Proof.
  unfold promptStep. intros H.
  do 3 (case_match; [res_inv; subst; eauto using backed_no_effects, steerStep_backed; fail|]).
  apply res_bind_Ok in H as ([item effect] & Hm & H). injection H as <-.
  eapply (modelStartItems_backed _ _ _ _ _ [recvItem command; _]);
    eauto using readAckEffects_publish.
Qed.

Lemma promotePendingPrompt_backed st0 st ctx pre out :
  promotePendingPrompt st0 ctx pre = Ok out -> forallb foldable pre = true -> backed st out.
Proof.
  unfold promotePendingPrompt. destruct (pendingPrompt st0); [|done]. apply promoteTrigger_backed.
Qed.

Lemma promoteSteersAsTurn_backed st0 st ctx out :
  promoteSteersAsTurn st0 ctx = Ok out -> backed st out.
Proof.
  unfold promoteSteersAsTurn. destruct (steeringQueue st0); [done|].
  intros H. by eapply promoteTrigger_backed.
Qed.

Lemma promoteDeferredHead_backed st head ctx out :
  promoteDeferredHead st head ctx = Ok out -> backed st out.
Proof.
  unfold promoteDeferredHead. intros H. apply res_bind_Ok in H as (st1 & _ & H).
  by eapply promotePendingPrompt_backed.
Qed.

Lemma flushStep_backed st ctx out : flushStep st ctx = Ok (Some out) -> backed st out.
Proof.
  unfold flushStep. intros H. repeat case_match; res_inv; subst; simplify_eq/=;
    eauto using promoteSteersAsTurn_backed, promoteDeferredHead_backed with natstack.
Qed.

Lemma interruptStep_backed st reason ctx out : interruptStep st reason ctx = Ok out -> backed st out.
Proof.
  unfold interruptStep. intros H. repeat case_match; res_inv; subst;
    apply backed_no_effects; try reflexivity; apply interruptCleanupItems_foldable.
Qed.

Lemma wakeContinue_backed st0 st append ctx out :
  forallb foldable append = true -> wakeContinue st0 append ctx = Ok out -> backed st out.
Proof.
  unfold wakeContinue. intros Hf H. repeat case_match; res_inv; subst;
    eauto using promotePendingPrompt_backed with natstack.
Qed.

Lemma wakeStep_backed st ctx out : wf_state st -> wakeStep st ctx = Ok out -> backed st out.
Proof.
  unfold wakeStep. intros Hwf H.
  set (append := match inFlightModelCall st with Some call => [orphanItem call] | None => [] end) in *.
  assert (Hf : forallb foldable append = true) by (subst append; by destruct (inFlightModelCall st)).
  clearbody append. apply res_bind_Ok in H as (st1 & Hst1 & H).
  pose proof (projectAppend_wf _ _ _ _ Hwf Hst1) as Hwf1.
  destruct (openTurn st1); [|eauto using wakeContinue_backed].
  case_match.
  - injection H as <-. apply backed_no_effects. by rewrite forallb_app, Hf, interruptCleanupItems_foldable.
  - match type of H with (match ?u with _ => _ end) = _ => destruct u as [messageId [|b blocks]] end;
      [eauto using wakeContinue_backed|].
    apply res_bind_Ok in H as (e & He & H). injection H as <-.
    eapply expandToolCalls_backed; eauto with natstack.
Qed.

Lemma resumeAfterResetStep_backed st messageId resetAt ctx out :
  resumeAfterResetStep st messageId resetAt ctx = Ok out -> backed st out.
Proof.
  unfold resumeAfterResetStep. intros H. repeat case_match; res_inv; subst; eauto with natstack.
  all: by apply backed_no_effects.
Qed.

Lemma commandStep_backed st c ctx out : wf_state st -> commandStep st c ctx = Ok out -> backed st out.
Proof.
  intros Hwf H. destruct c; simpl in H;
    eauto using promptStep_backed, steerStep_backed, interruptStep_backed, wakeStep_backed,
      resumeAfterResetStep_backed;
    try (injection H as <-; by apply backed_no_effects).
  - destruct flushDeferred; [|by eapply interruptStep_backed].
    apply res_bind_Ok in H as (flushed & Hf & H).
    destruct flushed; [|by eapply interruptStep_backed].
    injection H as <-. by eapply flushStep_backed.
  - injection H as <-. unfold compactStep. by destruct (entries st); apply backed_no_effects.
Qed.

(** * Every event's output is backed *)

Lemma assistantCompletedStep_backed st payload causality ctx out :
  wf_state st -> assistantCompletedStep st payload causality ctx = Ok out -> backed st out.
Proof.
  unfold assistantCompletedStep. intros Hwf H. repeat case_match; res_inv; subst;
    try (apply backed_no_effects; done); eauto with natstack.
  rewrite <- (prepend_nil out). eapply expandToolCalls_backed; eauto with natstack.
Qed.

Lemma turnClosedStep_backed st ctx out : turnClosedStep st ctx = Ok out -> backed st out.
Proof.
  unfold turnClosedStep. intros H. repeat case_match; res_inv; subst;
    eauto using promoteSteersAsTurn_backed, promoteDeferredHead_backed, backed_no_effects.
Qed.

Lemma messageFailedStep_backed st payload ctx out :
  messageFailedStep st payload ctx = Ok out -> backed st out.
Proof.
  unfold messageFailedStep. intros H. destruct (openTurn st); [|injection H as <-; by apply backed_no_effects].
  repeat (case_match; [res_inv; subst; apply backed_no_effects; done|]).
  eauto with natstack.
Qed.

Lemma invocationTerminalStep_backed st ctx out :
  invocationTerminalStep st ctx = Ok out -> backed st out.
Proof.
  unfold invocationTerminalStep. intros H.
  repeat case_match; res_inv; subst; eauto using backed_no_effects with natstack.
Qed.

Lemma systemEventStep_backed st payload ctx out :
  systemEventStep st payload ctx = Ok out -> backed st out.
Proof.
  unfold systemEventStep. intros H. repeat case_match; res_inv; subst;
    eauto using backed_no_effects with natstack.
Qed.

(** The invocation that a grant names is free to be dispatched. *)
Definition grant_folded (st : AgentState) (env : LogEnvelope) : Prop :=
  env.(env_payloadKind) = "approval.resolved" -> is_true env.(env_payload).!"granted" = true ->
  forall i, dict_get (causality_id "invocationId" env.(env_causality)) st.(pendingInvocations) = Some i ->
  gated i = false.

Lemma approvalResolvedStep_backed st env :
  env.(env_payloadKind) = "approval.resolved" -> grant_folded st env -> wf_state st ->
  backed st (approvalResolvedStep st (if is_object env.(env_payload) then env.(env_payload) else VObj [])
               (env_causalityRecord env)).
Proof.
  intros Hk Hgrant Hwf. unfold approvalResolvedStep. rewrite causality_id_record.
  destruct (dict_get _ _) as [i|] eqn:Hi; [|by apply backed_no_effects].
  destruct (is_true _) eqn:Hg; [|by apply backed_no_effects].
  assert (Hg' : is_true env.(env_payload).!"granted" = true) by (by destruct (env_payload env)).
  split; simpl; [done|]. intros envs st' Ha Hf. inversion Ha; subst.
  injection Hf as <-. constructor; [|constructor].
  eapply derivable_invocation; [exact Hi | by apply Hgrant |].
  unfold invocationEffect. by repeat case_match.
Qed.

Lemma eventStep_backed st env ctx out :
  wf_state st -> grant_folded st env -> eventStep st env ctx = Ok out -> backed st out.
Proof.
  unfold eventStep. intros Hwf Hg H.
  destruct (_ && _); [by eapply assistantCompletedStep_backed|].
  case_match; [by eapply turnClosedStep_backed|].
  case_match; [by eapply messageFailedStep_backed|].
  case_match; [by eapply invocationTerminalStep_backed|].
  destruct (String.eqb_spec (env_payloadKind env) "approval.resolved") as [Hk|_].
  { injection H as <-. by apply approvalResolvedStep_backed. }
  case_match; [by eapply systemEventStep_backed|]. injection H as <-. by apply backed_no_effects.
Qed.

(** Resolving a pending approval with a grant frees its invocation. *)
Lemma approval_resolved_frees st0 env st a :
  isForeignAuthor st0 env = false ->
  dict_get (causality_id "approvalId" env.(env_causality)) st0.(pendingApprovals) = Some a ->
  a.(pa_invocationId) = causality_id "invocationId" env.(env_causality) ->
  applyEvent st0 env = Ok st -> grant_folded st env.
Proof.
  intros Hf Ha Hi H Hk Hg i Hget. unfold applyEvent in H. rewrite Hk in H. simpl in H.
  injection H as <-. unfold fold_approval_resolved in Hget.
  rewrite isForeignAuthor_advance, Hf, causality_id_record in Hget. simpl in Hget. rewrite Ha in Hget.
  rewrite payloadRecord_get, Hg, Hi in Hget. simpl in Hget.
  destruct (dict_get _ (pendingInvocations st0)) as [j|] eqn:Ej; [|congruence].
  rewrite dict_get_set_eq in Hget. injection Hget as <-. unfold gated. simpl.
  by rewrite andb_false_r.
Qed.

(** * Failed effects *)

Lemma effectFailedStep_backed `{ModelFailureClassifier} st effectId kind error ctx :
  backed st (effectFailedStep st effectId kind error ctx).
Proof.
  unfold effectFailedStep, modelCallFailedStep, waitFailedStep, closeFailed, approvalFailedStep,
    unmappedFailedStep, invocationFailedStep.
  repeat case_match; try (apply backed_no_effects; reflexivity).
Qed.

(** How terminal events settle what is pending: invocations, approvals,
    credential waits, the model call and the turn. *)
(** The two states differ at most in the given dictionaries, in the entries and
    in the position. *)
Definition same_turn (a b : AgentState) : Prop :=
  a.(openTurn) = b.(openTurn) /\ a.(inFlightModelCall) = b.(inFlightModelCall).

(** The invocation has its tool result in the session. *)
Definition is_result_of (id : string) (entry : val) : bool :=
  is_lit entry.!"kind" "tool-result" && is_lit entry.!"invocationId" id.

Definition answered (id : string) (st : AgentState) : bool :=
  existsb (is_result_of id) st.(entries).

Definition is_terminal_kind (kind : string) : Prop :=
  kind = "invocation.completed" \/ kind = "invocation.failed" \/ kind = "invocation.cancelled"
  \/ kind = "invocation.abandoned".

Lemma invocation_terminal_folds st env st' :
  is_terminal_kind env.(env_payloadKind) -> isForeignAuthor st env = false ->
  applyEvent st env = Ok st' ->
  let id := causality_id "invocationId" env.(env_causality) in
  st'.(pendingInvocations) = dict_del id st.(pendingInvocations) /\
  st'.(pendingApprovals) = st.(pendingApprovals) /\
  st'.(pendingCredentialWaits) = st.(pendingCredentialWaits) /\ same_turn st st' /\
  (forall k, answered k st = true -> answered k st' = true) /\
  (dict_has id st.(pendingInvocations) = true -> answered id st' = true).
Proof.
  intros Hk Hf H id. unfold applyEvent in H.
  assert (st' = fold_invocation_terminal (withAdvance st env) env env.(env_payloadKind)
                  (payloadRecord env) (env_causalityRecord env) false) as ->.
  { destruct Hk as [Hk|[Hk|[Hk|Hk]]]; rewrite Hk in H |- *; simpl in H;
      rewrite isForeignAuthor_advance, Hf in H; by injection H as <-. }
  unfold fold_invocation_terminal. rewrite causality_id_record. fold id. simpl.
  unfold dict_has. destruct (dict_get id (pendingInvocations st)) as [i|] eqn:E; simpl.
  - split; [done|]. split; [done|]. split; [done|]. split; [done|].
    unfold answered. simpl. split.
    + intros k Hk'. by rewrite existsb_app, Hk'.
    + intros _. rewrite existsb_app. simpl. unfold is_result_of, tool_result_entry. simpl.
      by rewrite string_eqb_refl, orb_true_r.
  - rewrite dict_del_not_key by done. by repeat split.
Qed.

Lemma approval_resolved_folds st env st' :
  env.(env_payloadKind) = "approval.resolved" -> isForeignAuthor st env = false ->
  applyEvent st env = Ok st' ->
  let id := causality_id "approvalId" env.(env_causality) in
  st'.(pendingApprovals) = dict_del id st.(pendingApprovals) /\
  st'.(pendingCredentialWaits) = st.(pendingCredentialWaits) /\ same_turn st st' /\
  st'.(entries) = st.(entries) /\
  (is_true env.(env_payload).!"granted" = false ->
   st'.(pendingInvocations) = st.(pendingInvocations)).
Proof.
  intros Hk Hf H id. unfold applyEvent in H. rewrite Hk in H. simpl in H.
  rewrite isForeignAuthor_advance, Hf in H. injection H as <-.
  unfold fold_approval_resolved. rewrite causality_id_record, payloadRecord_get. fold id. simpl.
  destruct (dict_get id (pendingApprovals st)) as [a|] eqn:E; simpl.
  - repeat split. intros Hg. rewrite Hg. by case_match.
  - rewrite dict_del_not_key by done. by repeat split.
Qed.

(** A [credential.wait_resolved] or [credential.wait_expired] event. *)
Lemma wait_settled_folds st env st' key :
  env.(env_payloadKind) = "system.event" ->
  env.(env_payload).!"credKey" = VStr key ->
  (env.(env_payload).!"details".!"kind" = VStr "credential.wait_resolved"
   \/ env.(env_payload).!"details".!"kind" = VStr "credential.wait_expired") ->
  applyEvent st env = Ok st' ->
  st'.(pendingCredentialWaits) = dict_del key st.(pendingCredentialWaits) /\
  st'.(pendingInvocations) = st.(pendingInvocations) /\
  st'.(pendingApprovals) = st.(pendingApprovals) /\ same_turn st st' /\
  st'.(entries) = st.(entries).
Proof.
  intros Hk Hkey Hd H. unfold applyEvent in H. rewrite Hk in H. simpl in H. injection H as <-.
  assert (Hdet : (payloadRecord env).!"details" ?? VObj [] = env.(env_payload).!"details").
  { rewrite payloadRecord_get. destruct Hd as [Hd|Hd];
      by destruct ((env_payload env).!"details"). }
  unfold fold_system_event. rewrite Hdet.
  assert (Hs : fold_wait_settled (withAdvance st env) (payloadRecord env) ((env_payload env).!"details")
               = with_pendingCredentialWaits (dict_del key st.(pendingCredentialWaits)) (withAdvance st env)).
  { unfold fold_wait_settled, payload_first. rewrite payloadRecord_get, Hkey. simpl.
    unfold dict_has. destruct (dict_get key _) eqn:E; simpl; [done|].
    rewrite dict_del_not_key by done. by destruct st. }
  destruct Hd as [-> | ->]; simpl; rewrite Hs; by repeat split.
Qed.

(** Closing the open turn. *)
Lemma turn_closed_folds st env st' turn :
  env.(env_payloadKind) = "turn.closed" -> isForeignAuthor st env = false ->
  st.(openTurn) = Some turn -> env.(env_causality).!"turnId" = VStr turn.(ot_turnId) ->
  applyEvent st env = Ok st' ->
  st'.(openTurn) = None /\ st'.(inFlightModelCall) = None /\
  st'.(pendingInvocations) = st.(pendingInvocations) /\
  st'.(pendingApprovals) = st.(pendingApprovals) /\
  st'.(pendingCredentialWaits) = st.(pendingCredentialWaits) /\ st'.(entries) = st.(entries).
Proof.
  intros Hk Hf Ht Hc H. unfold applyEvent in H. rewrite Hk in H. simpl in H.
  rewrite isForeignAuthor_advance, Hf, causalityRecord_get, Hc in H. injection H as <-.
  unfold fold_turn_closed. simpl. rewrite Ht, string_eqb_refl, andb_false_r. by repeat split.
Qed.

(** * Batches *)

(** The rule for folding a batch of items of one kind: an invariant over the
    items that are still to come. *)
Lemma fold_batch {T} (f : T -> AppendItem) (I : list T -> AgentState -> Prop) self :
  (forall x l st env st', st.(selfId) = self -> I (x :: l) st -> records self (f x) env ->
     applyEvent st env = Ok st' -> I l st') ->
  forall l seq envs st st', appended self seq (map f l) envs -> st.(selfId) = self -> I l st ->
  foldEvents st envs = Ok st' -> I [] st' /\ st'.(selfId) = self.
Proof.
  intros Hstep. induction l as [|x l IH]; intros seq envs st st' Ha Hself HI H;
    inversion Ha as [|? ? ? env envs' Hr _ Ha']; subst.
  - unfold foldEvents in H. simpl in H. injection H as <-. done.
  - unfold foldEvents in H. simpl in H. apply res_bind_Ok in H as (st1 & H1 & H2).
    pose proof H1 as (_ & _ & _ & _ & _ & _ & Hs)%applyEvent_frame.
    eapply (IH _ _ st1 st' Ha'); [congruence | | exact H2]. eapply Hstep; eauto.
Qed.

Lemma dict_no_keys {V} (d : dict V) : (forall k, ~ In k (dict_keys d)) -> d = [].
Proof. destruct d as [|[k v] d]; [done|]. intros H. destruct (H k). by left. Qed.

Lemma dict_keys_del_rest {V} (d : dict V) k l x :
  (forall y, In y (dict_keys d) -> In y (k :: l)) -> In x (dict_keys (dict_del k d)) -> In x l.
Proof. intros H [Hin Hne]%dict_keys_del_incl. destruct (H x Hin); [congruence | done]. Qed.

Lemma dict_keys_values {V} (id : V -> string) (d : dict V) :
  dict_all (fun k v => id v = k) d -> forall k, In k (dict_keys d) -> In k (map id (dict_values d)).
Proof.
  intros Hall k Hin. unfold dict_keys in Hin. apply in_map_iff in Hin as ([k' v] & <- & Hin).
  apply in_map_iff. exists v. split; [by apply Hall|]. by apply (in_map snd) in Hin.
Qed.

Lemma dict_has_keys {V} (d : dict V) k : dict_has k d = true <-> In k (dict_keys d).
Proof.
  unfold dict_has. destruct (dict_get k d) eqn:E.
  - split; [|done]. intros _. apply dict_get_In, (in_map fst) in E. exact E.
  - apply dict_get_None_keys in E. split; [done|]. intros. by destruct E.
Qed.

(** An item that ends an invocation. *)
Record ends_invocation (f : PendingInvocation -> AppendItem) : Prop := {
  ei_kind : forall i, is_terminal_kind (f i).(ai_payloadKind);
  ei_id : forall i, causality_id "invocationId" (f i).(ai_causality) = i.(pi_invocationId)
}.

Lemma cancelled_ends reason : ends_invocation (invocationCancelledItem reason).
Proof. split; [by right; right; left|done]. Qed.

(** * The cleanup batch *)

(** What is left pending while the invocations of [l] are still to be cancelled. *)
Definition cancelling (st : AgentState) (l : list PendingInvocation) (s : AgentState) : Prop :=
  (forall k, In k (dict_keys s.(pendingInvocations)) -> In k (map pi_invocationId l)) /\
  s.(pendingApprovals) = st.(pendingApprovals) /\
  s.(pendingCredentialWaits) = st.(pendingCredentialWaits) /\ same_turn st s /\
  (forall k, In k (dict_keys st.(pendingInvocations)) ->
     In k (dict_keys s.(pendingInvocations)) \/ answered k s = true).

Lemma cancelling_step st0 f self x l st env st' : ends_invocation f ->
  st.(selfId) = self -> cancelling st0 (x :: l) st -> records self (f x) env ->
  applyEvent st env = Ok st' -> cancelling st0 l st'.
Proof.
  intros [Hkind Hid] Hself (Hk & Ha & Hw & Ht & Hans) [_ Ekind _ Ec Hown] H.
  destruct (invocation_terminal_folds st env st') as (P1 & P2 & P3 & P4 & P5 & P6); [|by apply Hown|done|].
  { rewrite Ekind. apply Hkind. }
  rewrite Ec, Hid in P1, P6. split; [|split; [congruence|split; [congruence|split]]].
  - intros k. rewrite P1. by apply dict_keys_del_rest.
  - unfold same_turn in *. intuition congruence.
  - intros k Hin. destruct (Hans k Hin) as [Hin'|Hin']; [|by right; apply P5].
    rewrite P1. destruct (decide (k = pi_invocationId x)) as [->|Hne].
    + right. apply P6. by apply dict_has_keys.
    + left. apply dict_has_keys. unfold dict_has. rewrite dict_get_del_ne by congruence.
      by apply dict_has_keys in Hin'.
Qed.

(** ... and while the approvals of [l] are still to be denied. *)
Definition denying (st : AgentState) (l : list PendingApproval) (s : AgentState) : Prop :=
  (forall k, In k (dict_keys s.(pendingApprovals)) -> In k (map pa_approvalId l)) /\
  s.(pendingInvocations) = [] /\ s.(pendingCredentialWaits) = st.(pendingCredentialWaits) /\
  same_turn st s /\ s.(entries) = st.(entries).

Lemma denying_step st0 resolver reason self x l st env st' :
  st.(selfId) = self -> denying st0 (x :: l) st -> records self (approvalDeniedItem resolver reason x) env ->
  applyEvent st env = Ok st' -> denying st0 l st'.
Proof.
  intros Hself (Hk & Hi & Hw & Ht & He) [_ Ekind Ep Ec Hown] H.
  destruct (approval_resolved_folds st env st') as (P1 & P2 & P3 & P4 & P5); [done|by apply Hown|done|].
  rewrite Ec in P1. rewrite Ep in P5. specialize (P5 eq_refl).
  unfold denying, same_turn in *. rewrite P5, P2, P4. split; [|intuition congruence].
  intros k. rewrite P1. by apply dict_keys_del_rest.
Qed.

(** ... and while the waits of [l] are still to be given up. *)
Definition giving_up (st : AgentState) (l : list PendingCredentialWait) (s : AgentState) : Prop :=
  (forall k, In k (dict_keys s.(pendingCredentialWaits)) -> In k (map pw_credKey l)) /\
  s.(pendingInvocations) = [] /\ s.(pendingApprovals) = [] /\
  same_turn st s /\ s.(entries) = st.(entries).

Lemma giving_up_step st0 reason self x l st env st' :
  st.(selfId) = self -> giving_up st0 (x :: l) st -> records self (waitUnresolvedItem reason x) env ->
  applyEvent st env = Ok st' -> giving_up st0 l st'.
Proof.
  intros Hself (Hk & Hi & Hw & Ht & He) [_ Ekind Ep Ec Hown] H.
  destruct (wait_settled_folds st env st' x.(pw_credKey)) as (P1 & P2 & P3 & P4 & P5);
    [done | by rewrite Ep | left; by rewrite Ep | done |].
  unfold giving_up, same_turn in *. rewrite P2, P3, P5. split; [|intuition congruence].
  intros k. rewrite P1. by apply dict_keys_del_rest.
Qed.

(** The three batches. *)

Lemma cancel_batch st f self seq envs s : ends_invocation f ->
  wf_state st -> st.(selfId) = self ->
  appended self seq (map f (dict_values st.(pendingInvocations))) envs ->
  foldEvents st envs = Ok s -> cancelling st [] s /\ s.(selfId) = self.
Proof.
  intros He Hwf Hself Ha Hf.
  refine (fold_batch _ (cancelling st) self _ _ _ _ _ _ Ha Hself _ Hf).
  - intros x l st1 env st2 H1 H2 H3 H4. by eapply cancelling_step.
  - split; [apply dict_keys_values, Hwf|]. repeat split. intros k Hk. by left.
Qed.

Lemma deny_batch st resolver reason self seq envs s :
  wf_state st -> st.(selfId) = self -> st.(pendingInvocations) = [] ->
  appended self seq (map (approvalDeniedItem resolver reason) (dict_values st.(pendingApprovals))) envs ->
  foldEvents st envs = Ok s -> denying st [] s /\ s.(selfId) = self.
Proof.
  intros Hwf Hself Hi Ha Hf.
  refine (fold_batch _ (denying st) self _ _ _ _ _ _ Ha Hself _ Hf).
  - intros x l st1 env st2 H1 H2 H3 H4. by eapply denying_step.
  - split; [apply dict_keys_values, Hwf|]. by repeat split.
Qed.

Lemma give_up_batch st reason self seq envs s :
  wf_state st -> st.(selfId) = self -> st.(pendingInvocations) = [] -> st.(pendingApprovals) = [] ->
  appended self seq (map (waitUnresolvedItem reason) (dict_values st.(pendingCredentialWaits))) envs ->
  foldEvents st envs = Ok s -> giving_up st [] s /\ s.(selfId) = self.
Proof.
  intros Hwf Hself Hi Hp Ha Hf.
  refine (fold_batch _ (giving_up st) self _ _ _ _ _ _ Ha Hself _ Hf).
  - intros x l st1 env st2 H1 H2 H3 H4. by eapply giving_up_step.
  - split; [apply dict_keys_values, Hwf|]. by repeat split.
Qed.

(** Folding the cleanup of a turn: all that is pending settled, and the turn closed. *)
Lemma cleanup_batches st f resolver reason close turn seq envs st' : ends_invocation f ->
  wf_state st -> st.(openTurn) = Some turn ->
  close.(ai_payloadKind) = "turn.closed" -> close.(ai_causality).!"turnId" = VStr turn.(ot_turnId) ->
  appended st.(selfId) seq
    (map f (dict_values st.(pendingInvocations))
     ++ map (approvalDeniedItem resolver reason) (dict_values st.(pendingApprovals))
     ++ map (waitUnresolvedItem reason) (dict_values st.(pendingCredentialWaits)) ++ [close]) envs ->
  foldEvents st envs = Ok st' ->
  st'.(openTurn) = None /\ st'.(inFlightModelCall) = None /\ st'.(pendingInvocations) = [] /\
  st'.(pendingApprovals) = [] /\ st'.(pendingCredentialWaits) = [] /\
  (forall k, In k (dict_keys st.(pendingInvocations)) -> answered k st' = true).
Proof.
  intros He Hwf Hturn Hclose Hcause Ha Hf.
  apply appended_app_inv in Ha as (e1 & r1 & -> & A1 & Ha).
  apply appended_app_inv in Ha as (e2 & r2 & -> & A2 & Ha).
  apply appended_app_inv in Ha as (e3 & e4 & -> & A3 & A4).
  apply foldEvents_app_inv in Hf as (s1 & F1 & Hf).
  apply foldEvents_app_inv in Hf as (s2 & F2 & Hf). apply foldEvents_app_inv in Hf as (s3 & F3 & F4).
  destruct (cancel_batch st f _ _ _ _ He Hwf eq_refl A1 F1) as [(K1 & I1 & I2 & I3 & I4) S1].
  apply dict_no_keys in K1. rewrite <- I1 in A2. rewrite <- I2 in A3.
  destruct (deny_batch s1 _ reason _ _ _ _ (foldEvents_wf _ _ _ Hwf F1) S1 K1 A2 F2)
    as [(K2 & J1 & J2 & J3 & J4) S2].
  apply dict_no_keys in K2. rewrite <- J2 in A3.
  destruct (give_up_batch s2 reason _ _ _ _
    (foldEvents_wf _ _ _ (foldEvents_wf _ _ _ Hwf F1) F2) S2 J1 K2 A3 F3) as [(K3 & L1 & L2 & L3 & L4) S3].
  apply dict_no_keys in K3.
  inversion A4 as [|? ? ? env ? [_ Ek _ Ec Hown] _ Hnil]; subst. inversion Hnil; subst.
  unfold foldEvents in F4. simpl in F4. apply res_bind_Ok in F4 as (s4 & F4 & Heq). injection Heq as ->.
  unfold same_turn in *.
  destruct (turn_closed_folds s3 env st' turn) as (T1 & T2 & T3 & T4 & T5 & T6);
    [by rewrite Ek | by apply Hown | intuition congruence | by rewrite Ec | done |].
  rewrite T1, T2, T3, T4, T5. repeat split; try done.
  intros k Hk. destruct (I4 k Hk) as [Hin|Hin]; [by rewrite K1 in Hin|].
  unfold answered in *. by rewrite T6, L4, J4.
Qed.

(** Folding the cleanup of an interrupted turn. *)
Lemma cleanup_folds st reason turn envs st' :
  wf_state st -> st.(openTurn) = Some turn ->
  appended st.(selfId) st.(lastSeq) (interruptCleanupItems st reason) envs ->
  foldEvents st envs = Ok st' ->
  st'.(openTurn) = None /\ st'.(inFlightModelCall) = None /\ st'.(pendingInvocations) = [] /\
  st'.(pendingApprovals) = [] /\ st'.(pendingCredentialWaits) = [] /\
  (forall k, In k (dict_keys st.(pendingInvocations)) -> answered k st' = true).
Proof.
  intros Hwf Hturn Ha. unfold interruptCleanupItems in Ha. rewrite Hturn in Ha.
  by eapply (cleanup_batches st _ _ _ _ turn); [apply cancelled_ends|..|exact Ha].
Qed.

(** * Read acks *)

(** An effect a step publishes without a trace in the log is a read ack, and is named so. *)
Definition ack_named (effect : EffectDescriptor) : Prop :=
  effect_kind effect = KPublishEnvelope -> exists s, effectId effect = "read:" ^^ s.

Definition acks_named (out : StepOutput) : Prop := Forall ack_named out.(so_effects).

(** A result whose output, when there is one, names its acks. *)
Definition named_result (r : res StepOutput) : Prop := match r with Ok out => acks_named out | Throw _ => True end.

Definition named_option (r : res (option StepOutput)) : Prop :=
  match r with Ok (Some out) => acks_named out | _ => True end.

Lemma named_bind {A} (m : res A) (k : A -> res StepOutput) : (forall a, named_result (k a)) -> named_result (res_bind m k).
Proof. by destruct m; simpl. Qed.

Lemma named_then (m : res StepOutput) (k : StepOutput -> res StepOutput) :
  named_result m -> (forall out, acks_named out -> named_result (k out)) -> named_result (res_bind m k).
Proof. destruct m; simpl; auto. Qed.

Lemma no_effects_named items : acks_named {| so_append := items; so_effects := [] |}.
Proof. constructor. Qed.

Lemma readAcks_named st bound fresh turnId ctx : Forall ack_named (readAckEffects st bound fresh turnId ctx).
Proof.
  unfold readAckEffects. induction (consumedMessages st bound fresh) as [|m l IH]; simpl; [constructor|].
  constructor; [|done]. intros _. exists (m ^^ ":" ^^ turnId). reflexivity.
Qed.

Lemma model_call_named items e acks : Forall ack_named acks -> acks_named {| so_append := items; so_effects := EModelCall e :: acks |}.
Proof. by constructor. Qed.

Lemma invocation_not_ack st i : ack_named (invocationEffect st i).
Proof. unfold ack_named, invocationEffect. by repeat case_match. Qed.

Create HintDb acks.
#[local] Hint Resolve readAcks_named no_effects_named model_call_named : acks.

(** The branches of a step. *)
Ltac name_acks :=
  repeat match goal with
    | |- True => exact Logic.I
    | |- named_result (Throw _) => exact Logic.I
    | |- named_result (Ok _) => cbn [named_result]
    | |- _ => solve [eauto with acks]
    | |- named_result (res_bind _ _) => (apply named_then; [solve [eauto with acks]|intros ? ?]) || (apply named_bind; intros ?)
    | |- _ => case_match
    end.

Lemma nextModelCall_named st before ctx fresh : named_result (nextModelCall st before ctx fresh).
Proof. unfold nextModelCall. name_acks. Qed.

Lemma promoteTrigger_named st ctx pre envelopeId metadata fresh : named_result (promoteTrigger st ctx pre envelopeId metadata fresh).
Proof. unfold promoteTrigger. name_acks. Qed.
#[local] Hint Resolve nextModelCall_named promoteTrigger_named : acks.

Lemma promotePendingPrompt_named st ctx pre : named_result (promotePendingPrompt st ctx pre).
Proof. unfold promotePendingPrompt. name_acks. Qed.

Lemma promoteSteersAsTurn_named st ctx : named_result (promoteSteersAsTurn st ctx).
Proof. unfold promoteSteersAsTurn. name_acks. Qed.
#[local] Hint Resolve promotePendingPrompt_named promoteSteersAsTurn_named : acks.

Lemma promoteDeferredHead_named st head ctx : named_result (promoteDeferredHead st head ctx).
Proof. unfold promoteDeferredHead. name_acks. Qed.

Lemma expandFrom_named st calls messageId attemptId turnId now : forall projected,
  named_result (expandFrom st projected calls messageId attemptId turnId now).
Proof.
  induction calls as [|b calls IH]; intros projected; cbn [expandFrom]; [constructor|].
  apply named_bind. intros p. case_match; [|exact Logic.I]. apply named_then; [apply IH|].
  intros out Hout. constructor; [apply invocation_not_ack|done].
Qed.

Lemma expandToolCalls_named st calls messageId turnId ctx : named_result (expandToolCalls st calls messageId turnId ctx).
Proof. apply expandFrom_named. Qed.
#[local] Hint Resolve promoteDeferredHead_named expandToolCalls_named : acks.

Lemma prepend_named items out : acks_named out -> acks_named (prepend items out).
Proof. done. Qed.
#[local] Hint Resolve prepend_named : acks.

Lemma steerStep_named st command ctx : named_result (steerStep st command ctx).
Proof. unfold steerStep. name_acks. Qed.

#[local] Hint Resolve steerStep_named : acks.

Lemma promptStep_named st command ctx : named_result (promptStep st command ctx).
Proof. unfold promptStep. name_acks. Qed.

Lemma flushStep_named st ctx : named_option (flushStep st ctx).
Proof.
  assert (Hl : forall r, named_result r -> named_option (let! out := r in Ok (Some out))) by (intros r; by destruct r).
  unfold flushStep. repeat case_match; try exact Logic.I; try (apply Hl; eauto with acks); apply no_effects_named.
Qed.

Lemma interruptStep_named st reason ctx : named_result (interruptStep st reason ctx).
Proof. unfold interruptStep. name_acks. Qed.

Lemma wakeContinue_named st append ctx : named_result (wakeContinue st append ctx).
Proof. unfold wakeContinue. name_acks. Qed.
#[local] Hint Resolve interruptStep_named wakeContinue_named : acks.

Lemma wakeStep_named st ctx : named_result (wakeStep st ctx).
Proof. unfold wakeStep. name_acks. Qed.

Lemma resumeAfterResetStep_named st messageId resetAt ctx : named_result (resumeAfterResetStep st messageId resetAt ctx).
Proof. unfold resumeAfterResetStep. name_acks. Qed.
#[local] Hint Resolve promptStep_named wakeStep_named resumeAfterResetStep_named : acks.

Lemma commandStep_named st command ctx : named_result (commandStep st command ctx).
Proof.
  assert (Hf : named_result (let! flushed := flushStep st ctx in
                             match flushed with Some out => Ok out | None => interruptStep st "user_interrupted" ctx end)).
  { pose proof (flushStep_named st ctx) as Hf. destruct (flushStep st ctx) as [[out|]|]; cbn [res_bind]; eauto with acks. }
  assert (Hc : acks_named (compactStep st)) by (unfold compactStep; case_match; apply no_effects_named).
  destruct command; cbn [commandStep]; name_acks.
Qed.

Lemma eventStep_named st env ctx : named_result (eventStep st env ctx).
Proof.
  assert (H1 : forall p, acks_named (approvalResolvedStep st p (env_causalityRecord env))).
  { intros p. unfold approvalResolvedStep. repeat case_match; try apply no_effects_named. constructor; [apply invocation_not_ack|constructor]. }
  unfold eventStep, assistantCompletedStep, turnClosedStep, messageFailedStep, invocationTerminalStep, systemEventStep.
  name_acks.
Qed.

Lemma effectFailedStep_named `{ModelFailureClassifier} st effectId kind error ctx : acks_named (effectFailedStep st effectId kind error ctx).
Proof.
  unfold effectFailedStep, modelCallFailedStep, waitFailedStep, closeFailed, approvalFailedStep,
    unmappedFailedStep, invocationFailedStep.
  repeat case_match; apply no_effects_named.
Qed.

Lemma coreStep_named `{ModelFailureClassifier} st incoming ctx : named_result (coreStep st incoming ctx).
Proof. destruct incoming; cbn [coreStep]; [apply commandStep_named|apply eventStep_named|apply effectFailedStep_named]. Qed.
