(* ===== verification/AgentStepProps.v ===== *)
(** Properties of the step: reconstructible effects, single flight, the model
    call budget, redelivery, and the cleanup of an interrupted turn. *)
From S2P Require Import Prelude Dict JsValue JsText AgentIds AgentState AgentFold AgentFoldLaws.
From S2P Require Import AgentEffects AgentStep AgentScenario AgentSamples.
From S2P Require Import AgentStepLaws.
#[local] Open Scope Z_scope.

(** * Grants that do not free their invocation *)

(** An appended grant that names a pending invocation the fold leaves gated: its
    approval id is not one the fold knows, or is of another invocation. *)
Definition stray_grant (st : AgentState) (incoming : Incoming) : bool :=
  match incoming with
  | IEventAppended env =>
      (env.(env_payloadKind) =s? "approval.resolved") && is_true env.(env_payload).!"granted"
      && match dict_get (causality_id "invocationId" env.(env_causality)) st.(pendingInvocations) with
         | Some i => gated i
         | None => false
         end
  | _ => false
  end.

Lemma coreStep_backed `{ModelFailureClassifier} st incoming ctx out :
  wf_state st -> stray_grant st incoming = false -> coreStep st incoming ctx = Ok out ->
  backed st out.
Proof.
  destruct incoming as [c|env|id kind error attempts]; simpl; intros Hwf Hg H0.
  - by eapply commandStep_backed.
  - eapply eventStep_backed; [done | | exact H0].
    intros Hk Hgr i Hi. by rewrite Hk, Hgr, Hi in Hg.
  - injection H0 as <-. apply effectFailedStep_backed.
Qed.

(** Folding a grant of a pending approval under its own invocation frees it: such
    an event is never a stray grant. *)
Lemma known_grant_not_stray st0 env st a :
  isForeignAuthor st0 env = false ->
  dict_get (causality_id "approvalId" env.(env_causality)) st0.(pendingApprovals) = Some a ->
  a.(pa_invocationId) = causality_id "invocationId" env.(env_causality) ->
  applyEvent st0 env = Ok st -> stray_grant st (IEventAppended env) = false.
Proof.
  intros Hf Ha Hi H. simpl. destruct (String.eqb_spec (env_payloadKind env) "approval.resolved") as [Hk|]; [|done].
  destruct (is_true _) eqn:Hg; [|done]. simpl. destruct (dict_get _ (pendingInvocations st)) as [i|] eqn:E; [|done].
  by apply (approval_resolved_frees st0 env st a Hf Ha Hi H Hk Hg).
Qed.

(** The derived effect of an invocation is one of an invocation that is not gated. *)
Lemma derived_invocation st d id :
  wf_state st -> In d (derivePendingEffects st) -> effectId d = ids.invocationEffect id ->
  exists i, dict_get id st.(pendingInvocations) = Some i /\ gated i = false.
Proof.
  intros Hwf Hin Hid. unfold derivePendingEffects in Hin. rewrite !in_app_iff, !in_map_iff in Hin.
  destruct Hin as [Hin|[(i & <- & Hin)|[(a & <- & _)|(w & <- & _)]]].
  - destruct (inFlightModelCall st); [|done]. destruct Hin as [<-|[]]. discriminate Hid.
  - apply filter_In in Hin as [Hin Hg]. apply negb_true_iff in Hg. exists i. split; [|done].
    assert (Hi : pi_invocationId i = id).
    { unfold invocationEffect in Hid. repeat case_match; simpl in Hid; unfold ids.invocationEffect in Hid;
        by injection Hid. }
    destruct (dict_value_get i _ (wf_invocations st Hwf) Hin) as [k Hk]. rewrite <- Hi.
    by rewrite (wf_invocation_ids st Hwf k i (dict_get_In _ _ _ Hk)).
  - discriminate Hid.
  - discriminate Hid.
Qed.

(** The step of a stray grant dispatches the invocation, and no reconciler would. *)
Lemma stray_grant_step `{ModelFailureClassifier} st incoming ctx out :
  wf_state st -> stray_grant st incoming = true -> coreStep st incoming ctx = Ok out ->
  exists e, out = {| so_append := []; so_effects := [e] |} /\
    forall d, In d (derivePendingEffects st) -> effectId d <> effectId e.
Proof.
  destruct incoming as [c|env|id kind error attempts]; try done. simpl. intros Hwf Hs H0.
  rewrite !andb_true_iff in Hs. destruct Hs as [[Hk%String.eqb_eq Hg] Hi].
  unfold eventStep in H0. rewrite Hk in H0. simpl in H0.
  unfold approvalResolvedStep in H0. rewrite causality_id_record in H0.
  destruct (dict_get _ (pendingInvocations st)) as [i|] eqn:Ei; [|done].
  replace ((if is_object (env_payload env) then env_payload env else VObj []) .!"granted")
    with ((env_payload env).!"granted") in H0 by (by destruct (env_payload env)).
  rewrite Hg in H0. injection H0 as <-. eexists. split; [reflexivity|].
  intros d Hd Hid. destruct (derived_invocation st d (pi_invocationId i) Hwf Hd) as (j & Hj & Hgj).
  - rewrite Hid. unfold invocationEffect. by repeat case_match.
  - rewrite (wf_invocation_ids st Hwf _ i (dict_get_In _ _ _ Ei)) in Hj. congruence.
Qed.

(** * Starting model calls *)

Definition is_model_call (effect : EffectDescriptor) : bool :=
  bool_decide (effect_kind effect = KModelCall).

Definition is_call_start (item : AppendItem) : bool := item.(ai_payloadKind) =s? "message.started".

(** The output starts no model call. *)
Definition quiet (out : StepOutput) : bool :=
  negb (existsb is_model_call out.(so_effects)) && negb (existsb is_call_start out.(so_append)).

Lemma quiet_starts_nothing out : quiet out = true ->
  (forall e, In e out.(so_effects) -> effect_kind e <> KModelCall) /\
  (forall item, In item out.(so_append) -> item.(ai_payloadKind) <> "message.started").
Proof.
  unfold quiet. rewrite andb_true_iff, !negb_true_iff. intros [H1 H2]. split.
  - intros e He Hk. rewrite <- not_true_iff_false, existsb_exists in H1. apply H1.
    exists e. split; [done|]. by apply bool_decide_eq_true_2.
  - intros i Hi Hk. rewrite <- not_true_iff_false, existsb_exists in H2. apply H2.
    exists i. split; [done|]. by apply String.eqb_eq.
Qed.

Lemma interruptCleanupItems_no_start st reason :
  existsb is_call_start (interruptCleanupItems st reason) = false.
Proof.
  unfold interruptCleanupItems. rewrite !existsb_app.
  assert (Hmap : forall {A} (f : A -> AppendItem) l, (forall x, is_call_start (f x) = false) ->
    existsb is_call_start (map f l) = false).
  { intros A f l Hf. induction l; simpl; [done|]. by rewrite Hf. }
  rewrite !Hmap by done. by destruct (openTurn st).
Qed.

Lemma expandFrom_quiet st projected calls messageId attemptId turnId now out :
  expandFrom st projected calls messageId attemptId turnId now = Ok out -> quiet out = true.
Proof.
  revert projected out; induction calls as [|b calls IH]; intros projected out H; simpl in H.
  { by injection H as <-. }
  apply res_bind_Ok in H as (p1 & _ & H). destruct (dict_get _ _) as [i|]; [|done].
  apply res_bind_Ok in H as (o & Ho & H). injection H as <-. apply IH in Ho.
  unfold quiet in *. simpl. replace (is_model_call (invocationEffect p1 i)) with false; [done|].
  unfold invocationEffect. by repeat case_match.
Qed.

Lemma expandToolCalls_quiet st calls messageId turnId ctx out :
  expandToolCalls st calls messageId turnId ctx = Ok out -> quiet out = true.
Proof. unfold expandToolCalls. apply expandFrom_quiet. Qed.

Lemma quiet_items items : existsb is_call_start items = false ->
  quiet {| so_append := items; so_effects := [] |} = true.
Proof. unfold quiet. simpl. by intros ->. Qed.

Lemma wakeGuard_busy st call : st.(inFlightModelCall) = Some call -> wakeGuardSatisfied st = false.
Proof. unfold wakeGuardSatisfied. by intros ->. Qed.

Ltac quiet_solve :=
  repeat case_match; res_inv; subst; simplify_eq/=;
  try (apply quiet_items, interruptCleanupItems_no_start); try reflexivity; try congruence.

Section Busy.
Context (st : AgentState) (call : InFlightModelCall) (turn : OpenTurn).
Context (Hcall : st.(inFlightModelCall) = Some call) (Hturn : st.(openTurn) = Some turn).

Lemma steerStep_busy c ctx out : steerStep st c ctx = Ok out -> quiet out = true.
Proof. unfold steerStep. rewrite Hturn, Hcall. simpl. rewrite andb_false_r. simpl. intros H. quiet_solve. Qed.

Lemma commandStep_busy c ctx out : c <> CWake -> commandStep st c ctx = Ok out -> quiet out = true.
Proof.
  intros Hw H. destruct c; simpl in H; try done; try (by injection H as <-).
  - unfold promptStep in H. rewrite Hturn in H. simpl in H. rewrite andb_true_r in H.
    repeat case_match; [by injection H as <-.. | by eapply steerStep_busy].
  - by eapply steerStep_busy.
  - unfold interruptStep, flushStep in H. rewrite Hturn, Hcall in H. simpl in H. quiet_solve.
  - unfold interruptStep in H. rewrite Hturn, Hcall in H. simpl in H. quiet_solve.
  - injection H as <-. unfold compactStep. by destruct (entries st).
  - unfold resumeAfterResetStep in H. rewrite Hturn, Hcall in H. simpl in H.
    rewrite orb_true_r in H. quiet_solve.
Qed.

(** An assistant message without tool calls, completed while steers are queued. *)
Definition answers_steers (incoming : Incoming) : bool :=
  match incoming with
  | IEventAppended env =>
      let payload := env.(env_payload) in
      (env.(env_payloadKind) =s? "message.completed") && is_lit payload.!"role" "assistant"
      && negb ((str_or "completed" payload.!"outcome" =s? "interrupted") || turn.(ot_interrupted))
      && negb (nonempty (toolCallBlocks (arr_or_nil payload.!"blocks")))
      && nonempty st.(steeringQueue)
  | _ => false
  end.

Lemma completedStep_busy payload causality ctx out :
  assistantCompletedStep st payload causality ctx = Ok out ->
  if negb ((str_or "completed" payload.!"outcome" =s? "interrupted") || turn.(ot_interrupted))
     && negb (nonempty (toolCallBlocks (arr_or_nil payload.!"blocks"))) && nonempty st.(steeringQueue)
  then nextModelCall st 0 ctx [] = Ok out else quiet out = true.
Proof.
  unfold assistantCompletedStep. rewrite Hturn, (wakeGuard_busy st call Hcall), andb_false_r. simpl.
  destruct (_ || ot_interrupted turn); simpl.
  { intros [= <-]. apply quiet_items, interruptCleanupItems_no_start. }
  destruct (toolCallBlocks _); simpl; [|apply expandToolCalls_quiet].
  destruct (nonempty _); [done|]. by intros [= <-].
Qed.

Lemma eventStep_busy env ctx out :
  eventStep st env ctx = Ok out ->
  if answers_steers (IEventAppended env) then nextModelCall st 0 ctx [] = Ok out else quiet out = true.
Proof.
  intros H. unfold eventStep in H. simpl.
  destruct (String.eqb_spec (env_payloadKind env) "message.completed") as [Hc|_]; simpl in *.
  { assert (Hp : forall k, (if is_object (env_payload env) then env_payload env else VObj []).!k
                           = (env_payload env).!k) by (by destruct (env_payload env)).
    rewrite Hp in H. destruct (is_lit _ "assistant"); simpl in *.
    - apply completedStep_busy in H. by rewrite !Hp in H.
    - rewrite Hc in H. simpl in H. by injection H as <-. }
  unfold turnClosedStep, messageFailedStep, invocationTerminalStep, systemEventStep,
    approvalResolvedStep in H.
  rewrite Hturn, (wakeGuard_busy st call Hcall), Hcall in H. simpl in H.
  rewrite ?orb_true_r, ?andb_false_r in H. simpl in H. quiet_solve.
  unfold quiet, invocationEffect. simpl. by repeat case_match.
Qed.

Lemma wakeStep_busy ctx out :
  wakeStep st ctx = Ok out -> exists rest, out.(so_append) = orphanItem call :: rest.
Proof.
  unfold wakeStep, wakeContinue. rewrite Hcall. intros H.
  apply res_bind_Ok in H as (st1 & _ & H).
  assert (Hpp : forall p o, promotePendingPrompt st1 ctx p = Ok o ->
    exists rest, o.(so_append) = p ++ rest).
  { unfold promotePendingPrompt, promoteTrigger. intros p o Ho.
    destruct (pendingPrompt st1); [|done]. apply res_bind_Ok in Ho as ([? ?] & _ & Ho).
    injection Ho as <-. by eexists. }
  repeat case_match; res_inv; subst; try (by eexists); by apply Hpp in H.
Qed.
End Busy.

Lemma effectFailedStep_quiet `{ModelFailureClassifier} st id kind error ctx :
  quiet (effectFailedStep st id kind error ctx) = true.
Proof.
  unfold effectFailedStep, modelCallFailedStep, waitFailedStep, closeFailed, approvalFailedStep,
    unmappedFailedStep, invocationFailedStep. by repeat case_match.
Qed.

(** * The budget *)

Definition calls_below (n : Z) (out : StepOutput) : Prop :=
  forall e, In (EModelCall e) out.(so_effects) ->
  exists turnId k, e.(mc_messageId) = ids.messageId turnId k /\ k < n.

Lemma calls_below_none n out :
  existsb is_model_call out.(so_effects) = false -> calls_below n out.
Proof.
  intros Hn e Hin. exfalso. assert (existsb is_model_call out.(so_effects) = true); [|congruence].
  apply existsb_exists. exists (EModelCall e). split; [done|]. by apply bool_decide_eq_true_2.
Qed.

Lemma quiet_calls_below n out : quiet out = true -> calls_below n out.
Proof. unfold quiet. intros [H _]%andb_prop. apply calls_below_none. by destruct (existsb _ _). Qed.

Lemma readAckEffects_In_model st bound fresh turnId ctx e :
  ~ In (EModelCall e) (readAckEffects st bound fresh turnId ctx).
Proof.
  unfold readAckEffects. rewrite in_map_iff. intros (m & Hm & _). unfold readAckEffect in Hm. done.
Qed.

Lemma modelStart_calls_below st0 st1 n turnId k before item effect items bound fresh t ctx :
  modelStartItems st0 turnId k before = Ok (item, effect) -> k < n ->
  calls_below n {| so_append := items;
                   so_effects := EModelCall effect :: readAckEffects st1 bound fresh t ctx |}.
Proof.
  intros Hm Hk e [He|He]; [|by apply readAckEffects_In_model in He]. injection He as <-.
  exists turnId, k. split; [|done].
  unfold modelStartItems in Hm. apply res_bind_Ok in Hm as ([? ?] & _ & Hm). by injection Hm as _ <-.
Qed.

Lemma nextModelCall_calls_below st n before ctx fresh out pre :
  maxModelCallsPerTurn st = Some n -> nextModelCall st before ctx fresh = Ok out ->
  calls_below n (prepend pre out).
Proof.
  unfold nextModelCall. intros -> H. destruct (openTurn st) as [turn|]; [|done].
  destruct (Z.leb_spec n (ot_modelCallCount turn)) as [Hle|Hlt].
  - injection H as <-. by apply calls_below_none.
  - apply res_bind_Ok in H as ([item effect] & Hm & H). injection H as <-.
    by eapply modelStart_calls_below.
Qed.

Lemma promoteTrigger_calls_below st n ctx pre envelopeId metadata fresh out :
  0 < n -> promoteTrigger st ctx pre envelopeId metadata fresh = Ok out -> calls_below n out.
Proof.
  unfold promoteTrigger. intros Hn H. apply res_bind_Ok in H as ([item effect] & Hm & H).
  injection H as <-. by eapply modelStart_calls_below.
Qed.

Lemma maxModelCalls_positive st n : maxModelCallsPerTurn st = Some n -> 0 < n.
Proof.
  unfold maxModelCallsPerTurn. repeat case_match; intros; simplify_eq/=. lia.
Qed.

Lemma orphan_keeps_config st call now st1 :
  projectAppend st (match call with Some c => [orphanItem c] | None => [] end) now = Ok st1 ->
  st1.(config) = st.(config).
Proof.
  unfold projectAppend. destruct call; simpl; intros H; [|by injection H as <-].
  injection H as <-. unfold applyEvent. simpl. unfold fold_message_failed.
  by repeat case_match.
Qed.

Section Budget.
Context (n : Z) (ctx : StepContext).

Ltac below :=
  repeat case_match; res_inv; subst; simplify_eq/=;
  eauto using nextModelCall_calls_below, promoteTrigger_calls_below, maxModelCalls_positive;
  try (apply calls_below_none; reflexivity).

Lemma nextModelCall_alone_below st before fresh out :
  maxModelCallsPerTurn st = Some n -> nextModelCall st before ctx fresh = Ok out -> calls_below n out.
Proof. intros Hm H. rewrite <- (prepend_nil out). by eapply nextModelCall_calls_below. Qed.

Lemma steerStep_below st c out :
  maxModelCallsPerTurn st = Some n -> steerStep st c ctx = Ok out -> calls_below n out.
Proof.
  unfold steerStep. intros Hm H. below.
  change {| so_append := ?r :: ?n.(so_append); so_effects := _ |} with (prepend [r] n).
  eauto using nextModelCall_calls_below.
Qed.

Lemma promotions_below st pre out :
  maxModelCallsPerTurn st = Some n ->
  (promoteSteersAsTurn st ctx = Ok out -> calls_below n out) /\
  (forall st', promotePendingPrompt st' ctx pre = Ok out -> calls_below n out) /\
  (forall head, promoteDeferredHead st head ctx = Ok out -> calls_below n out).
Proof.
  intros Hm%maxModelCalls_positive.
  unfold promoteSteersAsTurn, promoteDeferredHead, promotePendingPrompt. split; [|split].
  - intros H. below.
  - intros st' H. below.
  - intros head H. apply res_bind_Ok in H as (st1 & _ & H). below.
Qed.

Lemma promptStep_below st c out :
  maxModelCallsPerTurn st = Some n -> promptStep st c ctx = Ok out -> calls_below n out.
Proof.
  unfold promptStep. intros Hm H.
  do 3 (case_match; [below; eauto using steerStep_below; fail|]).
  apply res_bind_Ok in H as ([item effect] & Hs & H). injection H as <-.
  eapply modelStart_calls_below; [exact Hs | by eapply maxModelCalls_positive].
Qed.

Lemma flushStep_below st out :
  maxModelCallsPerTurn st = Some n -> flushStep st ctx = Ok (Some out) -> calls_below n out.
Proof.
  unfold flushStep. intros Hm H. destruct (promotions_below st [] out Hm) as (P1 & P2 & P3).
  repeat case_match; res_inv; subst; simplify_eq/=;
    eauto using nextModelCall_alone_below; apply calls_below_none; reflexivity.
Qed.

Lemma interruptStep_below st reason out : interruptStep st reason ctx = Ok out -> calls_below n out.
Proof. unfold interruptStep. intros H. below. Qed.

Lemma wakeStep_below st out :
  maxModelCallsPerTurn st = Some n -> wakeStep st ctx = Ok out -> calls_below n out.
Proof.
  unfold wakeStep, wakeContinue. intros Hm H. apply res_bind_Ok in H as (st1 & Hp & H).
  apply orphan_keeps_config in Hp.
  assert (Hm1 : maxModelCallsPerTurn st1 = Some n) by (unfold maxModelCallsPerTurn in *; by rewrite Hp).
  destruct (promotions_below st1
    (match inFlightModelCall st with Some c => [orphanItem c] | None => [] end) out Hm1) as (_ & P2 & _).
  repeat case_match; res_inv; subst; eauto using nextModelCall_calls_below;
    try (apply calls_below_none; reflexivity);
    try (match goal with E : expandToolCalls _ _ _ _ _ = Ok _ |- _ =>
           apply expandToolCalls_quiet, (quiet_calls_below n) in E; exact E end).
Qed.

Lemma eventStep_below st env out :
  maxModelCallsPerTurn st = Some n -> eventStep st env ctx = Ok out -> calls_below n out.
Proof.
  intros Hm H. destruct (promotions_below st [] out Hm) as (P1 & P2 & P3).
  unfold eventStep, assistantCompletedStep, turnClosedStep, messageFailedStep, invocationTerminalStep,
    approvalResolvedStep, systemEventStep in H.
  repeat case_match; res_inv; subst;
    eauto using nextModelCall_alone_below, quiet_calls_below;
    try (apply calls_below_none; reflexivity);
    eauto using expandToolCalls_quiet, quiet_calls_below.
  all: apply calls_below_none; simpl; unfold invocationEffect; by repeat case_match.
Qed.

Lemma commandStep_below st c out :
  maxModelCallsPerTurn st = Some n -> commandStep st c ctx = Ok out -> calls_below n out.
Proof.
  intros Hm H. destruct c; simpl in H;
    eauto using promptStep_below, steerStep_below, interruptStep_below, wakeStep_below;
    try (injection H as <-; by apply calls_below_none).
  - repeat case_match; eauto using interruptStep_below. apply res_bind_Ok in H as (o & Ho & H).
    destruct o; [injection H as <-; by eapply flushStep_below | by eapply interruptStep_below].
  - injection H as <-. unfold compactStep. by destruct (entries st); apply calls_below_none.
  - unfold resumeAfterResetStep in H. below.
Qed.

Lemma effectFailedStep_below `{ModelFailureClassifier} st id kind error :
  calls_below n (effectFailedStep st id kind error ctx).
Proof. apply quiet_calls_below, effectFailedStep_quiet. Qed.
End Budget.

(** * Redelivery *)

(** The recorded user message with the given envelope id. *)
Definition user_entry_at (id : string) (entry : val) : bool :=
  is_lit entry.!"kind" "user" && is_lit entry.!"envelopeId" id.

(** Events that neither rewrite the session nor take messages out of it. *)
Definition keeps_entries (env : LogEnvelope) : bool :=
  (env.(env_payloadKind) <>s? "message.retracted")
  && (env.(env_payloadKind) <>s? "system.compaction_recorded").

Lemma edit_entry_kept id blocks id' entry :
  user_entry_at id' entry = true -> user_entry_at id' (edit_entry id blocks entry) = true.
Proof.
  unfold edit_entry, user_entry_at. case_match; [|done].
  rewrite !js_get_obj, !dict_get_set_ne by done. by destruct entry.
Qed.

Lemma applyEvent_keeps_user_entry st env st' id :
  keeps_entries env = true -> applyEvent st env = Ok st' ->
  existsb (user_entry_at id) st.(entries) = true -> existsb (user_entry_at id) st'.(entries) = true.
Proof.
  unfold keeps_entries. intros Hk H He.
  assert (Happ : forall l, existsb (user_entry_at id) (st.(entries) ++ l) = true)
    by (intros l; by rewrite existsb_app, He).
  event_cases H; subst; unfold_cases; kind_known; try discriminate Hk;
    repeat (case_match; simplify_eq/=; try done); try exact He.
  apply existsb_exists in He as (e & He & Hu). apply existsb_exists.
  eexists; split; [by apply in_map | by apply edit_entry_kept].
Qed.

Lemma foldEvents_keeps_user_entry st envs st' id :
  forallb keeps_entries envs = true -> foldEvents st envs = Ok st' ->
  existsb (user_entry_at id) st.(entries) = true -> existsb (user_entry_at id) st'.(entries) = true.
Proof.
  unfold foldEvents. revert st; induction envs as [|env envs IH]; intros st Hk H He; simpl in *.
  - by injection H as <-.
  - apply andb_true_iff in Hk as [Hk1 Hk2]. apply res_bind_Ok in H as (st1 & H1 & H2).
    eauto using applyEvent_keeps_user_entry.
Qed.

Lemma ingested_by_entry st id :
  existsb (user_entry_at id) st.(entries) = true -> alreadyIngested st id = true.
Proof. unfold alreadyIngested. intros H. apply orb_true_iff. right. exact H. Qed.

Lemma recvItem_metadata c :
  (recvItem c).(ai_payload).!"metadata"
  = if truthy c.(pc_metadata) then c.(pc_metadata) else VUndef.
Proof.
  unfold recvItem, opt_field. cbn [ai_payload]. destruct (truthy (pc_metadata c)); [reflexivity|].
  simpl. by destruct (truthy (of_ostr (pc_sourceMessageId c))).
Qed.

Lemma metadata_field m k :
  js_get k (if is_record (if truthy m then m else VUndef) then (if truthy m then m else VUndef) else VUndef)
  = js_get k m.
Proof. destruct m as [| |[]|z|s| |]; simpl; try done; [by destruct (z =? 0) | by destruct (s =s? "")]. Qed.

Lemma user_entry_at_new seq id source sender content metadata :
  user_entry_at id (user_entry seq id source sender content metadata) = true.
Proof. unfold user_entry_at. simpl. by rewrite string_eqb_refl. Qed.

(** Folding the item of a received message records it, unless it is deferred. *)
Lemma recv_recorded st self c env :
  deliverAfterTurn c && isSome st.(openTurn) = false -> records self (recvItem c) env ->
  exists st', applyEvent st env = Ok st' /\
    existsb (user_entry_at (commandRecvId c)) st'.(entries) = true.
Proof.
  intros Hd [Hid Hk Hp Hc _].
  unfold applyEvent. rewrite Hk. simpl. unfold fold_message_completed.
  rewrite payloadRecord_get, Hp. simpl. unfold fold_user_completed.
  assert (Hdef : truthy (metadataFromPayload (payloadRecord env)).!"deliverAfterTurn"
                 && isSome (openTurn (withAdvance st env)) = false).
  { unfold metadataFromPayload. rewrite payloadRecord_get, Hp. unfold deliverAfterTurn in Hd.
    rewrite recvItem_metadata, metadata_field. exact Hd. }
  rewrite Hdef, Hid. eexists; split; [reflexivity|].
  destruct (openTurn (withAdvance st env)); simpl; rewrite existsb_app; simpl;
    by rewrite user_entry_at_new, orb_true_r.
Qed.

(** Folding it when it is deferred touches nothing a later prompt is compared with. *)
Lemma recv_deferred st self c env st1 :
  deliverAfterTurn c && isSome st.(openTurn) = true -> records self (recvItem c) env ->
  foldEvents st [env] = Ok st1 ->
  st1.(openTurn) = st.(openTurn) /\ forall id, alreadyIngested st1 id = alreadyIngested st id.
Proof.
  intros Hd [Hid Hk Hp Hc _] H. unfold foldEvents in H. simpl in H. apply res_bind_Ok in H as (s & H & [= <-]).
  unfold applyEvent in H. rewrite Hk in H. simpl in H. unfold fold_message_completed in H.
  rewrite payloadRecord_get, Hp in H. simpl in H. unfold fold_user_completed in H.
  assert (Hdef : truthy (metadataFromPayload (payloadRecord env)).!"deliverAfterTurn"
                 && isSome (openTurn (withAdvance st env)) = true).
  { unfold metadataFromPayload. rewrite payloadRecord_get, Hp. unfold deliverAfterTurn in Hd.
    rewrite recvItem_metadata, metadata_field. exact Hd. }
  rewrite Hdef in H. by injection H as <-.
Qed.

Definition keeps_item (item : AppendItem) : bool :=
  (item.(ai_payloadKind) <>s? "message.retracted")
  && (item.(ai_payloadKind) <>s? "system.compaction_recorded").

Lemma appended_keeps self seq items envs :
  appended self seq items envs -> forallb keeps_item items = true -> forallb keeps_entries envs = true.
Proof.
  induction 1 as [|seq item items env envs [_ Hk _ _ _] _ _ IH]; [done|]. simpl.
  intros [H1 H2]%andb_true_iff. rewrite IH by done. unfold keeps_entries. rewrite Hk.
  unfold keeps_item in H1. by rewrite H1.
Qed.

Lemma modelStartItems_keeps st t k b item effect :
  modelStartItems st t k b = Ok (item, effect) -> keeps_item item = true.
Proof.
  unfold modelStartItems. intros H. apply res_bind_Ok in H as ([? ?] & _ & H). by injection H as <- _.
Qed.

Lemma nextModelCall_keeps st b ctx fresh out :
  nextModelCall st b ctx fresh = Ok out -> forallb keeps_item out.(so_append) = true.
Proof.
  unfold nextModelCall. intros H. repeat case_match; res_inv; subst; simpl; try done.
  all: case_match; res_inv; subst; simpl;
    match goal with E : modelStartItems _ _ _ _ = Ok _ |- _ => apply modelStartItems_keeps in E; by rewrite E end.
Qed.

(** Ingesting a message appends its item first. *)
Lemma promptStep_recv st c ctx out :
  alreadyIngested st (commandRecvId c) = false -> promptStep st c ctx = Ok out ->
  exists rest, out.(so_append) = recvItem c :: rest /\ forallb keeps_item rest = true.
Proof.
  unfold promptStep, steerStep. intros Hi H.
  change (ai_envelopeId (recvItem c)) with (commandRecvId c) in H. rewrite Hi in H.
  repeat case_match; res_inv; subst; simpl; eauto using nextModelCall_keeps.
  repeat case_match. res_inv. subst. eexists; split; [reflexivity|]. simpl.
  by erewrite modelStartItems_keeps.
Qed.

Module Step.
(** C1: every effect a step emits can be rebuilt from the log, with one exact
    exception. In a well-formed state, as every folded one is, the appended batch
    always folds, and in the state it folds to the reconciler derives every emitted
    effect that is not a best-effort publication, so a crash between the append
    and the dispatch loses nothing. The exception is a grant that names a pending
    invocation which the fold leaves gated: there the step appends nothing and
    dispatches the invocation, and no derived effect has that id. *)
Theorem effects_reconstructible `{ModelFailureClassifier} st incoming ctx out envs :
  wf_state st -> coreStep st incoming ctx = Ok out ->
  appended st.(selfId) st.(lastSeq) out.(so_append) envs ->
  exists st', foldEvents st envs = Ok st' /\
    if stray_grant st incoming
    then st' = st /\ exists e, out = {| so_append := []; so_effects := [e] |} /\
           forall d, In d (derivePendingEffects st') -> effectId d <> effectId e
    else forall e, In e out.(so_effects) -> effect_kind e <> KPublishEnvelope ->
           exists d, In d (derivePendingEffects st') /\ effectId d = effectId e.
Proof.
  intros Hwf Hs Ha. destruct (stray_grant st incoming) eqn:Hg.
  { destruct (stray_grant_step st incoming ctx out Hwf Hg Hs) as (e & -> & He).
    inversion Ha; subst. exists st. split; [reflexivity|]. split; [done|]. by exists e. }
  destruct (coreStep_backed _ _ _ _ Hwf Hg Hs) as [Hf Hb].
  destruct (appended_folds _ _ _ _ st Ha Hf) as [st' Hst']. exists st'. split; [done|].
  intros e He Hk. specialize (Hb _ _ Ha Hst'). rewrite Forall_forall in Hb. specialize (Hb e He).
  unfold derivable, underivable in Hb. rewrite bool_decide_eq_false_2 in Hb by done. simpl in Hb.
  destruct (existsb _ _) eqn:Ex; [|done]. apply existsb_exists in Ex as (d & Hd & Hid).
  exists d. split; [done|]. by apply String.eqb_eq.
Qed.

Lemma effects_reconstructible_witness :
  let out := get_ok EMPTY (coreStep sample_initial (ICommand (CPrompt sample_prompt)) sample_ctx) in
  exists st', foldEvents sample_initial (recorded sample_initial 0 out.(so_append)) = Ok st' /\
    length out.(so_effects) = 2%nat.
Proof.
  destruct (effects_reconstructible sample_initial (ICommand (CPrompt sample_prompt)) sample_ctx
    (get_ok EMPTY (coreStep sample_initial (ICommand (CPrompt sample_prompt)) sample_ctx))
    (recorded sample_initial 0
       (get_ok EMPTY (coreStep sample_initial (ICommand (CPrompt sample_prompt)) sample_ctx)).(so_append)))
    as (st' & H1 & _).
  - exact sample_initial_wf.
  - vm_compute. reflexivity.
  - apply recorded_appended.
  - exists st'. split; [exact H1 | vm_compute; reflexivity].
Defined.

(** C2: one model call at a time, with one exact exception. While a call is in
    flight in an open turn, no command starts another, and no event does but one:
    an assistant message completed without tool calls while steers are queued.
    The call's own completion has been folded when the step runs, so the call is
    no longer in flight; but the step does not look at whose message it is, and
    on another's (a foreign agent's, or a stale one's) it goes on as after its own
    terminal: it starts the turn's next call. A wake, which finds a call nobody
    runs, settles it before anything else. *)
Theorem single_flight `{ModelFailureClassifier} st call turn incoming ctx out :
  st.(inFlightModelCall) = Some call -> st.(openTurn) = Some turn ->
  coreStep st incoming ctx = Ok out ->
  match incoming with
  | ICommand CWake => exists rest, out.(so_append) = orphanItem call :: rest
  | _ => if answers_steers st turn incoming then nextModelCall st 0 ctx [] = Ok out
         else (forall e, In e out.(so_effects) -> effect_kind e <> KModelCall) /\
              (forall item, In item out.(so_append) -> item.(ai_payloadKind) <> "message.started")
  end.
Proof.
  intros Hc Ht Hs. pose proof (quiet_starts_nothing out) as Hq.
  destruct incoming as [c|env|id kind error attempts]; simpl in Hs.
  - pose proof (commandStep_busy st call turn Hc Ht c ctx out) as Hbusy.
    destruct c; try (apply Hq, Hbusy; [discriminate | exact Hs]). by eapply wakeStep_busy.
  - apply (eventStep_busy st call turn Hc Ht) in Hs. destruct (answers_steers _ _ _); auto.
  - apply Hq. injection Hs as <-. apply effectFailedStep_quiet.
Qed.

Lemma single_flight_witness :
  let out := get_ok EMPTY (coreStep sample_running (ICommand (CSteer sample_steer)) sample_ctx) in
  length out.(so_append) = 1%nat /\
  (forall e, In e out.(so_effects) -> effect_kind e <> KModelCall).
Proof.
  split; [vm_compute; reflexivity|].
  destruct (inFlightModelCall sample_running) as [call|] eqn:Ecall; [|vm_compute in Ecall; discriminate].
  destruct (openTurn sample_running) as [turn|] eqn:Eturn; [|vm_compute in Eturn; discriminate].
  refine (proj1 (single_flight sample_running call turn (ICommand (CSteer sample_steer)) sample_ctx
    (get_ok EMPTY (coreStep sample_running (ICommand (CSteer sample_steer)) sample_ctx))
    Ecall Eturn _)); vm_compute; reflexivity.
Defined.

(** a configured budget of n model calls per turn bounds every call the step
    starts: its number within the turn, counted from 0, is below n. *)
Theorem budget_respected `{ModelFailureClassifier} st n incoming ctx out e :
  maxModelCallsPerTurn st = Some n -> coreStep st incoming ctx = Ok out ->
  In (EModelCall e) out.(so_effects) ->
  exists turnId k, e.(mc_messageId) = ids.messageId turnId k /\ k < n.
Proof.
  intros Hm Hs. revert e. destruct incoming as [c|env|id kind error attempts]; simpl in Hs.
  - by eapply commandStep_below.
  - by eapply eventStep_below.
  - injection Hs as <-. apply effectFailedStep_below.
Qed.

Lemma budget_respected_witness :
  let st := with_config (VObj (dict_set "maxModelCallsPerTurn" (VNum 1) (fields sample_config)))
              sample_initial in
  let out := get_ok EMPTY (coreStep st (ICommand (CPrompt sample_prompt)) sample_ctx) in
  maxModelCallsPerTurn st = Some 1 /\
  exists e, In (EModelCall e) out.(so_effects) /\
    exists turnId k, e.(mc_messageId) = ids.messageId turnId k /\ k < 1.
Proof.
  split; [reflexivity|].
  destruct (so_effects (get_ok EMPTY (coreStep
    (with_config (VObj (dict_set "maxModelCallsPerTurn" (VNum 1) (fields sample_config))) sample_initial)
    (ICommand (CPrompt sample_prompt)) sample_ctx))) as [|[e| | | | |] l] eqn:E;
    try (vm_compute in E; discriminate).
  exists e. split; [left; reflexivity|].
  apply (budget_respected
    (with_config (VObj (dict_set "maxModelCallsPerTurn" (VNum 1) (fields sample_config))) sample_initial)
    1 (ICommand (CPrompt sample_prompt)) sample_ctx
    (get_ok EMPTY (coreStep
      (with_config (VObj (dict_set "maxModelCallsPerTurn" (VNum 1) (fields sample_config))) sample_initial)
      (ICommand (CPrompt sample_prompt)) sample_ctx)) e);
    [reflexivity | vm_compute; reflexivity | rewrite E; left; reflexivity].
Defined.

(** C3: a redelivered message is not ingested twice, unless it was deferred. When
    the batch of a new prompt is folded and the prompt was taken into the session,
    every later prompt or steer with the same source envelope is a no-op, until
    its entry is retracted or the session is compacted. A prompt that asks for
    delivery after the turn and finds one open is only queued, and the step
    forgets it: the queue is not looked at, and a redelivery is recorded again. *)
Theorem redelivery_is_noop st c ctx out envs st1 :
  alreadyIngested st (commandRecvId c) = false ->
  commandStep st (CPrompt c) ctx = Ok out ->
  appended st.(selfId) st.(lastSeq) out.(so_append) envs -> foldEvents st envs = Ok st1 ->
  if deliverAfterTurn c && isSome st.(openTurn)
  then out = {| so_append := [recvItem c]; so_effects := [] |} /\
    forall c' ctx' out', commandRecvId c' = commandRecvId c ->
      commandStep st1 (CPrompt c') ctx' = Ok out' ->
      exists rest, out'.(so_append) = recvItem c' :: rest
  else forall later st2, forallb keeps_entries later = true -> foldEvents st1 later = Ok st2 ->
    forall c' ctx', commandRecvId c' = commandRecvId c ->
      commandStep st2 (CPrompt c') ctx' = Ok EMPTY /\ commandStep st2 (CSteer c') ctx' = Ok EMPTY.
Proof.
  intros Hi Hs Ha Hf. destruct (deliverAfterTurn c && isSome (openTurn st)) eqn:Hd.
  { simpl in Hs. unfold promptStep in Hs. rewrite Hi, Hd in Hs. injection Hs as <-. split; [done|].
    inversion Ha as [|? ? ? env envs' Hr _ Ha']; subst. inversion Ha'; subst.
    apply (recv_deferred st _ c env st1 Hd Hr) in Hf as [_ Hst].
    intros c' ctx' out' Hid Hs'. rewrite <- (Hst (commandRecvId c)), <- Hid in Hi.
    destruct (promptStep_recv _ _ _ _ Hi Hs') as (rest & Hrest & _). eauto. }
  destruct (promptStep_recv _ _ _ _ Hi Hs) as (rest & Happ & Hrest). rewrite Happ in Ha.
  inversion Ha as [|? ? ? env envs' Hr _ Ha']; subst.
  destruct (recv_recorded st _ c env Hd Hr) as (s & Hs1 & Hin).
  unfold foldEvents in Hf. simpl in Hf. rewrite Hs1 in Hf. simpl in Hf.
  assert (Hst1 : existsb (user_entry_at (commandRecvId c)) st1.(entries) = true)
    by eauto using foldEvents_keeps_user_entry, appended_keeps.
  intros later st2 Hl Hf2 c' ctx' Hid.
  assert (Hing : alreadyIngested st2 (commandRecvId c') = true).
  { apply ingested_by_entry. rewrite Hid. eauto using foldEvents_keeps_user_entry. }
  simpl. unfold promptStep, steerStep.
  change (ai_envelopeId (recvItem c')) with (commandRecvId c'). by rewrite Hing.
Qed.

Lemma redelivery_is_noop_witness :
  let out := get_ok EMPTY (commandStep sample_initial (CPrompt sample_prompt) sample_ctx) in
  let st1 := get_ok sample_initial (foldEvents sample_initial (recorded sample_initial 0 out.(so_append))) in
  length out.(so_append) = 3%nat /\ commandStep st1 (CPrompt sample_prompt) sample_ctx = Ok EMPTY.
Proof.
  split; [vm_compute; reflexivity|].
  refine (proj1 (redelivery_is_noop sample_initial sample_prompt sample_ctx
    (get_ok EMPTY (commandStep sample_initial (CPrompt sample_prompt) sample_ctx))
    (recorded sample_initial 0
      (get_ok EMPTY (commandStep sample_initial (CPrompt sample_prompt) sample_ctx)).(so_append))
    (get_ok sample_initial (foldEvents sample_initial (recorded sample_initial 0
      (get_ok EMPTY (commandStep sample_initial (CPrompt sample_prompt) sample_ctx)).(so_append))))
    _ _ _ _ [] _ _ _ sample_prompt sample_ctx eq_refl));
    try apply recorded_appended; vm_compute; reflexivity.
Defined.

(** C22: the cleanup of an interrupted turn leaves nothing behind: once its batch
    is folded no turn is open, nothing is pending and no effect is derivable, and
    every tool call that was pending has its result in the session, so the next
    model context is a valid one. *)
Theorem interrupt_cleanup_complete st reason turn envs :
  wf_state st -> st.(openTurn) = Some turn ->
  appended st.(selfId) st.(lastSeq) (interruptCleanupItems st reason) envs ->
  exists st', foldEvents st envs = Ok st' /\ st'.(openTurn) = None /\
    derivedTurnStatus st' = Idle /\ derivePendingEffects st' = [] /\
    (forall id, dict_has id st.(pendingInvocations) = true -> answered id st' = true).
Proof.
  intros Hwf Ht Ha.
  destruct (appended_folds _ _ _ _ st Ha (interruptCleanupItems_foldable st reason)) as [st' Hf].
  destruct (cleanup_folds st reason turn envs st' Hwf Ht Ha Hf) as (H1 & H2 & H3 & H4 & H5 & H6).
  exists st'. split; [done|]. split; [done|]. unfold derivedTurnStatus, derivePendingEffects.
  rewrite H1, H2, H3, H4, H5. split; [done|]. split; [done|].
  intros id Hid. by apply H6, dict_has_keys.
Qed.

Lemma interrupt_cleanup_complete_witness :
  exists st', foldEvents sample_waiting (recorded sample_waiting sample_waiting.(lastSeq)
      (interruptCleanupItems sample_waiting "user_interrupted")) = Ok st' /\
    derivePendingEffects st' = [] /\ answered "i1" st' = true.
Proof.
  destruct (openTurn sample_waiting) as [turn|] eqn:Et; [|vm_compute in Et; discriminate].
  destruct (interrupt_cleanup_complete sample_waiting "user_interrupted" turn
    (recorded sample_waiting sample_waiting.(lastSeq)
       (interruptCleanupItems sample_waiting "user_interrupted"))) as (st' & H1 & _ & _ & H2 & H3).
  - apply wf_stateb_spec. vm_compute. reflexivity.
  - exact Et.
  - apply recorded_appended.
  - exists st'. split; [exact H1|]. split; [exact H2|]. apply H3. vm_compute. reflexivity.
Defined.
End Step.
