(* ===== verification/AgentEffectsProps.v ===== *)
(** Properties of the pending effects: their identities, the approval gate on
    them, their agreement with the turn status, and how outcomes settle them. *)
From S2P Require Import Prelude Dict JsValue JsText AgentIds AgentState AgentFold AgentFoldLaws.
From S2P Require Import AgentEffects AgentStep AgentPolicies AgentScenario AgentSamples.
From S2P Require Import AgentStepLaws.
#[local] Open Scope Z_scope.

(** * The derived effects, one by one *)

Lemma derive_cases st d :
  In d (derivePendingEffects st) ->
  (exists call, st.(inFlightModelCall) = Some call /\ d = EModelCall (modelCallEffect st call)) \/
  (exists i, In i (dict_values st.(pendingInvocations)) /\ gated i = false /\ d = invocationEffect st i) \/
  (exists a, In a (dict_values st.(pendingApprovals)) /\ d = EChannelCall (approvalFormEffect st a)) \/
  (exists w, In w (dict_values st.(pendingCredentialWaits)) /\
             d = ECredentialWait (credentialWaitEffect st w)).
Proof.
  unfold derivePendingEffects. rewrite !in_app_iff, !in_map_iff.
  intros [H|[(i & <- & H)|[(a & <- & H)|(w & <- & H)]]].
  - left. destruct (inFlightModelCall st) as [call|]; [|done]. destruct H as [<-|[]]. eauto.
  - right; left. apply filter_In in H as [H1 H2%negb_true_iff]. eauto.
  - right; right; left. eauto.
  - right; right; right. eauto.
Qed.

Lemma invocationEffect_id st i : effectId (invocationEffect st i) = ids.invocationEffect i.(pi_invocationId).
Proof. unfold invocationEffect. by repeat case_match. Qed.

Lemma invocationEffect_invocation st i :
  effect_invocationId (invocationEffect st i) = Some i.(pi_invocationId).
Proof. unfold invocationEffect. by repeat case_match. Qed.

Lemma invocationEffect_not_form st i e :
  invocationEffect st i = EChannelCall e -> e.(cc_purpose) <> Some "approval-form".
Proof.
  unfold invocationEffect. repeat case_match; intros; simplify_eq/=.
  by destruct (truthy_ostr (pi_approvalId i)).
Qed.

(** Injectivity and disjointness of the effect id builders. *)
Lemma effect_ids_inj :
  (forall a b, ids.invocationEffect a = ids.invocationEffect b -> a = b) /\
  (forall a b, ids.approvalFormEffect a = ids.approvalFormEffect b -> a = b) /\
  (forall a b, ids.credentialWaitEffect a = ids.credentialWaitEffect b -> a = b).
Proof. repeat split; intros a b H; by apply string_app_inj_l in H. Qed.

Lemma effect_ids_disjoint a b c d :
  ids.modelEffect a <> ids.invocationEffect b /\ ids.modelEffect a <> ids.approvalFormEffect c /\
  ids.modelEffect a <> ids.credentialWaitEffect d /\
  ids.invocationEffect b <> ids.approvalFormEffect c /\
  ids.invocationEffect b <> ids.credentialWaitEffect d /\
  ids.approvalFormEffect c <> ids.credentialWaitEffect d.
Proof.
  unfold ids.modelEffect, ids.invocationEffect, ids.approvalFormEffect, ids.credentialWaitEffect.
  repeat split; intros H; rewrite !string_app_cons in H; discriminate.
Qed.

Lemma NoDup_keys_map {V} (key : V -> string) (f : string -> string) (d : dict V) :
  (forall a b, f a = f b -> a = b) -> dict_wf d -> dict_all (fun k v => key v = k) d ->
  NoDup (map (fun v => f (key v)) (dict_values d)).
Proof.
  intros Hf Hwf Hall.
  assert (Hk : map (fun v => f (key v)) (dict_values d) = map f (dict_keys d)).
  { unfold dict_values, dict_keys. rewrite !map_map. apply map_ext_in. intros [k v] Hin.
    simpl. f_equal. by apply Hall. }
  rewrite Hk. apply NoDup_fmap_2; [|done]. intros a b. apply Hf.
Qed.

Lemma filter_map_NoDup {A B} (f : A -> B) (p : A -> bool) l :
  NoDup (map f l) -> NoDup (map f (List.filter p l)).
Proof.
  induction l as [|x l IH]; simpl; [done|]. intros [Hx Hl]%list.NoDup_cons.
  destruct (p x); simpl; [|by auto]. apply list.NoDup_cons. split; [|by auto].
  rewrite list_elem_of_In, in_map_iff in *. intros (y & Hy & [Hin _]%filter_In). eauto.
Qed.

(** * Settling *)

(** The items an outcome turns into are folded one by one; there is at most one. *)
Lemma outcomeEvents_single `{ModelFailureClassifier} d outcome now items :
  outcomeEvents d outcome now = Ok items -> items = [] \/ exists item, items = [item] /\ foldable item = true.
Proof.
  unfold outcomeEvents, outcomeEvents_model, outcomeEvents_tool, outcomeEvents_approval,
    outcomeEvents_credential.
  intros Ho. repeat case_match; simplify_eq/=; eauto.
Qed.

(** A terminal of the call in flight settles it. *)
Lemma model_terminal_folds st env st' call :
  (env.(env_payloadKind) = "message.failed" \/
   (env.(env_payloadKind) = "message.completed" /\ env.(env_payload).!"role" = VStr "assistant")) ->
  isForeignAuthor st env = false -> st.(inFlightModelCall) = Some call ->
  env.(env_causality).!"messageId" = VStr call.(im_messageId) -> applyEvent st env = Ok st' ->
  st'.(inFlightModelCall) = None.
Proof.
  intros Hk Hf Hc Hid H. unfold applyEvent in H.
  destruct Hk as [Hk|[Hk Hrole]]; rewrite Hk in H; simpl in H;
    rewrite isForeignAuthor_advance, Hf in H; injection H as <-.
  - unfold fold_message_failed. rewrite causality_id_record. unfold causality_id. rewrite Hid. simpl.
    by rewrite Hc, string_eqb_refl.
  - unfold fold_message_completed, fold_assistant_completed.
    rewrite payloadRecord_get, Hrole, causality_id_record. unfold causality_id. rewrite Hid. simpl.
    by rewrite Hc, string_eqb_refl.
Qed.

Lemma dict_del_no_value {V} (key : V -> string) (d : dict V) v id :
  dict_all (fun k v => key v = k) d -> In v (dict_values (dict_del id d)) -> key v <> id.
Proof.
  intros Hall ([k v'] & <- & Hin)%in_map_iff. apply dict_del_In in Hin as [Hin Hne].
  simpl. by rewrite (Hall _ _ Hin).
Qed.

(** No derived effect carries the given id. *)
Definition settled (st : AgentState) (id : string) : Prop :=
  forall d, In d (derivePendingEffects st) -> effectId d <> id.

Lemma settled_model st id :
  st.(inFlightModelCall) = None -> settled st (ids.modelEffect id).
Proof.
  intros Hn d Hd E. pose proof (effect_ids_disjoint id) as Hdis.
  destruct (derive_cases _ _ Hd) as [(c & Hc & ->)|[(i & _ & _ & ->)|[(a & _ & ->)|(w & _ & ->)]]].
  - congruence.
  - rewrite invocationEffect_id in E. by destruct (Hdis (pi_invocationId i) "" "") as (? & _).
  - by destruct (Hdis "" (pa_approvalId a) "") as (_ & ? & _).
  - by destruct (Hdis "" "" (pw_credKey w)) as (_ & _ & ? & _).
Qed.

Lemma settled_invocation st id :
  (forall i, In i (dict_values st.(pendingInvocations)) -> i.(pi_invocationId) <> id) ->
  settled st (ids.invocationEffect id).
Proof.
  intros Hn d Hd E.
  destruct (derive_cases _ _ Hd) as [(c & Hc & ->)|[(i & Hi & _ & ->)|[(a & _ & ->)|(w & _ & ->)]]].
  - by destruct (effect_ids_disjoint (im_messageId c) id "" "") as (? & _).
  - rewrite invocationEffect_id in E. apply effect_ids_inj in E. by apply (Hn i).
  - by destruct (effect_ids_disjoint "" id (pa_approvalId a) "") as (_ & _ & _ & ? & _).
  - by destruct (effect_ids_disjoint "" id "" (pw_credKey w)) as (_ & _ & _ & _ & ? & _).
Qed.

Lemma settled_approval st id :
  (forall a, In a (dict_values st.(pendingApprovals)) -> a.(pa_approvalId) <> id) ->
  settled st (ids.approvalFormEffect id).
Proof.
  intros Hn d Hd E.
  destruct (derive_cases _ _ Hd) as [(c & Hc & ->)|[(i & Hi & _ & ->)|[(a & Ha & ->)|(w & _ & ->)]]].
  - by destruct (effect_ids_disjoint (im_messageId c) "" id "") as (_ & ? & _).
  - rewrite invocationEffect_id in E.
    by destruct (effect_ids_disjoint "" (pi_invocationId i) id "") as (_ & _ & _ & ? & _).
  - apply effect_ids_inj in E. by apply (Hn a).
  - by destruct (effect_ids_disjoint "" "" id (pw_credKey w)) as (_ & _ & _ & _ & _ & ?).
Qed.

Lemma settled_wait st id :
  (forall w, In w (dict_values st.(pendingCredentialWaits)) -> w.(pw_credKey) <> id) ->
  settled st (ids.credentialWaitEffect id).
Proof.
  intros Hn d Hd E.
  destruct (derive_cases _ _ Hd) as [(c & Hc & ->)|[(i & Hi & _ & ->)|[(a & Ha & ->)|(w & Hw & ->)]]].
  - by destruct (effect_ids_disjoint (im_messageId c) "" "" id) as (_ & _ & ? & _).
  - rewrite invocationEffect_id in E.
    by destruct (effect_ids_disjoint "" (pi_invocationId i) "" id) as (_ & _ & _ & _ & ? & _).
  - by destruct (effect_ids_disjoint "" "" (pa_approvalId a) id) as (_ & _ & _ & _ & _ & ?).
  - apply effect_ids_inj in E. by apply (Hn w).
Qed.

(** Each kind of outcome, folded, settles its effect. *)
Section Settling.
Context `{ModelFailureClassifier} (st st' : AgentState) (env : LogEnvelope) (item : AppendItem) (now : string).
Context (Hwf : wf_state st) (Hrec : records st.(selfId) item env) (Happ : applyEvent st env = Ok st').

Lemma model_outcome_settles call outcome :
  st.(inFlightModelCall) = Some call ->
  outcomeEvents_model (modelCallEffect st call) outcome now = Ok [item] ->
  settled st' (ids.modelEffect call.(im_messageId)).
Proof.
  intros Hc Ho. destruct Hrec as [_ Ek Ep Ec Hown]. apply settled_model.
  apply (model_terminal_folds st env st' call); [|by apply Hown|done| |done].
  - rewrite Ek, Ep. unfold outcomeEvents_model in Ho. repeat case_match; simplify_eq/=; auto.
  - rewrite Ec. unfold outcomeEvents_model in Ho. by repeat case_match; simplify_eq/=.
Qed.

Lemma tool_outcome_settles kind id turnId transportCallId outcome :
  outcomeEvents_tool kind id turnId transportCallId outcome = Ok [item] ->
  settled st' (ids.invocationEffect id).
Proof.
  intros Ho. destruct Hrec as [_ Ek Ep Ec Hown]. apply settled_invocation.
  assert (Hid : causality_id "invocationId" (env_causality env) = id).
  { rewrite Ec. unfold outcomeEvents_tool in Ho. by repeat case_match; simplify_eq/=. }
  destruct (invocation_terminal_folds st env st') as (P1 & _); [|by apply Hown|done|].
  - rewrite Ek. unfold is_terminal_kind, outcomeEvents_tool in *.
    repeat case_match; simplify_eq/=; auto.
  - intros i. rewrite P1, Hid. apply dict_del_no_value, Hwf.
Qed.

Lemma approval_outcome_settles a outcome :
  outcomeEvents_approval (approvalFormEffect st a) outcome = Ok [item] ->
  settled st' (ids.approvalFormEffect a.(pa_approvalId)).
Proof.
  intros Ho. destruct Hrec as [_ Ek Ep Ec Hown]. apply settled_approval.
  unfold outcomeEvents_approval in Ho. destruct outcome; try done. injection Ho as <-.
  destruct (approval_resolved_folds st env st') as (P1 & _); [done|by apply Hown|done|].
  intros x. rewrite P1, Ec. apply dict_del_no_value, Hwf.
Qed.

Lemma credential_outcome_settles w outcome :
  outcomeEvents_credential (credentialWaitEffect st w) outcome = Ok [item] ->
  settled st' (ids.credentialWaitEffect w.(pw_credKey)).
Proof.
  intros Ho. destruct Hrec as [_ Ek Ep Ec Hown]. apply settled_wait.
  unfold outcomeEvents_credential in Ho. destruct outcome; try done. injection Ho as <-.
  destruct (wait_settled_folds st env st' w.(pw_credKey)) as (P1 & _);
    [done | by rewrite Ep | left; by rewrite Ep | done |].
  intros x. rewrite P1. apply dict_del_no_value, Hwf.
Qed.

Lemma outcome_settles_one d outcome :
  In d (derivePendingEffects st) -> outcomeEvents d outcome now = Ok [item] -> settled st' (effectId d).
Proof.
  intros Hd Ho.
  destruct (derive_cases _ _ Hd) as [(c & Hc & ->)|[(i & _ & _ & ->)|[(a & _ & ->)|(w & _ & ->)]]].
  - by eapply model_outcome_settles.
  - rewrite invocationEffect_id. destruct (invocationEffect st i) eqn:Ei;
      pose proof (invocationEffect_invocation st i) as Hi; rewrite Ei in Hi; simplify_eq/=.
    + rewrite <- Hi. by eapply tool_outcome_settles.
    + rewrite bool_decide_eq_false_2 in Ho by (by eapply invocationEffect_not_form).
      simpl in Ho. rewrite <- Hi. by eapply tool_outcome_settles.
    + rewrite <- Hi. by eapply tool_outcome_settles.
  - change (outcomeEvents_approval (approvalFormEffect st a) outcome = Ok [item]) in Ho.
    by eapply approval_outcome_settles.
  - by eapply credential_outcome_settles.
Qed.
End Settling.

Lemma settled_invocation_gated st id i :
  wf_state st -> dict_get id st.(pendingInvocations) = Some i /\ gated i = true ->
  settled st (ids.invocationEffect id).
Proof.
  intros Hwf [Hi Hg] d Hd E.
  destruct (derive_cases _ _ Hd) as [(c & Hc & ->)|[(j & Hj & Hgj & ->)|[(a & _ & ->)|(w & _ & ->)]]].
  - by destruct (effect_ids_disjoint (im_messageId c) id "" "") as (? & _).
  - rewrite invocationEffect_id in E. apply effect_ids_inj in E.
    destruct (dict_value_get _ _ (wf_invocations _ Hwf) Hj) as [k Hk].
    pose proof (dict_all_get _ _ _ _ (wf_invocation_ids _ Hwf) Hk) as Hkey. simpl in Hkey. congruence.
  - by destruct (effect_ids_disjoint "" id (pa_approvalId a) "") as (_ & _ & _ & ? & _).
  - by destruct (effect_ids_disjoint "" id "" (pw_credKey w)) as (_ & _ & _ & _ & ? & _).
Qed.

(** A grant frees the gated invocation. *)
Lemma approval_frees st env st' a i :
  env.(env_payloadKind) = "approval.resolved" -> isForeignAuthor st env = false ->
  dict_get (causality_id "approvalId" env.(env_causality)) st.(pendingApprovals) = Some a ->
  dict_get a.(pa_invocationId) st.(pendingInvocations) = Some i ->
  is_true env.(env_payload).!"granted" = true -> applyEvent st env = Ok st' ->
  exists j, dict_get a.(pa_invocationId) st'.(pendingInvocations) = Some j /\ gated j = false.
Proof.
  intros Hk Hf Ha Hi Hg H. unfold applyEvent in H. rewrite Hk in H. simpl in H.
  injection H as <-. unfold fold_approval_resolved.
  rewrite isForeignAuthor_advance, Hf, causality_id_record, payloadRecord_get, Hg. simpl.
  rewrite Ha. simpl. rewrite Hi, dict_get_set_eq. eexists; split; [done|].
  unfold gated. simpl. by rewrite andb_false_r.
Qed.

Lemma derive_ids_NoDup st : wf_state st -> NoDup (map effectId (derivePendingEffects st)).
Proof.
  intros Hwf. destruct effect_ids_inj as (Ji & Ja & Jw). unfold derivePendingEffects.
  rewrite !map_app, !map_map.
  rewrite (map_ext (fun x => effectId (invocationEffect st x)) _ (invocationEffect_id st)).
  repeat rewrite list.NoDup_app. split; [|split; [|split; [|split; [|split]]]].
  - destruct (inFlightModelCall st); simpl; [apply NoDup_singleton | apply NoDup_nil_2].
  - intros x. destruct (inFlightModelCall st) as [c|]; simpl; [|by intros ?%not_elem_of_nil].
    intros ->%list_elem_of_singleton. rewrite !elem_of_app, !list_elem_of_In, !in_map_iff.
    intros [(i & E & _)|[(a & E & _)|(w & E & _)]]; symmetry in E; revert E; apply effect_ids_disjoint; exact "".
  - apply filter_map_NoDup. apply NoDup_keys_map; [done|apply Hwf..].
  - intros x. rewrite !elem_of_app, !list_elem_of_In, !in_map_iff.
    intros (i & <- & _) [(a & E & _)|(w & E & _)]; symmetry in E; revert E; apply effect_ids_disjoint; exact "".
  - apply NoDup_keys_map; [done|apply Hwf..].
  - split; [|apply NoDup_keys_map; [done|apply Hwf..]].
    intros x. rewrite !list_elem_of_In, !in_map_iff.
    intros (i & <- & _) (w & E & _); symmetry in E; revert E; apply effect_ids_disjoint; exact "".
Qed.

Module Effects.
(** The pending effects of a well-formed state have pairwise distinct ids, so
    the driver's registry keyed by effect id loses none of them. *)
Theorem pending_effect_ids_unique st : wf_state st -> NoDup (map effectId (derivePendingEffects st)).
Proof. apply derive_ids_NoDup. Qed.

Lemma pending_effect_ids_unique_witness :
  wf_state sample_waiting /\ NoDup (map effectId (derivePendingEffects sample_waiting)).
Proof.
  assert (H : wf_state sample_waiting) by (apply wf_stateb_spec; vm_compute; reflexivity).
  split; [exact H | exact (pending_effect_ids_unique sample_waiting H)].
Defined.
(** While an invocation awaits its approval nothing dispatches it: the only
    effect that names it is an approval form. *)
Theorem gated_never_dispatched st id i d :
  wf_state st -> dict_get id st.(pendingInvocations) = Some i -> gated i = true ->
  In d (derivePendingEffects st) -> effect_invocationId d = Some id ->
  exists a, In a (dict_values st.(pendingApprovals)) /\ a.(pa_invocationId) = id /\
    d = EChannelCall (approvalFormEffect st a).
Proof.
  intros Hwf Hi Hg Hd Hid.
  destruct (derive_cases _ _ Hd) as [(c & Hc & ->)|[(j & Hj & Hgj & ->)|[(a & Ha & ->)|(w & _ & ->)]]].
  - done.
  - rewrite invocationEffect_invocation in Hid. injection Hid as Hid. exfalso.
    destruct (dict_value_get _ _ (wf_invocations _ Hwf) Hj) as [k Hk].
    pose proof (dict_all_get _ _ _ _ (wf_invocation_ids _ Hwf) Hk) as Hkey. simpl in Hkey.
    congruence.
  - exists a. injection Hid as Hid. done.
  - done.
Qed.

Lemma gated_never_dispatched_witness :
  exists i, dict_get "i2" sample_waiting.(pendingInvocations) = Some i /\ gated i = true /\
    exists a, In a (dict_values sample_waiting.(pendingApprovals)) /\ a.(pa_invocationId) = "i2".
Proof.
  destruct (dict_get "i2" (pendingInvocations sample_waiting)) as [i|] eqn:Ei;
    [|vm_compute in Ei; discriminate].
  assert (Hg : gated i = true) by (vm_compute in Ei; injection Ei as <-; reflexivity).
  exists i. split; [reflexivity|]. split; [exact Hg|].
  destruct (derivePendingEffects sample_waiting) as [|d1 [|d2 l]] eqn:Ed;
    [vm_compute in Ed; discriminate.. |].
  destruct (gated_never_dispatched sample_waiting "i2" i d2) as (a & Ha & Hid & _).
  - apply wf_stateb_spec. vm_compute. reflexivity.
  - exact Ei.
  - exact Hg.
  - rewrite Ed. right; left. reflexivity.
  - vm_compute in Ed. injection Ed as _ <- _. reflexivity.
  - exists a. split; [exact Ha | exact Hid].
Defined.

(** The answer to an approval decides the dispatch. Folding this agent's
    [approval.resolved] for a pending approval retires the form, and the
    invocation it gates becomes dispatchable exactly when the answer grants it. *)
Theorem approval_decides_dispatch st env a i st' :
  wf_state st -> env.(env_payloadKind) = "approval.resolved" -> isForeignAuthor st env = false ->
  dict_get (causality_id "approvalId" env.(env_causality)) st.(pendingApprovals) = Some a ->
  dict_get a.(pa_invocationId) st.(pendingInvocations) = Some i -> gated i = true ->
  applyEvent st env = Ok st' ->
  settled st' (ids.approvalFormEffect a.(pa_approvalId)) /\
  ((exists d, In d (derivePendingEffects st') /\ effectId d = ids.invocationEffect a.(pa_invocationId))
   <-> is_true env.(env_payload).!"granted" = true).
Proof.
  intros Hwf Hk Hf Ha Hi Hg H. pose proof (applyEvent_wf _ _ _ Hwf H) as Hwf'.
  destruct (approval_resolved_folds st env st' Hk Hf H) as (P1 & _ & _ & _ & P5).
  pose proof (dict_all_get _ _ _ _ (wf_approval_ids _ Hwf) Ha) as Hid. simpl in Hid.
  split.
  { apply settled_approval. intros x. rewrite P1, Hid. apply dict_del_no_value, Hwf. }
  split.
  - intros (d & Hd & E). destruct (is_true _) eqn:Hgr; [done|]. specialize (P5 eq_refl).
    exfalso. refine (settled_invocation_gated st' _ i Hwf' _ d Hd E). by rewrite P5.
  - intros Hgr. destruct (approval_frees st env st' a i Hk Hf Ha Hi Hgr H) as (j & Ej & Hj).
    pose proof (dict_all_get _ _ _ _ (wf_invocation_ids _ Hwf') Ej) as Hjid. simpl in Hjid.
    exists (invocationEffect st' j). rewrite invocationEffect_id, Hjid. split; [|done].
    unfold derivePendingEffects. rewrite !in_app_iff, in_map_iff. right; left.
    exists j. split; [done|]. apply filter_In. rewrite Hj. split; [|done]. by eapply dict_get_value.
Qed.

Lemma approval_decides_dispatch_witness :
  let env := sample_event 9 sample_self "approval.resolved" [("approvalId", VStr "approval:i2")]
               [("granted", VBool true)] in
  exists st', applyEvent sample_waiting env = Ok st' /\
    exists d, In d (derivePendingEffects st') /\ effectId d = "inv:i2".
Proof.
  intros env.
  destruct (dict_get "approval:i2" (pendingApprovals sample_waiting)) as [a|] eqn:Ea;
    [|vm_compute in Ea; discriminate].
  destruct (dict_get (pa_invocationId a) (pendingInvocations sample_waiting)) as [i|] eqn:Ei;
    [|vm_compute in Ea; injection Ea as <-; vm_compute in Ei; discriminate].
  assert (Hid : pa_invocationId a = "i2") by (vm_compute in Ea; injection Ea as <-; reflexivity).
  destruct (applyEvent sample_waiting env) as [st'|] eqn:Est; [|vm_compute in Est; discriminate].
  exists st'. split; [reflexivity|].
  destruct (approval_decides_dispatch sample_waiting env a i st') as [_ Hd].
  - apply wf_stateb_spec. vm_compute. reflexivity.
  - reflexivity.
  - vm_compute. reflexivity.
  - exact Ea.
  - exact Ei.
  - rewrite Hid in Ei. vm_compute in Ei. injection Ei as <-. reflexivity.
  - exact Est.
  - rewrite Hid in Hd. apply Hd. reflexivity.
Defined.

(** C26: an outcome settles its effect: whatever a pending effect comes back with,
    once the items of a terminal outcome are folded the effect is no longer
    derivable, so the driver never runs it again. *)
Theorem outcome_settles `{ModelFailureClassifier} st d outcome now items seq envs :
  wf_state st -> In d (derivePendingEffects st) ->
  outcomeEvents d outcome now = Ok items -> items <> [] ->
  appended st.(selfId) seq items envs ->
  exists st', foldEvents st envs = Ok st' /\ settled st' (effectId d).
Proof.
  intros Hwf Hd Ho Hne Ha.
  destruct (outcomeEvents_single _ _ _ _ Ho) as [->|(item & -> & Hf)]; [done|].
  inversion Ha as [|? ? ? env ? Hr _ Hnil]; subst. inversion Hnil; subst.
  destruct (foldable_applies _ st item env Hr Hf) as [st' Happ].
  exists st'. split; [unfold foldEvents; simpl; by rewrite Happ|]. by eapply outcome_settles_one.
Qed.

Lemma outcome_settles_witness :
  let outcome := OTool (VStr "ok") None false None in
  exists d items st',
    outcomeEvents d outcome "2026-05-20T12:00:00.000Z" = Ok items /\
    foldEvents sample_waiting (recorded sample_waiting 8 items) = Ok st' /\ settled st' "inv:i1".
Proof.
  intros outcome. destruct (derivePendingEffects sample_waiting) as [|d l] eqn:Ed;
    [vm_compute in Ed; discriminate|].
  destruct (outcomeEvents d outcome "2026-05-20T12:00:00.000Z") as [items|] eqn:Eo;
    [|vm_compute in Ed; injection Ed as <- _; vm_compute in Eo; discriminate].
  assert (Hid : effectId d = "inv:i1") by (vm_compute in Ed; injection Ed as <- _; reflexivity).
  destruct (outcome_settles sample_waiting d outcome "2026-05-20T12:00:00.000Z" items 8
    (recorded sample_waiting 8 items)) as (st' & H1 & H2).
  - apply wf_stateb_spec. vm_compute. reflexivity.
  - rewrite Ed. left. reflexivity.
  - exact Eo.
  - intros ->. vm_compute in Ed. injection Ed as <- _. vm_compute in Eo. discriminate.
  - apply recorded_appended.
  - exists d, items, st'. rewrite Hid in H2. split; [exact Eo|]. split; [exact H1 | exact H2].
Defined.
End Effects.
