(* ===== verification/AgentContextProps.v ===== *)
(** Properties of the model context: it is fixed by its bound, it attributes what
    others say, and no queued message is lost on the way to it. *)
From S2P Require Import Prelude Dict JsValue JsText AgentIds AgentState AgentFold AgentFoldLaws.
From S2P Require Import AgentContext AgentEffects AgentStep AgentSamples.
From S2P Require Import AgentScenario AgentStepLaws.
From Stdlib Require Import Sorting.Sorted.
#[local] Open Scope Z_scope.

(** * Events that only append to the session *)

Definition appends_only (env : LogEnvelope) : bool :=
  (env.(env_payloadKind) <>s? "message.edited") && (env.(env_payloadKind) <>s? "message.retracted")
  && (env.(env_payloadKind) <>s? "system.compaction_recorded").

Lemma appends_only_entries st env st' :
  appends_only env = true -> applyEvent st env = Ok st' ->
  exists l, st'.(entries) = st.(entries) ++ l /\ Forall (fun e => e.!"seq" = VNum env.(env_seq)) l.
Proof.
  unfold appends_only. intros Hk H.
  assert (Hnil : exists l, st.(entries) = st.(entries) ++ l /\
    Forall (fun e => e.!"seq" = VNum env.(env_seq)) l) by (exists []; by rewrite app_nil_r).
  event_cases H; subst; unfold_cases; kind_known; try discriminate Hk;
    repeat (case_match; simplify_eq/=; try exact Hnil); try exact Hnil;
    eexists; (split; [reflexivity | by repeat constructor]).
Qed.

(** * Contexts *)

Lemma context_messages_beyond selfId bound l new :
  Forall (fun e => beyond bound e = true) new ->
  context_messages selfId bound (l ++ new) = context_messages selfId bound l.
Proof.
  intros Hnew. induction l as [|e l IH]; simpl.
  - destruct Hnew as [|e new He]; simpl; [done|]. by rewrite He.
  - destruct (beyond bound e); [done|]. by rewrite IH.
Qed.

Lemma context_messages_within selfId bound l new :
  Forall (fun e => beyond bound e = false) l ->
  context_messages selfId bound (l ++ new)
  = map (fun e => modelMessageFromEntry e selfId) l ++ context_messages selfId bound new.
Proof. induction 1 as [|e l He _ IH]; simpl; [done|]. by rewrite He, IH. Qed.

Lemma unbounded_within l : Forall (fun e => beyond None e = false) l.
Proof. induction l; by constructor. Qed.

(** * Queued messages and their entries *)

Definition entry_seq (e : val) : Z := match e.!"seq" with VNum n => n | _ => 0 end.

Definition steer_entry (e : SteeringEntry) : val :=
  user_entry e.(se_seq) e.(se_envelopeId) e.(se_sourceMessageId) e.(se_senderRef) e.(se_content)
    e.(se_metadata).

Definition prompt_entry (p : PendingPrompt) : val :=
  user_entry p.(pp_seq) p.(pp_envelopeId) p.(pp_sourceMessageId) p.(pp_senderRef) p.(pp_content)
    p.(pp_metadata).

(** The session is in log order, and every queued message has its entry. *)
Record session_inv (st : AgentState) : Prop := {
  si_numbered : Forall (fun e => exists n, e.!"seq" = VNum n /\ n <= st.(lastSeq)) st.(entries);
  si_sorted : StronglySorted (fun a b => entry_seq a <= entry_seq b) st.(entries);
  si_steers : forall e, In e st.(steeringQueue) -> In (steer_entry e) st.(entries);
  si_prompt : forall p, st.(pendingPrompt) = Some p -> In (prompt_entry p) st.(entries)
}.

Lemma user_entry_source id seq env source sender content metadata :
  user_entry_of id (user_entry seq env source sender content metadata) = ostr_is id source.
Proof.
  unfold user_entry_of, user_entry, ostr_field, opt_field. simpl.
  destruct source; simpl; [done|]. by destruct (truthy metadata).
Qed.

Lemma edit_user_entry id blocks seq env source sender content metadata :
  edit_entry id blocks (user_entry seq env source sender content metadata)
  = user_entry seq env source sender
      (if ostr_is id source then withEditedBlocks content blocks else content) metadata.
Proof.
  unfold edit_entry. rewrite user_entry_source. destruct (ostr_is id source) eqn:E; [|done].
  unfold user_entry, ostr_field. by destruct source.
Qed.

Lemma edit_steer_entry id blocks e :
  steer_entry (edit_steering id blocks e) = edit_entry id blocks (steer_entry e).
Proof.
  unfold steer_entry. rewrite edit_user_entry. unfold edit_steering.
  by destruct (ostr_is id (se_sourceMessageId e)).
Qed.

Lemma edit_prompt_entry id blocks p :
  prompt_entry (edit_prompt id blocks p) = edit_entry id blocks (prompt_entry p).
Proof.
  unfold prompt_entry. rewrite edit_user_entry. unfold edit_prompt.
  by destruct (ostr_is id (pp_sourceMessageId p)).
Qed.

Lemma edit_entry_seq id blocks e : (edit_entry id blocks e).!"seq" = e.!"seq".
Proof.
  unfold edit_entry. case_match; [|done]. rewrite js_get_obj, dict_get_set_ne by done.
  by destruct e.
Qed.

Lemma entry_seq_eq a b : a.!"seq" = b.!"seq" -> entry_seq a = entry_seq b.
Proof. unfold entry_seq. by intros ->. Qed.

Lemma StronglySorted_filter {A} (R : A -> A -> Prop) p l :
  StronglySorted R l -> StronglySorted R (List.filter p l).
Proof.
  induction 1 as [|x l _ IH Hx]; simpl; [constructor|]. destruct (p x); [|done].
  constructor; [done|]. rewrite List.Forall_forall in *. intros y [Hy _]%filter_In. auto.
Qed.

Lemma StronglySorted_map {A} (R : A -> A -> Prop) f l :
  (forall a b, R a b -> R (f a) (f b)) -> StronglySorted R l -> StronglySorted R (map f l).
Proof.
  intros Hf. induction 1 as [|x l _ IH Hx]; simpl; constructor; [done|].
  rewrite List.Forall_forall in *. intros y (z & <- & Hz)%in_map_iff. auto.
Qed.

Lemma StronglySorted_snoc {A} (R : A -> A -> Prop) l x :
  StronglySorted R l -> Forall (fun y => R y x) l -> StronglySorted R (l ++ [x]).
Proof.
  induction 1 as [|y l _ IH Hy]; intros Hx; simpl; [by repeat constructor|].
  inversion Hx; subst. constructor; [auto|]. apply Forall_app. by split; [|constructor].
Qed.

(** * The events that keep the invariant *)

Section Keep.
Context (st st' : AgentState) (Hinv : session_inv st) (Hseq : st.(lastSeq) <= st'.(lastSeq)).

Lemma numbered_later l :
  Forall (fun e => exists n, e.!"seq" = VNum n /\ n <= st.(lastSeq)) l ->
  Forall (fun e => exists n, e.!"seq" = VNum n /\ n <= st'.(lastSeq)) l.
Proof. apply Forall_impl. intros e (n & Hn & Hle). exists n. split; [done | lia]. Qed.

Lemma session_inv_same :
  st'.(entries) = st.(entries) ->
  (forall e, In e st'.(steeringQueue) -> In e st.(steeringQueue)) ->
  (forall p, st'.(pendingPrompt) = Some p -> st.(pendingPrompt) = Some p) -> session_inv st'.
Proof.
  destruct Hinv as [I1 I2 I3 I4]. intros He Hs Hp. constructor; rewrite ?He; auto using numbered_later.
Qed.

Lemma session_inv_append entry :
  st'.(entries) = st.(entries) ++ [entry] -> entry.!"seq" = VNum st'.(lastSeq) ->
  (forall e, In e st'.(steeringQueue) -> In e st.(steeringQueue) \/ steer_entry e = entry) ->
  (forall p, st'.(pendingPrompt) = Some p -> st.(pendingPrompt) = Some p \/ prompt_entry p = entry) ->
  session_inv st'.
Proof.
  destruct Hinv as [I1 I2 I3 I4]. intros He Hent Hs Hp. constructor; rewrite ?He.
  - apply Forall_app. split; [by apply numbered_later|]. constructor; [|constructor]. by eexists.
  - apply StronglySorted_snoc; [done|]. eapply Forall_impl; [|exact I1].
    intros e (n & Hn & Hle). simpl. unfold entry_seq. rewrite Hn, Hent. lia.
  - intros e He'. rewrite in_app_iff. destruct (Hs e He') as [H|<-]; [auto|]. right. by left.
  - intros p Hp'. rewrite in_app_iff. destruct (Hp p Hp') as [H|<-]; [auto|]. right. by left.
Qed.

Lemma session_inv_edit id blocks :
  st'.(entries) = map (edit_entry id blocks) st.(entries) ->
  st'.(steeringQueue) = map (edit_steering id blocks) st.(steeringQueue) ->
  st'.(pendingPrompt) = edit_prompt id blocks <$> st.(pendingPrompt) -> session_inv st'.
Proof.
  destruct Hinv as [I1 I2 I3 I4]. intros He Hs Hp. constructor; rewrite ?He, ?Hs.
  - apply Forall_map. eapply Forall_impl; [|by apply numbered_later].
    intros e (n & Hn & Hle). exists n. by rewrite edit_entry_seq.
  - apply StronglySorted_map; [|done]. intros a b.
    by rewrite (entry_seq_eq _ _ (edit_entry_seq id blocks a)), (entry_seq_eq _ _ (edit_entry_seq id blocks b)).
  - intros e (e0 & <- & Hin)%in_map_iff. rewrite edit_steer_entry. by apply in_map, I3.
  - intros p. rewrite Hp. destruct (pendingPrompt st) as [p0|] eqn:Ep; [|done].
    intros [= <-]. rewrite edit_prompt_entry. by apply in_map, I4.
Qed.

Lemma session_inv_retract id :
  st'.(entries) = List.filter (fun e => negb (user_entry_of id e)) st.(entries) ->
  st'.(steeringQueue) = List.filter (fun e => negb (ostr_is id e.(se_sourceMessageId))) st.(steeringQueue) ->
  st'.(pendingPrompt) = match st.(pendingPrompt) with
                        | Some p => if ostr_is id p.(pp_sourceMessageId) then None else Some p
                        | None => None
                        end -> session_inv st'.
Proof.
  destruct Hinv as [I1 I2 I3 I4]. intros He Hs Hp. constructor; rewrite ?He, ?Hs.
  - apply List.Forall_forall. intros e [Hin _]%filter_In. apply numbered_later in I1.
    rewrite List.Forall_forall in I1. auto.
  - by apply StronglySorted_filter.
  - intros e [Hin Hid]%filter_In. apply filter_In. split; [auto|].
    unfold steer_entry. by rewrite user_entry_source.
  - intros p. rewrite Hp. destruct (pendingPrompt st) as [p0|] eqn:Ep; [|done].
    destruct (ostr_is _ _) eqn:Eo; [done|]. intros [= <-]. apply filter_In. split; [auto|].
    unfold prompt_entry. by rewrite user_entry_source, Eo.
Qed.
End Keep.

Lemma message_completed_session_inv st env payload causality f :
  session_inv st -> st.(lastSeq) <= env.(env_seq) ->
  session_inv (fold_message_completed (withAdvance st env) env payload causality f).
Proof.
  intros Hinv Hseq. unfold fold_message_completed, fold_assistant_completed, fold_user_completed.
  assert (Hsame : session_inv (withAdvance st env)) by (by apply (session_inv_same st)).
  destruct (is_lit _ _).
  - destruct f.
    + eapply (session_inv_append st); [done|done|reflexivity|reflexivity|auto|auto].
    + destruct (inFlightModelCall _) as [call|]; [destruct (_ <>s? _); [done|]|];
        (eapply (session_inv_append st); [done|done|reflexivity|reflexivity|auto|auto]).
  - destruct (_ && _).
    + by apply (session_inv_same st).
    + destruct (openTurn _); eapply (session_inv_append st);
        [done|done|reflexivity|reflexivity| |auto|done|done|reflexivity|reflexivity|auto|]; simpl.
      * intros e [Hin|[<-|[]]]%in_app_iff; [by left | by right].
      * intros p [= <-]. by right.
Qed.

Ltac retract_prompt := simpl; repeat match goal with E : ?a = _ |- context [?a] => rewrite E end.

Lemma applyEvent_session_inv st env st' :
  session_inv st -> st.(lastSeq) <= env.(env_seq) ->
  env.(env_payloadKind) <> "system.compaction_recorded" ->
  applyEvent st env = Ok st' -> session_inv st'.
Proof.
  intros Hinv Hseq Hk H.
  assert (Hsame : forall s, s.(lastSeq) = env.(env_seq) -> s.(entries) = st.(entries) ->
    (forall e, In e s.(steeringQueue) -> In e st.(steeringQueue)) ->
    (forall p, s.(pendingPrompt) = Some p -> st.(pendingPrompt) = Some p) -> session_inv s).
  { intros s Hs. apply session_inv_same; [done | lia]. }
  event_cases H; subst; kind_known; try done;
    try (apply message_completed_session_inv; done);
    unfold_cases; repeat (case_match; simplify_eq/=); try (by apply Hsame);
    try (eapply (session_inv_append st); [done|done|reflexivity|reflexivity|auto|auto]).
  - apply Hsame; try done. simpl. intros e [Hin _]%filter_In. done.
  - eapply (session_inv_edit st); [done|done|reflexivity..].
  - eapply (session_inv_retract st); [done|done|reflexivity|reflexivity|]. by retract_prompt.
  - eapply (session_inv_retract st); [done|done|reflexivity|reflexivity|]. by retract_prompt.
  - eapply (session_inv_retract st); [done|done|reflexivity|reflexivity|]. by retract_prompt.
Qed.

Lemma foldEvents_session_inv st envs st' :
  session_inv st -> StronglySorted Z.le (st.(lastSeq) :: map env_seq envs) ->
  Forall (fun env => env.(env_payloadKind) <> "system.compaction_recorded") envs ->
  foldEvents st envs = Ok st' -> session_inv st'.
Proof.
  unfold foldEvents. revert st; induction envs as [|env envs IH]; intros st Hinv Hs Hk H; simpl in *.
  - by injection H as <-.
  - apply res_bind_Ok in H as (st1 & H1 & H2). inversion Hk; subst.
    inversion Hs as [|? ? Hs' Hle]; subst. inversion Hle; subst.
    pose proof H1 as (E & _)%applyEvent_frame.
    apply (IH st1); [by eapply applyEvent_session_inv | by rewrite E | done | done].
Qed.

Lemma initial_session_inv input : session_inv (initialAgentState input).
Proof. constructor; simpl; [constructor | constructor | done | done]. Qed.

(** An entry within the bound of a session in log order is in the context. *)
Lemma context_covers selfId bound l entry :
  StronglySorted (fun a b => entry_seq a <= entry_seq b) l ->
  Forall (fun e => exists n, e.!"seq" = VNum n) l ->
  In entry l -> entry_seq entry <= bound ->
  In (modelMessageFromEntry entry selfId) (context_messages selfId (Some bound) l).
Proof.
  induction 1 as [|e l Hs IH Hle]; intros Hnum Hin Hb; [done|]. inversion Hnum as [|? ? [n Hn] Hnum']; subst.
  assert (He : entry_seq e <= bound).
  { destruct Hin as [->|Hin]; [done|]. rewrite List.Forall_forall in Hle. specialize (Hle _ Hin). lia. }
  simpl. unfold beyond, entry_seq in *. rewrite Hn in *.
  destruct (Z.ltb_spec bound n); [lia|]. destruct Hin as [->|Hin]; [by left | right]. by apply IH.
Qed.

Module Context.
(** C28: no queued message is lost. In every state folded from a log without
    compactions, a model call whose bound reaches a queued steer or the pending
    prompt has that message, with its latest content, in its context. *)
Theorem queued_messages_reach_context input envs st bound :
  StronglySorted Z.le ((initialAgentState input).(lastSeq) :: map env_seq envs) ->
  Forall (fun env => env.(env_payloadKind) <> "system.compaction_recorded") envs ->
  foldEvents (initialAgentState input) envs = Ok st ->
  (forall e, In e st.(steeringQueue) -> e.(se_seq) <= bound ->
     In (Some (user_message e.(se_content))) (buildModelContext st (Some bound))) /\
  (forall p, st.(pendingPrompt) = Some p -> p.(pp_seq) <= bound ->
     In (Some (user_message p.(pp_content))) (buildModelContext st (Some bound))).
Proof.
  intros Hs Hk Hf.
  destruct (foldEvents_session_inv _ _ _ (initial_session_inv input) Hs Hk Hf) as [I1 I2 I3 I4].
  assert (Hnum : Forall (fun e => exists n, e.!"seq" = VNum n) st.(entries)).
  { eapply Forall_impl; [|exact I1]. intros e (n & Hn & _). eauto. }
  assert (Hin : forall entry content seq env source sender metadata,
    entry = user_entry seq env source sender content metadata -> In entry st.(entries) -> seq <= bound ->
    In (Some (user_message content)) (buildModelContext st (Some bound))).
  { intros entry content seq env source sender metadata He Hin Hb.
    apply (context_covers st.(selfId) bound _ _ I2 Hnum) in Hin; [|by rewrite He].
    rewrite He in Hin. unfold buildModelContext. revert Hin.
    unfold user_entry, ostr_field. by destruct source. }
  split; intros x Hx Hb; eapply Hin; [reflexivity| | |reflexivity| |]; [by apply I3|done|by apply I4|done].
Qed.

Lemma queued_messages_reach_context_witness :
  let events :=
    [ sample_event 1 sample_self "turn.opened" [("turnId", VStr "t")] [];
      sample_event 2 sample_user "message.completed" []
        [("role", VStr "user"); ("sourceMessageId", VStr "m1"); ("blocks", VArr [VStr "hi"])] ] in
  exists st e, foldEvents sample_initial events = Ok st /\ st.(steeringQueue) = [e] /\
    In (Some (user_message e.(se_content))) (buildModelContext st (Some 2)).
Proof.
  intros events.
  destruct (foldEvents sample_initial events) as [st|] eqn:Ef; [|vm_compute in Ef; discriminate].
  destruct (steeringQueue st) as [|e [|e' q]] eqn:Eq;
    [vm_compute in Ef; injection Ef as <-; vm_compute in Eq; discriminate| |
     vm_compute in Ef; injection Ef as <-; vm_compute in Eq; discriminate].
  exists st, e. split; [reflexivity|]. split; [exact Eq|].
  refine (proj1 (queued_messages_reach_context
    (mkInitialStateInput "c" None None sample_config None None None (Some "a1")) events st 2 _ _ Ef) e _ _).
  - repeat constructor; vm_compute; discriminate.
  - repeat constructor; discriminate.
  - rewrite Eq. left. reflexivity.
  - vm_compute in Ef. injection Ef as <-. vm_compute in Eq. injection Eq as <-. vm_compute. discriminate.
Defined.

(** A model call's context is fixed by its bound: events appended after the
    bound, short of an edit, a retract or a compaction, leave it as it was, so a
    restarted executor rebuilds the context the call was started with. *)
Theorem context_stable st envs st' bound :
  Forall (fun env => bound < env.(env_seq)) envs -> forallb appends_only envs = true ->
  foldEvents st envs = Ok st' ->
  buildModelContext st' (Some bound) = buildModelContext st (Some bound).
Proof.
  intros Hs Hk Hf. unfold buildModelContext.
  pose proof (foldEvents_frame _ _ _ Hf) as (_ & _ & _ & _ & <-).
  assert (Hl : exists l, st'.(entries) = st.(entries) ++ l /\
    Forall (fun e => beyond (Some bound) e = true) l).
  { unfold foldEvents in Hf. revert st Hf; induction envs as [|env envs IH]; intros st Hf; simpl in *.
    - injection Hf as <-. exists []. by rewrite app_nil_r.
    - apply res_bind_Ok in Hf as (st1 & H1 & H2). apply andb_true_iff in Hk as [Hk1 Hk2].
      inversion Hs as [|? ? Hlt Hs']; subst.
      destruct (appends_only_entries _ _ _ Hk1 H1) as (l1 & E1 & F1).
      destruct (IH Hs' Hk2 st1 H2) as (l2 & E2 & F2). exists (l1 ++ l2).
      split; [by rewrite E2, E1, app_assoc|]. apply Forall_app. split; [|done].
      eapply Forall_impl; [|exact F1]. intros e He. unfold beyond. rewrite He. by apply Z.ltb_lt. }
  destruct Hl as (l & -> & Hl). by apply context_messages_beyond.
Qed.

Lemma context_stable_witness :
  let events := [sample_event 9 sample_other_user "message.completed" [] [("role", VStr "user")]] in
  exists st', foldEvents sample_running events = Ok st' /\
    buildModelContext st' (Some 4) = buildModelContext sample_running (Some 4).
Proof.
  intros events.
  destruct (foldEvents sample_running events) as [st'|] eqn:Ef; [|vm_compute in Ef; discriminate].
  exists st'. split; [reflexivity|]. apply (context_stable sample_running events st' 4).
  - repeat constructor.
  - reflexivity.
  - exact Ef.
Defined.

(** What another participant says never enters the context as this agent's
    own words: folding its assistant message adds one user message, which names
    the speaker and carries the text of its blocks. *)
Theorem foreign_speech_is_attributed st env st' self other :
  st.(selfId) = Some self -> self <> "" -> env.(env_actor).!"id" = VStr other -> other <> "" ->
  other <> self -> env.(env_payloadKind) = "message.completed" ->
  env.(env_payload).!"role" = VStr "assistant" -> applyEvent st env = Ok st' ->
  buildModelContext st' None
  = buildModelContext st None
    ++ [Some (user_message (VStr ("[" ^^ participantLabel env.(env_actor) ^^ "]: "
              ^^ assistantBlocksToText (arr_or_nil env.(env_payload).!"blocks"))))].
Proof.
  intros Hself Hne Hid Hone Hdiff Hk Hrole H. unfold applyEvent in H. rewrite Hk in H. simpl in H.
  assert (Hf : isForeignAuthor st env = true).
  { unfold isForeignAuthor. rewrite Hself, Hid. simpl. by rewrite string_eqb_ne. }
  unfold fold_message_completed in H. rewrite isForeignAuthor_advance, Hf, payloadRecord_get, Hrole in H.
  injection H as <-. unfold fold_assistant_completed, buildModelContext. simpl.
  rewrite context_messages_within by apply unbounded_within.
  rewrite <- (app_nil_r (entries st)) at 2. rewrite context_messages_within by apply unbounded_within.
  simpl. rewrite app_nil_r. do 2 f_equal. rewrite payloadRecord_get.
  unfold modelMessageFromEntry. simpl. unfold isOtherAuthor. rewrite Hself, Hid. simpl.
  by rewrite !string_eqb_ne by done.
Qed.

Lemma foreign_speech_is_attributed_witness :
  let env := sample_event 9 sample_other_agent "message.completed" [("messageId", VStr "x")]
               [("role", VStr "assistant");
                ("blocks", VArr [VObj [("type", VStr "text"); ("content", VStr "hello")]])] in
  exists st', applyEvent sample_running env = Ok st' /\
    buildModelContext st' None
    = buildModelContext sample_running None ++ [Some (user_message (VStr "[a2]: hello"))].
Proof.
  intros env. destruct (applyEvent sample_running env) as [st'|] eqn:Ef; [|vm_compute in Ef; discriminate].
  exists st'. split; [reflexivity|].
  apply (foreign_speech_is_attributed sample_running env st' "a1" "a2");
    [reflexivity | discriminate | reflexivity | discriminate | discriminate | reflexivity | reflexivity
    | exact Ef].
Defined.
End Context.
