(* ===== verification/AgentPolicyProps.v ===== *)
(** Properties of the step policies: the approval gate, the fork cut and the
    silent agent. *)
From S2P Require Import Prelude Dict JsValue JsText AgentIds AgentState AgentFold AgentFoldLaws.
From S2P Require Import AgentEffects AgentStep AgentPolicies AgentScenario AgentSamples.
From S2P Require Import AgentStepLaws AgentEffectsProps.
#[local] Open Scope Z_scope.

(** * Rewritten items *)

Lemma dict_get_merge_other {V} k (overrides fs : dict V) :
  ~ In k (dict_keys overrides) -> dict_get k (dict_merge fs overrides) = dict_get k fs.
Proof.
  unfold dict_merge. revert fs; induction overrides as [|[k' v] o IH]; intros fs Hn; simpl in *; [done|].
  rewrite IH by tauto. apply dict_get_set_ne. tauto.
Qed.

Lemma item_with_payload_other overrides item k :
  ~ In k (dict_keys overrides) ->
  (item_with_payload overrides item).(ai_payload).!k = item.(ai_payload).!k.
Proof.
  intros Hn. unfold item_with_payload. cbn [ai_payload]. rewrite js_get_obj, dict_get_merge_other by done.
  by destruct (ai_payload item).
Qed.

(** The item asks for an approval. *)
Definition asks_approval (item : AppendItem) : bool := is_true item.(ai_payload).!"requiresApproval".

Definition item_name (item : AppendItem) : string := to_str (item.(ai_payload).!"name" ?? VStr "").

Definition safe_name (name : string) : bool := existsb (String.eqb name) DEFAULT_SAFE_TOOL_NAMES.

(** No effect dispatches the invocation of the item. *)
Definition undispatched (effects : list EffectDescriptor) (item : AppendItem) : Prop :=
  forall e, In e effects -> effect_invocationId e <> Some (item_invocationId item).

(** [item] starts the invocation [item0] does, under the same name or, for
    [ask_user], as the feedback form. *)
Definition comes_from (item0 item : AppendItem) : Prop :=
  is_started item0 = true /\ item_invocationId item0 = item_invocationId item /\
  (item_name item = item_name item0
   \/ item_name item0 = "ask_user" /\ item_name item = "feedback_form").

Lemma comes_from_refl item : is_started item = true -> comes_from item item.
Proof. unfold comes_from. auto. Qed.

#[local] Hint Resolve comes_from_refl : core.

(** What the gate promises of an output, compared with the batch [core] of the
    step: a started invocation is one of that batch, and it is marked and
    undispatched unless level 1 lets the tool the batch names through. *)
Definition gated_output (core : list AppendItem) (level : val) (out : StepOutput) : Prop :=
  forall item, In item out.(so_append) -> is_started item = true ->
  exists item0, In item0 core /\ comes_from item0 item /\
    ((asks_approval item = true /\ undispatched out.(so_effects) item)
     \/ (level = VNum 1 /\ safe_name (item_name item0) = true)).

Lemma gateItem_started ctx item level item' :
  In item' (gateItem level ctx item) -> is_started item' = true ->
  is_started item = true /\ item_name item' = item_name item.
Proof.
  unfold gateItem. destruct (needsApproval level item) eqn:En; simpl.
  - apply andb_true_iff in En as [Hs _]. intros [<-|[<-|[]]] Hs'; [|done]. split; [done|].
    unfold item_name. rewrite item_with_payload_other; [done|]. simpl. intuition discriminate.
  - by intros [<-|[]].
Qed.

Lemma gateItem_asks ctx item level item' :
  In item' (gateItem level ctx item) -> is_started item' = true ->
  item_invocationId item' = item_invocationId item /\
  (if needsApproval level item then asks_approval item' = true else item' = item).
Proof.
  unfold gateItem. destruct (needsApproval level item) eqn:En; simpl.
  - intros [<-|[<-|[]]] Hs; [|done]. split; [done|].
    unfold asks_approval, item_with_payload. cbn [ai_payload]. unfold dict_merge. simpl fold_left.
    by rewrite js_get_obj, dict_get_set_eq.
  - intros [<-|[]] Hs. done.
Qed.

Lemma approval_gate_output st incoming ctx out :
  strict_eqb st.(config).!"approvalLevel" (VNum 2) = false ->
  gated_output out.(so_append) st.(config).!"approvalLevel"
    (approvalGatePolicy.(sp_intercept) st incoming ctx out).
Proof.
  intros Hl item Hin Hs. cbn [approvalGatePolicy sp_intercept] in *. rewrite Hl in *.
  set (level := (config st).!"approvalLevel") in *.
  assert (Hsafe : forall i, is_started i = true -> needsApproval level i = false ->
    level = VNum 1 /\ safe_name (item_name i) = true).
  { intros i Hi. unfold needsApproval. rewrite Hi. simpl. rewrite negb_false_iff, andb_true_iff.
    intros [H1 H2]. split; [|done]. destruct level; try done. simpl in H1.
    apply Z.eqb_eq in H1. by subst. }
  destruct (nonempty _) eqn:En; simpl in *.
  - apply in_flat_map in Hin as (i & Hi & Hin). exists i. split; [done|].
    destruct (gateItem_started ctx i level item Hin Hs) as [Hst Hname].
    destruct (gateItem_asks ctx i level item Hin Hs) as [Hid Hcase].
    split; [by repeat split; auto|].
    destruct (needsApproval level i) eqn:E; [left|right; by apply Hsafe].
    split; [done|]. intros e [_ He]%filter_In Heff. rewrite Heff, Hid in He.
    apply negb_true_iff in He. rewrite <- not_true_iff_false, existsb_exists in He. apply He.
    exists (item_invocationId i). split; [|by apply String.eqb_eq].
    apply in_map, filter_In. done.
  - exists item. split; [done|]. split; [auto|]. right. apply Hsafe; [done|].
    destruct (needsApproval level item) eqn:E; [|done]. exfalso.
    assert (Hf : In item (List.filter (needsApproval level) out.(so_append))) by (by apply filter_In).
    destruct (List.filter _ _); done.
Qed.

(** The policies around the gate keep its promise. *)
Lemma channel_tools_started st incoming ctx out item :
  In item (channelToolsPolicy.(sp_intercept) st incoming ctx out).(so_append) ->
  is_started item = true ->
  exists item0, In item0 out.(so_append) /\ is_started item0 = true /\
    item_invocationId item0 = item_invocationId item /\ item_name item0 = item_name item.
Proof.
  cbn [channelToolsPolicy sp_intercept]. intros Hin Hs.
  destruct (negb _); [eauto|]. destruct (negb _); [eauto|]. cbn [so_append] in Hin.
  apply in_map_iff in Hin as (item0 & <- & Hin). exists item0. split; [done|].
  unfold channelRewrite in *. destruct (channelOwner _ item0); [|done].
  split; [done|]. split; [done|]. unfold item_name.
  rewrite item_with_payload_other; [done|]. simpl. intuition discriminate.
Qed.

Lemma gated_output_trans core mid level out :
  (forall item, In item mid -> is_started item = true ->
     exists item0, In item0 core /\ is_started item0 = true /\
       item_invocationId item0 = item_invocationId item /\ item_name item0 = item_name item) ->
  gated_output mid level out -> gated_output core level out.
Proof.
  intros Hcore Hg item Hin Hs. destruct (Hg item Hin Hs) as (i1 & Hi1 & (Hs1 & Hid1 & Hn1) & Hcase).
  destruct (Hcore i1 Hi1 Hs1) as (i0 & Hi0 & Hs0 & Hid0 & Hn0). exists i0. unfold comes_from.
  rewrite Hid0, Hn0. auto.
Qed.

Lemma askUserEffect_invocation target rewrittenIds e :
  effect_invocationId (askUserEffect target rewrittenIds e) = effect_invocationId e.
Proof. unfold askUserEffect. destruct e; try done. by destruct (negb _). Qed.

Lemma askUserRewrite_from st target item0 item :
  is_started item = true -> comes_from item0 item ->
  comes_from item0 (askUserRewrite st target item) /\
  asks_approval (askUserRewrite st target item) = asks_approval item.
Proof.
  intros Hs (Hs0 & Hid & Hn). unfold askUserRewrite.
  destruct (is_ask_user item) eqn:Ea; [|by repeat split].
  unfold is_ask_user in Ea. apply andb_true_iff in Ea as [_ Ea].
  assert (Hask : item_name item = "ask_user").
  { unfold item_name. unfold is_lit in Ea. destruct ((ai_payload item).!"name"); try done.
    apply String.eqb_eq in Ea. by subst. }
  split.
  - split; [done|]. split; [done|]. right. split.
    + destruct Hn as [Hn|[Hn _]]; congruence.
    + unfold item_name, item_with_payload. cbn [ai_payload]. unfold dict_merge. simpl fold_left.
      rewrite js_get_obj. rewrite !dict_get_set_ne by done. by rewrite dict_get_set_eq.
  - unfold asks_approval. rewrite item_with_payload_other; [done|]. simpl. intuition discriminate.
Qed.

Lemma ask_user_keeps_gate st incoming ctx out core level :
  gated_output core level out ->
  gated_output core level (askUserPolicy.(sp_intercept) st incoming ctx out).
Proof.
  intros Hg. cbn [askUserPolicy sp_intercept].
  destruct (promptingUser (config st)) as [user|]; [|done]. destruct (negb _); [done|].
  intros item' (item & <- & Hin)%in_map_iff Hs. cbn [so_effects].
  assert (Hst : is_started item = true).
  { unfold askUserRewrite in Hs. by destruct (is_ask_user item). }
  destruct (Hg item Hin Hst) as (i0 & Hi0 & Hfrom & Hcase). exists i0. split; [done|].
  destruct (askUserRewrite_from st user.!"ref" i0 item Hst Hfrom) as [Hfrom' Hask].
  split; [done|]. destruct Hcase as [[Ha Hu]|?]; [left|by right]. split; [congruence|].
  intros e (e0 & <- & He)%in_map_iff. rewrite askUserEffect_invocation.
  destruct Hfrom as (_ & Hid & _), Hfrom' as (_ & Hid' & _). rewrite <- Hid', Hid. by apply Hu.
Qed.

Lemma forkItems_not_started st item : In item (forkItems st) -> is_started item = false.
Proof.
  unfold forkItems. rewrite !in_app_iff, !in_map_iff.
  by intros [(x & <- & _)|[(x & <- & _)|(x & <- & _)]].
Qed.

Lemma gated_output_weaken core level items effects items' effects' :
  gated_output core level {| so_append := items; so_effects := effects |} ->
  (forall i, In i items' -> is_started i = true -> In i items) ->
  (forall e, In e effects' -> In e effects) ->
  gated_output core level {| so_append := items'; so_effects := effects' |}.
Proof.
  intros Hg Hi He item Hin Hs. destruct (Hg item (Hi _ Hin Hs) Hs) as (i0 & Hi0 & Hf & Hc).
  exists i0. split; [done|]. split; [done|]. destruct Hc as [[Ha Hu]|?]; [left|by right].
  split; [done|]. intros e Hin'. by apply Hu, He.
Qed.

Lemma fork_keeps_gate st incoming ctx out core level :
  gated_output core level out ->
  gated_output core level (forkPolicy.(sp_intercept) st incoming ctx out).
Proof.
  intros Hg. cbn [forkPolicy sp_intercept]. destruct out as [items effects].
  destruct (negb _); [done|]. destruct (_ <=? _); [done|]. cbn [so_append so_effects] in *.
  assert (Hf : forall i, In i (items ++ forkItems st) -> is_started i = true -> In i items).
  { intros i [Hin|Hin]%in_app_iff Hs; [done|]. apply forkItems_not_started in Hin. congruence. }
  destruct (openTurn st) as [turn|]; [destruct (_ <=? _)|];
    (eapply gated_output_weaken; [exact Hg| |]); try done.
  - intros i [Hin|[<-|[]]]%in_app_iff Hs; [by apply Hf | done].
  - intros e He%filter_In. apply He.
Qed.

(** * Folding a gated batch *)

(** The invocation waits for an approval. *)
Definition awaiting (st : AgentState) (id : string) : Prop :=
  exists i, dict_get id st.(pendingInvocations) = Some i /\ gated i = true.

(** An own [invocation.started] item that the fold files. *)
Definition startable (item : AppendItem) : Prop :=
  is_started item = true /\ item_invocationId item <> "" /\
  truthy item.(ai_payload).!"transport" = true.

Lemma started_folds st self item env :
  st.(selfId) = self -> startable item -> records self item env ->
  exists st' i, applyEvent st env = Ok st' /\
    st'.(pendingInvocations) = dict_set (item_invocationId item) i st.(pendingInvocations) /\
    st'.(pendingApprovals) = st.(pendingApprovals) /\
    gated i = asks_approval item.
Proof.
  intros Hself (Hs & Hid & Ht) [_ Hk Hp Hc Hown].
  unfold is_started in Hs. apply String.eqb_eq in Hs.
  unfold applyEvent. rewrite Hk, Hs. simpl. unfold fold_invocation_started.
  rewrite !payloadRecord_get, Hp, causality_id_record, Hc, Ht.
  rewrite isForeignAuthor_advance, Hown by done.
  change (causality_id "invocationId" (ai_causality item)) with (item_invocationId item).
  rewrite string_eqb_ne by done. simpl. eexists _, _. split; [done|]. split; [reflexivity|].
  split; [done|]. unfold gated, asks_approval. simpl. by rewrite andb_true_r.
Qed.

Lemma requested_folds st self ctx item env :
  st.(selfId) = self -> records self (approvalRequestItem ctx item) env ->
  exists st' a, applyEvent st env = Ok st' /\
    st'.(pendingApprovals)
    = dict_set (ids.approvalId (item_invocationId item)) a st.(pendingApprovals) /\
    a.(pa_invocationId) = item_invocationId item /\
    (forall id, awaiting st id -> awaiting st' id).
Proof.
  intros Hself [_ Hk Hp Hc Hown]. unfold applyEvent. rewrite Hk. simpl.
  unfold fold_approval_requested. rewrite !payloadRecord_get, Hp, !causality_id_record, Hc.
  rewrite isForeignAuthor_advance, Hown by done.
  change (causality_id "approvalId" (ai_causality (approvalRequestItem ctx item)))
    with (ids.approvalId (item_invocationId item)).
  change (causality_id "invocationId" (ai_causality (approvalRequestItem ctx item)))
    with (item_invocationId item).
  rewrite (string_eqb_ne (ids.approvalId (item_invocationId item)) "") by (unfold ids.approvalId; by rewrite string_app_cons).
  simpl. eexists _, _. split; [done|]. split; [reflexivity|]. split; [done|].
  intros id (i & Hi & Hg). unfold awaiting. simpl.
  destruct (dict_get (item_invocationId item) (pendingInvocations st)) as [j|] eqn:Ej; [|eauto].
  destruct (String.eqb_spec (item_invocationId item) id) as [<-|Hne].
  - rewrite dict_get_set_eq. eexists; split; [done|]. rewrite Ej in Hi. injection Hi as ->.
    unfold gated in *. simpl. by apply andb_true_iff in Hg as [-> _].
  - rewrite dict_get_set_ne by done. eauto.
Qed.

(** ... and has asked for it. *)
Definition asked (st : AgentState) (id : string) : Prop :=
  exists a, dict_get (ids.approvalId id) st.(pendingApprovals) = Some a /\ a.(pa_invocationId) = id.

Lemma awaiting_set st st' id id' i :
  st'.(pendingInvocations) = dict_set id' i st.(pendingInvocations) -> id <> id' ->
  awaiting st id -> awaiting st' id.
Proof. intros E Hne (j & Hj & Hg). exists j. by rewrite E, dict_get_set_ne by congruence. Qed.

Lemma asked_set st st' id id' a :
  st'.(pendingApprovals) = dict_set (ids.approvalId id') a st.(pendingApprovals) ->
  a.(pa_invocationId) = id' -> id = id' \/ asked st id -> asked st' id.
Proof.
  intros E Ha H. unfold asked. rewrite E.
  destruct (String.eqb_spec (ids.approvalId id') (ids.approvalId id)) as [Heq|Hne].
  - rewrite Heq, dict_get_set_eq. exists a. split; [done|].
    apply string_app_inj_l in Heq. congruence.
  - rewrite dict_get_set_ne by done. destruct H as [->|H]; [done | exact H].
Qed.

(** Folding one gated item. *)
Lemma gateItem_folds level ctx self item seq envs st st' :
  st.(selfId) = self -> startable item -> appended self seq (gateItem level ctx item) envs ->
  foldEvents st envs = Ok st' ->
  (forall id, id <> item_invocationId item -> awaiting st id /\ asked st id ->
     awaiting st' id /\ asked st' id) /\
  (needsApproval level item = true ->
   awaiting st' (item_invocationId item) /\ asked st' (item_invocationId item)).
Proof.
  intros Hself Hst Ha Hf. unfold gateItem in Ha.
  destruct (needsApproval level item) eqn:En; inversion Ha as [|? ? ? env envs' Hr _ Ha']; subst;
    unfold foldEvents in Hf; simpl in Hf.
  - assert (Hst' : startable (item_with_payload [("requiresApproval", VBool true)] item)).
    { destruct Hst as (H1 & H2 & H3). split; [done|]. split; [done|].
      rewrite item_with_payload_other; [done|]. simpl. intuition discriminate. }
    destruct (started_folds st _ _ env eq_refl Hst' Hr) as (s1 & i & H1 & P1 & P2 & P3).
    rewrite H1 in Hf. simpl in Hf. inversion Ha' as [|? ? ? env2 ? Hr2 _ Hnil]; subst.
    inversion Hnil; subst. simpl in Hf.
    pose proof H1 as (_ & _ & _ & _ & _ & _ & Hs1)%applyEvent_frame.
    destruct (requested_folds s1 _ ctx item env2 (eq_sym Hs1) Hr2) as (s2 & a & H2 & Q1 & Q2 & Q3).
    rewrite H2 in Hf. injection Hf as <-. split.
    + intros id Hne [Hw Hk]. split; [by eapply Q3, awaiting_set|].
      eapply asked_set; [exact Q1 | exact Q2|]. right. unfold asked. by rewrite P2.
    + intros _. split; [|by eapply asked_set; eauto].
      apply Q3. exists i. rewrite P1. split; [apply dict_get_set_eq|]. rewrite P3.
      unfold asks_approval, item_with_payload. cbn [ai_payload]. unfold dict_merge. simpl fold_left.
      by rewrite js_get_obj, dict_get_set_eq.
  - destruct (started_folds st _ item env eq_refl Hst Hr) as (s1 & i & H1 & P1 & P2 & P3).
    rewrite H1 in Hf. inversion Ha'; subst. injection Hf as <-. split; [|done].
    intros id Hne [Hw Hk]. split; [by eapply awaiting_set|]. unfold asked. by rewrite P2.
Qed.

Lemma gated_batch_folds level ctx self items seq envs st st' :
  st.(selfId) = self -> Forall startable items -> NoDup (map item_invocationId items) ->
  appended self seq (flat_map (gateItem level ctx) items) envs -> foldEvents st envs = Ok st' ->
  (forall id, ~ In id (map item_invocationId items) -> awaiting st id /\ asked st id ->
     awaiting st' id /\ asked st' id) /\
  (forall item, In item items -> needsApproval level item = true ->
     awaiting st' (item_invocationId item) /\ asked st' (item_invocationId item)).
Proof.
  revert seq envs st; induction items as [|item items IH]; intros seq envs st Hself Hst Hnd Ha Hf.
  - simpl in Ha. inversion Ha; subst. unfold foldEvents in Hf. injection Hf as <-. by split.
  - simpl in Ha. apply appended_app_inv in Ha as (e1 & e2 & -> & A1 & A2).
    apply foldEvents_app_inv in Hf as (s1 & F1 & F2).
    inversion Hst as [|? ? Hi Hst']; subst. simpl in Hnd. apply list.NoDup_cons in Hnd as [Hni Hnd].
    rewrite list_elem_of_In in Hni.
    destruct (gateItem_folds _ _ _ _ _ _ _ _ eq_refl Hi A1 F1) as [G1 G2].
    pose proof (foldEvents_frame _ _ _ F1) as (_ & _ & _ & _ & Hs1).
    destruct (IH _ _ s1 (eq_sym Hs1) Hst' Hnd A2 F2) as [I1 I2]. split.
    + intros id Hnin Hid. simpl in Hnin. apply I1; [tauto|]. apply G1; [|done]. intuition congruence.
    + intros x [<-|Hx] Hneed; [|by apply I2]. apply I1; [done|]. by apply G2.
Qed.

(** * The fork cut *)

(** Every record of [d] from before the cut is filed under a key of [ks]. *)
Definition cut_keys {V} (startedAt : V -> Z) (cut : Z) (ks : list string) (d : dict V) : Prop :=
  forall k v, dict_get k d = Some v -> startedAt v <= cut -> In k ks.

Lemma cut_keys_set {V} (startedAt : V -> Z) cut ks (d : dict V) k v :
  cut_keys startedAt cut ks d -> (cut < startedAt v \/ In k ks) -> cut_keys startedAt cut ks (dict_set k v d).
Proof.
  intros Hd Hv k' v'. destruct (String.eqb_spec k k') as [<-|Hne].
  - rewrite dict_get_set_eq. intros [= <-] Hle. destruct Hv; [lia | done].
  - rewrite dict_get_set_ne by done. apply Hd.
Qed.

Lemma cut_keys_del {V} (startedAt : V -> Z) cut ks (d : dict V) k :
  cut_keys startedAt cut ks d -> cut_keys startedAt cut ks (dict_del k d).
Proof.
  intros Hd k' v'. destruct (String.eqb_spec k k') as [<-|Hne].
  - by rewrite dict_get_del_eq.
  - rewrite dict_get_del_ne by done. apply Hd.
Qed.

Lemma cut_keys_del_rest {V} (startedAt : V -> Z) cut k ks (d : dict V) :
  cut_keys startedAt cut (k :: ks) d -> cut_keys startedAt cut ks (dict_del k d).
Proof.
  intros Hd k' v'. destruct (String.eqb_spec k k') as [<-|Hne].
  - by rewrite dict_get_del_eq.
  - rewrite dict_get_del_ne by done. intros Hg Hle. by destruct (Hd k' v' Hg Hle).
Qed.

Lemma cut_keys_preCut {V} (startedAt : V -> Z) (id : V -> string) cut (d : dict V) :
  dict_all (fun k v => id v = k) d -> cut_keys startedAt cut (map id (preCut startedAt cut d)) d.
Proof.
  intros Hall k v Hget Hle. apply in_map_iff. exists v.
  split; [by apply (dict_all_get _ _ _ _ Hall Hget)|].
  apply filter_In. split; [by eapply dict_get_value | by apply Z.leb_le].
Qed.

(** The records from before the cut, by the keys they may be filed under. *)
Record cut_by (cut : Z) (ki ka kw : list string) (st : AgentState) : Prop := {
  cut_invocations : cut_keys pi_startedAtSeq cut ki st.(pendingInvocations);
  cut_approvals : cut_keys pa_startedAtSeq cut ka st.(pendingApprovals);
  cut_waits : cut_keys pw_startedAtSeq cut kw st.(pendingCredentialWaits)
}.

Lemma cut_keys_approval cut ki (d : dict PendingInvocation) id i s a :
  cut_keys pi_startedAtSeq cut ki d -> dict_get id d = Some i ->
  cut_keys pi_startedAtSeq cut ki (dict_set id (set_approval s a i) d).
Proof.
  intros Hd Hi. apply cut_keys_set; [done|]. simpl.
  destruct (Z.le_gt_cases (pi_startedAtSeq i) cut); [right; by eapply Hd | by left].
Qed.

(** Events after the cut file no record from before it. *)
Lemma applyEvent_cut_by cut ki ka kw st env st' :
  cut < env.(env_seq) -> cut_by cut ki ka kw st -> applyEvent st env = Ok st' ->
  cut_by cut ki ka kw st'.
Proof.
  intros Hseq [C1 C2 C3] H.
  assert (Hsame : cut_by cut ki ka kw (withAdvance st env)) by (by constructor).
  event_cases H; subst; try exact Hsame; unfold_cases;
    repeat (case_match; simplify_eq/=; try exact Hsame);
    constructor; simpl; auto using cut_keys_set, cut_keys_del, cut_keys_approval.
Qed.

Lemma foldEvents_cut_by cut ki ka kw st self seq items envs st' :
  cut <= seq -> appended self seq items envs -> cut_by cut ki ka kw st ->
  foldEvents st envs = Ok st' -> cut_by cut ki ka kw st'.
Proof.
  intros Hseq Ha. revert st. induction Ha as [|seq item items env envs _ Hs _ IH]; intros st Hc Hf;
    unfold foldEvents in Hf; simpl in Hf.
  - by injection Hf as <-.
  - apply res_bind_Ok in Hf as (s1 & H1 & H2). apply (IH ltac:(lia) s1); [|done].
    eapply applyEvent_cut_by; [|done|done]. lia.
Qed.

Lemma abandoned_step cut ka kw self x l st env st' :
  st.(selfId) = self -> cut_by cut (map pi_invocationId (x :: l)) ka kw st ->
  records self (abandonedItem x) env -> applyEvent st env = Ok st' ->
  cut_by cut (map pi_invocationId l) ka kw st'.
Proof.
  intros Hself [C1 C2 C3] [_ Ek _ Ec Hown] H.
  destruct (invocation_terminal_folds st env st') as (P1 & P2 & P3 & _); [|by apply Hown|done|].
  { rewrite Ek. by right; right; right. }
  rewrite Ec in P1. constructor; rewrite ?P1, ?P2, ?P3; [by apply cut_keys_del_rest|done|done].
Qed.

Lemma fork_denied_step cut ki kw self x l st env st' :
  st.(selfId) = self -> cut_by cut ki (map pa_approvalId (x :: l)) kw st ->
  records self (approvalDeniedItem "fork" "forked" x) env -> applyEvent st env = Ok st' ->
  cut_by cut ki (map pa_approvalId l) kw st'.
Proof.
  intros Hself [C1 C2 C3] [_ Ek Ep Ec Hown] H.
  destruct (approval_resolved_folds st env st') as (P1 & P2 & P3 & P4 & P5); [done|by apply Hown|done|].
  rewrite Ec in P1. rewrite Ep in P5. specialize (P5 eq_refl).
  constructor; rewrite ?P1, ?P2, ?P5; [done|by apply cut_keys_del_rest|done].
Qed.

Lemma fork_wait_step cut ki ka self x l st env st' :
  st.(selfId) = self -> cut_by cut ki ka (map pw_credKey (x :: l)) st ->
  records self (waitUnresolvedItem "forked" x) env -> applyEvent st env = Ok st' ->
  cut_by cut ki ka (map pw_credKey l) st'.
Proof.
  intros Hself [C1 C2 C3] [_ Ek Ep Ec Hown] H.
  destruct (wait_settled_folds st env st' x.(pw_credKey)) as (P1 & P2 & P3 & P4 & P5);
    [done | by rewrite Ep | left; by rewrite Ep | done |].
  constructor; rewrite ?P1, ?P2, ?P3; [done|done|by apply cut_keys_del_rest].
Qed.

(** Folding the fork's items leaves nothing from before the cut. *)
Lemma forkItems_fold st0 self seq envs st st' :
  wf_state st0 -> st.(selfId) = self ->
  cut_by st0.(forkSeq) (map pi_invocationId (preCut pi_startedAtSeq st0.(forkSeq) st0.(pendingInvocations)))
    (map pa_approvalId (preCut pa_startedAtSeq st0.(forkSeq) st0.(pendingApprovals)))
    (map pw_credKey (preCut pw_startedAtSeq st0.(forkSeq) st0.(pendingCredentialWaits))) st ->
  appended self seq (forkItems st0) envs -> foldEvents st envs = Ok st' ->
  cut_by st0.(forkSeq) [] [] [] st'.
Proof.
  intros Hwf Hself Hc Ha Hf. unfold forkItems in Ha.
  apply appended_app_inv in Ha as (e1 & r1 & -> & A1 & Ha).
  apply appended_app_inv in Ha as (e2 & e3 & -> & A2 & A3).
  apply foldEvents_app_inv in Hf as (s1 & F1 & Hf). apply foldEvents_app_inv in Hf as (s2 & F2 & F3).
  set (kw := map pw_credKey _) in Hc. set (ka := map pa_approvalId _) in Hc.
  destruct (fold_batch abandonedItem (fun l s => cut_by (forkSeq st0) (map pi_invocationId l) ka kw s) self
    (abandoned_step (forkSeq st0) ka kw self) _ _ _ _ _ A1 Hself Hc F1) as [C1 S1].
  destruct (fold_batch (approvalDeniedItem "fork" "forked") (fun l s => cut_by (forkSeq st0) [] (map pa_approvalId l) kw s) self
    (fork_denied_step (forkSeq st0) [] kw self) _ _ _ _ _ A2 S1 C1 F2) as [C2 S2].
  destruct (fold_batch (waitUnresolvedItem "forked") (fun l s => cut_by (forkSeq st0) [] [] (map pw_credKey l) s) self
    (fork_wait_step (forkSeq st0) [] [] self) _ _ _ _ _ A3 S2 C2 F3) as [C3 _]. exact C3.
Qed.

(** * Read acks under the policies *)

(** The policy publishes nothing of its own. *)
Definition names_acks (policy : StepPolicy) : Prop :=
  forall state incoming ctx out, acks_named out -> acks_named (policy.(sp_intercept) state incoming ctx out).

Lemma composeStep_named `{ModelFailureClassifier} policies state incoming ctx out :
  Forall names_acks policies -> composeStep policies state incoming ctx = Ok out -> acks_named out.
Proof.
  intros Hp Hout. unfold composeStep in Hout. pose proof (coreStep_named state incoming ctx) as Hc.
  apply res_bind_Ok in Hout as (out0 & E & [= <-]). rewrite E in Hc. cbn [named_result] in Hc. clear E. revert out0 Hc.
  induction Hp as [|policy policies Hn _ IH]; intros out0 Hc; simpl; [done|]. by apply IH, Hn.
Qed.

Lemma rewritten_named (f : EffectDescriptor -> EffectDescriptor) items out :
  (forall e, f e = e \/ effect_kind (f e) <> KPublishEnvelope) -> acks_named out ->
  acks_named {| so_append := items; so_effects := map f out.(so_effects) |}.
Proof.
  intros Hf. unfold acks_named. cbn [so_effects]. intros H. apply Forall_map. eapply Forall_impl; [|exact H]. intros e He.
  destruct (Hf e) as [->|Hk]; [done|]. by intros E.
Qed.

Lemma filtered_named (keep : EffectDescriptor -> bool) items out : acks_named out ->
  acks_named {| so_append := items; so_effects := List.filter keep out.(so_effects) |}.
Proof.
  unfold acks_named. cbn [so_effects]. rewrite !List.Forall_forall. intros H e [He _]%filter_In. by apply H.
Qed.

(** The policies of the source are such. *)
Lemma source_policies_name_acks : Forall names_acks (silentPolicy :: defaultPolicies).
Proof.
  repeat constructor; intros st incoming ctx out Hout; cbn [sp_intercept silentPolicy channelToolsPolicy approvalGatePolicy askUserPolicy forkPolicy];
    repeat case_match; try done; try (by apply filtered_named); apply rewritten_named; try done; intros e.
  - unfold channelEffectRewrite. repeat case_match; (by left) || by right.
  - unfold askUserEffect. repeat case_match; (by left) || by right.
Qed.

Module Policies.
(** C29: no tool call slips past the approval gate. At any level below 2, every
    started invocation in the output of the default policies is one the core step
    starts, under the same name or, for [ask_user], as the feedback form it
    becomes; and it is marked as needing approval with no effect of the output
    dispatching it, unless the level is 1 and the core step's name for it is that
    of a default safe tool. *)
Theorem default_policies_gate `{ModelFailureClassifier} st incoming ctx core out item :
  strict_eqb st.(config).!"approvalLevel" (VNum 2) = false ->
  coreStep st incoming ctx = Ok core -> composeStep defaultPolicies st incoming ctx = Ok out ->
  In item out.(so_append) -> is_started item = true ->
  exists item0, In item0 core.(so_append) /\ comes_from item0 item /\
    ((asks_approval item = true /\
      forall e, In e out.(so_effects) -> effect_invocationId e <> Some (item_invocationId item))
     \/ (st.(config).!"approvalLevel" = VNum 1 /\ safe_name (item_name item0) = true)).
Proof.
  intros Hl Hcore Hc Hin Hs. unfold composeStep in Hc. rewrite Hcore in Hc. injection Hc as <-.
  revert item Hin Hs.
  apply (fork_keeps_gate st incoming ctx), (ask_user_keeps_gate st incoming ctx).
  eapply gated_output_trans; [apply (channel_tools_started st incoming ctx)|].
  by apply (approval_gate_output st incoming ctx).
Qed.

Lemma default_policies_gate_witness :
  let env := sample_event 4 sample_self "message.completed" [("messageId", VStr "m:t:c:e1:a1:0")]
        [("role", VStr "assistant"); ("blocks", VArr [sample_tool_block "i1" "feedback_form"])] in
  let st := play sample_running [env] in
  exists item out, composeStep defaultPolicies st (IEventAppended env) sample_ctx = Ok out /\
    In item out.(so_append) /\ item_name item = "feedback_form" /\ asks_approval item = true.
Proof.
  intros env st.
  destruct (coreStep st (IEventAppended env) sample_ctx) as [core|] eqn:Ec;
    [|vm_compute in Ec; discriminate].
  destruct (composeStep defaultPolicies st (IEventAppended env) sample_ctx) as [out|] eqn:Eo;
    [|vm_compute in Eo; discriminate].
  destruct (so_append out) as [|item l] eqn:El;
    [vm_compute in Eo; injection Eo as <-; vm_compute in El; discriminate|].
  exists item, out. split; [reflexivity|].
  assert (Hi : In item out.(so_append)) by (rewrite El; left; reflexivity).
  assert (Hid : item_name item = "feedback_form" /\ is_started item = true)
    by (vm_compute in Eo; injection Eo as <-; vm_compute in El; injection El as <- _; split; reflexivity).
  split; [exact Hi|]. split; [exact (proj1 Hid)|].
  destruct (default_policies_gate st (IEventAppended env) sample_ctx core out item)
    as (item0 & _ & _ & [[Ha _]|[Hl _]]).
  - vm_compute. reflexivity.
  - exact Ec.
  - exact Eo.
  - exact Hi.
  - exact (proj2 Hid).
  - exact Ha.
  - vm_compute in Hl. discriminate.
Defined.

(** A gated tool call waits for its answer. Folding the gate's output for a
    batch of started invocations leaves each one that needs approval pending, with
    its approval asked for, and nothing derivable dispatches it. *)
Theorem gated_batch_waits st incoming ctx items effects envs st' item :
  wf_state st -> strict_eqb st.(config).!"approvalLevel" (VNum 2) = false ->
  Forall startable items -> NoDup (map item_invocationId items) ->
  let out := approvalGatePolicy.(sp_intercept) st incoming ctx
               {| so_append := items; so_effects := effects |} in
  appended st.(selfId) st.(lastSeq) out.(so_append) envs -> foldEvents st envs = Ok st' ->
  In item items -> needsApproval st.(config).!"approvalLevel" item = true ->
  asked st' (item_invocationId item) /\ settled st' (ids.invocationEffect (item_invocationId item)).
Proof.
  intros Hwf Hl Hst Hnd out Ha Hf Hin Hneed.
  assert (Happ : so_append out = flat_map (gateItem (config st).!"approvalLevel" ctx) items).
  { subst out. cbn [approvalGatePolicy sp_intercept]. rewrite Hl. cbn [so_append].
    assert (Hi : In (item_invocationId item)
      (map item_invocationId (List.filter (needsApproval (config st).!"approvalLevel") items)))
      by (by apply in_map, filter_In).
    by destruct (map item_invocationId (List.filter _ items)). }
  rewrite Happ in Ha.
  destruct (gated_batch_folds _ _ _ _ _ _ _ _ eq_refl Hst Hnd Ha Hf) as [_ Hw].
  destruct (Hw item Hin Hneed) as [(i & Hi & Hg) Hask]. split; [done|].
  apply (settled_invocation_gated st' _ i); [by eapply foldEvents_wf | done].
Qed.

Lemma gated_batch_waits_witness :
  let item := invocationStartedItem sample_running "m" "att:m" "t:c:e1:a1"
                (mkToolCallBlock "i1" "bash" VNull) in
  let out := approvalGatePolicy.(sp_intercept) sample_running (ICommand CWake) sample_ctx
               {| so_append := [item]; so_effects := [] |} in
  exists st', foldEvents sample_running (recorded sample_running 3 out.(so_append)) = Ok st' /\
    asked st' "i1" /\ settled st' "inv:i1".
Proof.
  intros item out.
  destruct (foldEvents sample_running (recorded sample_running 3 out.(so_append))) as [st'|] eqn:Ef;
    [|vm_compute in Ef; discriminate].
  exists st'. split; [reflexivity|].
  apply (gated_batch_waits sample_running (ICommand CWake) sample_ctx [item] []
    (recorded sample_running 3 out.(so_append)) st' item).
  - apply wf_stateb_spec. vm_compute. reflexivity.
  - vm_compute. reflexivity.
  - constructor; [|constructor]. split; [reflexivity|]. split; [discriminate | vm_compute; reflexivity].
  - apply NoDup_singleton.
  - exact (recorded_appended sample_running 3 _).
  - exact Ef.
  - left. reflexivity.
  - vm_compute. reflexivity.
Defined.

(** a fork settles what it inherits. Once the output of a wake on a forked
    log has passed the fork policy and is folded, no invocation, approval or
    credential wait from before the cut is pending. *)
Theorem fork_settles_inherited st ctx out envs st' :
  wf_state st -> 0 < st.(forkSeq) <= st.(lastSeq) ->
  appended st.(selfId) st.(lastSeq)
    (forkPolicy.(sp_intercept) st (ICommand CWake) ctx out).(so_append) envs ->
  foldEvents st envs = Ok st' ->
  (forall k i, dict_get k st'.(pendingInvocations) = Some i -> st.(forkSeq) < i.(pi_startedAtSeq)) /\
  (forall k a, dict_get k st'.(pendingApprovals) = Some a -> st.(forkSeq) < a.(pa_startedAtSeq)) /\
  (forall k w, dict_get k st'.(pendingCredentialWaits) = Some w -> st.(forkSeq) < w.(pw_startedAtSeq)).
Proof.
  intros Hwf [Hpos Hle] Ha Hf.
  assert (Hc : cut_by st.(forkSeq) [] [] [] st').
  { assert (Hsplit : exists rest, so_append (sp_intercept forkPolicy st (ICommand CWake) ctx out)
      = so_append out ++ forkItems st ++ rest).
    { cbn [forkPolicy sp_intercept is_wake negb]. destruct (Z.leb_spec (forkSeq st) 0); [lia|].
      destruct (openTurn st) as [t|]; [destruct (_ <=? _)|]; cbn [so_append];
        rewrite <- ?app_assoc; eauto; exists []; by rewrite app_nil_r. }
    destruct Hsplit as (rest & E). rewrite E in Ha.
    apply appended_app_inv in Ha as (e1 & r1 & -> & A1 & Ha).
    apply appended_app_inv in Ha as (e2 & e3 & -> & A2 & A3).
    apply foldEvents_app_inv in Hf as (s1 & F1 & Hf). apply foldEvents_app_inv in Hf as (s2 & F2 & F3).
    eapply foldEvents_cut_by; [|exact A3| |exact F3]; [lia|].
    pose proof (foldEvents_frame _ _ _ F1) as (_ & _ & _ & _ & Hs1).
    eapply (forkItems_fold st); [done | symmetry; exact Hs1 | | exact A2 | exact F2].
    eapply foldEvents_cut_by; [exact Hle | exact A1 | | exact F1].
    destruct Hwf. constructor; by apply cut_keys_preCut. }
  destruct Hc as [C1 C2 C3]. repeat split; intros k v Hk.
  - destruct (Z.le_gt_cases (pi_startedAtSeq v) (forkSeq st)); [by destruct (C1 _ _ Hk) | done].
  - destruct (Z.le_gt_cases (pa_startedAtSeq v) (forkSeq st)); [by destruct (C2 _ _ Hk) | done].
  - destruct (Z.le_gt_cases (pw_startedAtSeq v) (forkSeq st)); [by destruct (C3 _ _ Hk) | done].
Qed.

Lemma fork_settles_inherited_witness :
  let out := get_ok EMPTY (commandStep sample_forked CWake sample_ctx) in
  let out' := forkPolicy.(sp_intercept) sample_forked (ICommand CWake) sample_ctx out in
  exists st', foldEvents sample_forked (recorded sample_forked 4 out'.(so_append)) = Ok st' /\
    length sample_forked.(pendingInvocations) = 1%nat /\
    (forall k i, dict_get k st'.(pendingInvocations) = Some i -> 4 < i.(pi_startedAtSeq)).
Proof.
  intros out out'.
  destruct (foldEvents sample_forked (recorded sample_forked 4 out'.(so_append))) as [st'|] eqn:Ef;
    [|vm_compute in Ef; discriminate].
  exists st'. split; [reflexivity|]. split; [vm_compute; reflexivity|].
  refine (proj1 (fork_settles_inherited sample_forked sample_ctx out
    (recorded sample_forked 4 out'.(so_append)) st' _ _ _ Ef)).
  - apply wf_stateb_spec. vm_compute. reflexivity.
  - vm_compute. split; [reflexivity | discriminate].
  - exact (recorded_appended sample_forked 4 _).
Defined.

(** A silent agent publishes only the opening and the closing of its turns,
    whatever policies run before. *)
Theorem silent_publishes_turns_only `{ModelFailureClassifier} policies st incoming ctx out item :
  composeStep (policies ++ [silentPolicy]) st incoming ctx = Ok out ->
  In item out.(so_append) -> item.(ai_publish) = true ->
  item.(ai_payloadKind) = "turn.opened" \/ item.(ai_payloadKind) = "turn.closed".
Proof.
  intros Hc Hin Hp. unfold composeStep in Hc. apply res_bind_Ok in Hc as (o & _ & Hc).
  injection Hc as <-. rewrite fold_left_app in Hin. simpl in Hin. unfold silentFilter in Hin.
  apply in_map_iff in Hin as (i & <- & _). destruct (_ || _) eqn:E; [|done].
  apply orb_true_iff in E as [E%String.eqb_eq|E%String.eqb_eq]; auto.
Qed.

Lemma silent_publishes_turns_only_witness :
  let out := get_ok EMPTY (composeStep [silentPolicy] sample_initial
               (ICommand (CPrompt sample_prompt)) sample_ctx) in
  exists item, In item out.(so_append) /\ item.(ai_publish) = true /\
    (item.(ai_payloadKind) = "turn.opened" \/ item.(ai_payloadKind) = "turn.closed").
Proof.
  intros out. destruct (so_append out) as [|i0 [|item l]] eqn:El; [vm_compute in El; discriminate..|].
  assert (Hin : In item out.(so_append)) by (rewrite El; right; left; reflexivity).
  assert (Hp : ai_publish item = true) by (vm_compute in El; injection El as _ <- _; reflexivity).
  exists item. split; [right; left; reflexivity|]. split; [exact Hp|].
  apply (silent_publishes_turns_only [] sample_initial (ICommand (CPrompt sample_prompt)) sample_ctx
    out item); [vm_compute; reflexivity | exact Hin | exact Hp].
Defined.
End Policies.
