(* ===== verification/AgentScenarioProps.v ===== *)
(** Properties of the driver loop as the scenario harness runs it: the log and the
    folded state never diverge, the registry is the derivable effects, and what
    redelivery, compaction and configuration patches do at the edges. *)
From S2P Require Import Prelude Dict JsValue JsText AgentIds AgentState AgentFold AgentFoldLaws.
From S2P Require Import AgentContext AgentEffects AgentStep AgentPolicies AgentScenario.
From S2P Require Import AgentSamples AgentEffectsProps.
#[local] Open Scope Z_scope.

(** * The invariant of the loop *)

(** Consecutive positions after [seq]. *)
Fixpoint numbered_from (seq : Z) (envs : list LogEnvelope) : Prop :=
  match envs with
  | [] => True
  | env :: envs => env.(env_seq) = seq + 1 /\ numbered_from (seq + 1) envs
  end.

Lemma numbered_from_app seq e1 e2 :
  numbered_from seq (e1 ++ e2)
  <-> numbered_from seq e1 /\ numbered_from (seq + Z.of_nat (length e1)) e2.
Proof.
  revert seq; induction e1 as [|e e1 IH]; intros seq; simpl.
  - rewrite Z.add_0_r. tauto.
  - rewrite IH. replace (seq + 1 + Z.of_nat (length e1)) with (seq + Z.of_nat (S (length e1))) by lia.
    tauto.
Qed.

(** What a log row keeps of its envelope. *)
Definition row_of (row : ScenarioEnvelopeRecord) (env : LogEnvelope) : Prop :=
  row.(row_seq) = env.(env_seq) /\ row.(row_envelopeId) = env.(env_envelopeId) /\
  row.(row_payloadKind) = env.(env_payloadKind) /\ row.(row_payload) = env.(env_payload) /\
  row.(row_causality) = env.(env_causality).

(** The state is the fold of the log from the initial state, the log is numbered
    without gaps, and every envelope id occurs in it once. *)
Record log_inv (init : AgentState) (sc : Scenario) : Prop := {
  li_fold : exists envs, foldEvents init envs = Ok sc.(sc_state) /\ Forall2 row_of sc.(sc_log) envs /\
              numbered_from init.(lastSeq) envs;
  li_unique : NoDup (map row_envelopeId sc.(sc_log))
}.

Lemma foldEvents_snoc init envs st env st' :
  foldEvents init envs = Ok st -> applyEvent st env = Ok st' -> foldEvents init (envs ++ [env]) = Ok st'.
Proof. unfold foldEvents. intros H1 H2. rewrite res_foldl_app, H1. simpl. by rewrite H2. Qed.

Lemma foldEvents_lastSeq init envs st :
  foldEvents init envs = Ok st -> numbered_from init.(lastSeq) envs ->
  st.(lastSeq) = init.(lastSeq) + Z.of_nat (length envs).
Proof.
  unfold foldEvents. revert init; induction envs as [|env envs IH]; intros init H Hn; simpl in *.
  - injection H as <-. lia.
  - apply res_bind_Ok in H as (s & H1 & H2). destruct Hn as [He Hn].
    apply applyEvent_frame in H1 as (E & _). rewrite <- He, <- E in Hn.
    rewrite (IH s H2 Hn), E, He. lia.
Qed.

Lemma appendOne_inv init sc envs item sc' envs' :
  log_inv init sc -> appendOne (sc, envs) item = Ok (sc', envs') -> log_inv init sc'.
Proof.
  intros [(es & Hf & Hrows & Hnum) Hu] H. unfold appendOne in H.
  destruct (logged sc (ai_envelopeId item)) eqn:El; [injection H as <- <-; constructor; eauto|].
  apply res_bind_Ok in H as (st & Happ & H). injection H as <- <-. constructor; simpl.
  - exists (es ++ [scenarioEnvelope sc item]). split; [by eapply foldEvents_snoc|]. split.
    + apply Forall2_app; [done|]. by repeat constructor.
    + apply numbered_from_app. split; [done|]. simpl. split; [|done].
      by rewrite (foldEvents_lastSeq _ _ _ Hf Hnum).
  - rewrite map_app. apply list.NoDup_app. split; [done|]. split; [|apply NoDup_singleton].
    intros x Hx ->%list_elem_of_singleton. simpl in Hx. unfold logged in El.
    rewrite <- not_true_iff_false, existsb_exists in El. apply El.
    apply list_elem_of_In, in_map_iff in Hx as (row & Hr & Hin). exists row.
    split; [done|]. by apply String.eqb_eq.
Qed.

Lemma applyAppend_inv init sc append sc' envs :
  log_inv init sc -> applyAppend sc append = Ok (sc', envs) -> log_inv init sc'.
Proof.
  intros Hi. unfold applyAppend. intros H.
  refine (res_foldl_inv (fun acc => log_inv init acc.1) appendOne append _ (sc, []) (sc', envs) Hi H).
  intros [s es] item [s' es']. simpl. apply appendOne_inv.
Qed.

(** The registry is what the state derives. *)
Definition registry (effects : list EffectDescriptor) : dict EffectDescriptor :=
  fold_left (fun m e => dict_set (effectId e) e m) effects [].

Definition registered (sc : Scenario) : Prop :=
  sc.(sc_effects) = registry (derivePendingEffects sc.(sc_state)).

Lemma log_inv_same init sc sc' :
  log_inv init sc -> sc'.(sc_state) = sc.(sc_state) -> sc'.(sc_log) = sc.(sc_log) -> log_inv init sc'.
Proof. intros [H1 H2] E1 E2. constructor; by rewrite ?E1, ?E2. Qed.

Lemma registerEffects_spec init sc emitted sc' :
  log_inv init sc -> registerEffects sc emitted = Ok sc' -> log_inv init sc' /\ registered sc'.
Proof.
  unfold registerEffects. intros Hi H. destruct (find _ _); [done|]. injection H as <-.
  split; [by eapply log_inv_same | done].
Qed.

Section Loop.
Context `{ModelFailureClassifier} (init : AgentState).

(** The event cascade keeps the invariant, given that its dispatches do. *)
Lemma cascade_inv fuel :
  (forall sc incoming sc', log_inv init sc -> dispatch fuel sc incoming = Some (Ok sc') ->
     log_inv init sc' /\ registered sc') ->
  forall envs sc sc', log_inv init sc -> registered sc -> cascade fuel sc envs = Some (Ok sc') ->
    log_inv init sc' /\ registered sc'.
Proof.
  intros Hd. unfold cascade. induction envs as [|env envs IH]; intros sc sc' Hi Hr Hc; simpl in Hc.
  - injection Hc as <-. done.
  - destruct (dispatch fuel sc (IEventAppended env)) as [[s1|e]|] eqn:E1.
    + destruct (Hd _ _ _ Hi E1) as [Hi1 Hr1]. by eapply IH.
    + exfalso. clear -Hc. induction envs; simpl in Hc; [discriminate | auto].
    + exfalso. clear -Hc. induction envs; simpl in Hc; [discriminate | auto].
Qed.

Lemma dispatch_inv fuel sc incoming sc' :
  log_inv init sc -> dispatch fuel sc incoming = Some (Ok sc') -> log_inv init sc' /\ registered sc'.
Proof.
  revert sc incoming sc'; induction fuel as [|fuel IH]; intros sc incoming sc' Hi Hd; simpl in Hd; [done|].
  destruct (composeStep _ _ _ _) as [output|e]; [|done].
  destruct (applyAppend _ _) as [[s1 envs]|e] eqn:Ea; [|done].
  destruct (registerEffects s1 _) as [s2|e] eqn:Er; [|done].
  assert (Hi1 : log_inv init s1).
  { eapply applyAppend_inv; [|exact Ea]. by eapply log_inv_same. }
  destruct (registerEffects_spec _ _ _ _ Hi1 Er) as [Hi2 Hr2].
  exact (cascade_inv fuel IH envs s2 sc' Hi2 Hr2 Hd).
Qed.

Lemma resolveEffect_inv fuel sc effectId outcome sc' :
  log_inv init sc -> resolveEffect fuel sc effectId outcome = Some (Ok sc') ->
  log_inv init sc' /\ registered sc'.
Proof.
  intros Hi Hr. unfold resolveEffect in Hr. destruct (dict_get _ _) as [d|]; [|done].
  destruct (outcomeEvents _ _ _) as [items|]; [|done].
  destruct (applyAppend _ _) as [[s1 envs]|e] eqn:Ea; [|done].
  destruct (registerEffects s1 []) as [s2|e] eqn:Er; [|done].
  assert (Hi1 : log_inv init s1).
  { eapply applyAppend_inv; [|exact Ea]. by eapply log_inv_same. }
  destruct (registerEffects_spec _ _ _ _ Hi1 Er) as [Hi2 Hr2].
  eapply cascade_inv; [apply dispatch_inv | exact Hi2 | exact Hr2 | exact Hr].
Qed.

(** The scenarios reached from a fresh one by inputs and outcomes. *)
Inductive reachable (policies : list StepPolicy) (now : option string) : Scenario -> Prop :=
  | reach_start : reachable policies now (createScenario init policies now)
  | reach_dispatch fuel sc incoming sc' :
      reachable policies now sc -> dispatch fuel sc incoming = Some (Ok sc') ->
      reachable policies now sc'
  | reach_resolve fuel sc effectId outcome sc' :
      reachable policies now sc -> resolveEffect fuel sc effectId outcome = Some (Ok sc') ->
      reachable policies now sc'.

Lemma reachable_log_inv policies now sc : reachable policies now sc -> log_inv init sc.
Proof.
  induction 1 as [|fuel sc incoming sc' _ IH Hd|fuel sc id outcome sc' _ IH Hr].
  - constructor; [|apply NoDup_nil_2]. exists []. by split; [|split; [constructor|]].
  - by apply (dispatch_inv fuel sc incoming sc' IH Hd).
  - by apply (resolveEffect_inv fuel sc id outcome sc' IH Hr).
Qed.
End Loop.

(** A registry of effects with distinct ids holds each of them under its id. *)
Lemma registry_get l d :
  NoDup (map effectId l) -> (In d l <-> dict_get (effectId d) (registry l) = Some d).
Proof.
  intros Hnd.
  assert (Hg : forall l m, NoDup (map effectId l) -> forall k,
    dict_get k (fold_left (fun m e => dict_set (effectId e) e m) l m)
    = match find (fun e => effectId e =s? k) l with Some e => Some e | None => dict_get k m end).
  { clear. induction l as [|e l IH]; intros m Hnd k; simpl; [done|].
    simpl in Hnd. apply list.NoDup_cons in Hnd as [Hni Hnd]. rewrite IH by done.
    destruct (String.eqb_spec (effectId e) k) as [<-|Hne].
    - destruct (find _ l) as [e'|] eqn:Ef; [|apply dict_get_set_eq].
      apply find_some in Ef as [Hin Heq%String.eqb_eq]. exfalso. apply Hni.
      apply list_elem_of_In. rewrite <- Heq. by apply in_map.
    - by rewrite dict_get_set_ne. }
  unfold registry. rewrite Hg by done. clear Hg. split.
  - intros Hin. induction l as [|e l IH]; [done|]. simpl in *.
    apply list.NoDup_cons in Hnd as [Hni Hnd]. destruct (String.eqb_spec (effectId e) (effectId d)) as [Heq|Hne].
    + destruct Hin as [->|Hin]; [done|]. exfalso. apply Hni. apply list_elem_of_In. rewrite Heq. by apply in_map.
    + destruct Hin as [->|Hin]; [done|]. auto.
  - destruct (find _ l) as [e|] eqn:Ef; [|done]. intros [= ->]. by apply find_some in Ef as [Hin _].
Qed.

Lemma reachable_registered `{ModelFailureClassifier} init policies now sc :
  derivePendingEffects init = [] -> reachable init policies now sc -> registered sc.
Proof.
  intros Hn Hr. destruct Hr as [|fuel sc incoming sc' Hr Hd|fuel sc id outcome sc' Hr Hd].
  - unfold registered. simpl. by rewrite Hn.
  - by apply (dispatch_inv init fuel sc incoming sc' (reachable_log_inv _ _ _ _ Hr) Hd).
  - by apply (resolveEffect_inv init fuel sc id outcome sc' (reachable_log_inv _ _ _ _ Hr) Hd).
Qed.

Module Loop.
(** the loop never loses its place. In every scenario reached from a fresh one,
    by any inputs and outcomes and under any policies, the state is the fold of the
    log, the log is numbered without gaps, no envelope id is recorded twice, and
    the registry holds exactly the effects the state derives, each under its id. *)
Theorem reached_loop_consistent `{ModelFailureClassifier} input policies now sc :
  let init := initialAgentState input in
  reachable init policies now sc ->
  (exists envs, foldEvents init envs = Ok sc.(sc_state) /\ Forall2 row_of sc.(sc_log) envs /\
     numbered_from init.(lastSeq) envs) /\
  NoDup (map row_envelopeId sc.(sc_log)) /\
  (forall d, In d (derivePendingEffects sc.(sc_state))
             <-> dict_get (effectId d) sc.(sc_effects) = Some d).
Proof.
  intros init Hr. destruct (reachable_log_inv init policies now sc Hr) as [Hf Hu].
  split; [done|]. split; [done|]. intros d.
  rewrite (reachable_registered init policies now sc eq_refl Hr). apply registry_get, derive_ids_NoDup.
  destruct Hf as (envs & Hf & _). eapply foldEvents_wf; [|exact Hf]. apply initialAgentState_wf.
Qed.

Lemma reached_loop_consistent_witness :
  let input := mkInitialStateInput "c" None None sample_config None None None None in
  exists sc, dispatch 9 (createScenario (initialAgentState input) [] None)
               (ICommand (CPrompt sample_prompt)) = Some (Ok sc) /\
    length sc.(sc_log) = 3%nat /\ NoDup (map row_envelopeId sc.(sc_log)).
Proof.
  intros input.
  destruct (dispatch 9 (createScenario (initialAgentState input) [] None)
    (ICommand (CPrompt sample_prompt))) as [[sc|e]|] eqn:Ed; [|vm_compute in Ed; discriminate..].
  exists sc. split; [reflexivity|]. split; [vm_compute in Ed; injection Ed as <-; reflexivity|].
  refine (proj1 (proj2 (reached_loop_consistent input [] None sc _))).
  apply (reach_dispatch _ _ _ 9 _ _ _ (reach_start _ _ _) Ed).
Defined.
End Loop.

(** * Behaviour at the edges, on concrete runs *)

Definition scenario_ok (d : Scenario) (m : option (res Scenario)) : Scenario :=
  match m with Some (Ok s) => s | _ => d end.

Definition send (sc : Scenario) (c : Command) : Scenario :=
  scenario_ok sc (dispatch 12 sc (ICommand c)).

(** Answer the first pending effect, a model call, with a text. *)
Definition answer (sc : Scenario) : Scenario :=
  match dict_values sc.(sc_effects) with
  | d :: _ =>
      scenario_ok sc
        (resolveEffect 12 sc (effectId d)
           (OModel [VObj [("type", VStr "text"); ("content", VStr "done")]] StopCompleted None VUndef
              None None None))
  | [] => sc
  end.

Definition fresh_scenario : Scenario :=
  createScenario (initialAgentState (mkInitialStateInput "c" None None sample_config None None None None))
    [] None.

Definition opened_turns (sc : Scenario) : list string :=
  map row_envelopeId (List.filter (fun r => row_payloadKind r =s? "turn.opened") sc.(sc_log)).

Module Edges.
(** A message to deliver after the turn is deferred, promoted and answered. When
    the channel delivers it once more it is not recognised, and a third turn with
    its own model call runs for it. *)
Example deferred_redelivery_reopens :
  let sc := answer (answer (send (send fresh_scenario (CPrompt sample_prompt)) (CPrompt sample_deferred))) in
  opened_turns sc = ["turn:t:c:e1:agent:self:opened"; "turn:t:c:recv:promoted:m3:6:agent:self:opened"] /\
  let sc' := send sc (CPrompt sample_deferred) in
  opened_turns sc' = opened_turns sc ++ ["turn:t:c:e3:agent:self:opened"] /\
  dict_keys sc'.(sc_effects) = ["model:m:t:c:e3:agent:self:0"].
Proof. vm_compute. auto. Qed.

Definition steer_n (n : Z) : Command :=
  CSteer {| pc_channelId := "c"; pc_sourceEnvelopeId := "s" ^^ pretty n;
            pc_sourceMessageId := Some ("sm" ^^ pretty n); pc_content := VStr ("text" ^^ pretty n);
            pc_senderRef := sample_user; pc_agentHops := None; pc_metadata := VUndef |}.

(** Compacting while nine steers are queued drops the entry of the first one: the
    next call still consumes and acknowledges it, and no context ever holds it. *)
Example compaction_drops_queued_message :
  let sc := fold_left (fun s n => send s (steer_n n)) [1; 2; 3; 4; 5; 6; 7; 8; 9]
              (send fresh_scenario (CPrompt sample_prompt)) in
  let st := (send sc CCompact).(sc_state) in
  existsb (is_lit (VStr "sm1")) (consumedMessages st (VNum st.(lastSeq)) []) = true /\
  existsb (fun e => is_lit e.!"sourceMessageId" "sm1") st.(entries) = false.
Proof. vm_compute. auto. Qed.

(** A turn's [loopConfigPatch] with a budget of one call does not bound the turn:
    its second call starts. *)
Example patched_budget_ignored :
  let metadata := VObj [("loopConfigPatch", VObj [("maxModelCallsPerTurn", VNum 1)])] in
  let st := with_openTurn (Some (mkOpenTurn "t" 1 None 1 false 0 metadata false)) sample_initial in
  (turnConfig st).!"maxModelCallsPerTurn" = VNum 1 /\ maxModelCallsPerTurn st = None /\
  exists out, nextModelCall st 0 sample_ctx [] = Ok out /\
    map ai_payloadKind out.(so_append) = ["message.started"].
Proof. vm_compute. eauto. Qed.

(** A tool call block with an empty id makes the step throw. *)
Example empty_tool_call_id_throws :
  let env := sample_event 4 sample_self "message.completed" [("messageId", VStr "m:t:c:e1:a1:0")]
        [("role", VStr "assistant"); ("blocks", VArr [sample_tool_block "" "bash"])] in
  eventStep (play sample_running [env]) env sample_ctx = Throw TypeError.
Proof. vm_compute. reflexivity. Qed.

(** A completion of an older message, or one of another agent, while a model call
    is in flight and a steer is queued: the call stays in flight and the step
    starts the turn's next one. *)
Example stale_completion_starts_second_call :
  forall actor, In actor [sample_self; sample_other_agent] ->
  let env := sample_event 9 actor "message.completed" [("messageId", VStr "m:old")]
               [("role", VStr "assistant"); ("blocks", VArr [])] in
  let st := play sample_steered [env] in
  im_messageId <$> st.(inFlightModelCall) = Some "m:t:c:e1:a1:0" /\
  map effectId (get_ok EMPTY (eventStep st env sample_ctx)).(so_effects)
  = ["model:m:t:c:e1:a1:1"; "read:m2:t:c:e1:a1"].
Proof. intros actor [<-|[<-|[]]]; vm_compute; auto. Qed.

(** A grant under an approval id the fold does not know leaves its invocation
    gated, and the step dispatches it all the same. *)
Example unknown_grant_dispatches :
  let env := sample_event 9 sample_self "approval.resolved"
               [("approvalId", VStr "other"); ("invocationId", VStr "i2")] [("granted", VBool true)] in
  let st := play sample_waiting [env] in
  exists out, eventStep st env sample_ctx = Ok out /\ map effectId out.(so_effects) = ["inv:i2"] /\
    existsb (underivable (derivePendingEffects st)) out.(so_effects) = true.
Proof. vm_compute. eauto. Qed.
End Edges.
