(* ===== verification/AgentCascadeProps.v ===== *)
(** The cascade of appended events ends: an input is answered within six nested
    steps under the policies of the source, and the answer does not depend on the
    depth allowed. Each event is ranked by what its step can append; the one loop in
    the ranks, the diagnostic of an exhausted budget, is cut by the log, which takes
    an envelope id once. *)
From S2P Require Import Prelude Dict JsValue JsText AgentIds AgentState AgentFold AgentFoldLaws.
From S2P Require Import AgentEffects AgentStep AgentPolicies AgentScenario AgentSamples.
From S2P Require Import AgentStepLaws.
#[local] Open Scope Z_scope.

(** * The rank of an event *)

Definition event_object (payload : val) : val := if is_object payload then payload else VObj [].

Definition detail_kind (payload : val) (kind : string) : bool :=
  is_lit ((event_object payload).!"details" ?? VObj []).!"kind" kind.

(** How deep the cascade of an event can go, the event's own step included. *)
Definition event_rank (kind : string) (payload : val) : nat :=
  if (kind =s? "message.completed") && is_lit (event_object payload).!"role" "assistant" then 5
  else if kind =s? "turn.closed" then 2
  else if kind =s? "message.failed" then 3
  else if (kind =s? "invocation.completed") || (kind =s? "invocation.failed")
          || (kind =s? "invocation.cancelled") || (kind =s? "invocation.abandoned") then 3
  else if kind =s? "approval.resolved" then 4
  else if kind =s? "system.event"
  then if detail_kind payload "credential.wait_resolved"
          && negb (is_true ((event_object payload).!"details" ?? VObj []).!"resolved")
       then 1 else 5
  else 1.

Definition item_rank (item : AppendItem) : nat := event_rank item.(ai_payloadKind) item.(ai_payload).
Definition env_rank (env : LogEnvelope) : nat := event_rank env.(env_payloadKind) env.(env_payload).

Definition ranked (m : nat) (items : list AppendItem) : Prop :=
  Forall (fun i => (item_rank i <= m)%nat) items.

(** The items that answer a model call over budget. *)
Definition over_budget (st : AgentState) (items : list AppendItem) : Prop :=
  exists turn max, st.(openTurn) = Some turn /\ turn.(ot_interrupted) = false /\
    maxModelCallsPerTurn st = Some max /\ max <= turn.(ot_modelCallCount) /\
    items = [budgetDiagnosticItem turn max;
             turnClosedItem turn.(ot_turnId) (Some "max_model_calls_per_turn") None].

(** * What the steps append *)

Lemma ranked_le m n items : (m <= n)%nat -> ranked m items -> ranked n items.
Proof. intros Hle. apply Forall_impl. lia. Qed.

Lemma ranked_map {T} m (f : T -> AppendItem) l :
  (forall x, (item_rank (f x) <= m)%nat) -> ranked m (map f l).
Proof. intros Hf. induction l; constructor; auto. Qed.

Lemma modelStartItems_rank st turnId n before item effect :
  modelStartItems st turnId n before = Ok (item, effect) -> item_rank item = 1%nat.
Proof.
  unfold modelStartItems. intros H. cbv zeta in H. apply res_bind_Ok in H as ([p m] & _ & H).
  by injection H as <- _.
Qed.

Lemma nextModelCall_rank st before ctx fresh out turn :
  st.(openTurn) = Some turn -> turn.(ot_interrupted) = false ->
  nextModelCall st before ctx fresh = Ok out ->
  ranked 1 out.(so_append) \/ over_budget st out.(so_append).
Proof.
  intros Ht Hi H. unfold nextModelCall in H. rewrite Ht in H. cbv zeta in H.
  assert (Hstart : forall out, (let! (item, effect) :=
      modelStartItems st turn.(ot_turnId) turn.(ot_modelCallCount) before in
    Ok {| so_append := [item]; so_effects := EModelCall effect ::
            readAckEffects st effect.(mc_request).!"contextThroughSeq" fresh turn.(ot_turnId) ctx |})
    = Ok out -> ranked 1 out.(so_append)).
  { clear out H. intros out H. apply res_bind_Ok in H as ([item effect] & E & H). injection H as <-.
    constructor; [|constructor]. by rewrite (modelStartItems_rank _ _ _ _ _ _ E). }
  destruct (maxModelCallsPerTurn st) as [max|] eqn:Em; [|left; by apply Hstart].
  destruct (Z.leb_spec max turn.(ot_modelCallCount)); [|left; by apply Hstart].
  injection H as <-. right. by exists turn, max.
Qed.

Lemma interruptCleanupItems_rank st reason : ranked 4 (interruptCleanupItems st reason).
Proof.
  unfold interruptCleanupItems. apply Forall_app; split; [|apply Forall_app; split;
    [|apply Forall_app; split]]; try (apply ranked_map; intros x; by apply Nat.leb_le).
  destruct (openTurn st); [|constructor]. constructor; [by apply Nat.leb_le|constructor].
Qed.

Lemma expandFrom_rank st projected calls messageId attemptId turnId now out :
  expandFrom st projected calls messageId attemptId turnId now = Ok out -> ranked 1 out.(so_append).
Proof.
  revert projected out; induction calls as [|b calls IH]; intros projected out H; simpl in H.
  - injection H as <-. constructor.
  - apply res_bind_Ok in H as (p & _ & H). destruct (dict_get _ _); [|done].
    apply res_bind_Ok in H as (o & Ho & H). injection H as <-. constructor; [done|]. by eapply IH.
Qed.

Lemma promoteTrigger_rank st ctx pre id metadata fresh out :
  ranked 1 pre -> promoteTrigger st ctx pre id metadata fresh = Ok out -> ranked 1 out.(so_append).
Proof.
  unfold promoteTrigger. cbv zeta. intros Hp H. apply res_bind_Ok in H as ([item effect] & E & H).
  injection H as <-. cbn [so_append]. apply Forall_app. split; [done|].
  constructor; [by apply Nat.leb_le|]. constructor; [|constructor].
  by rewrite (modelStartItems_rank _ _ _ _ _ _ E).
Qed.

Lemma promotedRecvItem_role head seq : (promotedRecvItem head seq).(ai_payload).!"role" = VStr "user".
Proof.
  cbn [promotedRecvItem ai_payload]. cbv zeta. rewrite js_get_obj. unfold dict_merge, opt_field, protocol_field.
  rewrite fold_left_app. match goal with |- context [truthy ?v] => destruct (truthy v) end; cbn [fold_left].
  all: rewrite ?(dict_get_set_ne "metadata"), ?(dict_get_set_ne "senderRef"),
    ?(dict_get_set_ne "sourceMessageId"), ?(dict_get_set_ne "outcome") by done.
  all: by rewrite dict_get_set_eq.
Qed.

Lemma promotedRecvItem_rank head seq : item_rank (promotedRecvItem head seq) = 1%nat.
Proof.
  unfold item_rank, event_rank, event_object.
  change (is_object (ai_payload (promotedRecvItem head seq))) with true.
  cbv iota. rewrite promotedRecvItem_role. done.
Qed.

(** The step of an event appends events of lower rank, or gives up on a turn over
    budget. *)
Definition descends (m : nat) (st : AgentState) (items : list AppendItem) : Prop :=
  ranked (m - 1) items \/ ((3 <= m)%nat /\ over_budget st items).

Lemma descends_nil m st : descends m st [].
Proof. left. constructor. Qed.

Lemma descends_ranked m n st items : ranked n items -> (n < m)%nat -> descends m st items.
Proof. intros H Hn. left. eapply ranked_le; [|exact H]. lia. Qed.

Lemma descends_call m st ctx out turn :
  st.(openTurn) = Some turn -> turn.(ot_interrupted) = false -> (3 <= m)%nat ->
  nextModelCall st 0 ctx [] = Ok out -> descends m st out.(so_append).
Proof.
  intros Ht Hi Hm H. destruct (nextModelCall_rank _ _ _ _ _ _ Ht Hi H); [|by right].
  by eapply descends_ranked; [done|lia].
Qed.

Lemma assistantCompletedStep_descends st payload causality ctx out :
  assistantCompletedStep st payload causality ctx = Ok out -> descends 5 st out.(so_append).
Proof.
  unfold assistantCompletedStep. destruct (openTurn st) as [turn|] eqn:Et;
    [|intros [= <-]; apply descends_nil].
  destruct (ot_interrupted turn) eqn:Ei; rewrite ?orb_true_r, ?andb_false_r; cbn [negb andb].
  { intros [= <-]. eapply descends_ranked; [apply interruptCleanupItems_rank|lia]. }
  repeat case_match; intros Hs; try (eapply descends_call; [exact Et|done|lia|exact Hs]).
  - injection Hs as <-. eapply descends_ranked; [apply interruptCleanupItems_rank|lia].
  - injection Hs as <-. left. constructor; [by apply Nat.leb_le|constructor].
  - eapply descends_ranked; [by eapply expandFrom_rank|lia].
Qed.

Lemma promoteDeferredHead_rank st head ctx out :
  promoteDeferredHead st head ctx = Ok out -> ranked 1 out.(so_append).
Proof.
  intros Hs. apply res_bind_Ok in Hs as (s & _ & Hs). unfold promotePendingPrompt in Hs.
  destruct (pendingPrompt s); [|done]. eapply promoteTrigger_rank; [|exact Hs].
  constructor; [by rewrite promotedRecvItem_rank|constructor].
Qed.

Lemma promoteSteersAsTurn_rank st ctx out :
  promoteSteersAsTurn st ctx = Ok out -> ranked 1 out.(so_append).
Proof.
  unfold promoteSteersAsTurn. destruct (steeringQueue st); [done|].
  apply promoteTrigger_rank. constructor.
Qed.

Lemma turnClosedStep_descends st ctx out :
  turnClosedStep st ctx = Ok out -> descends 2 st out.(so_append).
Proof.
  unfold turnClosedStep. destruct (isSome _); [intros [= <-]; apply descends_nil|].
  destruct (steeringQueue st) as [|steer queue] eqn:Eq.
  - destruct (deferredPostTurnQueue st); [intros [= <-]; apply descends_nil|].
    intros Hs. left. by eapply promoteDeferredHead_rank.
  - intros Hs. left. by eapply promoteSteersAsTurn_rank.
Qed.

Lemma messageFailedStep_descends st payload ctx out :
  messageFailedStep st payload ctx = Ok out -> descends 3 st out.(so_append).
Proof.
  unfold messageFailedStep. destruct (openTurn st) as [turn|] eqn:Et;
    [|intros [= <-]; apply descends_nil].
  destruct (ot_interrupted turn) eqn:Ei; [intros [= <-]; apply descends_nil|].
  destruct (match _ with VStr s => trim s <>s? "" | _ => false end).
  { intros [= <-]. left. constructor; [by apply Nat.leb_le|constructor]. }
  destruct (negb (is_true _)).
  { intros [= <-]. left. constructor; [by apply Nat.leb_le|constructor]. }
  destruct (negb _); [intros [= <-]; apply descends_nil|].
  intros Hs. by eapply descends_call.
Qed.

Lemma invocationTerminalStep_descends st ctx out :
  invocationTerminalStep st ctx = Ok out -> descends 3 st out.(so_append).
Proof.
  unfold invocationTerminalStep. destruct (openTurn st) as [turn|] eqn:Et;
    [|intros [= <-]; apply descends_nil].
  destruct (ot_interrupted turn) eqn:Ei; [intros [= <-]; apply descends_nil|].
  cbn [orb]. destruct (_ || _); [intros [= <-]; apply descends_nil|].
  intros Hs. by eapply descends_call.
Qed.

Lemma approvalResolvedStep_descends st payload causality :
  descends 4 st (approvalResolvedStep st payload causality).(so_append).
Proof.
  unfold approvalResolvedStep. destruct (dict_get _ _); [|apply descends_nil].
  destruct (is_true _); [apply descends_nil|]. left. constructor; [by apply Nat.leb_le|constructor].
Qed.

Lemma systemEventStep_descends st payload ctx out :
  systemEventStep st payload ctx = Ok out -> descends 5 st out.(so_append).
Proof.
  unfold systemEventStep. cbv zeta. destruct (_ && negb _).
  { intros [= <-]. eapply descends_ranked; [apply interruptCleanupItems_rank|lia]. }
  destruct (_ || _); [|intros [= <-]; apply descends_nil].
  destruct (openTurn st) as [turn|] eqn:Et; [|intros [= <-]; apply descends_nil].
  destruct (ot_interrupted turn) eqn:Ei; cbn [negb andb]; [intros [= <-]; apply descends_nil|].
  destruct (_ && _); [|intros [= <-]; apply descends_nil].
  intros Hs. eapply descends_call; [exact Et|done|lia|exact Hs].
Qed.

(** A wait that was given up starts nothing. *)
Lemma systemEventStep_given_up st payload ctx out :
  is_lit (payload.!"details" ?? VObj []).!"kind" "credential.wait_resolved" = true ->
  is_true (payload.!"details" ?? VObj []).!"resolved" = false ->
  systemEventStep st payload ctx = Ok out -> out = EMPTY.
Proof.
  unfold systemEventStep. cbv zeta. intros Hk Hr. rewrite Hr.
  destruct (js_get "kind" _); try discriminate Hk. apply String.eqb_eq in Hk as ->.
  simpl. congruence.
Qed.

Lemma eventStep_descends st env ctx out :
  eventStep st env ctx = Ok out -> descends (env_rank env) st out.(so_append).
Proof.
  unfold eventStep, env_rank, event_rank, detail_kind. cbv zeta. fold (event_object (env_payload env)).
  destruct (_ && is_lit _ "assistant"); [apply assistantCompletedStep_descends|].
  destruct (_ =s? "turn.closed"); [apply turnClosedStep_descends|].
  destruct (_ =s? "message.failed"); [apply messageFailedStep_descends|].
  destruct (_ || _); [apply invocationTerminalStep_descends|].
  destruct (_ =s? "approval.resolved").
  { intros [= <-]. apply approvalResolvedStep_descends. }
  destruct (_ =s? "system.event"); [|intros [= <-]; apply descends_nil].
  destruct (is_lit _ _) eqn:Ek; [|apply systemEventStep_descends].
  destruct (is_true _) eqn:Er; [apply systemEventStep_descends|].
  intros Hs. rewrite (systemEventStep_given_up _ _ _ _ Ek Er Hs). apply descends_nil.
Qed.

(** * Policies that do not deepen the cascade *)

(** The same event to append, up to its publication. *)
Definition same_event (i j : AppendItem) : Prop :=
  j.(ai_envelopeId) = i.(ai_envelopeId) /\ j.(ai_payloadKind) = i.(ai_payloadKind) /\
  j.(ai_payload) = i.(ai_payload).

(** What an appended event gives the loop back: the policy keeps the items, adds
    only items nothing follows from, and leaves a batch without started
    invocations alone. *)
Class TamePolicy (p : StepPolicy) : Prop := {
  tame_items st env ctx out item' :
    In item' (p.(sp_intercept) st (IEventAppended env) ctx out).(so_append) ->
    (item_rank item' <= 1)%nat \/ exists item, In item out.(so_append) /\ same_event item item';
  tame_unstarted st env ctx out :
    existsb is_started out.(so_append) = false ->
    Forall2 same_event out.(so_append) (p.(sp_intercept) st (IEventAppended env) ctx out).(so_append)
}.

Lemma same_event_refl item : same_event item item.
Proof. done. Qed.

Lemma same_event_trans i j k : same_event i j -> same_event j k -> same_event i k.
Proof. unfold same_event. intuition congruence. Qed.

Lemma same_event_rank i j : same_event i j -> item_rank j = item_rank i.
Proof. intros (_ & Hk & Hp). unfold item_rank. by rewrite Hk, Hp. Qed.

Lemma same_events_refl items : Forall2 same_event items items.
Proof. induction items; constructor; done. Qed.

Lemma started_rank item : is_started item = true -> item_rank item = 1%nat.
Proof. unfold is_started, item_rank. intros ->%String.eqb_eq. done. Qed.

(** A rewrite of started invocations alone. *)
Lemma rewrite_started_items (f : AppendItem -> AppendItem) items item' :
  (forall i, is_started (f i) = is_started i) -> (forall i, is_started i = false -> f i = i) ->
  In item' (map f items) ->
  (item_rank item' <= 1)%nat \/ exists item, In item items /\ same_event item item'.
Proof.
  intros Hs Hf (i & <- & Hi)%in_map_iff. destruct (is_started i) eqn:E.
  - left. by rewrite started_rank by by rewrite Hs.
  - right. exists i. by rewrite Hf.
Qed.

Lemma rewrite_unstarted (f : AppendItem -> AppendItem) items :
  (forall i, is_started i = false -> f i = i) -> existsb is_started items = false ->
  map f items = items.
Proof.
  intros Hf. induction items as [|i items IH]; simpl; [done|].
  intros [Hi Hr]%orb_false_iff. by rewrite Hf, IH.
Qed.

Lemma channelRewrite_started st owners i :
  is_started (channelRewrite st owners i) = is_started i.
Proof. unfold channelRewrite. by destruct (channelOwner owners i). Qed.

Lemma channelRewrite_other st owners i : is_started i = false -> channelRewrite st owners i = i.
Proof. unfold channelRewrite, channelOwner. by intros ->. Qed.

#[export] Instance channelTools_tame : TamePolicy channelToolsPolicy.
Proof.
  split; intros st env ctx out; cbn [channelToolsPolicy sp_intercept]; destruct (negb _);
    eauto using same_event_refl, same_events_refl; destruct (negb _);
    eauto using same_event_refl, same_events_refl.
  - intros item' Hin. cbn [so_append] in *. revert Hin.
    apply rewrite_started_items; [apply channelRewrite_started|apply channelRewrite_other].
  - intros Hu. cbn [so_append]. rewrite rewrite_unstarted; [apply same_events_refl| |done].
    apply channelRewrite_other.
Qed.

Lemma askUserRewrite_started st target i : is_started (askUserRewrite st target i) = is_started i.
Proof. unfold askUserRewrite. by destruct (is_ask_user i). Qed.

Lemma askUserRewrite_other st target i : is_started i = false -> askUserRewrite st target i = i.
Proof. unfold askUserRewrite, is_ask_user. by intros ->. Qed.

#[export] Instance askUser_tame : TamePolicy askUserPolicy.
Proof.
  split; intros st env ctx out; cbn [askUserPolicy sp_intercept]; destruct (promptingUser _);
    eauto using same_event_refl, same_events_refl; destruct (negb _);
    eauto using same_event_refl, same_events_refl.
  - intros item' Hin. cbn [so_append] in *. revert Hin.
    apply rewrite_started_items; [apply askUserRewrite_started|apply askUserRewrite_other].
  - intros Hu. cbn [so_append]. rewrite rewrite_unstarted; [apply same_events_refl| |done].
    apply askUserRewrite_other.
Qed.

#[export] Instance approvalGate_tame : TamePolicy approvalGatePolicy.
Proof.
  split; intros st env ctx out; cbn [approvalGatePolicy sp_intercept]; destruct (strict_eqb _ _);
    eauto using same_event_refl, same_events_refl.
  - intros item'. destruct (negb _); [eauto using same_event_refl|]. cbn [so_append].
    intros (i & Hi & Hin)%in_flat_map. unfold gateItem in Hin.
    destruct (needsApproval _ i) eqn:E; [|destruct Hin as [<-|[]]; eauto using same_event_refl].
    apply andb_true_iff in E as [E _]. left.
    destruct Hin as [<-|[<-|[]]]; [|done]. by rewrite started_rank.
  - intros Hu. replace (List.filter _ _) with (@nil AppendItem); [apply same_events_refl|].
    symmetry. induction (so_append out) as [|i items IH]; [done|]. simpl in *.
    apply orb_false_iff in Hu as [Hi Hr]. unfold needsApproval at 1. rewrite Hi. by apply IH.
Qed.

#[export] Instance fork_tame : TamePolicy forkPolicy.
Proof.
  split; intros st env ctx out; cbn [forkPolicy sp_intercept is_wake negb];
    eauto using same_event_refl, same_events_refl.
Qed.

#[export] Instance silent_tame : TamePolicy silentPolicy.
Proof.
  split; intros st env ctx out; cbn [silentPolicy sp_intercept so_append]; unfold silentFilter.
  - intros item' (i & <- & Hi)%in_map_iff. right. exists i. split; [done|]. by destruct (_ || _).
  - intros _. induction (so_append out) as [|i items IH]; constructor; [|done]. by destruct (_ || _).
Qed.

(** A policy of the source. *)
Definition built_in (p : StepPolicy) : Prop := In p (silentPolicy :: defaultPolicies).

Lemma built_in_tame policies : Forall built_in policies -> Forall TamePolicy policies.
Proof.
  apply Forall_impl. intros p Hp. unfold built_in, defaultPolicies in Hp. simpl in Hp.
  decompose [or] Hp; subst; try typeclasses eauto; done.
Qed.

Lemma same_events_trans l1 l2 l3 :
  Forall2 same_event l1 l2 -> Forall2 same_event l2 l3 -> Forall2 same_event l1 l3.
Proof. apply Forall2_trans. intros i j k. apply same_event_trans. Qed.

Lemma same_events_started l1 l2 :
  Forall2 same_event l1 l2 -> existsb is_started l2 = existsb is_started l1.
Proof.
  induction 1 as [|i j l l' (_ & Hk & _) _ IH]; [done|]. simpl. unfold is_started at 1 3.
  by rewrite Hk, IH.
Qed.

(** The composed step of an event under tame policies. *)
Lemma composed_items `{ModelFailureClassifier} policies st env ctx out :
  Forall TamePolicy policies -> composeStep policies st (IEventAppended env) ctx = Ok out ->
  exists core, eventStep st env ctx = Ok core /\
    (forall item', In item' out.(so_append) ->
       (item_rank item' <= 1)%nat \/ exists item, In item core.(so_append) /\ same_event item item') /\
    (existsb is_started core.(so_append) = false -> Forall2 same_event core.(so_append) out.(so_append)).
Proof.
  intros Hp Hc. unfold composeStep in Hc. apply res_bind_Ok in Hc as (core & Hs & Hc).
  injection Hc as <-. exists core. split; [exact Hs|]. clear Hs.
  revert core. induction Hp as [|p policies Hp _ IH]; intros core; simpl.
  - split; [eauto using same_event_refl|]. intros _. apply same_events_refl.
  - destruct (IH (sp_intercept p st (IEventAppended env) ctx core)) as [Hi Hf]. split.
    + intros item' Hin. destruct (Hi _ Hin) as [?|(item & Hin1 & Hs)]; [by left|].
      destruct (tame_items _ _ _ _ _ Hin1) as [Hr|(item0 & Hin0 & Hs0)].
      * left. by rewrite (same_event_rank _ _ Hs).
      * right. eauto using same_event_trans.
    + intros Hn. pose proof (tame_unstarted st env ctx core Hn) as H1.
      eapply same_events_trans; [exact H1|]. apply Hf. by rewrite (same_events_started _ _ H1).
Qed.

(** * Appending a batch *)

Definition envelope_of (item : AppendItem) (env : LogEnvelope) : Prop :=
  env.(env_payloadKind) = item.(ai_payloadKind) /\ env.(env_payload) = item.(ai_payload).

Lemma envelope_rank item env : envelope_of item env -> env_rank env = item_rank item.
Proof. intros [Hk Hp]. unfold env_rank. by rewrite Hk, Hp. Qed.

Lemma logged_snoc sc row id :
  existsb (fun row => row.(row_envelopeId) =s? id) (sc.(sc_log) ++ [row])
  = logged sc id || (row.(row_envelopeId) =s? id).
Proof. unfold logged. rewrite existsb_app. simpl. by rewrite orb_false_r. Qed.

Lemma appendOne_logged sc envs item sc' envs' :
  appendOne (sc, envs) item = Ok (sc', envs') ->
  (forall id, logged sc' id = logged sc id || (item.(ai_envelopeId) =s? id)) /\
  sc'.(sc_policies) = sc.(sc_policies) /\
  ((logged sc item.(ai_envelopeId) = true /\ sc' = sc /\ envs' = envs)
   \/ exists env, envelope_of item env /\ envs' = envs ++ [env] /\
        applyEvent sc.(sc_state) env = Ok sc'.(sc_state)).
Proof.
  unfold appendOne. destruct (logged sc _) eqn:El.
  - intros [= <- <-]. split; [|by eauto]. intros id.
    destruct (String.eqb_spec item.(ai_envelopeId) id) as [<-|]; rewrite ?orb_false_r; [|done].
    by rewrite El.
  - intros Ha. apply res_bind_Ok in Ha as (st & Hst & Ha). injection Ha as <- <-.
    split; [intros id; apply logged_snoc|]. split; [done|]. right.
    eexists. split; [|split; [reflexivity|exact Hst]]. done.
Qed.

Lemma applyAppend_cons sc envs item items acc :
  res_foldl appendOne (sc, envs) (item :: items) = Ok acc ->
  exists sc1 envs1, appendOne (sc, envs) item = Ok (sc1, envs1) /\
    res_foldl appendOne (sc1, envs1) items = Ok acc.
Proof. intros Hr. apply res_bind_Ok in Hr as ([sc1 envs1] & H1 & H2). eauto. Qed.

Lemma applyAppend_policies sc items sc' envs :
  applyAppend sc items = Ok (sc', envs) -> sc'.(sc_policies) = sc.(sc_policies).
Proof.
  intros Ha. refine (res_foldl_inv (fun acc => sc_policies acc.1 = sc_policies sc) appendOne items _
    (sc, []) (sc', envs) eq_refl Ha).
  intros [s es] item [s' es'] Hs H1. simpl in *. apply appendOne_logged in H1 as (_ & Hp & _). congruence.
Qed.

Lemma applyAppend_envs sc items sc' envs env :
  applyAppend sc items = Ok (sc', envs) -> In env envs -> exists item, In item items /\ envelope_of item env.
Proof.
  unfold applyAppend. intros Ha Hin.
  assert (Hg : forall items sc envs0 acc, res_foldl appendOne (sc, envs0) items = Ok acc ->
    In env acc.2 -> In env envs0 \/ exists item, In item items /\ envelope_of item env).
  { clear. induction items as [|item items IH]; intros sc envs0 acc Ha Hin.
    - injection Ha as <-. by left.
    - apply applyAppend_cons in Ha as (sc1 & envs1 & H1 & Ha).
      destruct (IH _ _ _ Ha Hin) as [Hin1|(i & Hi & He)]; [|right; exists i; simpl; by auto].
      apply appendOne_logged in H1 as (_ & _ & [(_ & _ & ->)|(e & He & -> & _)]); [by left|].
      apply in_app_iff in Hin1 as [?|[<-|[]]]; [by left|]. right. exists item. simpl. auto. }
  destruct (Hg _ _ _ _ Ha Hin) as [[]|]. done.
Qed.

(** A batch already in the log appends nothing. *)
Lemma applyAppend_logged sc items :
  (forall item, In item items -> logged sc item.(ai_envelopeId) = true) ->
  applyAppend sc items = Ok (sc, []).
Proof.
  unfold applyAppend. induction items as [|item items IH]; intros Hl; [done|].
  cbn [res_foldl]. unfold appendOne at 1. rewrite Hl by by left.
  cbn [res_bind]. apply IH. intros i Hi. apply Hl. by right.
Qed.

(** * The batch over budget *)

(** An event of such a batch leaves the turn as it is or closes it. *)
Definition keeps_or_closes (st0 st : AgentState) : Prop :=
  st.(config) = st0.(config) /\ (st.(openTurn) = None \/ st.(openTurn) = st0.(openTurn)).

Lemma turn_closed_keeps st env st' :
  env.(env_payloadKind) = "turn.closed" -> applyEvent st env = Ok st' -> keeps_or_closes st st'.
Proof.
  intros Hk H. unfold applyEvent in H. rewrite Hk in H. injection H as <-.
  unfold fold_turn_closed, keeps_or_closes. destruct (isForeignAuthor _ _); [by auto|].
  repeat case_match; simpl; auto.
Qed.

Lemma assistant_completed_keeps st env st' :
  env.(env_payloadKind) = "message.completed" -> is_lit env.(env_payload).!"role" "assistant" = true ->
  applyEvent st env = Ok st' -> keeps_or_closes st st'.
Proof.
  intros Hk Hr H. unfold applyEvent in H. rewrite Hk in H. injection H as <-.
  unfold fold_message_completed. rewrite payloadRecord_get, Hr.
  unfold fold_assistant_completed, keeps_or_closes. repeat case_match; simpl; auto.
Qed.

(** What the batch leaves behind: both ids in the log, and the turn as it was or
    closed. *)
Record spent (turn : OpenTurn) (max : Z) (sc : Scenario) : Prop := {
  spent_diagnostic : logged sc (budgetDiagnosticItem turn max).(ai_envelopeId) = true;
  spent_closed : logged sc (ids.turnClosed turn.(ot_turnId)) = true;
  spent_turn : sc.(sc_state).(openTurn) = None \/ sc.(sc_state).(openTurn) = Some turn;
  spent_budget : maxModelCallsPerTurn sc.(sc_state) = Some max
}.

Definition diagnostic_env (turn : OpenTurn) (max : Z) (env : LogEnvelope) : Prop :=
  envelope_of (budgetDiagnosticItem turn max) env.

Lemma keeps_budget st0 st : keeps_or_closes st0 st -> maxModelCallsPerTurn st = maxModelCallsPerTurn st0.
Proof. intros [Hc _]. unfold maxModelCallsPerTurn. by rewrite Hc. Qed.

Lemma keeps_trans st0 st1 st2 : keeps_or_closes st0 st1 -> keeps_or_closes st1 st2 -> keeps_or_closes st0 st2.
Proof. unfold keeps_or_closes. intuition congruence. Qed.

Lemma appendOne_keeps sc envs item sc' envs' :
  (item.(ai_payloadKind) = "turn.closed"
   \/ item.(ai_payloadKind) = "message.completed" /\ is_lit item.(ai_payload).!"role" "assistant" = true) ->
  appendOne (sc, envs) item = Ok (sc', envs') ->
  keeps_or_closes sc.(sc_state) sc'.(sc_state) /\
  (envs' = envs \/ exists env, envelope_of item env /\ envs' = envs ++ [env]).
Proof.
  intros Hk (_ & _ & [(_ & -> & ->)|(env & [Ek Ep] & -> & Ha)])%appendOne_logged.
  - split; [split; auto|by left].
  - split; [|right; by exists env].
    destruct Hk as [Hk|[Hk Hr]]; [eapply turn_closed_keeps|eapply assistant_completed_keeps]; try exact Ha;
      congruence.
Qed.

Lemma over_budget_appended sc items items' sc' envs :
  over_budget sc.(sc_state) items -> Forall2 same_event items items' ->
  applyAppend sc items' = Ok (sc', envs) ->
  exists turn max diags rest, spent turn max sc' /\ turn.(ot_interrupted) = false /\
    max <= turn.(ot_modelCallCount) /\ envs = diags ++ rest /\ Forall (diagnostic_env turn max) diags /\
    Forall (fun env => env_rank env = 2%nat) rest.
Proof.
  intros (turn & max & Ht & Hi & Hm & Hle & ->) Hs Ha.
  inversion Hs as [|? d ? l (Ed & Kd & Pd) Hs1]; subst. clear Hs.
  inversion Hs1 as [|? c ? l' (Ec & Kc & Pc) Hs2]; subst. clear Hs1. inversion Hs2; subst. clear Hs2.
  unfold applyAppend in Ha. apply applyAppend_cons in Ha as (s1 & e1 & H1 & Ha).
  apply applyAppend_cons in Ha as (s2 & e2 & H2 & Ha). injection Ha as <- <-.
  pose proof (appendOne_logged _ _ _ _ _ H1) as (L1 & _ & _).
  pose proof (appendOne_logged _ _ _ _ _ H2) as (L2 & _ & _).
  apply appendOne_keeps in H1 as [K1 E1]; [|right; rewrite Kd, Pd; done].
  apply appendOne_keeps in H2 as [K2 E2]; [|left; by rewrite Kc].
  pose proof (keeps_trans _ _ _ K1 K2) as K.
  exists turn, max, e1, (skipn (length e1) e2). split; [constructor|split; [done|split; [done|split]]].
  - rewrite L2, L1, Ed, String.eqb_refl. by rewrite orb_true_r.
  - rewrite L2, Ec, String.eqb_refl. by rewrite orb_true_r.
  - destruct K as [_ [K|K]]; [by left|right; congruence].
  - by rewrite (keeps_budget _ _ K).
  - destruct E2 as [->|(env & _ & ->)].
    + by rewrite skipn_all, app_nil_r.
    + rewrite skipn_app, skipn_all, Nat.sub_diag. done.
  - split.
    + destruct E1 as [->|(env & [Hk Hp] & ->)]; [constructor|]. repeat constructor; unfold envelope_of in *; congruence.
    + destruct E2 as [->|(env & He & ->)]; [rewrite skipn_all; constructor|].
      rewrite skipn_app, skipn_all, Nat.sub_diag. simpl. repeat constructor.
      rewrite (envelope_rank _ _ He). unfold item_rank. by rewrite Kc, Pc.
Qed.

(** The step of the diagnostic of a spent turn repeats what is in the log. *)
Lemma diagnostic_step turn max st env ctx out :
  (st.(openTurn) = None \/ st.(openTurn) = Some turn) -> turn.(ot_interrupted) = false ->
  maxModelCallsPerTurn st = Some max -> max <= turn.(ot_modelCallCount) ->
  diagnostic_env turn max env -> eventStep st env ctx = Ok out ->
  existsb is_started out.(so_append) = false /\
  forall item, In item out.(so_append) ->
    item.(ai_envelopeId) = (budgetDiagnosticItem turn max).(ai_envelopeId)
    \/ item.(ai_envelopeId) = ids.turnClosed turn.(ot_turnId).
Proof.
  intros Ht Hi Hm Hle [Hk Hp] Hs. unfold eventStep in Hs. rewrite Hk, Hp in Hs.
  cbn -[assistantCompletedStep is_lit] in Hs. cbv zeta in Hs.
  change (is_lit _ _) with true in Hs. cbv iota in Hs.
  unfold assistantCompletedStep in Hs. destruct Ht as [Ht|Ht]; rewrite Ht in Hs.
  { injection Hs as <-. split; [done|intros ? []]. }
  rewrite Hi in Hs. cbn [str_or] in Hs. change (_ || false) with false in Hs. cbv iota in Hs.
  change (toolCallBlocks _) with (@nil ToolCallBlock) in Hs. cbv iota in Hs.
  destruct (nonempty _).
  - unfold nextModelCall in Hs. rewrite Ht, Hm in Hs. cbv zeta in Hs.
    rewrite (proj2 (Z.leb_le _ _) Hle) in Hs. injection Hs as <-. split; [done|].
    intros item [<-|[<-|[]]]; auto.
  - injection Hs as <-. split; [done|]. intros item [<-|[]]. by right.
Qed.

Lemma same_events_In l1 l2 j : Forall2 same_event l1 l2 -> In j l2 -> exists i, In i l1 /\ same_event i j.
Proof.
  induction 1 as [|i j' l l' Hs _ IH]; intros Hin; [done|]. destruct Hin as [<-|Hin].
  - exists i. split; [by left|done].
  - destruct (IH Hin) as (i' & Hi & Hs'). exists i'. split; [by right|done].
Qed.

(** * The cascade ends *)

Section Settles.
Context `{ModelFailureClassifier}.

(** From depth [k] on, the input is answered, always the same. *)
Definition settles (k : nat) (sc : Scenario) (incoming : Incoming) : Prop :=
  exists r, forall fuel, (k <= fuel)%nat -> dispatch fuel sc incoming = Some r.

Definition cascade_settles (k : nat) (sc : Scenario) (envs : list LogEnvelope) : Prop :=
  exists r, forall fuel, (k <= fuel)%nat -> cascade fuel sc envs = Some r.

Definition tame (sc : Scenario) : Prop := Forall TamePolicy sc.(sc_policies).

Lemma settles_le k k' sc incoming : (k <= k')%nat -> settles k sc incoming -> settles k' sc incoming.
Proof. intros Hle [r Hr]. exists r. intros fuel Hf. apply Hr. lia. Qed.

Lemma cascade_cons fuel sc env envs :
  cascade fuel sc (env :: envs) =
  match dispatch fuel sc (IEventAppended env) with
  | Some (Ok s) => cascade fuel s envs
  | other => other
  end.
Proof.
  unfold cascade. cbn [fold_left].
  destruct (dispatch fuel sc (IEventAppended env)) as [[s|e]|]; [done| |];
    (induction envs as [|? ? IH]; [done|exact IH]).
Qed.

Lemma dispatch_unfold fuel sc incoming :
  dispatch (S fuel) sc incoming =
  match composeStep sc.(sc_policies) sc.(sc_state) incoming sc.(sc_ctx) with
  | Throw e => Some (Throw e)
  | Ok output =>
      match applyAppend (set_outputs (sc.(sc_outputs) ++ [output]) sc) output.(so_append) with
      | Throw e => Some (Throw e)
      | Ok (sc1, envelopes) =>
          match registerEffects sc1 output.(so_effects) with
          | Throw e => Some (Throw e)
          | Ok sc2 => cascade fuel sc2 envelopes
          end
      end
  end.
Proof. done. Qed.

(** A scenario that differs from another in its effects and outputs only. *)
Lemma registerEffects_same sc emitted sc' :
  registerEffects sc emitted = Ok sc' ->
  sc'.(sc_state) = sc.(sc_state) /\ sc'.(sc_log) = sc.(sc_log) /\ sc'.(sc_policies) = sc.(sc_policies).
Proof. unfold registerEffects. destruct (find _ _); [done|]. by intros [= <-]. Qed.

(** The cascade of envelopes that settle, whatever happened before them. *)
Lemma cascade_policies fuel :
  (forall sc incoming sc', dispatch fuel sc incoming = Some (Ok sc') -> sc'.(sc_policies) = sc.(sc_policies)) ->
  forall envs sc sc', cascade fuel sc envs = Some (Ok sc') -> sc'.(sc_policies) = sc.(sc_policies).
Proof.
  intros Hd. induction envs as [|env envs IH]; intros sc sc' Hc.
  - by injection Hc as <-.
  - rewrite cascade_cons in Hc. destruct (dispatch _ _ _) as [[s|e]|] eqn:E; try done.
    rewrite (IH _ _ Hc). by eapply Hd.
Qed.

Lemma dispatch_policies fuel sc incoming sc' :
  dispatch fuel sc incoming = Some (Ok sc') -> sc'.(sc_policies) = sc.(sc_policies).
Proof.
  revert sc incoming sc'; induction fuel as [|fuel IH]; intros sc incoming sc' Hd; [done|].
  rewrite dispatch_unfold in Hd. destruct (composeStep _ _ _ _) as [output|]; [|done].
  destruct (applyAppend _ _) as [[s1 envs]|] eqn:Ea; [|done].
  destruct (registerEffects _ _) as [s2|] eqn:Er; [|done].
  apply applyAppend_policies in Ea. apply registerEffects_same in Er as (_ & _ & Er).
  rewrite (cascade_policies fuel IH _ _ _ Hd), Er, Ea. done.
Qed.

Lemma cascade_settles_all k envs sc :
  tame sc -> (forall sc env, tame sc -> In env envs -> settles k sc (IEventAppended env)) ->
  cascade_settles k sc envs.
Proof.
  revert sc; induction envs as [|env envs IH]; intros sc Ht He.
  { by exists (Ok sc). }
  destruct (He sc env Ht (or_introl eq_refl)) as [[s|e] Hr].
  - destruct (IH s) as [r Hc].
    + unfold tame. by rewrite (dispatch_policies _ _ _ _ (Hr k (le_n k))).
    + intros sc' env' Ht' Hin. apply He; [done|by right].
    + exists r. intros fuel Hf. rewrite cascade_cons, Hr by done. auto.
  - exists (Throw e). intros fuel Hf. by rewrite cascade_cons, Hr.
Qed.

(** An input settles one deeper than the events of its batch. *)
Lemma dispatch_settles k sc incoming :
  (forall output sc1 envs sc2,
     composeStep sc.(sc_policies) sc.(sc_state) incoming sc.(sc_ctx) = Ok output ->
     applyAppend (set_outputs (sc.(sc_outputs) ++ [output]) sc) output.(so_append) = Ok (sc1, envs) ->
     registerEffects sc1 output.(so_effects) = Ok sc2 -> cascade_settles k sc2 envs) ->
  settles (S k) sc incoming.
Proof.
  intros Hc.
  assert (Hd : exists r, forall fuel, (k <= fuel)%nat -> dispatch (S fuel) sc incoming = Some r).
  { setoid_rewrite dispatch_unfold. destruct (composeStep _ _ _ _) as [output|e] eqn:E1; [|by exists (Throw e)].
    destruct (applyAppend _ _) as [[s1 envs]|e] eqn:E2; [|by exists (Throw e)].
    destruct (registerEffects _ _) as [s2|e] eqn:E3; [|by exists (Throw e)].
    exact (Hc _ _ _ _ eq_refl E2 E3). }
  destruct Hd as [r Hr]. exists r. intros [|fuel] Hf; [lia|]. apply Hr. lia.
Qed.

(** The diagnostic of a spent turn settles at once and leaves it spent. *)
Lemma diagnostic_settles turn max sc env :
  tame sc -> spent turn max sc -> turn.(ot_interrupted) = false -> max <= turn.(ot_modelCallCount) ->
  diagnostic_env turn max env ->
  exists r, (forall fuel, (1 <= fuel)%nat -> dispatch fuel sc (IEventAppended env) = Some r) /\
    (forall sc', r = Ok sc' -> spent turn max sc' /\ tame sc').
Proof.
  intros Ht Hsp Hi Hle Hd.
  assert (Hr : exists r, (forall fuel, dispatch (S fuel) sc (IEventAppended env) = Some r) /\
    (forall sc', r = Ok sc' -> spent turn max sc' /\ tame sc')).
  { setoid_rewrite dispatch_unfold. destruct (composeStep _ _ _ _) as [output|e] eqn:E1; [|by exists (Throw e)].
    destruct (composed_items _ _ _ _ _ Ht E1) as (core & Hs & _ & Hsame).
    destruct (diagnostic_step turn max _ env _ core (spent_turn _ _ _ Hsp) Hi (spent_budget _ _ _ Hsp) Hle Hd Hs)
      as [Hn Hids].
    rewrite applyAppend_logged.
    - destruct (registerEffects _ _) as [s2|e] eqn:E3; [|by exists (Throw e)].
      exists (Ok s2). split; [done|]. intros sc' [= <-].
      apply registerEffects_same in E3 as (Es & El & Ep). cbn in Es, El, Ep.
      split; [|unfold tame; by rewrite Ep].
      destruct Hsp as [H1 H2 H3 H4]. constructor; unfold logged in *; rewrite ?Es, ?El; done.
    - intros item' Hin. destruct (same_events_In _ _ _ (Hsame Hn) Hin) as (item & Hi' & Eid & _).
      change (logged sc item'.(ai_envelopeId) = true). rewrite Eid.
      destruct (Hids item Hi') as [->| ->]; by destruct Hsp. }
  destruct Hr as (r & Hr & Hok). exists r. split; [|done]. intros [|fuel] Hf; [lia|]. apply Hr.
Qed.

(** A batch over budget: the diagnostic first, then the closing of the turn. *)
Lemma over_budget_settles turn max diags rest k sc :
  (1 <= k)%nat -> tame sc -> spent turn max sc -> turn.(ot_interrupted) = false ->
  max <= turn.(ot_modelCallCount) -> Forall (diagnostic_env turn max) diags ->
  (forall sc env, tame sc -> In env rest -> settles k sc (IEventAppended env)) ->
  cascade_settles k sc (diags ++ rest).
Proof.
  intros Hk Ht Hsp Hi Hle Hd Hrest. revert sc Ht Hsp. induction Hd as [|env diags Hd _ IH]; intros sc Ht Hsp.
  { by apply cascade_settles_all. }
  destruct (diagnostic_settles turn max sc env Ht Hsp Hi Hle Hd) as ([s|e] & Hr & Hok).
  - destruct (Hok s eq_refl) as [Hsp' Ht']. destruct (IH s Ht' Hsp') as [r Hc].
    exists r. intros fuel Hf. cbn [app]. rewrite cascade_cons, Hr by lia. auto.
  - exists (Throw e). intros fuel Hf. cbn [app]. rewrite cascade_cons, Hr by lia. done.
Qed.

Lemma event_rank_pos kind payload : (1 <= event_rank kind payload)%nat.
Proof. unfold event_rank. repeat case_match; lia. Qed.

(** An appended event settles within its rank. *)
Lemma event_settles n sc env :
  (env_rank env <= n)%nat -> tame sc -> settles n sc (IEventAppended env).
Proof.
  revert sc env; induction n as [|n IH]; intros sc env Hn Ht.
  { pose proof (event_rank_pos env.(env_payloadKind) env.(env_payload)). unfold env_rank in Hn. lia. }
  apply dispatch_settles. intros output sc1 envs sc2 Hc Ha Hr.
  destruct (composed_items _ _ _ _ _ Ht Hc) as (core & Hs & Hitems & Hsame).
  assert (Ht2 : tame sc2).
  { apply registerEffects_same in Hr as (_ & _ & Hr). apply applyAppend_policies in Ha.
    unfold tame. by rewrite Hr, Ha. }
  destruct (eventStep_descends _ _ _ _ Hs) as [Hrank|[Hm Hover]].
  - destruct (so_append core) as [|i items] eqn:Ec.
    { specialize (Hsame eq_refl). apply Forall2_nil_inv_l in Hsame. rewrite Hsame in Ha.
      injection Ha as _ <-. by exists (Ok sc2). }
    apply cascade_settles_all; [done|]. intros s e Hts Hin. apply IH; [|done].
    destruct (applyAppend_envs _ _ _ _ _ Ha Hin) as (item' & Hi' & He). rewrite (envelope_rank _ _ He).
    pose proof (Forall_inv Hrank) as Hi0. cbn beta in Hi0.
    pose proof (event_rank_pos i.(ai_payloadKind) i.(ai_payload)). unfold item_rank at 1 in Hi0.
    destruct (Hitems _ Hi') as [Hle|(item & Hin0 & Hse)]; [lia|].
    rewrite (same_event_rank _ _ Hse). unfold ranked in Hrank. rewrite List.Forall_forall in Hrank.
    specialize (Hrank _ Hin0). cbn beta in Hrank. lia.
  - assert (Hu : existsb is_started (so_append core) = false).
    { by destruct Hover as (? & ? & _ & _ & _ & _ & ->). }
    destruct (over_budget_appended (set_outputs (sc_outputs sc ++ [output]) sc) _ _ _ _ Hover (Hsame Hu) Ha)
      as (turn & max & diags & rest & Hsp & Hi & Hle & -> & Hd & Hrest).
    apply registerEffects_same in Hr as (Es & El & _).
    apply (over_budget_settles turn max); try done; [lia| |].
    + destruct Hsp as [H1 H2 H3 H4]. constructor; unfold logged in *; rewrite ?Es, ?El; done.
    + intros s e Hts Hin. apply IH; [|done]. rewrite List.Forall_forall in Hrest. rewrite (Hrest _ Hin). lia.
Qed.

Lemma env_rank_le env : (env_rank env <= 5)%nat.
Proof. unfold env_rank, event_rank. repeat case_match; lia. Qed.

Lemma any_event_settles sc env : tame sc -> settles 5 sc (IEventAppended env).
Proof. apply event_settles, env_rank_le. Qed.

Lemma incoming_settles sc incoming : tame sc -> settles 6 sc incoming.
Proof.
  intros Ht. apply dispatch_settles. intros output sc1 envs sc2 _ Ha Hr.
  apply cascade_settles_all; [|intros; by apply any_event_settles].
  apply registerEffects_same in Hr as (_ & _ & Hr). apply applyAppend_policies in Ha.
  unfold tame. by rewrite Hr, Ha.
Qed.

Lemma outcome_settles_cascade sc id outcome :
  tame sc -> exists r, forall fuel, (5 <= fuel)%nat -> resolveEffect fuel sc id outcome = Some r.
Proof.
  intros Ht. unfold resolveEffect. destruct (dict_get id _) as [d|]; [|by eexists].
  destruct (outcomeEvents _ _ _) as [items|e]; [|by exists (Throw e)].
  destruct (applyAppend _ _) as [[s1 envs]|e] eqn:Ea; [|by exists (Throw e)].
  destruct (registerEffects _ _) as [s2|e] eqn:Er; [|by exists (Throw e)].
  apply (cascade_settles_all 5 envs s2).
  - apply registerEffects_same in Er as (_ & _ & Er). apply applyAppend_policies in Ea.
    unfold tame. by rewrite Er, Ea.
  - intros. by apply any_event_settles.
Qed.
End Settles.

Module Cascade.
(** C30: the loop always answers. Under the policies of the source, whatever the
    state and the log, the cascade of an input is at most six steps deep and that
    of an outcome at most five: from that depth on the driver gives one result,
    a scenario or an error of the code, and never runs on. *)
Theorem cascade_terminates `{ModelFailureClassifier} sc :
  Forall built_in sc.(sc_policies) ->
  (forall incoming, exists r, forall fuel, (6 <= fuel)%nat -> dispatch fuel sc incoming = Some r) /\
  (forall id outcome, exists r, forall fuel, (5 <= fuel)%nat -> resolveEffect fuel sc id outcome = Some r).
Proof.
  intros Hp%built_in_tame. split.
  - intros incoming. by apply incoming_settles.
  - intros id outcome. by apply outcome_settles_cascade.
Qed.

Lemma cascade_terminates_witness :
  let sc := createScenario (initialAgentState (mkInitialStateInput "c" None None sample_config None None None None))
              defaultPolicies None in
  exists r, forall fuel, (6 <= fuel)%nat -> dispatch fuel sc (ICommand (CPrompt sample_prompt)) = Some (Ok r).
Proof.
  intros sc. destruct (proj1 (cascade_terminates sc ltac:(repeat constructor; unfold built_in; simpl; tauto))
    (ICommand (CPrompt sample_prompt))) as [r Hr].
  destruct r as [s|e]; [by exists s|]. specialize (Hr 6%nat (le_n 6)). vm_compute in Hr. discriminate Hr.
Defined.
End Cascade.
