(* ===== verification/AgentCacheProps.v ===== *)
(** The fold cache is never authority: a state loaded through a cached row is the
    one a cold refold of the log gives. *)
From stdpp Require Import gmap sorting.
From S2P Require Import Prelude Dict JsValue JsText AgentIds AgentState AgentFold AgentFoldLaws.
From S2P Require Import AgentCache AgentEffects AgentStep AgentSamples.
#[local] Open Scope Z_scope.

(** * Folding under another configuration *)

(** [config.changed]: the one event that folds a patch into the configuration. *)
Definition changes_config (env : LogEnvelope) : bool :=
  (env.(env_payloadKind) =s? "system.event") &&
  (let payload := payloadRecord env in
   let details := payload.!"details" ?? VObj [] in
   to_str (details.!"kind" ?? payload.!"kind" ?? VStr "") =s? "config.changed").

(** A state as it is reloaded under the input configuration [c]. *)
Definition rebase (f : Z) (c : val) (st : AgentState) : AgentState :=
  with_config (overlayInputConfig st.(config) c) (with_forkSeq f st).

Definition rebase_res (f : Z) (c : val) (r : res AgentState) : res AgentState :=
  match r with Ok st => Ok (rebase f c st) | Throw e => Throw e end.

Lemma mutable_message_rebase f c st payload causality :
  mutable_message (rebase f c st) payload causality = mutable_message st payload causality.
Proof. done. Qed.

Lemma applyEvent_rebase f c st env :
  changes_config env = false ->
  applyEvent (rebase f c st) env = rebase_res f c (applyEvent st env).
Proof.
  intros Hc. unfold applyEvent, changes_config in *. cbv zeta in *.
  change (withAdvance (rebase f c st) env) with (rebase f c (withAdvance st env)).
  change (isForeignAuthor (rebase f c (withAdvance st env)) env) with (isForeignAuthor (withAdvance st env) env).
  generalize (isForeignAuthor (withAdvance st env) env) as foreign. generalize (withAdvance st env) as s.
  intros s foreign.
  repeat match goal with
    | |- context [if ?b then _ else _] =>
        match b with
        | context [String.eqb (env_payloadKind _) _] => destruct b eqn:?; try reflexivity
        end
    end.
  all: unfold_cases; rewrite ?mutable_message_rebase;
    destruct s; unfold rebase, rebase_res; simpl in *;
    repeat (case_match; simplify_eq/=; try reflexivity).
  unfold rebase, with_config, with_forkSeq, overlayInputConfig. cbn [fold_left FOLD_OWNED_CONFIG_KEYS AgentState.config].
  rewrite js_get_obj, dict_get_set_eq. simpl. by rewrite dict_set_set.
Qed.

Lemma foldEvents_rebase f c st envs :
  Forall (fun e => changes_config e = false) envs ->
  foldEvents (rebase f c st) envs = rebase_res f c (foldEvents st envs).
Proof.
  unfold foldEvents. induction 1 as [|e envs He _ IH] in st |- *; simpl; [done|].
  rewrite applyEvent_rebase by done. destruct (applyEvent st e); simpl; [apply IH|done].
Qed.

(** * States up to their configuration *)

Definition plain_state (st : AgentState) : AgentState := with_config VUndef (with_forkSeq 0 st).
Definition plain_res (r : res AgentState) : res AgentState := match r with Ok st => Ok (plain_state st) | Throw e => Throw e end.

Definition recast (f : Z) (c : val) (st : AgentState) : AgentState := with_config c (with_forkSeq f st).

Lemma mutable_message_recast f c st payload causality :
  mutable_message (recast f c st) payload causality = mutable_message st payload causality.
Proof. done. Qed.

Lemma applyEvent_recast f c st env : plain_res (applyEvent (recast f c st) env) = plain_res (applyEvent st env).
Proof.
  unfold applyEvent. cbv zeta.
  change (withAdvance (recast f c st) env) with (recast f c (withAdvance st env)).
  change (isForeignAuthor (recast f c (withAdvance st env)) env) with (isForeignAuthor (withAdvance st env) env).
  generalize (isForeignAuthor (withAdvance st env) env) as foreign. generalize (withAdvance st env) as s.
  intros s foreign.
  repeat match goal with
    | |- context [if ?b then _ else _] =>
        match b with
        | context [String.eqb (env_payloadKind _) _] => destruct b eqn:?; try reflexivity
        end
    end.
  all: unfold_cases; rewrite ?mutable_message_recast; destruct s; unfold recast, plain_res; simpl in *;
    repeat (case_match; simplify_eq/=; try reflexivity).
Qed.

Lemma plain_recast st st' : plain_state st = plain_state st' -> st = recast st.(forkSeq) st.(config) st'.
Proof.
  destruct st, st'. unfold plain_state, recast, with_config, with_forkSeq. simpl. intros E. by injection E as -> -> -> -> -> -> -> -> -> -> -> -> -> -> ->.
Qed.

Lemma applyEvent_plain st st' env :
  plain_state st = plain_state st' -> plain_res (applyEvent st env) = plain_res (applyEvent st' env).
Proof. intros ->%plain_recast. apply applyEvent_recast. Qed.

Lemma plain_fields st st' : plain_state st = plain_state st' ->
  st.(lastSeq) = st'.(lastSeq) /\ st.(lastHash) = st'.(lastHash) /\ st.(logId) = st'.(logId) /\ st.(head) = st'.(head) /\
  st.(selfId) = st'.(selfId).
Proof. intros ->%plain_recast. by destruct st'. Qed.

Lemma foldEvents_plain envs : forall st st', plain_state st = plain_state st' ->
  plain_res (foldEvents st envs) = plain_res (foldEvents st' envs).
Proof.
  unfold foldEvents. induction envs as [|e envs IH]; intros st st' E; simpl; [by rewrite E|].
  pose proof (applyEvent_plain _ _ e E) as Ha.
  destruct (applyEvent st e), (applyEvent st' e); cbn [plain_res] in Ha; try discriminate Ha; cbn [res_bind].
  - apply IH. congruence.
  - simpl. by injection Ha as ->.
Qed.

(** * Reading the log *)

Definition after (seq : Z) (log : list LogEnvelope) : list LogEnvelope :=
  base.filter (fun e => seq < env_seq e) log.

Definition numbered (log : list LogEnvelope) : Prop :=
  StronglySorted (fun a b => env_seq a < env_seq b) log.

(** The gad store serves [log] under a log id and head: the head is the last
    envelope, and pages come in order. *)
Record serves `{GadPort} (logId head : string) (log : list LogEnvelope) (remote : LogHead) : Prop := {
  sv_head : getLogHead logId head = Some remote;
  sv_read : forall seq limit, (0 < limit)%nat -> readLog logId head seq limit = take limit (after seq log);
  sv_numbered : numbered log;
  sv_positive : Forall (fun e => 0 < env_seq e) log;
  sv_last : forall log' e, log = log' ++ [e] -> lh_seq remote = env_seq e /\ lh_hash remote = env_hash e
}.

Lemma after_all log seq : Forall (fun e => seq < env_seq e) log -> after seq log = log.
Proof. unfold after. induction 1; [done|]. rewrite filter_cons_True by done. congruence. Qed.

Lemma after_none log seq : Forall (fun e => env_seq e <= seq) log -> after seq log = [].
Proof. unfold after. induction 1; [done|]. rewrite filter_cons_False by lia. done. Qed.

Lemma after_split l1 e l2 : numbered (l1 ++ e :: l2) -> after (env_seq e) (l1 ++ e :: l2) = l2.
Proof.
  unfold numbered. intros (H1 & _ & [He H2]%StronglySorted_cons)%StronglySorted_app.
  unfold after. rewrite list.filter_app, filter_cons_False by lia.
  fold (after (env_seq e) l1). fold (after (env_seq e) l2). rewrite (after_none l1), (after_all l2); [done|done|].
  apply list.Forall_forall. intros x Hx. apply Z.lt_le_incl, H1; [done|by left].
Qed.

(** The log behind a position is a suffix of it. *)
Lemma after_suffix log seq :
  numbered log -> exists l1, log = l1 ++ after seq log /\ Forall (fun e => env_seq e <= seq) l1.
Proof.
  intros Hn. induction log as [|e log IH]; [by exists []|].
  pose proof Hn as [He Hn']%StronglySorted_cons. unfold after. rewrite filter_cons.
  case_decide as Hlt.
  - exists []. split; [|done]. simpl. f_equal. symmetry. apply after_all.
    eapply list.Forall_impl; [exact He|]. simpl. lia.
  - destruct (IH Hn') as (l1 & Heq & Hl1). exists (e :: l1). simpl. split; [by f_equal|]. constructor; [lia|done].
Qed.

Lemma after_numbered log seq : numbered log -> numbered (after seq log).
Proof.
  intros Hn. destruct (after_suffix log seq Hn) as (l1 & Heq & _). unfold numbered in *.
  rewrite Heq in Hn. by apply StronglySorted_app in Hn as (_ & _ & ?).
Qed.

Lemma after_after log a b : a <= b -> after b (after a log) = after b log.
Proof.
  intros Hab. unfold after. apply list_filter_filter_l. intros e. lia.
Qed.

Lemma rev_snoc_inv {A} (l : list A) x r : rev l = x :: r -> l = rev r ++ [x].
Proof. intros H. by rewrite <- (rev_involutive l), H. Qed.

Section Reading.
Context `{GadPort}.

(** Paging reads the whole log behind a position. *)
Lemma readAll_spec logId head log remote fuel seq :
  serves logId head log remote -> (length (after seq log) < fuel)%nat ->
  readAll fuel logId head seq = Some (after seq log).
Proof.
  intros Hs. induction fuel as [|fuel IH] in seq |- *; [lia|]. intros Hfuel. simpl.
  rewrite (sv_read _ _ _ _ Hs) by (unfold PAGE; lia). set (F := after seq log) in *.
  destruct (rev (take PAGE F)) as [|e r] eqn:Hrev.
  - apply (f_equal (@length _)) in Hrev. rewrite length_rev, length_take in Hrev. unfold PAGE in Hrev. simpl in Hrev.
    destruct F; [done|]. simpl in Hrev. lia.
  - apply rev_snoc_inv in Hrev as Hpage. destruct (Nat.ltb_spec (length (take PAGE F)) PAGE) as [Hlt|Hge].
    + rewrite length_take in Hlt. rewrite take_ge; [done|lia].
    + assert (F = rev r ++ e :: drop PAGE F) as HF.
      { rewrite <- (take_drop PAGE F) at 1. by rewrite Hpage, <- app_assoc. }
      assert (numbered F) as HnF by apply after_numbered, Hs.
      assert (forall D, F = rev r ++ e :: D -> D = after (env_seq e) log) as Hrest.
      { intros D HD. rewrite <- (after_after log seq (env_seq e)).
        - fold F. clear HF. rewrite HD in HnF |- *. by rewrite after_split.
        - assert (e ∈ F) as He by (rewrite HD; apply elem_of_app; right; left).
          apply list_elem_of_filter in He as [? _]. lia. }
      apply Hrest in HF as Hdrop.
      rewrite IH; rewrite <- Hdrop; [change (Some (take PAGE F ++ drop PAGE F) = Some F); by rewrite take_drop|].
       rewrite length_take in Hge. rewrite length_drop. unfold PAGE in *. lia.
Qed.
End Reading.

(** * Cold refolds *)

(** Where a refold of [log] starts. *)
Definition cold_start (input : LoadInput) (remote : LogHead) (log : list LogEnvelope) : AgentState :=
  let state := with_lastSeq 0 (emptyState input (Some remote)) in
  match log with e :: _ => with_lastHash e.(env_prevHash) state | [] => state end.

(** The state a refold of a log with envelopes gives. *)
Definition cold (input : LoadInput) (remote : LogHead) (log : list LogEnvelope) : res AgentState :=
  let! state := foldEvents (cold_start input remote log) log in
  Ok (with_forkSeq (default 0 remote.(lh_forkSeq)) state).

(** Two loads by the same agent of the same head, whose configurations agree on
    the folded key and have it. *)
Record same_agent (a b : LoadInput) : Prop := {
  sa_logId : a.(li_logId) = b.(li_logId);
  sa_head : a.(li_head) = b.(li_head);
  sa_channelId : a.(li_channelId) = b.(li_channelId);
  sa_selfId : truthy a.(li_selfId) = truthy b.(li_selfId);
  sa_roster : overlayInputConfig a.(li_config) b.(li_config) = b.(li_config)
}.

Definition plain (log : list LogEnvelope) : Prop := Forall (fun e => changes_config e = false) log.

Lemma cold_start_rebase a b ra rb log :
  same_agent a b -> log <> [] ->
  cold_start b rb log = rebase (default 0 (lh_forkSeq rb)) (li_config b) (cold_start a ra log).
Proof.
  intros [Hl Hh Hc Hs Hr] Hne. destruct log as [|e log]; [done|].
  unfold cold_start, emptyState, initialAgentState, rebase. simpl.
  rewrite Hl, Hh, Hc, Hs. unfold with_config, with_forkSeq, with_lastSeq, with_lastHash. simpl. by rewrite Hr.
Qed.

(** Refolding under another configuration and fork point. *)
Lemma cold_rebase a b ra rb log :
  same_agent a b -> log <> [] -> plain log ->
  cold b rb log = rebase_res (default 0 (lh_forkSeq rb)) (li_config b) (cold a ra log).
Proof.
  intros Hsa Hne Hp. unfold cold. rewrite (cold_start_rebase a b ra rb) by done.
  rewrite foldEvents_rebase by done. by destruct (foldEvents (cold_start a ra log) log).
Qed.

Lemma foldEvents_identity st envs st' : foldEvents st envs = Ok st' -> same_identity st st'.
Proof.
  unfold foldEvents. intros Hf. apply (res_foldl_inv (same_identity st) applyEvent) in Hf; [done| |by unfold same_identity].
  intros s e s' Hss (_ & _ & Hs')%applyEvent_frame. unfold same_identity in *. intuition congruence.
Qed.

Lemma cold_fold input remote log :
  log <> [] -> cold input remote log = foldEvents (cold_start input remote log) log.
Proof.
  intros Hne. unfold cold. destruct (foldEvents (cold_start input remote log) log) as [s|] eqn:Hf; [|done].
  apply foldEvents_identity in Hf as (_ & _ & _ & Hfork & _). simpl. f_equal.
  replace (default 0 (lh_forkSeq remote)) with (forkSeq s); [by destruct s|].
  rewrite <- Hfork. by destruct log.
Qed.

(** The tail of a log folds onto the state of its front. *)
Lemma cold_app input remote front tail :
  front <> [] ->
  cold input remote (front ++ tail) = res_bind (cold input remote front) (fun st => foldEvents st tail).
Proof.
  intros Hne. rewrite !cold_fold by (by destruct front).
  assert (cold_start input remote (front ++ tail) = cold_start input remote front) as -> by by destruct front.
  unfold foldEvents. by rewrite res_foldl_app.
Qed.

Lemma cold_selfId input remote log st :
  log <> [] -> cold input remote log = Ok st -> selfId st = truthy (li_selfId input).
Proof.
  intros Hne. rewrite cold_fold by done. intros (_ & _ & _ & _ & Hid)%foldEvents_identity.
  rewrite <- Hid. destruct log; [done|]. simpl. destruct (li_selfId input) as [s|]; simpl; [|done].
  destruct (s =s? "") eqn:E; simpl; by rewrite ?E.
Qed.

Lemma overlay_cached_rebase a b ra f log st :
  same_agent a b -> log <> [] -> cold a ra log = Ok st ->
  overlayCached b f st = rebase f (li_config b) st.
Proof.
  intros Hsa Hne Hc. apply cold_selfId in Hc as Hid; [|done]. rewrite (sa_selfId _ _ Hsa) in Hid.
  unfold overlayCached, rebase. destruct (truthy (li_selfId b)) as [s|]; [|done].
  destruct st; simpl in *. by subst.
Qed.

Section Loading.
Context `{GadPort}.

Lemma coldRefold_spec input remote log fuel :
  serves (li_logId input) (li_head input) log remote -> log <> [] -> (length log < fuel)%nat ->
  coldRefold fuel (emptyState input (Some remote)) (li_logId input) (li_head input)
    (default 0 (lh_forkSeq remote)) = Some (cold input remote log).
Proof.
  intros Hs Hne Hfuel. unfold coldRefold.
  pose proof (after_all log 0 (sv_positive _ _ _ _ Hs)) as Hall.
  rewrite (readAll_spec _ _ log remote) by (done || by rewrite Hall). rewrite Hall. simpl.
  by destruct log.
Qed.

(** The row under the head: none, or the refold of some log under some
    configuration of this agent. *)
Definition row_ok (input : LoadInput) (row : option AgentState) (front : list LogEnvelope) : Prop :=
  match row with
  | None => True
  | Some st => front <> [] /\ exists a ra, same_agent a input /\ cold a ra front = Ok st
  end.

(** The hashes of the log tell where it continues the cached one: the head's hash
    is the cached hash only for the same log, and an envelope chained to the
    cached hash follows exactly the cached log. *)
Definition hashes_identify (log front : list LogEnvelope) (remote : LogHead) (st : AgentState) : Prop :=
  (lh_seq remote = lastSeq st -> lh_hash remote = lastHash st -> front = log) /\
  (forall l1 e l2, log = l1 ++ e :: l2 -> env_prevHash e = lastHash st -> l1 = front).

Definition state_of (r : res (AgentState * CacheTable)) : res AgentState :=
  match r with Ok (st, _) => Ok st | Throw e => Throw e end.

Lemma state_of_store cache r : state_of (store cache r) = r.
Proof. by destruct r. Qed.

(** A row of this agent is, reloaded, the refold of its own log. *)
Lemma row_warm input remote row front st :
  row_ok input row front -> row = Some st -> plain front ->
  front <> [] /\ cold input remote front = Ok (overlayCached input (default 0 (lh_forkSeq remote)) st).
Proof.
  intros Hrow -> Hplain. destruct Hrow as (Hne & a & ra & Hsa & Hcold). split; [done|].
  rewrite (cold_rebase a input ra), Hcold by done. simpl. f_equal. symmetry. by eapply overlay_cached_rebase.
Qed.

(** A load refolds the log, or folds what lies behind the cached row onto the row. *)
Lemma extendCached_cases cache input remote log front st fuel :
  serves (li_logId input) (li_head input) log remote -> log <> [] ->
  (length log < fuel)%nat -> hashes_identify log front remote st ->
  state_of <$> extendCached fuel cache input remote st = Some (cold input remote log) \/
  exists tail, log = front ++ tail /\ state_of <$> extendCached fuel cache input remote st
    = Some (foldEvents (overlayCached input (default 0 (lh_forkSeq remote)) st) tail).
Proof.
  intros Hs Hne Hfuel [_ Hchain]. unfold extendCached.
  rewrite (coldRefold_spec input remote log) by done.
  destruct (Z.ltb_spec (lastSeq st) (lh_seq remote)) as [Hlt|]; [|left; simpl; by rewrite state_of_store].
  destruct (after_suffix log (lastSeq st) (sv_numbered _ _ _ _ Hs)) as (l1 & Hlog & Hl1).
  rewrite (readAll_spec _ _ log remote); [|done|].
  2:{ apply (f_equal length) in Hlog. rewrite length_app in Hlog. lia. }
  simpl. destruct (after (lastSeq st) log) as [|e tail].
  - exfalso. rewrite app_nil_r in Hlog. subst l1.
    destruct (exists_last Hne) as (log' & e & Hlast).
    destruct (sv_last _ _ _ _ Hs log' e Hlast) as [Hseq _].
    rewrite Hlast in Hl1. apply list.Forall_app in Hl1 as [_ He]. apply list.Forall_cons in He as [He _]. lia.
  - destruct (String.eqb_spec (env_prevHash e) (lastHash st)) as [Hh|Hh]; simpl; rewrite state_of_store; [|by left].
    assert (l1 = front) as -> by by eapply Hchain. right. eauto.
Qed.

Lemma loadState_cases cache input remote log front fuel :
  serves (li_logId input) (li_head input) log remote -> log <> [] -> (length log < fuel)%nat ->
  (forall st, cache_read cache (li_logId input) (li_head input) = Some st ->
     hashes_identify log front remote st) ->
  state_of <$> loadState fuel cache input = Some (cold input remote log) \/
  exists st tail, cache_read cache (li_logId input) (li_head input) = Some st /\ log = front ++ tail /\
    state_of <$> loadState fuel cache input
    = Some (foldEvents (overlayCached input (default 0 (lh_forkSeq remote)) st) tail).
Proof.
  intros Hs Hne Hfuel Hhash. unfold loadState. rewrite (sv_head _ _ _ _ Hs).
  destruct (cache_read cache (li_logId input) (li_head input)) as [st|] eqn:Hread.
  2:{ left. rewrite (coldRefold_spec input remote log) by done. simpl. by rewrite state_of_store. }
  specialize (Hhash st eq_refl). destruct (_ && _) eqn:Hhit.
  - apply andb_true_iff in Hhit as [Hseq%Z.eqb_eq Hh%String.eqb_eq].
    assert (front = log) as -> by by apply Hhash. right. exists st, []. by rewrite app_nil_r.
  - destruct (extendCached_cases cache input remote log front st fuel Hs Hne Hfuel Hhash) as [->|(tail & ? & ->)]; [by left|right; eauto].
Qed.

Lemma loadState_cold cache input remote log front fuel :
  serves (li_logId input) (li_head input) log remote -> log <> [] -> plain log ->
  (length log < fuel)%nat ->
  row_ok input (cache_read cache (li_logId input) (li_head input)) front ->
  (forall st, cache_read cache (li_logId input) (li_head input) = Some st ->
     hashes_identify log front remote st) ->
  state_of <$> loadState fuel cache input = Some (cold input remote log).
Proof.
  intros Hs Hne Hplain Hfuel Hrow Hhash.
  destruct (loadState_cases cache input remote log front fuel Hs Hne Hfuel Hhash) as [?|(st & tail & Hread & Hlog & ->)]; [done|].
  rewrite Hread in Hrow.
  assert (plain front) as Hpf by (unfold plain in *; rewrite Hlog in Hplain; by apply list.Forall_app in Hplain as [? _]).
  destruct (row_warm input remote (Some st) front st Hrow eq_refl Hpf) as [Hfne Hwarm]. by rewrite Hlog, cold_app, Hwarm by done.
Qed.

(** Whatever the log changed, a row of this agent is the refold of its log up to the
    configuration and the fork point. *)
Lemma row_warm_plain input remote st front :
  row_ok input (Some st) front ->
  front <> [] /\ exists cs, cold input remote front = Ok cs /\
    plain_state cs = plain_state (overlayCached input (default 0 (lh_forkSeq remote)) st).
Proof.
  intros (Hne & a & ra & Hsa & Hcold). split; [done|].
  rewrite (overlay_cached_rebase a input ra _ front) by done. rewrite cold_fold in Hcold by done.
  assert (Es : plain_state (cold_start input remote front) = plain_state (cold_start a ra front))
    by by rewrite (cold_start_rebase a input ra remote).
  pose proof (foldEvents_plain front _ _ Es) as Hp. rewrite Hcold in Hp. rewrite cold_fold by done.
  destruct (foldEvents (cold_start input remote front) front) as [cs|]; [|done].
  exists cs. split; [done|]. assert (plain_state cs = plain_state st) as -> by (cbn [plain_res] in Hp; congruence). by destruct st.
Qed.

(** ... and so is what is loaded through it. *)
Lemma loadState_plain cache input remote log front fuel :
  serves (li_logId input) (li_head input) log remote -> log <> [] -> (length log < fuel)%nat ->
  row_ok input (cache_read cache (li_logId input) (li_head input)) front ->
  (forall st, cache_read cache (li_logId input) (li_head input) = Some st ->
     hashes_identify log front remote st) ->
  exists r, state_of <$> loadState fuel cache input = Some r /\ plain_res r = plain_res (cold input remote log).
Proof.
  intros Hs Hne Hfuel Hrow Hhash.
  destruct (loadState_cases cache input remote log front fuel Hs Hne Hfuel Hhash) as [->|(st & tail & Hread & Hlog & ->)]; [by eauto|].
  rewrite Hread in Hrow. destruct (row_warm_plain input remote st front Hrow) as (Hfne & cs & Hcold & Hp).
  eexists. split; [done|]. rewrite Hlog, cold_app, Hcold by done. symmetry. by apply foldEvents_plain.
Qed.

Lemma cold_place input remote log st :
  log <> [] -> cold input remote log = Ok st -> logId st = li_logId input /\ head st = li_head input.
Proof.
  intros Hne. rewrite cold_fold by done. intros (Hl & Hh & _)%foldEvents_identity.
  rewrite <- Hl, <- Hh. by destruct log.
Qed.

Lemma cache_read_write cache st : cache_read (cache_write cache st) (logId st) (head st) = Some st.
Proof. unfold cache_read, cache_write, CacheTable in *. by rewrite lookup_insert_eq. Qed.

Lemma store_writes cache r st cache' : store cache r = Ok (st, cache') -> cache' = cache_write cache st.
Proof. destruct r; [|done]. by intros [= <- <-]. Qed.

(** A load keeps the row of the head or writes the state it returns. *)
Lemma loadState_writes cache input fuel st cache' remote :
  getLogHead (li_logId input) (li_head input) = Some remote ->
  loadState fuel cache input = Some (Ok (st, cache')) ->
  cache' = cache_write cache st \/
  (cache' = cache /\ exists row, cache_read cache (li_logId input) (li_head input) = Some row /\
     lh_seq remote = lastSeq row /\ lh_hash remote = lastHash row).
Proof.
  intros Hhead. unfold loadState, extendCached. rewrite Hhead. cbv zeta.
  assert (forall o : option (res AgentState),
    store cache <$> o = Some (Ok (st, cache')) -> cache' = cache_write cache st) as Hstore.
  { intros [r|] Hr; [|done]. simpl in Hr. injection Hr as Hr. by eapply store_writes. }
  destruct (cache_read cache _ _) as [row|] eqn:Hread; [|by left; eauto].
  destruct (_ && _) eqn:Hhit.
  - apply andb_true_iff in Hhit as [Hseq%Z.eqb_eq Hh%String.eqb_eq]. intros [= <- <-]. right. eauto.
  - destruct (_ <? _); [|by left; eauto]. destruct (readAll _ _ _ _) as [tail|]; simpl; [|done].
    destruct (match tail with e :: _ => _ | [] => _ end); [by left; eauto|].
    intros [= Hst]. left. by eapply store_writes.
Qed.

Lemma loadState_row cache input remote log front fuel st cache' :
  serves (li_logId input) (li_head input) log remote -> log <> [] -> plain log ->
  (length log < fuel)%nat -> same_agent input input ->
  row_ok input (cache_read cache (li_logId input) (li_head input)) front ->
  (forall st, cache_read cache (li_logId input) (li_head input) = Some st ->
     hashes_identify log front remote st) ->
  loadState fuel cache input = Some (Ok (st, cache')) ->
  row_ok input (cache_read cache' (li_logId input) (li_head input)) log.
Proof.
  intros Hs Hne Hplain Hfuel Hself Hrow Hhash Hload.
  pose proof (loadState_cold cache input remote log front fuel Hs Hne Hplain Hfuel Hrow Hhash) as Hcold.
  rewrite Hload in Hcold. simpl in Hcold. injection Hcold as Hcold. symmetry in Hcold.
  destruct (loadState_writes _ _ _ _ _ _ (sv_head _ _ _ _ Hs) Hload) as [->|(-> & row & Hread & Hseq & Hh)].
  - destruct (cold_place _ _ _ _ Hne Hcold) as [<- <-]. rewrite cache_read_write. split; [done|]. eauto.
  - rewrite Hread in Hrow |- *. specialize (Hhash row Hread). destruct Hhash as [Hsame _].
    by rewrite (Hsame Hseq Hh) in Hrow.
Qed.
End Loading.

Module Cache.

(** the fold cache is never authority. On a log without configuration
    changes, a load through a cached row of this agent, however old and whatever
    configuration it was folded under, gives the state a load with the row deleted
    gives, which is the fold of the log; and the row it leaves is again one of
    this agent's refolds. *)
Theorem cached_load_is_refold `{GadPort} cache input remote log front fuel :
  serves (li_logId input) (li_head input) log remote -> log <> [] -> plain log ->
  (length log < fuel)%nat -> same_agent input input ->
  row_ok input (cache_read cache (li_logId input) (li_head input)) front ->
  (forall st, cache_read cache (li_logId input) (li_head input) = Some st ->
     hashes_identify log front remote st) ->
  state_of <$> loadState fuel cache input = Some (foldEvents (cold_start input remote log) log) /\
  state_of <$> loadState fuel (cache_delete cache (li_logId input) (li_head input)) input
  = state_of <$> loadState fuel cache input /\
  (forall st cache', loadState fuel cache input = Some (Ok (st, cache')) ->
     row_ok input (cache_read cache' (li_logId input) (li_head input)) log).
Proof.
  intros Hs Hne Hplain Hfuel Hself Hrow Hhash. rewrite <- cold_fold by done.
  rewrite (loadState_cold cache input remote log front) by done. split; [done|]. split.
  - assert (cache_read (cache_delete cache (li_logId input) (li_head input)) (li_logId input) (li_head input) = None)
      as Hnone by (unfold cache_read, cache_delete, CacheTable in *; by rewrite lookup_delete_eq).
    eapply (loadState_cold _ input remote log []); rewrite ?Hnone; done.
  - intros st cache' Hload. by eapply loadState_row.
Qed.

(** * A served log *)

Definition sample_log : list LogEnvelope :=
  [ sample_event 1 sample_user "message.completed" [("messageId", VStr "m1")]
      [("role", VStr "user"); ("blocks", VArr [])];
    sample_event 2 sample_user "system.event" []
      [("details", VObj [("kind", VStr "roster.snapshot"); ("roster", VObj [("participants", VArr [])])])];
    sample_event 3 sample_self "turn.opened" [("turnId", VStr "t1")] [] ].

(** A log that ends by changing the model. *)
Definition sample_log_changed : list LogEnvelope :=
  sample_log ++
  [ sample_event 4 sample_self "system.event" []
      [("details", VObj [("kind", VStr "config.changed"); ("patch", VObj [("model", VStr "openai:new")])])] ].

Definition port_of (log : list LogEnvelope) (remote : LogHead) : GadPort := {|
  getLogHead _ _ := Some remote;
  readLog _ _ seq limit := take limit (after seq log)
|}.

Definition sample_head : LogHead := mkLogHead 3 "h3" None None.

Definition load_with (config : val) : LoadInput :=
  mkLoadInput "branch:channel:c" "branch:channel:c" "c" config (Some "a1").

(** The configuration of an earlier session. *)
Definition sample_old_config : val :=
  VObj (dict_set "model" (VStr "openai:old") (fields sample_config)).

(** The row of an earlier session, two events behind the head. *)
Definition sample_row (front : list LogEnvelope) (remote : LogHead) : AgentState :=
  get_ok sample_initial (cold (load_with sample_old_config) remote front).

Definition sample_cache (st : AgentState) : CacheTable := cache_write ∅ st.

#[local] Instance sample_port : GadPort := port_of sample_log sample_head.

Lemma sample_serves : serves "branch:channel:c" "branch:channel:c" sample_log sample_head.
Proof.
  split; [done|done| | |].
  - repeat constructor.
  - repeat constructor.
  - intros log' e Hlog. apply (f_equal (@rev _)) in Hlog. rewrite rev_app_distr in Hlog. simpl in Hlog.
    injection Hlog as <- _. vm_compute. done.
Qed.

Definition sample_cached : AgentState := sample_row (take 2 sample_log) sample_head.

Lemma sample_cached_cold :
  cold (load_with sample_old_config) sample_head (take 2 sample_log) = Ok sample_cached.
Proof. vm_compute. reflexivity. Qed.

Lemma sample_cached_at : lastSeq sample_cached = 2 /\ lastHash sample_cached = "h2".
Proof. vm_compute. done. Qed.

Lemma sample_cache_row :
  cache_read (sample_cache sample_cached) "branch:channel:c" "branch:channel:c" = Some sample_cached.
Proof.
  assert (take 2 sample_log <> []) as Hne by discriminate.
  destruct (cold_place _ _ _ _ Hne sample_cached_cold) as [Hl Hh]. cbn [li_logId li_head load_with] in Hl, Hh.
  pose proof (cache_read_write ∅ sample_cached) as Hrw. rewrite Hl, Hh in Hrw. exact Hrw.
Qed.

Lemma sample_same_agent : same_agent (load_with sample_old_config) (load_with sample_config).
Proof. split; reflexivity. Qed.

Lemma sample_hashes : hashes_identify sample_log (take 2 sample_log) sample_head sample_cached.
Proof.
  destruct sample_cached_at as [Hseq Hh]. split; [by rewrite Hseq|]. rewrite Hh. intros l1 e l2 Hlog Hprev.
  destruct l1 as [|a [|b [|c l1]]]; simpl in Hlog.
  - injection Hlog as <- _. vm_compute in Hprev. discriminate.
  - injection Hlog as _ <- _. vm_compute in Hprev. discriminate.
  - by injection Hlog as <- <- _ _.
  - injection Hlog as _ _ _ Hlog. by destruct l1.
Qed.

Lemma cached_load_is_refold_witness :
  state_of <$> loadState 4 (sample_cache sample_cached) (load_with sample_config)
  = Some (foldEvents (cold_start (load_with sample_config) sample_head sample_log) sample_log).
Proof.
  apply (cached_load_is_refold (sample_cache sample_cached) (load_with sample_config) sample_head
    sample_log (take 2 sample_log) 4).
  - exact sample_serves.
  - discriminate.
  - repeat constructor.
  - simpl. lia.
  - split; reflexivity.
  - simpl li_logId. simpl li_head. rewrite sample_cache_row. split; [discriminate|].
    exists (load_with sample_old_config), sample_head. exact (conj sample_same_agent sample_cached_cold).
  - intros st Hst. simpl li_logId in Hst. simpl li_head in Hst. rewrite sample_cache_row in Hst.
    injection Hst as <-. exact sample_hashes.
Defined.

(** A change of configuration in the log survives a refold and not a cached
    load, which takes the model from the input. *)
Example config_change_lost_in_cache :
  let remote := mkLogHead 4 "h4" None None in
  let port := port_of sample_log_changed remote in
  let model r := match r with Some (Ok st) => js_get "model" (config st) | _ => VUndef end in
  let input := load_with sample_config in
  let cache := sample_cache (sample_row sample_log_changed remote) in
  model (state_of <$> loadState (H := port) 5 cache input) = VStr "openai:gpt" /\
  model (state_of <$> loadState (H := port) 5 ∅ input) = VStr "openai:new".
Proof. vm_compute. done. Qed.

End Cache.
