(* ===== verification/AgentOutboxProps.v ===== *)
(** What the outbox guarantees: exclusive leases, bounded retries, no missed
    wake, and a reconcile that restores the effects of the log. *)
From S2P Require Import Prelude Dict JsValue JsText AgentIds AgentState AgentFold AgentEffects.
From S2P Require Import AgentOutbox AgentEffectsProps AgentEffects AgentStep AgentStepLaws AgentSamples.
#[local] Open Scope Z_scope.

(** * Well-formed tables *)

Definition row_key (row : OutboxRow) : string * string := (row.(or_branchId), row.(or_effectId)).

(** A row waits for its lease or for its next attempt, not for both. *)
Definition row_wf (row : OutboxRow) : Prop :=
  row.(or_leaseExpiresAt) = None \/ row.(or_nextAttemptAt) = None.

Record outbox_wf (ob : Outbox) : Prop := {
  ow_keys : NoDup (map row_key ob);
  ow_rows : Forall row_wf ob
}.

Lemma at_key_spec b e row : at_key b e row = true <-> row_key row = (b, e).
Proof. unfold at_key, row_key. rewrite andb_true_iff, !String.eqb_eq. naive_solver. Qed.

Lemma outbox_get_Some ob b e row :
  outbox_get ob b e = Some row -> In row ob /\ row_key row = (b, e).
Proof. unfold outbox_get. intros H. apply find_some in H as [Hin Hk]. by apply at_key_spec in Hk. Qed.

Lemma outbox_get_None ob b e : outbox_get ob b e = None <-> ~ In (b, e) (map row_key ob).
Proof.
  unfold outbox_get. split.
  - intros Hn (row & Hk & Hin)%in_map_iff. eapply find_none in Hn; [|exact Hin].
    by apply at_key_spec in Hk; congruence.
  - intros Hn. destruct (find _ ob) as [row|] eqn:E; [|done]. exfalso. apply Hn.
    apply find_some in E as [Hin Hk%at_key_spec]. apply in_map_iff. eauto.
Qed.

Lemma outbox_get_In ob b e row :
  NoDup (map row_key ob) -> In row ob -> row_key row = (b, e) -> outbox_get ob b e = Some row.
Proof.
  intros Hnd Hin Hk. unfold outbox_get. induction ob as [|r ob IH]; [done|]. simpl.
  apply list.NoDup_cons in Hnd as [Hr Hnd]. destruct Hin as [->|Hin].
  - by rewrite (proj2 (at_key_spec b e row)).
  - destruct (at_key b e r) eqn:E; [|by apply IH].
    apply at_key_spec in E. exfalso. apply Hr. rewrite E, <- Hk. apply list_elem_of_In, in_map, Hin.
Qed.

(** Updates that keep the key. *)
Definition keeps_key (f : OutboxRow -> OutboxRow) : Prop := forall r, row_key (f r) = row_key r.

Lemma update_row_keys f ob b e : keeps_key f -> map row_key (update_row f ob b e) = map row_key ob.
Proof. intros Hf. unfold update_row. rewrite map_map. apply map_ext. intros r. by destruct (at_key b e r). Qed.

Lemma update_row_wf f ob b e :
  keeps_key f -> (forall r, row_wf r -> row_wf (f r)) -> outbox_wf ob -> outbox_wf (update_row f ob b e).
Proof.
  intros Hf Hr [Hk Hw]. split; [by rewrite update_row_keys|].
  apply Forall_map. eapply Forall_impl; [|exact Hw]. simpl. intros r Hwr. destruct (at_key b e r); auto.
Qed.

Lemma outbox_get_update f ob b e :
  keeps_key f -> outbox_get (update_row f ob b e) b e = f <$> outbox_get ob b e.
Proof.
  intros Hf. unfold outbox_get, update_row. induction ob as [|r ob IH]; [done|]. simpl.
  destruct (at_key b e r) eqn:E; simpl; [|by rewrite E].
  assert (at_key b e (f r) = true) as -> by (apply at_key_spec; rewrite Hf; by apply at_key_spec). done.
Qed.

Lemma outbox_get_update_other f ob b e b' e' :
  keeps_key f -> (b, e) <> (b', e') -> outbox_get (update_row f ob b e) b' e' = outbox_get ob b' e'.
Proof.
  intros Hf Hne. unfold outbox_get, update_row. induction ob as [|r ob IH]; [done|]. simpl.
  destruct (at_key b e r) eqn:E; [|by rewrite IH].
  assert (at_key b' e' r = false) as Hr.
  { destruct (at_key b' e' r) eqn:E'; [|done]. apply at_key_spec in E, E'. congruence. }
  assert (at_key b' e' (f r) = false) as Hfr.
  { destruct (at_key b' e' (f r)) eqn:E'; [|done]. apply at_key_spec in E, E'. rewrite Hf in E'. congruence. }
  by rewrite Hr, Hfr.
Qed.

Lemma outbox_insert_wf ob b d next now : outbox_wf ob -> outbox_wf (outbox_insert ob b d next now).
Proof.
  intros [Hk Hw]. unfold outbox_insert. destruct (outbox_get ob b (effectId d)) eqn:E; [done|].
  apply outbox_get_None in E. split.
  - rewrite map_app. apply list.NoDup_app. split; [done|]. split; [|by repeat constructor; apply not_elem_of_nil].
    intros k Hin Hin'%list_elem_of_In. destruct Hin' as [<-|[]]. by apply E, list_elem_of_In.
  - apply Forall_app. split; [done|]. by repeat constructor; left.
Qed.

Lemma outbox_delete_wf ob b e : outbox_wf ob -> outbox_wf (outbox_delete ob b e).
Proof.
  intros [Hk Hw]. unfold outbox_delete. split.
  - induction ob as [|r ob IH]; simpl; [constructor|]. apply list.NoDup_cons in Hk as [Hr Hk].
    inversion Hw; subst. destruct (negb _); simpl; [|by apply IH]. apply list.NoDup_cons. split; [|by apply IH].
    intros Hin%list_elem_of_In. apply Hr, list_elem_of_In.
    apply in_map_iff in Hin as (x & Hx & [Hin _]%filter_In). apply in_map_iff. eauto.
  - apply Forall_forall. intros r [Hin _]%filter_In. by eapply Forall_forall in Hw.
Qed.

(** * Rows by key *)

Lemma at_key_refl row : at_key (or_branchId row) (or_effectId row) row = true.
Proof. by apply at_key_spec. Qed.

Lemma outbox_get_delete ob b e b' e' :
  outbox_get (outbox_delete ob b e) b' e' = if decide ((b, e) = (b', e')) then None else outbox_get ob b' e'.
Proof.
  unfold outbox_get, outbox_delete. induction ob as [|r ob IH]; simpl; [by case_decide|].
  destruct (at_key b e r) eqn:E; simpl.
  - rewrite IH. case_decide as Hk; [done|]. apply at_key_spec in E.
    destruct (at_key b' e' r) eqn:E'; [|done]. apply at_key_spec in E'. congruence.
  - rewrite IH. case_decide as Hk; [|done]. injection Hk as <- <-. by rewrite E.
Qed.

Definition fresh_row (b : string) (d : EffectDescriptor) (next : option Z) (now : Z) : OutboxRow :=
  mkOutboxRow (effectId d) b (eb_channelId (effect_base d)) (effect_kind d)
    (eb_idempotencyKey (effect_base d)) d 0 next None now.

Lemma outbox_get_insert ob b d next now b' e' :
  outbox_get (outbox_insert ob b d next now) b' e'
  = match outbox_get ob b' e' with
    | Some row => Some row
    | None => if decide ((b, effectId d) = (b', e')) then Some (fresh_row b d next now) else None
    end.
Proof.
  unfold outbox_insert. destruct (outbox_get ob b (effectId d)) as [r|] eqn:E.
  - destruct (outbox_get ob b' e') eqn:E'; [done|]. case_decide as Hk; [|done]. simplify_eq.
  - unfold outbox_get in *. rewrite find_app. destruct (find (at_key b' e') ob); [done|]. simpl.
    destruct (at_key b' e' _) eqn:Ek.
    + apply at_key_spec in Ek. rewrite decide_True; [done|exact Ek].
    + rewrite decide_False; [done|]. intros Hk. apply eq_true_false_abs in Ek; [done|]. by apply at_key_spec.
Qed.

(** * Reconciling *)

Lemma deletes_get (expects : string -> bool) rows ob b' e' :
  outbox_get
    (fold_left (fun ob row =>
        if expects row.(or_effectId) then ob else outbox_delete ob row.(or_branchId) row.(or_effectId))
      rows ob) b' e'
  = if existsb (fun row => negb (expects row.(or_effectId)) && at_key b' e' row) rows then None
    else outbox_get ob b' e'.
Proof.
  induction rows as [|r rows IH] in ob |- *; [done|]. simpl. rewrite IH.
  destruct (expects (or_effectId r)); simpl; [done|]. rewrite outbox_get_delete.
  destruct (at_key b' e' r) eqn:E; simpl.
  - apply at_key_spec in E. rewrite decide_True by exact E. by destruct (existsb _ _).
  - rewrite decide_False; [done|]. intros Hk. apply eq_true_false_abs in E; [done|]. by apply at_key_spec.
Qed.

Lemma deletes_wf (expects : string -> bool) rows ob :
  outbox_wf ob ->
  outbox_wf
    (fold_left (fun ob row =>
        if expects row.(or_effectId) then ob else outbox_delete ob row.(or_branchId) row.(or_effectId))
      rows ob).
Proof.
  induction rows as [|r rows IH] in ob |- *; [done|]. simpl. intros Hw. apply IH.
  destruct (expects _); [done|]. by apply outbox_delete_wf.
Qed.

Lemma inserts_get (present : string -> bool) effects ob b now b' e' :
  outbox_get
    (fold_left (fun ob effect =>
        if present (effectId effect) then ob else outbox_insert ob b effect None now) effects ob) b' e'
  = match outbox_get ob b' e' with
    | Some row => Some row
    | None =>
        if b =s? b' then
          (fun d => fresh_row b d None now)
            <$> find (fun d => negb (present (effectId d)) && (effectId d =s? e')) effects
        else None
    end.
Proof.
  induction effects as [|d effects IH] in ob |- *; simpl; [destruct (outbox_get ob b' e'); [done|by destruct (_ =s? _)]|].
  rewrite IH. destruct (present (effectId d)); simpl; [done|]. rewrite outbox_get_insert.
  destruct (outbox_get ob b' e'); [done|].
  destruct (String.eqb_spec b b') as [->|Hb], (String.eqb_spec (effectId d) e') as [->|He];
    case_decide; simplify_eq; try done; congruence.
Qed.

Lemma inserts_wf (present : string -> bool) effects ob b now :
  outbox_wf ob ->
  outbox_wf
    (fold_left (fun ob effect =>
        if present (effectId effect) then ob else outbox_insert ob b effect None now) effects ob).
Proof.
  induction effects as [|d effects IH] in ob |- *; [done|]. simpl. intros Hw. apply IH.
  destruct (present _); [done|]. by apply outbox_insert_wf.
Qed.

(** Read acks, the effects a step publishes, are named apart from derived ones. *)
Definition acks_apart (ob : Outbox) : Prop :=
  Forall (fun row => or_kind row = KPublishEnvelope -> exists s, or_effectId row = "read:" ^^ s) ob.

Lemma derived_not_ack st d s : In d (derivePendingEffects st) -> effectId d <> "read:" ^^ s.
Proof.
  intros Hd Hid. rewrite !string_app_cons in Hid.
  destruct (derive_cases _ _ Hd) as [(c & _ & ->)|[(i & _ & _ & ->)|[(a & _ & ->)|(w & _ & ->)]]];
    [|rewrite invocationEffect_id in Hid| |]; discriminate Hid.
Qed.

Lemma derived_not_publish st d : In d (derivePendingEffects st) -> effect_kind d <> KPublishEnvelope.
Proof.
  intros Hd. destruct (derive_cases _ _ Hd) as [(c & _ & ->)|[(i & _ & _ & ->)|[(a & _ & ->)|(w & _ & ->)]]]; try done.
  unfold invocationEffect. by repeat case_match.
Qed.

Lemma existsb_ids {A} (f : A -> string) (l : list A) id :
  existsb (fun x => f x =s? id) l = true <-> exists x, In x l /\ f x = id.
Proof. rewrite existsb_exists. setoid_rewrite String.eqb_eq. done. Qed.

Lemma forBranch_In ob b row :
  In row (forBranch ob b) <-> In row ob /\ or_branchId row = b /\ or_kind row <> KPublishEnvelope.
Proof.
  unfold forBranch. rewrite filter_In, andb_true_iff, String.eqb_eq, negb_true_iff, bool_decide_eq_false. done.
Qed.

(** The keys whose rows the first loop of reconcile deletes. *)
Lemma gone_spec (expects : string -> bool) ob b b' e' :
  outbox_wf ob ->
  existsb (fun row => negb (expects row.(or_effectId)) && at_key b' e' row) (forBranch ob b)
  = (b =s? b') &&
    match outbox_get ob b e' with
    | Some row => negb (bool_decide (or_kind row = KPublishEnvelope)) && negb (expects e')
    | None => false
    end.
Proof.
  intros Hw. apply eq_true_iff_eq. rewrite existsb_exists, andb_true_iff, String.eqb_eq. split.
  - intros (x & (Hx & Hxb & Hxk)%forBranch_In & [Hexp Hkey%at_key_spec]%andb_true_iff).
    pose proof (outbox_get_In ob b' e' x (ow_keys _ Hw) Hx Hkey) as Hget.
    unfold row_key in Hkey. injection Hkey as Hb He. assert (b = b') as <- by congruence. split; [done|].
    rewrite Hget, bool_decide_eq_false_2 by done. by rewrite <- He.
  - intros [<- Hrow]. destruct (outbox_get ob b e') as [row|] eqn:E; [|done].
    apply andb_true_iff in Hrow as [Hk%negb_true_iff Hexp]. apply bool_decide_eq_false in Hk.
    apply outbox_get_Some in E as [Hin Hkey]. pose proof Hkey as [= Hb He].
    exists row. rewrite forBranch_In, He, Hexp. split; [done|]. simpl. by apply at_key_spec.
Qed.

(** A key without a row: the second loop finds the effect to insert. *)
Lemma find_absent ob b e' ds :
  outbox_get ob b e' = None ->
  find (fun d => negb (existsb (fun r => or_effectId r =s? effectId d) (forBranch ob b)) && (effectId d =s? e')) ds
  = find (fun d => effectId d =s? e') ds.
Proof.
  intros E%outbox_get_None. induction ds as [|d ds IH]; [done|]. simpl.
  destruct (String.eqb_spec (effectId d) e') as [He|]; [|by rewrite andb_false_r].
  assert (existsb (fun r => or_effectId r =s? effectId d) (forBranch ob b) = false) as ->; [|done].
  apply not_true_iff_false. rewrite existsb_ids. intros (x & (Hx & Hxb & _)%forBranch_In & Hxe).
  apply E, in_map_iff. exists x. split; [|done]. unfold row_key. congruence.
Qed.

(** The row reconcile leaves under each key. *)
Lemma reconcile_get ob b st now b' e' :
  outbox_wf ob ->
  outbox_get (reconcile_rows ob b st now) b' e'
  = if b =s? b' then
      match outbox_get ob b e' with
      | Some row =>
          if bool_decide (or_kind row = KPublishEnvelope)
             || existsb (fun e => effectId e =s? e') (derivePendingEffects st)
          then Some row else None
      | None => (fun d => fresh_row b d None now) <$> find (fun d => effectId d =s? e') (derivePendingEffects st)
      end
    else outbox_get ob b' e'.
Proof.
  intros Hw. unfold reconcile_rows. cbv zeta.
  rewrite (inserts_get (fun id => existsb (fun r => or_effectId r =s? id) (forBranch ob b))),
    (deletes_get (fun id => existsb (fun e => effectId e =s? id) (derivePendingEffects st))),
    (gone_spec (fun id => existsb (fun e => effectId e =s? id) (derivePendingEffects st))) by done.
  destruct (String.eqb_spec b b') as [<-|Hb]; simpl; [|by destruct (outbox_get ob b' e')].
  destruct (outbox_get ob b e') as [row|] eqn:E; [|by rewrite find_absent].
  destruct (bool_decide _); simpl; [done|].
  destruct (existsb (fun e => effectId e =s? e') (derivePendingEffects st)) eqn:Hexp; simpl; [done|].
  destruct (find _ _) as [d|] eqn:Hf; [|done]. exfalso. apply eq_true_false_abs in Hexp; [done|].
  apply find_some in Hf as [Hd [_ Hde%String.eqb_eq]%andb_true_iff]. apply existsb_ids. eauto.
Qed.

Lemma reconcile_wf ob b st now : outbox_wf ob -> outbox_wf (reconcile_rows ob b st now).
Proof.
  intros Hw. unfold reconcile_rows. cbv zeta.
  apply (inserts_wf (fun id => existsb (fun r => or_effectId r =s? id) (forBranch ob b))).
  by apply (deletes_wf (fun id => existsb (fun e => effectId e =s? id) (derivePendingEffects st))).
Qed.

Lemma In_get ob row :
  outbox_wf ob -> In row ob <-> outbox_get ob (or_branchId row) (or_effectId row) = Some row.
Proof.
  intros Hw. split; [by intros; apply outbox_get_In; [apply Hw| |]|]. by intros [? _]%outbox_get_Some.
Qed.

(** The row of a derived effect. *)
Lemma reconcile_row ob b st now d :
  outbox_wf ob -> In d (derivePendingEffects st) ->
  match outbox_get ob b (effectId d) with
  | Some row => outbox_get (reconcile_rows ob b st now) b (effectId d) = Some row
  | None => exists d', In d' (derivePendingEffects st) /\ effectId d' = effectId d /\
      outbox_get (reconcile_rows ob b st now) b (effectId d) = Some (fresh_row b d' None now)
  end.
Proof.
  intros Hw Hd. rewrite reconcile_get, String.eqb_refl by done.
  assert (existsb (fun e => effectId e =s? effectId d) (derivePendingEffects st) = true) as Hexp
    by (apply existsb_ids; eauto).
  destruct (outbox_get ob b (effectId d)) as [row|]; [by rewrite Hexp, orb_true_r|].
  destruct (find (fun d' => effectId d' =s? effectId d) (derivePendingEffects st)) as [d'|] eqn:Hf.
  - apply find_some in Hf as [Hd' He%String.eqb_eq]. eauto.
  - eapply find_none in Hf; [|exact Hd]. by rewrite String.eqb_refl in Hf.
Qed.

(** The rows of the branch are the derived effects'. *)
Lemma reconcile_ids ob b st now id :
  outbox_wf ob -> acks_apart ob ->
  (exists row, In row (forBranch (reconcile_rows ob b st now) b) /\ or_effectId row = id) <->
  (exists d, In d (derivePendingEffects st) /\ effectId d = id).
Proof.
  intros Hw Hacks. split.
  - intros (row & (Hin & Hb & Hk)%forBranch_In & <-). apply In_get in Hin; [|by apply reconcile_wf].
    rewrite reconcile_get, Hb, String.eqb_refl in Hin by done.
    destruct (outbox_get ob b (or_effectId row)) as [r|].
    + destruct (bool_decide _) eqn:Hp; simpl in Hin; [injection Hin as ->; by apply bool_decide_eq_true in Hp|].
      destruct (existsb _ _) eqn:Hexp; [|done]. by apply existsb_ids in Hexp.
    + destruct (find _ _) as [d|] eqn:Hf; [|done]. apply find_some in Hf as [Hd He%String.eqb_eq]. eauto.
  - intros (d & Hd & <-). pose proof (reconcile_row ob b st now d Hw Hd) as Hrow.
    destruct (outbox_get ob b (effectId d)) as [row|] eqn:E.
    + exists row. apply outbox_get_Some in E as [Hin [= Hb He]]. split; [|done].
      apply forBranch_In. split; [by apply outbox_get_Some in Hrow as [? _]|]. split; [done|]. intros Hp.
      unfold acks_apart in Hacks. rewrite List.Forall_forall in Hacks. destruct (Hacks row Hin Hp) as [s Hs].
      apply (derived_not_ack st d s Hd). congruence.
    + destruct Hrow as (d' & Hd' & He & Hget). exists (fresh_row b d' None now). split; [|done].
      apply forBranch_In. split; [by apply outbox_get_Some in Hget as [? _]|]. split; [done|]. simpl.
      by apply (derived_not_publish st).
Qed.

Lemma reconcile_frame ob b st now row :
  outbox_wf ob -> or_branchId row <> b \/ or_kind row = KPublishEnvelope ->
  In row ob <-> In row (reconcile_rows ob b st now).
Proof.
  intros Hw Hrow. rewrite !In_get, reconcile_get by (done || by apply reconcile_wf).
  destruct (String.eqb_spec b (or_branchId row)) as [Hb|]; [|done]. destruct Hrow as [?|Hp]; [congruence|]. rewrite <- Hb.
  destruct (outbox_get ob b (or_effectId row)) as [r|] eqn:E.
  - destruct (bool_decide _) eqn:Hk; [done|]. apply bool_decide_eq_false in Hk.
    split; [congruence|]. simpl. destruct (existsb _ _); congruence.
  - split; [done|]. destruct (find _ _) as [d|] eqn:Hf; [|done]. simpl. intros [= <-].
    apply find_some in Hf as [Hd _]. by apply derived_not_publish in Hd.
Qed.

(** * Schedules *)

Lemma set_schedule_key a n l row : row_key (set_schedule a n l row) = row_key row.
Proof. done. Qed.

Lemma update_row_other f ob b e row :
  keeps_key f -> row_key row <> (b, e) -> In row (update_row f ob b e) <-> In row ob.
Proof.
  intros Hf Hne. unfold update_row. rewrite in_map_iff. split.
  - intros (x & <- & Hx). destruct (at_key b e x) eqn:E; [|done]. exfalso. apply Hne. rewrite Hf. by apply at_key_spec.
  - intros Hin. exists row. split; [|done]. destruct (at_key b e row) eqn:E; [|done]. by apply at_key_spec in E.
Qed.

Lemma update_row_at f ob b e row row' :
  keeps_key f -> outbox_wf ob -> outbox_get ob b e = Some row ->
  In row' (update_row f ob b e) /\ row_key row' = (b, e) <-> row' = f row.
Proof.
  intros Hf Hw Hget. pose proof (outbox_get_Some _ _ _ _ Hget) as [Hin Hk]. split.
  - intros [(x & <- & Hx)%in_map_iff Hkey].
    destruct (at_key b e x) eqn:E; [|by apply at_key_spec in Hkey; congruence].
    apply at_key_spec in E. rewrite (outbox_get_In ob b e x (ow_keys _ Hw) Hx E) in Hget. congruence.
  - intros ->. split; [|by rewrite Hf]. apply in_map_iff. exists row. split; [|done].
    by rewrite (proj2 (at_key_spec b e row)).
Qed.

Lemma due_In ob now row : In row (due ob now) <-> In row ob /\ is_due now row = true.
Proof. apply filter_In. Qed.

Lemma is_due_spec now row :
  is_due now row = true <->
  (forall t, or_nextAttemptAt row = Some t -> t <= now) /\ (forall t, or_leaseExpiresAt row = Some t -> t <= now).
Proof.
  unfold is_due, past. rewrite andb_true_iff.
  destruct (or_nextAttemptAt row), (or_leaseExpiresAt row); rewrite ?Z.leb_le; naive_solver.
Qed.

(** A well-formed row is due from its wake on. *)
Lemma is_due_wake now row : row_wf row -> 0 <= now -> is_due now row = true <-> wake_of row <= now.
Proof.
  intros Hw Hn. rewrite is_due_spec. unfold wake_of, row_wf in *.
  destruct (or_nextAttemptAt row), (or_leaseExpiresAt row); simpl; destruct Hw; simplify_eq; naive_solver lia.
Qed.

Lemma fold_min l m :
  fold_left (fun m r => Z.min m (wake_of r)) l m <= m /\
  Forall (fun r => fold_left (fun m r => Z.min m (wake_of r)) l m <= wake_of r) l /\
  (fold_left (fun m r => Z.min m (wake_of r)) l m = m \/
   exists r, In r l /\ fold_left (fun m r => Z.min m (wake_of r)) l m = wake_of r).
Proof.
  induction l as [|r l IH] in m |- *; simpl; [split_and!; [lia|constructor|by left]|].
  destruct (IH (Z.min m (wake_of r))) as (H1 & H2 & H3). split_and!; [lia|constructor; [lia|done]|].
  destruct H3 as [H3|(x & Hx & H3)]; [|right; eauto].
  rewrite H3. destruct (Z.min_spec m (wake_of r)) as [[_ ->]|[_ ->]]; [by left|right; eauto].
Qed.

Lemma earliest_spec ob t :
  earliestDueAt ob = Some t ->
  (forall row, In row ob -> t <= wake_of row) /\ exists row, In row ob /\ t = wake_of row.
Proof.
  destruct ob as [|r ob]; [done|]. simpl. intros [= <-].
  destruct (fold_min ob (wake_of r)) as (H1 & H2 & H3). split.
  - intros row [<-|Hin]; [done|]. by eapply List.Forall_forall in H2.
  - destruct H3 as [H3|(x & Hx & H3)]; eauto.
Qed.

Lemma outbox_update_schedule_wf ob b e f :
  keeps_key f -> (forall r, row_wf (f r)) -> outbox_wf ob -> outbox_wf (update_row f ob b e).
Proof. intros Hf Hr. apply update_row_wf; auto. Qed.

Lemma lease_wf ob b e now : outbox_wf ob -> outbox_wf (lease ob b e now).
Proof. apply outbox_update_schedule_wf; [done|]. by right. Qed.

Lemma releaseLease_wf ob b e : outbox_wf ob -> outbox_wf (releaseLease ob b e).
Proof. apply outbox_update_schedule_wf; [done|]. by left. Qed.

Lemma recordFailure_wf ob b e now d : outbox_wf ob -> outbox_wf (recordFailure ob b e now d).1.
Proof.
  intros Hw. unfold recordFailure. destruct (outbox_get ob b e); [|done].
  simpl. apply outbox_update_schedule_wf; [done| |done]. by left.
Qed.

Lemma deferRedrive_wf ob row d resume now : outbox_wf ob -> outbox_wf (deferRedrive ob row d resume now).1.
Proof. apply outbox_update_schedule_wf; [done|]. by left. Qed.

Lemma nudgeRedrive_wf ob row pumping now : outbox_wf ob -> outbox_wf (nudgeRedrive ob row pumping now).1.
Proof. apply outbox_update_schedule_wf; [done|]. by left. Qed.

(** The tables the driver can reach. *)
Inductive outbox_step : Outbox -> Outbox -> Prop :=
| os_insert ob b d next now : outbox_step ob (outbox_insert ob b d next now)
| os_delete ob b e : outbox_step ob (outbox_delete ob b e)
| os_lease ob b e now : outbox_step ob (lease ob b e now)
| os_release ob b e : outbox_step ob (releaseLease ob b e)
| os_failure ob b e now d : outbox_step ob (recordFailure ob b e now d).1
| os_defer ob row d resume now : outbox_step ob (deferRedrive ob row d resume now).1
| os_nudge ob row pumping now : outbox_step ob (nudgeRedrive ob row pumping now).1
| os_reconcile ob b st resume now : outbox_step ob (reconcile ob b st resume now).1.

Lemma scheduleEarliest_spec ob resume now row :
  In row ob -> exists t, scheduleEarliest ob resume now = Some t /\ t <= Z.max (wake_of row) (now + 50).
Proof.
  intros Hin. unfold scheduleEarliest, nextWakeAt.
  destruct (earliestDueAt ob) as [t|] eqn:E; [|by destruct ob].
  apply earliest_spec in E as [Hle _]. specialize (Hle row Hin).
  destruct resume; eexists; (split; [done|]); lia.
Qed.

Inductive outbox_reachable : Outbox -> Prop :=
| or_empty : outbox_reachable []
| or_step ob ob' : outbox_reachable ob -> outbox_step ob ob' -> outbox_reachable ob'.

Lemma outbox_reachable_wf ob : outbox_reachable ob -> outbox_wf ob.
Proof.
  induction 1 as [|ob ob' _ IH Hstep]; [split; constructor|].
  destruct Hstep; try by apply reconcile_wf.
  all: auto using outbox_insert_wf, outbox_delete_wf, lease_wf, releaseLease_wf,
    recordFailure_wf, deferRedrive_wf, nudgeRedrive_wf.
Qed.

(** * The rows of a driver *)

(** The rows are well formed, and the published ones are read acks. *)
Record rows_ok (ob : Outbox) : Prop := {
  ro_wf : outbox_wf ob;
  ro_acks : acks_apart ob
}.

Definition keeps_effect (f : OutboxRow -> OutboxRow) : Prop :=
  forall r, row_key (f r) = row_key r /\ or_kind (f r) = or_kind r.

Lemma rows_update f ob b e : keeps_effect f -> (forall r, row_wf (f r)) -> rows_ok ob -> rows_ok (update_row f ob b e).
Proof.
  intros Hf Hr [Hw Ha]. split; [by apply outbox_update_schedule_wf; [intros r; apply Hf|..]|].
  apply Forall_map. eapply Forall_impl; [|exact Ha]. simpl. intros r. destruct (at_key b e r); [|done].
  destruct (Hf r) as [[= _ ->] ->]. done.
Qed.

Lemma rows_empty : rows_ok [].
Proof. split; [split|]; constructor. Qed.

Lemma rows_insert ob b d next now : ack_named d -> rows_ok ob -> rows_ok (outbox_insert ob b d next now).
Proof.
  intros Hd [Hw Ha]. split; [by apply outbox_insert_wf|]. unfold outbox_insert. destruct (outbox_get _ _ _); [done|].
  apply Forall_app. split; [done|]. by constructor; [|constructor].
Qed.

Lemma rows_filter (keep : OutboxRow -> bool) ob : acks_apart ob -> acks_apart (List.filter keep ob).
Proof. unfold acks_apart. rewrite !List.Forall_forall. intros H row [Hin _]%filter_In. by apply H. Qed.

Lemma rows_delete ob b e : rows_ok ob -> rows_ok (outbox_delete ob b e).
Proof. intros [Hw Ha]. split; [by apply outbox_delete_wf|by apply rows_filter]. Qed.

Lemma rows_lease ob b e now : rows_ok ob -> rows_ok (lease ob b e now).
Proof. apply rows_update; [done|]. by right. Qed.

Lemma rows_failure ob b e now d : rows_ok ob -> rows_ok (recordFailure ob b e now d).1.
Proof. intros H. unfold recordFailure. destruct (outbox_get ob b e); [|done]. apply rows_update; [done| |done]. by left. Qed.

Lemma rows_retry ob row after resume now : rows_ok ob -> rows_ok (retryEffect ob row after resume now).1.
Proof.
  intros H. pose proof (rows_failure ob (or_branchId row) (or_effectId row) now after H) as Hf. unfold retryEffect.
  destruct (recordFailure _ _ _ _ _) as [ob' [updated|]]; [|done]. destruct (maxAttempts _ _); [|done]. by destruct (_ <=? _).
Qed.

Lemma rows_defer ob row d resume now : rows_ok ob -> rows_ok (deferRedrive ob row d resume now).1.
Proof. apply rows_update; [done|]. by left. Qed.

Lemma rows_nudge ob row pumping now : rows_ok ob -> rows_ok (nudgeRedrive ob row pumping now).1.
Proof. apply rows_update; [done|]. by left. Qed.

Lemma rows_reconcile ob b st resume now : rows_ok ob -> rows_ok (reconcile ob b st resume now).1.
Proof.
  unfold reconcile, reconcile_rows. cbn [fst]. cbv zeta. generalize (forBranch ob b) at 2 as rows. intros rows Hob.
  match goal with |- rows_ok (fold_left ?f _ ?o) => assert (Ho : rows_ok o) end.
  { revert ob Hob. induction rows as [|row rows IH]; intros ob Hob; simpl; [done|]. apply IH.
    destruct (existsb _ _); [done|by apply rows_delete]. }
  match goal with |- rows_ok (fold_left ?f ?l ?o) => assert (Hd : Forall ack_named l) end.
  { apply List.Forall_forall. intros d Hd Hk. by apply derived_not_publish in Hd. }
  match type of Ho with rows_ok ?o => generalize dependent o end.
  induction Hd as [|d effects Hd _ IH]; intros o Ho; simpl; [done|]. apply IH.
  destruct (existsb _ _); [done|by apply rows_insert].
Qed.

Module Outbox.

(** C23: reconciling restores the effects of the log, whatever crash or loss left
    the table in. Afterwards the branch has a row for exactly the effects the
    state derives: a surviving row keeps its attempts and its lease, a missing one
    is put back due at once, the rows of other branches and the pending acks are
    untouched, and the alarm is armed for the first of them. *)
Theorem reconcile_restores ob b st resume now :
  outbox_reachable ob -> acks_apart ob ->
  let '(ob', alarm) := reconcile ob b st resume now in
  outbox_wf ob' /\
  (forall row, In row ob' -> exists t, alarm = Some t /\ t <= Z.max (wake_of row) (now + 50)) /\
  (forall id, (exists row, In row (forBranch ob' b) /\ or_effectId row = id) <->
     exists d, In d (derivePendingEffects st) /\ effectId d = id) /\
  (forall d, In d (derivePendingEffects st) ->
     match outbox_get ob b (effectId d) with
     | Some row => outbox_get ob' b (effectId d) = Some row
     | None => exists d', In d' (derivePendingEffects st) /\ effectId d' = effectId d /\
         outbox_get ob' b (effectId d) = Some (fresh_row b d' None now)
     end) /\
  (forall row, or_branchId row <> b \/ or_kind row = KPublishEnvelope -> In row ob <-> In row ob').
Proof.
  intros Hw%outbox_reachable_wf Hacks. unfold reconcile. cbv zeta. split; [by apply reconcile_wf|].
  split; [intros row; apply scheduleEarliest_spec|]. split; [by intros; apply reconcile_ids|].
  split; [by intros; apply reconcile_row|by intros; apply reconcile_frame].
Qed.

(** A leased effect is not dispatched a second time before its lease ends, and
    is due again from then on, and the lease touches no other row. *)
Theorem lease_exclusive ob b e now row t :
  outbox_reachable ob -> outbox_get ob b e = Some row ->
  ((exists r, In r (due (lease ob b e now) t) /\ row_key r = (b, e)) <-> now + leaseMs (or_kind row) <= t) /\
  (forall r, row_key r <> (b, e) -> In r (due (lease ob b e now) t) <-> In r (due ob t)).
Proof.
  intros Hw%outbox_reachable_wf Hget. unfold lease.
  set (leased := fun row => set_schedule (or_attempts row) None (Some (now + leaseMs (or_kind row))) row).
  assert (keeps_key leased) by done. split.
  - split.
    + intros (r & [Hin Hdue]%due_In & Hk).
      assert (r = leased row) as -> by
        exact (proj1 (update_row_at leased ob b e row r ltac:(done) Hw Hget) (conj Hin Hk)).
      apply is_due_spec in Hdue as [_ Hl]. by apply Hl.
    + intros Ht. exists (set_schedule (or_attempts row) None (Some (now + leaseMs (or_kind row))) row).
      destruct (proj2 (update_row_at leased ob b e row (leased row) ltac:(done) Hw Hget) eq_refl) as [Hin Hk].
      split; [|done]. apply due_In. split; [done|]. apply is_due_spec. simpl. naive_solver.
  - intros r Hne. by rewrite !due_In, update_row_other.
Qed.

(** C24: no wake is missed: there is work due exactly when the earliest due time of the
    rows has come, which the driver derives its alarm from. *)
Theorem no_missed_wake ob now :
  outbox_reachable ob -> 0 <= now ->
  due ob now <> [] <-> exists t, earliestDueAt ob = Some t /\ t <= now.
Proof.
  intros Hw%outbox_reachable_wf Hn. pose proof (ow_rows _ Hw) as Hrows. rewrite List.Forall_forall in Hrows. split.
  - intros Hne. destruct (due ob now) as [|r rest] eqn:E; [done|].
    assert (In r (due ob now)) as [Hin Hd]%due_In by (rewrite E; by left).
    apply is_due_wake in Hd; [|by apply Hrows|done].
    destruct (earliestDueAt ob) as [t|] eqn:Ee; [|by destruct ob].
    exists t. split; [done|]. apply earliest_spec in Ee as [Hle _]. specialize (Hle r Hin). lia.
  - intros (t & (_ & row & Hin & ->)%earliest_spec & Hle) Hnil.
    assert (In row (due ob now)) as Hd by (apply due_In; split; [done|]; apply is_due_wake; auto).
    by rewrite Hnil in Hd.
Qed.

(** The delay a failure waits for. *)
Definition failure_delay (attempts : Z) (retryAfterMs : option Z) : Z :=
  match retryAfterMs with
  | Some d => if 0 <=? d then d else backoffMs attempts
  | None => backoffMs attempts
  end.

(** C25: retries are counted, spaced and bounded. A failed attempt raises the row's
    count by one and puts the next one off by the provider's delay, or by a backoff
    of one to thirty seconds; and the row is given up exactly when the count
    reaches the limit of its kind. *)
Theorem retry_bounded ob row retryAfterMs resume now :
  outbox_reachable ob -> In row ob -> 0 <= or_attempts row ->
  let '(ob', decision) := retryEffect ob row retryAfterMs resume now in
  exists row', outbox_get ob' (or_branchId row) (or_effectId row) = Some row' /\
    or_attempts row' = or_attempts row + 1 /\
    (decision = GiveUp row' <->
       exists m, maxAttempts (or_kind row) false = Some m /\ m <= or_attempts row + 1) /\
    (forall t, is_due t row' = true <-> now + failure_delay (or_attempts row + 1) retryAfterMs <= t) /\
    1000 <= backoffMs (or_attempts row + 1) <= 30000.
Proof.
  intros Hw%outbox_reachable_wf Hin Ha. apply In_get in Hin; [|done].
  set (row' := set_schedule (or_attempts row + 1)
    (Some (now + failure_delay (or_attempts row + 1) retryAfterMs)) None row).
  assert (recordFailure ob (or_branchId row) (or_effectId row) now retryAfterMs
    = (update_row (set_schedule (or_attempts row + 1)
         (Some (now + failure_delay (or_attempts row + 1) retryAfterMs)) None) ob (or_branchId row) (or_effectId row),
       Some row')) as Hrec.
  { unfold recordFailure. rewrite Hin, outbox_get_update, Hin by done. done. }
  assert (forall t, is_due t row' = true <-> now + failure_delay (or_attempts row + 1) retryAfterMs <= t) as Hdue.
  { intros t. rewrite is_due_spec. simpl. naive_solver. }
  assert (1000 <= backoffMs (or_attempts row + 1) <= 30000) as Hb.
  { unfold backoffMs. assert (2 ^ 1 <= 2 ^ (or_attempts row + 1)) by (apply Z.pow_le_mono_r; lia). lia. }
  unfold retryEffect. rewrite Hrec. change (or_kind row') with (or_kind row).
  change (or_attempts row') with (or_attempts row + 1).
  destruct (maxAttempts (or_kind row) false) as [m|]; [destruct (Z.leb_spec m (or_attempts row + 1))|];
    (exists row'; rewrite outbox_get_update, Hin by done; split_and!; [done|done| |done|lia|lia]); naive_solver lia.
Qed.

(** * A branch with three effects and a stale row *)

Definition sample_branch : string := "branch:channel:c".

(** What a crash left: the row of an effect long settled. *)
Definition sample_stale : Outbox :=
  outbox_insert [] sample_branch (EModelCall (mkModelCallEffect (mkEffectBase "model:old" "c" (VStr "k")) "old" "t" VNull))
    None 5.

Definition sample_outbox : Outbox := (reconcile sample_stale sample_branch sample_waiting None 10).1.

Lemma sample_stale_reachable : outbox_reachable sample_stale.
Proof. eapply or_step; [apply or_empty|apply os_insert]. Qed.

Lemma sample_outbox_reachable : outbox_reachable sample_outbox.
Proof. eapply or_step; [apply sample_stale_reachable|apply os_reconcile]. Qed.

Definition sample_row : OutboxRow :=
  fresh_row sample_branch (nth 0 (derivePendingEffects sample_waiting) (EModelCall (mkModelCallEffect (mkEffectBase "" "" VNull) "" "" VNull))) None 10.

Lemma sample_row_found : outbox_get sample_outbox sample_branch "inv:i1" = Some sample_row.
Proof. vm_compute. reflexivity. Qed.

Example sample_outbox_ids : map or_effectId sample_outbox = ["inv:i1"; "form:approval:i2"; "credwait:cred:c:p"].
Proof. vm_compute. reflexivity. Qed.

Lemma reconcile_restores_witness :
  exists row, In row (forBranch sample_outbox sample_branch) /\ or_effectId row = "form:approval:i2".
Proof.
  apply (proj1 (proj2 (proj2 (reconcile_restores sample_stale sample_branch sample_waiting None 10
    sample_stale_reachable ltac:(repeat constructor; discriminate))))).
  exists (nth 1 (derivePendingEffects sample_waiting) (EModelCall (mkModelCallEffect (mkEffectBase "" "" VNull) "" "" VNull))).
  split; [vm_compute; right; left; reflexivity|vm_compute; reflexivity].
Defined.

Lemma lease_exclusive_witness :
  ~ (exists r, In r (due (lease sample_outbox sample_branch "inv:i1" 10) 60000) /\
       row_key r = (sample_branch, "inv:i1")).
Proof.
  intros Hd. apply (proj1 (lease_exclusive sample_outbox sample_branch "inv:i1" 10 sample_row 60000
    sample_outbox_reachable sample_row_found)) in Hd. vm_compute in Hd. by apply Hd.
Defined.

Lemma no_missed_wake_witness : due sample_outbox 10 <> [].
Proof.
  apply (no_missed_wake sample_outbox 10 sample_outbox_reachable); [lia|].
  exists 0. split; [vm_compute; reflexivity|lia].
Defined.

Lemma retry_bounded_witness :
  let '(ob', decision) := retryEffect sample_outbox sample_row None None 20 in
  exists row', outbox_get ob' sample_branch "inv:i1" = Some row' /\ or_attempts row' = 1.
Proof.
  pose proof (retry_bounded sample_outbox sample_row None None 20 sample_outbox_reachable) as Hr.
  destruct (retryEffect sample_outbox sample_row None None 20) as [ob' decision].
  destruct Hr as (row' & Hget & Ha & _).
  - vm_compute. left. reflexivity.
  - vm_compute. discriminate.
  - exists row'. split; [exact Hget|exact Ha].
Defined.

End Outbox.
