(* ===== verification/Diff3.v ===== *)
(** The three-way line merge (src/server/gadVcs/diff3.ts): the line diff, the
    merge loop with its conflict regions, and the replace hunks. *)
From S2P Require Import Prelude Dict JsValue JsText.
From Stdlib Require Import Ascii.

Record Chunk := mkChunk {
  baseStart : nat;
  baseEnd : nat;
  lines : list string
}.

Record Diff3Result := mkDiff3Result {
  d3_ok : bool;
  d3_text : string;
  d3_conflicts : nat
}.

Record Diff3Options := mkDiff3Options {
  oursLabel : option string;
  theirsLabel : option string
}.

(** [l[a], ..., l[b - 1]]: what [for (k = a; k < b; k++) out.push(l[k])] pushes. *)
Definition slice {A} (a b : nat) (l : list A) : list A := take (b - a) (drop a l).

(** * The line diff *)

(** One cell of the table; the cells are 32-bit. *)
Definition lcs_cell (b s : string) (diagonal below right : Z) : Z :=
  if b =s? s then (diagonal + 1) mod 2 ^ 32 else Z.max below right.

(** Row [i] from row [i + 1], from the right. *)
Fixpoint lcs_row (b : string) (side : list string) (below : list Z) : list Z :=
  match side, below with
  | s :: side', d :: below' =>
      let row := lcs_row b side' below' in
      lcs_cell b s (hd 0%Z below') d (hd 0%Z row) :: row
  | _, _ => [0%Z]
  end.

Fixpoint lcs_table (base side : list string) : list (list Z) :=
  match base with
  | [] => [repeat 0%Z (S (length side))]
  | b :: base' =>
      let table := lcs_table base' side in
      lcs_row b side (hd [] table) :: table
  end.

Definition cell (lcs : list (list Z)) (i j : nat) : Z := nth j (nth i lcs []) 0%Z.

(** [if (pending) { chunks.push(pending); pending = null; }]. *)
Definition flush (chunks : list Chunk) (pending : option Chunk) : list Chunk :=
  match pending with Some c => chunks ++ [c] | None => chunks end.

Definition lines_equal (base side : list string) (i j : nat) : bool :=
  match base !! i, side !! j with
  | Some b, Some s => b =s? s
  | _, _ => false
  end.

(** The walk through the table. [None]: out of fuel. *)
Fixpoint diff_walk (fuel : nat) (base side : list string) (lcs : list (list Z)) (i j : nat)
    (pending : option Chunk) (chunks : list Chunk) : option (list Chunk) :=
  let n := length base in
  let m := length side in
  if negb ((i <? n)%nat || (j <? m)%nat) then Some (flush chunks pending)
  else
    match fuel with
    | O => None
    | S fuel' =>
        let current := default (mkChunk i i []) pending in
        if (i <? n)%nat && (j <? m)%nat && lines_equal base side i j
        then diff_walk fuel' base side lcs (S i) (S j) None (flush chunks pending)
        else if (j <? m)%nat && ((i =? n)%nat || (cell lcs (S i) j <=? cell lcs i (S j))%Z)
        then
          diff_walk fuel' base side lcs i (S j)
            (Some (mkChunk current.(baseStart) current.(baseEnd)
                     (current.(lines) ++ [nth j side ""]))) chunks
        else
          diff_walk fuel' base side lcs (S i) j
            (Some (mkChunk current.(baseStart) (S i) current.(lines))) chunks
    end.

(** The walk moves at least one cursor per round. *)
Definition diffChunks (base side : list string) : option (list Chunk) :=
  diff_walk (length base + length side) base side (lcs_table base side) 0 0 None [].

(** * Text and lines *)

Definition NL : ascii := "010"%char.
Definition nl : string := String NL "".

(** [text.split("\n")]: the lines around every newline, at least one. *)
Fixpoint split_nl (text : string) : list string :=
  match text with
  | EmptyString => [""]
  | String c text' =>
      if Ascii.eqb c NL then "" :: split_nl text'
      else
        match split_nl text' with
        | line :: rest => String c line :: rest
        | [] => [String c ""]
        end
  end.

Definition splitLines (text : string) : list string :=
  if text =s? "" then []
  else
    let lines := split_nl text in
    match hd_error (rev lines) with
    | Some last => if last =s? "" then take (length lines - 1) lines else lines
    | None => lines
    end.

(** [text.endsWith("\n")]. *)
Fixpoint ends_nl (text : string) : bool :=
  match text with
  | EmptyString => false
  | String c EmptyString => Ascii.eqb c NL
  | String _ text' => ends_nl text'
  end.

Definition joinLines (lines : list string) (baseText oursText theirsText : string) : string :=
  let text := String.concat nl lines in
  let trailing := ends_nl baseText || ends_nl oursText || ends_nl theirsText in
  if (text <>s? "") && trailing then text ^^ nl else text.

(** * The merge loop *)

(** A side's content for the conflict region. *)
Definition regionView (base : list string) (chunkStart chunkEnd regionEnd : nat)
    (changedLines : list string) (regionStart : nat) : list string :=
  slice regionStart chunkStart base ++ changedLines ++ slice chunkEnd regionEnd base.

Definition sameLines (a b : list string) : bool := bool_decide (a = b).

(** A side inside a region: its chunks still to come, the base extent its lines
    cover, and its lines so far. *)
Record SideRegion := mkSideRegion {
  sr_chunks : list Chunk;
  sr_covEnd : nat;
  sr_lines : list string
}.

(** Absorb the side's chunks that start inside the region. *)
Fixpoint absorb_side (base : list string) (chunks : list Chunk) (covEnd : nat) (side : list string)
    (regionEnd : nat) (grew : bool) : SideRegion * nat * bool :=
  match chunks with
  | chunk :: rest =>
      if (chunk.(baseStart) <? regionEnd)%nat
      then
        absorb_side base rest (Nat.max covEnd chunk.(baseEnd))
          (side ++ slice covEnd chunk.(baseStart) base ++ chunk.(lines))
          (Nat.max regionEnd chunk.(baseEnd)) true
      else (mkSideRegion chunks covEnd side, regionEnd, grew)
  | [] => (mkSideRegion [] covEnd side, regionEnd, grew)
  end.

(** [while (grew)]: alternate the sides until neither grows. [None]: out of fuel. *)
Fixpoint absorb (fuel : nat) (base : list string) (ours theirs : SideRegion) (regionEnd : nat)
    : option (SideRegion * SideRegion * nat) :=
  match fuel with
  | O => None
  | S fuel' =>
      let '(ours, regionEnd, grew) :=
        absorb_side base ours.(sr_chunks) ours.(sr_covEnd) ours.(sr_lines) regionEnd false in
      let '(theirs, regionEnd, grew) :=
        absorb_side base theirs.(sr_chunks) theirs.(sr_covEnd) theirs.(sr_lines) regionEnd grew in
      if grew then absorb fuel' base ours theirs regionEnd else Some (ours, theirs, regionEnd)
  end.

(** The lines an overlapping region puts out, and the conflicts it adds. *)
Definition renderRegion (opts : Diff3Options) (oursView theirsView : list string)
    : list string * nat :=
  if sameLines oursView theirsView then (oursView, 0%nat)
  else
    (["<<<<<<< " ^^ default "ours" opts.(oursLabel)] ++ oursView ++ ["======="] ++ theirsView
     ++ [">>>>>>> " ^^ default "theirs" opts.(theirsLabel)], 1%nat).

(** The base position of the next chunk of either side. *)
Definition nextStart (ours theirs : list Chunk) : nat :=
  match ours, theirs with
  | oc :: _, tc :: _ => Nat.min oc.(baseStart) tc.(baseStart)
  | oc :: _, [] => oc.(baseStart)
  | [], tc :: _ => tc.(baseStart)
  | [], [] => 0
  end.

Definition active (chunks : list Chunk) (cursor : nat) : bool :=
  match chunks with c :: _ => (c.(baseStart) <=? cursor)%nat | [] => false end.

Definition spansOverlap (oc tc : Chunk) : bool :=
  (oc.(baseStart) =? tc.(baseStart))%nat
  || ((oc.(baseStart) <? tc.(baseEnd))%nat && (tc.(baseStart) <? oc.(baseEnd))%nat).

(** One overlapping region: the output, the conflicts, the new position and the
    chunks left. *)
Definition mergeRegion (opts : Diff3Options) (base : list string) (cursor : nat) (oc : Chunk)
    (ours : list Chunk) (tc : Chunk) (theirs : list Chunk)
    : option (list string * nat * nat * list Chunk * list Chunk) :=
  let regionEnd := Nat.max (Nat.max oc.(baseEnd) tc.(baseEnd)) cursor in
  match absorb (S (length ours + length theirs)) base
          (mkSideRegion ours oc.(baseEnd) oc.(lines)) (mkSideRegion theirs tc.(baseEnd) tc.(lines))
          regionEnd with
  | None => None
  | Some (o, t, regionEnd) =>
      let oursView := regionView base oc.(baseStart) o.(sr_covEnd) regionEnd o.(sr_lines) cursor in
      let theirsView := regionView base tc.(baseStart) t.(sr_covEnd) regionEnd t.(sr_lines) cursor in
      let (out, conflicts) := renderRegion opts oursView theirsView in
      Some (out, conflicts, regionEnd, o.(sr_chunks), t.(sr_chunks))
  end.

(** [while (oi < oursChunks.length || ti < theirsChunks.length)], on the chunks
    left of each side. [None]: out of fuel. *)
Fixpoint merge_loop (fuel : nat) (opts : Diff3Options) (base : list string) (ours theirs : list Chunk)
    (cursor : nat) (out : list string) (conflicts : nat) : option (list string * nat) :=
  match ours, theirs with
  | [], [] => Some (out ++ drop cursor base, conflicts)
  | _, _ =>
      match fuel with
      | O => None
      | S fuel' =>
          let next := nextStart ours theirs in
          let out := out ++ slice cursor next base in
          let cursor := Nat.max cursor next in
          let oActive := active ours cursor in
          let tActive := active theirs cursor in
          match ours, theirs with
          | oc :: ours', tc :: theirs' =>
              if (oActive || tActive) && spansOverlap oc tc
              then
                match mergeRegion opts base cursor oc ours' tc theirs' with
                | None => None
                | Some (region, more, cursor, ours, theirs) =>
                    merge_loop fuel' opts base ours theirs cursor (out ++ region) (conflicts + more)
                end
              else if oActive && negb tActive
              then merge_loop fuel' opts base ours' theirs (Nat.max cursor oc.(baseEnd))
                     (out ++ oc.(lines)) conflicts
              else if tActive && negb oActive
              then merge_loop fuel' opts base ours theirs' (Nat.max cursor tc.(baseEnd))
                     (out ++ tc.(lines)) conflicts
              else merge_loop fuel' opts base ours theirs cursor out conflicts
          | oc :: ours', [] =>
              if oActive
              then merge_loop fuel' opts base ours' [] (Nat.max cursor oc.(baseEnd))
                     (out ++ oc.(lines)) conflicts
              else merge_loop fuel' opts base ours [] cursor out conflicts
          | [], tc :: theirs' =>
              if tActive
              then merge_loop fuel' opts base [] theirs' (Nat.max cursor tc.(baseEnd))
                     (out ++ tc.(lines)) conflicts
              else merge_loop fuel' opts base [] theirs cursor out conflicts
          | [], [] => Some (out, conflicts)
          end
      end
  end.

(** The merge of three line lists. *)
Definition mergeLines (opts : Diff3Options) (base ours theirs : list string)
    : option (list string * nat) :=
  match diffChunks base ours, diffChunks base theirs with
  | Some oursChunks, Some theirsChunks =>
      merge_loop (length oursChunks + length theirsChunks) opts base oursChunks theirsChunks 0 [] 0
  | _, _ => None
  end.

Definition diff3Merge (baseText oursText theirsText : string) (opts : Diff3Options)
    : option Diff3Result :=
  if oursText =s? theirsText then Some (mkDiff3Result true oursText 0)
  else if oursText =s? baseText then Some (mkDiff3Result true theirsText 0)
  else if theirsText =s? baseText then Some (mkDiff3Result true oursText 0)
  else
    match mergeLines opts (splitLines baseText) (splitLines oursText) (splitLines theirsText) with
    | Some (out, conflicts) =>
        Some (mkDiff3Result (conflicts =? 0)%nat (joinLines out baseText oursText theirsText) conflicts)
    | None => None
    end.

(** * Replace hunks *)

Record ReplaceHunk := mkReplaceHunk {
  rh_start : nat;
  rh_end : nat;
  rh_oldText : string;
  rh_newText : string
}.

(** The offset of every line start, and the end of the text. *)
Fixpoint line_offsets (off : nat) (oldLines : list string) (total : nat) : list nat :=
  match oldLines with
  | [] => [total]
  | l :: rest => off :: line_offsets (off + String.length l + 1) rest total
  end.

Definition hunkOf (oldText : string) (lineOffset : list nat) (c : Chunk) : ReplaceHunk :=
  let total := String.length oldText in
  let start := Nat.min (default total (lineOffset !! c.(baseStart))) total in
  let end_ :=
    if (c.(baseStart) <? c.(baseEnd))%nat
    then Nat.min (default total (lineOffset !! c.(baseEnd))) total else start in
  let replacement := String.concat nl c.(lines) in
  {| rh_start := start;
     rh_end := end_;
     rh_oldText := str_take (end_ - start) (str_slice start oldText);
     rh_newText :=
       match c.(lines) with
       | _ :: _ => if (end_ <? total)%nat then replacement ^^ nl else replacement
       | [] => replacement
       end |}.

Definition computeReplaceHunks (oldText newText : string) : option (list ReplaceHunk) :=
  if oldText =s? newText then Some []
  else
    let oldLines := split_nl oldText in
    match diffChunks oldLines (split_nl newText) with
    | None => None
    | Some chunks =>
        Some (map (hunkOf oldText (line_offsets 0 oldLines (String.length oldText))) chunks)
    end.

(** * The repository's own test cases *)

Definition no_labels : Diff3Options := mkDiff3Options None None.

Definition text_of (ls : list string) : string := String.concat nl ls ^^ nl.

Example diff3_disjoint_edits :
  diff3Merge (text_of ["one"; "two"; "three"; "four"; "five"])
    (text_of ["ONE"; "two"; "three"; "four"; "five"])
    (text_of ["one"; "two"; "three"; "four"; "FIVE"]) no_labels
  = Some (mkDiff3Result true (text_of ["ONE"; "two"; "three"; "four"; "FIVE"]) 0).
Proof. vm_compute. reflexivity. Qed.

Example diff3_absorbed_chunks :
  diff3Merge (text_of ["a"; "B"; "c"; "D"; "e"]) (text_of ["a"; "X"; "e"])
    (text_of ["a"; "B2"; "c"; "D2"; "e"]) no_labels
  = Some (mkDiff3Result false
      (text_of ["a"; "<<<<<<< ours"; "X"; "======="; "B2"; "c"; "D2"; ">>>>>>> theirs"; "e"]) 1).
Proof. vm_compute. reflexivity. Qed.
