(* ===== verification/Diff3Laws.v ===== *)
(** Laws of the line diff and of the merge loop: the chunks of a diff patch the
    base into the side, and the merge walks a common segmentation of the three
    texts. *)
From S2P Require Import Prelude Diff3.
From stdpp Require Import sorting.
From Stdlib Require Import Ascii.
(** * Slices *)

Lemma slice_self {A} a (l : list A) : slice a a l = [].
Proof. unfold slice. by rewrite Nat.sub_diag. Qed.

Lemma slice_drop {A} a b (l : list A) : a <= b -> slice a b l ++ drop b l = drop a l.
Proof.
  intros Hab. unfold slice. rewrite <- (take_drop (b - a) (drop a l)) at 2.
  by rewrite drop_drop, Nat.add_comm, Nat.sub_add.
Qed.

Lemma slice_app {A} a b c (l : list A) : a <= b <= c -> slice a b l ++ slice b c l = slice a c l.
Proof.
  intros [Hab Hbc]. unfold slice.
  rewrite <- (take_drop (b - a) (take (c - a) (drop a l))), take_take, skipn_firstn_comm, drop_drop.
  f_equal; [f_equal; lia|]. f_equal; [lia|]. f_equal. lia.
Qed.

Lemma slice_cons {A} a (l : list A) x : l !! a = Some x -> slice a (S a) l = [x].
Proof.
  intros Hx. unfold slice. replace (S a - a) with 1 by lia. by rewrite (drop_S _ _ _ Hx).
Qed.

(** * Patching *)

(** The chunks, in order and apart from each other, within a base of [n] lines,
    from position [lo] on. *)
Fixpoint chunks_ok (n lo : nat) (chunks : list Chunk) : Prop :=
  match chunks with
  | [] => True
  | c :: rest => lo <= c.(baseStart) <= c.(baseEnd) /\ c.(baseEnd) <= n /\ chunks_ok n (S c.(baseEnd)) rest
  end.

(** The base from position [pos] on, with the chunks applied. *)
Fixpoint patch (base : list string) (pos : nat) (chunks : list Chunk) : list string :=
  match chunks with
  | [] => drop pos base
  | c :: rest => slice pos c.(baseStart) base ++ c.(lines) ++ patch base c.(baseEnd) rest
  end.

Lemma chunks_ok_le n lo lo' chunks : lo <= lo' -> chunks_ok n lo' chunks -> chunks_ok n lo chunks.
Proof. destruct chunks; simpl; [done|]. intros; intuition lia. Qed.

Lemma patch_skip base n lo lo' chunks :
  lo <= lo' -> chunks_ok n lo' chunks -> patch base lo chunks = slice lo lo' base ++ patch base lo' chunks.
Proof.
  intros Hle. destruct chunks as [|c rest]; simpl; [by rewrite slice_drop|].
  intros [Hc _]. rewrite <- (slice_app lo lo' (baseStart c)) by lia. by rewrite <- app_assoc.
Qed.

(** * The diff *)

Lemma lines_equal_spec base side i j :
  lines_equal base side i j = true -> exists x, base !! i = Some x /\ side !! j = Some x.
Proof.
  unfold lines_equal. destruct (base !! i), (side !! j); try done.
  intros ->%String.eqb_eq. eauto.
Qed.

Lemma drop_lookup {A} (l : list A) j x : l !! j = Some x -> drop j l = x :: drop (S j) l.
Proof. apply drop_S. Qed.

Lemma nth_lookup_lt {A} (l : list A) j d : j < length l -> l !! j = Some (nth j l d).
Proof. intros H. destruct (nth_lookup_or_length l j d); [done|lia]. Qed.

(** What the rest of the walk will put out. *)
Definition walk_result (base side : list string) (i j : nat) (pending : option Chunk)
    (rest : list Chunk) : Prop :=
  let n := length base in
  match pending with
  | None => chunks_ok n i rest /\ patch base i rest = drop j side
  | Some p =>
      exists e extra r, rest = mkChunk p.(baseStart) e (p.(lines) ++ extra) :: r /\
        i <= e <= n /\ chunks_ok n (S e) r /\ extra ++ patch base e r = drop j side
  end.

Definition pending_ok (i : nat) (pending : option Chunk) : Prop :=
  match pending with Some p => p.(baseStart) <= i /\ p.(baseEnd) = i | None => True end.

Lemma walk_result_equal base side i j pending rest x :
  base !! i = Some x -> side !! j = Some x -> pending_ok i pending ->
  walk_result base side (S i) (S j) None rest ->
  walk_result base side i j pending (flush [] pending ++ rest).
Proof.
  intros Hb Hs Hp [Hok Hpatch]. pose proof (lookup_lt_Some _ _ _ Hb).
  destruct pending as [p|]; simpl.
  - destruct p as [bs be ls]; simpl in *. destruct Hp as [? ->].
    exists i, [], rest. rewrite app_nil_r. split_and!; [done|lia..|done|].
    simpl. rewrite (patch_skip base (length base) i (S i)) by (lia || done).
    rewrite (slice_cons _ _ _ Hb), Hpatch. symmetry. by apply drop_lookup.
  - split; [by apply (chunks_ok_le _ _ (S i)); [lia|]|].
    rewrite (patch_skip base (length base) i (S i)) by (lia || done).
    rewrite (slice_cons _ _ _ Hb), Hpatch. symmetry. by apply drop_lookup.
Qed.

(** The chunk the walk is collecting. *)
Definition collecting (i : nat) (pending : option Chunk) : Chunk := default (mkChunk i i []) pending.

Lemma walk_result_insert base side i j pending rest x :
  side !! j = Some x -> pending_ok i pending ->
  walk_result base side i (S j)
    (Some (mkChunk (baseStart (collecting i pending)) (baseEnd (collecting i pending))
             (lines (collecting i pending) ++ [x]))) rest ->
  walk_result base side i j pending rest.
Proof.
  intros Hs Hp (e & extra & r & -> & He & Hok & Hpatch). simpl in *.
  apply drop_lookup in Hs. destruct pending as [p|]; simpl in *.
  - exists e, (x :: extra), r. rewrite <- app_assoc. split_and!; try done; try lia.
    by rewrite Hs, <- Hpatch.
  - split_and!; try done; try lia. by rewrite slice_self, Hs, <- Hpatch.
Qed.

Lemma walk_result_delete base side i j pending rest :
  i < length base -> pending_ok i pending ->
  walk_result base side (S i) j
    (Some (mkChunk (baseStart (collecting i pending)) (S i) (lines (collecting i pending)))) rest ->
  walk_result base side i j pending rest.
Proof.
  intros Hi Hp (e & extra & r & -> & He & Hok & Hpatch). simpl in *.
  destruct pending as [p|]; simpl in *.
  - exists e, extra, r. split_and!; try done; lia.
  - split_and!; try done; try lia. by rewrite slice_self.
Qed.

Lemma walk_result_end base side pending :
  pending_ok (length base) pending ->
  walk_result base side (length base) (length side) pending (flush [] pending).
Proof.
  intros Hp. destruct pending as [p|]; simpl in *.
  - exists (length base), [], []. rewrite app_nil_r, !drop_all. destruct p; simpl in *.
    destruct Hp as [? ->]. split_and!; simpl; try done; try lia. by rewrite drop_all.
  - by rewrite !drop_all.
Qed.

Lemma flush_app chunks pending : flush chunks pending = chunks ++ flush [] pending.
Proof. destruct pending; simpl; [done|by rewrite app_nil_r]. Qed.

Lemma diff_walk_spec fuel base side lcs i j pending chunks :
  i <= length base -> j <= length side -> (length base - i) + (length side - j) <= fuel ->
  pending_ok i pending ->
  exists rest, diff_walk fuel base side lcs i j pending chunks = Some (chunks ++ rest) /\
    walk_result base side i j pending rest.
Proof.
  induction fuel as [|fuel IH] in i, j, pending, chunks |- *; intros Hi Hj Hfuel Hp; simpl.
  - assert (i = length base) as -> by lia. assert (j = length side) as -> by lia.
    rewrite !Nat.ltb_irrefl. simpl. eexists. split; [by rewrite flush_app|by apply walk_result_end].
  - destruct (Nat.ltb_spec i (length base)) as [Hib|Hib], (Nat.ltb_spec j (length side)) as [Hjs|Hjs]; simpl.
    + destruct (lines_equal base side i j) eqn:Heq.
      * apply lines_equal_spec in Heq as (x & Hb & Hs).
        destruct (IH (S i) (S j) None (flush chunks pending)) as (rest & -> & Hr); [lia..|done|].
        exists (flush [] pending ++ rest). split; [by rewrite flush_app, app_assoc|].
        by eapply walk_result_equal.
      * destruct (_ || _).
        -- edestruct (IH i (S j)) as (rest & -> & Hr); [lia..|by destruct pending; simpl in *|].
           exists rest. split; [done|]. eapply walk_result_insert; [by apply (nth_lookup_lt _ _ "")|done|done].
        -- edestruct (IH (S i) j) as (rest & -> & Hr); [lia..|by destruct pending; simpl in *; lia|].
           exists rest. split; [done|]. by eapply walk_result_delete.
    + edestruct (IH (S i) j) as (rest & -> & Hr); [lia..|by destruct pending; simpl in *; lia|].
      exists rest. split; [done|]. by eapply walk_result_delete.
    + assert (i = length base) as -> by lia. rewrite Nat.eqb_refl. simpl.
      edestruct (IH (length base) (S j)) as (rest & -> & Hr); [lia..|by destruct pending; simpl in *|].
      exists rest. split; [done|]. eapply walk_result_insert; [by apply (nth_lookup_lt _ _ "")|done|done].
    + assert (i = length base) as -> by lia. assert (j = length side) as -> by lia.
      eexists. split; [by rewrite flush_app|by apply walk_result_end].
Qed.

(** The diff of two texts: ordered chunks that patch the base into the side. *)
Lemma diffChunks_patch base side :
  exists chunks, diffChunks base side = Some chunks /\ chunks_ok (length base) 0 chunks /\
    patch base 0 chunks = side.
Proof.
  unfold diffChunks.
  destruct (diff_walk_spec (length base + length side) base side (lcs_table base side) 0 0 None [])
    as (rest & -> & Hok & Hp); [lia..|done|].
  by exists rest.
Qed.

(** A text against itself: no chunks. *)
Lemma diff_walk_self fuel base lcs i chunks :
  i <= length base -> length base - i <= fuel ->
  diff_walk fuel base base lcs i i None chunks = Some chunks.
Proof.
  induction fuel as [|fuel IH] in i |- *; intros Hi Hfuel; simpl.
  - assert (i = length base) as -> by lia. by rewrite Nat.ltb_irrefl.
  - destruct (Nat.ltb_spec i (length base)) as [Hib|Hib]; simpl; [|done].
    unfold lines_equal. destruct (lookup_lt_is_Some_2 base i Hib) as [x ->].
    rewrite String.eqb_refl. simpl. apply IH; lia.
Qed.

Lemma diffChunks_self base : diffChunks base base = Some [].
Proof. unfold diffChunks. apply diff_walk_self; lia. Qed.

(** * The regions of the merge loop *)

(** The first chunk left starts at [pos] or later. *)
Definition starts_from (pos : nat) (chunks : list Chunk) : Prop :=
  match chunks with c :: _ => pos <= c.(baseStart) | [] => True end.

Lemma chunks_ok_from n lo pos chunks :
  chunks_ok n lo chunks -> starts_from pos chunks -> chunks_ok n pos chunks.
Proof. destruct chunks; simpl; intuition lia. Qed.

(** Absorbing keeps what the side will read, and never loses chunks. *)
Lemma absorb_side_spec base chunks covEnd side regionEnd grew :
  chunks_ok (length base) (S covEnd) chunks -> covEnd <= regionEnd <= length base ->
  exists r regionEnd' grew', absorb_side base chunks covEnd side regionEnd grew = (r, regionEnd', grew') /\
    side ++ patch base covEnd chunks = sr_lines r ++ patch base (sr_covEnd r) (sr_chunks r) /\
    chunks_ok (length base) (S (sr_covEnd r)) (sr_chunks r) /\
    sr_covEnd r <= regionEnd' /\ regionEnd <= regionEnd' <= length base /\
    starts_from regionEnd' (sr_chunks r) /\
    (length (sr_chunks r) < length chunks /\ grew' = true \/
     r = mkSideRegion chunks covEnd side /\ regionEnd' = regionEnd /\ grew' = grew).
Proof.
  induction chunks as [|c rest IH] in covEnd, side, regionEnd, grew |- *; intros Hok Hcov; simpl.
  - eexists _, _, _. split; [done|]. simpl. repeat split; try done; try lia. by right.
  - destruct Hok as (Hc & Hn & Hrest).
    destruct (Nat.ltb_spec (baseStart c) regionEnd) as [Hlt|Hge].
    + rewrite (Nat.max_r covEnd (baseEnd c)) by lia.
      edestruct (IH (baseEnd c)) as (r & re & g & -> & Hp & Hok & Hce & Hre & Hst & Hprog);
        [exact Hrest|split; [apply Nat.le_max_r|apply Nat.max_lub; lia]|].
      exists r, re, g. split; [done|]. split; [by rewrite <- Hp, <- !app_assoc|].
      split_and!; try done; try lia.
      left. destruct Hprog as [[? ?]|(-> & _ & ->)]; simpl; (split; [lia|done]).
    + eexists _, _, _. split; [done|]. simpl. split_and!; try done; try lia. by right.
Qed.

(** Enough fuel: the region stops growing, with both sides past it. *)
Lemma absorb_spec fuel base ours theirs regionEnd :
  length (sr_chunks ours) + length (sr_chunks theirs) < fuel ->
  chunks_ok (length base) (S (sr_covEnd ours)) (sr_chunks ours) ->
  chunks_ok (length base) (S (sr_covEnd theirs)) (sr_chunks theirs) ->
  sr_covEnd ours <= regionEnd -> sr_covEnd theirs <= regionEnd -> regionEnd <= length base ->
  exists o t regionEnd', absorb fuel base ours theirs regionEnd = Some (o, t, regionEnd') /\
    regionEnd <= regionEnd' <= length base /\
    (forall s s', (s, s') = (ours, o) \/ (s, s') = (theirs, t) ->
       sr_lines s ++ patch base (sr_covEnd s) (sr_chunks s)
       = sr_lines s' ++ patch base (sr_covEnd s') (sr_chunks s') /\
       chunks_ok (length base) regionEnd' (sr_chunks s') /\ sr_covEnd s' <= regionEnd' /\
       length (sr_chunks s') <= length (sr_chunks s)).
Proof.
  induction fuel as [|fuel IH] in ours, theirs, regionEnd |- *; [lia|].
  intros Hfuel Ho Ht Hco Hct Hn. simpl.
  edestruct (absorb_side_spec base (sr_chunks ours) (sr_covEnd ours) (sr_lines ours) regionEnd false)
    as (o & re & g & -> & Hp & Hok & Hce & Hre & Hst & Hprog); [done|lia|].
  edestruct (absorb_side_spec base (sr_chunks theirs) (sr_covEnd theirs) (sr_lines theirs) re g)
    as (t & re' & g' & -> & Hp' & Hok' & Hce' & Hre' & Hst' & Hprog'); [done|lia|].
  destruct g'.
  - edestruct (IH o t re') as (o2 & t2 & re2 & -> & Hre2 & Hsides); [|done|done|lia..|].
    { destruct Hprog as [[? ?]|(-> & -> & ->)], Hprog' as [[? ?]|(-> & -> & ?)]; simpl in *; try lia; done. }
    exists o2, t2, re2. split; [done|]. split; [lia|].
    assert (length (sr_chunks o) <= length (sr_chunks ours)) by (destruct Hprog as [[? ?]|(-> & _)]; simpl; lia).
    assert (length (sr_chunks t) <= length (sr_chunks theirs)) by (destruct Hprog' as [[? ?]|(-> & _)]; simpl; lia).
    intros s s' [[= -> ->]|[= -> ->]].
    + destruct (Hsides o o2) as (Ha & Hb & Hc & Hd); [by left|].
      split_and!; [by rewrite Hp, Ha|done|done|lia].
    + destruct (Hsides t t2) as (Ha & Hb & Hc & Hd); [by right|].
      split_and!; [by rewrite Hp', Ha|done|done|lia].
  - destruct Hprog' as [[_ ?]|(-> & -> & <-)]; [done|].
    destruct Hprog as [[_ ?]|(-> & -> & _)]; [done|]. simpl in *.
    eexists _, _, _. split; [done|]. split; [lia|].
    intros s s' [[= -> ->]|[= -> ->]]; simpl; (split_and!; [done| |lia|lia]);
      (eapply chunks_ok_from; eassumption).
Qed.

(** The region of two overlapping chunks: both sides read as one span of the
    base up to the region's end, followed by what is left of the side. *)
Lemma mergeRegion_spec opts base cursor oc ours tc theirs :
  chunks_ok (length base) cursor (oc :: ours) -> chunks_ok (length base) cursor (tc :: theirs) ->
  exists re oseg tseg ours' theirs',
    mergeRegion opts base cursor oc ours tc theirs
    = Some ((renderRegion opts oseg tseg).1, (renderRegion opts oseg tseg).2, re, ours', theirs') /\
    cursor <= re <= length base /\
    patch base cursor (oc :: ours) = oseg ++ patch base re ours' /\
    patch base cursor (tc :: theirs) = tseg ++ patch base re theirs' /\
    chunks_ok (length base) re ours' /\ chunks_ok (length base) re theirs' /\
    length ours' <= length ours /\ length theirs' <= length theirs.
Proof.
  intros (Ho & Hon & Hos) (Ht & Htn & Hts). unfold mergeRegion.
  edestruct (absorb_spec (S (length ours + length theirs)) base
    (mkSideRegion ours (baseEnd oc) (lines oc)) (mkSideRegion theirs (baseEnd tc) (lines tc))
    (Nat.max (Nat.max (baseEnd oc) (baseEnd tc)) cursor)) as (o & t & re & -> & Hre & Hsides);
    simpl; [lia|done|done|lia..|].
  destruct (Hsides _ _ (or_introl eq_refl)) as (Hop & Hook & Hoc & Hol).
  destruct (Hsides _ _ (or_intror eq_refl)) as (Htp & Htok & Htc & Htl). simpl in *.
  set (oseg := regionView base (baseStart oc) _ _ _ _).
  set (tseg := regionView base (baseStart tc) _ _ _ _).
  destruct (renderRegion opts oseg tseg) as [out k] eqn:Hrender.
  exists re, oseg, tseg, (sr_chunks o), (sr_chunks t). rewrite Hrender.
  split_and!; try done; try lia; unfold oseg, tseg, regionView.
  - rewrite Hop, (patch_skip base (length base) (sr_covEnd o) re) by (lia || done).
    by rewrite <- !app_assoc.
  - rewrite Htp, (patch_skip base (length base) (sr_covEnd t) re) by (lia || done).
    by rewrite <- !app_assoc.
Qed.

(** * The merge loop *)

(** The three texts cut into the same spans, and what the merge makes of each
    span: kept where nobody changed it, one side's text where only that side
    changed it or both read the same, and a conflict block otherwise. *)
Inductive Merged (opts : Diff3Options) :
    list string -> list string -> list string -> list string -> nat -> Prop :=
| merged_end : Merged opts [] [] [] [] 0
| merged_kept seg b o t out k :
    Merged opts b o t out k -> Merged opts (seg ++ b) (seg ++ o) (seg ++ t) (seg ++ out) k
| merged_ours seg seg' b o t out k :
    Merged opts b o t out k -> Merged opts (seg ++ b) (seg' ++ o) (seg ++ t) (seg' ++ out) k
| merged_theirs seg seg' b o t out k :
    Merged opts b o t out k -> Merged opts (seg ++ b) (seg ++ o) (seg' ++ t) (seg' ++ out) k
| merged_same seg seg' b o t out k :
    Merged opts b o t out k -> Merged opts (seg ++ b) (seg' ++ o) (seg' ++ t) (seg' ++ out) k
| merged_conflict seg oseg tseg b o t out k :
    oseg <> tseg -> Merged opts b o t out k ->
    Merged opts (seg ++ b) (oseg ++ o) (tseg ++ t)
      ((["<<<<<<< " ^^ default "ours" (oursLabel opts)] ++ oseg ++ ["======="] ++ tseg
        ++ [">>>>>>> " ^^ default "theirs" (theirsLabel opts)]) ++ out) (S k).

Lemma merged_render opts seg oseg tseg b o t out k :
  Merged opts b o t out k ->
  Merged opts (seg ++ b) (oseg ++ o) (tseg ++ t) ((renderRegion opts oseg tseg).1 ++ out)
    ((renderRegion opts oseg tseg).2 + k).
Proof.
  intros Hm. unfold renderRegion, sameLines. case_bool_decide as Heq; simpl.
  - subst. by apply merged_same.
  - by apply merged_conflict.
Qed.

(** No chunk of one side overlaps one of the other. *)
Definition apart (ours theirs : list Chunk) : Prop :=
  Forall (fun oc => Forall (fun tc => spansOverlap oc tc = false) theirs) ours.

Lemma spansOverlap_false oc tc :
  spansOverlap oc tc = false ->
  baseStart oc <= baseEnd oc -> baseStart tc <= baseEnd tc ->
  (baseStart oc < baseStart tc /\ baseEnd oc <= baseStart tc) \/
  (baseStart tc < baseStart oc /\ baseEnd tc <= baseStart oc).
Proof.
  unfold spansOverlap. rewrite orb_false_iff, andb_false_iff, Nat.eqb_neq, !Nat.ltb_ge. lia.
Qed.

(** One round of the loop: copy the base up to the next chunk, then either an
    overlapping region or a chunk of one side that the other side starts behind. *)
Lemma merge_loop_step fuel opts base ours theirs cursor out k :
  chunks_ok (length base) cursor ours -> chunks_ok (length base) cursor theirs ->
  (ours, theirs) <> ([], []) ->
  let next := nextStart ours theirs in
  let out1 := out ++ slice cursor next base in
  cursor <= next <= length base /\ chunks_ok (length base) next ours /\ chunks_ok (length base) next theirs /\
  ((exists oc ours' tc theirs', ours = oc :: ours' /\ theirs = tc :: theirs' /\ spansOverlap oc tc = true /\
     merge_loop (S fuel) opts base ours theirs cursor out k =
     match mergeRegion opts base next oc ours' tc theirs' with
     | None => None
     | Some (region, more, cursor, ours, theirs) =>
         merge_loop fuel opts base ours theirs cursor (out1 ++ region) (k + more)
     end) \/
   (exists oc ours', ours = oc :: ours' /\ baseStart oc = next /\ starts_from (Nat.max (S next) (baseEnd oc)) theirs /\
     merge_loop (S fuel) opts base ours theirs cursor out k =
     merge_loop fuel opts base ours' theirs (baseEnd oc) (out1 ++ lines oc) k) \/
   (exists tc theirs', theirs = tc :: theirs' /\ baseStart tc = next /\ starts_from (Nat.max (S next) (baseEnd tc)) ours /\
     merge_loop (S fuel) opts base ours theirs cursor out k =
     merge_loop fuel opts base ours theirs' (baseEnd tc) (out1 ++ lines tc) k)).
Proof.
  intros Ho Ht Hne. destruct ours as [|oc ours'], theirs as [|tc theirs']; [done| | |].
  - destruct Ht as (Hc & Hn & Hr). simpl. split_and!; try done; try lia.
    right; right. exists tc, theirs'. split_and!; try done.
    rewrite (Nat.max_r cursor), Nat.leb_refl, Nat.max_r by lia. done.
  - destruct Ho as (Hc & Hn & Hr). simpl. split_and!; try done; try lia.
    right; left. exists oc, ours'. split_and!; try done.
    rewrite (Nat.max_r cursor), Nat.leb_refl, Nat.max_r by lia. done.
  - destruct Ho as (Hc & Hn & Hr), Ht as (Hc' & Hn' & Hr'). simpl.
    split_and!; try done; try lia.
    rewrite (Nat.max_r cursor) by lia.
    assert (((baseStart oc <=? Nat.min (baseStart oc) (baseStart tc)) ||
             (baseStart tc <=? Nat.min (baseStart oc) (baseStart tc))) = true) as ->.
    { apply orb_true_iff. rewrite !Nat.leb_le. lia. }
    destruct (spansOverlap oc tc) eqn:Hov; simpl.
    + left. exists oc, ours', tc, theirs'. by rewrite Nat.leb_refl || done.
    + apply spansOverlap_false in Hov; [|lia|lia].
      destruct Hov as [[Hlt Hle]|[Hlt Hle]].
      * right; left. exists oc, ours'. rewrite Nat.min_l by lia.
        rewrite Nat.leb_refl, (proj2 (Nat.leb_gt (baseStart tc) (baseStart oc))) by lia. simpl.
        split_and!; simpl; try done; try lia; by rewrite Nat.max_r by lia.
      * right; right. exists tc, theirs'. rewrite Nat.min_r by lia.
        rewrite Nat.leb_refl, (proj2 (Nat.leb_gt (baseStart oc) (baseStart tc))) by lia. simpl.
        split_and!; simpl; try done; try lia; by rewrite Nat.max_r by lia.
Qed.

Lemma merged_prefix opts base cursor next ours theirs out k :
  cursor <= next -> chunks_ok (length base) next ours -> chunks_ok (length base) next theirs ->
  Merged opts (drop next base) (patch base next ours) (patch base next theirs) out k ->
  Merged opts (drop cursor base) (patch base cursor ours) (patch base cursor theirs)
    (slice cursor next base ++ out) k.
Proof.
  intros Hle Ho Ht Hm. rewrite <- (slice_drop cursor next base Hle).
  rewrite (patch_skip _ _ _ _ _ Hle Ho), (patch_skip _ _ _ _ _ Hle Ht). by apply merged_kept.
Qed.

Lemma starts_ok n lo m pos chunks :
  chunks_ok n lo chunks -> starts_from (Nat.max m pos) chunks -> chunks_ok n pos chunks.
Proof. destruct chunks; simpl; intuition lia. Qed.

Lemma merge_loop_spec fuel opts base ours theirs cursor out k :
  length ours + length theirs <= fuel ->
  chunks_ok (length base) cursor ours -> chunks_ok (length base) cursor theirs ->
  exists out' k', merge_loop fuel opts base ours theirs cursor out k = Some (out ++ out', k + k') /\
    Merged opts (drop cursor base) (patch base cursor ours) (patch base cursor theirs) out' k'.
Proof.
  induction fuel as [|fuel IH] in ours, theirs, cursor, out, k |- *; intros Hfuel Ho Ht.
  - destruct ours, theirs; simpl in *; try lia. exists (drop cursor base), 0.
    split; [by rewrite Nat.add_0_r|]. rewrite <- (app_nil_r (drop cursor base)). by apply merged_kept, merged_end.
  - assert ((ours, theirs) = ([], []) \/ (ours, theirs) <> ([], [])) as [[= -> ->]|Hne]
      by (destruct ours, theirs; (by left) || (by right)).
    { exists (drop cursor base), 0. simpl. split; [by rewrite Nat.add_0_r|].
      rewrite <- (app_nil_r (drop cursor base)). by apply merged_kept, merged_end. }
    destruct (merge_loop_step fuel opts base ours theirs cursor out k Ho Ht Hne)
      as (Hnext & Ho' & Ht' & Hcase).
    set (next := nextStart ours theirs) in *.
    destruct Hcase as [(oc & ours' & tc & theirs' & -> & -> & _ & ->)|
      [(oc & ours' & -> & Hs & Hst & ->)|(tc & theirs' & -> & Hs & Hst & ->)]].
    + destruct (mergeRegion_spec opts base next oc ours' tc theirs' Ho' Ht')
        as (re & os & ts & o2 & t2 & -> & Hre & Hpo & Hpt & Hoo & Hto & Hlo & Hlt).
      simpl in Hfuel.
      edestruct (IH o2 t2 re) as (out' & k' & -> & Hm); [lia|done|done|].
      eexists _, _. rewrite <- !app_assoc, <- Nat.add_assoc. split; [done|].
      apply merged_prefix; [lia|done|done|]. rewrite Hpo, Hpt.
      rewrite <- (slice_drop next re base) by lia. by apply merged_render.
    + destruct Ho' as (Hc & Hn & Hr). simpl in Hfuel.
      edestruct (IH ours' theirs (baseEnd oc)) as (out' & k' & -> & Hm);
        [lia|by eapply chunks_ok_le; [|exact Hr]; lia|exact (starts_ok _ _ _ _ _ Ht' Hst)|].
      eexists _, _. rewrite <- !app_assoc. split; [done|].
      apply merged_prefix; [lia|done|done|].
      rewrite <- (slice_drop next (baseEnd oc) base) by lia. simpl. rewrite <- Hs at 2. rewrite slice_self. simpl.
      rewrite (patch_skip base (length base) next (baseEnd oc) theirs);
        [by apply merged_ours|lia|exact (starts_ok _ _ _ _ _ Ht' Hst)].
    + destruct Ht' as (Hc & Hn & Hr). simpl in Hfuel.
      edestruct (IH ours theirs' (baseEnd tc)) as (out' & k' & -> & Hm);
        [lia|exact (starts_ok _ _ _ _ _ Ho' Hst)|by eapply chunks_ok_le; [|exact Hr]; lia|].
      eexists _, _. rewrite <- !app_assoc. split; [done|].
      apply merged_prefix; [lia|done|done|].
      rewrite <- (slice_drop next (baseEnd tc) base) by lia. simpl. rewrite <- Hs at 3. rewrite slice_self. simpl.
      rewrite (patch_skip base (length base) next (baseEnd tc) ours);
        [by apply merged_theirs|lia|exact (starts_ok _ _ _ _ _ Ho' Hst)].
Qed.

(** * Edits apart from each other *)

Definition precedes (c c' : Chunk) : Prop := c.(baseStart) <= c'.(baseStart).

#[export] Instance precedes_dec : RelDecision precedes := fun c c' => decide (c.(baseStart) <= c'.(baseStart)).

(** Both sides' chunks in the order of the base. *)
Definition weave (ours theirs : list Chunk) : list Chunk := list_merge precedes ours theirs.

Lemma weave_ours oc ours theirs :
  starts_from (S (baseStart oc)) theirs -> weave (oc :: ours) theirs = oc :: weave ours theirs.
Proof.
  intros Hst. unfold weave. destruct theirs as [|tc theirs]; simpl in *; [by destruct ours|].
  unfold decide_rel. destruct (precedes_dec oc tc) as [?|n]; [done|]. exfalso. apply n. unfold precedes. lia.
Qed.

Lemma weave_theirs tc ours theirs :
  starts_from (S (baseStart tc)) ours -> weave ours (tc :: theirs) = tc :: weave ours theirs.
Proof.
  intros Hst. unfold weave. destruct ours as [|oc ours]; simpl in *; [by destruct theirs|].
  unfold decide_rel. destruct (precedes_dec oc tc) as [n|?]; [|done]. exfalso. unfold precedes in n. lia.
Qed.

Lemma starts_from_le m pos chunks : m <= pos -> starts_from pos chunks -> starts_from m chunks.
Proof. destruct chunks; simpl; lia. Qed.

Lemma merge_loop_apart fuel opts base ours theirs cursor out k :
  length ours + length theirs <= fuel ->
  chunks_ok (length base) cursor ours -> chunks_ok (length base) cursor theirs ->
  apart ours theirs ->
  merge_loop fuel opts base ours theirs cursor out k
  = Some (out ++ patch base cursor (weave ours theirs), k).
Proof.
  induction fuel as [|fuel IH] in ours, theirs, cursor, out |- *; intros Hfuel Ho Ht Hap.
  - destruct ours, theirs; simpl in *; try lia. done.
  - assert ((ours, theirs) = ([], []) \/ (ours, theirs) <> ([], [])) as [[= -> ->]|Hne]
      by (destruct ours, theirs; (by left) || (by right)); [done|].
    destruct (merge_loop_step fuel opts base ours theirs cursor out k Ho Ht Hne)
      as (Hnext & Ho' & Ht' & Hcase).
    set (next := nextStart ours theirs) in *.
    destruct Hcase as [(oc & ours' & tc & theirs' & -> & -> & Hov & _)|
      [(oc & ours' & -> & Hs & Hst & ->)|(tc & theirs' & -> & Hs & Hst & ->)]].
    + apply Forall_cons in Hap as [Hap _]. apply Forall_cons in Hap as [Hap _]. congruence.
    + destruct Ho' as (Hc & Hn & Hr). apply Forall_cons in Hap as [_ Hap]. simpl in Hfuel.
      rewrite IH; [|lia|by eapply chunks_ok_le; [|exact Hr]; lia|exact (starts_ok _ _ _ _ _ Ht' Hst)|done].
      rewrite weave_ours by (eapply starts_from_le; [|exact Hst]; lia). simpl. by rewrite <- Hs, <- !app_assoc.
    + destruct Ht' as (Hc & Hn & Hr). simpl in Hfuel.
      rewrite IH; [|lia|exact (starts_ok _ _ _ _ _ Ho' Hst)|by eapply chunks_ok_le; [|exact Hr]; lia|].
      2:{ refine (Forall_impl _ _ _ Hap _). by intros c [_ Hcs]%Forall_cons. }
      rewrite weave_theirs by (eapply starts_from_le; [|exact Hst]; lia). simpl. by rewrite <- Hs, <- !app_assoc.
Qed.

Lemma apart_nil_r ours : apart ours [].
Proof. apply Forall_forall. by constructor. Qed.

(** * Text and lines *)

Lemma split_nl_nonempty text : split_nl text <> [].
Proof. destruct text as [|c text]; simpl; [done|]. destruct (Ascii.eqb c NL); [done|]. by destruct (split_nl text). Qed.

Lemma join_cons s (ls : list string) : ls <> [] -> String.concat nl (s :: ls) = s ^^ nl ^^ String.concat nl ls.
Proof. by destruct ls. Qed.

Lemma concat_split_nl text : String.concat nl (split_nl text) = text.
Proof.
  induction text as [|c text IH]; [done|]. pose proof (split_nl_nonempty text).
  cbn [split_nl]. destruct (Ascii.eqb_spec c NL) as [->|Hc].
  - rewrite join_cons by done. by rewrite IH.
  - destruct (split_nl text) as [|line rest]; [done|]. rewrite <- IH.
    destruct rest; [done|]. by rewrite (join_cons (String c line)), (join_cons line), string_app_cons.
Qed.

Lemma join_snoc ls s :
  ls <> [] -> String.concat nl (ls ++ [s]) = String.concat nl ls ^^ nl ^^ s.
Proof.
  induction ls as [|l ls IH]; [done|]. intros _. destruct ls as [|l' ls]; [done|].
  rewrite <- app_comm_cons, !join_cons, IH by done. by rewrite !string_app_assoc.
Qed.

(** The last line of a text that is not empty is empty exactly after a newline. *)
Lemma split_nl_last text :
  text <> "" -> exists ls line, split_nl text = ls ++ [line] /\ (line =s? "") = ends_nl text.
Proof.
  induction text as [|c text IH]; [done|]. intros _. destruct text as [|d text].
  - simpl. destruct (Ascii.eqb c NL); [by exists [""], ""|by exists [], (String c "")].
  - destruct IH as (ls & line & Hs & Hl); [done|].
    change (ends_nl (String c (String d text))) with (ends_nl (String d text)).
    pose proof (concat_split_nl (String d text)) as Hc.
    cbn [split_nl]. cbn [split_nl] in Hs, Hc. rewrite Hs in Hc |- *.
    destruct (Ascii.eqb c NL); [by exists ("" :: ls), line|].
    destruct ls as [|l ls]; simpl.
    + exists [], (String c line). split; [done|]. simpl in Hc. subst. simpl in Hl |- *. by rewrite <- Hl.
    + by exists (String c l :: ls), line.
Qed.

Lemma splitLines_spec text :
  text <> "" ->
  if ends_nl text then exists ls, splitLines text = ls /\ ls <> [] /\ text = String.concat nl ls ^^ nl
  else String.concat nl (splitLines text) = text.
Proof.
  intros Hne. destruct (split_nl_last text Hne) as (ls & line & Hs & Hl).
  pose proof (concat_split_nl text) as Hc. unfold splitLines. rewrite (string_eqb_ne _ _ Hne).
  rewrite Hs in Hc |- *. rewrite rev_unit. simpl. rewrite <- Hl.
  destruct (String.eqb_spec line "") as [->|Hline]; [|done].
  exists ls. rewrite length_app, Nat.add_sub, take_app_length.
  assert (ls <> []) by (intros ->; simpl in Hc; congruence).
  split_and!; [done|done|]. by rewrite <- Hc, join_snoc, string_app_nil_r.
Qed.

(** The line diff is minimal: the lines it keeps are a longest common
    subsequence of the two texts. *)
(** * The table *)

(** The first row of a table and its first cell. *)
Definition top (base side : list string) : list Z := hd [] (lcs_table base side).
Definition len (base side : list string) : Z := hd 0%Z (top base side).

Lemma lcs_row_drop b side below j :
  length below = S (length side) -> j <= length side ->
  drop j (lcs_row b side below) = lcs_row b (drop j side) (drop j below).
Proof.
  induction side as [|s side IH] in below, j |- *; destruct below as [|d below]; intros Hlen Hj; simpl in *; try lia.
  - by replace j with 0 by lia.
  - destruct j as [|j]; [done|]. simpl. apply IH; lia.
Qed.

Lemma lcs_row_length b side below :
  length below = S (length side) -> length (lcs_row b side below) = S (length side).
Proof.
  induction side as [|s side IH] in below |- *; destruct below as [|d below]; simpl; intros; try lia.
  rewrite IH; lia.
Qed.

Lemma top_length base side : length (top base side) = S (length side).
Proof.
  unfold top. induction base as [|b base IH]; simpl; [by rewrite repeat_length|]. by apply lcs_row_length.
Qed.

Lemma top_drop base side j : j <= length side -> top base (drop j side) = drop j (top base side).
Proof.
  intros Hj. unfold top. induction base as [|b base IH]; simpl.
  - induction side as [|s side IHs] in j, Hj |- *; simpl in *; [by replace j with 0 by lia|].
    destruct j as [|j]; [done|]. simpl. rewrite IHs by lia. done.
  - rewrite lcs_row_drop by (done || apply top_length). by rewrite IH.
Qed.

Lemma nth_hd_drop {A} (l : list A) i d : nth i l d = hd d (drop i l).
Proof. induction l as [|x l IH] in i |- *; destruct i; simpl; try done. Qed.

Lemma table_drop base side i : i <= length base -> drop i (lcs_table base side) = lcs_table (drop i base) side.
Proof.
  induction base as [|b base IH] in i |- *; simpl; intros Hi; [by replace i with 0 by lia|].
  destruct i as [|i]; [done|]. simpl. apply IH. lia.
Qed.

(** The cell [(i, j)] is about the texts from [i] and [j] on. *)
Lemma cell_len base side i j :
  i <= length base -> j <= length side -> cell (lcs_table base side) i j = len (drop i base) (drop j side).
Proof.
  intros Hi Hj. unfold cell, len. rewrite !nth_hd_drop, table_drop by done.
  by rewrite top_drop.
Qed.

Lemma len_nil_l side : len [] side = 0%Z.
Proof. done. Qed.

Lemma len_nil_r base : len base [] = 0%Z.
Proof. unfold len, top. by destruct base. Qed.

Lemma len_cons b base s side :
  len (b :: base) (s :: side)
  = lcs_cell b s (len base side) (len base (s :: side)) (len (b :: base) side).
Proof.
  unfold len at 1. unfold top. simpl.
  pose proof (top_length base (s :: side)) as Hl. fold (top base (s :: side)).
  pose proof (top_drop base (s :: side) 1 ltac:(simpl; lia)) as Hd. simpl in Hd.
  unfold len. destruct (top base (s :: side)) as [|d below]; [done|]. simpl in *.
  change (top base side = below) in Hd. unfold top at 2. simpl. fold (top base side). by rewrite Hd.
Qed.

(** * The table is the longest common subsequence *)

(** No cell wraps around below 2^32 lines. *)
Lemma len_bounds base side :
  (Z.of_nat (length side) < 2 ^ 32)%Z -> (0 <= len base side <= Z.of_nat (length side))%Z.
Proof.
  induction base as [|b base IHb] in side |- *; intros Hs; [by rewrite len_nil_l; lia|].
  induction side as [|s side IHs]; [by rewrite len_nil_r|].
  rewrite len_cons. unfold lcs_cell. simpl length in *.
  specialize (IHs ltac:(lia)). pose proof (IHb side ltac:(lia)). pose proof (IHb (s :: side) Hs) as H'. simpl length in H'.
  destruct (b =s? s); [|lia]. rewrite Z.mod_small; lia.
Qed.

Lemma len_cons_eq b base side :
  (Z.of_nat (length (b :: side)) < 2 ^ 32)%Z -> len (b :: base) (b :: side) = (len base side + 1)%Z.
Proof.
  intros Hs. rewrite len_cons. unfold lcs_cell. rewrite String.eqb_refl.
  simpl length in Hs. pose proof (len_bounds base side ltac:(lia)). rewrite Z.mod_small; lia.
Qed.

Lemma sublist_tail {A} (x : A) l k : x :: l `sublist_of` x :: k -> l `sublist_of` k.
Proof.
  intros [H|(? & [= <-] & H)]%sublist_cons_r; [|done].
  etrans; [|exact H]. by apply sublist_cons.
Qed.

Lemma len_max base side l :
  (Z.of_nat (length side) < 2 ^ 32)%Z -> l `sublist_of` base -> l `sublist_of` side ->
  (Z.of_nat (length l) <= len base side)%Z.
Proof.
  induction base as [|b base IHb] in side, l |- *; intros Hs Hb Hl.
  { apply sublist_nil_r in Hb as ->. rewrite len_nil_l. simpl. lia. }
  induction side as [|s side IHs] in l, Hs, Hb, Hl |- *.
  { apply sublist_nil_r in Hl as ->. rewrite len_nil_r. simpl. lia. }
  rewrite len_cons. unfold lcs_cell. simpl in Hs.
  pose proof (len_bounds base side ltac:(lia)).
  destruct (String.eqb_spec b s) as [->|Hne].
  - rewrite Z.mod_small by lia. destruct l as [|x l]; simpl; [lia|].
    enough (Z.of_nat (length l) <= len base side)%Z by lia.
    apply IHb; [lia| |].
    + apply sublist_cons_r in Hb as [Hb|(? & [= -> ->] & Hb)]; [|done].
      etrans; [by apply sublist_cons|exact Hb].
    + apply sublist_cons_r in Hl as [Hl|(? & [= -> ->] & Hl)]; [|done].
      etrans; [by apply sublist_cons|exact Hl].
  - apply sublist_cons_r in Hl as [Hl|(l' & -> & Hl')].
    + specialize (IHs l ltac:(lia) Hb Hl). lia.
    + apply sublist_cons_r in Hb as [Hb|(? & [= -> _] & _)]; [|done].
      pose proof (IHb (s :: side) (s :: l') ltac:(simpl; lia) Hb (sublist_skip _ _ _ Hl')). simpl in *. lia.
Qed.

(** * The walk follows the table *)

(** The lines of the base the chunks take out. *)
Definition removed (chunks : list Chunk) : nat := sum_list_with (fun c => c.(baseEnd) - c.(baseStart)) chunks.

(** The lines of the base a diff keeps. *)
Definition kept (base : list string) (chunks : list Chunk) : nat := length base - removed chunks.

Lemma removed_flush chunks pending : removed (flush chunks pending) = removed chunks + removed (flush [] pending).
Proof. rewrite flush_app. apply sum_list_with_app. Qed.

Lemma diff_walk_removed fuel base side i j pending chunks res :
  i <= length base -> j <= length side -> pending_ok i pending ->
  (Z.of_nat (length side) < 2 ^ 32)%Z ->
  diff_walk fuel base side (lcs_table base side) i j pending chunks = Some res ->
  Z.of_nat (removed res)
  = (Z.of_nat (removed chunks + removed (flush [] pending) + (length base - i))
     - len (drop i base) (drop j side))%Z.
Proof.
  induction fuel as [|fuel IH] in i, j, pending, chunks |- *; intros Hi Hj Hp Hs; simpl;
    destruct (Nat.ltb_spec i (length base)) as [Hib|Hib], (Nat.ltb_spec j (length side)) as [Hjs|Hjs];
    simpl; try done.
  1,5: intros [= <-]; rewrite removed_flush, (drop_ge base), len_nil_l by lia; lia.
  - destruct (lookup_lt_is_Some_2 base i Hib) as [b Hb], (lookup_lt_is_Some_2 side j Hjs) as [s Hsd].
    destruct (lines_equal base side i j) eqn:Heq.
    + apply lines_equal_spec in Heq as (x & Hx & Hy). intros Hw%IH; [|lia|lia|done|done].
      rewrite Hw, removed_flush, (drop_lookup _ _ _ Hx), (drop_lookup _ _ _ Hy), len_cons_eq;
        [simpl; lia|]. rewrite <- (drop_lookup _ _ _ Hy), length_drop. lia.
    + assert (len (drop i base) (drop j side)
              = Z.max (len (drop (S i) base) (drop j side)) (len (drop i base) (drop (S j) side))) as Hlen.
      { unfold lines_equal in Heq. rewrite Hb, Hsd in Heq.
        rewrite (drop_lookup _ _ _ Hb), (drop_lookup _ _ _ Hsd), len_cons at 1. unfold lcs_cell. by rewrite Heq, <- (drop_lookup _ _ _ Hb), <- (drop_lookup _ _ _ Hsd). }
      rewrite !cell_len by lia. destruct (Nat.eqb_spec i (length base)); [lia|]. simpl.
      destruct (Z.leb_spec (len (drop (S i) base) (drop j side)) (len (drop i base) (drop (S j) side)));
        intros Hw%IH; try done; try lia; try (destruct pending; simpl in *; lia);
        rewrite Hw, Hlen; destruct pending; simpl in *; lia.
  - intros Hw%IH; try done; try lia; try (destruct pending; simpl in *; lia).
    rewrite Hw, !(drop_ge side), !len_nil_r by lia. destruct pending; simpl in *; lia.
  - assert (i = length base) as -> by lia. rewrite Nat.eqb_refl. simpl.
    intros Hw%IH; try done; try lia; try (destruct pending; simpl in *; lia).
    rewrite Hw, !drop_all, !len_nil_l. destruct pending; simpl in *; lia.
Qed.

(** The diff keeps as many lines as the longest common subsequence has. *)
Lemma diffChunks_kept base side chunks :
  (Z.of_nat (length side) < 2 ^ 32)%Z -> diffChunks base side = Some chunks ->
  Z.of_nat (removed chunks) = (Z.of_nat (length base) - len base side)%Z.
Proof.
  intros Hs Hd. apply diff_walk_removed in Hd; try done; try lia. rewrite !drop_0 in Hd.
  simpl in Hd. lia.
Qed.
