(* ===== verification/Diff3Props.v ===== *)
(** What the line diff and the three-way line merge guarantee. *)
From S2P Require Import Prelude Diff3 Diff3Laws.
From stdpp Require Import sorting.

Module Diff.

(** A diff always ends, its chunks lie in order and apart from each other
    within the base, and replacing their spans by their lines turns the base into
    the side. *)
Theorem diff_roundtrip (base side : list string) :
  exists chunks, diffChunks base side = Some chunks /\ chunks_ok (length base) 0 chunks /\
    patch base 0 chunks = side.
Proof. apply diffChunks_patch. Qed.

(** C32: a diff is minimal: no common subsequence of the two texts is longer than
    the part of the base the diff keeps (the cells of the table are 32-bit). *)
Theorem diff_minimal (base side : list string) chunks l :
  (Z.of_nat (length side) < 2 ^ 32)%Z -> diffChunks base side = Some chunks ->
  l `sublist_of` base -> l `sublist_of` side -> length l <= kept base chunks.
Proof.
  intros Hs Hd Hb Hl. pose proof (len_max _ _ _ Hs Hb Hl). pose proof (diffChunks_kept _ _ _ Hs Hd).
  unfold kept. lia.
Qed.

Lemma diff_minimal_witness :
  length ["a"; "c"] <= kept ["a"; "b"; "c"] [mkChunk 1 2 ["x"; "y"]].
Proof.
  apply (diff_minimal ["a"; "b"; "c"] ["a"; "x"; "y"; "c"]);
    [done|by vm_compute|by repeat constructor..].
Defined.

Lemma mergeLines_merged opts (base ours theirs : list string) :
  exists out k, mergeLines opts base ours theirs = Some (out, k) /\ Merged opts base ours theirs out k.
Proof.
  unfold mergeLines. destruct (diffChunks_patch base ours) as (oc & -> & Hoc & Hop).
  destruct (diffChunks_patch base theirs) as (tc & -> & Htc & Htp).
  destruct (merge_loop_spec (length oc + length tc) opts base oc tc 0 [] 0) as (out & k & -> & Hm);
    [done..|].
  exists out, k. split; [done|]. by rewrite drop_0, Hop, Htp in Hm.
Qed.

(** Edits that do not touch the same part of the base merge without a
    conflict, and the result has both. *)
Theorem apart_edits_merge opts (base ours theirs : list string) oc tc :
  diffChunks base ours = Some oc -> diffChunks base theirs = Some tc -> apart oc tc ->
  mergeLines opts base ours theirs = Some (patch base 0 (weave oc tc), 0).
Proof.
  intros Ho Ht Hap. unfold mergeLines. rewrite Ho, Ht.
  destruct (diffChunks_patch base ours) as (? & Ho' & Hoc & _).
  destruct (diffChunks_patch base theirs) as (? & Ht' & Htc & _). simplify_eq.
  by rewrite merge_loop_apart.
Qed.

Lemma apart_edits_merge_witness :
  mergeLines no_labels ["a"; "b"; "c"] ["A"; "b"; "c"] ["a"; "b"; "c"; "d"]
  = Some (["A"; "b"; "c"; "d"], 0).
Proof.
  refine (apart_edits_merge no_labels ["a"; "b"; "c"] ["A"; "b"; "c"] ["a"; "b"; "c"; "d"]
            [mkChunk 0 1 ["A"]] [mkChunk 3 3 ["d"]] _ _ _); [by vm_compute..|by repeat constructor].
Defined.

Lemma lines_one_sided opts (base theirs : list string) :
  mergeLines opts base base theirs = Some (theirs, 0) /\ mergeLines opts base theirs base = Some (theirs, 0).
Proof.
  unfold mergeLines. rewrite diffChunks_self. destruct (diffChunks_patch base theirs) as (tc & -> & Htc & Htp).
  assert (weave tc [] = tc /\ weave [] tc = tc) as [Hw Hw'] by by destruct tc.
  rewrite !merge_loop_apart by (done || simpl; lia || apply apart_nil_r || constructor).
  rewrite Hw, Hw'. simpl. by rewrite Htp.
Qed.

(** Splitting a text into lines and joining them again gives the text, except
    for the text that is a single newline. *)
Theorem lines_roundtrip (text : string) :
  text <> nl -> joinLines (splitLines text) text text text = text.
Proof.
  intros Hnl. destruct (decide (text = "")) as [->|Hne]; [done|].
  pose proof (splitLines_spec text Hne) as Hs. unfold joinLines. destruct (ends_nl text).
  - destruct Hs as (ls & -> & _ & ->). destruct (String.eqb_spec (String.concat nl ls) "") as [He|]; [|done].
    rewrite He in Hnl. done.
  - by rewrite Hs, andb_false_r.
Qed.

Lemma lines_roundtrip_witness :
  text_of ["a"; ""; "b"] <> nl /\
  joinLines (splitLines (text_of ["a"; ""; "b"])) (text_of ["a"; ""; "b"]) (text_of ["a"; ""; "b"])
    (text_of ["a"; ""; "b"]) = text_of ["a"; ""; "b"].
Proof. split; [done|]. by apply lines_roundtrip. Defined.

Lemma diff3Merge_total base ours theirs opts : exists r, diff3Merge base ours theirs opts = Some r.
Proof.
  unfold diff3Merge. destruct (ours =s? theirs), (ours =s? base), (theirs =s? base); eauto.
  destruct (mergeLines_merged opts (splitLines base) (splitLines ours) (splitLines theirs))
    as (out & k & -> & _). eauto.
Qed.

(** C31: the text merge always ends and reports [ok] exactly without conflicts; a
    side equal to the base, or to the other side, gives the other side's text as
    it is, and otherwise the lines are merged span by span. *)
Theorem diff3_merge_sound (base ours theirs : string) opts :
  exists r, diff3Merge base ours theirs opts = Some r /\ (d3_ok r = true <-> d3_conflicts r = 0) /\
    (ours = theirs \/ theirs = base -> r = mkDiff3Result true ours 0) /\
    (ours = base -> r = mkDiff3Result true theirs 0) /\
    (ours <> theirs -> ours <> base -> theirs <> base ->
     exists out, d3_text r = joinLines out base ours theirs /\
       Merged opts (splitLines base) (splitLines ours) (splitLines theirs) out (d3_conflicts r)).
Proof.
  unfold diff3Merge.
  destruct (String.eqb_spec ours theirs) as [->|Hot]; [eexists; split; [done|]; naive_solver|].
  destruct (String.eqb_spec ours base) as [->|Hob]; [eexists; split; [done|]; naive_solver|].
  destruct (String.eqb_spec theirs base) as [->|Htb]; [eexists; split; [done|]; naive_solver|].
  destruct (mergeLines_merged opts (splitLines base) (splitLines ours) (splitLines theirs))
    as (out & k & -> & Hm).
  eexists. split; [done|]. simpl. rewrite Nat.eqb_eq. naive_solver.
Qed.

(** A side that only differs from the base in its final newline never causes
    a conflict: the merge has the other side's lines. *)
Theorem newline_change_merges opts (base ours theirs : string) :
  splitLines ours = splitLines base -> ours <> theirs -> ours <> base -> theirs <> base ->
  diff3Merge base ours theirs opts
    = Some (mkDiff3Result true (joinLines (splitLines theirs) base ours theirs) 0) /\
  diff3Merge base theirs ours opts
    = Some (mkDiff3Result true (joinLines (splitLines theirs) base theirs ours) 0).
Proof.
  intros Hl Hot Hob Htb. unfold diff3Merge.
  rewrite !(string_eqb_ne ours), !(string_eqb_ne theirs) by congruence.
  rewrite Hl. destruct (lines_one_sided opts (splitLines base) (splitLines theirs)) as [-> ->]. done.
Qed.

Lemma newline_change_merges_witness :
  diff3Merge (text_of ["a"; "b"]) "a
b" (text_of ["a"; "c"]) no_labels = Some (mkDiff3Result true (text_of ["a"; "c"]) 0).
Proof.
  refine (proj1 (newline_change_merges no_labels (text_of ["a"; "b"]) "a
b" (text_of ["a"; "c"]) _ _ _ _)); by vm_compute.
Defined.

(** A clean merge can lose a text that is a single newline: the lines of the
    result are one empty line, which joins to the empty text. *)
Example newline_text_lost :
  diff3Merge "a" nl (text_of ["a"]) no_labels = Some (mkDiff3Result true "" 0).
Proof. vm_compute. reflexivity. Qed.

End Diff.
