(* ===== verification/GadMerge.v ===== *)
(** The three-way merge of worktree states (src/server/gadVcs/merge.ts): the
    case table per path over (base, ours, theirs), file modes, and the content
    merge through [diff3Merge]. The gad store and the blob store are the
    engine's two dependencies. And the replace edits of workspaceVcs.ts. *)
From S2P Require Import Prelude Dict JsText Diff3.
From Stdlib Require Import Ascii.
From stdpp Require Import sorting.
From S2P Require Import JsValue.
#[local] Open Scope Z_scope.

Record StateFile := mkStateFile {
  sf_path : string;
  content_hash : string;
  sf_mode : Z
}.

Inductive ConflictKind := KContent | KBinary | KDeleteVsChange | KMode.

#[export] Instance ConflictKind_eq_dec : EqDecision ConflictKind.
Proof. solve_decision. Defined.

Record MergeConflict := mkMergeConflict {
  mc_path : string;
  mc_kind : ConflictKind
}.

Inductive MergeStatus := Clean | Conflicted | UpToDate | FastForward.

Record MergedFile := mkMergedFile {
  mf_path : string;
  mf_contentHash : string;
  mf_size : Z;
  mf_mode : Z
}.

Record MergeComputation := mkMergeComputation {
  mc_status : MergeStatus;
  mc_files : list MergedFile;
  mc_conflicts : list MergeConflict;
  mc_baseStateHash : option string
}.

(** * The engine's dependencies *)

(** The calls the engine makes on the gad store: a state's files and the merge
    base of two states. *)
Class GadCaller := {
  listStateFiles : string -> list StateFile;
  getMergeBase : string -> string -> option string
}.

(** The content-addressed blob store: reading a digest, and writing bytes. *)
Class BlobStore (St : Type) := {
  getBytes : St -> string -> option string;
  putBytes : St -> string -> St * (string * Z)
}.

(** What the engine relies on: bytes just written can be read back under their
    digest, and writing does not disturb the blobs that were there. *)
Class BlobStoreLaws (St : Type) `{BlobStore St} := {
  get_put : forall st bytes, getBytes (putBytes st bytes).1 (putBytes st bytes).2.1 = Some bytes;
  put_keeps : forall st bytes digest b,
    getBytes st digest = Some b -> getBytes (putBytes st bytes).1 digest = Some b
}.

(** * Bytes and text *)

(** [buffer.toString("utf8")] followed by [Buffer.from(text, "utf8")], on bytes:
    every maximal ill-formed part becomes the replacement character. [need] bytes
    of the sequence [seen] are missing; the next one is between [lo] and [hi]. *)
Definition replacement : string :=
  String (ascii_of_nat 239) (String (ascii_of_nat 191) (String (ascii_of_nat 189) "")).

Fixpoint utf8_clean (need : nat) (lo hi : Z) (seen : string) (bytes : string) : string :=
  match bytes with
  | EmptyString => match need with O => "" | S _ => replacement end
  | String c rest =>
      let z := code c in
      let first :=
        if z <? 128 then String c (utf8_clean 0 128 191 "" rest)
        else if in_range 194 223 z then utf8_clean 1 128 191 (String c "") rest
        else if in_range 224 239 z then
          utf8_clean 2 (if z =? 224 then 160 else 128) (if z =? 237 then 159 else 191)
            (String c "") rest
        else if in_range 240 244 z then
          utf8_clean 3 (if z =? 240 then 144 else 128) (if z =? 244 then 143 else 191)
            (String c "") rest
        else replacement ^^ utf8_clean 0 128 191 "" rest in
      match need with
      | O => first
      | S need' =>
          if in_range lo hi z then
            match need' with
            | O => seen ^^ String c (utf8_clean 0 128 191 "" rest)
            | S _ => utf8_clean need' 128 191 (seen ^^ String c "") rest
            end
          else replacement ^^ first
      end
  end.

Definition toUtf8 (bytes : string) : string := utf8_clean 0 128 191 "" bytes.

(** A NUL byte among the first 8192. *)
Fixpoint has_nul (n : nat) (bytes : string) : bool :=
  match n, bytes with
  | S n', String c rest => Ascii.eqb c Ascii.zero || has_nul n' rest
  | _, _ => false
  end.

Definition looksBinary (bytes : string) : bool := has_nul 8192 bytes.

(** * The merge *)

Definition byPath (files : list StateFile) : list (string * StateFile) :=
  fold_left (fun d f => dict_set f.(sf_path) f d) files [].

(** The merged mode, and whether both sides changed it to different values. *)
Definition resolveMode (b : option StateFile) (o t : StateFile) : Z * bool :=
  let base := sf_mode <$> b in
  let oursChanged := negb (bool_decide (Some o.(sf_mode) = base)) in
  let theirsChanged := negb (bool_decide (Some t.(sf_mode) = base)) in
  if oursChanged && theirsChanged then (o.(sf_mode), negb (o.(sf_mode) =? t.(sf_mode)))
  else if theirsChanged then (t.(sf_mode), false)
  else (o.(sf_mode), false).

Definition keep (file : StateFile) : MergedFile :=
  mkMergedFile file.(sf_path) file.(content_hash) 0 file.(sf_mode).

(** A side changed a path: another content or mode than the base's. *)
Definition changed (side b : option StateFile) : bool :=
  negb (bool_decide (content_hash <$> side = content_hash <$> b))
  || negb (bool_decide (sf_mode <$> side = sf_mode <$> b)).

Section Engine.
Context {St : Type} `{GadCaller} `{BlobStore St}.

Definition stateFiles (stateHash : option string) : list StateFile :=
  match stateHash with
  | Some h => if h =s? "" then [] else listStateFiles h
  | None => []
  end.

Definition readBlob (st : St) (digest : string) : res string :=
  match getBytes st digest with
  | Some bytes => Ok bytes
  | None => Throw ("merge: blob missing from CAS: " ^^ digest)
  end.

(** Both sides changed the content of a path they both have. *)
Definition mergeContent (labels : Diff3Options) (st : St) (path : string) (b : option StateFile)
    (o t : StateFile) : res (St * list MergedFile * list MergeConflict) :=
  let! baseBytes := match b with Some b => readBlob st b.(content_hash) | None => Ok "" end in
  let! oursBytes := readBlob st o.(content_hash) in
  let! theirsBytes := readBlob st t.(content_hash) in
  if looksBinary baseBytes || looksBinary oursBytes || looksBinary theirsBytes
  then Ok (st, [keep o], [mkMergeConflict path KBinary])
  else
    match diff3Merge (toUtf8 baseBytes) (toUtf8 oursBytes) (toUtf8 theirsBytes) labels with
    | None => Throw "diff3 ran out of fuel"
    | Some result =>
        let '(st, (digest, size)) := putBytes st result.(d3_text) in
        let (mode, conflict) := resolveMode b o t in
        Ok (st, [mkMergedFile path digest size mode],
            (if result.(d3_ok) then [] else [mkMergeConflict path KContent])
            ++ (if conflict then [mkMergeConflict path KMode] else []))
    end.

(** One path of the merge: the files and the conflicts it adds. *)
Definition mergePath (labels : Diff3Options) (st : St) (path : string)
    (b o t : option StateFile) : res (St * list MergedFile * list MergeConflict) :=
  let survives (side : option StateFile) := match side with Some f => [keep f] | None => [] end in
  let oursChanged := changed o b in
  let theirsChanged := changed t b in
  if negb oursChanged && negb theirsChanged then Ok (st, survives o, [])
  else if oursChanged && negb theirsChanged then Ok (st, survives o, [])
  else if theirsChanged && negb oursChanged then Ok (st, survives t, [])
  else
    match o, t with
    | Some o, Some t =>
        if o.(content_hash) =s? t.(content_hash)
        then
          let (mode, conflict) := resolveMode b o t in
          Ok (st, [mkMergedFile o.(sf_path) o.(content_hash) 0 mode],
              if conflict then [mkMergeConflict path KMode] else [])
        else mergeContent labels st path b o t
    | None, None => Ok (st, [], [])
    | Some f, None | None, Some f => Ok (st, [keep f], [mkMergeConflict path KDeleteVsChange])
    end.

Fixpoint mergePaths (labels : Diff3Options) (base ours theirs : list (string * StateFile)) (paths : list string)
    (st : St) (merged : list MergedFile) (conflicts : list MergeConflict)
    : res (St * list MergedFile * list MergeConflict) :=
  match paths with
  | [] => Ok (st, merged, conflicts)
  | path :: rest =>
      let! r := mergePath labels st path (dict_get path base) (dict_get path ours) (dict_get path theirs) in
      let '(st, files, more) := r in
      mergePaths labels base ours theirs rest st (merged ++ files) (conflicts ++ more)
  end.

(** [[...new Set([...base.keys(), ...ours.keys(), ...theirs.keys()])].sort()], in
    the order of the bytes. *)
Definition allPaths (base ours theirs : list (string * StateFile)) : list string :=
  merge_sort String.le (remove_dups (dict_keys base ++ dict_keys ours ++ dict_keys theirs)).

Definition mergeFromBase (labels : Diff3Options) (st : St) (baseStateHash : option string)
    (oursStateHash theirsStateHash : string) : res (St * MergeComputation) :=
  if bool_decide (baseStateHash = Some theirsStateHash)
  then Ok (st, mkMergeComputation UpToDate [] [] baseStateHash)
  else
    let theirsFiles := stateFiles (Some theirsStateHash) in
    if bool_decide (baseStateHash = Some oursStateHash)
    then Ok (st, mkMergeComputation FastForward (map keep theirsFiles) [] baseStateHash)
    else
      let base := byPath (stateFiles baseStateHash) in
      let ours := byPath (stateFiles (Some oursStateHash)) in
      let theirs := byPath theirsFiles in
      let! r := mergePaths labels base ours theirs (allPaths base ours theirs) st [] [] in
      let '(st, merged, conflicts) := r in
      Ok (st, mkMergeComputation (match conflicts with [] => Clean | _ => Conflicted end)
                merged conflicts baseStateHash).

Definition compute (labels : Diff3Options) (st : St) (oursStateHash theirsStateHash : string)
    : res (St * MergeComputation) :=
  if oursStateHash =s? theirsStateHash
  then Ok (st, mkMergeComputation UpToDate [] [] (Some oursStateHash))
  else mergeFromBase labels st (getMergeBase oursStateHash theirsStateHash) oursStateHash theirsStateHash.

Definition compute3 (labels : Diff3Options) (st : St) (base : option string) (ours theirs : string)
    : res (St * MergeComputation) :=
  if ours =s? theirs then Ok (st, mkMergeComputation UpToDate [] [] (Some ours))
  else mergeFromBase labels st base ours theirs.
End Engine.

(** Replace edits of a working file (src/server/gadVcs/workspaceVcs.ts,
    [applyReplaceHunks]): exact ranges into the base content, applied from the
    right. *)
Record Hunk := mkHunk {
  hk_start : Z;
  hk_end : Z;
  hk_oldText : option string;
  hk_newText : string
}.

(** [content.slice(a, b)] for offsets in range. *)
Definition text_slice (a b : Z) (content : string) : string :=
  str_take (Z.to_nat (b - a)) (str_slice (Z.to_nat a) content).

(** [[...hunks].sort((a, b) => b.start - a.start)]: stable, by descending start. *)
Fixpoint insert_desc (h : Hunk) (l : list Hunk) : list Hunk :=
  match l with
  | [] => [h]
  | x :: l' => if x.(hk_start) <? h.(hk_start) then h :: l else x :: insert_desc h l'
  end.

Definition sort_desc (hunks : list Hunk) : list Hunk :=
  fold_left (fun acc h => insert_desc h acc) hunks [].

(** The loop over the sorted hunks. *)
Fixpoint apply_sorted (content : string) (hunks : list Hunk) (prevStart : Z) (out : string)
    : res string :=
  match hunks with
  | [] => Ok out
  | h :: rest =>
      let len := Z.of_nat (String.length content) in
      if (h.(hk_start) <? 0) || (len <? h.(hk_end)) || (h.(hk_end) <? h.(hk_start))
      then Throw ("replace hunk out of range [" ^^ pretty h.(hk_start) ^^ "," ^^ pretty h.(hk_end)
                  ^^ "] (len " ^^ pretty len ^^ ")")
      else if prevStart <? h.(hk_end)
      then Throw ("overlapping replace hunks at " ^^ pretty h.(hk_start))
      else if match h.(hk_oldText) with
              | Some old => text_slice h.(hk_start) h.(hk_end) content <>s? old
              | None => false
              end
      then Throw ("replace hunk oldText mismatch at [" ^^ pretty h.(hk_start) ^^ ","
                  ^^ pretty h.(hk_end) ^^ "]")
      else
        apply_sorted content rest h.(hk_start)
          (text_slice 0 h.(hk_start) out ^^ h.(hk_newText) ^^ str_slice (Z.to_nat h.(hk_end)) out)
  end.

Definition applyReplaceHunks (content : string) (hunks : list Hunk) : res string :=
  apply_sorted content (sort_desc hunks) (Z.of_nat (String.length content) + 1) content.

(** * Reference *)

(** The content from [pos] to [stop] with the hunks, given from left to right,
    replaced in place. *)
Fixpoint splice (content : string) (pos : Z) (hunks : list Hunk) (stop : Z) : string :=
  match hunks with
  | [] => text_slice pos stop content
  | h :: rest =>
      text_slice pos h.(hk_start) content ^^ h.(hk_newText) ^^ splice content h.(hk_end) rest stop
  end.

(** What a list of hunks, in descending order, has to satisfy. *)
Definition hunk_ok (content : string) (h : Hunk) : Prop :=
  0 <= h.(hk_start) <= h.(hk_end) /\ h.(hk_end) <= Z.of_nat (String.length content) /\
  forall old, h.(hk_oldText) = Some old -> text_slice h.(hk_start) h.(hk_end) content = old.

Definition right_of (a b : Hunk) : Prop := b.(hk_end) <= a.(hk_start).

(** A provenance hunk as an edit. *)
Definition edit_of (h : ReplaceHunk) : Hunk :=
  mkHunk (Z.of_nat h.(rh_start)) (Z.of_nat h.(rh_end)) (Some h.(rh_oldText)) h.(rh_newText).
