(* ===== verification/GadMergeProps.v ===== *)
(** What the worktree merge guarantees: per path, over (base, ours, theirs). *)
From S2P Require Import Prelude Dict JsText Diff3 Diff3Laws Diff3Props GadMerge.
From stdpp Require Import sorting.
#[local] Open Scope Z_scope.

(** * Paths *)

(** Every file is filed under its own path. *)
Definition paths_ok (d : list (string * StateFile)) : Prop :=
  forall p f, dict_get p d = Some f -> sf_path f = p.

Lemma byPath_ok files : paths_ok (byPath files).
Proof.
  unfold byPath. assert (paths_ok []) as H by done. revert H. generalize (@nil (string * StateFile)).
  induction files as [|f files IH]; intros d Hd; [done|]. simpl. apply IH.
  intros p g. destruct (decide (p = sf_path f)) as [->|Hne].
  - rewrite dict_get_set_eq. congruence.
  - rewrite dict_get_set_ne by done. apply Hd.
Qed.

Definition files_at (p : string) (files : list MergedFile) : list MergedFile :=
  base.filter (fun f => mf_path f = p) files.

Definition conflicts_at (p : string) (conflicts : list MergeConflict) : list MergeConflict :=
  base.filter (fun c => mc_path c = p) conflicts.

(** The paths a list of files and a list of conflicts mention are all [p]. *)
Definition all_at (p : string) (files : list MergedFile) (conflicts : list MergeConflict) : Prop :=
  Forall (fun f => mf_path f = p) files /\ Forall (fun c => mc_path c = p) conflicts.

Lemma filter_all {A} (P : A -> Prop) `{!forall x, Decision (P x)} l : Forall P l -> base.filter P l = l.
Proof. induction 1; [done|]. rewrite filter_cons_True by done. congruence. Qed.

Lemma filter_none {A} (P : A -> Prop) `{!forall x, Decision (P x)} l :
  Forall (fun x => ~ P x) l -> base.filter P l = [].
Proof. induction 1; [done|]. by rewrite filter_cons_False. Qed.

Lemma all_at_self p fs cs : all_at p fs cs -> files_at p fs = fs /\ conflicts_at p cs = cs.
Proof. intros [Hf Hc]. split; by apply filter_all. Qed.

Lemma all_at_other p q fs cs : p <> q -> all_at p fs cs -> files_at q fs = [] /\ conflicts_at q cs = [].
Proof. intros Hne [Hf Hc]. split; apply filter_none; (eapply Forall_impl; [eassumption|]); simpl; congruence. Qed.

Lemma files_at_app p l1 l2 : files_at p (l1 ++ l2) = files_at p l1 ++ files_at p l2.
Proof. apply filter_app. Qed.

Lemma conflicts_at_app p l1 l2 : conflicts_at p (l1 ++ l2) = conflicts_at p l1 ++ conflicts_at p l2.
Proof. apply filter_app. Qed.

Lemma StronglySorted_sublist {A} (R : A -> A -> Prop) l k :
  l `sublist_of` k -> StronglySorted R k -> StronglySorted R l.
Proof.
  induction 1 as [|x l k Hlk IH|x l k Hlk IH]; [done| |].
  - intros [Hx Hk]%StronglySorted_cons. constructor; [by apply IH|].
    apply Forall_forall. intros y Hy. eapply list.Forall_forall in Hx; [exact Hx|].
    by eapply elem_of_sublist.
  - intros [_ Hk]%StronglySorted_cons. by apply IH.
Qed.

Section Laws.
Context {St : Type} `{GadCaller} `{HB : BlobStore St} `{!BlobStoreLaws St}.

(** A later blob store still has the blobs of an earlier one. *)
Definition extends (st st' : St) : Prop :=
  forall digest b, getBytes st digest = Some b -> getBytes st' digest = Some b.

#[export] Instance extends_preorder : PreOrder extends.
Proof. split; [by intros ???|]. intros x y z Hxy Hyz d b Hb. by apply Hyz, Hxy. Qed.

Definition file_ok (p : string) (f : option StateFile) : Prop :=
  match f with Some f => sf_path f = p | None => True end.

Lemma dict_file_ok d p : paths_ok d -> file_ok p (dict_get p d).
Proof. intros Hd. destruct (dict_get p d) eqn:E; simpl; [by apply Hd|done]. Qed.

Definition survives (side : option StateFile) : list MergedFile :=
  match side with Some f => [keep f] | None => [] end.

(** The case table of one path, by the result: the blob store, the files and the
    conflicts. *)
Inductive path_merge (labels : Diff3Options) (st : St) (p : string) (b : option StateFile) :
    option StateFile -> option StateFile -> St -> list MergedFile -> list MergeConflict -> Prop :=
| pm_theirs_unchanged o t : changed t b = false -> path_merge labels st p b o t st (survives o) []
| pm_ours_unchanged o t : changed o b = false -> path_merge labels st p b o t st (survives t) []
| pm_both_deleted : changed None b = true -> path_merge labels st p b None None st [] []
| pm_theirs_deleted f :
    changed None b = true -> changed (Some f) b = true ->
    path_merge labels st p b (Some f) None st [keep f] [mkMergeConflict p KDeleteVsChange]
| pm_ours_deleted f :
    changed None b = true -> changed (Some f) b = true ->
    path_merge labels st p b None (Some f) st [keep f] [mkMergeConflict p KDeleteVsChange]
| pm_same_content o t :
    changed (Some o) b = true -> changed (Some t) b = true -> content_hash o = content_hash t ->
    path_merge labels st p b (Some o) (Some t) st
      [mkMergedFile (sf_path o) (content_hash o) 0 (resolveMode b o t).1]
      (if (resolveMode b o t).2 then [mkMergeConflict p KMode] else [])
| pm_binary o t :
    changed (Some o) b = true -> changed (Some t) b = true -> content_hash o <> content_hash t ->
    path_merge labels st p b (Some o) (Some t) st [keep o] [mkMergeConflict p KBinary]
| pm_text o t baseBytes oursBytes theirsBytes r :
    changed (Some o) b = true -> changed (Some t) b = true -> content_hash o <> content_hash t ->
    match b with Some f => getBytes st (content_hash f) = Some baseBytes | None => baseBytes = "" end ->
    getBytes st (content_hash o) = Some oursBytes -> getBytes st (content_hash t) = Some theirsBytes ->
    diff3Merge (toUtf8 baseBytes) (toUtf8 oursBytes) (toUtf8 theirsBytes) labels = Some r ->
    path_merge labels st p b (Some o) (Some t) (putBytes st (d3_text r)).1
      [mkMergedFile p (putBytes st (d3_text r)).2.1 (putBytes st (d3_text r)).2.2 (resolveMode b o t).1]
      ((if d3_ok r then [] else [mkMergeConflict p KContent])
       ++ (if (resolveMode b o t).2 then [mkMergeConflict p KMode] else [])).

Lemma readBlob_inv st digest bytes : readBlob st digest = Ok bytes -> getBytes st digest = Some bytes.
Proof. unfold readBlob. destruct (getBytes st digest); intros; res_inv; congruence. Qed.

Lemma mergeContent_inv labels st p b o t st' fs cs :
  changed (Some o) b = true -> changed (Some t) b = true -> content_hash o <> content_hash t ->
  mergeContent labels st p b o t = Ok (st', fs, cs) ->
  path_merge labels st p b (Some o) (Some t) st' fs cs.
Proof.
  intros Ho Ht Hne Hm. unfold mergeContent in Hm.
  apply res_bind_Ok in Hm as (bb & Hbb & Hm). apply res_bind_Ok in Hm as (ob & Hob%readBlob_inv & Hm).
  apply res_bind_Ok in Hm as (tb & Htb%readBlob_inv & Hm).
  destruct (_ || _); [injection Hm as <- <- <-; by apply pm_binary|].
  destruct (diff3Merge _ _ _ _) as [r|] eqn:Hr; [|done].
  pose proof (pm_text labels st p b o t bb ob tb r Ho Ht Hne) as Hpm.
  destruct (putBytes st (d3_text r)) as [st2 [digest size]], (resolveMode b o t) as [mode conflict].
  injection Hm as <- <- <-. apply Hpm; try done.
  destruct b; [by apply readBlob_inv|by injection Hbb].
Qed.

(** The case table covers every result. *)
Lemma mergePath_inv labels st p b o t st' fs cs :
  mergePath labels st p b o t = Ok (st', fs, cs) -> path_merge labels st p b o t st' fs cs.
Proof.
  unfold mergePath. destruct (changed t b) eqn:Ht; simpl.
  2:{ destruct (changed o b); simpl; intros [= <- <- <-]; by apply pm_theirs_unchanged. }
  destruct (changed o b) eqn:Ho; simpl; [|intros [= <- <- <-]; by apply pm_ours_unchanged].
  destruct o as [o|], t as [t|].
  - destruct (String.eqb_spec (content_hash o) (content_hash t)) as [Heq|Hne].
    + pose proof (pm_same_content labels st p b o t Ho Ht Heq) as Hpm.
      destruct (resolveMode b o t). by intros [= <- <- <-].
    + by apply mergeContent_inv.
  - intros [= <- <- <-]. by apply pm_theirs_deleted.
  - intros [= <- <- <-]. by apply pm_ours_deleted.
  - intros [= <- <- <-]. by apply pm_both_deleted.
Qed.

(** One path adds at most one file, under its path, and conflicts of its path;
    the blobs that were there stay. *)
Lemma path_merge_frame labels st p b o t st' fs cs :
  file_ok p o -> file_ok p t -> path_merge labels st p b o t st' fs cs ->
  all_at p fs cs /\ (length fs <= 1)%nat /\ extends st st'.
Proof.
  intros Ho Ht Hm. unfold all_at.
  destruct Hm as [o t|o t| | | |o t| |]; simpl in *; try (destruct o; simpl in * );
    try (destruct t; simpl in * ); try (destruct (resolveMode _ _ _).2); try (destruct (d3_ok _));
    (split; [by split; repeat constructor|]); (split; [lia|]); try done;
    intros d x; apply put_keeps.
Qed.

(** * The loop over the paths *)

Lemma mergePaths_spec labels base ours theirs paths st m c st' m' c' :
  paths_ok ours -> paths_ok theirs -> NoDup paths ->
  mergePaths labels base ours theirs paths st m c = Ok (st', m', c') ->
  exists fs cs, m' = m ++ fs /\ c' = c ++ cs /\ extends st st' /\
    (map mf_path fs `sublist_of` paths) /\
    (forall p, p ∉ paths -> files_at p fs = [] /\ conflicts_at p cs = []) /\
    (forall p, p ∈ paths -> exists st1 st2, extends st st1 /\ extends st2 st' /\
       path_merge labels st1 p (dict_get p base) (dict_get p ours) (dict_get p theirs) st2
         (files_at p fs) (conflicts_at p cs)).
Proof.
  intros Ho Ht. induction paths as [|q paths IH] in st, m, c |- *; intros Hnd Hm; simpl in Hm.
  - injection Hm as <- <- <-. exists [], []. rewrite !app_nil_r. split_and!; try done. by intros p []%elem_of_nil.
  - apply list.NoDup_cons in Hnd as [Hq Hnd]. apply res_bind_Ok in Hm as ([[st1 fs] cs] & Hq1%mergePath_inv & Hm).
    pose proof (path_merge_frame _ _ _ _ _ _ _ _ _ (dict_file_ok _ q Ho) (dict_file_ok _ q Ht) Hq1)
      as (Hat & Hlen & Hext).
    destruct (IH _ _ _ Hnd Hm) as (fs2 & cs2 & -> & -> & Hext2 & Hsub & Hout & Hin).
    exists (fs ++ fs2), (cs ++ cs2). rewrite !app_assoc. split_and!; try done.
    + by etrans.
    + rewrite map_app. destruct fs as [|f [|? ?]]; simpl in *; [by apply sublist_cons| |lia].
      destruct Hat as [Hf _]. apply Forall_cons in Hf as [-> _]. by apply sublist_skip.
    + intros p [Hne Hp]%not_elem_of_cons. rewrite files_at_app, conflicts_at_app.
      destruct (all_at_other q p fs cs) as [-> ->]; [done|done|]. by apply Hout.
    + intros p Hp. rewrite files_at_app, conflicts_at_app.
      destruct (decide (p = q)) as [->|Hne].
      * destruct (all_at_self q fs cs Hat) as [-> ->], (Hout q Hq) as [-> ->]. rewrite !app_nil_r. exists st, st1. by split_and!.
      * destruct (all_at_other q p fs cs) as [-> ->]; [done|done|].
        apply elem_of_cons in Hp as [?|Hp]; [done|].
        destruct (Hin p Hp) as (s1 & s2 & Hs1 & Hs2 & Hpm). exists s1, s2. split_and!; try done. by etrans.
Qed.
End Laws.

Module Merge.
Section Merge.
Context {St : Type} `{GadCaller} `{HB : BlobStore St} `{!BlobStoreLaws St}.

(** A state's file at a path. *)
Definition file_at (stateHash : option string) (p : string) : option StateFile :=
  dict_get p (byPath (stateFiles stateHash)).

(** The result came out of the path by path merge. *)
Definition per_path (r : MergeComputation) : Prop := r.(mc_status) = Clean \/ r.(mc_status) = Conflicted.

Lemma allPaths_spec base ours theirs :
  NoDup (allPaths base ours theirs) /\ Sorted String.le (allPaths base ours theirs) /\
  (forall p, p ∉ allPaths base ours theirs ->
     dict_get p base = None /\ dict_get p ours = None /\ dict_get p theirs = None).
Proof.
  unfold allPaths. split_and!.
  - rewrite merge_sort_Permutation. apply NoDup_remove_dups.
  - apply Sorted_merge_sort, _.
  - intros p. rewrite merge_sort_Permutation, elem_of_remove_dups, !not_elem_of_app.
    intros (Hb & Ho & Ht). split_and!; apply dict_get_None_keys; by rewrite <- list_elem_of_In.
Qed.

Lemma mergeFromBase_spec labels st bh oh th st' r :
  mergeFromBase labels st bh oh th = Ok (st', r) -> per_path r ->
  extends st st' /\ (mc_status r = Clean <-> mc_conflicts r = []) /\
  (exists paths, NoDup paths /\ Sorted String.le paths /\ map mf_path (mc_files r) `sublist_of` paths) /\
  forall p, exists st1 st2, extends st st1 /\ extends st2 st' /\
    path_merge labels st1 p (file_at bh p) (file_at (Some oh) p) (file_at (Some th) p) st2
      (files_at p (mc_files r)) (conflicts_at p (mc_conflicts r)).
Proof.
  intros Hm Hr. unfold mergeFromBase in Hm.
  case_bool_decide as Hbt; [injection Hm as <- <-; by destruct Hr|].
  case_bool_decide as Hbo; [injection Hm as <- <-; by destruct Hr|].
  apply res_bind_Ok in Hm as ([[st2 fs] cs] & Hm & Hres). injection Hres as <- <-. simpl.
  destruct (allPaths_spec (byPath (stateFiles bh)) (byPath (stateFiles (Some oh)))
    (byPath (stateFiles (Some th)))) as (Hnd & Hsorted & Hnone).
  apply mergePaths_spec in Hm as (fs' & cs' & -> & -> & Hext & Hsub & Hout & Hin);
    [|apply byPath_ok|apply byPath_ok|done].
  simpl. split_and!; [done|by destruct cs'|eauto|].
  intros p. destruct (decide (p ∈ allPaths (byPath (stateFiles bh)) (byPath (stateFiles (Some oh)))
    (byPath (stateFiles (Some th))))) as [Hp|Hp]; [by apply Hin|].
  exists st, st. split_and!; [done|done|]. unfold file_at.
  destruct (Hnone p Hp) as (-> & -> & ->), (Hout p Hp) as [-> ->].
  by apply (pm_theirs_unchanged labels st p None None None).
Qed.

Lemma file_at_ok h p : file_ok p (file_at h p).
Proof. apply dict_file_ok, byPath_ok. Qed.

Lemma changed_false side b :
  changed side b = false <-> content_hash <$> side = content_hash <$> b /\ sf_mode <$> side = sf_mode <$> b.
Proof. unfold changed. rewrite orb_false_iff, !negb_false_iff, !bool_decide_eq_true. done. Qed.

Lemma survives_eq p o t :
  file_ok p o -> file_ok p t ->
  content_hash <$> o = content_hash <$> t -> sf_mode <$> o = sf_mode <$> t -> survives o = survives t.
Proof.
  destruct o as [o|], t as [t|]; simpl; try done. intros Ho Ht ??. simplify_eq.
  unfold keep. congruence.
Qed.

(** A path only one side changed comes out of the merge as that side has it,
    deletions included, without a conflict. *)
Theorem one_sided_change_wins labels st bh oh th st' r p :
  mergeFromBase labels st bh oh th = Ok (st', r) -> per_path r ->
  (changed (file_at (Some th) p) (file_at bh p) = false ->
     files_at p (mc_files r) = survives (file_at (Some oh) p) /\ conflicts_at p (mc_conflicts r) = []) /\
  (changed (file_at (Some oh) p) (file_at bh p) = false ->
     files_at p (mc_files r) = survives (file_at (Some th) p) /\ conflicts_at p (mc_conflicts r) = []).
Proof.
  intros Hm Hr. destruct (mergeFromBase_spec _ _ _ _ _ _ _ Hm Hr) as (_ & _ & _ & Hp).
  destruct (Hp p) as (st1 & st2 & _ & _ & Hpm).
  pose proof (file_at_ok (Some oh) p) as Hfo. pose proof (file_at_ok (Some th) p) as Hft.
  set (b := file_at bh p) in *. set (o := file_at (Some oh) p) in *. set (t := file_at (Some th) p) in *.
  assert (changed o b = false -> changed t b = false -> survives o = survives t) as Heq.
  { intros [??]%changed_false [??]%changed_false. apply (survives_eq p); congruence. }
  destruct Hpm; split; intros; try congruence; split; solve [done | auto | symmetry; auto].
Qed.

(** What a reported conflict says about the three versions of its path. *)
Definition conflict_about (k : ConflictKind) (b o t : option StateFile) : Prop :=
  match k with
  | KDeleteVsChange => (o = None /\ t <> None) \/ (o <> None /\ t = None)
  | KMode => exists fo ft, o = Some fo /\ t = Some ft /\ sf_mode fo <> sf_mode ft /\
      sf_mode <$> b <> Some (sf_mode fo) /\ sf_mode <$> b <> Some (sf_mode ft)
  | KContent | KBinary => exists fo ft, o = Some fo /\ t = Some ft /\ content_hash fo <> content_hash ft
  end.

Lemma resolveMode_conflict b o t :
  (resolveMode b o t).2 = true ->
  sf_mode o <> sf_mode t /\ sf_mode <$> b <> Some (sf_mode o) /\ sf_mode <$> b <> Some (sf_mode t).
Proof.
  unfold resolveMode. do 2 case_bool_decide; simpl; try done.
  rewrite negb_true_iff, Z.eqb_neq. intros ?. split_and!; congruence.
Qed.

Lemma conflict_at_elem p k cs : mkMergeConflict p k ∈ cs -> mkMergeConflict p k ∈ conflicts_at p cs.
Proof. intros Hin. by apply list_elem_of_filter. Qed.

(** C33: a reported conflict is real: both sides changed the path, and they
    disagree in the way the conflict's kind says. *)
Theorem conflicts_are_real labels st bh oh th st' r p k :
  mergeFromBase labels st bh oh th = Ok (st', r) -> per_path r ->
  mkMergeConflict p k ∈ mc_conflicts r ->
  changed (file_at (Some oh) p) (file_at bh p) = true /\
  changed (file_at (Some th) p) (file_at bh p) = true /\
  conflict_about k (file_at bh p) (file_at (Some oh) p) (file_at (Some th) p).
Proof.
  intros Hm Hr Hk%conflict_at_elem. destruct (mergeFromBase_spec _ _ _ _ _ _ _ Hm Hr) as (_ & _ & _ & Hp).
  destruct (Hp p) as (st1 & st2 & _ & _ & Hpm).
  destruct Hpm as [o t|o t| |f|f|o t Ho Ht|o t|o t]; try by apply elem_of_nil in Hk.
  - apply list_elem_of_singleton in Hk as [= ->]. simpl. eauto.
  - apply list_elem_of_singleton in Hk as [= ->]. simpl. split_and!; eauto.
  - destruct (resolveMode _ o t).2 eqn:E; [|by apply elem_of_nil in Hk].
    apply list_elem_of_singleton in Hk as [= ->]. split_and!; [done|done|].
    exists o, t. by apply resolveMode_conflict in E as (? & ? & ?).
  - apply list_elem_of_singleton in Hk as [= ->]. split_and!; [done|done|]. by exists o, t.
  - apply elem_of_app in Hk as [Hk|Hk].
    + destruct (d3_ok _); [by apply elem_of_nil in Hk|].
      apply list_elem_of_singleton in Hk as [= ->]. split_and!; [done|done|]. by exists o, t.
    + destruct (resolveMode _ o t).2 eqn:E; [|by apply elem_of_nil in Hk].
      apply list_elem_of_singleton in Hk as [= ->]. split_and!; [done|done|].
      exists o, t. by apply resolveMode_conflict in E as (? & ? & ?).
Qed.

(** In a clean merge no change of mode is lost: a mode one side changed is
    the merged file's mode, also where the contents were merged. *)
Theorem mode_change_survives labels st bh oh th st' r p b o t :
  mergeFromBase labels st bh oh th = Ok (st', r) -> mc_status r = Clean ->
  file_at bh p = Some b -> file_at (Some oh) p = Some o -> file_at (Some th) p = Some t ->
  exists f, files_at p (mc_files r) = [f] /\
    (sf_mode t = sf_mode b -> mf_mode f = sf_mode o) /\
    (sf_mode o = sf_mode b -> mf_mode f = sf_mode t).
Proof.
  intros Hm Hr Hb Ho Ht.
  destruct (mergeFromBase_spec _ _ _ _ _ _ _ Hm (or_introl Hr)) as (_ & Hc & _ & Hp).
  destruct (Hp p) as (st1 & st2 & _ & _ & Hpm). rewrite (proj1 Hc Hr), Hb, Ho, Ht in Hpm. simpl in Hpm.
  assert (forall m, m = (resolveMode (Some b) o t).1 ->
    (sf_mode t = sf_mode b -> m = sf_mode o) /\ (sf_mode o = sf_mode b -> m = sf_mode t)) as Hmode.
  { intros m ->. unfold resolveMode. do 2 case_bool_decide; simpl in *; split; congruence. }
  inversion Hpm as [? ? Hch|? ? Hch| | | | | |]; subst; simpl in *; try done.
  - apply changed_false in Hch as [_ [= Hmt]]. exists (keep o). split_and!; simpl; congruence.
  - apply changed_false in Hch as [_ [= Hmo]]. exists (keep t). split_and!; simpl; congruence.
  - eexists. split; [done|]. by apply Hmode.
  - eexists. split; [done|]. by apply Hmode.
Qed.

(** The blobs of a state's files are in the store. *)
Definition stored (st : St) (stateHash : option string) : Prop :=
  forall p f, file_at stateHash p = Some f -> exists bytes, getBytes st (content_hash f) = Some bytes.

(** every file of the merge has its blob in the store: the blobs of the three
    states are kept and merged contents are written. *)
Theorem no_dangling_blobs labels st bh oh th st' r f :
  mergeFromBase labels st bh oh th = Ok (st', r) -> per_path r ->
  stored st (Some oh) -> stored st (Some th) -> f ∈ mc_files r ->
  exists bytes, getBytes st' (mf_contentHash f) = Some bytes.
Proof.
  intros Hm Hr Hso Hst Hf. destruct (mergeFromBase_spec _ _ _ _ _ _ _ Hm Hr) as (Hext & _ & _ & Hp).
  destruct (Hp (mf_path f)) as (st1 & st2 & Hs1 & Hs2 & Hpm).
  assert (f ∈ files_at (mf_path f) (mc_files r)) as Hin by by apply list_elem_of_filter.
  assert (forall h g, stored st (Some h) -> file_at (Some h) (mf_path f) = Some g ->
    exists bytes, getBytes st' (content_hash g) = Some bytes) as Hold.
  { intros h g Hstored Hg. destruct (Hstored _ _ Hg) as [bytes Hbytes]. eauto. }
  revert Hin. remember (file_at (Some oh) (mf_path f)) as o eqn:Eo. remember (file_at (Some th) (mf_path f)) as t eqn:Et.
  symmetry in Eo, Et.
  destruct Hpm as [o t|o t| |o|t|o t|o t|o t ??? d]; intros Hin;
    try (destruct o; [|by apply elem_of_nil in Hin]); try (destruct t; [|by apply elem_of_nil in Hin]);
    simpl in Hin; try by apply elem_of_nil in Hin.
  all: apply list_elem_of_singleton in Hin as ->; simpl in *; eauto.
  exists (d3_text d). apply Hs2, get_put.
Qed.

Definition readable (st : St) (f : option StateFile) : Prop :=
  match f with Some f => exists bytes, getBytes st (content_hash f) = Some bytes | None => True end.

Lemma readBlob_total st f : readable st (Some f) -> exists bytes, readBlob st (content_hash f) = Ok bytes.
Proof. intros [bytes Hb]. exists bytes. unfold readBlob. by rewrite Hb. Qed.

Lemma mergePath_total labels st p b o t :
  readable st b -> readable st o -> readable st t -> exists res, mergePath labels st p b o t = Ok res.
Proof.
  intros Hb Ho Ht. unfold mergePath.
  destruct (changed o b), (changed t b); simpl; eauto. destruct o as [o|], t as [t|]; eauto.
  destruct (_ =s? _); [destruct (resolveMode b o t); eauto|]. unfold mergeContent.
  assert (exists bb, match b with Some b0 => readBlob st (content_hash b0) | None => Ok "" end = Ok bb) as [bb ->].
  { destruct b; [by apply readBlob_total|eauto]. }
  destruct (readBlob_total st o Ho) as [ob ->], (readBlob_total st t Ht) as [tb ->]. simpl.
  destruct (_ || _); [eauto|].
  destruct (Diff.diff3Merge_total (toUtf8 bb) (toUtf8 ob) (toUtf8 tb) labels) as [r ->].
  destruct (putBytes st (d3_text r)) as [? [??]], (resolveMode b o t). eauto.
Qed.

Lemma mergePaths_total labels base ours theirs paths st m c :
  paths_ok ours -> paths_ok theirs ->
  (forall p st', extends st st' -> readable st' (dict_get p base) /\ readable st' (dict_get p ours) /\
     readable st' (dict_get p theirs)) ->
  exists res, mergePaths labels base ours theirs paths st m c = Ok res.
Proof.
  intros Ho Ht. induction paths as [|p paths IH] in st, m, c |- *; intros Hr; simpl; [eauto|].
  destruct (Hr p st) as (Hb1 & Ho1 & Ht1); [done|].
  destruct (mergePath_total labels st p _ _ _ Hb1 Ho1 Ht1) as [[[st1 fs] cs] Hp]. rewrite Hp. simpl.
  apply mergePath_inv, path_merge_frame in Hp as (_ & _ & Hext); [|by apply dict_file_ok..].
  apply IH. intros q st' Hst'. apply Hr. by etrans.
Qed.

(** the merge of states whose blobs are all in the store does not throw. *)
Theorem merge_total labels st bh oh th :
  stored st bh -> stored st (Some oh) -> stored st (Some th) ->
  exists st' r, mergeFromBase labels st bh oh th = Ok (st', r).
Proof.
  intros Hb Ho Ht. unfold mergeFromBase. case_bool_decide; [eauto|]. case_bool_decide; [eauto|].
  assert (forall h, stored st h -> forall p st', extends st st' ->
    readable st' (dict_get p (byPath (stateFiles h)))) as Hread.
  { intros h Hh p st' Hst'. destruct (dict_get p (byPath (stateFiles h))) as [f|] eqn:E; simpl; [|done].
    destruct (Hh p f E) as [bytes Hbytes]. eauto. }
  destruct (mergePaths_total labels (byPath (stateFiles bh)) (byPath (stateFiles (Some oh)))
    (byPath (stateFiles (Some th))) (allPaths (byPath (stateFiles bh)) (byPath (stateFiles (Some oh)))
    (byPath (stateFiles (Some th)))) st [] []) as [[[st1 fs] cs] ->];
    [apply byPath_ok|apply byPath_ok|intros ? ? ?; split_and!; by apply Hread|]. simpl. eauto.
Qed.

(** The merged files are in the order of their paths, one per path, and the
    status is clean exactly when no conflict is reported. *)
Theorem merged_paths_sorted labels st bh oh th st' r :
  mergeFromBase labels st bh oh th = Ok (st', r) -> per_path r ->
  NoDup (map mf_path (mc_files r)) /\ StronglySorted String.le (map mf_path (mc_files r)) /\
  (mc_status r = Clean <-> mc_conflicts r = []).
Proof.
  intros Hm Hr. destruct (mergeFromBase_spec _ _ _ _ _ _ _ Hm Hr) as (_ & Hc & (paths & Hnd & Hs & Hsub) & _).
  split_and!; [|  |done].
  - by eapply sublist_NoDup.
  - eapply StronglySorted_sublist; [exact Hsub|]. by apply Sorted_StronglySorted; [apply _|].
Qed.
End Merge.

(** * A concrete store *)

(** Blobs filed under themselves. *)
#[local] Instance sample_blobs : BlobStore (list string) := {
  getBytes st digest := if bool_decide (digest ∈ st) then Some digest else None;
  putBytes st bytes := (st ++ [bytes], (bytes, Z.of_nat (String.length bytes)))
}.

#[local] Instance sample_blobs_laws : BlobStoreLaws (list string).
Proof.
  split; simpl.
  - intros st bytes. rewrite bool_decide_eq_true_2; [done|]. apply elem_of_app. right. by apply list_elem_of_singleton.
  - intros st bytes digest b. case_bool_decide; [|done]. intros [= <-].
    rewrite bool_decide_eq_true_2; [done|]. apply elem_of_app. by left.
Qed.

(** A base, ours with an edit, a deletion and an executable bit, and theirs with
    an edit of the same file and an addition. *)
Definition sample_files (h : string) : list StateFile :=
  if h =s? "base" then
    [mkStateFile "a" (text_of ["one"; "two"; "three"]) 420; mkStateFile "b" "bee" 420; mkStateFile "c" "cee" 420]
  else if h =s? "ours" then
    [mkStateFile "a" (text_of ["ONE"; "two"; "three"]) 493; mkStateFile "c" "sea" 420]
  else if h =s? "theirs" then
    [mkStateFile "a" (text_of ["one"; "two"; "THREE"]) 420; mkStateFile "b" "bee" 420; mkStateFile "c" "cee" 420;
     mkStateFile "d" "dee" 420]
  else if h =s? "gone" then [mkStateFile "b" "bee" 420; mkStateFile "c" "cee" 420]
  else [].

#[local] Instance sample_gad : GadCaller := {
  listStateFiles := sample_files;
  getMergeBase _ _ := Some "base"
}.

Definition sample_store : list string :=
  map content_hash (sample_files "base" ++ sample_files "ours" ++ sample_files "theirs").

Definition sample_merge : MergeComputation :=
  mkMergeComputation Clean
    [mkMergedFile "a" (text_of ["ONE"; "two"; "THREE"]) 14 493; mkMergedFile "c" "sea" 0 420;
     mkMergedFile "d" "dee" 0 420] [] (Some "base").

Lemma sample_merge_runs :
  mergeFromBase no_labels sample_store (Some "base") "ours" "theirs"
  = Ok (sample_store ++ [text_of ["ONE"; "two"; "THREE"]], sample_merge).
Proof. vm_compute. reflexivity. Qed.

(** Ours edits the file theirs deletes. *)
Definition sample_conflict : MergeComputation :=
  mkMergeComputation Conflicted
    [mkMergedFile "a" (text_of ["ONE"; "two"; "three"]) 0 493; mkMergedFile "c" "sea" 0 420]
    [mkMergeConflict "a" KDeleteVsChange] (Some "base").

Lemma sample_conflict_runs :
  mergeFromBase no_labels sample_store (Some "base") "ours" "gone" = Ok (sample_store, sample_conflict).
Proof. vm_compute. reflexivity. Qed.

Lemma sample_stored h : stored sample_store (Some h).
Proof.
  intros p f Hf. assert (f ∈ sample_files h) as Hin.
  { unfold file_at, byPath, stateFiles in Hf. destruct (h =s? ""); [done|].
    assert (forall fs d, dict_get p (fold_left (fun d f => dict_set (sf_path f) f d) fs d) = Some f ->
      f ∈ fs \/ dict_get p d = Some f) as Hfold.
    { clear. induction fs as [|g fs IH]; simpl; [by right|]. intros d [?|Hd]%IH; [left; by right|].
      destruct (decide (p = sf_path g)) as [->|Hne].
      - rewrite dict_get_set_eq in Hd. left. injection Hd as <-. by left.
      - right. by rewrite dict_get_set_ne in Hd. }
    by apply Hfold in Hf as [?|?]. }
  exists (content_hash f). simpl. rewrite bool_decide_eq_true_2; [done|].
  assert (content_hash f ∈ map content_hash (sample_files h)) as Hin'
    by (apply list_elem_of_fmap; eauto).
  unfold sample_files in Hin'. repeat case_str; simplify_eq/=; try by apply elem_of_nil in Hin'.
  all: unfold sample_store; revert Hin'; rewrite !list_elem_of_In; simpl; intuition.
Qed.

Lemma one_sided_change_wins_witness :
  files_at "b" (mc_files sample_merge) = [] /\ conflicts_at "b" (mc_conflicts sample_merge) = [].
Proof.
  apply (proj1 (one_sided_change_wins no_labels sample_store (Some "base") "ours" "theirs" _ _ "b"
    sample_merge_runs (or_introl eq_refl))). by vm_compute.
Defined.

Lemma conflicts_are_real_witness :
  conflict_about KDeleteVsChange (file_at (Some "base") "a") (file_at (Some "ours") "a")
    (file_at (Some "gone") "a").
Proof.
  apply (conflicts_are_real no_labels sample_store (Some "base") "ours" "gone" _ _ "a" KDeleteVsChange
    sample_conflict_runs (or_intror eq_refl)). by apply list_elem_of_singleton.
Defined.

Lemma mode_change_survives_witness :
  exists f, files_at "a" (mc_files sample_merge) = [f] /\ mf_mode f = 493.
Proof.
  destruct (mode_change_survives no_labels sample_store (Some "base") "ours" "theirs" _ _ "a"
    (mkStateFile "a" (text_of ["one"; "two"; "three"]) 420)
    (mkStateFile "a" (text_of ["ONE"; "two"; "three"]) 493)
    (mkStateFile "a" (text_of ["one"; "two"; "THREE"]) 420) sample_merge_runs) as (f & Hf & Hmode & _);
    [by vm_compute..|].
  exists f. split; [exact Hf|by apply Hmode].
Defined.

Lemma no_dangling_blobs_witness :
  exists bytes, getBytes (sample_store ++ [text_of ["ONE"; "two"; "THREE"]])
    (mf_contentHash (mkMergedFile "a" (text_of ["ONE"; "two"; "THREE"]) 14 493)) = Some bytes.
Proof.
  apply (no_dangling_blobs no_labels sample_store (Some "base") "ours" "theirs" _ _ _
    sample_merge_runs (or_introl eq_refl) (sample_stored "ours") (sample_stored "theirs")).
  by apply elem_of_cons; left.
Defined.

Lemma merge_total_witness :
  exists st' r, mergeFromBase no_labels sample_store (Some "base") "ours" "gone" = Ok (st', r).
Proof.
  apply (merge_total no_labels sample_store (Some "base") "ours" "gone"); apply sample_stored.
Defined.

Lemma merged_paths_sorted_witness : NoDup (map mf_path (mc_files sample_merge)).
Proof.
  apply (merged_paths_sorted no_labels sample_store (Some "base") "ours" "theirs" _ _
    sample_merge_runs (or_introl eq_refl)).
Defined.

End Merge.
