(* ===== verification/GadHunksProps.v ===== *)
(** What replace edits guarantee: the edits accepted, their result, and that the
    provenance hunks of a diff are always among them. *)
From S2P Require Import Prelude Dict JsValue JsText Diff3 Diff3Laws GadMerge.
From stdpp Require Import sorting.
#[local] Open Scope Z_scope.

(** * Slices of text *)

Lemma str_take_0 s : str_take 0 s = "".
Proof. by destruct s. Qed.

Lemma str_take_nil n : str_take n "" = "".
Proof. by destruct n. Qed.

Lemma str_slice_nil n : str_slice n "" = "".
Proof. by destruct n. Qed.

Lemma str_take_slice n s : str_take n s ^^ str_slice n s = s.
Proof. induction s as [|c s IH] in n |- *; destruct n; simpl; try done. by rewrite string_app_cons, IH. Qed.

Lemma str_take_app n s t : (n <= String.length s)%nat -> str_take n (s ^^ t) = str_take n s.
Proof.
  induction s as [|c s IH] in n |- *; intros Hn; destruct n; simpl in *; try lia; try done.
  by rewrite IH by lia.
Qed.

Lemma str_slice_app_l n s t : (n <= String.length s)%nat -> str_slice n (s ^^ t) = str_slice n s ^^ t.
Proof.
  induction s as [|c s IH] in n |- *; intros Hn; destruct n; simpl in *; try lia; try done.
  apply IH; lia.
Qed.

Lemma str_take_take n m s : (n <= m)%nat -> str_take n (str_take m s) = str_take n s.
Proof.
  induction s as [|c s IH] in n, m |- *; intros Hn; [by rewrite !str_take_nil|].
  destruct n, m; simpl; try lia; try done. by rewrite IH by lia.
Qed.

Lemma str_slice_take n m s : str_slice n (str_take m s) = str_take (m - n) (str_slice n s).
Proof.
  induction s as [|c s IH] in n, m |- *; [by rewrite str_take_nil, str_slice_nil, str_take_nil|].
  destruct n, m; simpl; try done.
Qed.

Lemma str_take_length n s : String.length (str_take n s) = Nat.min n (String.length s).
Proof. induction s as [|c s IH] in n |- *; destruct n; simpl; try done. by rewrite IH. Qed.

Lemma str_take_all n s : (String.length s <= n)%nat -> str_take n s = s.
Proof. induction s as [|c s IH] in n |- *; intros Hn; destruct n; simpl in *; try lia; try done. by rewrite IH by lia. Qed.

Lemma str_slice_length n s : String.length (str_slice n s) = (String.length s - n)%nat.
Proof. induction s as [|c s IH] in n |- *; destruct n; simpl; try done. Qed.

(** Slices by offset: [0 <= a <= b <= length]. *)
Lemma slice_of_prefix content tail a b stop :
  0 <= a <= b -> b <= stop -> b <= Z.of_nat (String.length content) ->
  text_slice a b (text_slice 0 stop content ^^ tail) = text_slice a b content.
Proof.
  intros Ha Hb Hl. unfold text_slice. simpl. rewrite Z.sub_0_r.
  rewrite str_slice_app_l, str_take_app, str_slice_take, str_take_take; [done|lia| |].
  - rewrite str_slice_length, str_take_length. lia.
  - rewrite str_take_length. lia.
Qed.

Lemma rest_of_prefix content tail e stop :
  0 <= e <= stop -> e <= Z.of_nat (String.length content) ->
  str_slice (Z.to_nat e) (text_slice 0 stop content ^^ tail) = text_slice e stop content ^^ tail.
Proof.
  intros He Hl. unfold text_slice. simpl. rewrite Z.sub_0_r, str_slice_app_l.
  - rewrite str_slice_take. do 2 f_equal. lia.
  - rewrite str_take_length. lia.
Qed.

Lemma text_slice_stop a stop content :
  0 <= a -> Z.of_nat (String.length content) <= stop ->
  text_slice a stop content = text_slice a (Z.of_nat (String.length content)) content.
Proof. intros Ha Hs. unfold text_slice. rewrite !str_take_all; [done|rewrite str_slice_length; lia..]. Qed.

Lemma text_slice_all content : text_slice 0 (Z.of_nat (String.length content)) content = content.
Proof. unfold text_slice. simpl. rewrite str_take_all; [done|lia]. Qed.

(** * The loop *)

Lemma splice_snoc content pos hunks h stop :
  splice content pos (hunks ++ [h]) stop
  = splice content pos hunks (hk_start h) ^^ hk_newText h ^^ text_slice (hk_end h) stop content.
Proof. induction hunks as [|x hunks IH] in pos |- *; simpl; [done|]. by rewrite IH, !string_app_assoc. Qed.

(** What the rest of the loop accepts. *)
Definition accepts (content : string) (prevStart : Z) (hunks : list Hunk) : Prop :=
  Forall (hunk_ok content) hunks /\ StronglySorted right_of hunks /\
  match hunks with h :: _ => hk_end h <= prevStart | [] => True end.

Lemma right_of_head content h rest :
  Forall (hunk_ok content) (h :: rest) ->
  StronglySorted right_of (h :: rest) <->
  StronglySorted right_of rest /\ match rest with x :: _ => hk_end x <= hk_start h | [] => True end.
Proof.
  intros Hok. rewrite StronglySorted_cons. split.
  - intros [Hh Hr]. split; [done|]. destruct rest; [done|]. by apply Forall_cons in Hh as [? _].
  - intros [Hr Hx]. split; [|done]. destruct rest as [|x rest]; [by constructor|].
    apply Forall_cons in Hok as [_ Hok]. apply Forall_cons in Hok as [(Hx1 & Hx2 & _) Hok].
    apply StronglySorted_cons in Hr as [Hr _]. apply Forall_cons. split; [done|].
    eapply Forall_impl; [exact Hr|]. unfold right_of. simpl. intros y Hy. lia.
Qed.

Lemma apply_sorted_ok content hunks prevStart out out' tail :
  out = text_slice 0 prevStart content ^^ tail -> 0 <= prevStart ->
  apply_sorted content hunks prevStart out = Ok out' <->
  accepts content prevStart hunks /\ out' = splice content 0 (rev hunks) prevStart ^^ tail.
Proof.
  induction hunks as [|h rest IH] in prevStart, out, tail |- *; intros Hout Hprev; simpl.
  - rewrite Hout. split; [|by intros [_ ->]]. intros [= <-]. split; [|done]. split_and!; by constructor.
  - destruct (_ || _ || _) eqn:Hrange.
    { split; [done|]. intros [(Hok & _) _]. apply Forall_cons in Hok as [(H1 & H2 & _) _].
      apply orb_true_iff in Hrange as [[?%Z.ltb_lt|?%Z.ltb_lt]%orb_true_iff|?%Z.ltb_lt]; lia. }
    apply orb_false_iff in Hrange as [[H1%Z.ltb_ge H2%Z.ltb_ge]%orb_false_iff H3%Z.ltb_ge].
    destruct (Z.ltb_spec prevStart (hk_end h)) as [Hov|Hov].
    { split; [done|]. intros [(_ & _ & Hp) _]. simpl in Hp. lia. }
    destruct (match hk_oldText h with Some _ => _ | None => _ end) eqn:Hold.
    { split; [done|]. intros [(Hok & _) _]. apply Forall_cons in Hok as [(_ & _ & Ho) _].
      destruct (hk_oldText h) as [old|]; [|done]. rewrite (Ho old), String.eqb_refl in Hold by done. done. }
    assert (hunk_ok content h) as Hhok.
    { split_and!; try lia. intros old Ho. rewrite Ho in Hold. by apply negb_false_iff, String.eqb_eq in Hold. }
    erewrite IH; [|rewrite Hout, slice_of_prefix, rest_of_prefix by lia; reflexivity|lia].
    rewrite splice_snoc, <- !string_app_assoc. unfold accepts. rewrite Forall_cons. split.
    + intros [(Hok & Hs & Hp) Hres]. split; [|done]. split_and!; [done|done| |done].
      apply (right_of_head content); [by constructor|]. done.
    + intros [([_ Hok] & Hs & _) Hres]. split; [|done]. apply (right_of_head content) in Hs; [|by constructor].
      destruct Hs. done.
Qed.

(** * The order of the hunks *)

Lemma insert_desc_perm h l : insert_desc h l ≡ₚ h :: l.
Proof.
  induction l as [|x l IH]; simpl; [done|]. destruct (_ <? _); [done|]. rewrite IH. apply Permutation_swap.
Qed.

Lemma sort_desc_acc l acc : fold_left (fun acc h => insert_desc h acc) l acc ≡ₚ acc ++ l.
Proof.
  induction l as [|h l IH] in acc |- *; simpl; [by rewrite app_nil_r|].
  rewrite IH, insert_desc_perm. by rewrite <- Permutation_middle.
Qed.

Lemma sort_desc_perm hunks : sort_desc hunks ≡ₚ hunks.
Proof. apply sort_desc_acc. Qed.

Definition starts_after (a b : Hunk) : Prop := hk_start b <= hk_start a.

Lemma insert_desc_sorted h l : StronglySorted starts_after l -> StronglySorted starts_after (insert_desc h l).
Proof.
  induction l as [|x l IH]; simpl; intros Hs; [by repeat constructor|].
  apply StronglySorted_cons in Hs as [Hx Hs]. destruct (Z.ltb_spec (hk_start x) (hk_start h)) as [Hlt|Hge].
  - constructor; [by apply StronglySorted_cons|]. apply Forall_cons. split; [unfold starts_after; lia|].
    eapply Forall_impl; [exact Hx|]. unfold starts_after. simpl. lia.
  - constructor; [by apply IH|]. rewrite insert_desc_perm. apply Forall_cons. split; [done|]. done.
Qed.

Lemma sort_desc_sorted hunks : StronglySorted starts_after (sort_desc hunks).
Proof.
  unfold sort_desc. assert (StronglySorted starts_after []) as H by constructor. revert H.
  generalize (@nil Hunk). induction hunks as [|h hunks IH]; intros acc Hacc; simpl; [done|].
  by apply IH, insert_desc_sorted.
Qed.

(** Hunks at different starts: sorting forgets the order they were given in. *)
Lemma sort_desc_unique hunks hunks' :
  NoDup (map hk_start hunks) -> hunks ≡ₚ hunks' -> sort_desc hunks = sort_desc hunks'.
Proof.
  intros Hnd Hperm.
  assert (forall l, NoDup (map hk_start l) -> StronglySorted starts_after l ->
    StronglySorted (fun a b => hk_start b < hk_start a) l) as Hstrict.
  { induction l as [|x l IH]; [by constructor|]. simpl.
    intros [Hx Hl]%list.NoDup_cons [Hs Hxs]%StronglySorted_cons. constructor; [by apply IH|].
    apply list.Forall_forall. intros y Hy. eapply list.Forall_forall in Hs; [|exact Hy]. unfold starts_after in Hs.
    assert (hk_start y <> hk_start x); [|lia]. intros He. apply Hx. rewrite <- He. by apply list_elem_of_fmap_2. }
  assert (AntiSymm (=) (fun a b => hk_start b < hk_start a)) by (intros x y Hxy Hyx; lia).
  apply (StronglySorted_unique (fun a b => hk_start b < hk_start a)).
  - apply Hstrict; [|apply sort_desc_sorted]. by rewrite sort_desc_perm.
  - apply Hstrict; [|apply sort_desc_sorted]. by rewrite sort_desc_perm, <- Hperm.
  - by rewrite !sort_desc_perm.
Qed.

(** What two hunks must keep, [a] given before [b]: the one that starts first ends before
    the other starts, and of two at one start the second inserts only. *)
Definition apart (a b : Hunk) : Prop :=
  if hk_start a <? hk_start b then hk_end a <= hk_start b else hk_end b <= hk_start a.

Lemma insert_desc_apart h l : StronglySorted starts_after l ->
  StronglySorted right_of (insert_desc h l) <-> StronglySorted right_of l /\ Forall (fun x => apart x h) l.
Proof.
  induction l as [|x l IH]; simpl; intros Hs.
  { split; [by split; constructor|]. by repeat constructor. }
  apply StronglySorted_cons in Hs as [Hx Hs]. rewrite Forall_cons. unfold apart at 1.
  destruct (Z.ltb_spec (hk_start x) (hk_start h)) as [Hlt|Hge].
  - rewrite StronglySorted_cons, Forall_cons.
    assert (Forall (right_of h) l <-> Forall (fun y => apart y h) l) as ->; [|unfold right_of; tauto].
    rewrite !list.Forall_forall in *. split; intros H y Hy; specialize (H y Hy); specialize (Hx y Hy); unfold starts_after, apart, right_of in *;
      (destruct (Z.ltb_spec (hk_start y) (hk_start h)); [done|lia]).
  - rewrite !StronglySorted_cons, (IH Hs), insert_desc_perm, Forall_cons. unfold right_of at 1. tauto.
Qed.

Lemma sort_desc_apart hunks : StronglySorted right_of (sort_desc hunks) <-> StronglySorted apart hunks.
Proof.
  unfold sort_desc. assert (forall hunks acc, StronglySorted starts_after acc ->
    StronglySorted right_of (fold_left (fun acc h => insert_desc h acc) hunks acc) <->
    StronglySorted right_of acc /\ StronglySorted apart hunks /\ Forall (fun x => Forall (apart x) hunks) acc) as Hgen.
  { clear. induction hunks as [|h hunks IH]; intros acc Hacc; simpl.
    - split; [|tauto]. intros H. split_and!; [done|constructor|]. apply list.Forall_forall. by constructor.
    - rewrite IH by by apply insert_desc_sorted. rewrite insert_desc_apart by done. rewrite insert_desc_perm, Forall_cons, StronglySorted_cons.
      assert (Forall (fun x => Forall (apart x) (h :: hunks)) acc <->
              Forall (fun x => apart x h) acc /\ Forall (fun x => Forall (apart x) hunks) acc) as ->; [|tauto].
      rewrite <- list.Forall_and. apply Forall_iff. intros x. by rewrite Forall_cons. }
  rewrite Hgen by constructor. split; [tauto|]. intros H. split_and!; [constructor|done|constructor].
Qed.

(** Hunks from left to right, an insertion never in front of a later hunk's
    range. *)
Definition left_of (a b : Hunk) : Prop :=
  hk_end a <= hk_start b /\ (hk_start a = hk_start b -> hk_end b = hk_start b).

Lemma insert_desc_right_of h l :
  Forall (fun x => left_of x h /\ hk_start x <= hk_end x) l -> StronglySorted right_of l ->
  StronglySorted right_of (insert_desc h l).
Proof.
  induction l as [|x l IH]; simpl; intros Hl Hs; [by repeat constructor|].
  apply Forall_cons in Hl as [ [ [Hx1 Hx2] Hxe] Hl]. pose proof Hs as Hs0. apply StronglySorted_cons in Hs as [Hx Hs].
  destruct (Z.ltb_spec (hk_start x) (hk_start h)) as [Hlt|Hge].
  - constructor; [done|]. apply Forall_cons. split; [done|].
    eapply Forall_impl; [exact Hl|]. by intros y [[? ?] _].
  - constructor; [by apply IH|]. rewrite insert_desc_perm. apply Forall_cons. split; [|done].
    unfold right_of. lia.
Qed.

Lemma sort_desc_right_of hunks :
  StronglySorted left_of hunks -> Forall (fun h => hk_start h <= hk_end h) hunks ->
  StronglySorted right_of (sort_desc hunks).
Proof.
  unfold sort_desc. assert (StronglySorted right_of []) as H by constructor. revert H.
  assert (Forall (fun x => Forall (left_of x) hunks /\ hk_start x <= hk_end x) []) as H by constructor. revert H.
  generalize (@nil Hunk). induction hunks as [|h hunks IH]; intros acc Hl Hacc Hs Hok; simpl; [done|].
  apply StronglySorted_cons in Hs as [Hh Hs]. apply Forall_cons in Hok as [Hhe Hok]. apply IH; [| |done|done].
  - rewrite insert_desc_perm. apply Forall_cons. split; [done|].
    eapply Forall_impl; [exact Hl|]. by intros x [[_ ?]%Forall_cons ?].
  - apply insert_desc_right_of; [|done].
    eapply Forall_impl; [exact Hl|]. by intros x [[? _]%Forall_cons ?].
Qed.

(** * The hunks of a diff *)
#[local] Open Scope nat_scope.

(** The characters of the first [i] lines, newlines included. *)
Definition line_start (ls : list string) (i : nat) : nat :=
  sum_list_with (fun l => String.length l + 1) (take i ls).

Lemma line_offsets_lookup off ls total i :
  i < length ls -> line_offsets off ls total !! i = Some (off + line_start ls i).
Proof.
  unfold line_start. induction ls as [|l ls IH] in off, i |- *; simpl; intros Hi; [lia|].
  destruct i as [|i]; simpl; [f_equal; lia|]. rewrite IH by lia. f_equal. lia.
Qed.

Lemma line_offsets_last off ls total : line_offsets off ls total !! length ls = Some total.
Proof. by induction ls as [|l ls IH] in off |- *; simpl. Qed.

Lemma line_start_mono ls i j : i <= j -> line_start ls i <= line_start ls j.
Proof.
  unfold line_start. induction ls as [|l ls IH] in i, j |- *; intros Hij; [by rewrite !take_nil|].
  destruct i, j; simpl; try lia. apply Nat.add_le_mono_l, IH. lia.
Qed.

Lemma line_start_step ls i : i < length ls -> line_start ls i < line_start ls (S i).
Proof.
  unfold line_start. induction ls as [|l ls IH] in i |- *; simpl; intros Hi; [lia|].
  destruct i as [|i]; simpl; [lia|]. apply Nat.add_lt_mono_l, IH. lia.
Qed.

Lemma string_app_length (s t : string) : String.length (s ^^ t) = String.length s + String.length t.
Proof. induction s as [|c s IH]; [done|]. rewrite string_app_cons. simpl. by rewrite IH. Qed.

Lemma concat_length ls : ls <> [] -> String.length (String.concat nl ls) + 1 = line_start ls (length ls).
Proof.
  unfold line_start. rewrite take_ge by done. induction ls as [|l ls IH]; [done|]. intros _.
  destruct ls as [|l' ls]; [simpl; lia|].
  rewrite join_cons, !string_app_length by done. cbn [sum_list_with] in *.
  rewrite <- IH by done. simpl. lia.
Qed.

(** The offset of a position between two lines. *)
Definition position (old : string) (i : nat) : nat :=
  let ls := split_nl old in if decide (i < length ls) then line_start ls i else String.length old.

Lemma text_length old : String.length old + 1 = line_start (split_nl old) (length (split_nl old)).
Proof. rewrite <- concat_length by apply split_nl_nonempty. by rewrite concat_split_nl. Qed.

Lemma position_le old i : position old i <= String.length old.
Proof.
  unfold position. case_decide as Hi; [|done]. pose proof (text_length old) as Ht.
  pose proof (line_start_step _ _ Hi). pose proof (line_start_mono (split_nl old) (S i) (length (split_nl old)) Hi). lia.
Qed.

Lemma position_mono old i j : i <= j -> position old i <= position old j.
Proof.
  intros Hij. pose proof (position_le old i). unfold position in *. repeat case_decide; try lia.
  by apply line_start_mono.
Qed.

Lemma position_strict old i j :
  i < j -> position old i = position old j -> length (split_nl old) <= j.
Proof.
  intros Hij. unfold position. repeat case_decide; try lia. intros He.
  pose proof (line_start_step (split_nl old) i ltac:(lia)).
  pose proof (line_start_mono (split_nl old) (S i) j Hij). lia.
Qed.

Lemma offset_position old i :
  i <= length (split_nl old) ->
  Nat.min (default (String.length old) (line_offsets 0 (split_nl old) (String.length old) !! i))
    (String.length old) = position old i.
Proof.
  intros Hi. pose proof (position_le old i) as Hle. unfold position in *. case_decide as Hlt.
  - rewrite line_offsets_lookup by done. simpl in *. lia.
  - replace i with (length (split_nl old)) by lia. rewrite line_offsets_last. simpl. lia.
Qed.

(** The edit of a chunk. *)
Lemma edit_of_hunk old c :
  baseStart c <= baseEnd c -> baseEnd c <= length (split_nl old) ->
  let h := edit_of (hunkOf old (line_offsets 0 (split_nl old) (String.length old)) c) in
  hk_start h = Z.of_nat (position old (baseStart c)) /\ hk_end h = Z.of_nat (position old (baseEnd c)) /\
  hunk_ok old h.
Proof.
  intros Hc Hn. pose proof (offset_position old (baseStart c) ltac:(lia)) as Hs.
  pose proof (offset_position old (baseEnd c) Hn) as He.
  pose proof (position_mono old _ _ Hc) as Hmono. pose proof (position_le old (baseEnd c)) as Hle.
  assert (rh_end (hunkOf old (line_offsets 0 (split_nl old) (String.length old)) c) = position old (baseEnd c)) as Hend.
  { simpl. rewrite Hs, He. destruct (Nat.ltb_spec (baseStart c) (baseEnd c)); [done|]. f_equal. lia. }
  assert (rh_start (hunkOf old (line_offsets 0 (split_nl old) (String.length old)) c) = position old (baseStart c)) as Hstart
    by exact Hs.
  set (h := hunkOf old _ c) in *.
  assert (rh_oldText h = str_take (rh_end h - rh_start h) (str_slice (rh_start h) old)) as Hold by done.
  clearbody h. clear Hs He. cbn zeta. destruct h as [a b o n]. unfold hunk_ok. simpl in *. subst a b.
  split_and!; [done|done|lia|lia|lia|].
  intros x [= <-]. rewrite Hold. unfold text_slice. f_equal; [lia|]. f_equal. lia.
Qed.

Definition chunk_edits (old : string) (chunks : list Chunk) : list Hunk :=
  map edit_of (map (hunkOf old (line_offsets 0 (split_nl old) (String.length old))) chunks).

Lemma chunk_edits_from old chunks lo :
  chunks_ok (length (split_nl old)) lo chunks ->
  Forall (fun c => lo <= baseStart c <= baseEnd c /\ baseEnd c <= length (split_nl old)) chunks.
Proof.
  induction chunks as [|c chunks IH] in lo |- *; simpl; [constructor|].
  intros (Hc & Hn & Hok). constructor; [lia|].
  eapply Forall_impl; [exact (IH _ Hok)|]. simpl. lia.
Qed.

(** The hunks of ordered chunks are ordered edits. *)
Lemma chunk_edits_ok old chunks lo :
  chunks_ok (length (split_nl old)) lo chunks ->
  StronglySorted left_of (chunk_edits old chunks) /\ Forall (hunk_ok old) (chunk_edits old chunks).
Proof.
  unfold chunk_edits. induction chunks as [|c chunks IH] in lo |- *; simpl; [split; constructor|].
  intros (Hc & Hn & Hok). destruct (IH _ Hok) as [Hs Hk].
  destruct (edit_of_hunk old c) as (Hst & Hen & Hh); [lia|done|]. cbn zeta in *.
  split; [|by constructor]. constructor; [done|].
  apply list.Forall_forall. intros h (h' & -> & (c' & -> & Hin)%list_elem_of_fmap)%list_elem_of_fmap.
  pose proof (chunk_edits_from _ _ _ Hok) as Hfrom. eapply list.Forall_forall in Hfrom; [|exact Hin].
  destruct Hfrom as [Hc' Hn'], (edit_of_hunk old c') as (Hst' & Hen' & _); [lia|done|]. cbn zeta in *.
  unfold left_of. rewrite Hst, Hen, Hst', Hen'. split.
  - apply inj_le, position_mono. lia.
  - intros He%Nat2Z.inj. f_equal. apply position_strict in He; [|lia]. f_equal. lia.
Qed.

#[local] Open Scope Z_scope.

(** * Hunks from the left *)

Definition left_first (a b : Hunk) : Prop := hk_start a <= hk_start b.

Definition starts_at (start : Z) (h : Hunk) : bool := hk_start h =? start.

Lemma sorted_rev l : StronglySorted starts_after l -> StronglySorted left_first (rev l).
Proof.
  induction l as [|x l IH]; simpl; [constructor|]. intros [Hx Hs]%StronglySorted_cons.
  apply StronglySorted_app. split_and!; [|by apply IH|by repeat constructor].
  intros a b Ha ->%list_elem_of_singleton. apply list_elem_of_In, in_rev, list_elem_of_In in Ha. rewrite list.Forall_forall in Hx. by apply Hx.
Qed.

Lemma filter_rev {A} (f : A -> bool) l : List.filter f (rev l) = rev (List.filter f l).
Proof. induction l as [|x l IH]; [done|]. simpl. rewrite List.filter_app, IH. simpl. destruct (f x); [done|]. by rewrite app_nil_r. Qed.

Lemma starts_none start l : Forall (fun h => hk_start h <> start) l -> List.filter (starts_at start) l = [].
Proof. induction 1 as [|h l Hh _ IH]; [done|]. simpl. unfold starts_at at 1. by destruct (Z.eqb_spec (hk_start h) start). Qed.

Lemma insert_desc_starts start h l : StronglySorted starts_after l ->
  List.filter (starts_at start) (insert_desc h l) = List.filter (starts_at start) (l ++ [h]).
Proof.
  induction l as [|x l IH]; [done|]. intros [Hx Hs]%StronglySorted_cons. cbn [insert_desc].
  destruct (Z.ltb_spec (hk_start x) (hk_start h)) as [Hlt|Hge]; [|cbn [app List.filter]; by rewrite IH].
  rewrite (List.filter_app _ (x :: l)). cbn [List.filter]. destruct (starts_at start h) eqn:Eh; [|by rewrite app_nil_r].
  unfold starts_at in Eh. apply Z.eqb_eq in Eh. subst start.
  assert (E : List.filter (starts_at (hk_start h)) (x :: l) = []); [|cbn [List.filter] in E; by rewrite E].
  apply starts_none, Forall_cons. split; [lia|]. eapply Forall_impl; [exact Hx|]. unfold starts_after. simpl. lia.
Qed.

(** Sorting keeps the order of the hunks with one start. *)
Lemma sort_desc_starts start hunks : List.filter (starts_at start) (sort_desc hunks) = List.filter (starts_at start) hunks.
Proof.
  unfold sort_desc. assert (forall hunks acc, StronglySorted starts_after acc ->
    List.filter (starts_at start) (fold_left (fun acc h => insert_desc h acc) hunks acc) = List.filter (starts_at start) (acc ++ hunks)) as Hgen.
  { clear. induction hunks as [|h hunks IH]; intros acc Hacc; simpl; [by rewrite app_nil_r|].
    rewrite IH by by apply insert_desc_sorted. rewrite List.filter_app, insert_desc_starts, <- List.filter_app by done.
    by rewrite <- app_assoc. }
  by rewrite Hgen by constructor.
Qed.

(** The order of starts and the order at every start are the order. *)
Lemma by_starts l l' : StronglySorted left_first l -> StronglySorted left_first l' ->
  (forall start, List.filter (starts_at start) l = List.filter (starts_at start) l') -> l = l'.
Proof.
  revert l'. induction l as [|x l IH]; intros l' Hs Hs' Hf.
  - destruct l' as [|y l']; [done|]. specialize (Hf (hk_start y)). simpl in Hf. unfold starts_at in Hf at 1. by rewrite Z.eqb_refl in Hf.
  - apply StronglySorted_cons in Hs as [Hx Hs]. destruct l' as [|y l'].
    { specialize (Hf (hk_start x)). simpl in Hf. unfold starts_at in Hf at 1. by rewrite Z.eqb_refl in Hf. }
    apply StronglySorted_cons in Hs' as [Hy Hs']. rewrite !list.Forall_forall in *.
    assert (Hin : forall z m, In z (List.filter (starts_at (hk_start z)) m) <-> z ∈ m).
    { intros z m. rewrite filter_In, list_elem_of_In. unfold starts_at. rewrite Z.eqb_refl. tauto. }
    assert (Hxy : hk_start x = hk_start y).
    { assert (Hx' : x ∈ y :: l') by (apply Hin; rewrite <- Hf; apply Hin; left). assert (Hy' : y ∈ x :: l) by (apply Hin; rewrite Hf; apply Hin; left).
      apply elem_of_cons in Hx' as [->|Hx']; [done|]. apply elem_of_cons in Hy' as [->|Hy']; [done|].
      specialize (Hx y Hy'). specialize (Hy x Hx'). unfold left_first in *. lia. }
    assert (x = y) as <-.
    { specialize (Hf (hk_start x)). cbn [List.filter] in Hf.
      assert (starts_at (hk_start x) x = true /\ starts_at (hk_start x) y = true) as [E1 E2] by (unfold starts_at; rewrite Hxy, Z.eqb_refl; done).
      rewrite E1, E2 in Hf. by injection Hf. }
    f_equal. apply IH; [done|done|]. intros start. specialize (Hf start). simpl in Hf. destruct (starts_at start x); [by injection Hf|done].
Qed.

Module Hunks.

Lemma apply_iff content hunks out :
  applyReplaceHunks content hunks = Ok out <->
  Forall (hunk_ok content) hunks /\ StronglySorted right_of (sort_desc hunks) /\
  out = splice content 0 (rev (sort_desc hunks)) (Z.of_nat (String.length content) + 1).
Proof.
  unfold applyReplaceHunks. rewrite (apply_sorted_ok _ _ _ _ _ "");
    [|by rewrite string_app_nil_r, text_slice_stop, text_slice_all by lia|lia].
  rewrite string_app_nil_r. unfold accepts.
  assert (Forall (hunk_ok content) (sort_desc hunks) <-> Forall (hunk_ok content) hunks) as ->
    by by rewrite sort_desc_perm.
  split; [intuition|].
  intros (Hok & Hs & Hout). split_and!; try done.
  assert (Forall (hunk_ok content) (sort_desc hunks)) as Hok' by by rewrite sort_desc_perm.
  destruct (sort_desc hunks); [done|]. apply Forall_cons in Hok' as [(? & ? & _) _]. lia.
Qed.

(** C34: replace edits are accepted exactly when each one is in range and finds
    the text it expects, no two overlap, and of two with one start the one given second
    inserts only; the result is then the original text with every range replaced at its
    own offset, where of edits with one start the one given last comes first. *)
Theorem apply_replaces content hunks out :
  applyReplaceHunks content hunks = Ok out <->
  Forall (hunk_ok content) hunks /\ StronglySorted apart hunks /\
  exists ordered, ordered ≡ₚ hunks /\ StronglySorted left_first ordered /\
    (forall start, List.filter (starts_at start) ordered = rev (List.filter (starts_at start) hunks)) /\
    out = splice content 0 ordered (Z.of_nat (String.length content) + 1).
Proof.
  rewrite apply_iff, sort_desc_apart. split; (intros (Hok & Ha & H); split; [done|]; split; [done|]).
  - exists (rev (sort_desc hunks)). split_and!; [by rewrite <- Permutation_rev, sort_desc_perm|apply sorted_rev, sort_desc_sorted| |done].
    intros start. by rewrite filter_rev, sort_desc_starts.
  - destruct H as (ordered & Hp & Hs & Hf & ->). f_equal. apply by_starts; [done|apply sorted_rev, sort_desc_sorted|].
    intros start. by rewrite Hf, filter_rev, sort_desc_starts.
Qed.

(** Edits with different starts may be given in any order. *)
Theorem hunk_order_irrelevant content hunks hunks' :
  NoDup (map hk_start hunks) -> hunks ≡ₚ hunks' ->
  applyReplaceHunks content hunks = applyReplaceHunks content hunks'.
Proof. intros Hnd Hp. unfold applyReplaceHunks. by rewrite (sort_desc_unique _ _ Hnd Hp). Qed.

Lemma hunk_order_irrelevant_witness :
  applyReplaceHunks "hello world" [mkHunk 0 5 (Some "hello") "bye"; mkHunk 6 11 None "all"]
  = applyReplaceHunks "hello world" [mkHunk 6 11 None "all"; mkHunk 0 5 (Some "hello") "bye"].
Proof.
  apply hunk_order_irrelevant; [|apply Permutation_swap].
  apply (bool_decide_unpack _). by vm_compute.
Defined.

Example apply_runs :
  applyReplaceHunks "hello world" [mkHunk 0 5 (Some "hello") "bye"; mkHunk 6 11 None "all"] = Ok "bye all".
Proof. vm_compute. reflexivity. Qed.

(** With the same start the given order matters: an insertion in front of a
    replaced range is taken after the replacement and refused before it. *)
Example same_start_order :
  applyReplaceHunks "ab" [mkHunk 0 1 None "x"; mkHunk 0 0 None "y"] = Ok "yxb" /\
  applyReplaceHunks "ab" [mkHunk 0 0 None "y"; mkHunk 0 1 None "x"]
  = Throw "overlapping replace hunks at 0".
Proof. vm_compute. done. Qed.

(** The provenance hunks of any change are replace edits the editor accepts:
    ordered, in range, apart, and quoting the old text. *)
Theorem provenance_hunks_accepted oldText newText :
  exists hunks, computeReplaceHunks oldText newText = Some hunks /\
    StronglySorted left_of (map edit_of hunks) /\
    exists out, applyReplaceHunks oldText (map edit_of hunks) = Ok out.
Proof.
  unfold computeReplaceHunks. destruct (oldText =s? newText).
  { exists []. split_and!; [done|constructor|]. by eexists. }
  destruct (diffChunks_patch (split_nl oldText) (split_nl newText)) as (chunks & -> & Hok & _).
  destruct (chunk_edits_ok oldText chunks 0 Hok) as [Hs Hk].
  eexists. split_and!; [done|done|]. eexists. apply apply_iff. split_and!; [done| |done].
  apply sort_desc_right_of; [done|]. eapply Forall_impl; [exact Hk|]. by intros h [[? ?] _].
Qed.

(** The hunks are spans of lines and need not rebuild the new text. *)
Example provenance_is_not_a_patch :
  exists hunks, computeReplaceHunks "a" (text_of ["a"; "b"]) = Some hunks /\
    applyReplaceHunks "a" (map edit_of hunks) = Ok (text_of ["ab"]).
Proof. eexists. split; vm_compute; reflexivity. Qed.

End Hunks.
