(* ===== verification/JsBytes.v ===== *)
(** Bytes, byte arrays and the 32-bit integer operations of the language. *)
From Stdlib Require Export Strings.Byte.
From S2P Require Import Prelude.
#[local] Open Scope Z_scope.

(** A [Uint8Array]. *)
Definition bytes := list byte.

Definition byte_Z (b : byte) : Z := Z.of_N (Byte.to_N b).

(** The byte an element assignment stores: the value modulo 256. *)
Definition u8 (z : Z) : byte := default x00 (Byte.of_N (Z.to_N (z mod 256))).

Definition byteLength (l : bytes) : Z := Z.of_nat (length l).

(** [l[i] ?? 0]. *)
Definition byte_at (l : bytes) (i : nat) : Z :=
  match nth_error l i with Some b => byte_Z b | None => 0 end.

(** [ToInt32], [ToUint32] and the bitwise operators. *)
Definition int32 (z : Z) : Z := (z + 2 ^ 31) mod 2 ^ 32 - 2 ^ 31.
Definition uint32 (z : Z) : Z := z mod 2 ^ 32.
Definition shl (z n : Z) : Z := int32 (Z.shiftl (int32 z) n).
Definition ushr (z n : Z) : Z := Z.shiftr (uint32 z) n.
Definition or32 (a b : Z) : Z := Z.lor (int32 a) (int32 b).
Definition and32 (a b : Z) : Z := Z.land (int32 a) (int32 b).

(** A position of [slice]: from the end when negative, clamped to the array. *)
Definition slice_pos (len i : Z) : Z := if i <? 0 then Z.max (len + i) 0 else Z.min i len.

(** [l.slice(start, stop)]. *)
Definition js_slice {A} (l : list A) (start : Z) (stop : option Z) : list A :=
  let len := Z.of_nat (length l) in
  let a := slice_pos len start in
  let b := match stop with Some i => slice_pos len i | None => len end in
  take (Z.to_nat (b - a)) (drop (Z.to_nat a) l).

(** * Laws *)

Lemma byte_Z_range b : 0 <= byte_Z b < 256.
Proof.
  unfold byte_Z. pose proof (Byte.to_N_bounded b). lia.
Qed.

Lemma byte_Z_u8 z : byte_Z (u8 z) = z mod 256.
Proof.
  unfold u8, byte_Z. pose proof (Z.mod_pos_bound z 256 eq_refl) as Hb.
  destruct (Byte.of_N (Z.to_N (z mod 256))) as [b|] eqn:E; simpl.
  - apply Byte.to_of_N in E. rewrite E, Z2N.id; lia.
  - apply Byte.of_N_None_iff in E. lia.
Qed.

Lemma u8_byte_Z b : u8 (byte_Z b) = b.
Proof.
  unfold u8. rewrite Z.mod_small by apply byte_Z_range. unfold byte_Z.
  by rewrite N2Z.id, Byte.of_to_N.
Qed.

Lemma int32_small z : - 2 ^ 31 <= z < 2 ^ 31 -> int32 z = z.
Proof. intros H. unfold int32. rewrite Z.mod_small by lia. lia. Qed.

Lemma int32_range z : - 2 ^ 31 <= int32 z < 2 ^ 31.
Proof. unfold int32. pose proof (Z.mod_pos_bound (z + 2 ^ 31) (2 ^ 32) eq_refl). lia. Qed.

Lemma uint32_int32 z : uint32 (int32 z) = uint32 z.
Proof.
  unfold uint32, int32. rewrite Zminus_mod_idemp_l. f_equal. lia.
Qed.

Lemma uint32_small z : 0 <= z < 2 ^ 32 -> uint32 z = z.
Proof. apply Z.mod_small. Qed.

(** [uint32] is the low word, so it passes through the bitwise operators. *)
Lemma uint32_ones z : uint32 z = Z.land z (Z.ones 32).
Proof. unfold uint32. by rewrite Z.land_ones. Qed.

Lemma uint32_lor a b : uint32 (Z.lor a b) = Z.lor (uint32 a) (uint32 b).
Proof. rewrite !uint32_ones. apply Z.land_lor_distr_l. Qed.

Lemma uint32_or32 a b : uint32 (or32 a b) = Z.lor (uint32 a) (uint32 b).
Proof. unfold or32. by rewrite uint32_lor, !uint32_int32. Qed.

Lemma int32_uint32 z : int32 (uint32 z) = int32 z.
Proof. unfold uint32, int32. by rewrite Zplus_mod_idemp_l. Qed.

(** A 32-bit integer is determined by its low word. *)
Lemma int32_or32 a b : int32 (or32 a b) = or32 a b.
Proof.
  apply int32_small. unfold or32. pose proof (int32_range a) as Ha. pose proof (int32_range b) as Hb.
  revert Ha Hb. generalize (int32 a) (int32 b). clear. intros x y Hx Hy.
  assert (Hsar : forall z, - 2 ^ 31 <= z < 2 ^ 31 <-> (Z.shiftr z 31 = 0 \/ Z.shiftr z 31 = -1)).
  { intros z. rewrite Z.shiftr_div_pow2 by lia. change (2 ^ 31) with 2147483648.
    pose proof (Z.div_mod z 2147483648 ltac:(lia)). pose proof (Z.mod_pos_bound z 2147483648 eq_refl). lia. }
  apply Hsar in Hx, Hy. apply Hsar. rewrite Z.shiftr_lor.
  destruct Hx as [-> | ->], Hy as [-> | ->]; simpl; auto.
Qed.

Lemma uint32_shl z n : 0 <= n -> 0 <= z -> Z.shiftl z n < 2 ^ 32 -> z < 2 ^ 31 -> uint32 (shl z n) = Z.shiftl z n.
Proof.
  intros Hn Hz Hs Hlt. unfold shl. rewrite uint32_int32, int32_small by lia.
  apply uint32_small. split; [|done]. by apply Z.shiftl_nonneg.
Qed.
