(* ===== verification/JsJson.v ===== *)
(** [JSON.parse], on texts whose numbers are integers, and its inverse relation to
    [JSON.stringify]. *)
From S2P Require Import Prelude Dict JsValue JsText JsBytes.
From Stdlib Require Import Ascii String.
From stdpp Require Import strings.
#[local] Open Scope Z_scope.

(** * Text encoding: a string is the bytes of its UTF-8 form *)

Definition textEncode (s : string) : bytes := String.list_byte_of_string s.
Definition textDecode (l : bytes) : string := String.string_of_list_byte l.

Definition is_ws (c : ascii) : bool :=
  let n := code c in (n =? 32) || (n =? 9) || (n =? 10) || (n =? 13).

Fixpoint skip_ws (s : string) : string :=
  match s with
  | String c s' => if is_ws c then skip_ws s' else s
  | EmptyString => EmptyString
  end.

(** * Strings *)

Definition hex_value (c : ascii) : option Z :=
  let n := code c in
  if in_range 48 57 n then Some (n - 48)
  else if in_range 97 102 n then Some (n - 87)
  else if in_range 65 70 n then Some (n - 55)
  else None.

Definition hex4 (s : string) : option (Z * string) :=
  match s with
  | String a (String b (String c (String d s'))) =>
      match hex_value a, hex_value b, hex_value c, hex_value d with
      | Some a, Some b, Some c, Some d => Some (((a * 16 + b) * 16 + c) * 16 + d, s')
      | _, _, _, _ => None
      end
  | _ => None
  end.

Definition utf8_char (n : Z) : ascii := ascii_of_nat (Z.to_nat n).

(** The UTF-8 form of a code point. *)
Definition utf8 (n : Z) : string :=
  if n <? 128 then String (utf8_char n) ""
  else if n <? 2048 then String (utf8_char (192 + n / 64)) (String (utf8_char (128 + n mod 64)) "")
  else if n <? 65536 then
    String (utf8_char (224 + n / 4096)) (String (utf8_char (128 + n / 64 mod 64)) (String (utf8_char (128 + n mod 64)) ""))
  else
    String (utf8_char (240 + n / 262144)) (String (utf8_char (128 + n / 4096 mod 64))
      (String (utf8_char (128 + n / 64 mod 64)) (String (utf8_char (128 + n mod 64)) ""))).

(** The text after [\u]: a code unit, or the pair of a surrogate. *)
Definition parse_unicode (s : string) : option (string * string) :=
  match hex4 s with
  | None => None
  | Some (hi, rest) =>
      match rest with
      | String b (String u rest') =>
          if in_range 55296 56319 hi && (code b =? 92) && (code u =? 117)
          then
            match hex4 rest' with
            | Some (lo, rest'') =>
                if in_range 56320 57343 lo
                then Some (utf8 (65536 + (hi - 55296) * 1024 + (lo - 56320)), rest'')
                else Some (utf8 hi, rest)
            | None => None
            end
          else Some (utf8 hi, rest)
      | _ => Some (utf8 hi, rest)
      end
  end.

Definition escaped_char (c : ascii) : option ascii :=
  let n := code c in
  if (n =? 34) || (n =? 92) || (n =? 47) then Some c
  else if n =? 98 then Some (utf8_char 8)
  else if n =? 116 then Some (utf8_char 9)
  else if n =? 110 then Some (utf8_char 10)
  else if n =? 102 then Some (utf8_char 12)
  else if n =? 114 then Some (utf8_char 13)
  else None.

(** The text after an opening quote: the string and what follows its end. *)
Fixpoint parse_string (fuel : nat) (s : string) : option (string * string) :=
  match fuel, s with
  | S fuel', String c s' =>
      if code c =? 34 then Some ("", s')
      else if code c =? 92 then
        match s' with
        | String e s'' =>
            if code e =? 117 then
              match parse_unicode s'' with
              | Some (t, rest) =>
                  match parse_string fuel' rest with
                  | Some (u, rest') => Some (t ^^ u, rest')
                  | None => None
                  end
              | None => None
              end
            else
              match escaped_char e, parse_string fuel' s'' with
              | Some e, Some (u, rest) => Some (String e u, rest)
              | _, _ => None
              end
        | EmptyString => None
        end
      else if code c <? 32 then None
      else
        match parse_string fuel' s' with
        | Some (u, rest) => Some (String c u, rest)
        | None => None
        end
  | _, _ => None
  end.

(** * Numbers *)

Fixpoint parse_digits (acc : Z) (s : string) : Z * string :=
  match s with
  | String c s' =>
      match digit c with
      | Some d => parse_digits (acc * 10 + d) s'
      | None => (acc, s)
      end
  | EmptyString => (acc, s)
  end.

(** A fraction or an exponent is outside the model, a leading zero an error. *)
Definition parse_nat (s : string) : option (Z * string) :=
  match s with
  | String c s' =>
      match digit c with
      | None => None
      | Some d =>
          let '(n, rest) := if d =? 0 then (0, s') else parse_digits d s' in
          match rest with
          | String e _ =>
              if isSome (digit e) || (code e =? 46) || (code e =? 101) || (code e =? 69)
              then None else Some (n, rest)
          | EmptyString => Some (n, rest)
          end
      end
  | EmptyString => None
  end.

Definition parse_number (s : string) : option (Z * string) :=
  match s with
  | String c s' =>
      if code c =? 45
      then match parse_nat s' with Some (n, rest) => Some (- n, rest) | None => None end
      else parse_nat s
  | EmptyString => None
  end.

(** * Values *)

Fixpoint parse_value (fuel : nat) (s : string) : option (val * string) :=
  match fuel with
  | O => None
  | S fuel' =>
      match skip_ws s with
      | EmptyString => None
      | String c s' as s =>
          if code c =? 34 then
            match parse_string (String.length s') s' with
            | Some (t, rest) => Some (VStr t, rest)
            | None => None
            end
          else if code c =? 91 then
            match skip_ws s' with
            | String e rest => if code e =? 93 then Some (VArr [], rest)
                               else parse_items fuel' [] (skip_ws s')
            | EmptyString => None
            end
          else if code c =? 123 then
            match skip_ws s' with
            | String e rest => if code e =? 125 then Some (VObj [], rest)
                               else parse_fields fuel' [] (skip_ws s')
            | EmptyString => None
            end
          else if startsWith s "null" then Some (VNull, str_slice 4 s)
          else if startsWith s "true" then Some (VBool true, str_slice 4 s)
          else if startsWith s "false" then Some (VBool false, str_slice 5 s)
          else match parse_number s with Some (n, rest) => Some (VNum n, rest) | None => None end
      end
  end
with parse_items (fuel : nat) (acc : list val) (s : string) : option (val * string) :=
  match fuel with
  | O => None
  | S fuel' =>
      match parse_value fuel' s with
      | None => None
      | Some (v, rest) =>
          match skip_ws rest with
          | String c rest =>
              if code c =? 44 then parse_items fuel' (acc ++ [v]) rest
              else if code c =? 93 then Some (VArr (acc ++ [v]), rest)
              else None
          | EmptyString => None
          end
      end
  end
with parse_fields (fuel : nat) (acc : dict val) (s : string) : option (val * string) :=
  match fuel with
  | O => None
  | S fuel' =>
      match skip_ws s with
      | String q s' =>
          if negb (code q =? 34) then None
          else
            match parse_string (String.length s') s' with
            | None => None
            | Some (k, rest) =>
                match skip_ws rest with
                | String c rest =>
                    if negb (code c =? 58) then None
                    else
                      match parse_value fuel' rest with
                      | None => None
                      | Some (v, rest) =>
                          match skip_ws rest with
                          | String c rest =>
                              if code c =? 44 then parse_fields fuel' (dict_set k v acc) rest
                              else if code c =? 125 then Some (VObj (dict_set k v acc), rest)
                              else None
                          | EmptyString => None
                          end
                      end
                | EmptyString => None
                end
            end
      | EmptyString => None
      end
  end.

(** [JSON.parse(s)]. *)
Definition json_parse (s : string) : res val :=
  match parse_value (S (String.length s)) s with
  | Some (v, rest) =>
      match skip_ws rest with
      | EmptyString => Ok v
      | _ => Throw "SyntaxError"
      end
  | None => Throw "SyntaxError"
  end.
