(* ===== verification/JsJsonLaws.v ===== *)
(** [JSON.parse] inverts [JSON.stringify] on the values JSON can carry. *)
From S2P Require Import Prelude Dict JsValue JsText JsBytes JsJson.
From Stdlib Require Import Ascii String.
From stdpp Require Import strings.
#[local] Open Scope Z_scope.

(** * Printing and parsing *)

Lemma parse_unicode_low s hi rest :
  hex4 s = Some (hi, rest) -> in_range 55296 56319 hi = false -> parse_unicode s = Some (utf8 hi, rest).
Proof.
  intros H Hr. unfold parse_unicode. rewrite H. destruct rest as [|b [|u rest]]; [done..|]. by rewrite Hr.
Qed.

Definition plain_char (c : ascii) : bool :=
  (32 <=? code c) && negb (code c =? 34) && negb (code c =? 92).

(** A printed character reads back as itself. *)
Lemma parse_plain_char fuel c t :
  plain_char c = true ->
  parse_string (S fuel) (json_escape_char c ^^ t) =
  match parse_string fuel t with Some (u, rest) => Some (String c u, rest) | None => None end.
Proof.
  unfold plain_char. intros [[H32%Z.leb_le H34%negb_true_iff]%andb_true_iff H92%negb_true_iff]%andb_true_iff.
  unfold json_escape_char. rewrite H34, H92.
  rewrite !(proj2 (Z.eqb_neq _ _)) by lia. rewrite (proj2 (Z.ltb_ge _ _)) by lia.
  change (String c "" ^^ t) with (String c t). cbn [parse_string]. rewrite H34, H92. by rewrite (proj2 (Z.ltb_ge _ _)) by lia.
Qed.

Lemma parse_escaped_char fuel c t :
  plain_char c = false ->
  parse_string (S fuel) (json_escape_char c ^^ t) =
  match parse_string fuel t with Some (u, rest) => Some (String c u, rest) | None => None end.
Proof.
  destruct c as [[] [] [] [] [] [] [] []]; intros H; (vm_compute in H; discriminate H) || clear H.
  all: match goal with |- context [json_escape_char ?c] =>
         let x := eval vm_compute in (json_escape_char c) in change (json_escape_char c) with x end.
  all: rewrite !string_app_cons; change ("" ^^ t) with t; cbn [parse_string]; remember (parse_string fuel t) as r eqn:Er; simpl.
  all: try (erewrite parse_unicode_low; [|reflexivity|reflexivity]).
  all: rewrite <- ?Er; destruct r as [[]|]; reflexivity.
Qed.

Lemma parse_string_char fuel c t :
  parse_string (S fuel) (json_escape_char c ^^ t) =
  match parse_string fuel t with Some (u, rest) => Some (String c u, rest) | None => None end.
Proof. destruct (plain_char c) eqn:E; [by apply parse_plain_char|by apply parse_escaped_char]. Qed.

Lemma parse_quoted fuel s rest :
  (String.length s < fuel)%nat -> parse_string fuel (json_escape s ^^ String "034" rest) = Some (s, rest).
Proof.
  revert fuel; induction s as [|c s IH]; intros [|fuel] Hf; simpl in Hf; try lia; [done|].
  cbn [json_escape]. rewrite <- string_app_assoc, parse_string_char, IH by lia. done.
Qed.

Lemma string_length_app (s t : string) : String.length (s ^^ t) = (String.length s + String.length t)%nat.
Proof. induction s as [|c s IH]; [done|]. rewrite string_app_cons. simpl. by rewrite IH. Qed.

Lemma escape_length s : (String.length s <= String.length (json_escape s))%nat.
Proof.
  induction s as [|c s IH]; [done|]. cbn [json_escape]. rewrite string_length_app. simpl.
  enough (1 <= String.length (json_escape_char c))%nat by lia.
  unfold json_escape_char. repeat case_match; simpl; lia.
Qed.

(** ** Numbers *)

Lemma digit_char n : (n < 10)%N -> digit (pretty_N_char n) = Some (Z.of_N n).
Proof.
  intros H. assert (In n [0; 1; 2; 3; 4; 5; 6; 7; 8; 9]%N) as Hin by (simpl; lia).
  simpl in Hin. decompose [or] Hin; subst; try done.
Qed.

Lemma parse_digits_go n t :
  exists k, forall acc, parse_digits acc (pretty_N_go n t) = parse_digits (acc * k + Z.of_N n) t.
Proof.
  revert t. induction n as [n IH] using (well_founded_induction N.lt_wf_0). intros t.
  destruct (decide (n = 0)%N) as [->|Hn].
  { exists 1. intros acc. rewrite pretty_N_go_0. f_equal. lia. }
  rewrite pretty_N_go_step by lia. pose proof (N.mod_lt n 10 ltac:(lia)).
  destruct (IH (n / 10)%N (N.div_lt n 10 ltac:(lia) ltac:(lia))
    (String (pretty_N_char (n mod 10)) t)) as [k Hk].
  exists (k * 10). intros acc. rewrite Hk. cbn [parse_digits]. rewrite digit_char by done. f_equal.
  pose proof (N.div_mod n 10 ltac:(lia)) as Hm. apply (f_equal Z.of_N) in Hm.
  rewrite N2Z.inj_add, N2Z.inj_mul in Hm. rewrite Hm. ring.
Qed.

Lemma pretty_go_first n t :
  (0 < n)%N -> exists c s d, pretty_N_go n t = String c s /\ digit c = Some d /\ 0 < d.
Proof.
  revert t. induction n as [n IH] using (well_founded_induction N.lt_wf_0). intros t Hn.
  rewrite pretty_N_go_step by lia. pose proof (N.mod_lt n 10 ltac:(lia)).
  destruct (decide (n / 10 = 0)%N) as [E|E].
  - rewrite E, pretty_N_go_0. eexists _, _, _. split; [done|]. rewrite digit_char by done. split; [done|].
    pose proof (N.div_mod n 10 ltac:(lia)) as Hm. rewrite E in Hm. lia.
  - apply IH; [apply N.div_lt; lia|by apply N.neq_0_lt_0].
Qed.

(** What follows a number. *)
Definition delimits (rest : string) : Prop :=
  match rest with
  | String e _ => isSome (digit e) || (code e =? 46) || (code e =? 101) || (code e =? 69) = false
  | EmptyString => True
  end.

Lemma parse_digits_end acc rest : delimits rest -> parse_digits acc rest = (acc, rest).
Proof.
  destruct rest as [|e rest]; [done|]. simpl. by destruct (digit e).
Qed.

Lemma pretty_N_go_app n s t : pretty_N_go n s ^^ t = pretty_N_go n (s ^^ t).
Proof.
  revert s. induction n as [n IH] using (well_founded_induction N.lt_wf_0). intros s.
  destruct (decide (n = 0)%N) as [->|Hn]; [by rewrite !pretty_N_go_0|].
  rewrite (pretty_N_go_step n s), (pretty_N_go_step n (s ^^ t)) by lia. rewrite IH; [by rewrite string_app_cons|]. apply N.div_lt; lia.
Qed.

Lemma parse_nat_pretty n rest : delimits rest -> parse_nat (pretty n ^^ rest) = Some (Z.of_N n, rest).
Proof.
  intros Hr.
  assert (Hend : forall r : option (Z * string), match rest with
      | String e _ => if isSome (digit e) || (code e =? 46) || (code e =? 101) || (code e =? 69) then None else r
      | EmptyString => r end = r).
  { intros r. destruct rest as [|e rest]; [done|]. simpl in Hr. by rewrite Hr. }
  unfold pretty, pretty_N. destruct (decide (n = 0)%N) as [->|Hn].
  { change ("0" ^^ rest) with (String "0" rest). simpl. apply Hend. }
  rewrite pretty_N_go_app. change ("" ^^ rest) with rest.
  destruct (pretty_go_first n rest ltac:(lia)) as (c & s & d & E & Hd & Hpos).
  destruct (parse_digits_go n rest) as [k Hk]. specialize (Hk 0). rewrite E in *. unfold parse_nat.
  rewrite Hd. rewrite (proj2 (Z.eqb_neq d 0)) by lia. cbn [parse_digits] in Hk. rewrite Hd in Hk.
  rewrite Z.mul_0_l, !Z.add_0_l in Hk. rewrite Hk, parse_digits_end by done. apply Hend.
Qed.

Lemma digit_code c d : digit c = Some d -> 48 <= code c <= 57.
Proof. unfold digit, in_range. destruct (_ && _) eqn:E; [|done]. intros _. lia. Qed.

Lemma parse_number_pretty z rest : delimits rest -> parse_number (pretty z ^^ rest) = Some (z, rest).
Proof.
  intros Hr. unfold parse_number, pretty, pretty_Z. destruct z as [|p|p].
  - by apply (parse_nat_pretty 0).
  - pose proof (parse_nat_pretty (N.pos p) rest Hr) as Hp. unfold pretty in Hp.
    destruct (_ ^^ rest) as [|c s] eqn:E; [done|]. rewrite Hp.
    unfold parse_nat in Hp. destruct (digit c) as [d|] eqn:Ed; [|done]. apply digit_code in Ed.
    by rewrite (proj2 (Z.eqb_neq _ _)) by lia.
  - change (match parse_nat (pretty (N.pos p) ^^ rest) with
            | Some (n, rest) => Some (- n, rest) | None => None end = Some (Z.neg p, rest)).
    by rewrite parse_nat_pretty.
Qed.

Lemma pretty_Z_first (z : Z) : exists c s, pretty z = String c s /\ (digit c <> None \/ code c = 45).
Proof.
  assert (Hn : forall n, exists c s, pretty_N n = String c s /\ digit c <> None).
  { intros n. unfold pretty_N. destruct (decide (n = 0)%N); [by eexists _, _|].
    destruct (pretty_go_first n "" ltac:(lia)) as (c & s & d & -> & Hd & _).
    exists c, s. by rewrite Hd. }
  destruct z as [|p|p].
  - exists "0"%char, "". split; [done|]. by left.
  - destruct (Hn (N.pos p)) as (c & s & E & Hd). exists c, s. split; [exact E|by left].
  - eexists _, _. split; [reflexivity|]. by right.
Qed.

(** ** Values *)

(** Values JSON can carry: nothing undefined, no key twice. *)
Fixpoint json_val (v : val) : Prop :=
  match v with
  | VUndef => False
  | VArr l => (fix go (l : list val) : Prop := match l with [] => True | x :: l' => json_val x /\ go l' end) l
  | VObj fs =>
      dict_wf fs /\
      (fix go (fs : list (string * val)) : Prop :=
         match fs with [] => True | (_, x) :: fs' => json_val x /\ go fs' end) fs
  | _ => True
  end.

Fixpoint val_size (v : val) : nat :=
  match v with
  | VArr l => S ((fix go (l : list val) : nat := match l with [] => O | x :: l' => S (val_size x + go l') end) l)
  | VObj fs =>
      S ((fix go (fs : list (string * val)) : nat :=
         match fs with [] => O | (_, x) :: fs' => S (val_size x + go fs') end) fs)
  | _ => 1%nat
  end.

Definition sizes {A} (f : A -> nat) (l : list A) : nat := list_sum (map (fun x => S (f x)) l).

Lemma val_size_arr l : val_size (VArr l) = S (sizes val_size l).
Proof. simpl. f_equal. unfold sizes. induction l as [|x l IH]; simpl; [done|]. by rewrite IH. Qed.

Lemma val_size_obj fs : val_size (VObj fs) = S (sizes (fun kv => val_size kv.2) fs).
Proof. simpl. f_equal. unfold sizes. induction fs as [|[k x] fs IH]; simpl; [done|]. by rewrite IH. Qed.

Lemma json_val_arr l : json_val (VArr l) <-> Forall json_val l.
Proof.
  simpl. induction l as [|x l IH]; [split; [constructor|done]|].
  rewrite Forall_cons. tauto.
Qed.

Lemma json_val_obj fs : json_val (VObj fs) <-> dict_wf fs /\ Forall (fun kv => json_val kv.2) fs.
Proof.
  simpl. apply Morphisms_Prop.and_iff_morphism; [done|].
  induction fs as [|[k x] fs IH]; [split; [constructor|done]|]. rewrite Forall_cons. simpl. tauto.
Qed.

(** The text of a printed value: it does not start like a space or an end, is at
    least as long as the value is big, and reads back in front of what follows. *)
Record prints (v : val) (t : string) : Prop := {
  pr_text : json_stringify v = Some t;
  pr_first : exists c s, t = String c s /\ is_ws c = false /\ code c <> 93 /\ code c <> 125;
  pr_size : (val_size v <= String.length t)%nat;
  pr_parse rest fuel :
    delimits rest -> (val_size v <= fuel)%nat -> parse_value fuel (t ^^ rest) = Some (v, rest)
}.

Definition commas (items : list string) : string := String.concat "," items.

Lemma commas_cons x y l : commas (x :: y :: l) = x ^^ String "," (commas (y :: l)).
Proof. reflexivity. Qed.

Lemma concat_size {A} (f : A -> nat) (l : list A) (ts : list string) :
  Forall2 (fun x t => f x <= String.length t)%nat l ts ->
  (sizes f l <= S (String.length (commas ts)))%nat.
Proof.
  induction 1 as [|x t l ts Hx Hl IH]; [unfold sizes; simpl; lia|].
  unfold sizes in *. cbn [map list_sum foldr]. destruct Hl as [|y t' l ts Hy Hl].
  - change (commas [t]) with t. simpl. lia.
  - rewrite commas_cons, string_length_app. cbn [String.length]. change (foldr Nat.add 0%nat) with list_sum. lia.
Qed.

Lemma skip_first c s rest : is_ws c = false -> skip_ws (String c s ^^ rest) = String c s ^^ rest.
Proof. intros H. rewrite string_app_cons. simpl. by rewrite H. Qed.

Lemma delimits_comma rest : delimits (String "," rest). Proof. done. Qed.
Lemma delimits_bracket rest : delimits (String "]" rest). Proof. done. Qed.
Lemma delimits_brace rest : delimits (String "}" rest). Proof. done. Qed.
#[local] Hint Resolve delimits_comma delimits_bracket delimits_brace : core.

Lemma parse_items_printed l ts acc rest fuel :
  Forall2 prints l ts -> l <> [] -> (sizes val_size l <= fuel)%nat ->
  parse_items fuel acc (commas ts ^^ String "]" rest) = Some (VArr (acc ++ l), rest).
Proof.
  intros Hl. revert acc fuel. induction Hl as [|x t l ts Hx Hl IH]; intros acc fuel Hne Hf; [done|].
  unfold sizes in Hf. simpl in Hf. destruct fuel as [|fuel]; [lia|]. cbn [parse_items].
  destruct Hl as [|y t' l ts Hy Hl].
  - change (commas [t]) with t. rewrite (pr_parse _ _ Hx) by (done || lia). done.
  - rewrite commas_cons, <- string_app_assoc, string_app_cons.
    rewrite (pr_parse _ _ Hx) by (done || lia). cbn [skip_ws]. change (is_ws ",") with false. cbv iota. change (code "," =? 44) with true. cbv iota.
    rewrite IH; [by rewrite <- app_assoc|done|]. unfold sizes. simpl in *. lia.
Qed.

(** The printed fields of an object. *)
Definition field_text (k t : string) : string := json_quote k ^^ String ":" t.

Definition prints_field (kv : string * val) (t : string) : Prop :=
  exists u, prints kv.2 u /\ t = field_text kv.1 u.

Lemma parse_quote k rest :
  exists s', json_quote k ^^ rest = String "034" s' /\ parse_string (String.length s') s' = Some (k, rest).
Proof.
  unfold json_quote. rewrite string_app_cons. eexists. split; [reflexivity|].
  rewrite <- string_app_assoc. change (String "034" "" ^^ rest) with (String "034" rest).
  apply parse_quoted. rewrite string_length_app. pose proof (escape_length k). simpl. lia.
Qed.

Lemma dict_set_snoc {V} k (v : V) d : ~ In k (dict_keys d) -> dict_set k v d = d ++ [(k, v)].
Proof.
  induction d as [|[k' v'] d IH]; simpl; intros Hn; [done|].
  rewrite string_eqb_ne by (intros ->; tauto). f_equal. apply IH. tauto.
Qed.

Lemma parse_fields_printed fs ts acc rest fuel :
  Forall2 prints_field fs ts -> fs <> [] -> dict_wf (acc ++ fs) ->
  (sizes (fun kv => val_size kv.2) fs <= fuel)%nat ->
  parse_fields fuel acc (commas ts ^^ String "}" rest) = Some (VObj (acc ++ fs), rest).
Proof.
  intros Hl. revert acc fuel. induction Hl as [|[k x] t fs ts (u & Hx & ->) Hl IH]; intros acc fuel Hne Hw Hf;
    [done|].
  unfold sizes in Hf. simpl in Hf, Hx. destruct fuel as [|fuel]; [lia|]. cbn [parse_fields fst].
  assert (Hset : dict_set k x acc = acc ++ [(k, x)]).
  { apply dict_set_snoc. intros Hin. unfold dict_wf, dict_keys in Hw. rewrite map_app in Hw.
    apply list.NoDup_app in Hw as (_ & Hd & _). apply (Hd k); [by apply list_elem_of_In|]. simpl. left. }
  assert (Hf1 : forall s, parse_value fuel (u ^^ String "," s) = Some (x, String "," s)).
  { intros s. apply (pr_parse _ _ Hx); [done|lia]. }
  assert (Hf2 : forall s, parse_value fuel (u ^^ String "}" s) = Some (x, String "}" s)).
  { intros s. apply (pr_parse _ _ Hx); [done|lia]. }
  destruct Hl as [|kv t' fs ts Hy Hl].
  - change (commas [field_text k u]) with (field_text k u). unfold field_text.
    rewrite <- string_app_assoc, string_app_cons. destruct (parse_quote k (String ":" (u ^^ String "}" rest))) as (s' & -> & Hk).
    cbn [skip_ws]. change (is_ws "034") with false. cbv iota. rewrite Hk.
    change (negb (code "034" =? 34)) with false. change (skip_ws (String ":" (u ^^ String "}" rest)))
      with (String ":" (u ^^ String "}" rest)). cbv iota. change (negb (code ":" =? 58)) with false. cbv iota.
    rewrite Hf2, Hset. done.
  - rewrite commas_cons. unfold field_text.
    rewrite <- !string_app_assoc, !string_app_cons. set (more := commas (t' :: ts) ^^ String "}" rest).
    destruct (parse_quote k (String ":" (u ^^ String "," more))) as (s' & -> & Hk).
    cbn [skip_ws]. change (is_ws "034") with false. cbv iota. rewrite Hk.
    change (negb (code "034" =? 34)) with false. change (skip_ws (String ":" (u ^^ String "," more)))
      with (String ":" (u ^^ String "," more)). cbv iota. change (negb (code ":" =? 58)) with false. cbv iota.
    rewrite Hf1, Hset. change (skip_ws (String "," more)) with (String "," more). cbv iota.
    change (code "," =? 44) with true. cbv iota. unfold more.
    rewrite IH; [by rewrite <- app_assoc|done| |].
    + by rewrite <- app_assoc.
    + unfold sizes. simpl in *. lia.
Qed.

Lemma stringify_arr l ts :
  Forall2 prints l ts -> json_stringify (VArr l) = Some ("[" ^^ commas ts ^^ "]").
Proof.
  intros Hl. cbn [json_stringify]. do 2 f_equal. f_equal. unfold commas. f_equal.
  induction Hl as [|x t l ts Hx _ IH]; [done|]. rewrite (pr_text _ _ Hx). simpl. by rewrite IH.
Qed.

Lemma stringify_obj fs ts :
  Forall2 prints_field fs ts -> json_stringify (VObj fs) = Some ("{" ^^ commas ts ^^ "}").
Proof.
  intros Hl. cbn [json_stringify]. do 2 f_equal. f_equal. unfold commas. f_equal.
  induction Hl as [|[k x] t fs ts (u & Hx & ->) _ IH]; [done|]. simpl in Hx. rewrite (pr_text _ _ Hx).
  unfold field_text. simpl fst. by rewrite <- IH.
Qed.

Lemma prints_obj_size fs ts :
  Forall2 prints_field fs ts ->
  Forall2 (fun kv t => val_size kv.2 <= String.length t)%nat fs ts.
Proof.
  intros Hl. eapply Forall2_impl; [exact Hl|]. intros [k x] t (u & Hx & ->). unfold field_text. rewrite string_length_app. simpl in *.
  pose proof (pr_size _ _ Hx). lia.
Qed.

Lemma literal_prints v t :
  json_stringify v = Some t -> val_size v = 1%nat ->
  (exists c s, t = String c s /\ is_ws c = false /\ code c <> 93 /\ code c <> 125) ->
  (forall rest fuel, delimits rest -> parse_value (S fuel) (t ^^ rest) = Some (v, rest)) -> prints v t.
Proof.
  intros Ht Hs Hc Hp. constructor; [done|done| |].
  - rewrite Hs. destruct Hc as (c & s & -> & _). simpl. lia.
  - intros rest [|fuel] Hr Hf; [lia|]. by apply Hp.
Qed.

Lemma digit_first c : digit c <> None \/ code c = 45 ->
  is_ws c = false /\ code c <> 93 /\ code c <> 125 /\ code c <> 34 /\ code c <> 91 /\ code c <> 123 /\
  48 <= code c <= 57 \/ is_ws c = false /\ code c = 45.
Proof.
  intros [Hd|Hc]; [left|right].
  - destruct (digit c) eqn:E; [|done]. apply digit_code in E. unfold is_ws.
    rewrite !(proj2 (Z.eqb_neq _ _)) by lia. repeat split; lia.
  - unfold is_ws. rewrite Hc. done.
Qed.

Lemma startsWith_first c s a p : startsWith (String c s) (String a p) = true -> code c = code a.
Proof.
  unfold startsWith. simpl. destruct (Ascii.ascii_dec a c); [by subst|done].
Qed.

Lemma num_prints z : prints (VNum z) (pretty z).
Proof.
  destruct (pretty_Z_first z) as (c & s & E & Hc). apply digit_first in Hc.
  apply literal_prints; [done|done| |].
  - exists c, s. destruct Hc as [(Hw & H1 & H2 & _)|[Hw Hc]]; repeat split; try done; lia.
  - intros rest fuel Hr. pose proof (parse_number_pretty z rest Hr) as Hp. rewrite E in *.
    assert (Hw : is_ws c = false) by (by destruct Hc as [[]|[]]).
    cbn [parse_value]. rewrite skip_first by done. rewrite string_app_cons in *.
    rewrite !(proj2 (Z.eqb_neq _ _)) by (destruct Hc as [|[]]; lia). cbv iota.
    destruct (startsWith _ "null") eqn:E1; [apply startsWith_first in E1; change (code "n") with 110 in E1;
      destruct Hc as [|[]]; lia|].
    destruct (startsWith _ "true") eqn:E2; [apply startsWith_first in E2; change (code "t") with 116 in E2;
      destruct Hc as [|[]]; lia|].
    destruct (startsWith _ "false") eqn:E3; [apply startsWith_first in E3; change (code "f") with 102 in E3;
      destruct Hc as [|[]]; lia|].
    by rewrite Hp.
Qed.

Lemma str_prints s : prints (VStr s) (json_quote s).
Proof.
  apply literal_prints; [done|done| |].
  - eexists _, _. split; [reflexivity|]. done.
  - intros rest fuel _. destruct (parse_quote s rest) as (s' & E & Hp). rewrite E.
    cbn [parse_value skip_ws]. change (is_ws "034") with false. cbv iota.
    change (code "034" =? 34) with true. cbv iota. by rewrite Hp.
Qed.

Lemma arr_prints l ts : Forall2 prints l ts -> prints (VArr l) ("[" ^^ commas ts ^^ "]").
Proof.
  intros Hl. constructor.
  - by apply stringify_arr.
  - eexists _, _. split; [reflexivity|]. done.
  - rewrite val_size_arr. rewrite !string_length_app. simpl.
    assert (sizes val_size l <= S (String.length (commas ts)))%nat; [|lia].
    apply concat_size. eapply Forall2_impl; [exact Hl|]. by intros ? ? [].
  - intros rest fuel Hr Hf. rewrite val_size_arr in Hf. destruct fuel as [|fuel]; [lia|].
    rewrite <- !string_app_assoc. change ("]" ^^ rest) with (String "]" rest).
    change ("[" ^^ ?x) with (String "[" x). cbn [parse_value skip_ws].
    change (is_ws "[") with false. cbv iota. change (code "[" =? 34) with false.
    change (code "[" =? 91) with true. cbv iota.
    destruct Hl as [|x t l ts Hx Hl]; [done|].
    assert (Hfirst : exists c s, commas (t :: ts) ^^ String "]" rest = String c s /\ is_ws c = false /\ code c <> 93).
    { destruct (pr_first _ _ Hx) as (c & s & -> & Hw & Hc & _). destruct ts.
      - exists c, (s ^^ String "]" rest). done.
      - rewrite commas_cons. eexists c, _. rewrite string_app_cons. split; [reflexivity|done]. }
    destruct Hfirst as (c & s & E & Hw & Hc). rewrite E. cbn [skip_ws]. rewrite Hw. cbv iota.
    rewrite (proj2 (Z.eqb_neq _ _)) by done. rewrite <- E.
    rewrite (parse_items_printed (x :: l) (t :: ts)); [done|by constructor|done|lia].
Qed.

Lemma obj_prints fs ts :
  dict_wf fs -> Forall2 prints_field fs ts -> prints (VObj fs) ("{" ^^ commas ts ^^ "}").
Proof.
  intros Hw Hl. constructor.
  - by apply stringify_obj.
  - eexists _, _. split; [reflexivity|]. done.
  - rewrite val_size_obj. rewrite !string_length_app. simpl.
    assert (sizes (fun kv => val_size kv.2) fs <= S (String.length (commas ts)))%nat; [|lia].
    by apply concat_size, prints_obj_size.
  - intros rest fuel Hr Hf. rewrite val_size_obj in Hf. destruct fuel as [|fuel]; [lia|].
    rewrite <- !string_app_assoc. change ("}" ^^ rest) with (String "}" rest).
    change ("{" ^^ ?x) with (String "{" x). cbn [parse_value skip_ws].
    change (is_ws "{") with false. cbv iota. change (code "{" =? 34) with false.
    change (code "{" =? 91) with false. change (code "{" =? 123) with true. cbv iota.
    destruct Hl as [|[k x] t fs ts Hx Hl]; [done|].
    assert (Hfirst : exists s, commas (t :: ts) ^^ String "}" rest = String "034" s).
    { destruct Hx as (u & _ & ->). unfold field_text, json_quote. destruct ts.
      - eexists. change (commas [?t]) with t. rewrite !string_app_cons. reflexivity.
      - rewrite commas_cons. eexists. rewrite !string_app_cons. reflexivity. }
    destruct Hfirst as (s & E). rewrite E. cbn [skip_ws]. change (is_ws "034") with false. cbv iota.
    change (code "034" =? 125) with false. cbv iota. rewrite <- E.
    rewrite (parse_fields_printed ((k, x) :: fs) (t :: ts)); [done|by constructor|done|done|lia].
Qed.

Lemma val_prints v : json_val v -> exists t, prints v t.
Proof.
  induction v as [| |b|z|s|l IH|fs IH] using val_ind_nested; intros Hv.
  - done.
  - exists "null". apply literal_prints; [done|done|by (eexists _, _; split; [reflexivity|])|]. intros rest fuel _.
    change ("null" ^^ rest) with (String "n" (String "u" (String "l" (String "l" rest)))).
    cbn. by destruct rest.
  - exists (if b then "true" else "false"). destruct b; (apply literal_prints; [done|done|by (eexists _, _; split; [reflexivity|])|]);
      intros rest fuel _; rewrite !string_app_cons; change ("" ^^ rest) with rest; cbn; by destruct rest.
  - eexists. apply num_prints.
  - eexists. apply str_prints.
  - apply json_val_arr in Hv. assert (exists ts, Forall2 prints l ts) as [ts Hts].
    { induction IH as [|x l Hx _ IHl]; [by exists []|]. apply Forall_cons in Hv as [Hv1 Hv2].
      destruct (Hx Hv1) as [t Ht]. destruct (IHl Hv2) as [ts Hts]. exists (t :: ts). by constructor. }
    eexists. by apply arr_prints.
  - apply json_val_obj in Hv as [Hw Hv]. assert (exists ts, Forall2 prints_field fs ts) as [ts Hts].
    { clear Hw. induction IH as [|x l Hx _ IHl]; [by exists []|]. apply Forall_cons in Hv as [Hv1 Hv2].
      destruct (Hx Hv1) as [t Ht]. destruct (IHl Hv2) as [ts Hts]. exists (field_text x.1 t :: ts).
      constructor; [|done]. by exists t. }
    eexists. by apply obj_prints.
Qed.

(** [JSON.parse(JSON.stringify(v))] is [v]. *)
Lemma json_roundtrip v :
  json_val v -> exists t, json_stringify v = Some t /\ json_parse t = Ok v.
Proof.
  intros Hv. destruct (val_prints v Hv) as [t Ht]. exists t. split; [apply Ht|].
  unfold json_parse. pose proof (pr_parse _ _ Ht "" (S (String.length t)) I) as Hp.
  rewrite string_app_nil_r in Hp. rewrite Hp; [done|]. pose proof (pr_size _ _ Ht). lia.
Qed.
