(* ===== verification/RpcFrames.v ===== *)
(** The framed streams of the rpc package (packages/rpc/src/protocol/streamCodec.ts):
    the frame codec of one stream, the codec of many streams on one channel, the
    receiving multiplexer, and the decoding of a framed response. A callback that
    throws or rejects is a [Throw]; the streams handed out are recorded as the
    chunks enqueued on them and how they ended. *)
From stdpp Require Import gmap.
From S2P Require Import Prelude Dict JsValue JsText JsBytes JsJson.
#[local] Open Scope Z_scope.

Definition FRAME_HEAD : Z := 1.
Definition FRAME_DATA : Z := 2.
Definition FRAME_END : Z := 3.
Definition FRAME_ERROR : Z := 4.

(** A frame as its type and payload. *)
Definition Frame : Type := Z * bytes.

(** [len >>> 24 & 0xff] and so on, most significant byte first. *)
Definition be32 (n : Z) : bytes :=
  [u8 (and32 (ushr n 24) 255); u8 (and32 (ushr n 16) 255); u8 (and32 (ushr n 8) 255);
   u8 (and32 n 255)].

Definition encodeFrame (type : Z) (payload : bytes) : bytes :=
  u8 type :: be32 (byteLength payload) ++ payload.

(** [buf[i] << 24 | buf[i+1] << 16 | buf[i+2] << 8 | buf[i+3]], a signed integer. *)
Definition read_be32 (buf : bytes) (i : nat) : Z :=
  or32 (or32 (or32 (shl (byte_at buf i) 24) (shl (byte_at buf (i + 1)) 16))
          (shl (byte_at buf (i + 2)) 8)) (byte_at buf (i + 3)).

(** * Incremental decoding *)

Section Drain.
Context {F St : Type}.
(** The next frame of the buffer and what follows it, if it is complete. *)
Context (next : bytes -> option (F * bytes)).
Context (onFrame : St -> F -> res St).

(** The buffer, the callback's state, and the error it stopped on. *)
Record Drained := mkDrained {
  dr_buf : bytes;
  dr_state : St;
  dr_error : option string
}.

(** [drain]: [None] when the loop is still running after [fuel] rounds. *)
Fixpoint drain (fuel : nat) (buf : bytes) (s : St) : option Drained :=
  match fuel with
  | O => None
  | S fuel' =>
      match next buf with
      | None => Some (mkDrained buf s None)
      | Some (frame, rest) =>
          match onFrame s frame with
          | Ok s' => drain fuel' rest s'
          | Throw e => Some (mkDrained rest s (Some e))
          end
      end
  end.

Definition push (fuel : nat) (buf : bytes) (s : St) (chunk : bytes) : option Drained :=
  if byteLength chunk =? 0 then Some (mkDrained buf s None) else drain fuel (buf ++ chunk) s.

(** The chunks of a channel, pushed one after the other. *)
Fixpoint pushAll (fuel : nat) (buf : bytes) (s : St) (chunks : list bytes) : option Drained :=
  match chunks with
  | [] => Some (mkDrained buf s None)
  | chunk :: rest =>
      match push fuel buf s chunk with
      | None => None
      | Some d =>
          match d.(dr_error) with
          | Some _ => Some d
          | None => pushAll fuel d.(dr_buf) d.(dr_state) rest
          end
      end
  end.
End Drain.
Arguments Drained : clear implicits.
Arguments mkDrained {St} _ _ _.

Definition finished (buf : bytes) : bool := byteLength buf =? 0.

(** The loop body of [FrameDecoder.drain]. *)
Definition next_frame (buf : bytes) : option (Frame * bytes) :=
  if byteLength buf <? 5 then None
  else
    let type := byte_at buf 0 in
    let len := read_be32 buf 1 in
    let total := 5 + len in
    if byteLength buf <? total then None
    else Some ((type, js_slice buf 5 (Some total)), js_slice buf total None).

(** * Many streams on one channel *)

Definition encodeStreamFrameV2 (streamId type : Z) (payload : bytes) : bytes :=
  let inner := encodeFrame type payload in
  be32 streamId ++ inner.

Definition StreamFrame : Type := Z * Frame.

(** The loop body of [StreamFrameDecoderV2.drain]. *)
Definition next_stream_frame (buf : bytes) : option (StreamFrame * bytes) :=
  if byteLength buf <? 9 then None
  else
    let streamId := read_be32 buf 0 in
    let type := byte_at buf 4 in
    let len := uint32 (read_be32 buf 5) in
    let total := 9 + len in
    if byteLength buf <? total then None
    else Some ((uint32 streamId, (type, js_slice buf 9 (Some total))), js_slice buf total None).

(** * The receiving multiplexer *)

Inductive StreamEnd := StreamOpen | StreamClosed | StreamErrored (error : string).

(** A readable stream: the chunks enqueued and how it ended. *)
Record Body := mkBody {
  bd_chunks : list bytes;
  bd_end : StreamEnd
}.

Definition CLOSED_MAX : nat := 1024.

Record InboundStreamMux := mkMux {
  mx_controllers : list Z;
  mx_closed : list Z;
  mx_bodies : gmap Z Body
}.

Definition createInboundStreamMux : InboundStreamMux :=
  {| mx_controllers := []; mx_closed := []; mx_bodies := ∅ |}.

Definition has_id (id : Z) (ids : list Z) : bool := existsb (Z.eqb id) ids.
Definition del_id (id : Z) (ids : list Z) : list Z := List.filter (fun i => negb (i =? id)) ids.

Definition markClosed (id : Z) (closed : list Z) : list Z :=
  let closed := if has_id id closed then closed else closed ++ [id] in
  if (CLOSED_MAX <? length closed)%nat then drop 1 closed else closed.

Definition end_body (e : StreamEnd) (body : Body) : Body := mkBody body.(bd_chunks) e.

(** [close] and [fail]. *)
Definition mux_finish (e : StreamEnd) (mux : InboundStreamMux) (streamId : Z) : InboundStreamMux :=
  if negb (has_id streamId mux.(mx_controllers)) then mux
  else
    {| mx_controllers := del_id streamId mux.(mx_controllers);
       mx_closed := markClosed streamId mux.(mx_closed);
       mx_bodies := alter (end_body e) streamId mux.(mx_bodies) |}.

Definition mux_close := mux_finish StreamClosed.
Definition mux_fail (error : string) := mux_finish (StreamErrored error).

Definition mux_acquire (mux : InboundStreamMux) (streamId : Z) : res InboundStreamMux :=
  if has_id streamId mux.(mx_controllers) || has_id streamId mux.(mx_closed)
  then Throw ("Stream id " ^^ pretty streamId ^^ " already in use")
  else
    Ok {| mx_controllers := mux.(mx_controllers) ++ [streamId];
          mx_closed := mux.(mx_closed);
          mx_bodies := <[streamId := mkBody [] StreamOpen]> mux.(mx_bodies) |}.

(** The consumer cancels the stream. *)
Definition mux_cancel (mux : InboundStreamMux) (streamId : Z) : InboundStreamMux :=
  {| mx_controllers := del_id streamId mux.(mx_controllers);
     mx_closed := markClosed streamId mux.(mx_closed);
     mx_bodies := alter (end_body StreamClosed) streamId mux.(mx_bodies) |}.

Definition enqueue (chunk : bytes) (body : Body) : Body :=
  mkBody (body.(bd_chunks) ++ [chunk]) body.(bd_end).

Definition mux_push (mux : InboundStreamMux) (frame : StreamFrame) : InboundStreamMux :=
  let '(streamId, (type, payload)) := frame in
  if negb (has_id streamId mux.(mx_controllers)) then mux
  else
    let mux :=
      {| mx_controllers := mux.(mx_controllers);
         mx_closed := mux.(mx_closed);
         mx_bodies := alter (enqueue (encodeFrame type payload)) streamId mux.(mx_bodies) |} in
    if type =? FRAME_END then mux_close mux streamId
    else if type =? FRAME_ERROR then mux_close mux streamId
    else mux.

Definition mux_closeAll (error : string) (mux : InboundStreamMux) : InboundStreamMux :=
  fold_left (mux_fail error) mux.(mx_controllers) mux.

Definition mux_size (mux : InboundStreamMux) : nat := length mux.(mx_controllers).

(** * The payloads *)

(** [textEncoder.encode(JSON.stringify(payload))]; the payload is an object. *)
Definition json_bytes (payload : val) : bytes := textEncode (default "" (json_stringify payload)).

Definition encodeHeadFrame (payload : val) : bytes := encodeFrame FRAME_HEAD (json_bytes payload).
Definition encodeDataFrame (data : bytes) : bytes := encodeFrame FRAME_DATA data.
Definition encodeEndFrame (payload : val) : bytes := encodeFrame FRAME_END (json_bytes payload).
Definition encodeErrorFrame (payload : val) : bytes := encodeFrame FRAME_ERROR (json_bytes payload).

Definition encodeStreamHeadFrameV2 (streamId : Z) (payload : val) : bytes :=
  encodeStreamFrameV2 streamId FRAME_HEAD (json_bytes payload).
Definition encodeStreamDataFrameV2 (streamId : Z) (data : bytes) : bytes :=
  encodeStreamFrameV2 streamId FRAME_DATA data.
Definition encodeStreamEndFrameV2 (streamId : Z) (payload : val) : bytes :=
  encodeStreamFrameV2 streamId FRAME_END (json_bytes payload).
Definition encodeStreamErrorFrameV2 (streamId : Z) (payload : val) : bytes :=
  encodeStreamFrameV2 streamId FRAME_ERROR (json_bytes payload).

Definition parseHeadFrame (payload : bytes) : res val := json_parse (textDecode payload).
Definition parseEndFrame (payload : bytes) : res val :=
  if byteLength payload =? 0 then Ok (VObj [("bytesIn", VNum 0)]) else json_parse (textDecode payload).
Definition parseErrorFrame (payload : bytes) : res val := json_parse (textDecode payload).

(** * Decoding a framed response *)

(** The promise of the head; the first settlement wins. *)
Inductive Head := HeadPending | HeadResolved (head : option val) | HeadRejected (error : string).

Record FramedStream := mkFramedStream {
  fs_head : Head;
  fs_headSeen : bool;
  fs_bodyClosed : bool;
  fs_body : Body;
  fs_errorCode : val
}.

Definition framedStart : FramedStream :=
  {| fs_head := HeadPending; fs_headSeen := false; fs_bodyClosed := false;
     fs_body := mkBody [] StreamOpen; fs_errorCode := VUndef |}.

Definition settleHead (h : Head) (s : FramedStream) : FramedStream :=
  match s.(fs_head) with
  | HeadPending => mkFramedStream h s.(fs_headSeen) s.(fs_bodyClosed) s.(fs_body) s.(fs_errorCode)
  | _ => s
  end.

Definition seeHead (s : FramedStream) : FramedStream :=
  mkFramedStream s.(fs_head) true s.(fs_bodyClosed) s.(fs_body) s.(fs_errorCode).

Definition closeBody (s : FramedStream) : FramedStream :=
  if s.(fs_bodyClosed) then s
  else mkFramedStream s.(fs_head) s.(fs_headSeen) true (end_body StreamClosed s.(fs_body)) s.(fs_errorCode).

(** [errorBody]; an error's [code] is kept beside its message. *)
Definition errorBody (error : string) (code : val) (s : FramedStream) : FramedStream :=
  if s.(fs_bodyClosed) then s
  else mkFramedStream s.(fs_head) s.(fs_headSeen) true (end_body (StreamErrored error) s.(fs_body)) code.

(** [bodyController.enqueue] throws on a stream that has ended. *)
Definition enqueueBody (chunk : bytes) (s : FramedStream) : res FramedStream :=
  match s.(fs_body).(bd_end) with
  | StreamOpen =>
      Ok (mkFramedStream s.(fs_head) s.(fs_headSeen) s.(fs_bodyClosed) (enqueue chunk s.(fs_body))
            s.(fs_errorCode))
  | _ => Throw "Invalid state: Controller is already closed"
  end.

Definition bad_gateway : val := VObj [("status", VNum 502); ("message", VStr "Streaming RPC error")].

(** The message of [new Error(parsed.message)]. *)
Definition error_message (message : val) : string :=
  match message with VUndef => "" | m => to_str m end.

(** The callback of the decoder. *)
Definition onFramed (s : FramedStream) (frame : Frame) : res FramedStream :=
  let '(type, payload) := frame in
  if type =? FRAME_HEAD then
    let s := seeHead s in
    match parseHeadFrame payload with
    | Ok head => Ok (settleHead (HeadResolved (Some head)) s)
    | Throw e => Ok (settleHead (HeadRejected e) s)
    end
  else if type =? FRAME_DATA then enqueueBody payload s
  else if type =? FRAME_END then Ok (closeBody s)
  else if type =? FRAME_ERROR then
    let parsed := match parseErrorFrame payload with Ok p => p | Throw _ => bad_gateway end in
    match parsed with
    | VNull => Throw "TypeError"
    | _ =>
        let message := error_message parsed.!"message" in
        if s.(fs_headSeen) then Ok (errorBody message parsed.!"code" s)
        else Ok (settleHead (HeadRejected message) s)
    end
  else Ok s.

(** What the read loop meets: a chunk, the caller's abort, a failed read, the end. *)
Inductive ReadEvent := ReadChunk (value : bytes) | ReadAborted | ReadFailed (error : string) | ReadDone.

Definition readFailed (error : string) (s : FramedStream) : FramedStream :=
  if negb s.(fs_headSeen) then settleHead (HeadRejected error) s else errorBody error VUndef s.

(** The read loop. [None]: a decoder loop still runs after [fuel] rounds, or no
    event ends the loop. *)
Fixpoint readLoop (fuel : nat) (buf : bytes) (s : FramedStream) (events : list ReadEvent)
    : option FramedStream :=
  match events with
  | [] => None
  | ReadAborted :: _ => Some (readFailed "Streaming RPC aborted by caller" s)
  | ReadFailed e :: _ => Some (readFailed e s)
  | ReadDone :: _ =>
      let s := if negb s.(fs_headSeen) then settleHead (HeadResolved None) s else s in
      Some (closeBody s)
  | ReadChunk value :: rest =>
      match push next_frame onFramed fuel buf s value with
      | None => None
      | Some d =>
          match d.(dr_error) with
          | Some e => Some (readFailed e d.(dr_state))
          | None => readLoop fuel d.(dr_buf) d.(dr_state) rest
          end
      end
  end.

Record DecodedFramedStream := mkDecoded {
  df_status : val;
  df_statusText : val;
  df_headers : val;
  df_finalUrl : val;
  df_body : Body
}.

(** The value the head promise gives the caller once the read loop has settled it. *)
Definition decodeFramedStream (s : FramedStream) (requestedUrl : string) : res DecodedFramedStream :=
  match s.(fs_head) with
  | HeadPending => Throw "pending"
  | HeadRejected e => Throw e
  | HeadResolved head =>
      let head := default VUndef head in
      Ok {| df_status := head.!"status" ?? VNum 502;
            df_statusText := head.!"statusText" ?? VStr "Bad Gateway";
            df_headers := head.!"headerPairs" ?? VArr [];
            df_finalUrl := (if truthy head.!"finalUrl" then head.!"finalUrl" else VStr requestedUrl);
            df_body := s.(fs_body) |}
  end.
