(* ===== verification/RpcFramesLaws.v ===== *)
(** Laws of the framed streams: integers on the wire, slices, what a frame codec
    promises and what the decoding loop does with any codec that keeps it, the
    multiplexer, and the decoding of what it hands out. *)
From stdpp Require Import gmap.
From S2P Require Import Prelude Dict JsValue JsText JsBytes JsJson JsJsonLaws RpcFrames.
#[local] Open Scope Z_scope.

(** * Integers on the wire *)

Lemma lor_disjoint k a b : 0 <= k -> (2 ^ k | a) -> 0 <= b < 2 ^ k -> Z.lor a b = a + b.
Proof.
  intros Hk [q ->] Hb. assert (H0 : Z.land (q * 2 ^ k) b = 0).
  { rewrite <- Z.shiftl_mul_pow2 by done. apply Z.bits_inj'. intros n Hn.
    rewrite Z.land_spec, Z.bits_0, Z.shiftl_spec by done.
    destruct (Z.lt_ge_cases n k); [by rewrite Z.testbit_neg_r by lia|].
    destruct (Z.eq_dec b 0) as [->|]; [by rewrite Z.bits_0, andb_false_r|].
    rewrite (Z.bits_above_log2 b), andb_false_r; [done|lia|]. apply Z.log2_lt_pow2; [lia|].
    eapply Z.lt_le_trans; [apply Hb|apply Z.pow_le_mono_r; lia]. }
  by rewrite Z.add_nocarry_lxor, Z.lxor_lor.
Qed.

Lemma and32_255 z : and32 z 255 = z mod 256.
Proof.
  unfold and32. change (int32 255) with (Z.ones 8). rewrite Z.land_ones by done.
  unfold int32. change (2 ^ 8) with 256. Z.to_euclidean_division_equations; lia.
Qed.

Lemma ushr_div z n : 0 <= n -> ushr z n = z mod 2 ^ 32 / 2 ^ n.
Proof. intros H. unfold ushr. by rewrite Z.shiftr_div_pow2. Qed.

Lemma length_be32 n : length (be32 n) = 4%nat.
Proof. done. Qed.

Lemma uint32_shl_byte b n :
  0 <= b < 256 -> (n = 8 \/ n = 16 \/ n = 24) -> uint32 (shl b n) = b * 2 ^ n.
Proof.
  intros Hb Hn. rewrite uint32_shl; rewrite ?Z.shiftl_mul_pow2; destruct Hn as [-> | [-> | ->]];
    first [reflexivity | lia | (change (2 ^ 8) with 256; lia) | idtac].
  all: cbn; lia.
Qed.

Lemma read_be32_be32 n l : uint32 (read_be32 (be32 n ++ l) 0) = uint32 n.
Proof.
  unfold read_be32, be32. cbn [app byte_at nth_error Nat.add].
  rewrite !byte_Z_u8, !and32_255, !ushr_div by lia. rewrite !uint32_or32.
  pose proof (Z.mod_pos_bound n (2 ^ 32) eq_refl). change (2 ^ 32) with 4294967296 in *.
  set (m := n mod 4294967296) in *.
  change (2 ^ 24) with 16777216. change (2 ^ 16) with 65536. change (2 ^ 8) with 256.
  assert (H0 : n mod 256 mod 256 = m mod 256).
  { unfold m. Z.to_euclidean_division_equations; lia. }
  rewrite H0, !Z.mod_mod by lia.
  set (b0 := m / 16777216 mod 256). set (b1 := m / 65536 mod 256). set (b2 := m / 256 mod 256).
  set (b3 := m mod 256).
  assert (0 <= b0 < 256 /\ 0 <= b1 < 256 /\ 0 <= b2 < 256 /\ 0 <= b3 < 256) as (B0 & B1 & B2 & B3)
    by (repeat split; apply Z.mod_pos_bound; lia).
  rewrite !uint32_shl_byte by tauto. rewrite (uint32_small b3) by lia.
  change (2 ^ 24) with 16777216. change (2 ^ 16) with 65536. change (2 ^ 8) with 256.
  rewrite (lor_disjoint 24 (b0 * 16777216)) by (try lia; exists b0; lia).
  rewrite (lor_disjoint 16 (b0 * 16777216 + b1 * 65536)) by (try lia; exists (b0 * 256 + b1); lia).
  rewrite (lor_disjoint 8) by (try lia; exists (b0 * 65536 + b1 * 256 + b2); lia).
  unfold uint32. change (2 ^ 32) with 4294967296. fold m. unfold b0, b1, b2, b3.
  Z.to_euclidean_division_equations; lia.
Qed.

Lemma read_be32_int32 n l : - 2 ^ 31 <= n < 2 ^ 31 -> read_be32 (be32 n ++ l) 0 = n.
Proof.
  intros Hn. rewrite <- (int32_small n) at 2 by done. rewrite <- int32_uint32, <- (read_be32_be32 n l), int32_uint32.
  symmetry. apply int32_or32.
Qed.

Lemma byte_at_app l1 l2 i : byte_at (l1 ++ l2) (length l1 + i) = byte_at l2 i.
Proof.
  unfold byte_at. rewrite nth_error_app2 by lia. by replace (length l1 + i - length l1)%nat with i by lia.
Qed.

Lemma byte_at_prefix l1 l2 i : (i < length l1)%nat -> byte_at (l1 ++ l2) i = byte_at l1 i.
Proof. intros H. unfold byte_at. by rewrite nth_error_app1. Qed.

Lemma read_be32_app l1 l2 i : read_be32 (l1 ++ l2) (length l1 + i) = read_be32 l2 i.
Proof. unfold read_be32. by rewrite <- !Nat.add_assoc, !byte_at_app. Qed.

Lemma read_be32_prefix l1 l2 i : (i + 3 < length l1)%nat -> read_be32 (l1 ++ l2) i = read_be32 l1 i.
Proof. intros H. unfold read_be32. by rewrite !byte_at_prefix by lia. Qed.

(** * Slices *)

Lemma slice_middle {A} (l1 l2 l3 : list A) a b :
  a = Z.of_nat (length l1) -> b = Z.of_nat (length l1 + length l2) -> js_slice (l1 ++ l2 ++ l3) a (Some b) = l2.
Proof.
  intros -> ->. unfold js_slice, slice_pos. rewrite !length_app.
  rewrite !(proj2 (Z.ltb_ge _ _)), !Z.min_l by lia.
  replace (Z.to_nat (Z.of_nat (length l1 + length l2) - Z.of_nat (length l1))) with (length l2) by lia.
  rewrite Nat2Z.id, drop_app_length, take_app_length. done.
Qed.

Lemma slice_rest {A} (l1 l2 : list A) a : a = Z.of_nat (length l1) -> js_slice (l1 ++ l2) a None = l2.
Proof.
  intros ->. unfold js_slice, slice_pos. rewrite length_app, (proj2 (Z.ltb_ge _ _)), Z.min_l by lia.
  rewrite Nat2Z.id, drop_app_length, take_ge; [done|lia].
Qed.

(** * One codec, any chunks *)

Section Codec.
Context {F : Type} (next : bytes -> option (F * bytes)) (enc : F -> bytes) (ok : F -> Prop).

(** What the loop body promises of an encoding: it takes the first frame off, and
    waits on a part of one. *)
Class FrameCodec : Prop := {
  codec_nil : next [] = None;
  codec_next f rest : ok f -> next (enc f ++ rest) = Some (f, rest);
  codec_partial f p q : ok f -> p ++ q = enc f -> q <> [] -> next p = None;
  codec_nonempty f : enc f <> []
}.

Definition wire (fs : list F) : bytes := concat (map enc fs).

Context {St : Type} (onFrame : St -> F -> res St).

(** The callback on a list of frames, up to its first error. *)
Fixpoint feed (fs : list F) (s : St) : St * option string :=
  match fs with
  | [] => (s, None)
  | f :: fs' => match onFrame s f with Ok s' => feed fs' s' | Throw e => (s, Some e) end
  end.

Lemma feed_app fs1 fs2 s :
  feed (fs1 ++ fs2) s =
  match feed fs1 s with (s', None) => feed fs2 s' | (s', Some e) => (s', Some e) end.
Proof. revert s; induction fs1 as [|f fs1 IH]; intros s; simpl; [done|]. by destruct (onFrame s f). Qed.

Context `{!FrameCodec}.

(** The loop consumes the complete frames and keeps the part of the next. *)
Lemma drain_frames fs buf future fuel s :
  Forall ok fs -> buf ++ future = wire fs -> (length buf < fuel)%nat ->
  exists took rest d, fs = took ++ rest /\ drain next onFrame fuel buf s = Some d /\
    (dr_state d, dr_error d) = feed took s /\
    (dr_error d = None ->
       dr_buf d ++ future = wire rest /\ next (dr_buf d) = None /\ (length (dr_buf d) <= length buf)%nat).
Proof.
  intros Hok. revert buf fuel s; induction Hok as [|f fs Hf Hok IH]; intros buf fuel s Hw Hlt;
    (destruct fuel as [|fuel]; [lia|]); cbn [drain].
  - destruct buf; [|done]. exists [], [], (mkDrained [] s None). rewrite codec_nil.
    repeat split; try done. apply codec_nil.
  - unfold wire in Hw. cbn [map concat] in Hw. fold (wire fs) in Hw.
    destruct (app_eq_app _ _ _ _ Hw) as (l & [[-> Hl]|[He Hl]]).
    + rewrite codec_next by done. destruct (onFrame s f) as [s'|e] eqn:Eh.
      * pose proof (codec_nonempty f) as Hne. rewrite length_app in Hlt.
        assert (length (enc f) <> 0)%nat by (by destruct (enc f)).
        destruct (IH l fuel s') as (took & rest & d & -> & Hd & Hs & Hn); [done|lia|].
        exists (f :: took), rest, d. cbn [feed app]. rewrite Eh. split_and!; try done.
        intros He. destruct (Hn He) as (? & ? & ?). repeat split; try done. rewrite length_app. lia.
      * exists [f], fs, (mkDrained l s (Some e)). cbn [feed app dr_state dr_error]. rewrite Eh. done.
    + destruct l as [|x l].
      * rewrite app_nil_r in He. simpl in Hl. subst future.
        pose proof (codec_next f [] Hf) as Hn. rewrite app_nil_r, He in Hn. rewrite Hn.
        destruct (onFrame s f) as [s'|e] eqn:Eh.
        -- pose proof (codec_nonempty f) as Hne.
           assert (length (enc f) <> 0)%nat by (by destruct (enc f)).
           destruct (IH [] fuel s') as (took & rest & d & -> & Hd & Hs & Hr); [done|rewrite <- He in Hlt; simpl; lia|].
           exists (f :: took), rest, d. cbn [feed app]. rewrite Eh. split_and!; try done.
           intros Hz. destruct (Hr Hz) as (? & ? & ?). repeat split; try done. simpl in *. lia.
        -- exists [f], fs, (mkDrained [] s (Some e)). cbn [feed app dr_state dr_error]. rewrite Eh. done.
      * rewrite (codec_partial f buf (x :: l)) by done.
        exists [], (f :: fs), (mkDrained buf s None).
        split_and!; [done..|]. intros _. split_and!; [exact Hw| |done]. by apply (codec_partial f buf (x :: l)).
Qed.

(** Pushing the chunks of a channel runs the callback on its frames. *)
Lemma pushAll_frames fs chunks buf fuel s :
  Forall ok fs -> buf ++ concat chunks = wire fs -> next buf = None ->
  (length (buf ++ concat chunks) < fuel)%nat ->
  exists d, pushAll next onFrame fuel buf s chunks = Some d /\ (dr_state d, dr_error d) = feed fs s /\
    (dr_error d = None -> dr_buf d = []).
Proof.
  revert fs buf s; induction chunks as [|c chunks IH]; intros fs buf s Hok Hw Hn Hf; cbn [pushAll concat] in *.
  - rewrite app_nil_r in Hw. destruct fs as [|f fs].
    + by exists (mkDrained buf s None).
    + exfalso. subst buf. unfold wire in Hn. simpl in Hn. apply Forall_inv in Hok. by rewrite codec_next in Hn.
  - unfold push. destruct (Z.eqb_spec (byteLength c) 0) as [Hc|Hc].
    + destruct c; [|unfold byteLength in Hc; simpl in Hc; lia]. by apply IH.
    + rewrite app_assoc in Hw, Hf.
      destruct (drain_frames fs (buf ++ c) (concat chunks) fuel s) as (took & rest & d & -> & Hd & Hs & Hr);
        [done|done|rewrite length_app in Hf; lia|].
      rewrite Hd. rewrite feed_app, <- Hs. apply Forall_app in Hok as [_ Hok].
      destruct (dr_error d) as [e|] eqn:Ee.
      * exists d. rewrite Ee. split_and!; done.
      * destruct (Hr eq_refl) as (Hw' & Hn' & Hl). apply (IH rest); try done.
        rewrite !length_app in *. lia.
Qed.
End Codec.
Arguments FrameCodec {F} next enc ok.
Arguments wire {F} enc fs.
Arguments feed {F St} onFrame fs s.

(** * The two codecs *)

Definition frame_ok (f : Frame) : Prop := 0 <= f.1 < 256 /\ byteLength f.2 < 2 ^ 31.

Definition enc_frame (f : Frame) : bytes := encodeFrame f.1 f.2.

Definition stream_frame_ok (f : StreamFrame) : Prop :=
  0 <= f.1 < 2 ^ 32 /\ 0 <= f.2.1 < 256 /\ byteLength f.2.2 < 2 ^ 32.

Definition enc_stream_frame (f : StreamFrame) : bytes := encodeStreamFrameV2 f.1 f.2.1 f.2.2.

Lemma frame_layout type payload l :
  encodeFrame type payload ++ l = (u8 type :: be32 (byteLength payload)) ++ payload ++ l.
Proof. unfold encodeFrame. cbn [app]. by rewrite <- app_assoc. Qed.

Lemma byte_at_u8 z l : 0 <= z < 256 -> byte_at (u8 z :: l) 0 = z.
Proof. intros Hz. unfold byte_at. simpl. rewrite byte_Z_u8. by apply Z.mod_small. Qed.

Definition header (type : Z) (payload : bytes) : bytes := u8 type :: be32 (byteLength payload).

Lemma byteLength_app l1 l2 : byteLength (l1 ++ l2) = byteLength l1 + byteLength l2.
Proof. unfold byteLength. rewrite length_app. lia. Qed.

Lemma byteLength_nonneg l : 0 <= byteLength l.
Proof. unfold byteLength. lia. Qed.

Lemma header_length type payload : byteLength (header type payload) = 5.
Proof. done. Qed.

Lemma header_type type payload l : 0 <= type < 256 -> byte_at (header type payload ++ l) 0 = type.
Proof. apply byte_at_u8. Qed.

Lemma header_len type payload l :
  uint32 (read_be32 (header type payload ++ l) 1) = uint32 (byteLength payload).
Proof.
  change (header type payload ++ l) with ([u8 type] ++ be32 (byteLength payload) ++ l).
  rewrite (read_be32_app [u8 type] _ 0 : read_be32 ([u8 type] ++ _) 1 = _). apply read_be32_be32.
Qed.

Lemma header_len_signed type payload l :
  byteLength payload < 2 ^ 31 -> read_be32 (header type payload ++ l) 1 = byteLength payload.
Proof.
  intros Hl. pose proof (byteLength_nonneg payload).
  change (header type payload ++ l) with ([u8 type] ++ be32 (byteLength payload) ++ l).
  rewrite (read_be32_app [u8 type] _ 0 : read_be32 ([u8 type] ++ _) 1 = _). apply read_be32_int32. lia.
Qed.

(** The reads of a frame's header see the same bytes in a part of the frame. *)
Lemma header_prefix p q i l : p ++ q = l -> (i + 3 < length p)%nat -> read_be32 p i = read_be32 l i.
Proof. intros <- Hi. by rewrite read_be32_prefix. Qed.

Lemma slice_payload (h payload l : bytes) n :
  byteLength h = n -> js_slice (h ++ payload ++ l) n (Some (n + byteLength payload)) = payload.
Proof. intros <-. apply slice_middle; unfold byteLength; lia. Qed.

Lemma slice_after (h payload l : bytes) n :
  byteLength h = n -> js_slice (h ++ payload ++ l) (n + byteLength payload) None = l.
Proof. intros <-. rewrite app_assoc. apply slice_rest. rewrite length_app. unfold byteLength. lia. Qed.

Lemma shorter_part (p q l : bytes) : p ++ q = l -> q <> [] -> byteLength p < byteLength l.
Proof. intros <- Hq. rewrite byteLength_app. destruct q; [done|]. unfold byteLength. simpl. lia. Qed.

#[export] Instance frame_codec : FrameCodec next_frame enc_frame frame_ok.
Proof.
  split.
  - done.
  - intros [type payload] l [Ht Hl]. cbn [fst snd] in *. unfold enc_frame, next_frame. cbn [fst snd].
    rewrite frame_layout. fold (header type payload). rewrite !byteLength_app, header_length.
    pose proof (byteLength_nonneg payload). pose proof (byteLength_nonneg l).
    rewrite (proj2 (Z.ltb_ge _ 5)), header_type, header_len_signed by lia.
    rewrite (proj2 (Z.ltb_ge _ _)) by lia. by rewrite slice_payload, slice_after.
  - intros [type payload] p q [Ht Hl] Hpq Hq. cbn [fst snd] in *. unfold next_frame.
    destruct (Z.ltb_spec (byteLength p) 5) as [|Hp]; [done|].
    pose proof (shorter_part _ _ _ Hpq Hq) as Hlt.
    unfold enc_frame in *. cbn [fst snd] in *. rewrite <- (app_nil_r (encodeFrame _ _)), frame_layout in Hpq, Hlt.
    fold (header type payload) in *. rewrite app_nil_r in *.
    rewrite (header_prefix _ _ 1 _ Hpq), header_len_signed by (done || (unfold byteLength in Hp; lia)).
    rewrite byteLength_app, header_length in Hlt. by rewrite (proj2 (Z.ltb_lt _ _)).
  - done.
Qed.

Lemma stream_layout id type payload l :
  encodeStreamFrameV2 id type payload ++ l = (be32 id ++ header type payload) ++ payload ++ l.
Proof. unfold encodeStreamFrameV2. by rewrite <- !app_assoc, frame_layout. Qed.

#[export] Instance stream_frame_codec : FrameCodec next_stream_frame enc_stream_frame stream_frame_ok.
Proof.
  assert (Hlen : forall id type payload, byteLength (be32 id ++ header type payload) = 9) by done.
  assert (Htype : forall id type payload l, 0 <= type < 256 ->
    byte_at ((be32 id ++ header type payload) ++ l) 4 = type).
  { intros id type payload l Ht. rewrite <- app_assoc.
    rewrite (byte_at_app (be32 id) _ 0 : byte_at (be32 id ++ _) 4 = _). by apply header_type. }
  assert (Hread : forall id type payload l,
    uint32 (read_be32 ((be32 id ++ header type payload) ++ l) 5) = uint32 (byteLength payload)).
  { intros id type payload l. rewrite <- app_assoc.
    rewrite (read_be32_app (be32 id) _ 1 : read_be32 (be32 id ++ _) 5 = _). apply header_len. }
  split.
  - done.
  - intros [id [type payload]] l (Hi & Ht & Hl). cbn [fst snd] in *. unfold enc_stream_frame, next_stream_frame.
    cbn [fst snd]. rewrite stream_layout, !byteLength_app.
    pose proof (byteLength_nonneg payload). pose proof (byteLength_nonneg l).
    rewrite <- byteLength_app, Hlen, Htype, Hread, (uint32_small (byteLength payload)) by lia.
    rewrite (proj2 (Z.ltb_ge _ 9)), (proj2 (Z.ltb_ge _ _)) by lia.
    rewrite slice_payload, slice_after by done. rewrite <- app_assoc, read_be32_be32, uint32_small by lia. done.
  - intros [id [type payload]] p q (Hi & Ht & Hl) Hpq Hq. cbn [fst snd] in *. unfold next_stream_frame.
    destruct (Z.ltb_spec (byteLength p) 9) as [|Hp]; [done|].
    pose proof (shorter_part _ _ _ Hpq Hq) as Hlt.
    unfold enc_stream_frame in *. cbn [fst snd] in *.
    rewrite <- (app_nil_r (encodeStreamFrameV2 _ _ _)), stream_layout in Hpq, Hlt.
    pose proof (byteLength_nonneg payload).
    rewrite (header_prefix _ _ 5 _ Hpq), Hread, uint32_small by (lia || (unfold byteLength in Hp; lia)).
    rewrite byteLength_app, Hlen, app_nil_r in Hlt. by rewrite (proj2 (Z.ltb_lt _ _)).
  - done.
Qed.

(** * The multiplexer *)

(** The frames of one stream. *)
Definition own (sid : Z) (fs : list StreamFrame) : list Frame :=
  map snd (List.filter (fun f => f.1 =? sid) fs).

Definition is_ending (f : Frame) : bool := (f.1 =? FRAME_END) || (f.1 =? FRAME_ERROR).

(** The frames that reach a stream's body: up to its end. *)
Fixpoint until_end (fs : list Frame) : list Frame :=
  match fs with
  | [] => []
  | f :: fs' => f :: if is_ending f then [] else until_end fs'
  end.

Lemma has_id_del id i ids : i <> id -> has_id i (del_id id ids) = has_id i ids.
Proof.
  intros Hne. unfold has_id, del_id. induction ids as [|x ids IH]; [done|]. simpl.
  destruct (Z.eqb_spec x id); simpl; rewrite IH; [|done]. by rewrite (proj2 (Z.eqb_neq i x)) by lia.
Qed.

Lemma has_id_del_same id ids : has_id id (del_id id ids) = false.
Proof.
  unfold has_id, del_id. induction ids as [|x ids IH]; [done|]. simpl.
  destruct (Z.eqb_spec x id); simpl; [done|]. by rewrite (proj2 (Z.eqb_neq id x)) by lia.
Qed.

(** A frame for another stream, or for one that is not open, leaves a stream alone. *)
Lemma mux_push_other mux f sid :
  f.1 <> sid \/ has_id sid mux.(mx_controllers) = false ->
  (mux_push mux f).(mx_bodies) !! sid = mux.(mx_bodies) !! sid /\
  has_id sid (mux_push mux f).(mx_controllers) = has_id sid mux.(mx_controllers).
Proof.
  destruct f as [id [type payload]]. cbn [fst]. intros Hs. unfold mux_push.
  destruct (has_id id (mx_controllers mux)) eqn:Eh; cbn [negb]; [|done].
  destruct Hs as [Hne|Hno]; [|destruct (Z.eq_dec id sid) as [->|Hne]; [congruence|]];
    (destruct (type =? FRAME_END); [|destruct (type =? FRAME_ERROR)]);
    unfold mux_close, mux_finish; cbn [mx_controllers mx_bodies]; rewrite ?Eh; cbn [negb mx_controllers mx_bodies];
    rewrite ?lookup_alter_ne, ?has_id_del by done; done.
Qed.

Lemma mux_pushes_closed fs mux sid :
  has_id sid mux.(mx_controllers) = false ->
  (fold_left mux_push fs mux).(mx_bodies) !! sid = mux.(mx_bodies) !! sid /\
  has_id sid (fold_left mux_push fs mux).(mx_controllers) = false.
Proof.
  revert mux; induction fs as [|f fs IH]; intros mux Hc; [done|]. simpl.
  destruct (mux_push_other mux f sid (or_intror Hc)) as [Hb Hc']. rewrite <- Hb. apply IH. congruence.
Qed.

Lemma mux_push_own mux sid cs f :
  f.1 = sid -> has_id sid mux.(mx_controllers) = true -> mux.(mx_bodies) !! sid = Some (mkBody cs StreamOpen) ->
  (mux_push mux f).(mx_bodies) !! sid =
    Some (mkBody (cs ++ [enc_frame f.2]) (if is_ending f.2 then StreamClosed else StreamOpen)) /\
  has_id sid (mux_push mux f).(mx_controllers) = negb (is_ending f.2).
Proof.
  destruct f as [id [type payload]]. cbn [fst snd]. intros -> Hh Hb. unfold mux_push, is_ending. cbn [fst].
  rewrite Hh. cbn [negb]. unfold mux_close, mux_finish. cbn [mx_controllers mx_bodies]. rewrite Hh. cbn [negb].
  destruct (type =? FRAME_END); [|destruct (type =? FRAME_ERROR)]; cbn [mx_controllers mx_bodies orb negb];
    rewrite ?lookup_alter_eq, ?has_id_del_same, Hb; done.
Qed.

(** An open stream receives its own frames, each re-encoded, until it ends. *)
Lemma mux_pushes_own fs mux sid cs :
  has_id sid mux.(mx_controllers) = true -> mux.(mx_bodies) !! sid = Some (mkBody cs StreamOpen) ->
  let mux' := fold_left mux_push fs mux in
  let taken := until_end (own sid fs) in
  mux'.(mx_bodies) !! sid =
    Some (mkBody (cs ++ map enc_frame taken) (if existsb is_ending taken then StreamClosed else StreamOpen)) /\
  has_id sid mux'.(mx_controllers) = negb (existsb is_ending taken).
Proof.
  revert mux cs; induction fs as [|f fs IH]; intros mux cs Hh Hb; cbn [fold_left].
  { cbn. by rewrite app_nil_r. }
  unfold own. cbn [List.filter]. destruct (Z.eqb_spec f.1 sid) as [He|Hne].
  - destruct (mux_push_own mux sid cs f He Hh Hb) as [Hb1 Hh1]. cbn [map until_end existsb].
    destruct (is_ending f.2) eqn:Ee; cbn [negb orb] in *.
    + destruct (mux_pushes_closed fs _ sid Hh1) as [Hb2 Hh2]. by rewrite Hb2, Hh2, Hb1.
    + destruct (IH _ _ Hh1 Hb1) as [Hb2 Hh2]. rewrite Hb2, Hh2, <- app_assoc. done.
  - destruct (mux_push_other mux f sid (or_introl Hne)) as [Hb' Hc']. apply IH; congruence.
Qed.

(** * Decoding what the multiplexer hands out *)

Lemma textDecode_encode s : textDecode (textEncode s) = s.
Proof. apply String.string_of_list_byte_of_string. Qed.

Lemma json_bytes_parse v : json_val v -> json_parse (textDecode (json_bytes v)) = Ok v.
Proof.
  intros Hv. destruct (json_roundtrip v Hv) as (t & Ht & Hp). unfold json_bytes. rewrite Ht.
  cbn [default]. unfold id. by rewrite textDecode_encode.
Qed.

(** The read loop over chunks is the pushes and then the end. *)
Lemma readLoop_chunks fuel buf s chunks :
  readLoop fuel buf s (map ReadChunk chunks ++ [ReadDone]) =
  match pushAll next_frame onFramed fuel buf s chunks with
  | None => None
  | Some d =>
      match d.(dr_error) with
      | Some e => Some (readFailed e d.(dr_state))
      | None => readLoop fuel d.(dr_buf) d.(dr_state) [ReadDone]
      end
  end.
Proof.
  revert buf s; induction chunks as [|c chunks IH]; intros buf s; [done|]. cbn [map app readLoop pushAll].
  destruct (push _ _ _ _ _ _) as [d|]; [|done]. destruct (dr_error d) as [e|] eqn:Ee; [by rewrite Ee|]. apply IH.
Qed.

(** How a response ends. *)
Inductive Ending := EndOf (trailer : val) | ErrorOf (failure : val).

Definition ending_payload (e : Ending) : val := match e with EndOf p | ErrorOf p => p end.

Definition ending_frame (e : Ending) : Frame :=
  match e with
  | EndOf p => (FRAME_END, json_bytes p)
  | ErrorOf p => (FRAME_ERROR, json_bytes p)
  end.

Definition ending_state (e : Ending) : StreamEnd :=
  match e with EndOf _ => StreamClosed | ErrorOf p => StreamErrored (error_message p.!"message") end.

(** The frames of a response: its head, its data, its end. *)
Definition response_frames (head : val) (data : list bytes) (e : Ending) : list Frame :=
  (FRAME_HEAD, json_bytes head) :: map (pair FRAME_DATA) data ++ [ending_frame e].

Lemma until_end_response head data e : until_end (response_frames head data e) = response_frames head data e.
Proof.
  unfold response_frames. cbn [until_end]. change (is_ending (FRAME_HEAD, _)) with false. cbv iota. f_equal.
  induction data as [|d data IH]; [by destruct e|]. cbn [map app until_end].
  change (is_ending (FRAME_DATA, d)) with false. cbv iota. by rewrite IH.
Qed.

Lemma response_ends head data e : existsb is_ending (response_frames head data e) = true.
Proof.
  unfold response_frames. cbn [existsb]. rewrite existsb_app. destruct e; cbn; by rewrite ?orb_true_r.
Qed.

Definition headed (head : val) (data : list bytes) : FramedStream :=
  mkFramedStream (HeadResolved (Some head)) true false (mkBody data StreamOpen) VUndef.

Lemma feed_data head data sofar rest :
  feed onFramed (map (pair FRAME_DATA) data ++ rest) (headed head sofar)
  = feed onFramed rest (headed head (sofar ++ data)).
Proof.
  revert sofar; induction data as [|d data IH]; intros sofar; cbn [map app]; [by rewrite app_nil_r|].
  cbn [feed]. change (onFramed (headed head sofar) (FRAME_DATA, d)) with (Ok (headed head (sofar ++ [d]))).
  cbv iota. by rewrite IH, <- app_assoc.
Qed.

Lemma feed_response head data e :
  json_val head -> json_val (ending_payload e) -> ending_payload e <> VNull ->
  exists s, feed onFramed (response_frames head data e) framedStart = (s, None) /\
    fs_head s = HeadResolved (Some head) /\ fs_headSeen s = true /\ fs_bodyClosed s = true /\
    fs_body s = mkBody data (ending_state e).
Proof.
  intros Hh He Hn. unfold response_frames. cbn [feed].
  assert (H1 : onFramed framedStart (FRAME_HEAD, json_bytes head) = Ok (headed head [])).
  { cbn. unfold parseHeadFrame. by rewrite json_bytes_parse. }
  rewrite H1, feed_data. cbn [app].
  destruct e as [p|p]; cbn [ending_frame ending_payload ending_state] in *.
  - eexists. split; [reflexivity|]. done.
  - cbn [feed]. assert (H2 : exists c, onFramed (headed head data) (FRAME_ERROR, json_bytes p)
      = Ok (mkFramedStream (HeadResolved (Some head)) true true
             (mkBody data (StreamErrored (error_message p.!"message"))) c)).
    { exists p.!"code". cbn. unfold parseErrorFrame. rewrite json_bytes_parse by done. by destruct p. }
    destruct H2 as [c ->]. eexists. split; [reflexivity|]. done.
Qed.

(** * Collecting and multiplexing callbacks *)

Definition collect {F} (fs : list F) (f : F) : res (list F) := Ok (fs ++ [f]).

Lemma feed_collect {F} (fs sofar : list F) : feed collect fs sofar = (sofar ++ fs, None).
Proof.
  revert sofar; induction fs as [|f fs IH]; intros sofar; cbn; [by rewrite app_nil_r|].
  by rewrite IH, <- app_assoc.
Qed.

Lemma feed_mux fs mux :
  feed (fun m f => Ok (mux_push m f)) fs mux = (fold_left mux_push fs mux, None).
Proof. revert mux; induction fs as [|f fs IH]; intros mux; cbn; [done|]. apply IH. Qed.
