(* ===== verification/RpcFramesProps.v ===== *)
(** Properties of the framed streams: frames survive any splitting of the channel
    into chunks, a response multiplexed among others is decoded as it was sent, and
    what a corrupt length does to the decoder of one stream. *)
From stdpp Require Import gmap.
From S2P Require Import Prelude Dict JsValue JsText JsBytes JsJson JsJsonLaws RpcFrames RpcFramesLaws.
#[local] Open Scope Z_scope.

Lemma own_ok sid fs : Forall stream_frame_ok fs -> Forall (fun f => byteLength f.2 < 2 ^ 31) (map snd fs) ->
  Forall frame_ok (own sid fs).
Proof.
  unfold own. induction 1 as [|f fs (_ & Ht & _) _ IH]; intros Hl; cbn [map List.filter] in *; [constructor|].
  pose proof (Forall_inv Hl) as Hl1. apply Forall_inv_tail in Hl. destruct (f.1 =? sid); [|by apply IH]. cbn [map].
  constructor; [done|by apply IH].
Qed.

Module Frames.
(** However the channel splits or joins what was sent, the decoder of many
    streams hands out exactly the frames sent, in order, with their stream, type
    and payload, over the whole range of 32-bit stream ids and lengths, and is left
    with nothing buffered. *)
Theorem stream_frames_roundtrip frames chunks fuel :
  Forall stream_frame_ok frames ->
  concat chunks = concat (map (fun f => encodeStreamFrameV2 f.1 f.2.1 f.2.2) frames) ->
  (length (concat chunks) < fuel)%nat ->
  pushAll next_stream_frame collect fuel [] [] chunks = Some (mkDrained [] frames None).
Proof.
  intros Hok Hc Hf.
  destruct (pushAll_frames next_stream_frame enc_stream_frame stream_frame_ok collect frames chunks [] fuel []
    Hok Hc eq_refl Hf) as ([buf s e] & Hd & Hs & Hb).
  rewrite feed_collect in Hs. cbn in Hs, Hb. injection Hs as -> ->. by rewrite Hd, Hb.
Qed.

(** C35: a response that shares the channel with any other streams is decoded as it
    was sent. Whatever frames of other streams lie between its own and however the
    channel is cut into chunks, the receiving side settles the head with the head
    sent, and its body is the data in order, closed by an END frame and errored with
    the message of an ERROR frame; the stream is released. Each payload is shorter than
    2^31 bytes. *)
Theorem multiplexed_response_intact mux sid frames chunks fuel head data ending requestedUrl :
  has_id sid mux.(mx_controllers) = true -> mux.(mx_bodies) !! sid = Some (mkBody [] StreamOpen) ->
  Forall stream_frame_ok frames -> Forall (fun f => byteLength f.2 < 2 ^ 31) (map snd frames) ->
  own sid frames = response_frames head data ending ->
  json_val head -> json_val (ending_payload ending) -> ending_payload ending <> VNull ->
  concat chunks = concat (map (fun f => encodeStreamFrameV2 f.1 f.2.1 f.2.2) frames) ->
  (length (concat chunks) < fuel)%nat ->
  exists mux' body,
    pushAll next_stream_frame (fun m f => Ok (mux_push m f)) fuel [] mux chunks
      = Some (mkDrained [] mux' None) /\
    mux'.(mx_bodies) !! sid = Some body /\ has_id sid mux'.(mx_controllers) = false /\
    forall fuel', (length (concat body.(bd_chunks)) < fuel')%nat ->
    exists s,
      readLoop fuel' [] framedStart (map ReadChunk body.(bd_chunks) ++ [ReadDone]) = Some s /\
      decodeFramedStream s requestedUrl =
        Ok {| df_status := head.!"status" ?? VNum 502;
              df_statusText := head.!"statusText" ?? VStr "Bad Gateway";
              df_headers := head.!"headerPairs" ?? VArr [];
              df_finalUrl := (if truthy head.!"finalUrl" then head.!"finalUrl" else VStr requestedUrl);
              df_body := mkBody data (ending_state ending) |}.
Proof.
  intros Hopen Hbody Hok Hlen Hown Hhead Hend Hnull Hc Hf.
  destruct (pushAll_frames next_stream_frame enc_stream_frame stream_frame_ok (fun m f => Ok (mux_push m f))
    frames chunks [] fuel mux Hok Hc eq_refl Hf) as ([buf mux' e] & Hd & Hs & Hb).
  rewrite feed_mux in Hs. cbn in Hs, Hb. injection Hs as -> ->. rewrite Hb in Hd by done.
  destruct (mux_pushes_own frames mux sid [] Hopen Hbody) as [Hb' Hh'].
  pose proof (own_ok sid frames Hok Hlen) as Hfo.
  rewrite Hown, until_end_response, response_ends in Hb', Hh'. rewrite Hown in Hfo.
  eexists _, _. split; [exact Hd|]. split; [exact Hb'|]. split; [exact Hh'|]. cbn [app bd_chunks].
  intros fuel' Hf'. rewrite readLoop_chunks.
  destruct (pushAll_frames next_frame enc_frame frame_ok onFramed (response_frames head data ending)
    (map enc_frame (response_frames head data ending)) [] fuel' framedStart Hfo eq_refl eq_refl Hf')
    as ([buf' s e'] & Hd' & Hs' & _).
  destruct (feed_response head data ending Hhead Hend Hnull) as (s0 & Hfeed & H1 & H2 & H3 & H4).
  rewrite Hfeed in Hs'. cbn in Hs'. injection Hs' as -> ->. rewrite Hd'. cbn [dr_error dr_state readLoop].
  rewrite H2. cbn [negb]. eexists. split; [reflexivity|]. unfold closeBody. rewrite H3.
  unfold decodeFramedStream. rewrite H1, H4. done.
Qed.

(** A length with the high bit set is read as negative by the decoder of one stream:
    its loop never ends on this header, while the decoder of many waits for the
    payload. *)
Example negative_length_diverges (fuel : nat) :
  drain next_frame collect fuel [x02; x80; x00; x00; x00] [] = None.
Proof.
  assert (Hd : forall s : list Frame, drain next_frame collect fuel [x02; x80; x00; x00; x00] s = None); [|done].
  induction fuel as [|fuel IH]; intros s; [done|]. cbn [drain].
  change (next_frame [x02; x80; x00; x00; x00]) with
    (Some ((FRAME_DATA, @nil byte), [x02; x80; x00; x00; x00])). apply IH.
Qed.

Example long_length_waits (fuel : nat) (s : list StreamFrame) :
  drain next_stream_frame collect (S fuel) [x00; x00; x00; x01; x02; x80; x00; x00; x00] s
  = Some (mkDrained [x00; x00; x00; x01; x02; x80; x00; x00; x00] s None).
Proof. reflexivity. Qed.

(** ** Witnesses *)

Definition sample_head : val := VObj [("status", VNum 200); ("statusText", VStr "OK"); ("headerPairs", VArr [])].

(** Two responses on one channel, the second still open. *)
Definition sample_frames : list StreamFrame :=
  [(1, (FRAME_HEAD, json_bytes sample_head)); (2, (FRAME_HEAD, json_bytes sample_head));
   (1, (FRAME_DATA, [x61; x62])); (2, (FRAME_DATA, [x7a])); (1, (FRAME_DATA, [x63]));
   (1, (FRAME_END, json_bytes (VObj [("bytesIn", VNum 3)])))].

Definition sample_wire : bytes :=
  concat (map (fun f => encodeStreamFrameV2 f.1 f.2.1 f.2.2) sample_frames).

(** Cut in the middle of a header. *)
Definition sample_chunks : list bytes := [firstn 3 sample_wire; []; firstn 80 (skipn 3 sample_wire); skipn 83 sample_wire].

Lemma sample_frames_ok : Forall stream_frame_ok sample_frames.
Proof. repeat (constructor; [vm_compute; intuition congruence|]). constructor. Qed.

Lemma stream_frames_roundtrip_witness :
  pushAll next_stream_frame collect 500 [] [] sample_chunks = Some (mkDrained [] sample_frames None).
Proof.
  apply (stream_frames_roundtrip sample_frames sample_chunks 500 sample_frames_ok);
    [vm_compute; reflexivity|apply Nat.ltb_lt; vm_compute; reflexivity].
Defined.

Definition sample_mux : InboundStreamMux :=
  match mux_acquire createInboundStreamMux 1 with Ok m => m | Throw _ => createInboundStreamMux end.

Lemma multiplexed_response_intact_witness :
  exists mux' body,
    pushAll next_stream_frame (fun m f => Ok (mux_push m f)) 500 [] sample_mux sample_chunks
      = Some (mkDrained [] mux' None) /\ mux'.(mx_bodies) !! 1 = Some body /\
    exists s, readLoop 500 [] framedStart (map ReadChunk body.(bd_chunks) ++ [ReadDone]) = Some s /\
      option_map df_body (match decodeFramedStream s "u" with Ok d => Some d | Throw _ => None end)
      = Some (mkBody [[x61; x62]; [x63]] StreamClosed).
Proof.
  destruct (multiplexed_response_intact sample_mux 1 sample_frames sample_chunks 500 sample_head
    [[x61; x62]; [x63]] (EndOf (VObj [("bytesIn", VNum 3)])) "u")
    as (mux' & body & Hd & Hb & _ & Hr);
    [reflexivity|reflexivity|exact sample_frames_ok|
     repeat (constructor; [vm_compute; congruence|]); constructor|reflexivity|
     apply json_val_obj; split; [by apply (bool_decide_unpack _)|repeat constructor]|
     apply json_val_obj; split; [by apply (bool_decide_unpack _)|repeat constructor]|discriminate|
     vm_compute; reflexivity|apply Nat.ltb_lt; vm_compute; reflexivity|].
  exists mux', body. split; [exact Hd|]. split; [exact Hb|].
  destruct (Hr 500%nat) as (s & Hs & Hdec).
  - assert (Hbody : body.(bd_chunks) = map enc_frame (own 1 sample_frames)).
    { vm_compute in Hd. injection Hd as <-. vm_compute in Hb. injection Hb as <-. reflexivity. }
    rewrite Hbody. apply Nat.ltb_lt. vm_compute. reflexivity.
  - exists s. split; [exact Hs|]. rewrite Hdec. reflexivity.
Defined.
End Frames.
