(* ===== verification/RpcControl.v ===== *)
(** The control channel of the rpc pipe: fragmentation of its messages
    (packages/rpc/src/transports/controlFraming.ts), the chunked writes of the bulk
    channel (transports/channelIo.ts), and the frames of the sessions that share the
    pipe (protocol/sessionNegotiation.ts, protocol/closeCodes.ts). *)
From stdpp Require Import gmap.
From S2P Require Import Prelude Dict JsValue JsText JsBytes JsJson RpcFrames.
#[local] Open Scope Z_scope.

Definition TAG_WHOLE : Z := 0.
Definition TAG_FRAGMENT : Z := 1.
Definition FRAGMENT_HEADER : Z := 9.

(** [view.setUint16], [view.getUint16], [view.getUint32]. *)
Definition be16 (n : Z) : bytes := [u8 (n / 256); u8 n].
Definition get16 (l : bytes) (i : nat) : Z := byte_at l i * 256 + byte_at l (i + 1).
Definition get32 (l : bytes) (i : nat) : Z := get16 l i * 65536 + get16 l (i + 2).

(** [l.subarray(start, stop)] for positions inside the array. *)
Definition subarray (l : bytes) (start stop : Z) : bytes :=
  take (Z.to_nat (stop - start)) (drop (Z.to_nat start) l).

(** * Fragmentation *)

Definition chunk_max (maxMessageSize : Z) : Z := Z.max 1 (maxMessageSize - FRAGMENT_HEADER).

(** [Math.ceil(len / chunkMax)]. *)
Definition fragment_count (len chunkMax : Z) : Z := (len + chunkMax - 1) / chunkMax.

Definition fragment (frameBytes : bytes) (chunkMax id total : Z) (index : nat) : bytes :=
  let start := Z.of_nat index * chunkMax in
  let chunk := subarray frameBytes start (Z.min (start + chunkMax) (byteLength frameBytes)) in
  u8 TAG_FRAGMENT :: be32 id ++ be16 (Z.of_nat index) ++ be16 total ++ chunk.

Definition frameControlMessage (frameBytes : bytes) (maxMessageSize frameId : Z) : res (list bytes) :=
  if byteLength frameBytes + 1 <=? maxMessageSize then Ok [u8 TAG_WHOLE :: frameBytes]
  else
    let chunkMax := chunk_max maxMessageSize in
    let total := fragment_count (byteLength frameBytes) chunkMax in
    if 65535 <? total
    then Throw ("control frame too large to fragment (" ^^ pretty (byteLength frameBytes)
                ^^ " bytes at chunk " ^^ pretty chunkMax ^^ ")")
    else
      let id := uint32 frameId in
      Ok (map (fragment frameBytes chunkMax id total) (seq 0 (Z.to_nat total))).

(** A fragment set on its way; a place of [chunks] is empty until its fragment is in. *)
Record FragmentSet := mkFragmentSet {
  fg_chunks : list (option bytes);
  fg_received : Z;
  fg_total : Z
}.

(** [accept]; a set is complete once its places are all filled. *)
Definition accept (pending : gmap Z FragmentSet) (message : bytes) : gmap Z FragmentSet * option bytes :=
  if byteLength message <? 1 then (pending, None)
  else
    let tag := byte_at message 0 in
    if tag =? TAG_WHOLE then (pending, Some (js_slice message 1 None))
    else if negb (tag =? TAG_FRAGMENT) || (byteLength message <? FRAGMENT_HEADER) then (pending, None)
    else
      let id := get32 message 1 in
      let index := get16 message 5 in
      let total := get16 message 7 in
      if (total =? 0) || (total <=? index) then (pending, None)
      else
        let fresh := {| fg_chunks := replicate (Z.to_nat total) None; fg_received := 0; fg_total := total |} in
        let entry := default fresh (pending !! id) in
        let pending := <[id := entry]> pending in
        if negb (entry.(fg_total) =? total)
           || isSome (default None (entry.(fg_chunks) !! Z.to_nat index))
        then (pending, None)
        else
          let entry :=
            {| fg_chunks := <[Z.to_nat index := Some (js_slice message FRAGMENT_HEADER None)]> entry.(fg_chunks);
               fg_received := entry.(fg_received) + 1;
               fg_total := entry.(fg_total) |} in
          if entry.(fg_received) <? entry.(fg_total) then (<[id := entry]> pending, None)
          else (delete id pending, Some (concat (omap (fun c => c) entry.(fg_chunks)))).

(** [reset]. *)
Definition defrag_reset : gmap Z FragmentSet := ∅.

(** [createControlCodec]: the frame counter and the reassembler of one pipe. *)
Record ControlCodec := mkControlCodec {
  cc_seq : Z;
  cc_defrag : gmap Z FragmentSet
}.

Definition createControlCodec : ControlCodec := {| cc_seq := 0; cc_defrag := defrag_reset |}.

Definition codec_frame (codec : ControlCodec) (frameBytes : bytes) (maxMessageSize : Z)
    : ControlCodec * res (list bytes) :=
  let seq := uint32 (codec.(cc_seq) + 1) in
  ({| cc_seq := seq; cc_defrag := codec.(cc_defrag) |}, frameControlMessage frameBytes maxMessageSize seq).

Definition codec_accept (codec : ControlCodec) (message : bytes) : ControlCodec * option bytes :=
  let '(pending, out) := accept codec.(cc_defrag) message in
  ({| cc_seq := codec.(cc_seq); cc_defrag := pending |}, out).

Definition codec_reset (codec : ControlCodec) : ControlCodec :=
  {| cc_seq := codec.(cc_seq); cc_defrag := defrag_reset |}.

(** * The bulk channel: [writeChunked] on a channel that stays open *)

Definition chunk_size (chunkSize maxMessageSize : Z) : Z :=
  Z.min chunkSize (if maxMessageSize =? 0 then chunkSize else maxMessageSize).

Fixpoint write_chunks (fuel : nat) (data : bytes) (max offset : Z) : option (list bytes) :=
  match fuel with
  | O => None
  | S fuel' =>
      if offset <? byteLength data
      then
        cons (subarray data offset (Z.min (offset + max) (byteLength data)))
          <$> write_chunks fuel' data max (offset + max)
      else Some []
  end.

Definition writeChunked (fuel : nat) (data : bytes) (chunkSize maxMessageSize : Z) : option (list bytes) :=
  write_chunks fuel data (chunk_size chunkSize maxMessageSize) 0.

(** * Session control frames *)

Definition FRAME_TAGS : list string :=
  ["open"; "open-result"; "close"; "closed"; "rpc"; "route"; "routed"; "event"; "routed-response-error";
   "routed-event-error"; "stream-open"; "stream-cancel"; "ping"; "pong"].

Definition encodeControlFrame (frame : val) : string := default "" (json_stringify frame).

Definition decodeControlFrame (data : string) : res val :=
  let! parsed := json_parse data in
  match parsed.!"t" with
  | VStr tag =>
      if negb (is_object parsed) then Throw "Malformed session control frame: missing tag"
      else if negb (existsb (String.eqb tag) FRAME_TAGS)
      then Throw ("Unknown session control frame tag: " ^^ tag)
      else if (tag <>s? "ping") && (tag <>s? "pong") && negb (match parsed.!"sid" with VStr _ => true | _ => false end)
      then Throw ("Session control frame '" ^^ tag ^^ "' missing sid")
      else Ok parsed
  | _ => Throw "Malformed session control frame: missing tag"
  end.

(** [SessionAuthOutcome]. *)
Record SessionAuthOutcome := mkAuthOutcome {
  ao_ok : bool;
  ao_callerId : option string;
  ao_callerKind : option string;
  ao_connectionId : option string;
  ao_sessionDirty : option bool;
  ao_error : option string;
  ao_terminal : option bool
}.

Definition openResultFor (sid : string) (outcome : SessionAuthOutcome) (serverBootId : string) : val :=
  if negb outcome.(ao_ok)
  then
    VObj [("t", VStr "open-result"); ("sid", VStr sid); ("success", VBool false);
          ("error", VStr (default "Session auth failed" outcome.(ao_error)));
          ("terminal", VBool (default false outcome.(ao_terminal)))]
  else
    VObj [("t", VStr "open-result"); ("sid", VStr sid); ("success", VBool true);
          ("callerId", of_ostr outcome.(ao_callerId)); ("callerKind", of_ostr outcome.(ao_callerKind));
          ("connectionId", of_ostr outcome.(ao_connectionId)); ("serverBootId", VStr serverBootId);
          ("sessionDirty", VBool (default false outcome.(ao_sessionDirty)))].

(** The close codes after which a session is not reopened. *)
Definition TERMINAL_CLOSE_CODES : list Z := [4001; 4005; 4006; 4090; 4091; 4093].

Definition isTerminalCloseCode (code : Z) : bool := has_id code TERMINAL_CLOSE_CODES.
