(* ===== verification/RpcControlProps.v ===== *)
(** Properties of the control channel: what is sent through its framing arrives as it
    was sent, whole or in fragments, one frame after the other or interleaved. *)
From stdpp Require Import gmap.
From S2P Require Import Prelude Dict JsValue JsText JsBytes JsJson JsJsonLaws RpcFrames RpcFramesLaws RpcControl.
#[local] Open Scope Z_scope.

(** * The header of a fragment *)

Lemma get16_be16 n l : 0 <= n < 65536 -> get16 (be16 n ++ l) 0 = n.
Proof.
  intros Hn. unfold get16, be16. cbn [app byte_at nth_error Nat.add]. rewrite !byte_Z_u8.
  Z.to_euclidean_division_equations; lia.
Qed.

Lemma get16_app l1 l2 i : get16 (l1 ++ l2) (length l1 + i) = get16 l2 i.
Proof. unfold get16. by rewrite <- !Nat.add_assoc, !byte_at_app. Qed.

Lemma get32_be32 n l : get32 (be32 n ++ l) 0 = uint32 n.
Proof.
  unfold get32, get16, be32. cbn [app byte_at nth_error Nat.add].
  rewrite !byte_Z_u8, !and32_255, !ushr_div by lia. unfold uint32.
  change (2 ^ 32) with 4294967296. change (2 ^ 24) with 16777216. change (2 ^ 16) with 65536.
  change (2 ^ 8) with 256. Z.to_euclidean_division_equations; lia.
Qed.

(** * The chunks of a frame *)

Section Chunks.
Context (frameBytes : bytes) (chunkMax : Z) (Hpos : 0 < chunkMax).

Definition chunk_at (i : nat) : bytes :=
  let start := Z.of_nat i * chunkMax in
  subarray frameBytes start (Z.min (start + chunkMax) (byteLength frameBytes)).

Lemma chunk_at_take i :
  chunk_at i = take (Z.to_nat chunkMax) (drop (i * Z.to_nat chunkMax) frameBytes).
Proof.
  unfold chunk_at, subarray, byteLength. replace (Z.to_nat (Z.of_nat i * chunkMax)) with (i * Z.to_nat chunkMax)%nat by nia.
  apply list_eq. intros j. destruct (decide (j < Z.to_nat chunkMax)%nat) as [Hj|Hj].
  - rewrite (lookup_take_lt _ _ _ Hj). destruct (decide (j < length (drop (i * Z.to_nat chunkMax) frameBytes))%nat) as [Hl|Hl].
    + rewrite lookup_take_lt; [done|]. rewrite length_drop in Hl. nia.
    + rewrite !lookup_ge_None_2; [done| |]; rewrite ?length_take; lia.
  - rewrite !lookup_ge_None_2; [done| |]; rewrite ?length_take; lia.
Qed.

Lemma chunks_prefix n : concat (map chunk_at (seq 0 n)) = take (n * Z.to_nat chunkMax) frameBytes.
Proof.
  induction n as [|n IH]; [done|].
  rewrite seq_S, map_app, concat_app, IH. cbn [map concat]. rewrite app_nil_r, chunk_at_take. cbn [Nat.add].
  replace (S n * Z.to_nat chunkMax)%nat with (n * Z.to_nat chunkMax + Z.to_nat chunkMax)%nat by lia.
  by rewrite take_take_drop.
Qed.

Lemma chunks_all n : byteLength frameBytes <= Z.of_nat n * chunkMax ->
  concat (map chunk_at (seq 0 n)) = frameBytes.
Proof. intros H. rewrite chunks_prefix. apply take_ge. unfold byteLength in H. nia. Qed.

Lemma chunk_at_length i : byteLength (chunk_at i) <= chunkMax.
Proof. rewrite chunk_at_take. unfold byteLength. rewrite length_take. lia. Qed.

Lemma fragment_count_enough :
  byteLength frameBytes <= fragment_count (byteLength frameBytes) chunkMax * chunkMax.
Proof. unfold fragment_count. Z.to_euclidean_division_equations; nia. Qed.

Lemma fragment_count_pos : 0 < byteLength frameBytes -> 0 < fragment_count (byteLength frameBytes) chunkMax.
Proof. intros H. unfold fragment_count. apply Z.div_str_pos. lia. Qed.

Lemma fragment_count_bound n :
  0 <= n -> fragment_count (byteLength frameBytes) chunkMax <= n <-> byteLength frameBytes <= n * chunkMax.
Proof. intros Hn. unfold fragment_count. split; intros H; Z.to_euclidean_division_equations; nia. Qed.

(** * The reassembler *)

(** The set of a frame after its first [k] fragments. *)
Definition progress (total : Z) (k : nat) : FragmentSet :=
  {| fg_chunks := map Some (map chunk_at (seq 0 k)) ++ replicate (Z.to_nat total - k) None;
     fg_received := Z.of_nat k;
     fg_total := total |}.

Lemma progress_next total k : (k < Z.to_nat total)%nat ->
  <[k := Some (chunk_at k)]> (progress total k).(fg_chunks) = (progress total (S k)).(fg_chunks).
Proof.
  intros Hk. cbn [progress fg_chunks]. rewrite insert_app_r_alt by (rewrite !length_map, length_seq; lia).
  rewrite !length_map, length_seq, Nat.sub_diag, seq_S, !map_app, <- app_assoc. f_equal.
  replace (Z.to_nat total - k)%nat with (S (Z.to_nat total - S k)) by lia. done.
Qed.

Lemma progress_gap total k : (k < Z.to_nat total)%nat -> (progress total k).(fg_chunks) !! k = Some None.
Proof.
  intros Hk. cbn [progress fg_chunks]. rewrite lookup_app_r by (rewrite !length_map, length_seq; lia).
  rewrite !length_map, length_seq, Nat.sub_diag. apply lookup_replicate_2. lia.
Qed.

Lemma progress_full total : 0 <= total ->
  omap (fun c : option bytes => c) (progress total (Z.to_nat total)).(fg_chunks) = map chunk_at (seq 0 (Z.to_nat total)).
Proof.
  intros Ht. cbn [progress fg_chunks]. rewrite Nat.sub_diag, app_nil_r.
  induction (map chunk_at (seq 0 (Z.to_nat total))) as [|c cs IH]; [done|]. simpl. by f_equal.
Qed.

(** Where the set of frame [id] stands: nothing is kept before its first fragment. *)
Definition stands (pending : gmap Z FragmentSet) (id total : Z) (k : nat) : Prop :=
  pending !! id = match k with O => None | S _ => Some (progress total k) end.

Lemma accept_fragment pending id total k :
  0 <= id < 2 ^ 32 -> total <= 65535 -> (k < Z.to_nat total)%nat -> stands pending id total k ->
  accept pending (fragment frameBytes chunkMax id total k) =
  if Z.of_nat (S k) <? total then (<[id := progress total (S k)]> pending, None)
  else (delete id pending, Some (concat (map chunk_at (seq 0 (Z.to_nat total))))).
Proof.
  intros Hid Ht Hk Hp. unfold fragment. fold (chunk_at k).
  set (msg := u8 TAG_FRAGMENT :: be32 id ++ be16 (Z.of_nat k) ++ be16 total ++ chunk_at k).
  assert (Hlen : FRAGMENT_HEADER <= byteLength msg) by (unfold byteLength, FRAGMENT_HEADER; simpl; lia).
  assert (Hget : get32 msg 1 = id /\ get16 msg 5 = Z.of_nat k /\ get16 msg 7 = total).
  { unfold msg. change (u8 TAG_FRAGMENT :: ?l) with ([u8 TAG_FRAGMENT] ++ l). split_and!.
    - change (get32 (be32 id ++ be16 (Z.of_nat k) ++ be16 total ++ chunk_at k) 0 = id).
      by rewrite get32_be32, uint32_small.
    - change (get16 (be16 (Z.of_nat k) ++ be16 total ++ chunk_at k) 0 = Z.of_nat k). apply get16_be16. lia.
    - change (get16 (be16 total ++ chunk_at k) 0 = total). apply get16_be16. lia. }
  assert (Hbody : js_slice msg FRAGMENT_HEADER None = chunk_at k).
  { unfold msg. change (js_slice (([u8 TAG_FRAGMENT] ++ be32 id ++ be16 (Z.of_nat k) ++ be16 total) ++ chunk_at k)
      FRAGMENT_HEADER None = chunk_at k). by apply slice_rest. }
  unfold accept. destruct Hget as (-> & -> & ->). rewrite Hbody.
  change (byte_at msg 0) with 1. rewrite !(proj2 (Z.ltb_ge (byteLength msg) _)) by (unfold FRAGMENT_HEADER in *; lia).
  cbn [Z.eqb TAG_WHOLE TAG_FRAGMENT negb orb Pos.eqb].
  rewrite (proj2 (Z.eqb_neq total 0)), (proj2 (Z.leb_gt total _)) by lia. cbn [orb].
  assert (He : default {| fg_chunks := replicate (Z.to_nat total) None; fg_received := 0; fg_total := total |}
      (pending !! id) = progress total k).
  { rewrite Hp. destruct k; [|done]. unfold progress. simpl. by rewrite Nat.sub_0_r. }
  rewrite He, !Nat2Z.id, progress_gap, progress_next by done. cbn [default from_option progress fg_total fg_received]. cbv [Datatypes.id]. cbn [isSome].
  rewrite Z.eqb_refl. cbn [negb orb]. replace (Z.of_nat k + 1) with (Z.of_nat (S k)) by lia.
  destruct (Z.ltb_spec (Z.of_nat (S k)) total) as [Hlt|Hge].
  - by rewrite insert_insert_eq.
  - rewrite delete_insert_eq. do 2 f_equal. replace (S k) with (Z.to_nat total) by lia.
    f_equal. apply progress_full. lia.
Qed.
End Chunks.

(** * Messages in any order that keeps each frame's own *)

(** The messages handed to the receiver, one after the other, and the frames out. *)
Fixpoint accept_all (pending : gmap Z FragmentSet) (messages : list bytes) : gmap Z FragmentSet * list bytes :=
  match messages with
  | [] => (pending, [])
  | m :: rest =>
      let '(pending, out) := accept pending m in
      let '(pending, outs) := accept_all pending rest in
      (pending, match out with Some frame => frame :: outs | None => outs end)
  end.

Lemma accept_all_app pending ms1 ms2 :
  accept_all pending (ms1 ++ ms2) =
  (let '(p1, o1) := accept_all pending ms1 in let '(p2, o2) := accept_all p1 ms2 in (p2, o1 ++ o2)).
Proof.
  revert pending; induction ms1 as [|m ms1 IH]; intros pending; cbn [accept_all app].
  - by destruct (accept_all pending ms2).
  - destruct (accept pending m) as [p o]. rewrite IH. destruct (accept_all p ms1) as [p1 o1].
    destruct (accept_all p1 ms2). by destruct o.
Qed.

Lemma accept_whole pending frameBytes : accept pending (u8 TAG_WHOLE :: frameBytes) = (pending, Some frameBytes).
Proof.
  unfold accept. rewrite (proj2 (Z.ltb_ge _ _)) by (unfold byteLength; simpl; lia).
  change (byte_at (u8 TAG_WHOLE :: frameBytes) 0) with 0. cbn [Z.eqb TAG_WHOLE].
  do 2 f_equal. by apply (slice_rest [u8 TAG_WHOLE]).
Qed.

(** A frame on its way under [id]: how many of its messages are in. *)
Record InFlight := mkInFlight { if_id : Z; if_frame : bytes; if_sent : nat }.

(** [out] takes the messages of the lists in any order that keeps each list's own. *)
Inductive interleaves {A} : list (list A) -> list A -> Prop :=
| interleaves_nil ls : Forall (fun l => l = []) ls -> interleaves ls []
| interleaves_take ls1 m l ls2 out :
    interleaves (ls1 ++ l :: ls2) out -> interleaves (ls1 ++ (m :: l) :: ls2) (m :: out).

Section Flights.
Context (maxMessageSize : Z).

Definition fits (frame : bytes) : bool := byteLength frame + 1 <=? maxMessageSize.

(** Frames the framing takes: whole ones, and those of at most 65535 fragments. *)
Definition sendable (frame : bytes) : Prop :=
  fits frame = true \/ 0 < byteLength frame <= 65535 * chunk_max maxMessageSize.

Definition messages (id : Z) (frame : bytes) : list bytes :=
  match frameControlMessage frame maxMessageSize id with Ok ms => ms | Throw _ => [] end.

Definition fragments (frame : bytes) : Z := fragment_count (byteLength frame) (chunk_max maxMessageSize).

Lemma chunk_max_pos : 0 < chunk_max maxMessageSize.
Proof. unfold chunk_max. lia. Qed.

Lemma messages_whole id frame : fits frame = true -> messages id frame = [u8 TAG_WHOLE :: frame].
Proof. unfold messages, frameControlMessage, fits. by intros ->. Qed.

Lemma fragments_bound frame : sendable frame -> fits frame = false -> 0 < fragments frame <= 65535.
Proof.
  intros [?|[H1 H2]] Hf; [congruence|]. unfold fragments. pose proof chunk_max_pos. split.
  - by apply fragment_count_pos.
  - by apply fragment_count_bound.
Qed.

Lemma frame_ok_messages id frame : sendable frame -> frameControlMessage frame maxMessageSize id = Ok (messages id frame).
Proof.
  intros Hs. destruct (fits frame) eqn:Hf.
  - rewrite messages_whole by done. unfold frameControlMessage, fits in *. by rewrite Hf.
  - pose proof (fragments_bound frame Hs Hf) as Hb. unfold messages, frameControlMessage, fits, fragments in *.
    rewrite Hf. by rewrite (proj2 (Z.ltb_ge _ _)) by lia.
Qed.

Lemma messages_fragments id frame : sendable frame -> fits frame = false -> 0 <= id < 2 ^ 32 ->
  messages id frame = map (fragment frame (chunk_max maxMessageSize) id (fragments frame))
                        (seq 0 (Z.to_nat (fragments frame))).
Proof.
  intros Hs Hf Hid. pose proof (fragments_bound frame Hs Hf) as Hb.
  unfold messages, frameControlMessage, fits, fragments in *. rewrite Hf.
  by rewrite (proj2 (Z.ltb_ge _ _)), uint32_small by lia.
Qed.

(** What the receiver holds for a frame. *)
Definition held (f : InFlight) : option FragmentSet :=
  if fits f.(if_frame) || (f.(if_sent) =? 0)%nat || (Z.to_nat (fragments f.(if_frame)) <=? f.(if_sent))%nat
  then None
  else Some (progress f.(if_frame) (chunk_max maxMessageSize) (fragments f.(if_frame)) f.(if_sent)).

Definition remaining (f : InFlight) : list bytes := drop f.(if_sent) (messages f.(if_id) f.(if_frame)).

Definition advance (f : InFlight) : InFlight := mkInFlight f.(if_id) f.(if_frame) (S f.(if_sent)).

Definition flight_ok (f : InFlight) : Prop := 0 <= f.(if_id) < 2 ^ 32 /\ sendable f.(if_frame).

Lemma remaining_advance f m rest : remaining f = m :: rest -> remaining (advance f) = rest.
Proof.
  unfold remaining, advance. cbn [if_sent if_id if_frame]. intros H.
  change (S (if_sent f)) with (1 + if_sent f)%nat. rewrite Nat.add_comm, <- drop_drop, H. done.
Qed.

(** One message of a frame: it completes the frame exactly when it is the last, and
    leaves what is held for other frames alone. *)
Lemma accept_step pending f m rest :
  flight_ok f -> pending !! f.(if_id) = held f -> remaining f = m :: rest ->
  exists pending',
    accept pending m = (pending', match rest with [] => Some f.(if_frame) | _ => None end) /\
    pending' !! f.(if_id) = held (advance f) /\ forall j, j <> f.(if_id) -> pending' !! j = pending !! j.
Proof.
  intros [Hid Hs] Hp Hr. destruct f as [id frame k]. unfold remaining, held, advance in *.
  cbn [if_id if_frame if_sent] in *. destruct (fits frame) eqn:Hf.
  - rewrite messages_whole in Hr by done. destruct k as [|k]; [|by destruct k].
    injection Hr as <- <-. rewrite accept_whole. by exists pending.
  - rewrite messages_fragments in Hr by done. pose proof (fragments_bound frame Hs Hf) as Hb.
    set (cm := chunk_max maxMessageSize) in *. set (total := fragments frame) in *. cbn [orb] in *.
    assert (Hk : (k < Z.to_nat total)%nat).
    { apply (f_equal length) in Hr. rewrite length_drop, length_map, length_seq in Hr. simpl in Hr. lia. }
    assert (Hm : m = fragment frame cm id total k /\ length rest = (Z.to_nat total - S k)%nat).
    { pose proof (f_equal length Hr) as Hl. rewrite length_drop, length_map, length_seq in Hl. simpl in Hl.
      split; [|lia]. apply (f_equal (fun l => l !! 0%nat)) in Hr. rewrite lookup_drop, Nat.add_0_r in Hr.
      rewrite list_lookup_fmap, lookup_seq_lt in Hr by done. cbn in Hr. by injection Hr as <-. }
    destruct Hm as [-> Hl]. rewrite (proj2 (Nat.leb_gt _ _)), orb_false_r in Hp by done.
    rewrite (accept_fragment frame cm pending id total k) by (lia || by destruct k).
    cbn [Nat.eqb orb]. destruct (Z.ltb_spec (Z.of_nat (S k)) total) as [Hlt|Hge].
    + eexists. split; [destruct rest; [simpl in Hl; lia|reflexivity]|].
      rewrite (proj2 (Nat.leb_gt _ _)) by lia. split; [apply lookup_insert_eq|].
      intros j Hj. by rewrite lookup_insert_ne.
    + eexists. split.
      { rewrite chunks_all; [destruct rest; [reflexivity|simpl in Hl; lia]| |].
        - apply chunk_max_pos.
        - rewrite Z2Nat.id by lia. apply fragment_count_enough, chunk_max_pos. }
      rewrite (proj2 (Nat.leb_le _ _)) by lia. split; [apply lookup_delete_eq|].
      intros j Hj. by rewrite lookup_delete_ne.
Qed.

(** * Interleaved and consecutive frames *)


(** The receiver holds what the flights left there, and nothing else. *)
Definition holds (pending : gmap Z FragmentSet) (fs : list InFlight) : Prop :=
  Forall (fun f => pending !! f.(if_id) = held f) fs /\
  forall j s, pending !! j = Some s -> In j (map if_id fs).

(** The frames of which some message is still to come. *)
Definition awaited (fs : list InFlight) : list bytes :=
  map if_frame (List.filter (fun f => match remaining f with [] => false | _ => true end) fs).

Lemma held_none f : flight_ok f -> remaining f = [] -> held f = None.
Proof.
  intros [Hid Hs] Hr. unfold held. destruct (fits (if_frame f)) eqn:Hf; [done|].
  unfold remaining in Hr. rewrite messages_fragments in Hr by done.
  apply (f_equal length) in Hr. rewrite length_drop, length_map, length_seq in Hr. simpl in Hr.
  rewrite (proj2 (Nat.leb_le _ _)) by lia. by rewrite orb_true_r.
Qed.

Lemma holds_empty pending fs : Forall flight_ok fs -> Forall (fun f => remaining f = []) fs -> holds pending fs ->
  pending = ∅.
Proof.
  intros Hok Hr [Hh Hj]. apply map_empty. intros j. destruct (pending !! j) as [s|] eqn:E; [|done].
  pose proof (Hj j s E) as Hin. apply in_map_iff in Hin as (f & <- & Hin).
  rewrite List.Forall_forall in Hok, Hr, Hh. specialize (Hok f Hin). specialize (Hr f Hin).
  rewrite Hh in E by done. by rewrite held_none in E.
Qed.

Lemma awaited_app fs1 fs2 : awaited (fs1 ++ fs2) = awaited fs1 ++ awaited fs2.
Proof. unfold awaited. by rewrite List.filter_app, map_app. Qed.

(** One message leaves the receiver holding what the advanced flight left. *)
Lemma holds_step pending fs1 f fs2 pending' :
  NoDup (map if_id (fs1 ++ f :: fs2)) -> holds pending (fs1 ++ f :: fs2) ->
  pending' !! f.(if_id) = held (advance f) -> (forall j, j <> f.(if_id) -> pending' !! j = pending !! j) ->
  holds pending' (fs1 ++ advance f :: fs2).
Proof.
  intros Hnd [Hh Hj] Hf Ho. split.
  - apply Forall_app in Hh as [H1 H2]. apply Forall_inv_tail in H2. rewrite map_app in Hnd.
    apply list.NoDup_app in Hnd as (_ & Hn1 & Hn2). apply list.NoDup_cons in Hn2 as [Hn2 _].
    assert (Hother : forall l, (forall g, In g l -> g.(if_id) <> f.(if_id)) ->
      Forall (fun g => pending !! g.(if_id) = held g) l -> Forall (fun g => pending' !! g.(if_id) = held g) l).
    { intros l Hl H. rewrite List.Forall_forall in *. intros g Hg. rewrite Ho by auto. by apply H. }
    apply Forall_app; split; [|constructor]; [|done|]; apply Hother; try done; intros g Hg He.
    + apply (Hn1 (if_id g)); [apply list_elem_of_In, in_map; done|]. rewrite He. left.
    + apply Hn2. rewrite <- He. by apply list_elem_of_In, in_map.
  - intros j s Hs. rewrite map_app in *. cbn [map advance if_id] in *.
    destruct (decide (j = if_id f)) as [->|Hne]; [apply in_or_app; right; by left|].
    rewrite Ho in Hs by done. by apply Hj in Hs.
Qed.

Lemma accept_interleaved ls out : interleaves ls out -> forall pending fs,
  ls = map remaining fs -> Forall flight_ok fs -> NoDup (map if_id fs) -> holds pending fs ->
  exists frames, accept_all pending out = (∅, frames) /\ Permutation frames (awaited fs).
Proof.
  induction 1 as [ls Hnil|ls1 m l ls2 out _ IH]; intros pending fs Hls Hok Hnd Hh.
  - subst ls. apply Forall_map in Hnil. exists []. cbn [accept_all].
    rewrite (holds_empty pending fs) by done. split; [done|].
    assert (Ha : awaited fs = []); [|by rewrite Ha].
    unfold awaited. clear Hok Hnd Hh. induction fs as [|f fs IH]; [done|].
    pose proof (Forall_inv Hnil) as Hr. apply Forall_inv_tail in Hnil. cbn [List.filter]. cbv beta in Hr.
    rewrite Hr. by apply IH.
  - symmetry in Hls. apply map_eq_app in Hls as (fs1 & fs2' & -> & <- & H2).
    destruct fs2' as [|f fs2]; [done|]. cbn [map] in H2. injection H2 as Hf H2.
    pose proof Hok as Hok'. apply Forall_app in Hok' as [Hok1 Hok2]. pose proof (Forall_inv Hok2) as Hfo.
    apply Forall_inv_tail in Hok2. pose proof (proj1 Hh) as Hh1. apply Forall_app in Hh1 as [_ Hh1].
    destruct (accept_step pending f m l Hfo (Forall_inv Hh1) Hf) as (pending' & Ha & Hp & Ho).
    pose proof (holds_step pending fs1 f fs2 pending' Hnd Hh Hp Ho) as Hh'.
    pose proof (remaining_advance f m l Hf) as Hr.
    destruct (IH pending' (fs1 ++ advance f :: fs2)) as (frames & Hacc & Hperm); try done.
    + rewrite map_app. cbn [map]. by rewrite Hr, H2.
    + apply Forall_app. split; [done|]. by constructor.
    + by rewrite map_app in *.
    + cbn [accept_all]. rewrite Ha, Hacc. eexists. split; [reflexivity|].
      rewrite awaited_app in *. unfold awaited at 2 in Hperm. unfold awaited at 2. cbn [List.filter] in *.
      rewrite Hr in Hperm. rewrite Hf. fold (awaited fs2) in *. destruct l as [|x l]; [|exact Hperm].
      cbn [map]. fold (awaited fs2). rewrite Hperm. apply Permutation_middle.
Qed.

(** All the messages of one frame, one after the other. *)
Lemma accept_frame pending id frame :
  0 <= id < 2 ^ 32 -> sendable frame -> pending !! id = None ->
  accept_all pending (messages id frame) = (pending, [frame]).
Proof.
  intros Hid Hs Hp.
  assert (Hall : forall ms p f, flight_ok f -> p !! f.(if_id) = held f -> remaining f = ms ->
    exists p', accept_all p ms = (p', match ms with [] => [] | _ => [f.(if_frame)] end) /\
      p' !! f.(if_id) = None /\ forall j, j <> f.(if_id) -> p' !! j = p !! j).
  { induction ms as [|m ms IH]; intros p f Hok Hh Hr.
    - exists p. split_and!; [done| |done]. rewrite Hh. by apply held_none.
    - destruct (accept_step p f m ms Hok Hh Hr) as (p1 & Ha & Hp1 & Ho).
      destruct (IH p1 (advance f)) as (p2 & Ha2 & Hp2 & Ho2);
        [done|done|by apply (remaining_advance _ m)|].
      exists p2. cbn [accept_all]. rewrite Ha, Ha2. cbn [advance if_id if_frame] in *. split_and!; [|done|].
      + by destruct ms.
      + intros j Hj. by rewrite Ho2, Ho. }
  destruct (Hall (messages id frame) pending (mkInFlight id frame 0)) as (p' & Ha & Hn & Ho); [done| |done|].
  - cbn [if_id]. rewrite Hp. unfold held. cbn [if_sent]. by rewrite orb_true_r.
  - rewrite Ha. f_equal.
    + apply map_eq. intros j. destruct (decide (j = id)) as [->|Hj]; [|by apply Ho]. cbn in Hn. by rewrite Hn, Hp.
    + destruct (messages id frame) eqn:Em; [|done]. exfalso.
      destruct (fits frame) eqn:Hf; [by rewrite messages_whole in Em|].
      pose proof (fragments_bound frame Hs Hf). rewrite messages_fragments in Em by done.
      apply (f_equal length) in Em. rewrite length_map, length_seq in Em. simpl in Em. lia.
Qed.
End Flights.

(** * The codec of a pipe *)

(** The frames of a sender, framed one after the other. *)
Fixpoint send_all (codec : ControlCodec) (frames : list bytes) (maxMessageSize : Z)
    : ControlCodec * res (list bytes) :=
  match frames with
  | [] => (codec, Ok [])
  | frame :: rest =>
      let '(codec, sent) := codec_frame codec frame maxMessageSize in
      match sent with
      | Throw e => (codec, Throw e)
      | Ok ms => let '(codec, more) := send_all codec rest maxMessageSize in (codec, let! more := more in Ok (ms ++ more))
      end
  end.

Fixpoint receive_all (codec : ControlCodec) (messages : list bytes) : ControlCodec * list bytes :=
  match messages with
  | [] => (codec, [])
  | m :: rest =>
      let '(codec, out) := codec_accept codec m in
      let '(codec, outs) := receive_all codec rest in
      (codec, match out with Some frame => frame :: outs | None => outs end)
  end.

Lemma receive_all_accept codec ms :
  receive_all codec ms =
  (mkControlCodec codec.(cc_seq) (accept_all codec.(cc_defrag) ms).1, (accept_all codec.(cc_defrag) ms).2).
Proof.
  revert codec; induction ms as [|m ms IH]; intros [s p]; cbn [receive_all accept_all cc_seq cc_defrag]; [done|].
  unfold codec_accept. cbn [cc_defrag cc_seq]. destruct (accept p m) as [p' o]. rewrite IH. cbn [cc_defrag cc_seq].
  by destruct (accept_all p' ms).
Qed.

Lemma fragment_bounded frame cm id total k : 0 < cm -> byteLength (fragment frame cm id total k) <= cm + FRAGMENT_HEADER.
Proof.
  intros Hc. pose proof (chunk_at_length frame cm Hc k) as Hl.
  change (byteLength (fragment frame cm id total k)) with (Z.of_nat (9 + length (chunk_at frame cm k))).
  unfold byteLength, FRAGMENT_HEADER in *. lia.
Qed.

Lemma messages_bounded max id frame : 10 <= max -> sendable max frame -> 0 <= id < 2 ^ 32 ->
  Forall (fun m => byteLength m <= max) (messages max id frame).
Proof.
  intros Hm Hs Hid. destruct (fits max frame) eqn:Hf.
  - rewrite messages_whole by done. constructor; [|done]. unfold fits in Hf. apply Z.leb_le in Hf.
    unfold byteLength in *. cbn [length]. lia.
  - rewrite messages_fragments by done. apply List.Forall_forall. intros m Hin.
    apply in_map_iff in Hin as (k & <- & _).
    pose proof (fragment_bounded frame (chunk_max max) id (fragments max frame) k (chunk_max_pos max)).
    unfold chunk_max, FRAGMENT_HEADER in *. lia.
Qed.

Lemma uint32_range z : 0 <= uint32 z < 2 ^ 32.
Proof. by apply Z.mod_pos_bound. Qed.

(** What one sender sends reaches a receiver with nothing pending as it was sent. *)
Lemma codec_delivers max frames sender : Forall (sendable max) frames ->
  exists sender' ms, send_all sender frames max = (sender', Ok ms) /\
    (10 <= max -> Forall (fun m => byteLength m <= max) ms) /\ accept_all ∅ ms = (∅, frames).
Proof.
  intros Hs. revert sender. induction Hs as [|frame frames Hf Hs IH]; intros sender; cbn [send_all].
  - by exists sender, [].
  - unfold codec_frame. cbn zeta. set (id := uint32 (cc_seq sender + 1)). pose proof (uint32_range (cc_seq sender + 1)) as Hid.
    fold id in Hid. rewrite frame_ok_messages by done.
    destruct (IH (mkControlCodec id (cc_defrag sender))) as (sender' & ms & -> & Hb & Ha).
    eexists _, _. split; [reflexivity|]. split.
    + intros Hm. apply Forall_app. split; [by apply messages_bounded|by apply Hb].
    + rewrite accept_all_app, (accept_frame max) by done. by rewrite Ha.
Qed.

(** * Session frames *)

Definition is_str (v : val) : bool := match v with VStr _ => true | _ => false end.

(** An object with a known tag, and a session id unless it is of the pipe. *)
Definition session_frame (v : val) : Prop :=
  exists tag, v.!"t" = VStr tag /\ In tag FRAME_TAGS /\ (In tag ["ping"; "pong"] \/ is_str v.!"sid" = true).

Lemma in_existsb tag l : existsb (String.eqb tag) l = true <-> In tag l.
Proof.
  rewrite existsb_exists. split.
  - intros (x & Hx & ->%String.eqb_eq). done.
  - intros H. exists tag. split; [done|apply String.eqb_refl].
Qed.

(** A text is accepted exactly when it is the text of a session frame. *)
Lemma decode_spec s v : decodeControlFrame s = Ok v <-> json_parse s = Ok v /\ session_frame v.
Proof.
  unfold decodeControlFrame. split.
  - destruct (json_parse s) as [p|e]; [|done]. cbn [res_bind].
    destruct (p.!"t") eqn:Ht; try done. destruct (negb (is_object p)); [done|].
    destruct (negb (existsb (String.eqb s0) FRAME_TAGS)) eqn:Hin; [done|].
    apply negb_false_iff, in_existsb in Hin.
    fold (is_str p.!"sid"). destruct (is_str p.!"sid") eqn:Hs.
    + rewrite andb_false_r. intros [= ->]. split; [done|]. exists s0. auto.
    + rewrite andb_true_r. destruct ((s0 <>s? "ping") && (s0 <>s? "pong")) eqn:Hp; [done|].
      intros [= ->]. split; [done|]. exists s0. split_and!; [done|done|]. left.
      apply andb_false_iff in Hp as [Hp|Hp]; apply negb_false_iff, String.eqb_eq in Hp as ->; simpl; auto.
  - intros [-> (tag & Ht & Hin & Hsid)]. cbn [res_bind]. rewrite Ht.
    assert (Ho : is_object v = true) by (by destruct v).
    rewrite Ho, (proj2 (in_existsb tag FRAME_TAGS) Hin). cbn [negb]. fold (is_str v.!"sid").
    destruct Hsid as [Hp | ->]; [|by rewrite andb_false_r].
    apply in_existsb in Hp. simpl in Hp. rewrite orb_false_r in Hp. apply orb_true_iff in Hp as [-> | ->];
      cbn [negb andb]; by rewrite ?andb_false_r.
Qed.

Lemma decode_encoded v : json_val v -> session_frame v ->
  decodeControlFrame (textDecode (textEncode (encodeControlFrame v))) = Ok v.
Proof. intros Hv Hs. apply decode_spec. split; [by apply json_bytes_parse|done]. Qed.

(** * Chunked writes *)

Lemma write_chunks_spec data max : 0 < max -> forall fuel offset,
  0 <= offset -> (Z.to_nat (byteLength data - offset) < fuel)%nat ->
  exists pieces, write_chunks fuel data max offset = Some pieces /\
    concat pieces = drop (Z.to_nat offset) data /\ Forall (fun p => 0 < byteLength p <= max) pieces.
Proof.
  intros Hm. induction fuel as [|fuel IH]; intros offset Ho Hf; [lia|]. cbn [write_chunks].
  destruct (Z.ltb_spec offset (byteLength data)) as [Hlt|Hge].
  - destruct (IH (offset + max)) as (pieces & -> & Hc & Hb); [lia|lia|].
    eexists. split; [reflexivity|]. cbn [concat]. rewrite Hc.
    set (n := Z.to_nat (Z.min (offset + max) (byteLength data) - offset)).
    assert (Hp : subarray data offset (Z.min (offset + max) (byteLength data)) = take n (drop (Z.to_nat offset) data)) by done.
    rewrite Hp. split.
    + assert (Hd : drop (Z.to_nat (offset + max)) data = drop n (drop (Z.to_nat offset) data)).
      { rewrite drop_drop. unfold n, byteLength in *. destruct (Z.le_gt_cases (offset + max) (Z.of_nat (length data))).
        - f_equal. lia.
        - rewrite !drop_ge; [done|lia|lia]. }
      by rewrite Hd, take_drop.
    + constructor; [|done]. unfold byteLength in *. rewrite length_take, length_drop. lia.
  - exists []. split; [done|]. split; [|constructor]. cbn. rewrite drop_ge; [done|]. unfold byteLength in *. lia.
Qed.

(** Enough fuel gives the pieces, which do not depend on it. *)
Lemma write_chunks_fuel data max offset : forall fuel fuel' ps,
  write_chunks fuel data max offset = Some ps -> (fuel <= fuel')%nat -> write_chunks fuel' data max offset = Some ps.
Proof.
  intros fuel. revert offset. induction fuel as [|fuel IH]; intros offset fuel' ps H Hle; [done|].
  destruct fuel' as [|fuel']; [lia|]. cbn [write_chunks] in *. destruct (offset <? byteLength data); [|done].
  destruct (write_chunks fuel data max (offset + max)) as [ps'|] eqn:E; [|done].
  by rewrite (IH _ fuel' ps') by (done || lia).
Qed.

Lemma write_chunks_all data max : 0 < max ->
  exists pieces,
    (forall fuel, (length data < fuel)%nat -> write_chunks fuel data max 0 = Some pieces) /\
    concat pieces = data /\ Forall (fun p => byteLength p <= max) pieces.
Proof.
  intros Hm. destruct (write_chunks_spec data max Hm (S (length data)) 0) as (ps & Hw & Hc & Hb); [lia| |].
  - unfold byteLength. lia.
  - exists ps. split_and!.
    + intros fuel Hf. by apply (write_chunks_fuel data max 0 (S (length data))).
    + exact Hc.
    + eapply Forall_impl; [|exact Hb]. cbv beta. lia.
Qed.

Module Control.
(** C36: session frames sent over a pipe arrive as they were sent. Framing them one
    after the other succeeds, with no message over the channel's limit, and a receiver
    with nothing pending hands out exactly their texts, in order, each of which the
    session protocol decodes to the frame sent; nothing stays pending. *)
Theorem session_frames_delivered frames max sender receiver :
  Forall json_val frames -> Forall session_frame frames ->
  Forall (fun v => sendable max (textEncode (encodeControlFrame v))) frames ->
  receiver.(cc_defrag) = ∅ ->
  exists sender' ms receiver' outs,
    send_all sender (map (fun v => textEncode (encodeControlFrame v)) frames) max = (sender', Ok ms) /\
    (10 <= max -> Forall (fun m => byteLength m <= max) ms) /\
    receive_all receiver ms = (receiver', outs) /\ receiver'.(cc_defrag) = ∅ /\
    map (fun out => decodeControlFrame (textDecode out)) outs = map Ok frames.
Proof.
  intros Hj Hf Hs Hr. apply (Forall_map (fun v => textEncode (encodeControlFrame v))) in Hs.
  destruct (codec_delivers max _ sender Hs) as (sender' & ms & Hsend & Hb & Ha).
  eexists sender', ms, _, _. split; [exact Hsend|]. split; [exact Hb|].
  rewrite receive_all_accept, Hr, Ha. split; [reflexivity|]. split; [done|]. cbn [snd].
  clear Hs Hsend Hb Ha. induction Hj as [|v frames Hv Hj IH]; [done|]. cbn [map].
  rewrite decode_encoded by (done || by apply (Forall_inv Hf)).
  f_equal. apply IH. by apply (Forall_inv_tail Hf).
Qed.

(** the fragments of frames with distinct ids stay distinct however they are
    interleaved. In any order of the messages that keeps each frame's own, the receiver
    hands out every frame once, as it was sent, and ends with nothing pending. *)
Theorem interleaved_frames_separate max frames ms :
  NoDup (map fst frames) -> Forall (fun f => 0 <= f.1 < 2 ^ 32 /\ sendable max f.2) frames ->
  interleaves (map (fun f => messages max f.1 f.2) frames) ms ->
  exists outs, accept_all ∅ ms = (∅, outs) /\ Permutation outs (map snd frames).
Proof.
  intros Hnd Hok Hi. set (fs := map (fun f => mkInFlight f.1 f.2 0) frames).
  assert (Hids : map if_id fs = map fst frames) by (unfold fs; rewrite map_map; done).
  assert (Hrem : map (fun f => messages max f.1 f.2) frames = map (remaining max) fs)
    by (unfold fs; rewrite map_map; done).
  assert (Hfl : Forall (flight_ok max) fs) by (unfold fs; by apply Forall_map).
  destruct (accept_interleaved max _ ms Hi ∅ fs) as (outs & Ha & Hp); [done|done|by rewrite Hids| |].
  - split; [|intros j s; by rewrite lookup_empty].
    unfold fs. apply Forall_map, List.Forall_forall. intros f _. rewrite lookup_empty.
    unfold held. cbn [if_sent]. by rewrite orb_true_r.
  - exists outs. split; [done|]. rewrite Hp. unfold awaited, fs. clear Hi Hids Hrem Hfl Ha Hp Hnd fs.
    induction frames as [|f frames IH]; [done|]. cbn [map List.filter].
    destruct (remaining max (mkInFlight f.1 f.2 0)) eqn:E.
    + exfalso. pose proof (Forall_inv Hok) as [Hid Hs].
      pose proof (accept_frame max ∅ f.1 f.2 Hid Hs (lookup_empty _)) as Ha.
      by change (messages max f.1 f.2 = []) in E; rewrite E in Ha.
    + cbn [map if_frame]. constructor. apply IH. by apply Forall_inv_tail in Hok.
Qed.

(** Framing fails exactly on a frame that neither fits a message nor makes at most
    65535 fragments, for any limit above the fragment header; otherwise every message
    is within the limit, and there are as few as the limit allows: one for a frame
    that fits, else one per [max - 9] bytes. *)
Theorem framing_bounds max codec frame :
  10 <= max ->
  let '(codec', sent) := codec_frame codec frame max in
  codec'.(cc_seq) = (codec.(cc_seq) + 1) mod 2 ^ 32 /\ codec'.(cc_defrag) = codec.(cc_defrag) /\
  match sent with
  | Throw _ => max <= byteLength frame /\ 65535 * (max - 9) < byteLength frame
  | Ok ms =>
      Forall (fun m => byteLength m <= max) ms /\
      (byteLength frame < max -> length ms = 1%nat) /\
      (max <= byteLength frame ->
         (Z.of_nat (length ms) - 1) * (max - 9) < byteLength frame <= Z.of_nat (length ms) * (max - 9))
  end.
Proof.
  intros Hm. unfold codec_frame. cbn zeta. pose proof (uint32_range (cc_seq codec + 1)) as Hid.
  set (id := uint32 (cc_seq codec + 1)) in *. cbn [cc_seq cc_defrag].
  assert (Hcm : chunk_max max = max - 9) by (unfold chunk_max, FRAGMENT_HEADER; lia).
  pose proof (fragment_count_bound frame (max - 9) ltac:(lia)) as Hfc.
  destruct (fits max frame) eqn:Hf.
  - assert (Hs : sendable max frame) by (by left). rewrite frame_ok_messages by done.
    pose proof (messages_bounded max id frame Hm Hs Hid). rewrite messages_whole in * by done.
    unfold fits in Hf. apply Z.leb_le in Hf. split_and!; [done|done|done|done|lia].
  - unfold fits in Hf. apply Z.leb_gt in Hf.
    destruct (Z.le_gt_cases (byteLength frame) (65535 * (max - 9))) as [Hle|Hgt].
    + assert (Hs : sendable max frame) by (right; rewrite Hcm; lia). rewrite frame_ok_messages by done.
      split_and!; [done|done|by apply messages_bounded|lia|]. intros _.
      assert (Hff : fits max frame = false) by (unfold fits; apply Z.leb_gt; lia).
      pose proof (fragments_bound max frame Hs Hff) as Hb.
      rewrite messages_fragments, length_map, length_seq, Z2Nat.id by (done || lia).
      unfold fragments in *. rewrite Hcm in *. set (n := fragment_count _ _) in *.
      split; [|by apply Hfc; lia].
      apply Z.nle_gt. intros Hc. apply Hfc in Hc; lia.
    + unfold frameControlMessage. rewrite (proj2 (Z.leb_gt _ _)), Hcm by lia.
      rewrite (proj2 (Z.ltb_lt _ _)); [split_and!; try done; lia|].
      apply Z.nle_gt. intros Hc. apply Hfc in Hc; lia.
Qed.

(** The frames of the bulk channel, each written in pieces, reach the receiver's
    decoder as they were sent: the writes end, no piece is over the chunk size or the
    channel's limit, and the pieces of all frames, in the order sent, decode to the
    frames with nothing left in the buffer. *)
Theorem bulk_frames_delivered frames chunkSize maxMessageSize :
  0 < chunkSize -> 0 <= maxMessageSize -> Forall stream_frame_ok frames ->
  exists pieces,
    Forall2 (fun f ps => forall fuel, (length (enc_stream_frame f) < fuel)%nat ->
               writeChunked fuel (enc_stream_frame f) chunkSize maxMessageSize = Some ps) frames pieces /\
    Forall (fun p => byteLength p <= chunkSize /\ (maxMessageSize <> 0 -> byteLength p <= maxMessageSize)) (concat pieces) /\
    forall fuel, (length (concat (concat pieces)) < fuel)%nat ->
      pushAll next_stream_frame collect fuel [] [] (concat pieces) = Some (mkDrained [] frames None).
Proof.
  intros Hc Hm Hok. unfold writeChunked. set (max := chunk_size chunkSize maxMessageSize).
  assert (Hmax : 0 < max /\ max <= chunkSize /\ (maxMessageSize <> 0 -> max <= maxMessageSize)).
  { unfold max, chunk_size. destruct (Z.eqb_spec maxMessageSize 0); lia. }
  assert (Hp : exists pieces,
    Forall2 (fun f ps => forall fuel, (length (enc_stream_frame f) < fuel)%nat ->
      write_chunks fuel (enc_stream_frame f) max 0 = Some ps) frames pieces /\
    Forall (fun p => byteLength p <= max) (concat pieces) /\
    concat (concat pieces) = wire enc_stream_frame frames).
  { clear Hok. induction frames as [|f frames (pieces & H1 & H2 & H3)]; [by exists []|].
    destruct (write_chunks_all (enc_stream_frame f) max (proj1 Hmax)) as (ps & Hw & Hcc & Hb).
    exists (ps :: pieces). split_and!; [by constructor| |].
    - cbn [concat]. by apply Forall_app.
    - cbn [concat]. rewrite concat_app, Hcc, H3. done. }
  destruct Hp as (pieces & H1 & H2 & H3). exists pieces. split; [done|]. split.
  - eapply Forall_impl; [|exact H2]. cbv beta. intros p Hpm. lia.
  - intros fuel Hf.
    destruct (pushAll_frames next_stream_frame enc_stream_frame stream_frame_ok collect frames (concat pieces)
      [] fuel [] Hok H3 eq_refl Hf) as ([buf s e] & Hd & Hs & Hb).
    rewrite feed_collect in Hs. cbn in Hs, Hb. injection Hs as -> ->. by rewrite Hd, Hb.
Qed.

(** ** Witnesses *)

Definition sample_rpc : val := VObj [("t", VStr "rpc"); ("sid", VStr "s1"); ("envelope", VObj [("n", VNum 7)])].

(** At 30 bytes a message the ping is sent whole and the call in fragments. *)
Lemma session_frames_delivered_witness :
  exists sender' ms receiver' outs,
    send_all createControlCodec
      (map (fun v => textEncode (encodeControlFrame v)) [VObj [("t", VStr "ping"); ("ts", VNum 1)]; sample_rpc]) 30
      = (sender', Ok ms) /\
    (10 <= 30 -> Forall (fun m => byteLength m <= 30) ms) /\
    receive_all createControlCodec ms = (receiver', outs) /\ receiver'.(cc_defrag) = ∅ /\
    map (fun out => decodeControlFrame (textDecode out)) outs
      = map Ok [VObj [("t", VStr "ping"); ("ts", VNum 1)]; sample_rpc].
Proof.
  apply session_frames_delivered.
  - constructor; [|constructor; [|constructor]]; apply json_val_obj;
      (split; [by apply (bool_decide_unpack _)|]); repeat (constructor; [exact I|]); try constructor.
    + apply json_val_obj. split; [by apply (bool_decide_unpack _)|]. by repeat constructor.
    + constructor.
  - constructor; [|constructor; [|constructor]].
    + exists "ping". split; [reflexivity|]. split; [|left]; apply in_existsb; reflexivity.
    + exists "rpc". split; [reflexivity|]. split; [apply in_existsb; reflexivity|right; reflexivity].
  - constructor; [left; reflexivity|constructor; [|constructor]].
    right. split; vm_compute; [reflexivity|discriminate].
  - reflexivity.
Defined.

Definition sample_texts : list (Z * bytes) := [(1, textEncode "hello, world"); (2, textEncode "interleaving")].

(** Four fragments of one frame and four of the other, by turns. *)
Definition sample_turns : list bytes :=
  match map (fun f => messages 12 f.1 f.2) sample_texts with
  | [[a1; a2; a3; a4]; [b1; b2; b3; b4]] => [b1; a1; a2; b2; b3; a3; a4; b4]
  | _ => []
  end.

Lemma interleaved_frames_separate_witness :
  length sample_turns = 8%nat /\
  exists outs, accept_all ∅ sample_turns = (∅, outs) /\ Permutation outs (map snd sample_texts).
Proof.
  split; [vm_compute; reflexivity|]. apply (interleaved_frames_separate 12 sample_texts sample_turns).
  - apply (bool_decide_unpack _). reflexivity.
  - constructor; [|constructor; [|constructor]]; (split; [split; [discriminate|reflexivity]|]); right;
      (split; vm_compute; [reflexivity|discriminate]).
  - apply (interleaves_take [_]), (interleaves_take []), (interleaves_take []), (interleaves_take [_]),
      (interleaves_take [_]), (interleaves_take []), (interleaves_take []), (interleaves_take [_]),
      interleaves_nil.
    constructor; [reflexivity|]. constructor; [reflexivity|constructor].
Defined.

Lemma framing_bounds_witness :
  let '(codec', sent) := codec_frame createControlCodec (textEncode "hello, world") 12 in
  codec'.(cc_seq) = (0 + 1) mod 2 ^ 32 /\ codec'.(cc_defrag) = ∅ /\
  match sent with
  | Throw _ => 12 <= 12 /\ 65535 * (12 - 9) < 12
  | Ok ms =>
      Forall (fun m => byteLength m <= 12) ms /\ (12 < 12 -> length ms = 1%nat) /\
      (12 <= 12 -> (Z.of_nat (length ms) - 1) * (12 - 9) < 12 <= Z.of_nat (length ms) * (12 - 9))
  end.
Proof. apply (framing_bounds 12 createControlCodec (textEncode "hello, world")). discriminate. Defined.

Lemma bulk_frames_delivered_witness :
  exists pieces,
    Forall2 (fun f ps => forall fuel, (length (enc_stream_frame f) < fuel)%nat ->
               writeChunked fuel (enc_stream_frame f) 8 5 = Some ps)
      [(1, (FRAME_DATA, textEncode "some bytes")); (2, (FRAME_END, []))] pieces /\
    Forall (fun p => byteLength p <= 8 /\ (5 <> 0 -> byteLength p <= 5)) (concat pieces) /\
    forall fuel, (length (concat (concat pieces)) < fuel)%nat ->
      pushAll next_stream_frame collect fuel [] [] (concat pieces)
      = Some (mkDrained [] [(1, (FRAME_DATA, textEncode "some bytes")); (2, (FRAME_END, []))] None).
Proof.
  apply bulk_frames_delivered; [reflexivity|discriminate|].
  repeat (constructor; [vm_compute; intuition congruence|]). constructor.
Defined.
End Control.
