(* ===== verification/BuildGraph.v ===== *)
(** The package graph of the build system (src/server/buildV2/packageGraph.ts): the
    discovery of the buildable units of a workspace and of their internal
    dependencies, the topological order with its cycle check, and the units that
    depend on a unit. What the file system holds is an argument: the entries of each
    scanned directory with their parsed package.json or template.json. *)
From S2P Require Import Prelude Dict JsValue JsText.

Inductive NodeKind := KPackage | KPanel | KWorker | KExtension | KApp | KTemplate.

#[export] Instance NodeKind_eq_dec : EqDecision NodeKind.
Proof. solve_decision. Defined.

Record GraphNode := mkNode {
  gn_path : string;
  gn_relativePath : string;
  gn_name : string;
  gn_kind : NodeKind;
  gn_dependencies : dict string;
  gn_dependencyOverrides : dict string;
  gn_internalDeps : list string;
  gn_dependencyErrors : option (list string);
  gn_exports : option (list string);
  gn_manifest : val
}.

Definition with_deps (node : GraphNode) (deps : list string) (errors : option (list string)) : GraphNode :=
  {| gn_path := node.(gn_path); gn_relativePath := node.(gn_relativePath); gn_name := node.(gn_name);
     gn_kind := node.(gn_kind); gn_dependencies := node.(gn_dependencies);
     gn_dependencyOverrides := node.(gn_dependencyOverrides); gn_internalDeps := deps;
     gn_dependencyErrors := errors; gn_exports := node.(gn_exports); gn_manifest := node.(gn_manifest) |}.

Record PackageGraph := mkGraph {
  pg_nodes : dict GraphNode;
  pg_topoOrder : list string
}.

Definition emptyGraph : PackageGraph := {| pg_nodes := []; pg_topoOrder := [] |}.

Definition with_nodes (graph : PackageGraph) (nodes : dict GraphNode) : PackageGraph :=
  {| pg_nodes := nodes; pg_topoOrder := graph.(pg_topoOrder) |}.

Definition addNode (graph : PackageGraph) (node : GraphNode) : PackageGraph :=
  with_nodes graph (dict_set node.(gn_name) node graph.(pg_nodes)).

Definition graph_get (graph : PackageGraph) (name : string) : res GraphNode :=
  match dict_get name graph.(pg_nodes) with
  | Some node => Ok node
  | None => Throw ("Unknown package: " ^^ name)
  end.

Definition tryGet (graph : PackageGraph) (name : string) : option GraphNode := dict_get name graph.(pg_nodes).
Definition graph_has (graph : PackageGraph) (name : string) : bool := dict_has name graph.(pg_nodes).
Definition allNodes (graph : PackageGraph) : list GraphNode := dict_values graph.(pg_nodes).

Fixpoint get_all (graph : PackageGraph) (names : list string) : res (list GraphNode) :=
  match names with
  | [] => Ok []
  | name :: rest =>
      let! node := graph_get graph name in
      let! nodes := get_all graph rest in
      Ok (node :: nodes)
  end.

Definition topologicalOrder (graph : PackageGraph) : res (list GraphNode) := get_all graph graph.(pg_topoOrder).

(** * The topological order *)

Definition set_has (name : string) (s : list string) : bool := existsb (String.eqb name) s.
Definition set_delete (name : string) (s : list string) : list string := List.filter (fun x => x <>s? name) s.

(** [stack.slice(stack.indexOf(name))]; the name is on the stack. *)
Fixpoint from_name (name : string) (stack : list string) : list string :=
  match stack with
  | [] => []
  | x :: rest => if x =s? name then stack else from_name name rest
  end.

Record Topo := mkTopo {
  tp_visited : list string;
  tp_visiting : list string;
  tp_order : list string
}.

(** [visit]; [None] when the depth exceeds the fuel. The stack is what is on the
    shared array at the call. *)
Fixpoint visit (fuel : nat) (graph : PackageGraph) (name : string) (stack : list string) (st : Topo)
    : option (res Topo) :=
  match fuel with
  | O => None
  | S fuel' =>
      if set_has name st.(tp_visited) then Some (Ok st)
      else if set_has name st.(tp_visiting) then
        Some (Throw ("Dependency cycle detected: "
                     ^^ String.concat " → " (from_name name stack ++ [name])))
      else
        let st := {| tp_visited := st.(tp_visited); tp_visiting := st.(tp_visiting) ++ [name];
                     tp_order := st.(tp_order) |} in
        match graph_get graph name with
        | Throw e => Some (Throw e)
        | Ok node =>
            match
              (fix visit_deps (deps : list string) (st : Topo) : option (res Topo) :=
                 match deps with
                 | [] => Some (Ok st)
                 | dep :: deps' =>
                     match visit fuel' graph dep (stack ++ [name]) st with
                     | Some (Ok st') => visit_deps deps' st'
                     | r => r
                     end
                 end) node.(gn_internalDeps) st
            with
            | Some (Ok st) =>
                Some (Ok {| tp_visited := st.(tp_visited) ++ [name];
                            tp_visiting := set_delete name st.(tp_visiting);
                            tp_order := st.(tp_order) ++ [name] |})
            | r => r
            end
        end
  end.

Fixpoint visit_roots (fuel : nat) (graph : PackageGraph) (names : list string) (st : Topo)
    : option (res Topo) :=
  match names with
  | [] => Some (Ok st)
  | name :: rest =>
      match visit fuel graph name [] st with
      | Some (Ok st') => visit_roots fuel graph rest st'
      | r => r
      end
  end.

Definition computeTopologicalOrder (fuel : nat) (graph : PackageGraph) : option (res PackageGraph) :=
  match visit_roots fuel graph (dict_keys graph.(pg_nodes)) (mkTopo [] [] []) with
  | Some (Ok st) => Some (Ok {| pg_nodes := graph.(pg_nodes); pg_topoOrder := st.(tp_order) |})
  | Some (Throw e) => Some (Throw e)
  | None => None
  end.

(** * Reverse dependencies *)

(** One pass over the nodes for the dependents of [current]; the last of the queue is
    its head here. *)
Definition collect_dependents (nodes : list GraphNode) (current : string)
    (result queue : list string) : list string * list string :=
  fold_left
    (fun '(result, queue) node =>
       if set_has current node.(gn_internalDeps) && negb (set_has node.(gn_name) result)
       then (result ++ [node.(gn_name)], node.(gn_name) :: queue)
       else (result, queue))
    nodes (result, queue).

Fixpoint reverse_loop (fuel : nat) (nodes : list GraphNode) (result queue : list string)
    : option (list string) :=
  match fuel with
  | O => None
  | S fuel' =>
      match queue with
      | [] => Some result
      | current :: queue' =>
          let '(result, queue) := collect_dependents nodes current result queue' in
          reverse_loop fuel' nodes result queue
      end
  end.

Definition getReverseDeps (fuel : nat) (graph : PackageGraph) (name : string) : option (list string) :=
  reverse_loop fuel (allNodes graph) [] [name].

(** * Discovery *)

Definition WORKSPACE_SCOPES : list string :=
  ["@workspace/"; "@workspace-panels/"; "@workspace-about/"; "@workspace-workers/"; "@workspace-skills/";
   "@workspace-extensions/"; "@workspace-apps/"].

Definition isInternalDep (name : string) : bool := existsb (startsWith name) WORKSPACE_SCOPES.

Definition validateInternalDepSpec (depName rawSpec : string) : option string :=
  let raw := trim rawSpec in
  let normalized := toLowerCase raw in
  if (raw =s? "") || (raw =s? "*") || (normalized =s? "workspace:*") || (normalized =s? "workspace:")
  then None
  else Some ("Internal dependency " ^^ depName
             ^^ " must use workspace:*; GAD workspace builds do not support per-dependency refs").

Definition recordInternalDepSpecError (errors : option (list string)) (depName rawSpec : string)
    : option (list string) :=
  match validateInternalDepSpec depName rawSpec with
  | None => errors
  | Some error =>
      let l := default [] errors in
      if set_has error l then Some l else Some (l ++ [error])
  end.

Record PackageJson := mkPackageJson {
  pj_name : option string;
  pj_dependencies : option (dict string);
  pj_peerDependencies : option (dict string);
  pj_natstack : option val;
  pj_overrides : val;
  pj_pnpmOverrides : val;
  pj_exports : option (list (string * val))
}.

Definition normalizeSimpleOverrides (value : val) : dict string :=
  if negb (is_record value) then []
  else
    fold_left (fun result '(name, version) =>
                 match version with VStr v => dict_set name v result | _ => result end)
      (fields value) [].

Definition packageManagerOverrides (pkg : PackageJson) : dict string :=
  dict_merge (normalizeSimpleOverrides pkg.(pj_overrides)) (normalizeSimpleOverrides pkg.(pj_pnpmOverrides)).

Definition declaredExportSubpaths (exports : list (string * val)) : list string :=
  let subpaths := List.filter (fun k => (k =s? ".") || startsWith k "./") (map fst exports) in
  match subpaths with [] => ["."] | _ => subpaths end.

(** An entry of a scanned directory; [de_pkg] is what [readPackageJson] gives. *)
Record DirEntry := mkDirEntry {
  de_name : string;
  de_isDirectory : bool;
  de_pkg : option PackageJson
}.

Definition scan_entry (root section : string) (kind : NodeKind) (entry : DirEntry) : option GraphNode :=
  if negb entry.(de_isDirectory) || startsWith entry.(de_name) "." then None
  else
    match entry.(de_pkg) with
    | None => None
    | Some pkg =>
        let name := default "" pkg.(pj_name) in
        if name =s? "" then None
        else
          let allDeps := dict_merge (default [] pkg.(pj_peerDependencies)) (default [] pkg.(pj_dependencies)) in
          let '(internalDeps, errors) :=
            fold_left
              (fun '(deps, errors) '(depName, depSpec) =>
                 if isInternalDep depName
                 then (deps ++ [depName], recordInternalDepSpecError errors depName depSpec)
                 else (deps, errors))
              allDeps ([], None) in
          let relativePath := section ^^ "/" ^^ entry.(de_name) in
          Some {| gn_path := root ^^ "/" ^^ relativePath; gn_relativePath := relativePath;
                  gn_name := name; gn_kind := kind; gn_dependencies := allDeps;
                  gn_dependencyOverrides := packageManagerOverrides pkg;
                  gn_internalDeps := internalDeps; gn_dependencyErrors := errors;
                  gn_exports := option_map declaredExportSubpaths pkg.(pj_exports);
                  gn_manifest := default (VObj []) pkg.(pj_natstack) |}
    end.

Definition scanDirectory (root section : string) (kind : NodeKind) (entries : list DirEntry) : list GraphNode :=
  omap (scan_entry root section kind) entries.

(** A directory under templates/; [te_config] is absent without a template.json, and
    empty when it does not parse. *)
Record TemplateEntry := mkTemplateEntry {
  te_name : string;
  te_isDirectory : bool;
  te_config : option val
}.

Definition scan_template (root : string) (entry : TemplateEntry) : option GraphNode :=
  if negb entry.(te_isDirectory) || startsWith entry.(te_name) "." then None
  else
    match entry.(te_config) with
    | None => None
    | Some config =>
        let relativePath := "templates/" ^^ entry.(te_name) in
        Some {| gn_path := root ^^ "/" ^^ relativePath; gn_relativePath := relativePath;
                gn_name := "template:" ^^ entry.(te_name); gn_kind := KTemplate;
                gn_dependencies := []; gn_dependencyOverrides := []; gn_internalDeps := [];
                gn_dependencyErrors := None; gn_exports := None;
                gn_manifest := VObj [("framework", config.!"framework")] |}
    end.

Definition scanTemplates (root : string) (entries : list TemplateEntry) : list GraphNode :=
  omap (scan_template root) entries.

(** The directories of a workspace; one that does not exist is empty. *)
Record Workspace := mkWorkspace {
  ws_root : string;
  ws_packages : list DirEntry;
  ws_panels : list DirEntry;
  ws_apps : list DirEntry;
  ws_about : list DirEntry;
  ws_workers : list DirEntry;
  ws_extensions : list DirEntry;
  ws_skills : list DirEntry;
  ws_templates : list TemplateEntry
}.

Definition scanned (ws : Workspace) : list GraphNode :=
  let root := ws.(ws_root) in
  scanDirectory root "packages" KPackage ws.(ws_packages)
  ++ scanDirectory root "panels" KPanel ws.(ws_panels)
  ++ scanDirectory root "apps" KApp ws.(ws_apps)
  ++ scanDirectory root "about" KPanel ws.(ws_about)
  ++ scanDirectory root "workers" KWorker ws.(ws_workers)
  ++ scanDirectory root "extensions" KExtension ws.(ws_extensions)
  ++ scanDirectory root "skills" KPackage ws.(ws_skills)
  ++ scanTemplates root ws.(ws_templates).

(** A loop over [graph.allNodes()] that changes each node; names stay. *)
Definition map_nodes (f : GraphNode -> GraphNode) (graph : PackageGraph) : PackageGraph :=
  with_nodes graph (map (fun '(k, node) => (k, f node)) graph.(pg_nodes)).

(** A dependency on any unit of the graph is internal. *)
Definition inject_internal (graph : PackageGraph) (node : GraphNode) : GraphNode :=
  let '(deps, errors) :=
    fold_left
      (fun '(deps, errors) '(depName, depSpec) =>
         if negb (graph_has graph depName) || set_has depName deps then (deps, errors)
         else (deps ++ [depName], recordInternalDepSpecError errors depName depSpec))
      node.(gn_dependencies) (node.(gn_internalDeps), node.(gn_dependencyErrors)) in
  with_deps node deps errors.

Definition inject_template (graph : PackageGraph) (node : GraphNode) : GraphNode :=
  if bool_decide (node.(gn_kind) <> KPanel) then node
  else
    let add dep := with_deps node (node.(gn_internalDeps) ++ [dep]) node.(gn_dependencyErrors) in
    if truthy node.(gn_manifest).!"template" then
      let templateName := "template:" ^^ to_str node.(gn_manifest).!"template" in
      if graph_has graph templateName then add templateName else node
    else if graph_has graph "template:default" then add "template:default"
    else node.

(** The loop runs over the array it started with. *)
Definition prune_missing (graph : PackageGraph) (node : GraphNode) : GraphNode :=
  with_deps node
    (fold_left (fun deps dep => if graph_has graph dep then deps else set_delete dep deps)
       node.(gn_internalDeps) node.(gn_internalDeps))
    node.(gn_dependencyErrors).

(** The graph before its order is computed. *)
Definition discovered (ws : Workspace) : PackageGraph :=
  let graph := fold_left addNode (scanned ws) emptyGraph in
  let graph := map_nodes (inject_internal graph) graph in
  let graph := map_nodes (inject_template graph) graph in
  map_nodes (prune_missing graph) graph.

Definition discoverPackageGraph (fuel : nat) (ws : Workspace) : option (res PackageGraph) :=
  computeTopologicalOrder fuel (discovered ws).
