(* ===== verification/BuildGraphLaws.v ===== *)
(** Laws of the package graph: the depth-first search behind the topological order,
    the worklist behind the reverse dependencies, and what discovery leaves in the
    graph. *)
From S2P Require Import Prelude Dict JsValue JsText BuildGraph.
From Stdlib Require Import Relations.Relation_Operators.

(** * Sets as lists *)

Lemma set_has_spec x s : set_has x s = true <-> In x s.
Proof.
  unfold set_has. rewrite existsb_exists. split.
  - intros (y & Hy & ->%String.eqb_eq). done.
  - intros H. exists x. split; [done|apply String.eqb_refl].
Qed.

Lemma set_has_false x s : set_has x s = false <-> ~ In x s.
Proof. rewrite <- set_has_spec. by destruct (set_has x s). Qed.

Lemma set_delete_In x y s : In y (set_delete x s) <-> In y s /\ y <> x.
Proof.
  unfold set_delete. rewrite filter_In, negb_true_iff, String.eqb_neq. done.
Qed.

Lemma set_delete_last x s : ~ In x s -> set_delete x (s ++ [x]) = s.
Proof.
  intros Hx. unfold set_delete. rewrite List.filter_app. simpl. rewrite String.eqb_refl, app_nil_r.
  apply forallb_filter_id. apply forallb_forall. intros y Hy.
  apply negb_true_iff, String.eqb_neq. by intros ->.
Qed.

Lemma NoDup_snoc {A} (l : list A) x : List.NoDup l -> ~ In x l -> List.NoDup (l ++ [x]).
Proof.
  intros Hl Hx. apply List.NoDup_app; [done|constructor; [intros []|constructor]|].
  intros y Hy [->|[]]. done.
Qed.

(** * The dependency relation *)

Section Graph.
Context (graph : PackageGraph).

Definition names : list string := dict_keys graph.(pg_nodes).

(** [a] has [b] among its internal dependencies. *)
Definition depends (a b : string) : Prop :=
  exists node, dict_get a graph.(pg_nodes) = Some node /\ In b node.(gn_internalDeps).

(** One node per name, filed under it, and every dependency in the graph. *)
Record graph_wf : Prop := mkGraphWf {
  wf_nodes : dict_wf graph.(pg_nodes);
  wf_names : forall k node, dict_get k graph.(pg_nodes) = Some node -> node.(gn_name) = k;
  wf_closed : forall a b, depends a b -> In b names
}.

Definition depends_on : string -> string -> Prop := clos_trans_1n string depends.

Lemma In_names name : In name names <-> exists node, dict_get name graph.(pg_nodes) = Some node.
Proof.
  unfold names. split.
  - intros Hin. destruct (dict_get name (pg_nodes graph)) as [node|] eqn:E; [by exists node|].
    by apply dict_get_None_keys in E.
  - intros [node Hn]. apply dict_get_In in Hn. by apply (in_map fst) in Hn.
Qed.

(** Each name has its dependencies before it. *)
Definition deps_first (order : list string) : Prop :=
  forall pre name post, order = pre ++ name :: post -> forall dep, depends name dep -> In dep pre.

Lemma deps_first_nil : deps_first [].
Proof. intros pre name post H. by destruct pre. Qed.

Lemma deps_first_snoc order name :
  deps_first order -> (forall dep, depends name dep -> In dep order) -> deps_first (order ++ [name]).
Proof.
  intros Ho Hd pre n post He dep Hdep. destruct post as [|x post _] using rev_ind.
  - apply app_inj_tail in He as [<- <-]. by apply Hd.
  - rewrite app_comm_cons, app_assoc in He. apply app_inj_tail in He as [-> ->].
    by apply (Ho pre n post).
Qed.

Lemma deps_first_on order a b pre post :
  deps_first order -> depends_on a b -> order = pre ++ a :: post -> In b pre.
Proof.
  intros Ho H. revert pre post. induction H as [a b Hab|a b c Hab _ IH]; intros pre post He.
  - by apply (Ho pre a post).
  - destruct (in_split b pre (Ho pre a post He b Hab)) as (p1 & p2 & ->).
    apply in_or_app. left. apply (IH p1 (p2 ++ a :: post)). by rewrite He, <- app_assoc.
Qed.

(** A set of names that can be ordered has no cycle. *)
Lemma deps_first_acyclic order a : List.NoDup order -> deps_first order -> In a order -> ~ depends_on a a.
Proof.
  intros Hnd Ho Hin Hc. apply in_split in Hin as (pre & post & He).
  pose proof (deps_first_on order a a pre post Ho Hc He) as Ha. subst order.
  apply NoDup_remove_2 in Hnd. apply Hnd, in_or_app. by left.
Qed.

(** Consecutive names depend on each other. *)
Fixpoint is_path (l : list string) : Prop :=
  match l with
  | a :: (b :: _) as rest => depends a b /\ is_path rest
  | _ => True
  end.

Lemma is_path_app l1 l2 : is_path (l1 ++ l2) -> is_path l2.
Proof.
  induction l1 as [|a l1 IH]; [done|]. intros H. apply IH. destruct (l1 ++ l2) eqn:E; [done|].
  simpl in H. rewrite E in H. apply H.
Qed.

Lemma is_path_snoc l a b : is_path (l ++ [a]) -> depends a b -> is_path (l ++ [a; b]).
Proof.
  induction l as [|x l IH]; simpl; [done|]. destruct (l ++ [a]) as [|y l'] eqn:E; [by destruct l|].
  intros [Hx Hl] Hab. destruct (l ++ [a; b]) as [|z l''] eqn:E2; [by destruct l|].
  assert (y = z) as <- by (destruct l; simpl in *; congruence). split; [done|]. by apply IH.
Qed.

Lemma is_path_on a l b : is_path (a :: l ++ [b]) -> depends_on a b.
Proof.
  revert a; induction l as [|x l IH]; intros a; simpl.
  - intros [H _]. by constructor.
  - intros [H1 H2]. apply t1n_trans with x; [done|]. by apply IH.
Qed.

(** The cycle the error names. *)
Definition is_cycle (cycle : list string) : Prop :=
  is_path cycle /\ exists a l, cycle = a :: l ++ [a].

Lemma is_cycle_on cycle : is_cycle cycle -> exists a, depends_on a a.
Proof. intros [Hp (a & l & ->)]. exists a. by apply (is_path_on a l a). Qed.

Lemma from_name_suffix name stack :
  In name stack -> exists l rest, from_name name stack = name :: rest /\ stack = l ++ name :: rest.
Proof.
  induction stack as [|x stack IH]; [done|]. simpl. destruct (String.eqb_spec x name) as [->|Hne].
  - intros _. by exists [], stack.
  - intros [->|Hin]; [done|]. destruct (IH Hin) as (l & rest & -> & ->). by exists (x :: l), rest.
Qed.

(** * The depth-first search *)

Definition cycle_message (cycle : list string) : string :=
  "Dependency cycle detected: " ^^ String.concat " → " cycle.

(** Where the search stands: the names done in order, and those on the stack. *)
Definition standing (order stack : list string) : Topo := mkTopo order stack order.

Record search_ok (order stack : list string) : Prop := mkSearchOk {
  so_nodup : List.NoDup (order ++ stack);
  so_known : incl (order ++ stack) names;
  so_first : deps_first order
}.

Inductive Searched (order stack : list string) (goals : list string) : option (res Topo) -> Prop :=
| searched_ok order' :
    search_ok (order ++ order') stack -> incl goals (order ++ order') ->
    Searched order stack goals (Some (Ok (standing (order ++ order') stack)))
| searched_cycle cycle :
    is_cycle cycle -> Searched order stack goals (Some (Throw (cycle_message cycle))).

Context (Hwf : graph_wf).

Definition visits (fuel : nat) : Prop := forall name stack order,
  In name names -> search_ok order stack -> is_path (stack ++ [name]) ->
  length names < fuel + length stack ->
  Searched order stack [name] (visit fuel graph name stack (standing order stack)).

(** The loop over the dependencies of the name on top of the stack. *)
Definition visit_deps (fuel : nat) (stack : list string) :=
  fix go (deps : list string) (st : Topo) : option (res Topo) :=
    match deps with
    | [] => Some (Ok st)
    | dep :: deps' =>
        match visit fuel graph dep stack st with
        | Some (Ok st') => go deps' st'
        | r => r
        end
    end.

Lemma visit_deps_spec fuel stack name deps order :
  visits fuel -> search_ok order (stack ++ [name]) -> is_path (stack ++ [name]) ->
  (forall dep, In dep deps -> depends name dep) ->
  length names < fuel + length (stack ++ [name]) ->
  Searched order (stack ++ [name]) deps (visit_deps fuel (stack ++ [name]) deps (standing order (stack ++ [name]))).
Proof.
  intros Hv Ho Hp Hd Hf. revert order Ho. induction deps as [|dep deps IH]; intros order Ho; cbn [visit_deps].
  - rewrite <- (app_nil_r order) at 2. rewrite <- (app_nil_r order) in Ho. constructor; [done|]. by intros x [].
  - assert (Hdep : depends name dep) by (apply Hd; by left).
    assert (Hdp : is_path ((stack ++ [name]) ++ [dep])).
    { rewrite <- app_assoc. by apply is_path_snoc. }
    destruct (Hv dep (stack ++ [name]) order) as [order' Ho' Hin|cycle Hc];
      [by apply (wf_closed Hwf name)|done|done|done| |by constructor].
    destruct (IH (fun d H => Hd d (or_intror H)) _ Ho') as [order2 Ho2 Hin2|cycle Hc]; [|by constructor].
    rewrite <- app_assoc in *. constructor; [done|]. intros x [<-|Hx]; [|by apply Hin2].
    rewrite app_assoc. apply in_or_app. left. apply Hin. by left.
Qed.

Lemma visit_spec fuel : visits fuel.
Proof.
  induction fuel as [|fuel IH]; intros name stack order Hin Ho Hp Hf.
  - exfalso. pose proof (NoDup_incl_length (NoDup_app_remove_l _ _ (so_nodup _ _ Ho))
      (incl_tran (incl_appr order (incl_refl stack)) (so_known _ _ Ho))). lia.
  - cbn [visit]. cbn [standing tp_visited tp_visiting tp_order].
    destruct (set_has name order) eqn:Hv.
    { apply set_has_spec in Hv. rewrite <- (app_nil_r order) at 2. constructor; rewrite app_nil_r; [done|].
      by intros x [<-|[]]. }
    destruct (set_has name stack) eqn:Hs.
    { apply set_has_spec in Hs. destruct (from_name_suffix name stack Hs) as (l & rest & Hfn & He).
      fold (cycle_message (from_name name stack ++ [name])). rewrite Hfn. constructor.
      split; [|by exists name, rest]. rewrite He, <- app_assoc in Hp. by apply is_path_app in Hp. }
    apply set_has_false in Hv, Hs. apply In_names in Hin as [node Hn]. unfold graph_get. rewrite Hn.
    assert (Hpush : search_ok order (stack ++ [name])).
    { destruct Ho as [Hnd Hk Hf']. split; [| |done].
      - rewrite app_assoc. apply NoDup_snoc; [done|]. by intros [?|?]%in_app_or.
      - rewrite app_assoc. apply incl_app; [done|]. intros x [<-|[]]. apply In_names. by exists node. }
    fold (visit_deps fuel (stack ++ [name])). fold (standing order (stack ++ [name])).
    destruct (visit_deps_spec fuel stack name (gn_internalDeps node) order) as [order' Ho' Hd|cycle Hc];
      [done|done|done| | | |by constructor].
    { intros dep Hdep. by exists node. }
    { rewrite length_app. simpl. lia. }
    cbn [standing tp_visited tp_visiting tp_order]. rewrite set_delete_last by done.
    rewrite <- !app_assoc. fold (standing (order ++ order' ++ [name]) stack).
    assert (Hpop : search_ok (order ++ order' ++ [name]) stack).
    { rewrite app_assoc. destruct Ho' as [Hnd Hk Hf']. split.
      - eapply Permutation_NoDup; [|exact Hnd]. rewrite <- (app_assoc (order ++ order')).
        apply Permutation_app_head, Permutation_app_comm.
      - intros x Hx. apply Hk. rewrite !in_app_iff in *. tauto.
      - apply deps_first_snoc; [done|]. intros dep (node' & Hn' & Hdep).
        rewrite Hn in Hn'. injection Hn' as <-. by apply Hd. }
    constructor; [done|]. intros x [<-|[]]. rewrite !in_app_iff. right. right. by left.
Qed.

Lemma visit_roots_spec fuel roots order :
  search_ok order [] -> incl roots names -> length names < fuel ->
  Searched order [] roots (visit_roots fuel graph roots (standing order [])).
Proof.
  intros Ho Hr Hf. revert order Ho. induction roots as [|name roots IH]; intros order Ho; cbn [visit_roots].
  - rewrite <- (app_nil_r order) at 2. rewrite <- (app_nil_r order) in Ho. constructor; [done|]. by intros x [].
  - destruct (visit_spec fuel name [] order) as [order' Ho' Hin|cycle Hc];
      [apply Hr; by left|done|done|simpl; lia| |by constructor].
    destruct (IH (fun x H => Hr x (or_intror H)) _ Ho') as [order2 Ho2 Hin2|cycle Hc]; [|by constructor].
    rewrite <- app_assoc in *. constructor; [done|]. intros x [<-|Hx]; [|by apply Hin2].
    rewrite app_assoc. apply in_or_app. left. apply Hin. by left.
Qed.

(** With fuel for every name the order is found, or a cycle. *)
Lemma topological_order_spec fuel :
  length names < fuel ->
  (exists order,
     computeTopologicalOrder fuel graph = Some (Ok (mkGraph graph.(pg_nodes) order)) /\
     Permutation order names /\ deps_first order /\ forall a, ~ depends_on a a) \/
  (exists cycle, computeTopologicalOrder fuel graph = Some (Throw (cycle_message cycle)) /\ is_cycle cycle).
Proof.
  intros Hf. unfold computeTopologicalOrder. fold names. change (mkTopo [] [] []) with (standing [] []).
  assert (Ho : search_ok [] []) by (split; [constructor|by intros x []|apply deps_first_nil]).
  destruct (visit_roots_spec fuel names [] Ho (incl_refl _) Hf) as [order [Hnd Hk Hfirst] Hin|cycle Hc].
  - left. cbn [app] in *. rewrite app_nil_r in Hnd, Hk. exists order. split; [done|]. split; [|split; [exact Hfirst|]].
    + apply Stdlib.Sorting.Permutation.NoDup_Permutation; [done| |].
      * apply NoDup_ListNoDup, (wf_nodes Hwf).
      * intros x. split; [apply Hk|apply Hin].
    + intros a Ha. assert (Hna : In a names).
      { assert (Hdep : exists b, depends a b) by (inversion Ha; eauto). destruct Hdep as (b & node & Hn & _).
        apply In_names. by exists node. }
      apply (deps_first_acyclic order a); try done. by apply Hin.
  - right. by exists cycle.
Qed.

(** * Reverse dependencies *)

Lemma collect_dependents_spec nodes current result queue :
  List.NoDup result ->
  let '(result', queue') := collect_dependents nodes current result queue in
  exists new, result' = result ++ new /\ queue' = rev new ++ queue /\ List.NoDup result' /\
    incl new (map gn_name nodes) /\
    (forall x, In x result' <->
       In x result \/ exists node, In node nodes /\ node.(gn_name) = x /\ In current node.(gn_internalDeps)).
Proof.
  unfold collect_dependents. revert result queue; induction nodes as [|node nodes IH]; intros result queue Hnd;
    cbn [fold_left].
  - exists []. rewrite app_nil_r. split_and!; [done|done|done|by intros x []|].
    intros x. split; [by left|]. intros [?|(n & [] & _)]; done.
  - destruct (set_has current (gn_internalDeps node) && negb (set_has (gn_name node) result)) eqn:Hc.
    + apply andb_true_iff in Hc as [Hc Hn]. apply set_has_spec in Hc.
      apply negb_true_iff, set_has_false in Hn.
      specialize (IH (result ++ [gn_name node]) (gn_name node :: queue) (NoDup_snoc _ _ Hnd Hn)).
      destruct (fold_left _ nodes _) as [result' queue']. destruct IH as (new & -> & -> & Hnd' & Hi & Hx).
      exists (gn_name node :: new). rewrite <- !app_assoc. cbn [app rev]. rewrite <- app_assoc.
      split_and!; [done|done|by rewrite <- app_assoc in Hnd'| |].
      * intros x [<-|Hin]; [by left|right; by apply Hi].
      * intros x. rewrite <- app_assoc in Hx. cbn [app] in Hx. rewrite Hx, in_app_iff. split.
        -- intros [[H|[<-|[]]]|(n & H1 & H2)]; [by left| |]; right; [exists node|exists n]; simpl; tauto.
        -- intros [H|(n & [<-|H1] & H2 & H3)]; [tauto|subst; simpl; tauto|right; by exists n].
    + specialize (IH result queue Hnd). destruct (fold_left _ nodes _) as [result' queue'].
      destruct IH as (new & -> & -> & Hnd' & Hi & Hx). exists new.
      split_and!; [done|done|done|intros x Hin; right; by apply Hi|].
      intros x. rewrite Hx. split; [intros [H|(n & H1 & H2)]; [by left|right; exists n; simpl; tauto]|].
      intros [H|(n & [<-|H1] & H2 & H3)]; [by left| |right; by exists n].
      apply andb_false_iff in Hc as [Hc|Hc]; [by apply set_has_false in Hc|].
      apply negb_false_iff, set_has_spec in Hc. subst x. by left.
Qed.

Lemma depends_on_step a b c : depends_on a b -> depends b c -> depends_on a c.
Proof.
  intros H. induction H as [a b Hab|a b d Hab _ IH]; intros Hbc.
  - apply t1n_trans with b; [done|by constructor].
  - apply t1n_trans with b; [done|by apply IH].
Qed.

Lemma node_depends node b : In node (allNodes graph) -> In b node.(gn_internalDeps) -> depends node.(gn_name) b.
Proof.
  intros Hin Hb. apply dict_value_get in Hin as [k Hk]; [|apply (wf_nodes Hwf)].
  exists node. by rewrite (wf_names Hwf k node Hk).
Qed.

Lemma node_names : map gn_name (allNodes graph) = names.
Proof.
  unfold names, allNodes, dict_keys, dict_values. rewrite map_map. apply map_ext_in. intros [k node] Hin.
  apply (wf_names Hwf k node). apply dict_In_get; [apply (wf_nodes Hwf)|done].
Qed.

(** The worklist: what is in it or in the result depends on [name], and the
    dependents of what has left it are in the result. *)
Record worklist_ok (name : string) (result queue : list string) : Prop := mkWorklistOk {
  wl_nodup : List.NoDup result;
  wl_known : incl result names;
  wl_queued : forall x, In x queue -> In x (name :: result);
  wl_sound : forall x, In x result -> depends_on x name;
  wl_done : forall x y, In x (name :: result) -> ~ In x queue -> depends y x -> In y result
}.

Lemma reverse_loop_spec name fuel result queue :
  worklist_ok name result queue -> length queue + (length names - length result) < fuel ->
  exists result', reverse_loop fuel (allNodes graph) result queue = Some result' /\
    List.NoDup result' /\ forall x, In x result' <-> depends_on x name.
Proof.
  revert result queue; induction fuel as [|fuel IH]; intros result queue [Hnd Hk Hq Hs Hd] Hf; [lia|].
  cbn [reverse_loop]. destruct queue as [|current queue].
  - exists result. split_and!; [done|done|]. intros x. split; [apply Hs|]. intros Hx.
    induction Hx as [a b Hab|a b c Hab _ IHx]; (eapply Hd; [|by intros []|exact Hab]); [by left|].
    right. by apply IHx.
  - pose proof (collect_dependents_spec (allNodes graph) current result queue Hnd) as Hc.
    destruct (collect_dependents (allNodes graph) current result queue) as [result' queue'].
    destruct Hc as (new & -> & -> & Hnd' & Hi & Hx). rewrite node_names in Hi.
    assert (Hkn : incl (result ++ new) names) by by apply incl_app.
    apply IH.
    + split; [done|done| | |].
      * intros x [Hn|Hin]%in_app_or.
        -- right. apply in_or_app. right. by apply in_rev.
        -- destruct (Hq x (or_intror Hin)) as [->|H]; [by left|right]. apply in_or_app. by left.
      * intros x Hin. apply Hx in Hin as [Hin|(node & Hin & <- & Hdep)]; [by apply Hs|].
        pose proof (node_depends node current Hin Hdep) as Hdc.
        destruct (Hq current (or_introl eq_refl)) as [<-|Hcr]; [by constructor|].
        apply t1n_trans with current; [done|by apply Hs].
      * intros x y Hin Hnq Hyx. destruct (String.eqb_spec x current) as [->|Hne].
        -- apply Hx. right. destruct Hyx as (node & Hn & Hdep). exists node.
           split; [by apply dict_get_value in Hn|]. split; [by apply (wf_names Hwf)|done].
        -- apply in_or_app. left. apply (Hd x y); [| |done].
           ++ destruct Hin as [Hin|Hin]; [by left|]. right. apply in_app_or in Hin as [Hin|Hin]; [done|].
              exfalso. apply Hnq, in_or_app. left. by apply in_rev in Hin.
           ++ intros [Hc|Hc]; [by subst|]. apply Hnq, in_or_app. by right.
    + pose proof (NoDup_incl_length Hnd' Hkn) as Hl. rewrite !length_app, length_rev in *. simpl in *. lia.
Qed.

Lemma reverse_deps_spec fuel name :
  length names + 1 < fuel ->
  exists result, getReverseDeps fuel graph name = Some result /\ List.NoDup result /\
    forall x, In x result <-> depends_on x name.
Proof.
  intros Hf. apply reverse_loop_spec; [|simpl; lia]. split.
  - constructor.
  - by intros x [].
  - intros x [->|[]]. by left.
  - by intros x [].
  - intros x y [->|[]] Hn _. destruct Hn. by left.
Qed.
End Graph.

(** The relation and its laws look at the nodes only. *)
Lemma graph_wf_nodes graph graph' : graph.(pg_nodes) = graph'.(pg_nodes) -> graph_wf graph -> graph_wf graph'.
Proof.
  intros He [H1 H2 H3]. split; unfold names, depends in *; rewrite <- ?He; done.
Qed.

Lemma depends_on_dec graph a b : graph_wf graph -> depends_on graph a b \/ ~ depends_on graph a b.
Proof.
  intros Hwf. destruct (reverse_deps_spec graph Hwf (length (names graph) + 2) b) as (l & _ & _ & Hl); [lia|].
  destruct (in_dec String.string_dec a l) as [Hi|Hi]; [left|right]; by rewrite <- Hl.
Qed.

(** * Discovery *)

Lemma map_nodes_get f graph k :
  dict_get k (map_nodes f graph).(pg_nodes) = option_map f (dict_get k graph.(pg_nodes)).
Proof.
  unfold map_nodes, with_nodes. cbn [pg_nodes]. induction (pg_nodes graph) as [|[k' n] l IH]; [done|]. simpl.
  by destruct (k =s? k').
Qed.

Lemma map_nodes_names f graph : names (map_nodes f graph) = names graph.
Proof.
  unfold names, map_nodes, with_nodes, dict_keys. cbn [pg_nodes]. rewrite map_map. apply map_ext. by intros [].
Qed.

Lemma map_nodes_has f graph d : graph_has (map_nodes f graph) d = graph_has graph d.
Proof. unfold graph_has, dict_has. rewrite map_nodes_get. by destruct (dict_get d (pg_nodes graph)). Qed.

Lemma graph_has_names graph d : graph_has graph d = true <-> In d (names graph).
Proof.
  unfold graph_has, dict_has. rewrite In_names. destruct (dict_get d (pg_nodes graph)) as [n|].
  - split; [by exists n|done].
  - split; [done|by intros [n ?]].
Qed.

(** Nodes added one by one: a property of all of them holds of the graph's. *)
Lemma added_nodes (P : string -> GraphNode -> Prop) nodes graph :
  (forall n, In n nodes -> P n.(gn_name) n) -> dict_wf graph.(pg_nodes) -> dict_all P graph.(pg_nodes) ->
  let graph' := fold_left addNode nodes graph in
  dict_wf graph'.(pg_nodes) /\ dict_all P graph'.(pg_nodes) /\
  forall d, In d (names graph') <-> In d (names graph) \/ In d (map gn_name nodes).
Proof.
  revert graph; induction nodes as [|n nodes IH]; intros graph Hn Hwf Ha; cbn [fold_left map].
  - split_and!; [done|done|]. intros d. simpl. tauto.
  - destruct (IH (addNode graph n)) as (H1 & H2 & H3).
    + intros m Hm. apply Hn. by right.
    + by apply dict_set_wf.
    + apply dict_all_set; [|done]. apply Hn. by left.
    + split_and!; [done|done|]. intros d. rewrite H3. unfold names. cbn [addNode with_nodes pg_nodes].
      rewrite dict_keys_set. fold (graph_has graph (gn_name n)).
      destruct (graph_has graph (gn_name n)) eqn:E; [|rewrite in_app_iff; simpl; tauto].
      apply graph_has_names in E. unfold names in E. simpl. intuition congruence.
Qed.

Lemma scan_entry_deps root section kind entry node :
  scan_entry root section kind entry = Some node ->
  incl node.(gn_internalDeps) (dict_keys node.(gn_dependencies)).
Proof.
  unfold scan_entry. destruct (negb (de_isDirectory entry) || startsWith (de_name entry) "."); [done|].
  destruct (de_pkg entry) as [pkg|]; [|done]. destruct (default "" (pj_name pkg) =s? ""); [done|].
  set (allDeps := dict_merge _ _). intros H.
  assert (Hd : forall (l : dict string) acc errors,
    incl (fold_left (fun '(deps, errors) '(depName, depSpec) =>
       if isInternalDep depName then (deps ++ [depName], recordInternalDepSpecError errors depName depSpec)
       else (deps, errors)) l (acc, errors)).1 (acc ++ dict_keys l)).
  { induction l as [|[k v] l IH]; intros acc errors; simpl; [rewrite app_nil_r; apply incl_refl|].
    destruct (isInternalDep k).
    - intros x Hx. apply IH in Hx. by rewrite <- app_assoc in Hx.
    - intros x Hx. apply IH in Hx. rewrite in_app_iff in *. simpl. tauto. }
  specialize (Hd allDeps [] None). destruct (fold_left _ allDeps _) as [deps errors].
  injection H as <-. cbn. apply Hd.
Qed.

Lemma scanned_deps ws node : In node (scanned ws) -> incl node.(gn_internalDeps) (dict_keys node.(gn_dependencies)).
Proof.
  assert (Hscan : forall root section kind entries n, In n (scanDirectory root section kind entries) ->
    incl n.(gn_internalDeps) (dict_keys n.(gn_dependencies))).
  { intros root section kind entries n Hn. apply list_elem_of_In, list_elem_of_omap in Hn as (e & _ & He).
    by apply scan_entry_deps in He. }
  unfold scanned. intros Hin. repeat (apply in_app_or in Hin as [Hin|Hin]; [by apply Hscan in Hin|]).
  apply list_elem_of_In, list_elem_of_omap in Hin as (e & _ & He). unfold scan_template in He.
  destruct (negb (te_isDirectory e) || startsWith (te_name e) "."); [done|].
  destruct (te_config e); [|done]. injection He as <-. by intros x [].
Qed.

Lemma inject_internal_deps graph node d :
  In d (inject_internal graph node).(gn_internalDeps) <->
  In d node.(gn_internalDeps) \/ (In d (dict_keys node.(gn_dependencies)) /\ graph_has graph d = true).
Proof.
  unfold inject_internal. generalize (gn_dependencies node) as l. intros l.
  assert (Hd : forall (l : dict string) acc errors,
    In d (fold_left (fun '(deps, errors) '(depName, depSpec) =>
       if negb (graph_has graph depName) || set_has depName deps then (deps, errors)
       else (deps ++ [depName], recordInternalDepSpecError errors depName depSpec)) l (acc, errors)).1 <->
    In d acc \/ (In d (dict_keys l) /\ graph_has graph d = true)).
  { clear l. induction l as [|[k v] l IH]; intros acc errors; cbn [fold_left dict_keys map fst]; [simpl; tauto|].
    destruct (negb (graph_has graph k) || set_has k acc) eqn:E.
    - rewrite IH. simpl. split; [tauto|]. intros [?|[[->|?] Hh]]; [tauto| |tauto].
      rewrite Hh in E. cbn [negb orb] in E. apply set_has_spec in E. by left.
    - apply orb_false_iff in E as [E _]. apply negb_false_iff in E.
      rewrite IH, in_app_iff. simpl. split; [|tauto]. intros [[?|[<-|[]]]|?]; tauto. }
  specialize (Hd l (gn_internalDeps node) (gn_dependencyErrors node)).
  destruct (fold_left _ l _) as [deps errors]. exact Hd.
Qed.

Lemma prune_missing_deps graph node d :
  In d (prune_missing graph node).(gn_internalDeps) <-> In d node.(gn_internalDeps) /\ graph_has graph d = true.
Proof.
  unfold prune_missing. cbn [with_deps gn_internalDeps].
  assert (Hd : forall l acc,
    In d (fold_left (fun deps dep => if graph_has graph dep then deps else set_delete dep deps) l acc) <->
    In d acc /\ (In d l -> graph_has graph d = true)).
  { induction l as [|x l IH]; intros acc; simpl; [tauto|]. rewrite IH.
    destruct (graph_has graph x) eqn:E; [|rewrite set_delete_In].
    - split; [|tauto]. intros [H1 H2]. split; [done|]. intros [<-|?]; auto.
    - split.
      + intros [[H1 H2] H3]. split; [done|]. intros [->|?]; auto.
      + intros [H1 H2]. split_and!; [done| |tauto]. intros ->. rewrite H2 in E; [done|by left]. }
  rewrite Hd. tauto.
Qed.

(** The template a panel is built on, if it is a unit. *)
Definition template_of (graph : PackageGraph) (node : GraphNode) : option string :=
  match node.(gn_kind) with
  | KPanel =>
      let name := if truthy node.(gn_manifest).!"template"
                  then "template:" ^^ to_str node.(gn_manifest).!"template" else "template:default" in
      if graph_has graph name then Some name else None
  | _ => None
  end.

Lemma inject_template_deps graph node :
  (inject_template graph node).(gn_internalDeps) =
  node.(gn_internalDeps) ++ match template_of graph node with Some t => [t] | None => [] end.
Proof.
  unfold inject_template, template_of. case_bool_decide as Hk.
  - destruct (gn_kind node); first [by rewrite app_nil_r|done].
  - assert (He : gn_kind node = KPanel) by (destruct (decide (gn_kind node = KPanel)); [done|by destruct Hk]). rewrite He.
    destruct (truthy (gn_manifest node).!"template").
    + destruct (graph_has graph _); [done|]. by rewrite app_nil_r.
    + destruct (graph_has graph "template:default"); [done|]. by rewrite app_nil_r.
Qed.

Lemma inject_internal_same graph node :
  exists deps errors, inject_internal graph node = with_deps node deps errors.
Proof. unfold inject_internal. destruct (fold_left _ _ _) as [deps errors]. by exists deps, errors. Qed.

Lemma inject_template_same graph node :
  exists deps errors, inject_template graph node = with_deps node deps errors.
Proof.
  unfold inject_template. assert (H : exists deps errors, node = with_deps node deps errors)
    by (exists node.(gn_internalDeps), node.(gn_dependencyErrors); by destruct node).
  repeat case_match; eauto.
Qed.

Lemma template_of_same graph node deps errors : template_of graph (with_deps node deps errors) = template_of graph node.
Proof. done. Qed.

Section Discovered.
Context (ws : Workspace).
#[local] Abbreviation base := (fold_left addNode (scanned ws) emptyGraph).

Lemma scanned_graph :
  dict_wf (pg_nodes base) /\
  dict_all (fun k n => n.(gn_name) = k /\ In n (scanned ws)) (pg_nodes base) /\
  forall d, In d (names base) <-> In d (map gn_name (scanned ws)).
Proof.
  destruct (added_nodes (fun k n => n.(gn_name) = k /\ In n (scanned ws)) (scanned ws) emptyGraph) as (H1 & H2 & H3).
  - done.
  - apply base.NoDup_nil_2.
  - by intros k n [].
  - split_and!; [done|done|]. intros d. rewrite H3. simpl. tauto.
Qed.

Lemma discovered_has d : graph_has (discovered ws) d = graph_has base d.
Proof. unfold discovered. by rewrite !map_nodes_has. Qed.

(** A node of the discovered graph, against the scanned one it comes from. *)
Lemma discovered_node name node : dict_get name (discovered ws).(pg_nodes) = Some node ->
  exists unit deps errors,
    In unit (scanned ws) /\ unit.(gn_name) = name /\ node = with_deps unit deps errors /\
    forall d, In d deps <->
      graph_has (discovered ws) d = true /\
      (In d (dict_keys unit.(gn_dependencies)) \/ template_of (discovered ws) unit = Some d).
Proof.
  intros Hn. unfold discovered in Hn. rewrite !map_nodes_get in Hn.
  destruct scanned_graph as (_ & Ha & _).
  destruct (dict_get name (pg_nodes base)) as [unit|] eqn:Eu; [|done]. cbn [option_map] in Hn.
  apply (dict_all_get _ name unit) in Ha as [Hname Hin]; [|done].
  set (g1 := map_nodes (inject_internal base) base) in *.
  set (g2 := map_nodes (inject_template g1) g1) in *.
  assert (Hh : forall d, graph_has g2 d = graph_has (discovered ws) d).
  { intros d. unfold g2, g1. by rewrite discovered_has, !map_nodes_has. }
  assert (Hh1 : forall d, graph_has g1 d = graph_has (discovered ws) d).
  { intros d. unfold g1. by rewrite discovered_has, !map_nodes_has. }
  assert (Hb : forall d, graph_has base d = graph_has (discovered ws) d) by (intros; by rewrite discovered_has).
  pose proof (inject_internal_deps base unit) as Hi.
  destruct (inject_internal_same base unit) as (d1 & e1 & E1). rewrite E1 in Hi, Hn.
  pose proof (inject_template_deps g1 (with_deps unit d1 e1)) as Ht.
  destruct (inject_template_same g1 (with_deps unit d1 e1)) as (d2 & e2 & E2). rewrite E2 in Ht, Hn.
  pose proof (prune_missing_deps g2 (with_deps (with_deps unit d1 e1) d2 e2)) as Hp.
  unfold prune_missing in Hn, Hp. cbn [with_deps gn_internalDeps gn_dependencyErrors] in *.
  injection Hn as <-. eexists unit, _, _. split_and!; [done|done|reflexivity|].
  intros d. rewrite Hp, Hh. rewrite Ht, in_app_iff, Hi, Hb.
  assert (Htp : template_of g1 (with_deps unit d1 e1) = template_of (discovered ws) unit).
  { unfold template_of. cbn [with_deps gn_kind gn_manifest]. by rewrite Hh1. }
  rewrite Htp. pose proof (scanned_deps ws unit Hin d) as Hsc.
  destruct (template_of (discovered ws) unit) as [t|]; simpl; split.
  - intros [[[?|[? ?]]|[->|[]]] ?]; auto.
  - intros [Hd [Hk|[= ->]]]; auto.
  - intros [[[?|[? ?]]|[]] ?]; auto.
  - intros [Hd [Hk|?]]; [auto|done].
Qed.

Lemma discovered_wf : graph_wf (discovered ws).
Proof.
  split.
  - unfold dict_wf. fold (names (discovered ws)). unfold discovered. rewrite !map_nodes_names. apply scanned_graph.
  - intros k node Hn. apply discovered_node in Hn as (unit & deps & errors & _ & <- & -> & _). done.
  - intros a b (node & Hn & Hb). apply discovered_node in Hn as (unit & deps & errors & _ & _ & -> & Hd).
    apply graph_has_names, Hd, Hb.
Qed.

Lemma discovered_names d : In d (names (discovered ws)) <-> In d (map gn_name (scanned ws)).
Proof. unfold discovered. rewrite !map_nodes_names. apply scanned_graph. Qed.
End Discovered.
