(* ===== verification/BuildEv.v ===== *)
(** Effective versions (src/server/buildV2/effectiveVersion.ts): a hash per unit of its
    content and of its transitive internal dependencies, its incremental recomputation,
    the difference of two version maps, and the keys of the build store (and
    [computeBuildUnitKey] of builder.ts). SHA-256 is an interface; content hashes are
    given, [None] standing for null. *)
From S2P Require Import Prelude Dict JsValue JsText BuildGraph.

Definition EffectiveVersionMap : Type := dict string.
Definition ContentHashMap : Type := dict (option string).

(** [hashes[name]], with an absent name and null the same. *)
Definition hash_of (name : string) (hashes : ContentHashMap) : option string := mjoin (dict_get name hashes).

(** [if (!hash) continue]. *)
Definition present (hash : option string) : option string :=
  match hash with Some h => if h =s? "" then None else Some h | None => None end.

(** [Array.prototype.sort] on strings. *)
Fixpoint sort_insert (s : string) (l : list string) : list string :=
  match l with
  | [] => [s]
  | x :: l' => if String.leb s x then s :: l else x :: sort_insert s l'
  end.

Fixpoint js_sort (l : list string) : list string :=
  match l with [] => [] | s :: l' => sort_insert s (js_sort l') end.

Definition NUL : string := String Ascii.zero "".

Definition dep_signature (depName : string) (evMap : EffectiveVersionMap) (contentHashes : ContentHashMap) : string :=
  depName ^^ NUL ^^ "content:" ^^ default "missing" (hash_of depName contentHashes)
  ^^ NUL ^^ "ev:" ^^ default "" (dict_get depName evMap).

Definition buildDepSignatures (graph : PackageGraph) (nodeName : string) (evMap : EffectiveVersionMap)
    (contentHashes : ContentHashMap) : res (list string) :=
  let! node := graph_get graph nodeName in
  let deps :=
    omap (fun depName =>
            match tryGet graph depName with
            | None => None
            | Some _ => Some (dep_signature depName evMap contentHashes)
            end) node.(gn_internalDeps) in
  Ok (js_sort deps).

Section Versions.
Context `{!Sha256}.

Definition hashed_bytes (parts : list string) : string := String.concat "" (map (fun part => part ^^ NUL) parts).

Definition hashStrings (parts : list string) : string := str_take 16 (sha256_hex (hashed_bytes parts)).

(** The body of both loops. *)
Definition version_node (graph : PackageGraph) (contentHashes : ContentHashMap) (evMap : EffectiveVersionMap)
    (node : GraphNode) : res EffectiveVersionMap :=
  match present (hash_of node.(gn_name) contentHashes) with
  | None => Ok evMap
  | Some hash =>
      let! depSigs := buildDepSignatures graph node.(gn_name) evMap contentHashes in
      Ok (dict_set node.(gn_name) (hashStrings (hash :: depSigs)) evMap)
  end.

Definition computeEffectiveVersions (graph : PackageGraph) (contentHashes : ContentHashMap)
    : res (EffectiveVersionMap * ContentHashMap) :=
  let! nodes := topologicalOrder graph in
  let! evMap := res_foldl (version_node graph contentHashes) [] nodes in
  Ok (evMap, contentHashes).

(** The units whose versions a change can reach. *)
Fixpoint affected_by (fuel : nat) (graph : PackageGraph) (changedNames affected : list string)
    : option (list string) :=
  match changedNames with
  | [] => Some affected
  | name :: rest =>
      if negb (graph_has graph name) then affected_by fuel graph rest affected
      else
        match getReverseDeps fuel graph name with
        | None => None
        | Some deps => affected_by fuel graph rest (affected ++ name :: deps)
        end
  end.

Definition recomputeFromNodes (fuel : nat) (graph : PackageGraph) (changedNames : list string)
    (currentEvMap : EffectiveVersionMap) (contentHashes updatedHashes : ContentHashMap)
    : option (res (EffectiveVersionMap * ContentHashMap)) :=
  let newHashes := dict_merge contentHashes updatedHashes in
  match affected_by fuel graph changedNames [] with
  | None => None
  | Some affected =>
      Some (
        let! nodes := topologicalOrder graph in
        let! newEvMap :=
          res_foldl
            (fun newEvMap n =>
               if negb (set_has n.(gn_name) affected) then Ok newEvMap
               else version_node graph newHashes newEvMap n)
            currentEvMap nodes in
        Ok (newEvMap, newHashes))
  end.

Record ChangeSet := mkChangeSet {
  cs_changed : list string;
  cs_added : list string;
  cs_removed : list string
}.

Definition diffEvMaps (previous current : EffectiveVersionMap) : ChangeSet :=
  let '(changed, added) :=
    fold_left
      (fun '(changed, added) '(name, ev) =>
         match dict_get name previous with
         | None => (changed, added ++ [name])
         | Some old => if old <>s? ev then (changed ++ [name], added) else (changed, added)
         end)
      current ([], []) in
  {| cs_changed := changed; cs_added := added;
     cs_removed := List.filter (fun name => negb (dict_has name current)) (dict_keys previous) |}.

(** * Keys of the build store *)

Definition BUILD_CACHE_VERSION : string := "16".

Definition bool_str (b : bool) : string := if b then "true" else "false".

(** [rootDepsFingerprint] is the digest of the application's own package files. *)
Definition computeBuildKey (rootDepsFingerprint unitName ev : string) (sourcemap : bool) : string :=
  hashStrings [BUILD_CACHE_VERSION; "root-deps:" ^^ rootDepsFingerprint; unitName; ev;
               "sourcemap:" ^^ bool_str sourcemap].

Record BuildUnitOptions := mkBuildUnitOptions {
  bo_library : bool;
  bo_externals : option (list string);
  bo_libraryEntrySubpath : option string;
  bo_libraryTarget : option string
}.

Definition noOptions : BuildUnitOptions := mkBuildUnitOptions false None None None.

Definition EXTENSION_RUNTIME_ABI_VERSION : string := "2".

Definition effectiveBuildVersion (node : GraphNode) (ev : string) (options : BuildUnitOptions) : string :=
  if options.(bo_library) then
    let key := VObj [("externals", VArr (map VStr (default [] options.(bo_externals))));
                     ("entry", VStr (default "." options.(bo_libraryEntrySubpath)));
                     ("target", match options.(bo_libraryTarget) with Some t => VStr t | None => VNull end)] in
    ev ^^ ":lib:" ^^ str_take 12 (sha256_hex (default "" (json_stringify key)))
  else
    match node.(gn_kind) with
    | KExtension => ev ^^ ":extension-runtime-abi:" ^^ EXTENSION_RUNTIME_ABI_VERSION
    | _ => ev
    end.

Definition buildSourcemapForNode (node : GraphNode) (options : BuildUnitOptions) : bool :=
  if options.(bo_library) then false
  else
    match node.(gn_kind) with
    | KExtension => true
    | _ => negb (is_false node.(gn_manifest).!"sourcemap")
    end.

Definition computeBuildUnitKey (rootDepsFingerprint : string) (node : GraphNode) (ev : string)
    (options : BuildUnitOptions) : string :=
  computeBuildKey rootDepsFingerprint node.(gn_name) (effectiveBuildVersion node ev options)
    (buildSourcemapForNode node options).
End Versions.
