(* ===== verification/BuildEvLaws.v ===== *)
(** Laws of the effective versions: the equation every computed version satisfies,
    induction along the dependencies, and what two computations share. *)
From S2P Require Import Prelude Dict JsValue JsText BuildGraph BuildGraphLaws BuildEv.
From Stdlib Require Import Relations.Relation_Operators.

#[local] Set Warnings "-clear-no-such-hyp".

(** * Merged and sorted data *)

Lemma dict_get_merge {V} k (d e : dict V) :
  dict_wf e -> dict_get k (dict_merge d e) = match dict_get k e with Some v => Some v | None => dict_get k d end.
Proof.
  unfold dict_merge. revert d; induction e as [|[k' v] e IH]; intros d Hwf; [done|].
  apply list.NoDup_cons in Hwf as [Hn Hwf]. cbn [fold_left dict_get]. rewrite IH by done.
  destruct (String.eqb_spec k k') as [->|Hne].
  - assert (He : dict_get k' e = None) by (apply dict_get_None_keys; by rewrite <- list_elem_of_In).
    by rewrite He, dict_get_set_eq.
  - by rewrite dict_get_set_ne by congruence.
Qed.

Lemma sort_insert_perm s l : Permutation (sort_insert s l) (s :: l).
Proof.
  induction l as [|x l IH]; [done|]. simpl. destruct (String.leb s x); [done|].
  rewrite IH. apply perm_swap.
Qed.

Lemma js_sort_perm l : Permutation (js_sort l) l.
Proof. induction l as [|s l IH]; [done|]. simpl. by rewrite sort_insert_perm, IH. Qed.

(** * Ordered graphs *)

(** What [computeTopologicalOrder] leaves: the nodes of a well-formed graph, each after
    its dependencies. *)
Record ordered_graph (graph : PackageGraph) : Prop := mkOrderedGraph {
  og_wf : graph_wf graph;
  og_all : Permutation graph.(pg_topoOrder) (names graph);
  og_first : deps_first graph graph.(pg_topoOrder)
}.

Section Ordered.
Context (graph : PackageGraph) (Hg : ordered_graph graph).

Lemma order_nodup : List.NoDup graph.(pg_topoOrder).
Proof.
  eapply Permutation_NoDup; [symmetry; apply og_all, Hg|]. apply NoDup_ListNoDup, wf_nodes, og_wf, Hg.
Qed.

Lemma order_names name : In name graph.(pg_topoOrder) <-> In name (names graph).
Proof. split; apply Permutation_in; [|symmetry]; apply og_all, Hg. Qed.

(** A property that passes from the dependencies of a name to the name. *)
Lemma deps_induction (P : string -> Prop) :
  (forall name, In name (names graph) -> (forall dep, depends graph name dep -> P dep) -> P name) ->
  forall name, In name (names graph) -> P name.
Proof.
  intros Hstep.
  assert (Hpre : forall pre post, graph.(pg_topoOrder) = pre ++ post -> Forall P pre).
  { induction pre as [|name pre IH] using rev_ind; intros post He; [constructor|].
    rewrite <- app_assoc in He. pose proof (IH _ He) as Hp. apply Forall_app. split; [done|].
    constructor; [|constructor]. apply Hstep.
    - apply order_names. rewrite He. apply in_or_app. right. by left.
    - intros dep Hdep. rewrite List.Forall_forall in Hp. apply Hp.
      by apply (og_first graph Hg pre name post). }
  intros name Hin. apply order_names in Hin.
  specialize (Hpre graph.(pg_topoOrder) [] (eq_sym (app_nil_r _))). rewrite List.Forall_forall in Hpre. auto.
Qed.

Lemma get_all_names l : incl l (names graph) ->
  exists nodes, get_all graph l = Ok nodes /\ map gn_name nodes = l /\
    Forall (fun node => dict_get node.(gn_name) graph.(pg_nodes) = Some node) nodes.
Proof.
  induction l as [|name l IH]; intros Hl; cbn [get_all]; [by exists []|].
  pose proof (Hl name (or_introl eq_refl)) as Hn. apply In_names in Hn as [node Hn].
  unfold graph_get. rewrite Hn. cbn [res_bind].
  destruct IH as (nodes & -> & Hm & Hf); [intros x Hx; apply Hl; by right|].
  pose proof (wf_names _ (og_wf graph Hg) name node Hn) as Hnm. exists (node :: nodes). cbn [map res_bind].
  rewrite Hnm, Hm. split_and!; [done|done|]. constructor; [by rewrite Hnm|done].
Qed.

(** * The version equation *)

Context `{!Sha256}.

Definition signatures (evMap : EffectiveVersionMap) (hashes : ContentHashMap) (node : GraphNode) : list string :=
  js_sort (map (fun dep => dep_signature dep evMap hashes) node.(gn_internalDeps)).

Lemma dep_signatures_ok name node evMap hashes :
  dict_get name graph.(pg_nodes) = Some node ->
  buildDepSignatures graph name evMap hashes = Ok (signatures evMap hashes node).
Proof.
  intros Hn. unfold buildDepSignatures, graph_get. rewrite Hn. unfold signatures. cbn [res_bind]. do 2 f_equal.
  assert (Hall : forall dep, In dep node.(gn_internalDeps) -> In dep (names graph)).
  { intros dep Hdep. apply (wf_closed _ (og_wf graph Hg) name). by exists node. }
  clear Hn. induction (gn_internalDeps node) as [|dep deps IH]; [done|]. simpl.
  pose proof (Hall dep (or_introl eq_refl)) as Hdep. apply In_names in Hdep as [dnode Hd].
  unfold tryGet at 1. rewrite Hd. f_equal. apply IH. intros x Hx. apply Hall. by right.
Qed.

(** The version of a node whose dependencies have the versions of [evMap]. *)
Definition version_of (evMap : EffectiveVersionMap) (hashes : ContentHashMap) (node : GraphNode) : option string :=
  match present (hash_of node.(gn_name) hashes) with
  | Some hash => Some (hashStrings (hash :: signatures evMap hashes node))
  | None => None
  end.

Lemma signatures_ext ev1 ev2 h1 h2 node :
  (forall dep, In dep node.(gn_internalDeps) ->
     dict_get dep ev1 = dict_get dep ev2 /\ hash_of dep h1 = hash_of dep h2) ->
  signatures ev1 h1 node = signatures ev2 h2 node.
Proof.
  intros Hd. unfold signatures. f_equal. apply map_ext_in. intros dep Hdep.
  destruct (Hd dep Hdep) as [He Hh]. unfold dep_signature. by rewrite He, Hh.
Qed.

Definition version_loop (sel : string -> bool) (hashes : ContentHashMap) (evMap : EffectiveVersionMap)
    (nodes : list GraphNode) : res EffectiveVersionMap :=
  res_foldl (fun evMap n => if negb (sel n.(gn_name)) then Ok evMap else version_node graph hashes evMap n) evMap nodes.

(** A loop over the order gives the selected names their version and keeps the rest. *)
Lemma version_loop_spec sel hashes ev0 : exists nodes (ev : EffectiveVersionMap),
  topologicalOrder graph = Ok nodes /\ version_loop sel hashes ev0 nodes = Ok ev /\
  forall name, dict_get name ev =
    match dict_get name graph.(pg_nodes) with
    | Some node =>
        if sel name && isSome (present (hash_of name hashes)) then version_of ev hashes node else dict_get name ev0
    | None => dict_get name ev0
    end.
Proof.
  destruct (get_all_names graph.(pg_topoOrder)) as (nodes & Hn & Hm & Hf).
  { intros x. apply order_names. }
  exists nodes. unfold topologicalOrder. rewrite Hn.
  assert (Hloop : forall todo before, nodes = before ++ todo -> forall ev : EffectiveVersionMap,
    (forall node, In node before -> dict_get node.(gn_name) ev =
       if sel node.(gn_name) && isSome (present (hash_of node.(gn_name) hashes))
       then version_of ev hashes node else dict_get node.(gn_name) ev0) ->
    (forall name, ~ In name (map gn_name before) -> dict_get name ev = dict_get name ev0) ->
    exists ev' : EffectiveVersionMap, version_loop sel hashes ev todo = Ok ev' /\
      (forall node, In node nodes -> dict_get node.(gn_name) ev' =
         if sel node.(gn_name) && isSome (present (hash_of node.(gn_name) hashes))
         then version_of ev' hashes node else dict_get node.(gn_name) ev0) /\
      forall name, ~ In name (map gn_name nodes) -> dict_get name ev' = dict_get name ev0).
  { induction todo as [|node todo IH]; intros before He ev Hb Ho; unfold version_loop; cbn [res_foldl].
    - rewrite app_nil_r in He. subst before. by exists ev.
    - assert (Hnode : dict_get node.(gn_name) graph.(pg_nodes) = Some node).
      { rewrite List.Forall_forall in Hf. apply Hf. rewrite He. apply in_or_app. right. by left. }
      assert (Hpos : graph.(pg_topoOrder) = map gn_name before ++ gn_name node :: map gn_name todo).
      { rewrite <- Hm, He, map_app. done. }
      assert (Hnew : ~ In (gn_name node) (map gn_name before)).
      { intros Hin. pose proof order_nodup as Hnd. rewrite Hpos in Hnd. apply NoDup_remove_2 in Hnd.
        apply Hnd, in_or_app. by left. }
      set (ev1 := (if sel node.(gn_name) && isSome (present (hash_of node.(gn_name) hashes))
                  then match version_of ev hashes node with Some v => dict_set node.(gn_name) v ev | None => ev end
                  else ev) : EffectiveVersionMap).
      assert (Hstep : (if negb (sel node.(gn_name)) then Ok ev else version_node graph hashes ev node : res EffectiveVersionMap) = Ok ev1).
      { unfold ev1, version_node, version_of. destruct (sel (gn_name node)); [|done].
        destruct (present (hash_of (gn_name node) hashes)) as [h|]; [|done].
        by rewrite (dep_signatures_ok _ node). }
      rewrite Hstep. cbn [res_bind]. fold (version_loop sel hashes ev1 todo).
      assert (Hkeep : forall name, name <> gn_name node -> dict_get name ev1 = dict_get name ev).
      { intros name Hne. unfold ev1, version_of. destruct (sel (gn_name node) && _); [|done].
        destruct (present _); [|done]. by rewrite dict_get_set_ne by congruence. }
      assert (Hsame : forall m, In m (node :: before) -> version_of ev1 hashes m = version_of ev hashes m).
      { intros m Hmin. unfold version_of. destruct (present (hash_of (gn_name m) hashes)); [|done].
        do 3 f_equal. apply signatures_ext. intros dep Hdep. split; [|done]. apply Hkeep. intros ->.
        assert (Hin : In (gn_name node) (map gn_name before)); [|done].
        destruct Hmin as [<-|Hmin].
        - apply (og_first graph Hg _ _ _ Hpos). by exists node.
        - apply in_split in Hmin as (b1 & b2 & ->). rewrite map_app in *. cbn [map] in *.
          rewrite <- app_assoc in Hpos. apply in_or_app. left. apply (og_first graph Hg _ _ _ Hpos).
          exists m. split; [|done]. rewrite List.Forall_forall in Hf. apply Hf. rewrite He, !in_app_iff. simpl. tauto. }
      apply (IH (before ++ [node])); [by rewrite <- app_assoc| |].
      + intros m Hmin. rewrite (Hsame m) by (apply in_app_or in Hmin as [?|[<-|[]]]; simpl; tauto).
        apply in_app_or in Hmin as [Hmin|[<-|[]]].
        * rewrite Hkeep; [by apply Hb|]. intros Heq. apply Hnew. rewrite <- Heq. by apply in_map.
        * unfold ev1. destruct (sel (gn_name node) && isSome _) eqn:Es; [|by apply Ho].
          apply andb_true_iff in Es as [_ Es]. unfold version_of.
          destruct (present (hash_of (gn_name node) hashes)); [|done]. apply dict_get_set_eq.
      + intros name Hni. rewrite map_app, in_app_iff in Hni. rewrite Hkeep; [|simpl in Hni; intuition congruence].
        apply Ho. tauto. }
  destruct (Hloop nodes [] eq_refl ev0) as (ev & Hev & Hin & Hout); [by intros n []|done|].
  exists ev. split_and!; [done|done|]. intros name.
  destruct (dict_get name (pg_nodes graph)) as [node|] eqn:En.
  - assert (Hnm : gn_name node = name) by by apply (wf_names _ (og_wf graph Hg)).
    assert (Hi : In name (map gn_name nodes)) by (rewrite Hm; apply order_names, In_names; by exists node).
    apply in_map_iff in Hi as (m & Hmn & Hi). specialize (Hin m Hi). rewrite Hmn in Hin.
    rewrite List.Forall_forall in Hf. specialize (Hf m Hi). rewrite Hmn, En in Hf. injection Hf as <-. done.
  - apply Hout. rewrite Hm, order_names. intros [node Hn']%In_names. congruence.
Qed.

(** Versions that satisfy the equation are determined by it. *)
Definition satisfies (evMap : EffectiveVersionMap) (hashes : ContentHashMap) : Prop :=
  forall name, dict_get name evMap =
    match dict_get name graph.(pg_nodes) with Some node => version_of evMap hashes node | None => None end.

Lemma compute_spec hashes : exists ev,
  computeEffectiveVersions graph hashes = Ok (ev, hashes) /\ satisfies ev hashes.
Proof.
  destruct (version_loop_spec (fun _ => true) hashes []) as (nodes & ev & Hn & Hev & Heq).
  exists ev. unfold computeEffectiveVersions. rewrite Hn. cbn [res_bind]. split.
  - change (res_foldl (version_node graph hashes) [] nodes) with (version_loop (fun _ => true) hashes [] nodes).
    by rewrite Hev.
  - intros name. rewrite Heq. destruct (dict_get name (pg_nodes graph)) as [node|] eqn:En; [|done].
    cbn [andb]. unfold version_of. rewrite (wf_names _ (og_wf graph Hg) name node En).
    by destruct (present (hash_of name hashes)).
Qed.

Lemma compute_satisfies hashes ev hashes' :
  computeEffectiveVersions graph hashes = Ok (ev, hashes') -> satisfies ev hashes.
Proof. destruct (compute_spec hashes) as (ev1 & -> & Hs). by intros [= -> _]. Qed.

Lemma affected_by_spec fuel changed affected :
  length (names graph) + 1 < fuel -> exists result, affected_by fuel graph changed affected = Some result /\
    forall x, In x result <->
      In x affected \/ exists name, In name changed /\ In name (names graph) /\ (x = name \/ depends_on graph x name).
Proof.
  intros Hf. revert affected; induction changed as [|name changed IH]; intros affected; cbn [affected_by].
  - exists affected. split; [done|]. intros x. split; [by left|]. intros [?|(n & [] & _)]; done.
  - destruct (graph_has graph name) eqn:Eh; cbn [negb].
    + apply graph_has_names in Eh.
      destruct (reverse_deps_spec graph (og_wf graph Hg) fuel name Hf) as (deps & Hd & _ & Hdeps). rewrite Hd.
      destruct (IH (affected ++ name :: deps)) as (result & -> & Hr). exists result. split; [done|].
      intros x. rewrite Hr, in_app_iff. simpl. rewrite Hdeps. split.
      * intros [[?|[<-|?]]|(n & H1 & H2)]; [tauto| | |]; right; [exists name|exists name|exists n]; tauto.
      * intros [?|(n & [<-|H1] & H2 & H3)]; [tauto|intuition auto|]. right. by exists n.
    + destruct (IH affected) as (result & -> & Hr). exists result. split; [done|].
      intros x. rewrite Hr. split.
      * intros [?|(n & H1 & H2)]; [tauto|]. right. exists n. simpl. tauto.
      * intros [?|(n & [<-|H1] & H2 & H3)]; [tauto| |right; by exists n].
        apply graph_has_names in H2. congruence.
Qed.

(** Recomputing from the changed names gives what computing from scratch gives. *)
Lemma recompute_spec fuel changed ev0 hashes updated :
  length (names graph) + 1 < fuel -> dict_wf updated -> satisfies ev0 hashes ->
  (forall name, In name (names graph) -> hash_of name (dict_merge hashes updated) <> hash_of name hashes ->
     In name changed) ->
  (forall name, In name (names graph) -> present (hash_of name hashes) <> None ->
     present (hash_of name (dict_merge hashes updated)) <> None) ->
  exists ev full,
    recomputeFromNodes fuel graph changed ev0 hashes updated = Some (Ok (ev, dict_merge hashes updated)) /\
    computeEffectiveVersions graph (dict_merge hashes updated) = Ok (full, dict_merge hashes updated) /\
    forall name, dict_get name ev = dict_get name full.
Proof.
  intros Hf Hu H0 Hch Hpr. set (new := dict_merge hashes updated) in *.
  destruct (affected_by_spec fuel changed [] Hf) as (affected & Ha & Haff).
  destruct (version_loop_spec (fun n => set_has n affected) new ev0) as (nodes & ev & Hn & Hev & Heq).
  destruct (compute_spec new) as (full & Hc & Hfull).
  exists ev, full. split_and!; [|done|].
  { unfold recomputeFromNodes. fold new. rewrite Ha, Hn. cbn [res_bind].
    change (res_foldl _ ev0 nodes) with (version_loop (fun n => set_has n affected) new ev0 nodes). by rewrite Hev. }
  assert (Hsame : forall name, In name (names graph) ->
    dict_get name ev = dict_get name full /\ (~ In name affected -> dict_get name ev0 = dict_get name full)).
  { apply deps_induction. intros name Hin IH. apply In_names in Hin as [node En].
    pose proof (wf_names _ (og_wf graph Hg) name node En) as Hnm.
    assert (Hin : In name (names graph)) by (apply In_names; by exists node).
    assert (Hdeps : forall dep, In dep node.(gn_internalDeps) -> depends graph name dep) by (intros; by exists node).
    specialize (Heq name). rewrite (Hfull name). rewrite En in *. destruct (set_has name affected) eqn:Es.
    - cbn [andb] in Heq. apply set_has_spec in Es. split; [|done]. rewrite Heq.
      unfold version_of at 2. rewrite Hnm. destruct (present (hash_of name new)) as [h|] eqn:Eh; cbn [isSome].
      + unfold version_of. rewrite Hnm, Eh. do 3 f_equal. apply signatures_ext. intros dep Hdep.
        split; [|done]. apply IH, Hdeps, Hdep.
      + rewrite (H0 name), En. unfold version_of. rewrite Hnm.
        destruct (present (hash_of name hashes)) eqn:Eo; [|done]. exfalso. apply (Hpr name Hin); congruence.
    - cbn [andb] in Heq. apply set_has_false in Es.
      assert (Hold : dict_get name ev0 = version_of full new node).
      { rewrite (H0 name), En. unfold version_of. rewrite Hnm.
        assert (Hsh : forall m, In m (names graph) -> ~ In m affected -> hash_of m new = hash_of m hashes).
        { intros m Hm Hna. destruct (decide (hash_of m new = hash_of m hashes)) as [|Hne]; [done|].
          exfalso. apply Hna, Haff. right. exists m. split_and!; [by apply Hch|done|by left]. }
        rewrite (Hsh name) by done. destruct (present (hash_of name hashes)); [|done].
        do 3 f_equal. apply signatures_ext. intros dep Hdep. pose proof (Hdeps dep Hdep) as Hd.
        assert (Hna : ~ In dep affected).
        { intros Hda. apply Haff in Hda as [[]|(n & H1 & H2 & H3)]. apply Es, Haff. right. exists n.
          split_and!; [done|done|]. right. destruct H3 as [->|H3]; [by constructor|].
          by apply t1n_trans with dep. }
        split; [by apply IH|]. symmetry. apply Hsh; [by apply (wf_closed _ (og_wf graph Hg) name)|done]. }
      split; [by rewrite Heq|done]. }
  intros name. destruct (dict_get name (pg_nodes graph)) as [node|] eqn:En.
  - apply Hsame, In_names. by exists node.
  - rewrite Heq, (H0 name), (Hfull name), En. done.
Qed.
End Ordered.

(** * What a version tells of the contents *)

Fixpoint nul_free (s : string) : bool :=
  match s with
  | EmptyString => true
  | String c s' => negb (Ascii.eqb c Ascii.zero) && nul_free s'
  end.

Lemma nul_free_app s t : nul_free (s ^^ t) = nul_free s && nul_free t.
Proof. induction s as [|c s IH]; [done|]. rewrite string_app_cons. simpl. by rewrite IH, andb_assoc. Qed.

Lemma nul_free_take n s : nul_free s = true -> nul_free (str_take n s) = true.
Proof.
  revert s; induction n as [|n IH]; intros [|c s]; [done..|]. simpl.
  intros [-> Hs]%andb_true_iff. by apply IH.
Qed.

Lemma string_app_nil_l (u : string) : "" ^^ u = u.
Proof. done. Qed.

(** Terminated texts can be told apart. *)
Lemma terminated_inj s t u v :
  nul_free s = true -> nul_free t = true -> s ^^ NUL ^^ u = t ^^ NUL ^^ v -> s = t /\ u = v.
Proof.
  unfold NUL. revert t; induction s as [|c s IH]; intros [|d t]; rewrite ?string_app_cons, ?string_app_nil_l; simpl.
  - intros _ _ [= ->]. done.
  - intros _ [Hd _]%andb_true_iff [= <- _]. done.
  - intros [Hc _]%andb_true_iff _ [= -> _]. done.
  - intros [_ Hs]%andb_true_iff [_ Ht]%andb_true_iff [= -> He]. by destruct (IH t Hs Ht He) as [-> ->].
Qed.

Lemma hashed_bytes_cons part parts : hashed_bytes (part :: parts) = part ^^ NUL ^^ hashed_bytes parts.
Proof.
  unfold hashed_bytes. cbn [map]. destruct (map _ parts) as [|x l].
  - cbn [String.concat]. by rewrite !string_app_nil_r.
  - cbn [String.concat]. by rewrite <- string_app_assoc.
Qed.

Definition content_text (hashes : ContentHashMap) (dep : string) : string := default "missing" (hash_of dep hashes).
Definition ev_text (evMap : EffectiveVersionMap) (dep : string) : string := default "" (dict_get dep evMap).

Section Injective.
Context (ev1 ev2 : EffectiveVersionMap) (hs1 hs2 : ContentHashMap).

(** No text that goes into a signature has the terminator in it. *)
Definition clean_dep (dep : string) : Prop :=
  nul_free dep = true /\ nul_free (content_text hs1 dep) = true /\ nul_free (content_text hs2 dep) = true /\
  nul_free (ev_text ev1 dep) = true /\ nul_free (ev_text ev2 dep) = true.

Lemma signatures_inj ds1 ds2 : Forall clean_dep ds1 -> Forall clean_dep ds2 ->
  hashed_bytes (map (fun d => dep_signature d ev1 hs1) ds1) = hashed_bytes (map (fun d => dep_signature d ev2 hs2) ds2) ->
  ds1 = ds2 /\ Forall (fun d => content_text hs1 d = content_text hs2 d /\ ev_text ev1 d = ev_text ev2 d) ds1.
Proof.
  assert (Hne : forall d ev hs l, hashed_bytes (dep_signature d ev hs :: l) <> "").
  { intros d ev hs l. rewrite hashed_bytes_cons. unfold dep_signature. destruct d; discriminate. }
  intros H1. revert ds2; induction H1 as [|d1 ds1 (N1 & C1 & _ & V1 & _) H1 IH]; intros ds2 H2 He; cbn [map] in He.
  - destruct ds2 as [|d2 ds2]; [by split|]. symmetry in He. by apply Hne in He.
  - destruct ds2 as [|d2 ds2]; [by apply Hne in He|].
    pose proof (Forall_inv H2) as (N2 & _ & C2 & _ & V2). apply Forall_inv_tail in H2. cbn [map] in He.
    rewrite !hashed_bytes_cons in He. unfold dep_signature in He. fold (content_text hs1 d1) (content_text hs2 d2)
      (ev_text ev1 d1) (ev_text ev2 d2) in He.
    rewrite <- !string_app_assoc in He.
    apply terminated_inj in He as [-> He]; [|done|done].
    rewrite !(string_app_assoc "content:") in He.
    apply terminated_inj in He as [Hc He]; [|by rewrite nul_free_app, ?C1, ?C2..].
    rewrite !(string_app_assoc "ev:") in He.
    apply terminated_inj in He as [Hv He]; [|by rewrite nul_free_app, ?V1, ?V2..].
    apply string_app_inj_l in Hc, Hv. destruct (IH ds2 H2 He) as [-> Hf]. split; [done|]. by constructor.
Qed.

Lemma version_input_inj h1 h2 node :
  nul_free h1 = true -> nul_free h2 = true -> Forall clean_dep node.(gn_internalDeps) ->
  hashed_bytes (h1 :: signatures ev1 hs1 node) = hashed_bytes (h2 :: signatures ev2 hs2 node) ->
  h1 = h2 /\ Forall (fun d => content_text hs1 d = content_text hs2 d /\ ev_text ev1 d = ev_text ev2 d)
               node.(gn_internalDeps).
Proof.
  intros N1 N2 Hcl He. rewrite !hashed_bytes_cons in He. apply terminated_inj in He as [-> He]; [|done|done].
  split; [done|]. unfold signatures in He.
  destruct (Permutation_map_inv _ _ (js_sort_perm (map (fun d => dep_signature d ev1 hs1) node.(gn_internalDeps))))
    as (ds1 & E1 & P1).
  destruct (Permutation_map_inv _ _ (js_sort_perm (map (fun d => dep_signature d ev2 hs2) node.(gn_internalDeps))))
    as (ds2 & E2 & P2).
  rewrite E1, E2 in He. apply signatures_inj in He as [-> Hf].
  - eapply Permutation_Forall; [symmetry; exact P1|exact Hf].
  - eapply Permutation_Forall; [exact P1|exact Hcl].
  - eapply Permutation_Forall; [exact P2|exact Hcl].
Qed.
End Injective.

Section Tracking.
Context (graph : PackageGraph) (Hg : ordered_graph graph) `{!Sha256}.
Context (hs1 hs2 : ContentHashMap) (ev1 ev2 : EffectiveVersionMap).
Context (H1 : satisfies graph ev1 hs1) (H2 : satisfies graph ev2 hs2).

(** Hashes and names are texts without a terminator, as hexadecimal digests are. *)
Record clean_inputs : Prop := mkCleanInputs {
  ci_digest : forall s, nul_free (sha256_hex s) = true;
  ci_names : forall name, In name (names graph) -> nul_free name = true;
  ci_hashes : forall name, In name (names graph) -> exists h1 h2,
    hash_of name hs1 = Some h1 /\ hash_of name hs2 = Some h2 /\ h1 <> "" /\ h2 <> "" /\
    nul_free h1 = true /\ nul_free h2 = true
}.

(** The texts hashed for a unit by the two computations, which do not collide. *)
Definition no_collision : Prop := forall name node h1 h2,
  dict_get name graph.(pg_nodes) = Some node -> hash_of name hs1 = Some h1 -> hash_of name hs2 = Some h2 ->
  hashStrings (h1 :: signatures ev1 hs1 node) = hashStrings (h2 :: signatures ev2 hs2 node) ->
  hashed_bytes (h1 :: signatures ev1 hs1 node) = hashed_bytes (h2 :: signatures ev2 hs2 node).

Lemma present_some h : h <> "" -> present (Some h) = Some h.
Proof. intros Hne. unfold present. by rewrite string_eqb_ne. Qed.

Lemma version_some ev hs name node h :
  satisfies graph ev hs -> dict_get name graph.(pg_nodes) = Some node -> hash_of name hs = Some h -> h <> "" ->
  dict_get name ev = Some (hashStrings (h :: signatures ev hs node)).
Proof.
  intros Hs Hn Hh Hne. rewrite (Hs name), Hn. unfold version_of.
  by rewrite (wf_names _ (og_wf graph Hg) name node Hn), Hh, present_some.
Qed.

Context (Hcl : clean_inputs).

Lemma deps_clean name node :
  dict_get name graph.(pg_nodes) = Some node -> Forall (clean_dep ev1 ev2 hs1 hs2) node.(gn_internalDeps).
Proof.
  intros Hn. apply List.Forall_forall. intros d Hd.
  assert (Hin : In d (names graph)) by (apply (wf_closed _ (og_wf graph Hg) name); by exists node).
  pose proof (ci_names Hcl d Hin) as Hnd. destruct (ci_hashes Hcl d Hin) as (h1 & h2 & E1 & E2 & N1 & N2 & C1 & C2).
  apply In_names in Hin as [dnode Hdn].
  unfold clean_dep, content_text, ev_text. rewrite E1, E2.
  rewrite (version_some ev1 hs1 d dnode h1), (version_some ev2 hs2 d dnode h2) by done.
  split_and!; [done|done|done| |]; apply nul_free_take, (ci_digest Hcl).
Qed.

(** Two versions of a unit agree exactly when its content and the content of everything
    it depends on agree. *)
Lemma version_tracks : no_collision -> forall name, In name (names graph) ->
  (dict_get name ev1 = dict_get name ev2 <->
   forall m, m = name \/ depends_on graph name m -> hash_of m hs1 = hash_of m hs2).
Proof.
  intros Hnc. apply deps_induction; [done|]. intros name Hin IH.
  destruct (ci_hashes Hcl name Hin) as (h1 & h2 & E1 & E2 & N1 & N2 & C1 & C2).
  apply In_names in Hin as [node Hn].
  rewrite (version_some ev1 hs1 name node h1), (version_some ev2 hs2 name node h2) by done.
  assert (Hdeps : forall d, In d node.(gn_internalDeps) -> depends graph name d) by (intros; by exists node).
  split.
  - intros [= He]. apply (Hnc name node h1 h2 Hn E1 E2) in He.
    apply version_input_inj in He as [-> Hf]; [|done|done|by apply (deps_clean name)].
    intros m [->|Hm]; [congruence|]. rewrite List.Forall_forall in Hf.
    assert (Hd : exists d, In d node.(gn_internalDeps) /\ (m = d \/ depends_on graph d m)).
    { destruct Hm as [m (node' & Hn' & Hm)|d m (node' & Hn' & Hd) Hm]; rewrite Hn in Hn'; injection Hn' as <-;
        [exists m|exists d]; auto. }
    destruct Hd as (d & Hd & Hm'). destruct (Hf d Hd) as [_ Hev].
    apply (IH d (Hdeps d Hd)); [|done].
    pose proof (wf_closed _ (og_wf graph Hg) name d (Hdeps d Hd)) as Hdin.
    destruct (ci_hashes Hcl d Hdin) as (g1 & g2 & G1 & G2 & M1 & M2 & _ & _). apply In_names in Hdin as [dnode Hdn].
    unfold ev_text in Hev. rewrite (version_some ev1 hs1 d dnode g1), (version_some ev2 hs2 d dnode g2) in * by done.
    cbn in Hev. by f_equal.
  - intros Hm. assert (h1 = h2) as <- by (specialize (Hm name (or_introl eq_refl)); congruence).
    do 3 f_equal. apply signatures_ext. intros d Hd. split.
    + apply (IH d (Hdeps d Hd)). intros m [->|Hdm]; apply Hm; right; [constructor; auto|].
      apply t1n_trans with d; auto.
    + apply Hm. right. constructor. auto.
Qed.
End Tracking.

(** * The difference of two maps *)

Lemma diff_spec previous current : dict_wf current ->
  let cs := diffEvMaps previous current in
  (forall name, In name cs.(cs_changed) <-> exists old ev,
     dict_get name previous = Some old /\ dict_get name current = Some ev /\ old <> ev) /\
  (forall name, In name cs.(cs_added) <-> dict_get name previous = None /\ exists ev, dict_get name current = Some ev) /\
  (forall name, In name cs.(cs_removed) <-> (exists old, dict_get name previous = Some old) /\ dict_get name current = None).
Proof.
  intros Hwf. unfold diffEvMaps.
  assert (Hloop : forall l changed added, let '(c, a) :=
      fold_left (fun '(changed, added) '(name, ev) =>
         match dict_get name previous with
         | None => (changed, added ++ [name])
         | Some old => if old <>s? ev then (changed ++ [name], added) else (changed, added)
         end) l (changed, added) in
      (forall name, In name c <-> In name changed \/
         exists old ev, In (name, ev) l /\ dict_get name previous = Some old /\ old <> ev) /\
      (forall name, In name a <-> In name added \/ (dict_get name previous = None /\ exists ev, In (name, ev) l))).
  { induction l as [|[k ev] l IH]; intros changed added; cbn [fold_left].
    - split; intros name; (split; [by left|]); intros [?|?]; [done| |done|]; destruct_and?; naive_solver.
    - destruct (dict_get k previous) as [old|] eqn:Ek.
      + destruct (String.eqb_spec old ev) as [->|Hne]; cbn [negb].
        * specialize (IH changed added). destruct (fold_left _ l _) as [c a]. destruct IH as [Hc Ha].
          split; intros name; rewrite ?Hc, ?Ha; simpl; naive_solver.
        * specialize (IH (changed ++ [k]) added). destruct (fold_left _ l _) as [c a]. destruct IH as [Hc Ha].
          split; intros name; rewrite ?Hc, ?Ha, ?in_app_iff; simpl; naive_solver.
      + specialize (IH changed (added ++ [k])). destruct (fold_left _ l _) as [c a]. destruct IH as [Hc Ha].
        split; intros name; rewrite ?Hc, ?Ha, ?in_app_iff; simpl; naive_solver. }
  specialize (Hloop current [] []). destruct (fold_left _ current _) as [c a]. destruct Hloop as [Hc Ha].
  cbn [cs_changed cs_added cs_removed].
  assert (Hget : forall name ev, In (name, ev) current <-> dict_get name current = Some ev).
  { intros name ev. split; [by apply dict_In_get|apply dict_get_In]. }
  split_and!.
  - intros name. rewrite Hc. setoid_rewrite Hget. simpl. naive_solver.
  - intros name. rewrite Ha. setoid_rewrite Hget. simpl. naive_solver.
  - intros name. rewrite filter_In, negb_true_iff. unfold dict_has.
    assert (Hp : In name (dict_keys previous) <-> exists old, dict_get name previous = Some old).
    { split.
      - intros Hin. destruct (dict_get name previous) as [o|] eqn:E; [by exists o|].
        by apply dict_get_None_keys in E.
      - intros [o Ho]. apply dict_get_In in Ho. by apply (in_map fst) in Ho. }
    rewrite Hp. destruct (dict_get name current); naive_solver.
Qed.
