(* ===== verification/BuildTrigger.v ===== *)
(** The state trigger (src/server/buildV2/stateTrigger.ts): it keeps the package graph
    and the effective versions of the main head current as states advance, and builds
    the units whose versions changed. The workspace states, the build store and the
    builder are interfaces. *)
From S2P Require Import Prelude Dict JsValue JsText BuildGraph BuildEv.

(** [WorkspaceStateSource]: the graph discovered at a state, and the subtree hashes of
    unit directories at a state, null for one that is not there. *)
Class StateSource := {
  discoverGraph : string -> res PackageGraph;
  unitHashes : string -> list string -> res (dict (option string))
}.

(** The build store, and a build that succeeds or fails with a message. *)
Class BuildHost (Store : Type) := {
  store_has : Store -> string -> bool;
  buildUnit : Store -> GraphNode -> string -> string -> Store * option string;
  rootDepsFingerprint : string
}.

Record StateAdvancedEvent := mkAdvanced {
  sa_head : string;
  sa_stateHash : string;
  sa_changedPaths : list string;
  sa_repoPath : option string
}.

Definition MAIN_HEAD : string := "main".

Inductive TriggerEvent :=
| GraphUpdated (stateHash : string) (evMap : EffectiveVersionMap)
| ChangeDetected (names : list string)
| BuildStarted (name : string)
| BuildComplete (name buildKey : string)
| BuildError (name error : string).

(** The fields of the trigger, and the persisted state of [persistEvState]. *)
Record Trigger := mkTrigger {
  tr_graph : PackageGraph;
  tr_evMap : EffectiveVersionMap;
  tr_contentHashes : ContentHashMap;
  tr_stateHash : string;
  tr_persisted : option (string * EffectiveVersionMap * ContentHashMap)
}.

Definition isBuildableKind (kind : NodeKind) : bool :=
  match kind with KPackage | KTemplate => false | _ => true end.

(** * Which units a change is in *)

Definition unit_prefix (node : GraphNode) : string := node.(gn_relativePath) ^^ "/".

(** The stable sort of the units, longest prefix first. *)
Fixpoint prefix_insert (node : GraphNode) (l : list GraphNode) : list GraphNode :=
  match l with
  | [] => [node]
  | x :: l' =>
      if Nat.leb (String.length (unit_prefix x)) (String.length (unit_prefix node))
      then node :: l else x :: prefix_insert node l'
  end.

Fixpoint by_prefix (l : list GraphNode) : list GraphNode :=
  match l with [] => [] | node :: l' => prefix_insert node (by_prefix l') end.

Definition owns (changed : string) (node : GraphNode) : bool :=
  (changed =s? node.(gn_relativePath)) || startsWith changed (unit_prefix node).

Record ChangedUnits := mkChangedUnits {
  cu_units : list string;
  cu_unmatched : list string;
  cu_manifestTouched : bool
}.

Definition unitsForChangedPaths (graph : PackageGraph) (changedPaths : list string) : ChangedUnits :=
  let byPath := by_prefix (allNodes graph) in
  fold_left
    (fun cu changed =>
       match List.find (owns changed) byPath with
       | None => mkChangedUnits cu.(cu_units) (cu.(cu_unmatched) ++ [changed]) cu.(cu_manifestTouched)
       | Some owner =>
           mkChangedUnits
             (if set_has owner.(gn_name) cu.(cu_units) then cu.(cu_units) else cu.(cu_units) ++ [owner.(gn_name)])
             cu.(cu_unmatched)
             (cu.(cu_manifestTouched) || (changed =s? owner.(gn_relativePath) ^^ "/package.json"))
       end)
    changedPaths (mkChangedUnits [] [] false).

(** [if (hash) hashes[name] = hash] for the units of a list. *)
Definition hashes_by_name (nodes : list GraphNode) (hashesByPath : dict (option string)) : ContentHashMap :=
  fold_left
    (fun hashes node =>
       match present (hash_of node.(gn_relativePath) hashesByPath) with
       | Some hash => dict_set node.(gn_name) (Some hash) hashes
       | None => hashes
       end)
    nodes [].

Section Trigger.
Context {Store : Type} `{!Sha256, !StateSource, !BuildHost Store}.

(** * Eager builds *)

(** One round of the loop of [buildChanged]. *)
Definition build_one (graph : PackageGraph) (evMap : EffectiveVersionMap) (stateHash : string)
    (sourceUnitName : option string) (store : Store) (name : string) : res (Store * list TriggerEvent) :=
  match tryGet graph name with
  | None => Ok (store, [])
  | Some node =>
      if negb (isBuildableKind node.(gn_kind)) then Ok (store, [])
      else if bool_decide (node.(gn_kind) = KExtension \/ node.(gn_kind) = KApp)
              && negb (bool_decide (sourceUnitName = Some name))
      then Ok (store, [])
      else
        match dict_get name evMap with
        | None => Throw "Expected a defined value but received null/undefined."
        | Some ev =>
            let buildKey := computeBuildUnitKey rootDepsFingerprint node ev noOptions in
            if store_has store buildKey then Ok (store, [BuildComplete name buildKey])
            else
              let '(store, error) := buildUnit store node ev stateHash in
              match error with
              | None => Ok (store, [BuildStarted name; BuildComplete name buildKey])
              | Some e => Ok (store, [BuildStarted name; BuildError name e])
              end
        end
  end.

Fixpoint build_all (graph : PackageGraph) (evMap : EffectiveVersionMap) (stateHash : string)
    (sourceUnitName : option string) (store : Store) (names : list string)
    : Store * list TriggerEvent * option string :=
  match names with
  | [] => (store, [], None)
  | name :: rest =>
      match build_one graph evMap stateHash sourceUnitName store name with
      | Throw e => (store, [], Some e)
      | Ok (store, events) =>
          let '(store, more, error) := build_all graph evMap stateHash sourceUnitName store rest in
          (store, events ++ more, error)
      end
  end.

Definition buildChanged (names : list string) (graph : PackageGraph) (evMap : EffectiveVersionMap)
    (stateHash : string) (sourceUnitName : option string) (store : Store)
    : Store * list TriggerEvent * option string :=
  match names with
  | [] => (store, [], None)
  | _ =>
      let '(store, events, error) := build_all graph evMap stateHash sourceUnitName store names in
      (store, ChangeDetected names :: events, error)
  end.

(** * Advances *)

(** A run of the trigger: its state and the store after, the events emitted, and the
    error it was rejected with. *)
Record Outcome := mkOutcome {
  oc_trigger : Trigger;
  oc_store : Store;
  oc_events : list TriggerEvent;
  oc_error : option string
}.

Definition failed (t : Trigger) (store : Store) (error : string) : Outcome :=
  mkOutcome t store [] (Some error).

(** The common end of both ways to follow an advance: take the new state over, persist
    and announce it, and build what changed. *)
Definition take_over (t : Trigger) (store : Store) (graph : PackageGraph) (evMap : EffectiveVersionMap)
    (contentHashes : ContentHashMap) (stateHash : string) (sourceUnitName : option string) : Outcome :=
  let changeset := diffEvMaps t.(tr_evMap) evMap in
  let t := mkTrigger graph evMap contentHashes stateHash (Some (stateHash, evMap, contentHashes)) in
  let '(store, events, error) :=
    buildChanged (changeset.(cs_changed) ++ changeset.(cs_added)) graph evMap stateHash sourceUnitName store in
  mkOutcome t store (GraphUpdated stateHash evMap :: events) error.

(** The graph and the versions of a state, from scratch. *)
Definition rediscover (stateHash : string) : res (PackageGraph * EffectiveVersionMap * ContentHashMap) :=
  let! newGraph := discoverGraph stateHash in
  let! hashesByPath := unitHashes stateHash (map gn_relativePath (allNodes newGraph)) in
  let contentHashes := hashes_by_name (allNodes newGraph) hashesByPath in
  let! result := computeEffectiveVersions newGraph contentHashes in
  Ok (newGraph, result.1, result.2).

Definition rediscoverAt (t : Trigger) (stateHash : string) : res (Trigger * list TriggerEvent) :=
  let! found := rediscover stateHash in
  let '(graph, evMap, contentHashes) := found in
  Ok (mkTrigger graph evMap contentHashes stateHash (Some (stateHash, evMap, contentHashes)),
      [GraphUpdated stateHash evMap]).

Definition fullRediscovery (t : Trigger) (store : Store) (event : StateAdvancedEvent)
    (sourceUnitName : option string) : Outcome :=
  match rediscover event.(sa_stateHash) with
  | Throw e => failed t store e
  | Ok (graph, evMap, contentHashes) =>
      take_over t store graph evMap contentHashes event.(sa_stateHash) sourceUnitName
  end.

Definition process (fuel : nat) (t : Trigger) (store : Store) (event : StateAdvancedEvent) : option Outcome :=
  if (default "" event.(sa_repoPath) =s? "") && (event.(sa_stateHash) =s? t.(tr_stateHash))
  then Some (mkOutcome t store [] None)
  else
    let cu := unitsForChangedPaths t.(tr_graph) event.(sa_changedPaths) in
    match cu.(cu_unmatched), cu.(cu_manifestTouched) with
    | [], false =>
        match cu.(cu_units) with
        | [] =>
            Some (mkOutcome (mkTrigger t.(tr_graph) t.(tr_evMap) t.(tr_contentHashes) event.(sa_stateHash)
                               t.(tr_persisted)) store [] None)
        | changedNames =>
            match
              (let! nodes := get_all t.(tr_graph) changedNames in
               let! freshHashes := unitHashes event.(sa_stateHash) (map gn_relativePath nodes) in
               Ok (hashes_by_name nodes freshHashes))
            with
            | Throw e => Some (failed t store e)
            | Ok updated =>
                match recomputeFromNodes fuel t.(tr_graph) changedNames t.(tr_evMap) t.(tr_contentHashes) updated with
                | None => None
                | Some (Throw e) => Some (failed t store e)
                | Some (Ok (evMap, contentHashes)) =>
                    Some (take_over t store t.(tr_graph) evMap contentHashes event.(sa_stateHash) None)
                end
            end
        end
    | _, _ => Some (fullRediscovery t store event None)
    end.

(** [handleAdvance]: events run one after the other; an error is logged, and only the
    main head is followed. *)
Definition handleAdvance (fuel : nat) (t : Trigger) (store : Store) (event : StateAdvancedEvent) : option Outcome :=
  if event.(sa_head) =s? MAIN_HEAD then process fuel t store event else Some (mkOutcome t store [] None).

(** The queue of advances: each is handled on the state the one before left. *)
Fixpoint handleAdvances (fuel : nat) (t : Trigger) (store : Store) (events : list StateAdvancedEvent)
    : option Outcome :=
  match events with
  | [] => Some (mkOutcome t store [] None)
  | event :: rest =>
      match handleAdvance fuel t store event with
      | None => None
      | Some oc =>
          match handleAdvances fuel oc.(oc_trigger) oc.(oc_store) rest with
          | None => None
          | Some last =>
              Some (mkOutcome last.(oc_trigger) last.(oc_store) (oc.(oc_events) ++ last.(oc_events))
                      (match oc.(oc_error) with Some e => Some e | None => last.(oc_error) end))
          end
      end
  end.
End Trigger.
Arguments Outcome : clear implicits.
