(* ===== verification/BuildTriggerLaws.v ===== *)
(** Laws of the state trigger: which hashes an advance refreshes, and that the versions
    it keeps satisfy the version equation. *)
From S2P Require Import Prelude Dict JsValue JsText BuildGraph BuildGraphLaws BuildEv BuildEvLaws BuildTrigger.
#[local] Set Warnings "-clear-no-such-hyp".

(** * Hashes of a list of units *)

Lemma hashes_by_name_spec nodes hashesByPath :
  List.NoDup (map gn_name nodes) ->
  dict_wf (hashes_by_name nodes hashesByPath) /\
  (forall node, In node nodes ->
     hash_of node.(gn_name) (hashes_by_name nodes hashesByPath) = present (hash_of node.(gn_relativePath) hashesByPath)) /\
  forall name, ~ In name (map gn_name nodes) -> dict_get name (hashes_by_name nodes hashesByPath) = None.
Proof.
  intros Hnd. unfold hashes_by_name.
  assert (Hloop : forall todo (hashes : ContentHashMap), List.NoDup (map gn_name todo) -> dict_wf hashes ->
    (forall name, In name (map gn_name todo) -> dict_get name hashes = None) ->
    let hashes' := fold_left (fun hashes node =>
       match present (hash_of node.(gn_relativePath) hashesByPath) with
       | Some hash => dict_set node.(gn_name) (Some hash) hashes
       | None => hashes
       end) todo hashes in
    dict_wf hashes' /\
    (forall node, In node todo -> hash_of node.(gn_name) hashes' = present (hash_of node.(gn_relativePath) hashesByPath)) /\
    forall name, ~ In name (map gn_name todo) -> dict_get name hashes' = dict_get name hashes).
  { induction todo as [|node todo IH]; intros hashes Hn Hwf Hnone; cbn [fold_left map]; [by split_and!|].
    apply List.NoDup_cons_iff in Hn as [Hnew Hn]. cbn [map] in Hnone.
    set (hashes1 := match present (hash_of node.(gn_relativePath) hashesByPath) with
                    | Some hash => dict_set node.(gn_name) (Some hash) hashes | None => hashes end).
    assert (Hother : forall name, name <> gn_name node -> dict_get name hashes1 = dict_get name hashes).
    { intros name Hne. unfold hashes1. destruct (present _); [|done]. by rewrite dict_get_set_ne by congruence. }
    destruct (IH hashes1 Hn) as (H1 & H2 & H3).
    - unfold hashes1. destruct (present _); [by apply dict_set_wf|done].
    - intros name Hin. rewrite Hother by (intros ->; done). apply Hnone. by right.
    - split_and!; [done| |].
      + intros m [<-|Hin]; [|by apply H2]. unfold hash_of at 1. rewrite H3 by done. unfold hashes1.
        destruct (present (hash_of (gn_relativePath node) hashesByPath)); [by rewrite dict_get_set_eq|].
        by rewrite Hnone by by left.
      + intros name Hni. rewrite H3 by (intros Hin; apply Hni; by right). apply Hother. intros ->. apply Hni. by left. }
  apply (Hloop nodes []); [done|apply base.NoDup_nil_2|done].
Qed.

(** * Units of changed paths *)

Lemma prefix_insert_perm node l : Permutation (prefix_insert node l) (node :: l).
Proof.
  induction l as [|x l IH]; [done|]. simpl. destruct (Nat.leb _ _); [done|]. rewrite IH. apply perm_swap.
Qed.

Lemma by_prefix_perm l : Permutation (by_prefix l) l.
Proof. induction l as [|node l IH]; [done|]. simpl. by rewrite prefix_insert_perm, IH. Qed.

Lemma units_known graph paths : graph_wf graph ->
  List.NoDup (unitsForChangedPaths graph paths).(cu_units) /\
  incl (unitsForChangedPaths graph paths).(cu_units) (names graph).
Proof.
  intros Hwf. unfold unitsForChangedPaths.
  assert (Hloop : forall cu, List.NoDup cu.(cu_units) -> incl cu.(cu_units) (names graph) ->
    let cu' := fold_left (fun cu changed =>
       match List.find (owns changed) (by_prefix (allNodes graph)) with
       | None => mkChangedUnits cu.(cu_units) (cu.(cu_unmatched) ++ [changed]) cu.(cu_manifestTouched)
       | Some owner =>
           mkChangedUnits
             (if set_has owner.(gn_name) cu.(cu_units) then cu.(cu_units) else cu.(cu_units) ++ [owner.(gn_name)])
             cu.(cu_unmatched)
             (cu.(cu_manifestTouched) || (changed =s? owner.(gn_relativePath) ^^ "/package.json"))
       end) paths cu in
    List.NoDup cu'.(cu_units) /\ incl cu'.(cu_units) (names graph)).
  { induction paths as [|changed paths IH]; intros cu Hnd Hi; cbn [fold_left]; [done|].
    destruct (List.find _ _) as [owner|] eqn:Ef; apply IH; cbn [cu_units]; try done.
    - destruct (set_has _ _) eqn:Es; [done|]. apply set_has_false in Es. by apply NoDup_snoc.
    - destruct (set_has _ _); [done|]. apply incl_app; [done|]. intros x [<-|[]].
      rewrite <- (node_names graph Hwf). apply in_map. apply List.find_some in Ef as [Ef _].
      by apply (Permutation_in _ (by_prefix_perm _)) in Ef. }
  apply Hloop; [constructor|by intros x []].
Qed.

(** * Versions and equal maps *)

Section Kept.
Context `{!Sha256}.

Lemma satisfies_ext graph ev ev' hashes :
  (forall name, dict_get name ev = dict_get name ev') -> satisfies graph ev hashes -> satisfies graph ev' hashes.
Proof.
  intros He Hs name. rewrite <- He, (Hs name). destruct (dict_get name (pg_nodes graph)) as [node|]; [|done].
  unfold version_of. destruct (present _); [|done]. do 3 f_equal. by apply signatures_ext.
Qed.

Lemma version_node_wf graph hashes ev node ev' :
  dict_wf ev -> version_node graph hashes ev node = Ok ev' -> dict_wf ev'.
Proof.
  intros Hwf. unfold version_node. destruct (present _); [|by intros [= <-]].
  destruct (buildDepSignatures _ _ _ _); [|done]. intros [= <-]. by apply dict_set_wf.
Qed.

Lemma compute_wf graph hashes ev hashes' :
  computeEffectiveVersions graph hashes = Ok (ev, hashes') -> dict_wf ev.
Proof.
  unfold computeEffectiveVersions. destruct (topologicalOrder graph) as [nodes|]; [|done]. cbn [res_bind].
  destruct (res_foldl (version_node graph hashes) [] nodes) as [ev1|] eqn:E; [|done]. intros [= -> _].
  refine (res_foldl_inv dict_wf (version_node graph hashes) nodes _ [] ev base.NoDup_nil_2 E).
  intros s x s'. apply version_node_wf.
Qed.

Lemma recompute_wf fuel graph changed ev0 hashes updated ev hashes' :
  dict_wf ev0 -> recomputeFromNodes fuel graph changed ev0 hashes updated = Some (Ok (ev, hashes')) -> dict_wf ev.
Proof.
  intros Hwf. unfold recomputeFromNodes. destruct (affected_by _ _ _ _) as [affected|]; [|done].
  destruct (topologicalOrder graph) as [nodes|]; [|done]. cbn [res_bind].
  match goal with |- context [res_foldl ?f ev0 nodes] => destruct (res_foldl f ev0 nodes) as [ev1|] eqn:E end; [|done].
  intros [= -> _].
  eapply (res_foldl_inv dict_wf _ nodes); [|exact Hwf|exact E].
  intros s x s' Hs. cbv beta. destruct (negb _); [by intros [= <-]|]. by apply version_node_wf.
Qed.
End Kept.

(** * One advance *)

Section Advance.
Context {Store : Type} `{!Sha256, !StateSource, !BuildHost Store}.

(** What the trigger relies on of the source: discovered graphs are ordered, and the
    batch of hashes is the subtree hash of each path asked for. *)
Class SourceLaws (subtree : string -> string -> option string) : Prop := {
  sl_graph s g : discoverGraph s = Ok g -> ordered_graph g;
  sl_hashes s paths : exists r, unitHashes s paths = Ok r /\ forall p, In p paths -> hash_of p r = subtree s p
}.

Context (subtree : string -> string -> option string) `{!SourceLaws subtree}.

(** The directory hash of a unit of a graph at a state, if there is one. *)
Definition unit_hash (graph : PackageGraph) (stateHash name : string) : option string :=
  match dict_get name graph.(pg_nodes) with
  | Some node => present (subtree stateHash node.(gn_relativePath))
  | None => None
  end.

Lemma present_idem h : present (present h) = present h.
Proof. destruct h as [h|]; [|done]. simpl. destruct (h =s? "") eqn:E; [done|]. simpl. by rewrite E. Qed.

Lemma unit_hash_present graph s name : present (unit_hash graph s name) = unit_hash graph s name.
Proof. unfold unit_hash. destruct (dict_get name _); [apply present_idem|done]. Qed.

(** The versions the trigger keeps are those of the hashes it keeps. *)
Record kept (t : Trigger) : Prop := mkKept {
  kp_graph : ordered_graph t.(tr_graph);
  kp_versions : satisfies t.(tr_graph) t.(tr_evMap) t.(tr_contentHashes);
  kp_wf : dict_wf t.(tr_evMap)
}.

(** The units the trigger announced as changed. *)
Definition announced (events : list TriggerEvent) : list string :=
  flat_map (fun e => match e with ChangeDetected names => names | _ => [] end) events.

Lemma build_one_quiet graph evMap s source store name store' events :
  build_one graph evMap s source store name = Ok (store', events) -> announced events = [].
Proof.
  unfold build_one. destruct (tryGet graph name) as [node|]; [|by intros [= _ <-]].
  repeat case_match; intros Heq; simplify_eq; done.
Qed.

Lemma build_all_ok graph evMap s source store names :
  (forall name, In name names -> dict_get name evMap <> None) ->
  exists store' events, build_all graph evMap s source store names = (store', events, None) /\ announced events = [].
Proof.
  revert store; induction names as [|name names IH]; intros store Hn; cbn [build_all]; [by eexists _, _|].
  destruct (build_one graph evMap s source store name) as [[store1 ev1]|e] eqn:Eb.
  - destruct (IH store1) as (store2 & ev2 & -> & He); [intros m Hm; apply Hn; by right|].
    eexists _, _. split; [reflexivity|]. apply build_one_quiet in Eb. unfold announced in *.
    by rewrite flat_map_app, Eb, He.
  - exfalso. unfold build_one in Eb. specialize (Hn name (or_introl eq_refl)). repeat case_match; done.
Qed.

Lemma take_over_spec t store graph ev hashes s source :
  dict_wf ev ->
  exists store' events,
    take_over t store graph ev hashes s source =
      mkOutcome (mkTrigger graph ev hashes s (Some (s, ev, hashes))) store' events None /\
    forall name, In name (announced events) <->
      exists v, dict_get name ev = Some v /\ dict_get name t.(tr_evMap) <> Some v.
Proof.
  intros Hwf. unfold take_over. destruct (diff_spec t.(tr_evMap) ev Hwf) as (Hc & Ha & _).
  set (cs := diffEvMaps _ _) in *.
  assert (Hin : forall name, In name (cs_changed cs ++ cs_added cs) <->
    exists v, dict_get name ev = Some v /\ dict_get name t.(tr_evMap) <> Some v).
  { intros name. rewrite in_app_iff, Hc, Ha. split.
    - intros [(old & v & H1 & H2 & H3)|[H1 [v H2]]]; exists v; split; congruence.
    - intros (v & H1 & H2). destruct (dict_get name t.(tr_evMap)) as [old|] eqn:Eo; [left|right; eauto].
      exists old, v. split_and!; [done|done|congruence]. }
  unfold buildChanged. destruct (cs_changed cs ++ cs_added cs) as [|n ns] eqn:En.
  - eexists _, _. split; [reflexivity|]. exact Hin.
  - destruct (build_all_ok graph ev s source store (n :: ns)) as (store' & events & -> & He).
    { intros name Hn. apply Hin in Hn as (v & Hv & _). congruence. }
    eexists _, _. split; [reflexivity|]. intros name. unfold announced in *. cbn [flat_map]. rewrite He.
    rewrite app_nil_r. apply Hin.
Qed.

Definition content_only (graph : PackageGraph) (event : StateAdvancedEvent) : Prop :=
  let cu := unitsForChangedPaths graph event.(sa_changedPaths) in
  cu.(cu_unmatched) = [] /\ cu.(cu_manifestTouched) = false.

Definition changed_units (graph : PackageGraph) (event : StateAdvancedEvent) : list string :=
  (unitsForChangedPaths graph event.(sa_changedPaths)).(cu_units).

(** An advance of the main head that the trigger does not skip as already current. *)
Definition followed (t : Trigger) (event : StateAdvancedEvent) : Prop :=
  event.(sa_head) = MAIN_HEAD /\
  (event.(sa_stateHash) <> t.(tr_stateHash) \/ default "" event.(sa_repoPath) <> "").

Lemma followed_not_skipped t event : followed t event ->
  (default "" event.(sa_repoPath) =s? "") && (event.(sa_stateHash) =s? t.(tr_stateHash)) = false.
Proof.
  intros [_ [Hn|Hn]]; apply andb_false_iff; [right|left]; by apply String.eqb_neq.
Qed.

(** The hash of a touched unit: that at the new state or, when the unit is gone there, the
    one it had. *)
Definition fresh_hash (graph : PackageGraph) (hashes : ContentHashMap) (stateHash name : string) : option string :=
  match unit_hash graph stateHash name with Some h => Some h | None => hash_of name hashes end.

Lemma hashes_by_name_some nodes hashesByPath name : dict_get name (hashes_by_name nodes hashesByPath) <> Some None.
Proof.
  unfold hashes_by_name. assert (Hloop : forall (hashes : ContentHashMap), dict_get name hashes <> Some None ->
    dict_get name (fold_left (fun hashes node =>
      match present (hash_of node.(gn_relativePath) hashesByPath) with
      | Some hash => dict_set node.(gn_name) (Some hash) hashes
      | None => hashes
      end) nodes hashes) <> Some None); [|by apply Hloop].
  induction nodes as [|node nodes IH]; intros hashes Hsome; [done|]. cbn [fold_left]. apply IH. destruct (present _); [|done].
  destruct (String.eqb_spec node.(gn_name) name) as [<-|Hne]; [by rewrite dict_get_set_eq|by rewrite dict_get_set_ne].
Qed.

(** The fresh hashes of known units, merged over the kept ones. *)
Lemma refreshed_hashes graph units stateHash (hashes : ContentHashMap) :
  ordered_graph graph -> List.NoDup units -> incl units (names graph) ->
  exists updated,
    (let! nodes := get_all graph units in
     let! freshHashes := unitHashes stateHash (map gn_relativePath nodes) in
     Ok (hashes_by_name nodes freshHashes)) = Ok updated /\ dict_wf updated /\
    forall name, hash_of name (dict_merge hashes updated) =
      if set_has name units then fresh_hash graph hashes stateHash name else hash_of name hashes.
Proof.
  intros Hg Hnd Hi. destruct (get_all_names graph Hg units Hi) as (nodes & Hn & Hmap & Hnf).
  destruct (sl_hashes stateHash (map gn_relativePath nodes)) as (r & Hr & Hrs). rewrite Hn. cbn [res_bind].
  rewrite Hr. cbn [res_bind]. rewrite <- Hmap in Hnd. destruct (hashes_by_name_spec nodes r Hnd) as (Uwf & Uin & Uout).
  exists (hashes_by_name nodes r). split_and!; [done|done|]. set (updated := hashes_by_name nodes r) in *.
  intros name. unfold hash_of. rewrite dict_get_merge by done. destruct (set_has name units) eqn:Es.
  - apply set_has_spec in Es.
    assert (Hupd : hash_of name updated = unit_hash graph stateHash name).
    { rewrite <- Hmap in Es. apply in_map_iff in Es as (node & <- & Hin).
      rewrite Uin by done. rewrite Hrs by by apply in_map. unfold unit_hash.
      rewrite List.Forall_forall in Hnf. by rewrite Hnf. }
    unfold fresh_hash. rewrite <- Hupd. unfold hash_of. pose proof (hashes_by_name_some nodes r name) as Hs. fold updated in Hs.
    destruct (dict_get name updated) as [[h|]|]; done.
  - apply set_has_false in Es. by rewrite Uout by by rewrite Hmap.
Qed.

(** An advance within known units: the hashes of those that are there are refreshed, the
    rest is kept, and the units whose version changes are announced. *)
Lemma process_content fuel t store event :
  kept t -> followed t event -> length (names t.(tr_graph)) + 1 < fuel -> content_only t.(tr_graph) event ->
  exists t' store' events,
    handleAdvance fuel t store event = Some (mkOutcome t' store' events None) /\
    kept t' /\ t'.(tr_graph) = t.(tr_graph) /\ t'.(tr_stateHash) = event.(sa_stateHash) /\
    (forall name, In name (names t.(tr_graph)) -> hash_of name t'.(tr_contentHashes) =
       if set_has name (changed_units t.(tr_graph) event)
       then fresh_hash t.(tr_graph) t.(tr_contentHashes) event.(sa_stateHash) name else hash_of name t.(tr_contentHashes)) /\
    (forall name, In name (announced events) <->
       dict_get name t'.(tr_evMap) <> dict_get name t.(tr_evMap)).
Proof.
  intros Hk Hfol Hf [Hun Hm]. pose proof (followed_not_skipped t event Hfol) as Hskip.
  pose proof (kp_graph t Hk) as Hg. unfold handleAdvance. destruct Hfol as [-> _]. rewrite string_eqb_refl.
  unfold process. rewrite Hskip, Hun, Hm. unfold changed_units in *.
  destruct (units_known t.(tr_graph) event.(sa_changedPaths) (og_wf _ Hg)) as [Hnd Hi].
  destruct (cu_units _) as [|u us] eqn:Eu.
  { eexists _, _, _. split; [reflexivity|]. split; [by destruct Hk|]. split_and!; [done|done|done|].
    intros name. split; [done|]. by intros []. }
  rewrite <- Eu in *. set (units := cu_units _) in *.
  destruct (refreshed_hashes t.(tr_graph) units event.(sa_stateHash) t.(tr_contentHashes) Hg Hnd Hi)
    as (updated & Hupd & Uwf & Hmerge). rewrite Hupd.
  destruct (recompute_spec t.(tr_graph) Hg fuel units t.(tr_evMap) t.(tr_contentHashes) updated)
    as (ev & full & Hrec & Hfull & Heq); [done|done|apply Hk| | |].
  { intros name _ Hne. rewrite Hmerge in Hne. destruct (set_has name units) eqn:Es; [|done].
    by apply set_has_spec. }
  { intros name _ Hp. rewrite Hmerge. destruct (set_has name units) eqn:Es; [|done].
    unfold fresh_hash. pose proof (unit_hash_present t.(tr_graph) event.(sa_stateHash) name) as Hu.
    destruct (unit_hash _ _ _); [by rewrite Hu|done]. }
  rewrite Hrec. pose proof (recompute_wf _ _ _ _ _ _ _ _ (kp_wf t Hk) Hrec) as Hevwf.
  destruct (compute_spec t.(tr_graph) Hg (dict_merge t.(tr_contentHashes) updated)) as (full' & Hfull' & Hsat).
  rewrite Hfull in Hfull'. injection Hfull' as <-.
  destruct (take_over_spec t store t.(tr_graph) ev (dict_merge t.(tr_contentHashes) updated)
    event.(sa_stateHash) None Hevwf) as (store' & events & -> & Han).
  eexists _, _, _. split; [reflexivity|]. split.
  { split; cbn [tr_graph tr_evMap tr_contentHashes]; [done| |done]. eapply satisfies_ext; [|exact Hsat].
    intros name. by rewrite Heq. }
  split_and!; [done|done|intros name _; apply Hmerge|].
  intros name. rewrite Han. cbn [tr_evMap]. split; [intros (v & H1 & H2); congruence|].
  intros Hne. destruct (dict_get name ev) as [v|] eqn:Ev; [by exists v; split; [|congruence]|].
  exfalso. apply Hne. symmetry. rewrite Heq, (Hsat name) in Ev. rewrite (kp_versions t Hk name).
  destruct (dict_get name (pg_nodes t.(tr_graph))) as [node|] eqn:En; [|done].
  unfold version_of in *. rewrite (wf_names _ (og_wf _ Hg) name node En) in *.
  rewrite Hmerge in Ev. destruct (set_has name units) eqn:Es.
  - unfold fresh_hash in Ev. pose proof (unit_hash_present t.(tr_graph) event.(sa_stateHash) name) as Hu.
    destruct (unit_hash _ _ _); [by rewrite Hu in Ev|]. by destruct (present _).
  - destruct (present (hash_of name (tr_contentHashes t))); done.
Qed.

(** An advance with a new path or a touched manifest: everything is computed anew. *)
Lemma process_rediscovery fuel t store event graph :
  followed t event -> ~ content_only t.(tr_graph) event -> discoverGraph event.(sa_stateHash) = Ok graph ->
  exists t' store' events,
    handleAdvance fuel t store event = Some (mkOutcome t' store' events None) /\
    kept t' /\ t'.(tr_graph) = graph /\ t'.(tr_stateHash) = event.(sa_stateHash) /\
    (forall name, In name (names graph) ->
       hash_of name t'.(tr_contentHashes) = unit_hash graph event.(sa_stateHash) name).
Proof.
  intros Hfol Hco Hd. pose proof (followed_not_skipped t event Hfol) as Hskip.
  unfold handleAdvance. destruct Hfol as [-> _]. rewrite string_eqb_refl. unfold process. rewrite Hskip.
  pose proof (sl_graph event.(sa_stateHash) graph Hd) as Hg.
  assert (Hnd : List.NoDup (map gn_name (allNodes graph))).
  { rewrite (node_names graph (og_wf _ Hg)). apply NoDup_ListNoDup, (wf_nodes _ (og_wf _ Hg)). }
  destruct (sl_hashes event.(sa_stateHash) (map gn_relativePath (allNodes graph))) as (r & Hr & Hrs).
  destruct (hashes_by_name_spec (allNodes graph) r Hnd) as (_ & Uin & _).
  set (hashes := hashes_by_name (allNodes graph) r) in *.
  destruct (compute_spec graph Hg hashes) as (ev & Hc & Hsat). pose proof (compute_wf _ _ _ _ Hc) as Hwf.
  assert (Hre : rediscover event.(sa_stateHash) = Ok (graph, ev, hashes)).
  { unfold rediscover. rewrite Hd. cbn [res_bind]. rewrite Hr. cbn [res_bind]. fold hashes. by rewrite Hc. }
  assert (Hfull : fullRediscovery t store event None
      = take_over t store graph ev hashes event.(sa_stateHash) None) by by unfold fullRediscovery; rewrite Hre.
  destruct (take_over_spec t store graph ev hashes event.(sa_stateHash) None Hwf) as (store' & events & Ht & _).
  exists (mkTrigger graph ev hashes event.(sa_stateHash) (Some (event.(sa_stateHash), ev, hashes))), store', events.
  split_and!.
  - destruct (cu_unmatched _) eqn:Eu; [destruct (cu_manifestTouched _) eqn:Em; [|by destruct Hco]|];
      by rewrite Hfull, Ht.
  - by split.
  - done.
  - done.
  - intros name Hin. apply In_names in Hin as [node Hn]. pose proof (dict_get_value _ _ _ Hn) as Hv.
    cbn [tr_contentHashes]. rewrite <- (wf_names _ (og_wf _ Hg) name node Hn) at 1.
    rewrite Uin by done. rewrite Hrs by by apply in_map. unfold unit_hash. by rewrite Hn.
Qed.

(** The trigger is where discovering and hashing the state from scratch would be. *)
Record reflects (t : Trigger) (stateHash : string) : Prop := mkReflects {
  rf_kept : kept t;
  rf_state : t.(tr_stateHash) = stateHash;
  rf_graph : discoverGraph stateHash = Ok t.(tr_graph);
  rf_hashes : forall name, In name (names t.(tr_graph)) ->
    hash_of name t.(tr_contentHashes) = unit_hash t.(tr_graph) stateHash name
}.

(** [reflects] determines the versions. *)
Lemma reflects_versions t stateHash graph ev hashes :
  reflects t stateHash -> rediscover stateHash = Ok (graph, ev, hashes) ->
  graph = t.(tr_graph) /\ forall name, dict_get name t.(tr_evMap) = dict_get name ev.
Proof.
  intros [Hk _ Hd Hh] Hre. unfold rediscover in Hre. rewrite Hd in Hre. cbn [res_bind] in Hre.
  set (g := tr_graph t) in *. pose proof (kp_graph t Hk) as Hg. fold g in Hg.
  destruct (sl_hashes stateHash (map gn_relativePath (allNodes g))) as (r & Hr & Hrs). rewrite Hr in Hre.
  cbn [res_bind] in Hre.
  assert (Hnd : List.NoDup (map gn_name (allNodes g))).
  { rewrite (node_names g (og_wf _ Hg)). apply NoDup_ListNoDup, (wf_nodes _ (og_wf _ Hg)). }
  destruct (hashes_by_name_spec (allNodes g) r Hnd) as (_ & Uin & _).
  set (hs := hashes_by_name (allNodes g) r) in *.
  destruct (compute_spec g Hg hs) as (full & Hc & Hsat). rewrite Hc in Hre. injection Hre as <- <- <-.
  split; [done|]. intros name.
  destruct (dict_get name (pg_nodes g)) as [node|] eqn:En.
  2:{ rewrite (kp_versions t Hk name), (Hsat name). fold g. by rewrite En. }
  assert (Hsame : forall m, In m (names g) -> hash_of m hs = hash_of m (tr_contentHashes t)).
  { intros m Hm. rewrite (Hh m Hm). apply In_names in Hm as [mnode Hmn]. pose proof (dict_get_value _ _ _ Hmn) as Hv.
    rewrite <- (wf_names _ (og_wf _ Hg) m mnode Hmn) at 1. rewrite Uin by done. rewrite Hrs by by apply in_map.
    unfold unit_hash. by rewrite Hmn. }
  assert (Hin : In name (names g)) by (apply In_names; by exists node). clear node En. revert name Hin.
  apply (deps_induction g Hg). intros name Hin IH.
  rewrite (kp_versions t Hk name), (Hsat name). fold g. pose proof Hin as Hin'. apply In_names in Hin' as [node En].
  rewrite En. unfold version_of. rewrite (wf_names _ (og_wf _ Hg) name node En), Hsame by done.
  destruct (present _); [|done]. do 3 f_equal. apply signatures_ext. intros dep Hdep.
  assert (Hd' : depends g name dep) by by exists node.
  split; [by apply IH|]. symmetry. apply Hsame. by apply (wf_closed _ (og_wf _ Hg) name).
Qed.

(** * A group of advances to one state *)

(** The events a push of several repositories sends: all on the main head, with the one
    composed state. *)
Definition group_to (stateHash : string) (events : list StateAdvancedEvent) : Prop :=
  Forall (fun e => e.(sa_head) = MAIN_HEAD /\ e.(sa_stateHash) = stateHash /\ default "" e.(sa_repoPath) <> "") events.

Lemma content_only_dec graph event : content_only graph event \/ ~ content_only graph event.
Proof.
  unfold content_only. destruct (cu_unmatched _); [|by right; intros []].
  destruct (cu_manifestTouched _); [by right; intros []|by left].
Qed.

(** Once the trigger reflects the state of the group, it keeps doing so. *)
Lemma group_stays fuel stateHash events t store :
  reflects t stateHash -> group_to stateHash events ->
  length (names t.(tr_graph)) + 1 < fuel ->
  exists t' store' emitted,
    handleAdvances fuel t store events = Some (mkOutcome t' store' emitted None) /\ reflects t' stateHash.
Proof.
  intros Hr Hg Hf. revert t store Hr Hf. induction Hg as [|e events (Hm & Hs & Hrp) Hg IH]; intros t store Hr Hf.
  - by eexists _, _, _.
  - cbn [handleAdvances]. assert (Hfol : followed t e) by (split; [done|by right]).
    destruct (content_only_dec t.(tr_graph) e) as [Hco|Hco].
    + destruct (process_content fuel t store e (rf_kept _ _ Hr) Hfol Hf Hco) as (t1 & s1 & ev1 & -> & Hk1 & Hg1 & Hs1 & Hh1 & _).
      destruct (IH t1 s1) as (t2 & s2 & ev2 & Ho2 & Hr2); [|by rewrite Hg1|].
      { split; [done|by rewrite Hs1|rewrite Hg1; apply Hr|]. rewrite Hg1. intros name Hin. rewrite Hh1 by done. rewrite Hs.
        unfold fresh_hash. rewrite (rf_hashes _ _ Hr) by done. destruct (set_has _ _); [|done]. by destruct (unit_hash _ _ _). }
      cbn [oc_trigger oc_store oc_events oc_error]. rewrite Ho2. by eexists _, _, _.
    + destruct (process_rediscovery fuel t store e t.(tr_graph) Hfol Hco) as (t1 & s1 & ev1 & -> & Hk1 & Hg1 & Hs1 & Hh1).
      { rewrite Hs. apply Hr. }
      destruct (IH t1 s1) as (t2 & s2 & ev2 & Ho2 & Hr2); [|by rewrite Hg1|].
      { split; [done|by rewrite Hs1|rewrite Hg1; apply Hr|]. rewrite Hg1. intros name Hin. by rewrite Hh1, Hs. }
      cbn [oc_trigger oc_store oc_events oc_error]. rewrite Ho2. by eexists _, _, _.
Qed.

(** Following a group whose events cover what differs, with nothing that differs gone. *)
Lemma group_reflected fuel stateHash events t store graph :
  kept t -> group_to stateHash events -> discoverGraph stateHash = Ok graph ->
  length (names t.(tr_graph)) + 1 < fuel -> length (names graph) + 1 < fuel ->
  Exists (fun e => ~ content_only t.(tr_graph) e) events \/
  (events <> [] /\ graph = t.(tr_graph) /\ forall name, In name (names graph) ->
     hash_of name t.(tr_contentHashes) <> unit_hash graph stateHash name ->
     unit_hash graph stateHash name <> None /\ Exists (fun e => In name (changed_units graph e)) events) ->
  exists t' store' emitted,
    handleAdvances fuel t store events = Some (mkOutcome t' store' emitted None) /\ reflects t' stateHash.
Proof.
  intros Hk Hg Hd Hf Hf' Hcov. revert t store Hk Hf Hcov.
  induction Hg as [|e events (Hm & Hs & Hrp) Hg IH]; intros t store Hk Hf Hcov.
  - exfalso. destruct Hcov as [Hc|[Hc _]]; [by inversion Hc|done].
  - cbn [handleAdvances]. assert (Hfol : followed t e) by (split; [done|by right]).
    destruct (content_only_dec t.(tr_graph) e) as [Hco|Hco].
    + destruct (process_content fuel t store e Hk Hfol Hf Hco) as (t1 & s1 & ev1 & -> & Hk1 & Hg1 & Hs1 & Hh1 & _).
      assert (Hdone : forall t2 s2 ev2, handleAdvances fuel t1 s1 events = Some (mkOutcome t2 s2 ev2 None) ->
        reflects t2 stateHash -> exists t' store' emitted,
        match handleAdvances fuel t1 s1 events with
        | None => None
        | Some last => Some (mkOutcome last.(oc_trigger) last.(oc_store) (ev1 ++ last.(oc_events)) last.(oc_error))
        end = Some (mkOutcome t' store' emitted None) /\ reflects t' stateHash).
      { intros t2 s2 ev2 -> Hr2. by eexists _, _, _. }
      cbn [oc_trigger oc_store oc_events oc_error].
      destruct Hcov as [Hc|(Hne & Heq & Hc)].
      * apply Exists_cons in Hc as [Hc|Hc]; [done|].
        destruct (IH t1 s1 Hk1) as (t2 & s2 & ev2 & Ho2 & Hr2); [by rewrite Hg1|left; by rewrite Hg1|].
        by apply (Hdone t2 s2 ev2).
      * destruct events as [|e2 events].
        { exists t1, s1, (ev1 ++ []). split; [done|].
          split; [done|by rewrite Hs1|by rewrite Hg1, <- Heq|]. rewrite Hg1. subst graph.
          intros name Hin. rewrite Hh1 by done. rewrite Hs. unfold fresh_hash.
          destruct (decide (hash_of name (tr_contentHashes t) = unit_hash (tr_graph t) stateHash name)) as [->|Hneq];
            [destruct (set_has _ _); [|done]; by destruct (unit_hash _ _ _)|].
          apply (Hc name Hin) in Hneq as [Hsome Hex]. apply Exists_cons in Hex as [Hex|Hex]; [|by inversion Hex].
          apply set_has_spec in Hex. rewrite Hex. by destruct (unit_hash _ _ _). }
        destruct (IH t1 s1 Hk1) as (t2 & s2 & ev2 & Ho2 & Hr2); [by rewrite Hg1| |].
        { right. rewrite Hg1. split_and!; [done|done|]. subst graph. intros name Hin Hneq. rewrite Hh1, Hs in Hneq by done.
          unfold fresh_hash in Hneq.
          assert (Hdiff : hash_of name (tr_contentHashes t) <> unit_hash (tr_graph t) stateHash name).
          { intros E. apply Hneq. rewrite E. destruct (set_has _ _); [|done]. by destruct (unit_hash _ _ _). }
          destruct (Hc name Hin Hdiff) as [Hsome Hex]. split; [done|]. apply Exists_cons in Hex as [Hex|Hex]; [|done].
          apply set_has_spec in Hex. rewrite Hex in Hneq. by destruct (unit_hash _ _ _). }
        by apply (Hdone t2 s2 ev2).
    + destruct (process_rediscovery fuel t store e graph Hfol Hco) as (t1 & s1 & ev1 & -> & Hk1 & Hg1 & Hs1 & Hh1).
      { by rewrite Hs. }
      assert (Hr1 : reflects t1 stateHash).
      { split; [done|by rewrite Hs1|by rewrite Hg1|]. rewrite Hg1. intros name Hin. by rewrite Hh1, Hs. }
      destruct (group_stays fuel stateHash events t1 s1 Hr1 Hg) as (t2 & s2 & ev2 & Ho2 & Hr2); [by rewrite Hg1|].
      cbn [oc_trigger oc_store oc_events oc_error]. rewrite Ho2. by eexists _, _, _.
Qed.
End Advance.
