(* ===== verification/BuildProps.v ===== *)
(** Properties of the build graph: the order and the dependencies discovery gives, what
    depends on a unit, what a version says of contents, and the trigger that keeps
    versions current. *)
From S2P Require Import Prelude Dict JsValue JsText BuildGraph BuildGraphLaws BuildEv BuildEvLaws.
From S2P Require Import BuildTrigger BuildTriggerLaws.

(** The source of the server: a state is checked out as a workspace and its graph is
    discovered there; the hashes of paths are looked up. *)
Section Checkout.
Context (checkout : string -> Workspace) (subtree : string -> string -> option string).

Definition checkout_graph (stateHash : string) : res PackageGraph :=
  match discoverPackageGraph (S (length (scanned (checkout stateHash)))) (checkout stateHash) with
  | Some found => found
  | None => Throw "fuel"
  end.

#[local] Instance checkout_source : StateSource :=
  {| discoverGraph := checkout_graph;
     unitHashes s paths := Ok (map (fun p => (p, subtree s p)) paths) |}.

Lemma discovered_size ws : length (names (discovered ws)) <= length (scanned ws).
Proof.
  rewrite <- (length_map gn_name (scanned ws)). apply NoDup_incl_length.
  - apply NoDup_ListNoDup, (wf_nodes _ (discovered_wf ws)).
  - intros d. apply discovered_names.
Qed.

#[local] Instance checkout_laws : SourceLaws subtree.
Proof.
  split.
  - intros s g. cbn [discoverGraph checkout_source]. unfold checkout_graph, discoverPackageGraph.
    set (ws := checkout s). pose proof (discovered_size ws) as Hsz.
    destruct (topological_order_spec (discovered ws) (discovered_wf ws) (S (length (scanned ws))))
      as [(order & -> & Hp & Hf & _)|(cycle & -> & _)]; [lia| |done].
    intros [= <-]. split; [|exact Hp|exact Hf]. by apply (graph_wf_nodes (discovered ws)), discovered_wf.
  - intros s paths. eexists. split; [reflexivity|]. intros p. unfold hash_of.
    induction paths as [|q paths IH]; [done|]. simpl. destruct (String.eqb_spec p q) as [->|Hne]; [done|].
    intros [->|Hin]; [done|]. by apply IH.
Qed.
End Checkout.

Lemma exists_or_none {A} (Q : A -> Prop) (l : list A) :
  (forall x, Q x \/ ~ Q x) -> (exists x, In x l /\ Q x) \/ forall x, In x l -> ~ Q x.
Proof.
  intros Hq. induction l as [|x l IH]; [by right|]. destruct (Hq x); [left; exists x; simpl; tauto|].
  destruct IH as [(y & Hy & HQ)|Hn]; [left; exists y; simpl; tauto|]. right. by intros y [<-|Hy]; [|apply Hn].
Qed.

Module Builds.
(** C40: discovery always ends, for any workspace. It gives the graph of its units in an
    order that lists each once and after its dependencies, and then no unit depends on
    itself; or it fails, and only with the message that names a cycle of dependencies. *)
Theorem discovery_orders_units (ws : Workspace) (fuel : nat) :
  length (scanned ws) < fuel ->
  (exists graph, discoverPackageGraph fuel ws = Some (Ok graph) /\ graph.(pg_nodes) = (discovered ws).(pg_nodes) /\
     Permutation graph.(pg_topoOrder) (names graph) /\ deps_first graph graph.(pg_topoOrder) /\
     forall name, ~ depends_on graph name name) \/
  (exists cycle, discoverPackageGraph fuel ws = Some (Throw ("Dependency cycle detected: " ^^ String.concat " → " cycle)) /\
     is_cycle (discovered ws) cycle).
Proof.
  intros Hf. pose proof (discovered_size ws) as Hsz. unfold discoverPackageGraph.
  destruct (topological_order_spec (discovered ws) (discovered_wf ws) fuel) as [(order & -> & Hp & Hd & Ha)|H]; [lia| |].
  - left. eexists. split; [reflexivity|]. cbn [pg_nodes pg_topoOrder]. done.
  - by right.
Qed.

(** The internal dependencies of a discovered unit are exactly the units of the
    workspace among its declared dependencies, and for a panel the template it names,
    or the default one, when that is a unit. *)
Theorem discovered_dependencies (ws : Workspace) (name : string) (node : GraphNode) :
  dict_get name (discovered ws).(pg_nodes) = Some node ->
  In name (map gn_name (scanned ws)) /\ node.(gn_name) = name /\
  forall dep, In dep node.(gn_internalDeps) <->
    In dep (map gn_name (scanned ws)) /\
    (In dep (dict_keys node.(gn_dependencies)) \/ template_of (discovered ws) node = Some dep).
Proof.
  intros Hn. pose proof (wf_names _ (discovered_wf ws) name node Hn) as Hnm.
  assert (Hin : In name (names (discovered ws))) by (apply In_names; by exists node).
  apply discovered_names in Hin. split; [done|]. split; [done|].
  apply discovered_node in Hn as (unit & deps & errors & _ & _ & -> & Hd). intros dep.
  cbn [with_deps gn_internalDeps gn_dependencies]. rewrite Hd, graph_has_names, discovered_names. done.
Qed.

(** The reverse dependencies of a name are the units that reach it through their
    dependencies, each once; the search ends whatever the graph's cycles. *)
Theorem reverse_dependencies_closure (graph : PackageGraph) (name : string) (fuel : nat) :
  graph_wf graph -> length (allNodes graph) + 1 < fuel ->
  exists deps, getReverseDeps fuel graph name = Some deps /\ List.NoDup deps /\
    forall x, In x deps <-> depends_on graph x name.
Proof.
  intros Hwf Hf. apply (reverse_deps_spec graph Hwf). rewrite <- (node_names graph Hwf), length_map. done.
Qed.

(** recomputing the versions from the changed units and what depends on them gives
    the versions a computation from scratch gives, when the kept versions are those of
    the kept hashes, the changed units cover the hashes that differ, and no unit loses
    its hash. *)
Theorem incremental_versions `{!Sha256} (graph : PackageGraph) (changed : list string)
    (evMap : EffectiveVersionMap) (hashes updated : ContentHashMap) (fuel : nat) :
  ordered_graph graph -> length (names graph) + 1 < fuel -> dict_wf updated ->
  computeEffectiveVersions graph hashes = Ok (evMap, hashes) ->
  (forall name, In name (names graph) -> hash_of name (dict_merge hashes updated) <> hash_of name hashes ->
     In name changed) ->
  (forall name, In name (names graph) -> present (hash_of name hashes) <> None ->
     present (hash_of name (dict_merge hashes updated)) <> None) ->
  exists evMap' full,
    recomputeFromNodes fuel graph changed evMap hashes updated = Some (Ok (evMap', dict_merge hashes updated)) /\
    computeEffectiveVersions graph (dict_merge hashes updated) = Ok (full, dict_merge hashes updated) /\
    forall name, dict_get name evMap' = dict_get name full.
Proof.
  intros Hg Hf Hu Hc Hch Hpr. apply (recompute_spec graph Hg); try done. by eapply compute_satisfies.
Qed.

(** C38: a version is a content address. When the hashes of the two computations do not
    collide, the versions of a unit under two assignments of content hashes are equal
    exactly when the unit and everything it transitively depends on have equal
    contents. *)
Theorem versions_track_contents `{!Sha256} (graph : PackageGraph) (hashes1 hashes2 : ContentHashMap)
    (evMap1 evMap2 : EffectiveVersionMap) (name : string) :
  ordered_graph graph ->
  computeEffectiveVersions graph hashes1 = Ok (evMap1, hashes1) ->
  computeEffectiveVersions graph hashes2 = Ok (evMap2, hashes2) ->
  clean_inputs graph hashes1 hashes2 -> no_collision graph hashes1 hashes2 evMap1 evMap2 ->
  In name (names graph) ->
  (dict_get name evMap1 = dict_get name evMap2 <->
   forall m, m = name \/ depends_on graph name m -> hash_of m hashes1 = hash_of m hashes2).
Proof.
  intros Hg H1 H2 Hcl Hnc Hin. apply (version_tracks graph Hg); try done; by eapply compute_satisfies.
Qed.

(** C37: the trigger refines discovery and versioning from scratch. After it has handled
    the advances a push of several repositories sends, all to one composed state, its
    graph is the one discovered there and its versions are those computed from scratch
    there, without an error: when some advance touches a manifest or an unknown path; and
    when none does, provided the graph discovered there is the one it has, and every unit
    whose hash differs is still there and among the units touched. *)
Theorem group_push_reflected {Store : Type} `{!Sha256, !StateSource, !BuildHost Store}
    (subtree : string -> string -> option string) `{!SourceLaws subtree}
    (t : Trigger) (store : Store) (stateHash : string) (events : list StateAdvancedEvent) (fuel : nat)
    (graph : PackageGraph) (evMap : EffectiveVersionMap) (hashes : ContentHashMap) :
  kept t -> group_to stateHash events -> rediscover stateHash = Ok (graph, evMap, hashes) ->
  length (names t.(tr_graph)) + 1 < fuel -> length (names graph) + 1 < fuel ->
  Exists (fun e => ~ content_only t.(tr_graph) e) events \/
  (events <> [] /\ graph = t.(tr_graph) /\ forall name, In name (names graph) ->
     hash_of name t.(tr_contentHashes) <> unit_hash subtree graph stateHash name ->
     unit_hash subtree graph stateHash name <> None /\ Exists (fun e => In name (changed_units graph e)) events) ->
  exists t' store' emitted,
    handleAdvances fuel t store events = Some (mkOutcome t' store' emitted None) /\
    t'.(tr_graph) = graph /\ t'.(tr_stateHash) = stateHash /\
    forall name, dict_get name t'.(tr_evMap) = dict_get name evMap.
Proof.
  intros Hk Hg Hre Hf Hf' Hcov.
  assert (Hd : discoverGraph stateHash = Ok graph).
  { unfold rediscover in Hre. destruct (discoverGraph stateHash) as [g|]; [|done]. cbn [res_bind] in Hre.
    destruct (unitHashes _ _); [|done]. cbn [res_bind] in Hre. destruct (computeEffectiveVersions _ _); [|done].
    by injection Hre as <-. }
  destruct (group_reflected subtree fuel stateHash events t store graph Hk Hg Hd Hf Hf' Hcov)
    as (t' & store' & emitted & Ho & Hr).
  exists t', store', emitted. split; [done|].
  destruct (reflects_versions subtree t' stateHash graph evMap hashes Hr Hre) as [-> Hv].
  split; [done|]. split; [apply Hr|done].
Qed.

(** C39: which units are announced and considered for a build: following an advance whose
    paths are all in known units and none a package.json, the trigger announces a unit of
    the graph if and only if the unit, or a unit it transitively depends on, was touched,
    is still there, and has another hash than the one the trigger had; as long as no two
    of the texts hashed for versions collide. A unit that is gone counts as unchanged. *)
Theorem announced_iff_content_changed {Store : Type} `{!Sha256, !StateSource, !BuildHost Store}
    (subtree : string -> string -> option string) `{!SourceLaws subtree}
    (t : Trigger) (store : Store) (event : StateAdvancedEvent) (fuel : nat) :
  kept t -> followed t event -> length (names t.(tr_graph)) + 1 < fuel -> content_only t.(tr_graph) event ->
  exists t' store' events,
    handleAdvance fuel t store event = Some (mkOutcome t' store' events None) /\
    (clean_inputs t.(tr_graph) t.(tr_contentHashes) t'.(tr_contentHashes) ->
     no_collision t.(tr_graph) t.(tr_contentHashes) t'.(tr_contentHashes) t.(tr_evMap) t'.(tr_evMap) ->
     forall name, In name (names t.(tr_graph)) ->
       (In name (announced events) <->
        exists m, (m = name \/ depends_on t.(tr_graph) name m) /\
          In m (changed_units t.(tr_graph) event) /\
          exists hash, unit_hash subtree t.(tr_graph) event.(sa_stateHash) m = Some hash /\
            hash_of m t.(tr_contentHashes) <> Some hash)).
Proof.
  intros Hk Hfol Hf Hco.
  destruct (process_content subtree fuel t store event Hk Hfol Hf Hco)
    as (t' & store' & events & Ho & Hk' & Hg' & Hs' & Hh' & Ha).
  exists t', store', events. split; [done|]. intros Hcl Hnc name Hin.
  pose proof (version_tracks t.(tr_graph) (kp_graph t Hk) t.(tr_contentHashes) t'.(tr_contentHashes)
    t.(tr_evMap) t'.(tr_evMap) (kp_versions t Hk)) as Hv.
  rewrite <- Hg' in Hv at 1. specialize (Hv (kp_versions t' Hk') Hcl Hnc name Hin).
  assert (Hknown : forall m, m = name \/ depends_on t.(tr_graph) name m -> In m (names t.(tr_graph))).
  { intros m [->|Hm]; [done|]. clear Hv Ha Hin. induction Hm as [a b Hab|a b c Hab _ IH]; [|done].
    by apply (wf_closed _ (og_wf _ (kp_graph t Hk)) a). }
  assert (Hsame : forall m, In m (names t.(tr_graph)) ->
    hash_of m t.(tr_contentHashes) <> hash_of m t'.(tr_contentHashes) <->
    In m (changed_units t.(tr_graph) event) /\
    exists hash, unit_hash subtree t.(tr_graph) event.(sa_stateHash) m = Some hash /\ hash_of m t.(tr_contentHashes) <> Some hash).
  { intros m Hm. rewrite Hh' by done. rewrite <- set_has_spec. unfold fresh_hash. destruct (set_has m _); [|intuition congruence].
    destruct (unit_hash _ _ _ m) as [h|]; [|by split; [intros []|intros (_ & h & ? & _)]].
    split; [by intros Hd; split; [|exists h]|]. by intros (_ & h' & [= <-] & Hd). }
  rewrite Ha. split.
  - intros Hne.
    destruct (exists_or_none (fun m => (m = name \/ depends_on t.(tr_graph) name m) /\
      hash_of m t.(tr_contentHashes) <> hash_of m t'.(tr_contentHashes)) (names t.(tr_graph))) as [Hex|Hno].
    + intros m. destruct (decide (hash_of m t.(tr_contentHashes) = hash_of m t'.(tr_contentHashes))) as [|Hd];
        [right; tauto|]. destruct (String.eqb_spec m name) as [|Hnm]; [tauto|].
      destruct (depends_on_dec t.(tr_graph) name m (og_wf _ (kp_graph t Hk))); tauto.
    + destruct Hex as (m & Hm & Hr & Hd). exists m. split; [done|]. by apply Hsame.
    + exfalso. apply Hne. symmetry. apply Hv. intros m Hr. apply dec_stable. intros Hd. by apply (Hno m (Hknown m Hr)).
  - intros (m & Hr & Hm) Heq. apply Hsame in Hm; [|by apply Hknown]. apply Hm. symmetry in Heq. by apply (proj1 Hv Heq).
Qed.
(** ** Witnesses *)

(** A digest of sixteen binary digits. *)
Fixpoint binary (n : nat) (z : Z) : string :=
  match n with O => "" | S n' => String (Ascii.ascii_of_nat (if Z.odd z then 49 else 48)) (binary n' (z / 2)%Z) end.

Fixpoint string_sum (s : string) (acc : Z) : Z :=
  match s with EmptyString => acc | String c s' => string_sum s' ((acc * 31 + code c) mod 65521)%Z end.

#[local] Instance sample_sha : Sha256 := fun s => binary 16 (string_sum s 7%Z).

Lemma sample_sha_clean s : nul_free (sha256_hex s) = true.
Proof.
  unfold sha256_hex, sample_sha. generalize (string_sum s 7%Z). generalize 16.
  induction n as [|n IH]; intros z; [done|]. simpl. rewrite IH. by destruct (Z.odd z).
Qed.

Definition sample_pkg (name : string) (deps : dict string) : DirEntry :=
  mkDirEntry (str_slice 1 name) true (Some (mkPackageJson (Some name) (Some deps) None None VUndef VUndef None)).

(** A library, one on top of it, and a panel on the default template. *)
Definition sample_workspace : Workspace :=
  {| ws_root := "/ws";
     ws_packages := [sample_pkg "@util" [("@core", "workspace:*")]; sample_pkg "@core" [("react", "^18")]];
     ws_panels := [sample_pkg "@chat" [("@util", "workspace:*"); ("@gone", "*")]];
     ws_apps := []; ws_about := []; ws_workers := []; ws_extensions := []; ws_skills := [];
     ws_templates := [mkTemplateEntry "default" true (Some (VObj []))] |}.

Definition order_of (found : option (res PackageGraph)) : list string :=
  match found with Some (Ok graph) => graph.(pg_topoOrder) | _ => [] end.

Example sample_order :
  order_of (discoverPackageGraph 5 sample_workspace) = ["@core"; "@util"; "template:default"; "@chat"].
Proof. vm_compute. reflexivity. Qed.

Lemma discovery_orders_units_witness :
  (exists graph, discoverPackageGraph 5 sample_workspace = Some (Ok graph) /\
     graph.(pg_nodes) = (discovered sample_workspace).(pg_nodes) /\
     Permutation graph.(pg_topoOrder) (names graph) /\ deps_first graph graph.(pg_topoOrder) /\
     forall name, ~ depends_on graph name name) \/
  (exists cycle, discoverPackageGraph 5 sample_workspace
     = Some (Throw ("Dependency cycle detected: " ^^ String.concat " → " cycle)) /\
     is_cycle (discovered sample_workspace) cycle).
Proof. apply (discovery_orders_units sample_workspace 5). vm_compute. lia. Defined.

(** Two units that depend on each other. *)
Example sample_cycle :
  computeTopologicalOrder 5 (discovered
    {| ws_root := "/ws"; ws_packages := [sample_pkg "@a" [("@b", "*")]; sample_pkg "@b" [("@a", "*")]];
       ws_panels := []; ws_apps := []; ws_about := []; ws_workers := []; ws_extensions := []; ws_skills := [];
       ws_templates := [] |}) = Some (Throw "Dependency cycle detected: @a → @b → @a").
Proof. vm_compute. reflexivity. Qed.

Definition sample_panel : GraphNode :=
  match dict_get "@chat" (discovered sample_workspace).(pg_nodes) with
  | Some node => node
  | None => mkNode "" "" "" KPackage [] [] [] None None VUndef
  end.

Lemma discovered_dependencies_witness :
  sample_panel.(gn_internalDeps) = ["@util"; "template:default"] /\
  forall dep, In dep sample_panel.(gn_internalDeps) <->
    In dep (map gn_name (scanned sample_workspace)) /\
    (In dep (dict_keys sample_panel.(gn_dependencies)) \/
     template_of (discovered sample_workspace) sample_panel = Some dep).
Proof.
  split; [vm_compute; reflexivity|].
  apply (discovered_dependencies sample_workspace "@chat" sample_panel). vm_compute. reflexivity.
Defined.

Lemma reverse_dependencies_closure_witness :
  exists deps, getReverseDeps 6 (discovered sample_workspace) "@core" = Some deps /\ List.NoDup deps /\
    forall x, In x deps <-> depends_on (discovered sample_workspace) x "@core".
Proof.
  apply reverse_dependencies_closure; [apply discovered_wf|apply Nat.ltb_lt; vm_compute; reflexivity].
Defined.

(** The contents of the units at two states: the second changes the panel's library. *)
Definition sample_subtree (stateHash path : string) : option string :=
  if path =s? "packages/core" then Some (if stateHash =s? "s1" then "c1" else "c0")
  else if path =s? "packages/util" then Some "u0"
  else if path =s? "panels/chat" then Some "p0"
  else if path =s? "templates/default" then Some "t0"
  else None.

#[local] Instance sample_source : StateSource := checkout_source (fun _ => sample_workspace) sample_subtree.
#[local] Instance sample_laws : SourceLaws sample_subtree := checkout_laws (fun _ => sample_workspace) sample_subtree.

(** A store that has nothing and a builder that succeeds. *)
#[local] Instance sample_host : BuildHost unit :=
  {| store_has _ _ := false; buildUnit _ _ _ _ := (tt, None); rootDepsFingerprint := "root" |}.

Definition sample_graph : PackageGraph :=
  match rediscover "s0" with Ok (g, _, _) => g | Throw _ => emptyGraph end.
Definition sample_versions : EffectiveVersionMap := match rediscover "s0" with Ok (_, ev, _) => ev | Throw _ => [] end.
Definition sample_hashes : ContentHashMap := match rediscover "s0" with Ok (_, _, h) => h | Throw _ => [] end.
Definition sample_trigger : Trigger := mkTrigger sample_graph sample_versions sample_hashes "s0" None.

Lemma sample_graph_ordered : ordered_graph sample_graph.
Proof. apply (sl_graph (subtree := sample_subtree) "s0"). vm_compute. reflexivity. Qed.

Lemma incremental_versions_witness :
  exists evMap' full,
    recomputeFromNodes 6 sample_graph ["@core"] sample_versions sample_hashes [("@core", Some "c1")]
      = Some (Ok (evMap', dict_merge sample_hashes [("@core", Some "c1")])) /\
    computeEffectiveVersions sample_graph (dict_merge sample_hashes [("@core", Some "c1")])
      = Ok (full, dict_merge sample_hashes [("@core", Some "c1")]) /\
    forall name, dict_get name evMap' = dict_get name full.
Proof.
  apply incremental_versions; [exact sample_graph_ordered|apply Nat.ltb_lt; vm_compute; reflexivity|
    by apply (bool_decide_unpack _)|vm_compute; reflexivity| |].
  - intros name Hin. vm_compute in Hin.
    repeat (destruct Hin as [<-|Hin]; [vm_compute; tauto|]). destruct Hin.
  - intros name Hin. vm_compute in Hin.
    repeat (destruct Hin as [<-|Hin]; [vm_compute; discriminate|]). destruct Hin.
Defined.

Definition versions_at (hashes : ContentHashMap) : EffectiveVersionMap :=
  match computeEffectiveVersions sample_graph hashes with Ok (ev, _) => ev | Throw _ => [] end.
Definition sample_hashes1 : ContentHashMap := dict_merge sample_hashes [("@core", Some "c1")].

Ltac each_name Hin := vm_compute in Hin; repeat (destruct Hin as [<-|Hin]); [..|destruct Hin].

Lemma sample_clean : clean_inputs sample_graph sample_hashes sample_hashes1.
Proof.
  split; [apply sample_sha_clean| |]; intros name Hin; each_name Hin;
    first [vm_compute; reflexivity|
           eexists _, _; split; [vm_compute; reflexivity|]; split; [vm_compute; reflexivity|];
             split; [discriminate|]; split; [discriminate|]; split; vm_compute; reflexivity].
Qed.

Lemma sample_no_collision :
  no_collision sample_graph sample_hashes sample_hashes1 (versions_at sample_hashes) (versions_at sample_hashes1).
Proof.
  intros name node h1 h2 Hn H1 H2 He.
  assert (Hin : In name (names sample_graph)) by (apply In_names; by exists node).
  each_name Hin; vm_compute in Hn, H1, H2; injection Hn as <-; injection H1 as <-; injection H2 as <-;
    vm_compute in He; first [discriminate|vm_compute; reflexivity].
Qed.

(** The panel's own content is the same, but its library's library differs. *)
Lemma versions_track_contents_witness :
  dict_get "@chat" (versions_at sample_hashes) = dict_get "@chat" (versions_at sample_hashes1) <->
  forall m, m = "@chat" \/ depends_on sample_graph "@chat" m -> hash_of m sample_hashes = hash_of m sample_hashes1.
Proof.
  apply versions_track_contents; [exact sample_graph_ordered|vm_compute; reflexivity|vm_compute; reflexivity|
    exact sample_clean|exact sample_no_collision|vm_compute; tauto].
Defined.

Lemma sample_kept : kept sample_trigger.
Proof.
  split; [exact sample_graph_ordered| |apply (compute_wf sample_graph sample_hashes _ sample_hashes); vm_compute; reflexivity].
  apply (compute_satisfies sample_graph sample_graph_ordered sample_hashes sample_versions sample_hashes).
  vm_compute. reflexivity.
Qed.

(** A push of two repositories, the library's and the panel's. *)
Definition sample_push : list StateAdvancedEvent :=
  [mkAdvanced "main" "s1" ["panels/chat/index.tsx"] (Some "panels/chat");
   mkAdvanced "main" "s1" ["packages/core/src/index.ts"] (Some "packages/core")].

Lemma sample_sizes : length (names sample_graph) + 1 < 6.
Proof. apply Nat.ltb_lt. vm_compute. reflexivity. Qed.

Lemma group_push_reflected_witness :
  exists t' store' emitted,
    handleAdvances 6 sample_trigger tt sample_push = Some (mkOutcome t' store' emitted None) /\
    t'.(tr_graph) = sample_graph /\ t'.(tr_stateHash) = "s1" /\
    forall name, dict_get name t'.(tr_evMap) = dict_get name (versions_at sample_hashes1).
Proof.
  apply (group_push_reflected sample_subtree sample_trigger tt "s1" sample_push 6 sample_graph _ sample_hashes1
    sample_kept); [repeat (constructor; [split; [reflexivity|split; [reflexivity|discriminate]]|]); constructor|
    vm_compute; reflexivity|exact sample_sizes|exact sample_sizes|].
  - right. split; [discriminate|]. split; [reflexivity|]. intros name Hin Hne.
    split; [each_name Hin; vm_compute; discriminate|]. apply Exists_exists. exists (mkAdvanced "main" "s1" ["packages/core/src/index.ts"] (Some "packages/core")).
    split; [right; left; reflexivity|]. each_name Hin; [exfalso; apply Hne; vm_compute; reflexivity|
      vm_compute; tauto|exfalso; apply Hne; vm_compute; reflexivity..].
Defined.

Definition sample_edit : StateAdvancedEvent :=
  mkAdvanced "main" "s1" ["packages/core/src/index.ts"] (Some "packages/core").

Lemma announced_iff_content_changed_witness :
  exists t' store' events,
    handleAdvance 6 sample_trigger tt sample_edit = Some (mkOutcome t' store' events None) /\
    announced events = ["@core"; "@util"; "@chat"] /\
    (In "@chat" (announced events) <->
     exists m, (m = "@chat" \/ depends_on sample_graph "@chat" m) /\
       In m (changed_units sample_graph sample_edit) /\
       exists hash, unit_hash sample_subtree sample_graph "s1" m = Some hash /\ hash_of m sample_hashes <> Some hash).
Proof.
  destruct (announced_iff_content_changed sample_subtree sample_trigger tt sample_edit 6 sample_kept)
    as (t' & store' & events & Ho & Ha).
  - split; [reflexivity|right; discriminate].
  - exact sample_sizes.
  - split; vm_compute; reflexivity.
  - exists t', store', events. split; [exact Ho|].
    vm_compute in Ho. injection Ho as <- <- <-. split; [reflexivity|].
    apply (Ha sample_clean sample_no_collision "@chat"). vm_compute. tauto.
Defined.

(** A template directory that is deleted: no path is a package.json, so the advance
    counts as an edit of the template, whose stale hash is kept, and nothing is
    announced; computed from scratch, the panel is built without the template. *)
Definition no_template (stateHash : string) : Workspace :=
  if stateHash =s? "s0" then sample_workspace
  else
    {| ws_root := "/ws"; ws_packages := sample_workspace.(ws_packages); ws_panels := sample_workspace.(ws_panels);
       ws_apps := []; ws_about := []; ws_workers := []; ws_extensions := []; ws_skills := []; ws_templates := [] |}.

Definition deleted_subtree (stateHash path : string) : option string :=
  if (path =s? "templates/default") && (stateHash <>s? "s0") then None else sample_subtree "s0" path.

Definition deleted_source : StateSource := checkout_source no_template deleted_subtree.

Example deleted_template_unnoticed :
  option_map (fun oc => (oc.(oc_events), oc.(oc_trigger).(tr_evMap)))
    (@handleAdvance unit sample_sha deleted_source sample_host 6 sample_trigger tt
       (mkAdvanced "main" "s1" ["templates/default/template.json"; "templates/default/index.html"] None))
  = Some ([GraphUpdated "s1" sample_versions], sample_versions) /\
  match @rediscover sample_sha deleted_source "s1" with
  | Ok (_, ev, _) => dict_get "@chat" ev <> dict_get "@chat" sample_versions
  | Throw _ => False
  end.
Proof. vm_compute. split; [reflexivity|discriminate]. Qed.
End Builds.
