(* ===== verification/GadCanon.v ===== *)
(** Canonical JSON and the hash chain of log envelopes
    (agentic-protocol/src/canonical-json.ts, log-envelope.ts): the sorted text every
    hash is taken of, the slice of an envelope its hash covers, the text that is
    hashed, and the check of a list of envelopes. *)
From S2P Require Import Prelude Dict JsValue JsText.
#[local] Open Scope Z_scope.

(** * Canonical JSON *)

Section SortBy.
Context {A : Type} (le : A -> A -> bool).

(** A stable insertion sort, the meaning of [Array.prototype.sort] with a comparison. *)
Fixpoint insert_by (x : A) (l : list A) : list A :=
  match l with
  | [] => [x]
  | y :: l' => if le x y then x :: l else y :: insert_by x l'
  end.

Definition sort_by (l : list A) : list A := fold_right insert_by [] l.
End SortBy.

Definition key_le {A} (a b : string * A) : bool := String.leb a.1 b.1.

Definition is_undef (v : val) : bool := match v with VUndef => true | _ => false end.

Fixpoint sortForCanonicalJson (value : val) : val :=
  match value with
  | VArr l => VArr (map sortForCanonicalJson l)
  | VObj fs =>
      VObj (sort_by key_le
              (List.filter (fun kv => negb (is_undef kv.2))
                 (map (fun '(k, child) => (k, sortForCanonicalJson child)) fs)))
  | _ => value
  end.

(** [undefined] has no text. *)
Definition canonicalJson (value : val) : option string := json_stringify (sortForCanonicalJson value).

(** * Envelopes *)

(** [LogEnvelopeSemanticInput]: what an envelope says. *)
Record LogEvent := mkLogEvent {
  ev_envelopeId : string;
  ev_actor : val;
  ev_to : option val;
  ev_payloadKind : string;
  ev_payload : val;
  ev_annotations : option val;
  ev_causality : option val;
  ev_appendedAt : string
}.

(** [LogEnvelope]. *)
Record GadEnvelope := mkGadEnvelope {
  ge_logId : string;
  ge_head : string;
  ge_seq : Z;
  ge_event : LogEvent;
  ge_prevHash : string;
  ge_hash : string
}.

Definition GENESIS_EVENT_HASH : string :=
  "0000000000000000000000000000000000000000000000000000000000000000".

Definition some_field (k : string) (v : option val) : list (string * val) :=
  match v with Some x => [(k, x)] | None => [] end.

Definition logEnvelopeSemantic (event : LogEvent) : val :=
  VObj ([("envelopeId", VStr event.(ev_envelopeId)); ("actor", event.(ev_actor))]
        ++ some_field "to" event.(ev_to)
        ++ [("payloadKind", VStr event.(ev_payloadKind)); ("payload", event.(ev_payload))]
        ++ some_field "annotations" event.(ev_annotations)
        ++ some_field "causality" event.(ev_causality)
        ++ [("appendedAt", VStr event.(ev_appendedAt))]).

Definition NL : string := String (Ascii.ascii_of_nat 10%nat) "".

(** A field with its length in front. *)
Definition length_prefixed (s : string) : string := pretty (Z.of_nat (String.length s)) ^^ ":" ^^ s.

Definition logEnvelopeHashPreimage (prevHash logId head : string) (seq : Z) (semantic : val) : string :=
  String.concat NL
    ["gadlog:2"; prevHash; length_prefixed logId; length_prefixed head; pretty seq;
     default "" (canonicalJson semantic)].

Section Hashes.
Context `{!Sha256}.

Definition computeLogEnvelopeHash (prevHash logId head : string) (seq : Z) (semantic : val) : string :=
  sha256_hex (logEnvelopeHashPreimage prevHash logId head seq semantic).

Definition envelope_hash (e : GadEnvelope) : string :=
  computeLogEnvelopeHash e.(ge_prevHash) e.(ge_logId) e.(ge_head) e.(ge_seq) (logEnvelopeSemantic e.(ge_event)).

Definition verifyLogEnvelopeHash (e : GadEnvelope) : bool := envelope_hash e =s? e.(ge_hash).

(** * The check of a list of envelopes *)

Definition log_key (e : GadEnvelope) : string := e.(ge_logId) ^^ " " ^^ e.(ge_head).

Definition by_log (envelopes : list GadEnvelope) : dict (list GadEnvelope) :=
  fold_left
    (fun groups e => dict_set (log_key e) (default [] (dict_get (log_key e) groups) ++ [e]) groups)
    envelopes [].

Definition seq_le (a b : GadEnvelope) : bool := a.(ge_seq) <=? b.(ge_seq).

Definition when (b : bool) (error : string) : list string := if b then [error] else [].

(** The errors of one log, its envelopes in order; [previous] is the one before. *)
Fixpoint group_errors (logKey : string) (expectedStart : option string) (previous : option GadEnvelope)
    (ordered : list GadEnvelope) : list string :=
  match ordered with
  | [] => []
  | e :: rest =>
      match previous with
      | None =>
          match expectedStart with
          | Some start =>
              when (e.(ge_prevHash) <>s? start)
                ("log " ^^ logKey ^^ " seq " ^^ pretty e.(ge_seq) ^^ " prevHash does not match expected start")
          | None => []
          end
      | Some p =>
          when (negb (e.(ge_seq) =? p.(ge_seq) + 1))
            ("log " ^^ logKey ^^ " seq gap between " ^^ pretty p.(ge_seq) ^^ " and " ^^ pretty e.(ge_seq))
          ++ when (e.(ge_prevHash) <>s? p.(ge_hash))
            ("log " ^^ logKey ^^ " seq " ^^ pretty e.(ge_seq) ^^ " prevHash does not match seq " ^^ pretty p.(ge_seq))
      end
      ++ when (negb (verifyLogEnvelopeHash e))
           ("log " ^^ logKey ^^ " seq " ^^ pretty e.(ge_seq) ^^ " hash mismatch")
      ++ group_errors logKey expectedStart (Some e) rest
  end.

(** [checkLogIntegrity] of the protocol: the errors, none when the list is intact. *)
Definition check_envelopes (startPrevHashByLog : dict string) (envelopes : list GadEnvelope) : list string :=
  flat_map
    (fun '(logKey, group) =>
       group_errors logKey (dict_get logKey startPrevHashByLog) None (sort_by seq_le group))
    (by_log envelopes).
End Hashes.
