(* ===== verification/GadCanonLaws.v ===== *)
(** Laws of canonical JSON and of the hash chain: what storing a value as JSON text does
    to it, that it does not change the value's canonical text, that the canonical text
    and the hashed text determine what they are made of. *)
From S2P Require Import Prelude Dict JsValue JsText JsBytes JsJson JsJsonLaws GadCanon.
From Stdlib Require Import Ascii String Sorted.
From stdpp Require Import strings.
#[local] Open Scope Z_scope.

(** * Values stored as text *)

(** What [JSON.parse] gives of the text of a value. *)
Fixpoint json_norm (v : val) : val :=
  match v with
  | VArr l => VArr (map (fun x => match x with VUndef => VNull | _ => json_norm x end) l)
  | VObj fs => VObj (List.filter (fun kv => negb (is_undef kv.2)) (map (fun '(k, x) => (k, json_norm x)) fs))
  | _ => v
  end.

(** An object has each key once. *)
Fixpoint js_val (v : val) : Prop :=
  match v with
  | VArr l => (fix go (l : list val) : Prop := match l with [] => True | x :: l' => js_val x /\ go l' end) l
  | VObj fs =>
      dict_wf fs /\
      (fix go (fs : list (string * val)) : Prop :=
         match fs with [] => True | (_, x) :: fs' => js_val x /\ go fs' end) fs
  | _ => True
  end.

Lemma js_val_arr l : js_val (VArr l) <-> Forall js_val l.
Proof.
  simpl. induction l as [|x l IH]; [split; [constructor|done]|].
  rewrite Forall_cons. tauto.
Qed.

Lemma js_val_obj fs : js_val (VObj fs) <-> dict_wf fs /\ Forall (fun kv => js_val kv.2) fs.
Proof.
  simpl. apply Morphisms_Prop.and_iff_morphism; [done|].
  induction fs as [|[k x] fs IH]; [split; [constructor|done]|]. rewrite Forall_cons. simpl. tauto.
Qed.

Lemma json_norm_undef v : is_undef (json_norm v) = is_undef v.
Proof. by destruct v. Qed.

Lemma is_undef_eq v : is_undef v = true <-> v = VUndef.
Proof. by destruct v. Qed.

Lemma filter_defined_map (f : val -> val) fs :
  (forall v, is_undef (f v) = is_undef v) ->
  List.filter (fun kv : string * val => negb (is_undef kv.2)) (map (fun '(k, x) => (k, f x)) fs)
  = map (fun '(k, x) => (k, f x)) (List.filter (fun kv => negb (is_undef kv.2)) fs).
Proof.
  intros Hf. induction fs as [|[k x] fs IH]; [done|]. simpl. rewrite Hf, IH. by destruct (is_undef x).
Qed.

Lemma filter_defined_idem (fs : list (string * val)) :
  Forall (fun kv => is_undef kv.2 = false) fs ->
  List.filter (fun kv => negb (is_undef kv.2)) fs = fs.
Proof. induction 1 as [|[k x] fs Hx _ IH]; [done|]. simpl in *. by rewrite Hx, IH. Qed.

Lemma filter_defined_all (fs : list (string * val)) :
  Forall (fun kv => is_undef kv.2 = false) (List.filter (fun kv => negb (is_undef kv.2)) fs).
Proof.
  apply List.Forall_forall. intros kv [_ Hb]%filter_In. by apply negb_true_iff.
Qed.

Lemma stringify_norm v : json_stringify (json_norm v) = json_stringify v.
Proof.
  induction v as [| |b|z|s|l IH|fs IH] using val_ind_nested; try done.
  - cbn [json_norm json_stringify]. do 4 f_equal.
    induction IH as [|x l Hx _ IHl]; [done|]. simpl. rewrite IHl. f_equal.
    destruct x; try done; by rewrite Hx.
  - cbn [json_norm json_stringify]. do 4 f_equal.
    induction IH as [|[k x] fs Hx _ IHl]; [done|]. simpl in Hx |- *. rewrite json_norm_undef.
    destruct (is_undef x) eqn:Hu; simpl.
    + apply is_undef_eq in Hu as ->. exact IHl.
    + rewrite Hx, IHl. done.
Qed.

Lemma defined_keys (fs : list (string * val)) (f : val -> val) :
  dict_wf fs -> dict_wf (List.filter (fun kv => negb (is_undef kv.2)) (map (fun '(k, x) => (k, f x)) fs)).
Proof.
  unfold dict_wf, dict_keys. induction fs as [|[k x] fs IH]; [done|]. simpl.
  intros [Hn Hd]%list.NoDup_cons. destruct (is_undef (f x)); simpl; [auto|].
  apply list.NoDup_cons. split; [|auto]. intros ([k' y] & -> & Hi)%list_elem_of_fmap.
  apply Hn. apply list_elem_of_In. apply list_elem_of_In, filter_In in Hi as [Hi _].
  apply in_map_iff in Hi as ([k2 z] & E & Hz). simplify_eq/=. by apply (in_map fst) in Hz.
Qed.

Lemma norm_json_val v : js_val v -> is_undef v = false -> json_val (json_norm v).
Proof.
  induction v as [| |b|z|s|l IH|fs IH] using val_ind_nested; try done.
  - rewrite js_val_arr. intros Hl _. cbn [json_norm]. apply json_val_arr.
    induction IH as [|x l Hx _ IHl]; [constructor|]. simpl. apply Forall_cons in Hl as [Hjx Hl].
    apply Forall_cons. split; [|auto]. destruct x; try done; by apply Hx.
  - rewrite js_val_obj. intros [Hw Hl] _. cbn [json_norm]. apply json_val_obj.
    split; [by apply defined_keys|]. clear Hw.
    induction IH as [|[k x] fs Hx _ IHl]; [constructor|]. simpl in *. apply Forall_cons in Hl as [Hjx Hl].
    rewrite json_norm_undef. destruct (is_undef x) eqn:Hu; simpl; [auto|]. apply Forall_cons. auto.
Qed.

(** Storing as text and reading back. *)
Lemma stored_text v : js_val v -> is_undef v = false ->
  exists t, json_stringify v = Some t /\ json_parse t = Ok (json_norm v).
Proof.
  intros Hv Hu. destruct (json_roundtrip (json_norm v)) as (t & Ht & Hp); [by apply norm_json_val|].
  exists t. by rewrite <- stringify_norm.
Qed.

Lemma stringify_defined v : json_stringify v = None <-> v = VUndef.
Proof. by destruct v. Qed.

(** * Sorting *)

Section SortLaws.
Context {A : Type} (le : A -> A -> bool).

Lemma insert_by_perm x l : Permutation (insert_by le x l) (x :: l).
Proof.
  induction l as [|y l IH]; [done|]. simpl. destruct (le x y); [done|]. rewrite IH. apply Permutation_swap.
Qed.

Lemma sort_by_perm l : Permutation (sort_by le l) l.
Proof. induction l as [|x l IH]; [done|]. simpl. by rewrite insert_by_perm, IH. Qed.

Lemma sort_by_sorted l : StronglySorted (fun a b => le a b = true) l -> sort_by le l = l.
Proof.
  induction 1 as [|x l _ IH Hx]; [done|]. simpl. rewrite IH.
  destruct Hx as [|y l Hy _]; [done|]. simpl. by rewrite Hy.
Qed.
End SortLaws.

Lemma sort_by_map {A B} (le : A -> A -> bool) (le' : B -> B -> bool) (f : A -> B) l :
  (forall a b, le' (f a) (f b) = le a b) -> sort_by le' (map f l) = map f (sort_by le l).
Proof.
  intros Hf. induction l as [|x l IH]; [done|]. simpl. rewrite IH. generalize (sort_by le l). clear IH l.
  intros l. induction l as [|y l IH]; [done|]. simpl. rewrite Hf. destruct (le x y); [done|]. simpl. by rewrite IH.
Qed.

Lemma sort_undef v : is_undef (sortForCanonicalJson v) = is_undef v.
Proof. by destruct v. Qed.

(** Sorting and storing commute. *)
Lemma sort_norm v : sortForCanonicalJson (json_norm v) = json_norm (sortForCanonicalJson v).
Proof.
  induction v as [| |b|z|s|l IH|fs IH] using val_ind_nested; try done.
  - cbn [json_norm sortForCanonicalJson]. f_equal. rewrite !map_map.
    induction IH as [|x l Hx _ IHl]; [done|]. simpl. rewrite IHl. f_equal.
    destruct x; try done; exact Hx.
  - cbn [json_norm sortForCanonicalJson]. f_equal.
    rewrite !(filter_defined_map sortForCanonicalJson), !(filter_defined_map json_norm)
      by (exact sort_undef || exact json_norm_undef).
    rewrite (filter_defined_idem (sort_by _ _)).
    2:{ eapply List.Forall_forall. intros [k x] Hi.
        apply (Permutation_in _ (sort_by_perm key_le _)) in Hi.
        apply in_map_iff in Hi as ([k' y] & E & Hy). simplify_eq/=. rewrite sort_undef.
        pose proof (filter_defined_all fs) as Ha. rewrite List.Forall_forall in Ha. exact (Ha _ Hy). }
    rewrite (filter_defined_idem (List.filter _ fs)) by apply filter_defined_all.
    rewrite <- (sort_by_map key_le key_le (fun '(k, x) => (k, json_norm x))) by (by intros [] []).
    f_equal. rewrite !map_map. apply map_ext_in. intros [k x] [Hi _]%filter_In.
    rewrite List.Forall_forall in IH. specialize (IH _ Hi). simpl in IH. by rewrite IH.
Qed.

(** Storing a value does not change the text its hash is taken of. *)
Lemma canonical_norm v : canonicalJson (json_norm v) = canonicalJson v.
Proof. unfold canonicalJson. by rewrite sort_norm, stringify_norm. Qed.

Lemma sort_js_val v : js_val v -> js_val (sortForCanonicalJson v).
Proof.
  induction v as [| |b|z|s|l IH|fs IH] using val_ind_nested; try done.
  - rewrite js_val_arr. intros Hl. cbn [sortForCanonicalJson]. apply js_val_arr.
    induction IH as [|x l Hx _ IHl]; [constructor|]. apply Forall_cons in Hl as [Hj Hl]. simpl. apply Forall_cons. auto.
  - rewrite js_val_obj. intros [Hw Hl]. cbn [sortForCanonicalJson]. apply js_val_obj.
    pose proof (sort_by_perm key_le (List.filter (fun kv => negb (is_undef kv.2))
                 (map (fun '(k, child) => (k, sortForCanonicalJson child)) fs))) as Hp.
    split.
    + unfold dict_wf, dict_keys. rewrite Hp. by apply defined_keys.
    + rewrite Hp. apply List.Forall_forall. intros [k x] [Hi _]%filter_In.
      apply in_map_iff in Hi as ([k' y] & E & Hy). simplify_eq/=.
      rewrite List.Forall_forall in IH, Hl. apply (IH _ Hy). exact (Hl _ Hy).
Qed.

(** The value its canonical text says. *)
Definition canon (v : val) : val := json_norm (sortForCanonicalJson v).

Lemma canonical_inj v w : js_val v -> js_val w -> canonicalJson v = canonicalJson w -> canon v = canon w.
Proof.
  unfold canonicalJson, canon. intros Hv%sort_js_val Hw%sort_js_val E.
  destruct (is_undef (sortForCanonicalJson v)) eqn:Hu.
  - apply is_undef_eq in Hu. rewrite Hu in E |- *. symmetry in E. by apply stringify_defined in E as ->.
  - destruct (stored_text _ Hv Hu) as (t & Ht & Hp). rewrite E in Ht.
    destruct (is_undef (sortForCanonicalJson w)) eqn:Hu'.
    { apply is_undef_eq in Hu'. by rewrite Hu' in Ht. }
    destruct (stored_text _ Hw Hu') as (t' & Ht' & Hp'). congruence.
Qed.

Lemma canonical_defined v : is_undef v = false -> exists t, canonicalJson v = Some t.
Proof.
  intros Hu. unfold canonicalJson. destruct (json_stringify _) as [t|] eqn:E; [eauto|].
  apply stringify_defined in E. rewrite <- sort_undef in Hu. by rewrite E in Hu.
Qed.

(** * The hashed text *)

Fixpoint no_newline (s : string) : Prop :=
  match s with EmptyString => True | String c s' => c <> Ascii.ascii_of_nat 10%nat /\ no_newline s' end.

Lemma split_newline a b s t :
  no_newline a -> no_newline b -> a ^^ NL ^^ s = b ^^ NL ^^ t -> a = b /\ s = t.
Proof.
  revert b. induction a as [|c a IH]; intros [|d b] Ha Hb E; simpl in Ha, Hb.
  - split; [done|]. by injection E.
  - exfalso. injection E as E _. destruct Hb as [Hb _]. by destruct Hb.
  - exfalso. injection E as E _. destruct Ha as [Ha _]. by destruct Ha.
  - rewrite !string_app_cons in E. injection E as -> E. destruct (IH b) as [-> ->]; [tauto..|done].
Qed.

Lemma app_same_length a b s t : String.length a = String.length b -> a ^^ s = b ^^ t -> a = b /\ s = t.
Proof.
  revert b. induction a as [|c a IH]; intros [|d b] Hl E; simpl in Hl; try lia; [done|].
  rewrite !string_app_cons in E. injection E as -> E. destruct (IH b) as [-> ->]; [lia|done|done].
Qed.

(** What ends a number. *)
Lemma number_inj (z w : Z) s t : delimits s -> delimits t -> pretty z ^^ s = pretty w ^^ t -> z = w /\ s = t.
Proof.
  intros Hs Ht E. pose proof (parse_number_pretty z s Hs) as Hz. rewrite E, (parse_number_pretty w t Ht) in Hz.
  by simplify_eq.
Qed.

Lemma length_prefixed_inj a b s t : length_prefixed a ^^ s = length_prefixed b ^^ t -> a = b /\ s = t.
Proof.
  unfold length_prefixed. rewrite <- !string_app_assoc. intros E.
  apply number_inj in E as [El E]; [|done|done]. rewrite !string_app_cons in E. injection E as E.
  change (a ^^ s = b ^^ t) in E.
  apply app_same_length in E; [done|lia].
Qed.

(** The text that is hashed determines what is hashed. *)
Lemma preimage_inj prev1 prev2 logId1 logId2 head1 head2 seq1 seq2 sem1 sem2 :
  no_newline prev1 -> no_newline prev2 ->
  logEnvelopeHashPreimage prev1 logId1 head1 seq1 sem1 = logEnvelopeHashPreimage prev2 logId2 head2 seq2 sem2 ->
  prev1 = prev2 /\ logId1 = logId2 /\ head1 = head2 /\ seq1 = seq2 /\
  default "" (canonicalJson sem1) = default "" (canonicalJson sem2).
Proof.
  unfold logEnvelopeHashPreimage. cbn [String.concat]. intros H1 H2 E.
  apply split_newline in E as [_ E]; [|vm_compute; repeat (split; [discriminate|]); exact I|vm_compute; repeat (split; [discriminate|]); exact I].
  apply split_newline in E as [-> E]; [|done..].
  apply length_prefixed_inj in E as [-> E]. apply string_app_inj_l in E.
  apply length_prefixed_inj in E as [-> E]. apply string_app_inj_l in E.
  apply number_inj in E as [-> E]; [|done..]. apply string_app_inj_l in E. done.
Qed.
