(* ===== verification/GadRefs.v ===== *)
(** What the gad store does to an event before it stores it: participant references
    reduced to their public part (agentic-protocol/src/participant-ref.ts), references
    to stored values and the check that bulky fields are stored by reference
    (agentic-protocol/src/stored-values.ts), and the helpers of gad-store/index.ts that
    take an agentic event apart and put it together. *)
From S2P Require Import Prelude Dict JsValue JsText GadCanon.
#[local] Open Scope Z_scope.

(** * Public participant references *)

Definition PUBLIC_METADATA_KEYS : list string :=
  ["kind"; "type"; "name"; "displayName"; "handle"; "typing"; "executionMode"; "activeModel"].

Definition is_scalar (v : val) : bool := match v with VStr _ | VNum _ | VBool _ => true | _ => false end.

Definition publicMethodSummary (method : val) : list val :=
  if negb (is_record method) then []
  else
    match method.!"name" with
    | VStr name =>
        [VObj ([("name", VStr name)]
               ++ match method.!"streaming" with VBool b => [("streaming", VBool b)] | _ => [] end
               ++ if is_record method.!"menu" then [("menu", method.!"menu")] else [])]
    | _ => []
    end.

Definition publicMethodSummaries (value : val) : list val := flat_map publicMethodSummary (arr_or_nil value).

(** [undefined] when nothing public is left. *)
Definition publicParticipantMetadata (metadata : val) : val :=
  if negb (truthy metadata) then VUndef
  else
    let out := omap (fun key => if is_scalar metadata.!key then Some (key, metadata.!key) else None)
                 PUBLIC_METADATA_KEYS in
    let methods := publicMethodSummaries metadata.!"methods" in
    let out := match methods with [] => out | _ => out ++ [("methods", VArr methods)] end in
    match out with [] => VUndef | _ => VObj out end.

Definition actorKindFromMetadata (participantId : string) (declaredKind : val) : string :=
  match declaredKind with
  | VStr k =>
      if existsb (String.eqb k) ["user"; "agent"; "system"; "panel"; "external"] then k
      else if participantId =s? "system" then "system"
      else if startsWith participantId "panel:" then "panel"
      else if startsWith participantId "do:" then "agent" else "external"
  | _ =>
      if participantId =s? "system" then "system"
      else if startsWith participantId "panel:" then "panel"
      else if startsWith participantId "do:" then "agent" else "external"
  end.

Definition participantRefFromMetadata (participantId : string) (metadata : val) : val :=
  let publicMetadata := publicParticipantMetadata metadata in
  let declaredKind := publicMetadata.!"kind" ?? publicMetadata.!"type" in
  let displayName :=
    match publicMetadata.!"name", publicMetadata.!"displayName" with
    | VStr n, _ => VStr n
    | _, VStr n => VStr n
    | _, _ => VUndef
    end in
  VObj ([("kind", VStr (actorKindFromMetadata participantId declaredKind));
         ("id", VStr participantId); ("participantId", VStr participantId)]
        ++ opt_field "displayName" displayName ++ opt_field "metadata" publicMetadata).

Definition publicActorRef (actor : val) : val :=
  VObj (dict_del "metadata" (fields actor)
        ++ opt_field "metadata" (publicParticipantMetadata actor.!"metadata")).

Definition publicParticipantRef (participant : val) : val := publicActorRef participant.

(** [{ ...v, k: x }]. *)
Definition with_field (k : string) (x v : val) : val := VObj (dict_set k x (fields v)).

(** [k in v]. *)
Definition has_field (k : string) (v : val) : bool := dict_has k (fields v).

Definition sanitizeInvocationPayload (payload : val) : val :=
  if negb (has_field "transport" payload) || negb (is_lit payload.!"transport".!"kind" "channel") then payload
  else
    with_field "transport"
      (with_field "target" (publicParticipantRef payload.!"transport".!"target") payload.!"transport")
      payload.

Definition sanitizeApprovalPayload (payload : val) : val :=
  if has_field "question" payload then
    let payload1 :=
      if truthy payload.!"requestedBy"
      then with_field "requestedBy" (publicActorRef payload.!"requestedBy") payload else payload in
    if is_object payload.!"approver" && has_field "id" payload.!"approver"
    then with_field "approver" (publicParticipantRef payload.!"approver") payload1 else payload1
  else with_field "resolvedBy" (publicActorRef payload.!"resolvedBy") payload.

Definition sanitizePayloadParticipantRefs (kind : string) (payload : val) : val :=
  if kind =s? "invocation.started" then sanitizeInvocationPayload payload
  else if (kind =s? "approval.requested") || (kind =s? "approval.resolved") then sanitizeApprovalPayload payload
  else if kind =s? "messageType.registered" then
    if truthy payload.!"registeredBy"
    then with_field "registeredBy" (publicActorRef payload.!"registeredBy") payload else payload
  else if kind =s? "custom.started" then
    if truthy payload.!"by" then with_field "by" (publicActorRef payload.!"by") payload else payload
  else if kind =s? "external.envelope_observed" then
    with_field "from" (publicParticipantRef payload.!"from") payload
  else if kind =s? "external.participant_observed" then
    with_field "participant" (publicParticipantRef payload.!"participant") payload
  else payload.

Definition sanitizeAgenticEventParticipantRefs (event : val) : val :=
  with_field "payload" (sanitizePayloadParticipantRefs (to_str event.!"kind") event.!"payload")
    (with_field "actor" (publicActorRef event.!"actor") event).

(** [sanitizeAudience]; [None] is [undefined]. *)
Definition sanitizeAudience (audience : val) : option val :=
  match audience with
  | VUndef | VNull => None
  | VArr l => Some (VArr (map publicParticipantRef l))
  | v => Some v
  end.

Definition sanitizeRosterMethodSummaries (methods : val) : val :=
  js_nullish (publicParticipantMetadata (VObj [("methods", methods)])).!"methods" (VArr []).

Definition sanitizeRosterParticipant (participant : val) : val :=
  if negb (is_record participant) then participant
  else
    let ref := participant.!"ref" in
    with_field "methods" (sanitizeRosterMethodSummaries participant.!"methods")
      (if is_record ref then with_field "ref" (publicParticipantRef ref) participant else participant).

Definition sanitizeRosterSnapshotPayload (payload : val) : val :=
  let details := payload.!"details" in
  let roster := details.!"roster" in
  if negb (is_record payload) || negb (is_record details) then payload
  else if negb (is_lit details.!"kind" "roster.snapshot") && negb (is_lit payload.!"kind" "roster.snapshot")
  then payload
  else if negb (is_record roster) then payload
  else
    match roster.!"participants" with
    | VArr participants =>
        with_field "details"
          (with_field "roster"
             (with_field "participants" (VArr (map sanitizeRosterParticipant participants)) roster)
             details)
          payload
    | _ => payload
    end.

(** * References to stored values *)

Definition is_num (v : val) : bool := match v with VNum _ => true | _ => false end.
Definition is_str (v : val) : bool := match v with VStr _ => true | _ => false end.

Definition isStoredValueRef (value : val) : bool :=
  is_record value
  && is_lit value.!"protocol" "natstack.blob-ref.v1"
  && is_str value.!"digest" && is_num value.!"size"
  && (is_lit value.!"encoding" "json" || is_lit value.!"encoding" "text")
  && is_num value.!"originalBytes".

(** The references in a value with the path of each. *)
Fixpoint collectStoredValueRefs (value : val) (path : string) : list (string * val) :=
  if isStoredValueRef value then [(path, value)]
  else
    match value with
    | VArr l =>
        (fix go (index : Z) (l : list val) : list (string * val) :=
           match l with
           | [] => []
           | item :: l' =>
               collectStoredValueRefs item (path ^^ "[" ^^ pretty index ^^ "]") ++ go (index + 1) l'
           end) 0 l
    | VObj fs =>
        (fix go (fs : list (string * val)) : list (string * val) :=
           match fs with
           | [] => []
           | (key, item) :: fs' => collectStoredValueRefs item (path ^^ "." ^^ key) ++ go fs'
           end) fs
    | _ => []
    end.

(** [REFERENCE_PAYLOAD_PATHS], each a list of segments behind the event; the flag is a
    trailing [*] over an array. *)
Definition REQUIRED_STORED_PAYLOAD_PATHS : list (list (string * bool)) :=
  map (fun key => [("payload", false); (key, false)])
    ["request"; "result"; "data"; "output"; "error"; "body"; "update"; "initialState"; "props"; "imports";
     "source"]
  ++ [[("payload", false); ("blocks", true); ("arguments", false)]].

Definition path_step (current : list val) (segment : string * bool) : list val :=
  flat_map
    (fun node =>
       if negb (is_record node) then []
       else
         let child := node.!(segment.1) in
         if segment.2 then arr_or_nil child else [child])
    current.

Definition getPathAll (value : val) (path : list (string * bool)) : list val := fold_left path_step path [value].

Definition path_text (path : list (string * bool)) : string :=
  String.concat "." ("$" :: map (fun '(key, wildcard) => if wildcard : bool then key ^^ "[*]" else key) path).

Definition MAX_INLINE_TRAJECTORY_EVENT_BYTES : Z := 512 * 1024.

(** The fields that are not stored by reference, as path and reason. *)
Definition findUnencodedAgenticEventStoredValues (event : val) : list (string * string) :=
  omap
    (fun '(path, ref) =>
       if (path =s? "$.payload") || startsWith path "$.payload." then None
       else Some (path, "stored ref is only allowed inside payload storage (" ^^ to_str ref.!"digest" ^^ ")"))
    (collectStoredValueRefs event "$")
  ++ flat_map
       (fun path =>
          omap
            (fun value =>
               match value with
               | VUndef | VNull | VNum _ | VBool _ => None
               | _ =>
                   if isStoredValueRef value then None
                   else Some (path_text path, "storage-boundary payload field must be a StoredValueRef")
               end)
            (getPathAll event path))
       REQUIRED_STORED_PAYLOAD_PATHS
  ++ let eventBytes := Z.of_nat (String.length (default "" (json_stringify event))) in
     if MAX_INLINE_TRAJECTORY_EVENT_BYTES <? eventBytes
     then [("$", "encoded event too large: " ^^ pretty eventBytes)] else [].

Definition assertAgenticEventStoredValuesEncoded (event : val) : res unit :=
  match findUnencodedAgenticEventStoredValues event with
  | [] => Ok tt
  | violations =>
      Throw ("trajectory event contains unencoded stored values: "
             ^^ String.concat "; " (map (fun '(path, reason) => path ^^ ": " ^^ reason) violations))
  end.

(** * Events and envelopes *)

Definition AGENTIC_EVENT_PAYLOAD_KIND : string := "agentic.trajectory.v1/event".

(** [typeof null] is "object". *)
Definition isAgenticEventPayload (payload : val) : bool :=
  is_record payload && is_str payload.!"kind"
  && (is_object payload.!"actor" || match payload.!"actor" with VNull => true | _ => false end)
  && is_str payload.!"createdAt".

Definition agenticCausality (causality : option val) : option val :=
  match causality with
  | None => None
  | Some c =>
      match dict_del "turnId" (dict_del "originEnvelopeId" (dict_del "originHead" (dict_del "originLogId" (fields c)))) with
      | [] => None
      | rest => Some (VObj rest)
      end
  end.

Definition causality_get (key : string) (causality : option val) : val :=
  match causality with Some c => c.!key | None => VUndef end.

Definition agenticEventFromEnvelope (event : LogEvent) : val :=
  VObj ([("kind", VStr event.(ev_payloadKind)); ("actor", event.(ev_actor))]
        ++ opt_field "turnId" (causality_get "turnId" event.(ev_causality))
        ++ some_field "causality" (agenticCausality event.(ev_causality))
        ++ [("payload", event.(ev_payload)); ("createdAt", VStr event.(ev_appendedAt))]).

Definition STORED_EVENT_KINDS : list string :=
  ["message.started"; "message.delta"; "message.completed"; "message.failed";
   "invocation.started"; "invocation.progress"; "invocation.output"; "invocation.completed";
   "invocation.failed"; "invocation.cancelled"; "invocation.abandoned";
   "approval.requested"; "approval.resolved";
   "ui.inline_rendered"; "ui.action_bar.updated"; "ui.feedback";
   "messageType.registered"; "messageType.cleared"; "custom.started"; "custom.updated";
   "state.file_observed"; "state.file_mutation_intended"; "state.file_mutation_applied";
   "state.transition_recorded"; "state.snapshot_ingested"; "state.merge_applied";
   "external.envelope_published"; "external.envelope_observed"; "external.participant_observed";
   "branch.created"; "branch.forked"; "branch.head_changed";
   "turn.opened"; "turn.waiting"; "turn.closed";
   "system.event"; "system.compaction_recorded"; "memory.recalled"; "build.completed";
   "knowledge.claim_recorded"; "knowledge.claim_updated"; "knowledge.claim_retracted"].

Definition isStoredEventKind (payloadKind : string) : bool := existsb (String.eqb payloadKind) STORED_EVENT_KINDS.
