(* ===== verification/GadStored.v ===== *)
(** Values stored by reference (agentic-protocol/src/stored-values.ts): the fields of
    a payload that are kept in the blob store, and putting them back. *)
From S2P Require Import Prelude Dict JsValue JsText JsJson GadCanon GadRefs.
#[local] Open Scope Z_scope.

(** [BlobWriter] and [BlobReader] over one store of texts. *)
Class TextBlobs (B : Type) := {
  putText : B -> string -> B * (string * Z);
  getText : B -> string -> option string
}.

Class TextBlobsLaws (B : Type) `{!TextBlobs B} : Prop := {
  put_get b s : getText (putText b s).1 (putText b s).2.1 = Some s;
  put_keeps b s digest t : getText b digest = Some t -> getText (putText b s).1 digest = Some t
}.

Definition STORED_VALUE_REF_PROTOCOL : string := "natstack.blob-ref.v1".
Definition MAX_INLINE_TRAJECTORY_TEXT_BYTES : Z := 128 * 1024.

Definition REFERENCE_PAYLOAD_PATHS : list string :=
  ["$.payload.request"; "$.payload.result"; "$.payload.data"; "$.payload.output"; "$.payload.error";
   "$.payload.body"; "$.payload.update"; "$.payload.initialState"; "$.payload.props"; "$.payload.imports";
   "$.payload.source"; "$.payload.blocks[*].arguments"].

Definition byteLength (s : string) : Z := Z.of_nat (String.length s).

Inductive OversizeInline := OversizeError | OversizeSpill.

Record StorageClassOptions := mkStorageOptions {
  so_maxInlineTextBytes : option Z;
  so_referencePaths : list string;
  so_oversizeInline : OversizeInline
}.

Section Stored.
Context {B : Type} `{!TextBlobs B}.
Implicit Types b : B.

Definition stored_ref (blob : string * Z) (encoding : string) (originalBytes : Z) : val :=
  VObj [("protocol", VStr STORED_VALUE_REF_PROTOCOL); ("digest", VStr blob.1); ("size", VNum blob.2);
        ("encoding", VStr encoding); ("originalBytes", VNum originalBytes)].

Definition storeText b (value : string) : B * val :=
  let '(b, blob) := putText b value in (b, stored_ref blob "text" (byteLength value)).

Definition storeJson b (value : val) : B * val :=
  let json := default "undefined" (json_stringify value) in
  let '(b, blob) := putText b json in (b, stored_ref blob "json" (byteLength json)).

(** [encodeStorageClassesInner]; the puts of the fields of a value run in order. *)
Fixpoint encodeStorageClassesInner (options : StorageClassOptions) (path matchPath : string) (value : val) b
    : res (B * val) :=
  if isStoredValueRef value then Ok (b, value)
  else if existsb (String.eqb matchPath) options.(so_referencePaths) then
    match value with
    | VStr s => Ok (storeText b s)
    | VNull | VUndef | VNum _ | VBool _ => Ok (b, value)
    | _ => Ok (storeJson b value)
    end
  else
    match value with
    | VStr s =>
        let maxText := default MAX_INLINE_TRAJECTORY_TEXT_BYTES options.(so_maxInlineTextBytes) in
        if maxText <? byteLength s then
          match options.(so_oversizeInline) with
          | OversizeSpill => Ok (storeText b s)
          | OversizeError =>
              Throw ("inline value at " ^^ path ^^ " is " ^^ pretty (byteLength s) ^^ " bytes (max " ^^ pretty maxText
                     ^^ "). There is no implicit spill: bound this value at the emitter (split/clamp it) or "
                     ^^ "classify the path as REFERENCE in REFERENCE_PAYLOAD_PATHS (fold-opaque, always stored by ref).")
          end
        else Ok (b, value)
    | VNull | VUndef | VNum _ | VBool _ => Ok (b, value)
    | VArr l =>
        let! encoded :=
          (fix go (index : Z) (l : list val) b : res (B * list val) :=
             match l with
             | [] => Ok (b, [])
             | item :: l' =>
                 let! first := encodeStorageClassesInner options (path ^^ "[" ^^ pretty index ^^ "]")
                                 (matchPath ^^ "[*]") item b in
                 let! rest := go (index + 1) l' first.1 in
                 Ok (rest.1, first.2 :: rest.2)
             end) 0 l b in
        Ok (encoded.1, VArr encoded.2)
    | VObj fs =>
        let! encoded :=
          (fix go (fs : list (string * val)) b : res (B * list (string * val)) :=
             match fs with
             | [] => Ok (b, [])
             | (key, item) :: fs' =>
                 let! first := encodeStorageClassesInner options (path ^^ "." ^^ key) (matchPath ^^ "." ^^ key)
                                 item b in
                 let! rest := go fs' first.1 in
                 Ok (rest.1, (key, first.2) :: rest.2)
             end) fs b in
        Ok (encoded.1, VObj encoded.2)
    end.

Definition encodeStorageClasses (options : StorageClassOptions) (path : string) (value : val) b : res (B * val) :=
  encodeStorageClassesInner options path path value b.

Definition encodeChannelPayloadStoredValues (payload : val) b : res (B * val) :=
  encodeStorageClasses (mkStorageOptions None REFERENCE_PAYLOAD_PATHS OversizeSpill) "$" payload b.

Definition encodeAgenticEventStoredValues (event : val) b : res (B * val * Z) :=
  let! encoded :=
    encodeStorageClasses (mkStorageOptions None REFERENCE_PAYLOAD_PATHS OversizeError) "$.payload"
      event.!"payload" b in
  let event := with_field "payload" encoded.2 event in
  Ok (encoded.1, event, byteLength (default "" (json_stringify event))).

(** [hydrateStoredValueRefs] without [strict]; each blob that is opened costs one unit of
    fuel. *)
Fixpoint hydrateStoredValueRefs (fuel : nat) b (value : val) {struct fuel} : res val :=
  (fix hydrate (value : val) : res val :=
     if isStoredValueRef value then
       match getText b (to_str value.!"digest") with
       | None => Ok VNull
       | Some text =>
           if is_lit value.!"encoding" "text" then Ok (VStr text)
           else
             match fuel with
             | O => Throw "out of fuel"
             | S fuel' => let! parsed := json_parse text in hydrateStoredValueRefs fuel' b parsed
             end
       end
     else
       match value with
       | VArr l =>
           let! l :=
             (fix go (l : list val) : res (list val) :=
                match l with
                | [] => Ok []
                | item :: l' => let! item := hydrate item in let! l' := go l' in Ok (item :: l')
                end) l in
           Ok (VArr l)
       | VObj fs =>
           let! fs :=
             (fix go (fs : list (string * val)) : res (list (string * val)) :=
                match fs with
                | [] => Ok []
                | (key, item) :: fs' => let! item := hydrate item in let! fs' := go fs' in Ok ((key, item) :: fs')
                end) fs in
           Ok (VObj fs)
       | v => Ok v
       end) value.
End Stored.
