(* ===== verification/GadLog.v ===== *)
(** The log tables of the gad store and what is read from them
    (gad-store/index.ts: the unified log): the heads and the events of each log, the
    lineage of a forked log, reading pages and tails of it, looking events up, and
    the replay windows of a channel. The other tables of the store are [P]. *)
From S2P Require Import Prelude Dict JsValue JsText JsJson GadCanon GadRefs.
#[local] Open Scope Z_scope.

(** * Tables *)

(** A row of [log_heads]. *)
Record LogHeadRow := mkLogHeadRow {
  hr_log_id : string;
  hr_head : string;
  hr_log_kind : string;
  hr_owner_json : option string;
  hr_parent_log_id : option string;
  hr_parent_head : option string;
  hr_fork_seq : option Z;
  hr_fork_hash : option string;
  hr_current_seq : Z;
  hr_current_hash : string;
  hr_current_envelope_id : option string;
  hr_created_at : string
}.

(** A row of [log_events]. *)
Record LogEventRow := mkLogEventRow {
  er_log_id : string;
  er_head : string;
  er_seq : Z;
  er_envelope_id : string;
  er_payload_kind : string;
  er_actor_json : string;
  er_to_json : option string;
  er_causality_json : option string;
  er_annotations_json : option string;
  er_payload_ref_json : string;
  er_appended_at : string;
  er_hash : string;
  er_prev_hash : string;
  er_origin_log_id : option string;
  er_origin_head : option string;
  er_origin_envelope_id : option string;
  er_turn_id : option string
}.

(** A row of [log_blob_refs]. *)
Record BlobRefRow := mkBlobRefRow {
  br_log_id : string;
  br_head : string;
  br_envelope_id : string;
  br_field_path : string;
  br_digest : string;
  br_size : Z;
  br_created_at : string
}.

(** The tables, their rows in the order of insertion. *)
Record Gad (P : Type) := mkGad {
  g_heads : list LogHeadRow;
  g_events : list LogEventRow;
  g_blobRefs : list BlobRefRow;
  g_other : P
}.
Arguments mkGad {P}.
Arguments g_heads {P}.
Arguments g_events {P}.
Arguments g_blobRefs {P}.
Arguments g_other {P}.

Fixpoint res_map {A B} (f : A -> res B) (l : list A) : res (list B) :=
  match l with
  | [] => Ok []
  | x :: l' =>
      let! y := f x in
      let! l' := res_map f l' in
      Ok (y :: l')
  end.

(** * Columns *)

Definition json (value : val) : option string :=
  match value with VUndef | VNull => None | _ => json_stringify value end.

Definition parseJson (value : option string) : res val :=
  match value with
  | None => Ok VNull
  | Some s => if s =s? "" then Ok VNull else json_parse s
  end.

Definition parseRecord (value : option string) : res val :=
  let! parsed := parseJson value in
  Ok (if is_record parsed then parsed else VObj []).

(** A column that is null or empty is left out. *)
Definition when_set (column : option string) (parse : option string -> res val) : res (option val) :=
  match column with
  | None => Ok None
  | Some s => if s =s? "" then Ok None else let! v := parse column in Ok (Some v)
  end.

Definition mapLogEnvelope (row : LogEventRow) : res GadEnvelope :=
  let! actor := parseRecord (Some row.(er_actor_json)) in
  let! to := when_set row.(er_to_json) parseJson in
  let! payload := parseJson (Some row.(er_payload_ref_json)) in
  let! annotations := when_set row.(er_annotations_json) parseRecord in
  let! causality := when_set row.(er_causality_json) parseRecord in
  Ok {| ge_logId := row.(er_log_id);
        ge_head := row.(er_head);
        ge_seq := row.(er_seq);
        ge_event :=
          {| ev_envelopeId := row.(er_envelope_id); ev_actor := actor; ev_to := to;
             ev_payloadKind := row.(er_payload_kind); ev_payload := payload;
             ev_annotations := annotations; ev_causality := causality;
             ev_appendedAt := row.(er_appended_at) |};
        ge_prevHash := row.(er_prev_hash);
        ge_hash := row.(er_hash) |}.

Section Log.
Context {P : Type}.
Abbreviation Gad := (Gad P).

Definition is_head (logId head : string) (row : LogHeadRow) : bool :=
  (row.(hr_log_id) =s? logId) && (row.(hr_head) =s? head).

Definition logHeadRow (g : Gad) (logId head : string) : option LogHeadRow :=
  List.find (is_head logId head) g.(g_heads).

Record HeadPointer := mkHeadPointer {
  hp_seq : Z;
  hp_hash : string;
  hp_envelopeId : option string
}.

Definition headPointer (g : Gad) (logId head : string) : HeadPointer :=
  match logHeadRow g logId head with
  | Some row => mkHeadPointer row.(hr_current_seq) row.(hr_current_hash) row.(hr_current_envelope_id)
  | None => mkHeadPointer 0 GENESIS_EVENT_HASH None
  end.

Record LogHeadInfo := mkLogHeadInfo {
  hi_logId : string;
  hi_head : string;
  hi_logKind : string;
  hi_seq : Z;
  hi_hash : string;
  hi_envelopeId : option string;
  hi_forkSeq : option Z;
  hi_forkHash : option string;
  hi_parentLogId : option string;
  hi_parentHead : option string
}.

Definition getLogHead (g : Gad) (logId head : string) : option LogHeadInfo :=
  match logHeadRow g logId head with
  | None => None
  | Some row =>
      let pointer := headPointer g logId head in
      Some {| hi_logId := logId; hi_head := head; hi_logKind := row.(hr_log_kind);
              hi_seq := pointer.(hp_seq); hi_hash := pointer.(hp_hash);
              hi_envelopeId := pointer.(hp_envelopeId);
              hi_forkSeq := row.(hr_fork_seq); hi_forkHash := row.(hr_fork_hash);
              hi_parentLogId := row.(hr_parent_log_id); hi_parentHead := row.(hr_parent_head) |}
  end.

(** * Lineage *)

(** [throughSeq] is [None] for infinity. *)
Record LineageSegment := mkSegment {
  sg_logId : string;
  sg_head : string;
  sg_throughSeq : option Z
}.

Definition cap_min (cap : option Z) (forkSeq : Z) : Z :=
  match cap with Some c => Z.min c forkSeq | None => forkSeq end.

Definition NUL : string := String Ascii.zero "".

Definition seen_key (logId head : string) : string := logId ^^ NUL ^^ head.

(** The parent of a head and the sequence number it was forked at. *)
Definition fork_of (row : LogHeadRow) : option (string * string * Z) :=
  match row.(hr_parent_log_id), row.(hr_parent_head), row.(hr_fork_seq) with
  | Some parentLogId, Some parentHead, Some forkSeq =>
      if (parentLogId =s? "") || (parentHead =s? "") then None else Some (parentLogId, parentHead, forkSeq)
  | _, _, _ => None
  end.

Fixpoint lineage_walk (fuel : nat) (g : Gad) (logId head : string) (cap : option Z) (seen : list string)
    : res (list LineageSegment) :=
  match fuel with
  | O => Throw "out of fuel"
  | S fuel' =>
      if existsb (String.eqb (seen_key logId head)) seen
      then Throw ("log lineage cycle at " ^^ logId ^^ ":" ^^ head)
      else
        let segment := mkSegment logId head cap in
        match logHeadRow g logId head ≫= fork_of with
        | None => Ok [segment]
        | Some (parentLogId, parentHead, forkSeq) =>
            let! segments :=
              lineage_walk fuel' g parentLogId parentHead (Some (cap_min cap forkSeq))
                (seen_key logId head :: seen) in
            Ok (segment :: segments)
        end
  end.

(** Each round sees another head, so there is one more round than heads at most. *)
Definition logLineage (g : Gad) (logId head : string) : res (list LineageSegment) :=
  lineage_walk (S (S (length g.(g_heads)))) g logId head None [].

(** * Reading *)

Record ReadLogInput := mkReadLogInput {
  ri_logId : string;
  ri_head : string;
  ri_afterSeq : option Z;
  ri_beforeSeq : option Z;
  ri_limit : option Z;
  ri_payloadKind : option string
}.

Definition within (cap : option Z) (seq : Z) : bool := match cap with Some c => seq <=? c | None => true end.

Definition of_log (logId head : string) (row : LogEventRow) : bool :=
  (row.(er_log_id) =s? logId) && (row.(er_head) =s? head).

(** [logEventWhereForSegment]. *)
Definition where_segment (segment : LineageSegment) (input : ReadLogInput) (row : LogEventRow) : bool :=
  of_log segment.(sg_logId) segment.(sg_head) row
  && (default 0 input.(ri_afterSeq) <? row.(er_seq))
  && within segment.(sg_throughSeq) row.(er_seq)
  && match input.(ri_beforeSeq) with Some b => row.(er_seq) <? b | None => true end
  && match input.(ri_payloadKind) with
     | Some kind => (kind =s? "") || (row.(er_payload_kind) =s? kind)
     | None => true
     end.

Definition row_seq_le (a b : LogEventRow) : bool := a.(er_seq) <=? b.(er_seq).

(** [SELECT * ... ORDER BY seq ASC]. *)
Definition select_segment (g : Gad) (segment : LineageSegment) (input : ReadLogInput) : list LogEventRow :=
  sort_by row_seq_le (List.filter (where_segment segment input) g.(g_events)).

Record LineageEventStats := mkStats { st_count : Z; st_firstSeq : option Z }.

Definition lineageEventStats (g : Gad) (input : ReadLogInput) : res LineageEventStats :=
  let! segments := logLineage g input.(ri_logId) input.(ri_head) in
  Ok (fold_left
        (fun stats segment =>
           match select_segment g segment input with
           | [] => stats
           | (row :: _) as rows =>
               mkStats (stats.(st_count) + Z.of_nat (length rows))
                 (Some match stats.(st_firstSeq) with
                       | None => row.(er_seq)
                       | Some first => Z.min first row.(er_seq)
                       end)
           end)
        segments (mkStats 0 None)).

(** The loop over the segments from the root; [None] is no limit. *)
Fixpoint read_segments (g : Gad) (input : ReadLogInput) (limit : option nat) (segments : list LineageSegment)
    (collected : list GadEnvelope) : res (list GadEnvelope) :=
  match segments with
  | [] => Ok collected
  | segment :: rest =>
      let rows := select_segment g segment input in
      match limit with
      | Some n =>
          if (n <=? length collected)%nat then Ok collected
          else
            let! envelopes := res_map mapLogEnvelope (take (n - length collected) rows) in
            read_segments g input limit rest (collected ++ envelopes)
      | None =>
          let! envelopes := res_map mapLogEnvelope rows in
          read_segments g input limit rest (collected ++ envelopes)
      end
  end.

Definition readLog (g : Gad) (input : ReadLogInput) : res (list GadEnvelope) :=
  let limit :=
    match input.(ri_limit) with
    | Some n => if 0 <? n then Some (Z.to_nat n) else None
    | None => None
    end in
  let! segments := logLineage g input.(ri_logId) input.(ri_head) in
  read_segments g input limit (rev segments) [].

(** The loop over the segments from the log itself, its rows last first. *)
Fixpoint tail_segments (g : Gad) (input : ReadLogInput) (limit : nat) (segments : list LineageSegment)
    (collected : list LogEventRow) : list LogEventRow :=
  match segments with
  | [] => collected
  | segment :: rest =>
      if (limit <=? length collected)%nat then collected
      else
        tail_segments g input limit rest
          (collected ++ take (limit - length collected) (rev (select_segment g segment input)))
  end.

Definition readLogTail (g : Gad) (input : ReadLogInput) : res (list GadEnvelope) :=
  match input.(ri_limit) with
  | None => readLog g input
  | Some n =>
      if n <=? 0 then Ok []
      else
        let! segments := logLineage g input.(ri_logId) input.(ri_head) in
        res_map mapLogEnvelope (rev (tail_segments g input (Z.to_nat n) segments []))
  end.

(** The first segment, from the log itself, that has such a row. *)
Fixpoint find_segment (g : Gad) (p : LogEventRow -> bool) (segments : list LineageSegment) : option LogEventRow :=
  match segments with
  | [] => None
  | segment :: rest =>
      match List.find
              (fun row => of_log segment.(sg_logId) segment.(sg_head) row
                          && within segment.(sg_throughSeq) row.(er_seq) && p row)
              g.(g_events) with
      | Some row => Some row
      | None => find_segment g p rest
      end
  end.

Definition lineageEventRow (g : Gad) (logId head envelopeId : string) : res (option LogEventRow) :=
  let! segments := logLineage g logId head in
  Ok (find_segment g (fun row => row.(er_envelope_id) =s? envelopeId) segments).

Definition getLogEvent (g : Gad) (logId head envelopeId : string) : res (option GadEnvelope) :=
  let! row := lineageEventRow g logId head envelopeId in
  match row with
  | None => Ok None
  | Some row => let! envelope := mapLogEnvelope row in Ok (Some envelope)
  end.

Definition lineageEventBySeq (g : Gad) (logId head : string) (seq : Z) : res (option LogEventRow) :=
  let! segments := logLineage g logId head in
  Ok (find_segment g (fun row => row.(er_seq) =? seq) segments).

Definition lineageEventCountThrough (g : Gad) (logId head : string) (throughSeq : Z) : res Z :=
  let! segments := logLineage g logId head in
  Ok (fold_left
        (fun count segment =>
           let cap := match segment.(sg_throughSeq) with Some c => Z.min c throughSeq | None => throughSeq end in
           count + Z.of_nat (length (List.filter
             (fun row => of_log segment.(sg_logId) segment.(sg_head) row && (row.(er_seq) <=? cap))
             g.(g_events))))
        segments 0).

(** * Replay windows of a channel *)

Definition CHANNEL_LOG_HEAD : string := "main".

Inductive ReplayMode := ReplayInitial | ReplayAfter | ReplayBefore.

Record ChannelReplayWindow := mkWindow {
  rw_envelopes : list val;
  rw_totalCount : Z;
  rw_firstEnvelopeSeq : option Z;
  rw_replayFromId : option Z;
  rw_replayToId : option Z;
  rw_hasMoreBefore : option bool
}.

Definition channelEnvelopeView (channelId : string) (e : GadEnvelope) : val :=
  let event := e.(ge_event) in
  let annotations := default (VObj []) event.(ev_annotations) in
  let policyAnnotations := dict_del "attachments" (dict_del "metadata" (fields annotations)) in
  VObj ([("envelopeId", VStr event.(ev_envelopeId)); ("channelId", VStr channelId); ("seq", VNum e.(ge_seq));
         ("from", event.(ev_actor))]
        ++ some_field "to" event.(ev_to)
        ++ [("payload", event.(ev_payload))]
        ++ (if event.(ev_payloadKind) =s? "opaque" then [] else [("payloadKind", VStr event.(ev_payloadKind))])
        ++ def_field "metadata" annotations.!"metadata"
        ++ def_field "attachments" annotations.!"attachments"
        ++ (match policyAnnotations with [] => [] | _ => [("annotations", VObj policyAnnotations)] end)
        ++ [("publishedAt", VStr event.(ev_appendedAt))]).

Definition channel_read (channelId : string) (after before limit : option Z) : ReadLogInput :=
  mkReadLogInput channelId CHANNEL_LOG_HEAD after before limit None.

Definition window_rows (g : Gad) (channelId : string) (mode : ReplayMode) (sinceSeq beforeSeq : option Z)
    (limit : Z) : res (list GadEnvelope) :=
  match mode with
  | ReplayAfter => readLog g (channel_read channelId (Some (default 0 sinceSeq)) None (Some limit))
  | ReplayBefore =>
      match beforeSeq with
      | None => Throw "beforeSeq required for before replay"
      | Some before => readLogTail g (channel_read channelId None (Some before) (Some limit))
      end
  | ReplayInitial => readLogTail g (channel_read channelId None None (Some limit))
  end.

Definition getChannelReplayWindow (g : Gad) (channelId : string) (mode : ReplayMode)
    (sinceSeq beforeSeq limit : option Z) : res ChannelReplayWindow :=
  let limit := Z.min (Z.max (default 50 limit) 0) 500 in
  let! stats := lineageEventStats g (channel_read channelId None None None) in
  let! rows := window_rows g channelId mode sinceSeq beforeSeq limit in
  let replayFromId := option_map ge_seq (list.head rows) in
  let earlier (anchor : Z) := match stats.(st_firstSeq) with Some first => first <? anchor | None => false end in
  Ok {| rw_envelopes := map (channelEnvelopeView channelId) rows;
        rw_totalCount := stats.(st_count);
        rw_firstEnvelopeSeq := stats.(st_firstSeq);
        rw_replayFromId := replayFromId;
        rw_replayToId := option_map ge_seq (list.last rows);
        rw_hasMoreBefore :=
          match mode with
          | ReplayInitial => Some match replayFromId with Some from => earlier from | None => false end
          | ReplayBefore =>
              let anchor := match replayFromId with Some from => from | None => default 0 beforeSeq end in
              Some ((0 <? anchor) && earlier anchor)
          | ReplayAfter => None
          end |}.
End Log.
