(* ===== verification/GadAppend.v ===== *)
(** The operations that change the log tables of the gad store (gad-store/index.ts):
    appending a batch with idempotent replay, optimistic head check and publication to
    channels, forking a log, deleting a head, archiving the main head of a repository
    and restoring it; and the integrity check over the tables. Appends, forks and
    deletions run in one transaction: a throw leaves the tables as they were. The zod
    schema of agentic events and the tables the projections keep are interfaces. *)
From S2P Require Import Prelude Dict JsValue JsText JsJson GadCanon GadRefs GadLog.
#[local] Open Scope Z_scope.

(** [storedAgenticEventSchema.parse]. *)
Class EventSchema := storedAgenticEventSchema_parse : val -> res val.

(** The other tables: the projections folded from the log, the values of worktree
    states, the blobs, what the deletion of a head drops with its events, the state of
    a worktree head, the renaming of one, and the recall index of a head. *)
Class LogProjections (P : Type) := {
  applyProjections : P -> string -> GadEnvelope -> res P;
  stateExists : P -> string -> bool;
  ensureBlob : P -> string -> Z -> string -> P;
  forgetHead : P -> string -> string -> list string -> P;
  worktreeState : P -> string -> string -> option string;
  renameWorktreeHead : P -> string -> string -> string -> P;
  forgetMemory : P -> string -> string -> P
}.

Definition AGENTIC_LOG_KINDS : list string := ["trajectory"; "vcs"].
Definition isAgenticLogKind (logKind : string) : bool := existsb (String.eqb logKind) AGENTIC_LOG_KINDS.

Definition STATE_TRANSITION_KINDS : list string :=
  ["state.file_mutation_applied"; "state.transition_recorded"; "state.snapshot_ingested"; "state.merge_applied"].

(** An event to append. The last two fields are what [crypto.randomUUID] and [nowIso]
    give when the event is prepared. *)
Record LogAppendEventInput := mkAppendEvent {
  la_envelopeId : option string;
  la_actor : val;
  la_to : val;
  la_payloadKind : string;
  la_payload : val;
  la_causality : val;
  la_annotations : val;
  la_appendedAt : option string;
  la_publish : list (string * val);
  la_uuid : string;
  la_now : string
}.

(** [expectedHeadHash] may be absent, null or a hash. *)
Record AppendLogEventInput := mkAppend {
  in_logId : string;
  in_head : string;
  in_logKind : string;
  in_owner : val;
  in_expectedHeadHash : option (option string);
  in_idempotency : option string;
  in_events : list LogAppendEventInput;
  in_now : string
}.

Record Publication := mkPublication {
  pb_originEnvelopeId : string;
  pb_channelId : string;
  pb_envelopeId : string
}.

Record AppendLogEventResult := mkAppended {
  ar_logId : string;
  ar_head : string;
  ar_headSeq : Z;
  ar_headHash : string;
  ar_envelopes : list GadEnvelope;
  ar_published : list Publication
}.

Record PreparedLogEvent := mkPrepared {
  pe_event : LogEvent;
  pe_appendedAtExplicit : bool;
  pe_publish : list (string * val)
}.

Definition with_appendedAt (appendedAt : string) (event : LogEvent) : LogEvent :=
  {| ev_envelopeId := event.(ev_envelopeId); ev_actor := event.(ev_actor); ev_to := event.(ev_to);
     ev_payloadKind := event.(ev_payloadKind); ev_payload := event.(ev_payload);
     ev_annotations := event.(ev_annotations); ev_causality := event.(ev_causality);
     ev_appendedAt := appendedAt |}.

Definition gadAppendErrorMessage (code detail : string) : string := "GadAppendError[" ^^ code ^^ "]: " ^^ detail.

(** * What diverges between two events of one id *)

Definition trunc_json (v : val) : string :=
  let s := default "undefined" (canonicalJson v) in
  if (160 <? String.length s)%nat
  then str_take 160 s ^^ "…(" ^^ pretty (Z.of_nat (String.length s)) ^^ "b)" else s.

Definition same_json (a b : val) : bool := bool_decide (canonicalJson a = canonicalJson b).

Definition describeSemanticDivergence (incoming stored : val) : string :=
  let differs (a b : val) (prefix : string) : list string :=
    flat_map
      (fun key =>
         if same_json a.!key b.!key then []
         else [prefix ^^ key ^^ " (incoming=" ^^ trunc_json a.!key ^^ " stored=" ^^ trunc_json b.!key ^^ ")"]) 
      (dict_keys (dict_merge (fields a) (fields b))) in
  let parts :=
    flat_map
      (fun key =>
         if same_json incoming.!key stored.!key then []
         else if (key =s? "payload") && is_record incoming.!key && is_record stored.!key
         then differs incoming.!key stored.!key "payload."
         else [key ^^ " (incoming=" ^^ trunc_json incoming.!key ^^ " stored=" ^^ trunc_json stored.!key ^^ ")"])
      (dict_keys (dict_merge (fields incoming) (fields stored))) in
  match parts with
  | [] => "(no field-level diff — likely appendedAt handling or stored-value encoding)"
  | _ => String.concat ", " parts
  end.

Section Append.
Context {P : Type} `{!Sha256, !EventSchema, !LogProjections P}.
Abbreviation Gad := (Gad P).

(** * Preparing an event *)

Definition assertStateTransitionPayloadValid (g : Gad) (payloadKind : string) (payload : val) : res unit :=
  if payloadKind =s? "state.file_mutation_applied" then Ok tt
  else
    match payload.!"outputStateHash" with
    | VStr hash =>
        if hash =s? "" then Throw (payloadKind ^^ " requires payload.outputStateHash")
        else if stateExists g.(g_other) hash then Ok tt
        else Throw (payloadKind ^^ " output state value does not exist: " ^^ hash)
    | _ => Throw (payloadKind ^^ " requires payload.outputStateHash")
    end.

(** The payload of an event as it is stored. *)
Definition prepare_payload (g : Gad) (logKind : string) (input : LogAppendEventInput) (causality : option val)
    (appendedAt : string) : res val :=
  if isAgenticLogKind logKind && isStoredEventKind input.(la_payloadKind) then
    let! reconstructed :=
      storedAgenticEventSchema_parse
        (VObj ([("kind", VStr input.(la_payloadKind)); ("actor", input.(la_actor))]
               ++ opt_field "turnId" (causality_get "turnId" causality)
               ++ some_field "causality" (agenticCausality causality)
               ++ [("payload", input.(la_payload)); ("createdAt", VStr appendedAt)])) in
    let sanitized := sanitizeAgenticEventParticipantRefs reconstructed in
    let! _ := assertAgenticEventStoredValuesEncoded sanitized in
    let payload := sanitizeRosterSnapshotPayload sanitized.!"payload" in
    let! _ :=
      if existsb (String.eqb input.(la_payloadKind)) STATE_TRANSITION_KINDS
      then assertStateTransitionPayloadValid g input.(la_payloadKind) payload else Ok tt in
    Ok payload
  else if input.(la_payloadKind) =s? AGENTIC_EVENT_PAYLOAD_KIND then
    if negb (isAgenticEventPayload input.(la_payload))
    then Throw "agentic channel payload must be a stored agentic event"
    else
      let! parsed := storedAgenticEventSchema_parse input.(la_payload) in
      let sanitized := sanitizeAgenticEventParticipantRefs parsed in
      let! _ := assertAgenticEventStoredValuesEncoded sanitized in
      Ok (with_field "payload" (sanitizeRosterSnapshotPayload sanitized.!"payload") sanitized)
  else Ok input.(la_payload).

Definition nullish_opt (v : val) : option val := match v with VUndef | VNull => None | _ => Some v end.

Definition prepareLogEvent (g : Gad) (logKind : string) (input : LogAppendEventInput) : res PreparedLogEvent :=
  if input.(la_payloadKind) =s? "" then Throw "appendLogEvent requires payloadKind"
  else
    let appendedAt := default input.(la_now) input.(la_appendedAt) in
    let causality := nullish_opt input.(la_causality) in
    let annotations :=
      option_map
        (fun a => if isSome (nullish_opt a.!"metadata")
                  then with_field "metadata" (publicParticipantMetadata a.!"metadata") a else a)
        (nullish_opt input.(la_annotations)) in
    let! payload := prepare_payload g logKind input causality appendedAt in
    Ok {| pe_event :=
            {| ev_envelopeId := default input.(la_uuid) input.(la_envelopeId);
               ev_actor := publicParticipantRef input.(la_actor);
               ev_to := sanitizeAudience input.(la_to);
               ev_payloadKind := input.(la_payloadKind);
               ev_payload := payload;
               ev_annotations := annotations;
               ev_causality := causality;
               ev_appendedAt := appendedAt |};
          pe_appendedAtExplicit := isSome input.(la_appendedAt);
          pe_publish := input.(la_publish) |}.

(** * Replays *)

(** The longest prefix of the batch that is in the log already. *)
Fixpoint replay_prefix (g : Gad) (logId head : string) (byId : bool) (prepared : list PreparedLogEvent)
    : res (list GadEnvelope) :=
  match prepared with
  | [] => Ok []
  | event :: rest =>
      let! existing := lineageEventRow g logId head event.(pe_event).(ev_envelopeId) in
      match existing with
      | None => Ok []
      | Some row =>
          let! stored := mapLogEnvelope row in
          let incoming :=
            if event.(pe_appendedAtExplicit) then event.(pe_event)
            else with_appendedAt stored.(ge_event).(ev_appendedAt) event.(pe_event) in
          let incomingSemantic := logEnvelopeSemantic incoming in
          let storedSemantic := logEnvelopeSemantic stored.(ge_event) in
          if negb (same_json incomingSemantic storedSemantic) && negb byId
          then Throw (gadAppendErrorMessage "id-collision"
                        ("log envelope id collision with different content: "
                         ^^ event.(pe_event).(ev_envelopeId) ^^ " [log=" ^^ logId ^^ " head=" ^^ head
                         ^^ "] diverged at → " ^^ describeSemanticDivergence incomingSemantic storedSemantic))
          else
            let! replayed := replay_prefix g logId head byId rest in
            Ok (stored :: replayed)
      end
  end.

(** No event behind the replayed prefix is in the log. *)
Fixpoint check_suffix (g : Gad) (logId head : string) (replayed total : nat) (suffix : list PreparedLogEvent)
    : res unit :=
  match suffix with
  | [] => Ok tt
  | event :: rest =>
      let! existing := lineageEventRow g logId head event.(pe_event).(ev_envelopeId) in
      match existing with
      | Some _ =>
          Throw (gadAppendErrorMessage "replay-mismatch"
                   ("log append replay has already-applied events after a new suffix [log=" ^^ logId ^^ " head="
                    ^^ head ^^ " alreadyApplied=" ^^ event.(pe_event).(ev_envelopeId) ^^ " replayedPrefix="
                    ^^ pretty (Z.of_nat replayed) ^^ "/" ^^ pretty (Z.of_nat total) ^^ "]"))
      | None => check_suffix g logId head replayed total rest
      end
  end.

(** * Writing *)

Definition with_heads (heads : list LogHeadRow) (g : Gad) : Gad :=
  mkGad heads g.(g_events) g.(g_blobRefs) g.(g_other).
Definition with_other (other : P) (g : Gad) : Gad := mkGad g.(g_heads) g.(g_events) g.(g_blobRefs) other.

(** A causality key bound to a column. *)
Definition causality_column (key : string) (causality : option val) : option string :=
  as_str (causality_get key causality).

Definition event_row (e : GadEnvelope) (actor payload : string) : LogEventRow :=
  let event := e.(ge_event) in
  {| er_log_id := e.(ge_logId); er_head := e.(ge_head); er_seq := e.(ge_seq);
     er_envelope_id := event.(ev_envelopeId); er_payload_kind := event.(ev_payloadKind);
     er_actor_json := actor;
     er_to_json := event.(ev_to) ≫= json_stringify;
     er_causality_json := event.(ev_causality) ≫= json;
     er_annotations_json := event.(ev_annotations) ≫= json;
     er_payload_ref_json := payload;
     er_appended_at := event.(ev_appendedAt);
     er_hash := e.(ge_hash); er_prev_hash := e.(ge_prevHash);
     er_origin_log_id := causality_column "originLogId" event.(ev_causality);
     er_origin_head := causality_column "originHead" event.(ev_causality);
     er_origin_envelope_id := causality_column "originEnvelopeId" event.(ev_causality);
     er_turn_id := causality_column "turnId" event.(ev_causality) |}.

(** The keys of [log_events]. *)
Definition violates_key (row row' : LogEventRow) : bool :=
  of_log row.(er_log_id) row.(er_head) row'
  && ((row'.(er_seq) =? row.(er_seq)) || (row'.(er_envelope_id) =s? row.(er_envelope_id)))
  || (row'.(er_hash) =s? row.(er_hash)).

Definition same_ref (r r' : BlobRefRow) : bool :=
  (r.(br_log_id) =s? r'.(br_log_id)) && (r.(br_head) =s? r'.(br_head))
  && (r.(br_envelope_id) =s? r'.(br_envelope_id)) && (r.(br_field_path) =s? r'.(br_field_path)).

Definition add_blob_ref (now : string) (e : GadEnvelope) (g : Gad) (found : string * val) : Gad :=
  let '(path, ref) := found in
  let digest := to_str ref.!"digest" in
  let size := default 0 (as_num ref.!"size") in
  let row :=
    {| br_log_id := e.(ge_logId); br_head := e.(ge_head);
       br_envelope_id := e.(ge_event).(ev_envelopeId); br_field_path := path;
       br_digest := digest; br_size := size; br_created_at := now |} in
  {| g_heads := g.(g_heads); g_events := g.(g_events);
     g_blobRefs := List.filter (fun r => negb (same_ref row r)) g.(g_blobRefs) ++ [row];
     g_other := ensureBlob g.(g_other) digest size
                  (if is_lit ref.!"encoding" "json" then "application/json" else "text/plain") |}.

Definition insertLogEvent (now : string) (g : Gad) (e : GadEnvelope) : res Gad :=
  match json_stringify e.(ge_event).(ev_actor), json_stringify e.(ge_event).(ev_payload) with
  | Some actor, Some payload =>
      let row := event_row e actor payload in
      if existsb (violates_key row) g.(g_events) then Throw "UNIQUE constraint failed"
      else
        Ok (fold_left (add_blob_ref now e) (collectStoredValueRefs e.(ge_event).(ev_payload) "$")
              (mkGad g.(g_heads) (g.(g_events) ++ [row]) g.(g_blobRefs) g.(g_other)))
  | _, _ => Throw "NOT NULL constraint failed"
  end.

Definition assertTurnNotOpened (g : Gad) (logId head turnId : string) (pendingBatch : list GadEnvelope) : res unit :=
  let duplicate := Throw ("duplicate turn.opened for turn " ^^ turnId) in
  if existsb (fun e => (e.(ge_event).(ev_payloadKind) =s? "turn.opened")
                       && is_lit (causality_get "turnId" e.(ge_event).(ev_causality)) turnId) pendingBatch
  then duplicate
  else
    let! segments := logLineage g logId head in
    match find_segment g (fun row => (row.(er_payload_kind) =s? "turn.opened")
                                     && bool_decide (row.(er_turn_id) = Some turnId)) segments with
    | Some _ => duplicate
    | None => Ok tt
    end.

(** [publicationsForOrigin], by channel and sequence number. *)
Definition publication_le (a b : LogEventRow) : bool :=
  if a.(er_log_id) =s? b.(er_log_id) then a.(er_seq) <=? b.(er_seq) else String.leb a.(er_log_id) b.(er_log_id).

Definition publicationsForOrigin (g : Gad) (logId head envelopeId : string) : list Publication :=
  map (fun row => mkPublication envelopeId row.(er_log_id) row.(er_envelope_id))
    (sort_by publication_le
       (List.filter
          (fun row => bool_decide (row.(er_origin_log_id) = Some logId)
                      && bool_decide (row.(er_origin_head) = Some head)
                      && bool_decide (row.(er_origin_envelope_id) = Some envelopeId))
          g.(g_events))).

(** * Appending *)

(** The append that publishes an event of [e] to a channel. *)
Definition publication_input (now : string) (e : GadEnvelope) (channelId : string) (audience : val)
    : AppendLogEventInput :=
  {| in_logId := channelId; in_head := CHANNEL_LOG_HEAD; in_logKind := "channel"; in_owner := VUndef;
     in_expectedHeadHash := None; in_idempotency := None; in_now := now;
     in_events :=
       [{| la_envelopeId := Some ("pub:" ^^ e.(ge_event).(ev_envelopeId) ^^ ":" ^^ channelId);
           la_actor := e.(ge_event).(ev_actor);
           la_to := audience ?? VNull;
           la_payloadKind := AGENTIC_EVENT_PAYLOAD_KIND;
           la_payload := agenticEventFromEnvelope e.(ge_event);
           la_causality := VObj [("originLogId", VStr e.(ge_logId)); ("originHead", VStr e.(ge_head));
                                 ("originEnvelopeId", VStr e.(ge_event).(ev_envelopeId))];
           la_annotations := VUndef;
           la_appendedAt := Some e.(ge_event).(ev_appendedAt);
           la_publish := []; la_uuid := ""; la_now := now |}] |}.

(** The variables of the loop over the events that are new. *)
Record Appending := mkAppending {
  ap_gad : Gad;
  ap_seq : Z;
  ap_prevHash : string;
  ap_appended : list GadEnvelope;
  ap_published : list Publication
}.

Section Body.
Context (publish : Gad -> AppendLogEventInput -> res (Gad * AppendLogEventResult)).

Definition publish_to (now : string) (e : GadEnvelope) (acc : Gad * list Publication) (target : string * val)
    : res (Gad * list Publication) :=
  let '(g, published) := acc in
  let '(channelId, audience) := target in
  let! result := publish g (publication_input now e channelId audience) in
  Ok (result.1,
      published ++ [mkPublication e.(ge_event).(ev_envelopeId) channelId
                      ("pub:" ^^ e.(ge_event).(ev_envelopeId) ^^ ":" ^^ channelId)]).

Definition append_one (input : AppendLogEventInput) (logKind : string) (st : Appending) (event : PreparedLogEvent)
    : res Appending :=
  let g := st.(ap_gad) in
  let! _ :=
    match causality_get "turnId" event.(pe_event).(ev_causality) with
    | VStr turnId =>
        if isAgenticLogKind logKind && (event.(pe_event).(ev_payloadKind) =s? "turn.opened")
           && (turnId <>s? "")
        then assertTurnNotOpened g input.(in_logId) input.(in_head) turnId st.(ap_appended) else Ok tt
    | _ => Ok tt
    end in
  let seq := st.(ap_seq) + 1 in
  let hash := computeLogEnvelopeHash st.(ap_prevHash) input.(in_logId) input.(in_head) seq
                (logEnvelopeSemantic event.(pe_event)) in
  let e := {| ge_logId := input.(in_logId); ge_head := input.(in_head); ge_seq := seq;
              ge_event := event.(pe_event); ge_prevHash := st.(ap_prevHash); ge_hash := hash |} in
  let! g := insertLogEvent input.(in_now) g e in
  let! other := applyProjections g.(g_other) logKind e in
  let! result :=
    res_foldl (publish_to input.(in_now) e) (with_other other g, st.(ap_published)) event.(pe_publish) in
  Ok {| ap_gad := result.1; ap_seq := seq; ap_prevHash := hash;
        ap_appended := st.(ap_appended) ++ [e]; ap_published := result.2 |}.

Definition new_head (input : AppendLogEventInput) (logKind : string) : LogHeadRow :=
  {| hr_log_id := input.(in_logId); hr_head := input.(in_head); hr_log_kind := logKind;
     hr_owner_json := json input.(in_owner); hr_parent_log_id := None; hr_parent_head := None;
     hr_fork_seq := None; hr_fork_hash := None; hr_current_seq := 0;
     hr_current_hash := GENESIS_EVENT_HASH; hr_current_envelope_id := None;
     hr_created_at := input.(in_now) |}.

Definition set_pointer (e : GadEnvelope) (row : LogHeadRow) : LogHeadRow :=
  {| hr_log_id := row.(hr_log_id); hr_head := row.(hr_head); hr_log_kind := row.(hr_log_kind);
     hr_owner_json := row.(hr_owner_json); hr_parent_log_id := row.(hr_parent_log_id);
     hr_parent_head := row.(hr_parent_head); hr_fork_seq := row.(hr_fork_seq);
     hr_fork_hash := row.(hr_fork_hash); hr_current_seq := e.(ge_seq); hr_current_hash := e.(ge_hash);
     hr_current_envelope_id := Some e.(ge_event).(ev_envelopeId); hr_created_at := row.(hr_created_at) |}.

(** [UPDATE log_heads SET current_...] to the last envelope appended. *)
Definition advance_head (logId head : string) (appended : list GadEnvelope) (g : Gad) : Gad :=
  match list.last appended with
  | None => g
  | Some e =>
      with_heads (map (fun row => if is_head logId head row then set_pointer e row else row) g.(g_heads)) g
  end.

(** The checks against the head: the expected hash of a batch that is all new, and a
    replayed prefix that has to be the head when something new follows it. *)
Definition check_head (input : AppendLogEventInput) (replayed : list GadEnvelope)
    (remaining : list PreparedLogEvent) (pointer : HeadPointer) : res unit :=
  let! _ :=
    match replayed, input.(in_expectedHeadHash) with
    | [], Some expected =>
        if default GENESIS_EVENT_HASH expected <>s? pointer.(hp_hash)
        then Throw (gadAppendErrorMessage "head-conflict"
                      ("log head conflict for " ^^ input.(in_logId) ^^ ":" ^^ input.(in_head)))
        else Ok tt
    | _, _ => Ok tt
    end in
  match remaining, list.last replayed with
  | _ :: _, Some lastReplayed =>
      if lastReplayed.(ge_hash) <>s? pointer.(hp_hash)
      then Throw (gadAppendErrorMessage "replay-mismatch" "log append replay prefix is not the current head")
      else Ok tt
  | _, _ => Ok tt
  end.

Definition append_body (g : Gad) (input : AppendLogEventInput) : res (Gad * AppendLogEventResult) :=
  let logId := input.(in_logId) in
  let head := input.(in_head) in
  if logId =s? "" then Throw "appendLogEvent requires logId"
  else if head =s? "" then Throw "appendLogEvent requires head"
  else if bool_decide (length input.(in_events) = O) then Throw "appendLogEvent requires at least one event"
  else
    let existingHead := logHeadRow g logId head in
    let! logKind :=
      match existingHead with
      | None => Ok input.(in_logKind)
      | Some row =>
          if row.(hr_log_kind) <>s? input.(in_logKind)
          then Throw ("log kind mismatch for " ^^ logId ^^ ":" ^^ head ^^ ": " ^^ row.(hr_log_kind)
                      ^^ " != " ^^ input.(in_logKind))
          else Ok row.(hr_log_kind)
      end in
    let! prepared := res_map (prepareLogEvent g logKind) input.(in_events) in
    let byId := bool_decide (input.(in_idempotency) = Some "idempotent-by-id") in
    let! replayed := if isSome existingHead then replay_prefix g logId head byId prepared else Ok [] in
    let remaining := drop (length replayed) prepared in
    let! _ :=
      if isSome existingHead
      then check_suffix g logId head (length replayed) (length prepared) remaining else Ok tt in
    let g := if isSome existingHead then g else with_heads (g.(g_heads) ++ [new_head input logKind]) g in
    let pointer := headPointer g logId head in
    let! _ := check_head input replayed remaining pointer in
    let published :=
      flat_map (fun e => publicationsForOrigin g logId head e.(ge_event).(ev_envelopeId)) replayed in
    let! st :=
      res_foldl (append_one input logKind)
        (mkAppending g pointer.(hp_seq) pointer.(hp_hash) [] published) remaining in
    let g := advance_head logId head st.(ap_appended) st.(ap_gad) in
    let finalPointer := headPointer g logId head in
    Ok (g, {| ar_logId := logId; ar_head := head; ar_headSeq := finalPointer.(hp_seq);
              ar_headHash := finalPointer.(hp_hash); ar_envelopes := replayed ++ st.(ap_appended);
              ar_published := st.(ap_published) |}).
End Body.

(** The recursion is through publications, which publish nothing themselves. *)
Fixpoint appendLogEventInTxn (fuel : nat) (g : Gad) (input : AppendLogEventInput)
    : res (Gad * AppendLogEventResult) :=
  match fuel with
  | O => Throw "out of fuel"
  | S fuel' => append_body (appendLogEventInTxn fuel') g input
  end.

Definition appendLogEvent (g : Gad) (input : AppendLogEventInput) : res (Gad * AppendLogEventResult) :=
  appendLogEventInTxn 2 g input.

(** * Forking *)

Record ForkLogInput := mkFork {
  fi_fromLogId : string;
  fi_fromHead : string;
  fi_toLogId : string;
  fi_toHead : string;
  fi_atSeq : option Z;
  fi_owner : val;
  fi_now : string
}.

Record ForkLogResult := mkForked {
  fr_forkSeq : Z;
  fr_forkHash : string;
  fr_inherited : Z
}.

(** The hash and the id of the envelope a log is forked at. *)
Definition fork_point (g : Gad) (input : ForkLogInput) (forkSeq : Z) : res (string * option string) :=
  if 0 <? forkSeq then
    let! row := lineageEventBySeq g input.(fi_fromLogId) input.(fi_fromHead) forkSeq in
    match row with
    | None => Throw ("forkLog atSeq " ^^ pretty forkSeq ^^ " not found in source lineage")
    | Some row => Ok (row.(er_hash), Some row.(er_envelope_id))
    end
  else Ok (GENESIS_EVENT_HASH, None).

Definition in_log (logId head : string) (e : GadEnvelope) : GadEnvelope :=
  {| ge_logId := logId; ge_head := head; ge_seq := e.(ge_seq); ge_event := e.(ge_event);
     ge_prevHash := e.(ge_prevHash); ge_hash := e.(ge_hash) |}.

Definition forkLog (g : Gad) (input : ForkLogInput) : res (Gad * ForkLogResult) :=
  let '(mkFork fromLogId fromHead toLogId toHead _ _ _) := input in
  if (fromLogId =s? "") || (fromHead =s? "") then Throw "forkLog requires a source"
  else if (toLogId =s? "") || (toHead =s? "") then Throw "forkLog requires a target"
  else if (fromLogId =s? toLogId) && (fromHead =s? toHead)
  then Throw "forkLog requires distinct source and target"
  else
    match logHeadRow g fromLogId fromHead with
    | None => Throw ("forkLog source does not exist: " ^^ fromLogId ^^ ":" ^^ fromHead)
    | Some sourceRow =>
        let forkSeq := default sourceRow.(hr_current_seq) input.(fi_atSeq) in
        if sourceRow.(hr_current_seq) <? forkSeq
        then Throw ("forkLog atSeq " ^^ pretty forkSeq ^^ " is beyond the source head "
                    ^^ pretty sourceRow.(hr_current_seq))
        else
          let! point := fork_point g input forkSeq in
          let '(forkHash, forkEnvelopeId) := point in
          match logHeadRow g toLogId toHead with
          | Some existing =>
              if bool_decide (existing.(hr_parent_log_id) = Some fromLogId)
                 && bool_decide (existing.(hr_parent_head) = Some fromHead)
                 && (default 0 existing.(hr_fork_seq) =? forkSeq)
                 && bool_decide (existing.(hr_fork_hash) = Some forkHash)
              then
                let! inherited := lineageEventCountThrough g toLogId toHead forkSeq in
                Ok (g, mkForked forkSeq forkHash inherited)
              else Throw ("target log already exists with different fork lineage: " ^^ toLogId ^^ ":" ^^ toHead)
          | None =>
              let! sourceOwner := parseJson sourceRow.(hr_owner_json) in
              let row :=
                {| hr_log_id := toLogId; hr_head := toHead; hr_log_kind := sourceRow.(hr_log_kind);
                   hr_owner_json := json (input.(fi_owner) ?? sourceOwner);
                   hr_parent_log_id := Some fromLogId; hr_parent_head := Some fromHead;
                   hr_fork_seq := Some forkSeq; hr_fork_hash := Some forkHash;
                   hr_current_seq := forkSeq; hr_current_hash := forkHash;
                   hr_current_envelope_id := forkEnvelopeId; hr_created_at := input.(fi_now) |} in
              let g := with_heads (g.(g_heads) ++ [row]) g in
              let! inherited := readLog g (mkReadLogInput toLogId toHead None None (Some 0) None) in
              let! other :=
                res_foldl (fun other e => applyProjections other sourceRow.(hr_log_kind) (in_log toLogId toHead e))
                  g.(g_other) inherited in
              Ok (with_other other g, mkForked forkSeq forkHash (Z.of_nat (length inherited)))
          end
    end.

(** * Deleting a head *)

Definition deleteLogHead (g : Gad) (logId head : string) : Gad * bool :=
  let own := List.filter (of_log logId head) g.(g_events) in
  let eventIds := List.filter (fun id => id <>s? "") (map er_envelope_id own) in
  (mkGad (List.filter (fun row => negb (is_head logId head row)) g.(g_heads))
     (List.filter (fun row => negb (of_log logId head row)) g.(g_events))
     g.(g_blobRefs) (forgetHead g.(g_other) logId head eventIds),
   isSome (logHeadRow g logId head)).

(** * Archiving and restoring a repository *)

Definition MAIN : string := "main".

(** [UPDATE ... SET head = to WHERE log_id = logId AND head = from] on the three tables. *)
Definition head_renamed (logId from to : string) (row : LogHeadRow) : LogHeadRow :=
  if is_head logId from row
  then {| hr_log_id := row.(hr_log_id); hr_head := to; hr_log_kind := row.(hr_log_kind);
          hr_owner_json := row.(hr_owner_json); hr_parent_log_id := row.(hr_parent_log_id);
          hr_parent_head := row.(hr_parent_head); hr_fork_seq := row.(hr_fork_seq);
          hr_fork_hash := row.(hr_fork_hash); hr_current_seq := row.(hr_current_seq);
          hr_current_hash := row.(hr_current_hash);
          hr_current_envelope_id := row.(hr_current_envelope_id); hr_created_at := row.(hr_created_at) |}
  else row.

Definition event_renamed (logId from to : string) (row : LogEventRow) : LogEventRow :=
  if of_log logId from row
  then {| er_log_id := row.(er_log_id); er_head := to; er_seq := row.(er_seq);
          er_envelope_id := row.(er_envelope_id); er_payload_kind := row.(er_payload_kind);
          er_actor_json := row.(er_actor_json); er_to_json := row.(er_to_json);
          er_causality_json := row.(er_causality_json); er_annotations_json := row.(er_annotations_json);
          er_payload_ref_json := row.(er_payload_ref_json); er_appended_at := row.(er_appended_at);
          er_hash := row.(er_hash); er_prev_hash := row.(er_prev_hash);
          er_origin_log_id := row.(er_origin_log_id); er_origin_head := row.(er_origin_head);
          er_origin_envelope_id := row.(er_origin_envelope_id); er_turn_id := row.(er_turn_id) |}
  else row.

Definition of_blob_head (logId head : string) (r : BlobRefRow) : bool :=
  (r.(br_log_id) =s? logId) && (r.(br_head) =s? head).

Definition blob_renamed (logId from to : string) (r : BlobRefRow) : BlobRefRow :=
  if of_blob_head logId from r
  then mkBlobRefRow r.(br_log_id) to r.(br_envelope_id) r.(br_field_path) r.(br_digest) r.(br_size) r.(br_created_at)
  else r.

(** A renamed row has the key of a row there is. *)
Definition heads_clash (g : Gad) (logId from to : string) : bool :=
  isSome (logHeadRow g logId from) && isSome (logHeadRow g logId to).

Definition events_clash (g : Gad) (logId from to : string) : bool :=
  existsb (fun row => of_log logId from row
             && existsb (fun row' => of_log logId to row'
                           && ((row'.(er_seq) =? row.(er_seq)) || (row'.(er_envelope_id) =s? row.(er_envelope_id))))
                  g.(g_events)) g.(g_events).

Definition blobs_clash (g : Gad) (logId from to : string) : bool :=
  existsb (fun r => of_blob_head logId from r
             && existsb (fun r' => of_blob_head logId to r' && (r'.(br_envelope_id) =s? r.(br_envelope_id))
                                   && (r'.(br_field_path) =s? r.(br_field_path))) g.(g_blobRefs)) g.(g_blobRefs).

(** The updates one after the other; one that clashes throws, and those before it stay. *)
Definition rename_lineage (g : Gad) (logId from to : string) : Gad * res unit :=
  let clash := Throw "UNIQUE constraint failed" in
  if heads_clash g logId from to then (g, clash)
  else
    let g := with_heads (map (head_renamed logId from to) g.(g_heads)) g in
    if events_clash g logId from to then (g, clash)
    else
      let g := mkGad g.(g_heads) (map (event_renamed logId from to) g.(g_events)) g.(g_blobRefs) g.(g_other) in
      if blobs_clash g logId from to then (g, clash)
      else
        (mkGad g.(g_heads) g.(g_events) (map (blob_renamed logId from to) g.(g_blobRefs))
           (renameWorktreeHead g.(g_other) logId from to), Ok tt).

(** [archived] or [restored], with the head, the state and the head hash when it is. *)
Definition Moved : Type := option (string * string * string).

Definition archiveRepoMain (g : Gad) (logId archiveHead : string) : Gad * res Moved :=
  if (archiveHead =s? "") || (archiveHead =s? MAIN)
  then (g, Throw ("archiveRepoMain: invalid archive head " ^^ default "" (json_stringify (VStr archiveHead))))
  else
    match worktreeState g.(g_other) logId MAIN with
    | None => (g, Ok None)
    | Some stateHash =>
        if isSome (logHeadRow g logId archiveHead) || isSome (worktreeState g.(g_other) logId archiveHead)
        then (g, Throw ("archiveRepoMain: archive head already exists: " ^^ logId ^^ ":" ^^ archiveHead))
        else
          let headHash := (headPointer g logId MAIN).(hp_hash) in
          let '(g', moved) := rename_lineage g logId MAIN archiveHead in
          match moved with
          | Ok _ => (with_other (forgetMemory g'.(g_other) logId MAIN) g', Ok (Some (archiveHead, stateHash, headHash)))
          | Throw e => (g', Throw e)
          end
    end.

Definition restoreRepoMain (g : Gad) (logId archiveHead : string) : Gad * res Moved :=
  if (archiveHead =s? "") || (archiveHead =s? MAIN)
  then (g, Throw ("restoreRepoMain: invalid archive head " ^^ default "" (json_stringify (VStr archiveHead))))
  else if isSome (worktreeState g.(g_other) logId MAIN)
  then (g, Throw ("restoreRepoMain: " ^^ logId
                  ^^ " already has a live main — a different repo occupies this path"))
  else
    match worktreeState g.(g_other) logId archiveHead with
    | None => (g, Ok None)
    | Some stateHash =>
        let headHash := (headPointer g logId archiveHead).(hp_hash) in
        let '(g', moved) := rename_lineage g logId archiveHead MAIN in
        match moved with
        | Ok _ => (g', Ok (Some (archiveHead, stateHash, headHash)))
        | Throw e => (g', Throw e)
        end
    end.

(** * The integrity check *)

Inductive LogError := LogChain | LogHash | LogHeadPointer.

Record IntegrityError := mkIntegrityError {
  ie_type : LogError;
  ie_message : string
}.

Definition when_error (b : bool) (type : LogError) (message : string) : list IntegrityError :=
  if b then [mkIntegrityError type message] else [].

(** One round over a row: the errors, and the number and hash the next has to follow. *)
Definition check_event (logId head : string) (st : list IntegrityError * Z * string) (row : LogEventRow)
    : res (list IntegrityError * Z * string) :=
  let '(errors, expectedSeq, prevHash) := st in
  let! e := mapLogEnvelope row in
  let expectedSeq := expectedSeq + 1 in
  let at_ := "log " ^^ logId ^^ ":" ^^ head in
  Ok (errors
      ++ when_error (negb (e.(ge_seq) =? expectedSeq)) LogChain
           (at_ ^^ " seq gap: expected " ^^ pretty expectedSeq ^^ ", found " ^^ pretty e.(ge_seq))
      ++ when_error (e.(ge_prevHash) <>s? prevHash) LogChain
           (at_ ^^ " seq " ^^ pretty e.(ge_seq) ^^ " prevHash does not link")
      ++ when_error
           (computeLogEnvelopeHash e.(ge_prevHash) logId head e.(ge_seq) (logEnvelopeSemantic e.(ge_event))
            <>s? e.(ge_hash)) LogHash
           (at_ ^^ " seq " ^^ pretty e.(ge_seq) ^^ " hash mismatch (" ^^ e.(ge_event).(ev_envelopeId) ^^ ")"),
      e.(ge_seq), e.(ge_hash)).

Definition check_log_head (g : Gad) (row : LogHeadRow) : res (list IntegrityError) :=
  let logId := row.(hr_log_id) in
  let head := row.(hr_head) in
  let startSeq := default 0 row.(hr_fork_seq) in
  let startHash := default GENESIS_EVENT_HASH row.(hr_fork_hash) in
  let rows := sort_by row_seq_le (List.filter (of_log logId head) g.(g_events)) in
  let! st := res_foldl (check_event logId head) ([], startSeq, startHash) rows in
  let lastSeq := match list.last rows with Some r => r.(er_seq) | None => startSeq end in
  let lastHash := match list.last rows with Some r => r.(er_hash) | None => startHash end in
  Ok (st.1.1
      ++ when_error (negb (row.(hr_current_seq) =? lastSeq) || (row.(hr_current_hash) <>s? lastHash)) LogHeadPointer
           ("log head pointer disagrees with the stored chain for " ^^ logId ^^ ":" ^^ head)).

Definition selected (filter : option string) (value : string) : bool :=
  match filter with Some f => (f =s? "") || (value =s? f) | None => true end.

Definition head_le (a b : LogHeadRow) : bool :=
  if a.(hr_log_id) =s? b.(hr_log_id) then String.leb a.(hr_head) b.(hr_head)
  else String.leb a.(hr_log_id) b.(hr_log_id).

Definition checkLogIntegrity (g : Gad) (logId head : option string) : res (bool * list IntegrityError) :=
  let heads :=
    sort_by head_le
      (List.filter (fun row => selected logId row.(hr_log_id) && selected head row.(hr_head)) g.(g_heads)) in
  let! errors := res_map (check_log_head g) heads in
  Ok (bool_decide (List.concat errors = []), List.concat errors).
End Append.
