(* ===== verification/GadLogLaws.v ===== *)
(** How the log tables of the gad store are read: the log of a head as a list, the
    inherited part of its parent in front of its own events, and the reads of GadLog
    as operations on that list. *)
From S2P Require Import Prelude Dict JsValue JsText JsJson GadCanon GadCanonLaws GadRefs GadLog GadAppend.
From Stdlib Require Import Sorted.
#[local] Open Scope Z_scope.

(** * Lists that may throw *)

Section ResMap.
Context {A B : Type} (f : A -> res B).

Lemma res_map_app l1 l2 :
  res_map f (l1 ++ l2) = res_bind (res_map f l1) (fun m1 => res_bind (res_map f l2) (fun m2 => Ok (m1 ++ m2))).
Proof.
  induction l1 as [|x l1 IH]; simpl; [by destruct (res_map f l2)|].
  destruct (f x); simpl; [|done]. rewrite IH. destruct (res_map f l1); simpl; [|done].
  by destruct (res_map f l2).
Qed.

Lemma res_map_app_ok l1 l2 m1 m2 :
  res_map f l1 = Ok m1 -> res_map f l2 = Ok m2 -> res_map f (l1 ++ l2) = Ok (m1 ++ m2).
Proof. intros H1 H2. by rewrite res_map_app, H1, H2. Qed.

Lemma res_map_Ok l m : res_map f l = Ok m <-> Forall2 (fun x y => f x = Ok y) l m.
Proof.
  split.
  - revert m. induction l as [|x l IH]; simpl; intros m H; [simplify_eq; constructor|].
    apply res_bind_Ok in H as (y & Hy & H). apply res_bind_Ok in H as (m' & Hm & H). simplify_eq. constructor; auto.
  - induction 1 as [|x y l m Hx _ IH]; [done|]. simpl. by rewrite Hx, IH.
Qed.

Lemma res_map_take n l m : res_map f l = Ok m -> res_map f (take n l) = Ok (take n m).
Proof. rewrite !res_map_Ok. intros H. by apply Forall2_take. Qed.

Lemma res_map_rev l m : res_map f l = Ok m -> res_map f (rev l) = Ok (rev m).
Proof. rewrite !res_map_Ok. intros H. rewrite !rev_alt. by apply Forall2_reverse. Qed.

Lemma res_map_length l m : res_map f l = Ok m -> length m = length l.
Proof. rewrite res_map_Ok. intros H. by apply Forall2_length in H. Qed.

Lemma res_map_filter (p : A -> bool) (q : B -> bool) l m :
  (forall x y, f x = Ok y -> q y = p x) -> res_map f l = Ok m ->
  res_map f (List.filter p l) = Ok (List.filter q m).
Proof.
  intros Hpq. rewrite !res_map_Ok. induction 1 as [|x y l m Hx _ IH]; simpl; [constructor|].
  rewrite (Hpq x y Hx). destruct (p x); [by constructor|done].
Qed.

Lemma res_map_In l m x : res_map f l = Ok m -> In x l -> exists y, f x = Ok y /\ In y m.
Proof.
  rewrite res_map_Ok. induction 1 as [|x' y l m Hx _ IH]; simpl; [done|]. intros [->|Hi]; [eauto|].
  destruct (IH Hi) as (z & ? & ?). eauto.
Qed.

Lemma res_map_In_inv l m y : res_map f l = Ok m -> In y m -> exists x, f x = Ok y /\ In x l.
Proof.
  rewrite res_map_Ok. induction 1 as [|x y' l m Hx _ IH]; simpl; [done|]. intros [->|Hi]; [eauto|].
  destruct (IH Hi) as (z & ? & ?). eauto.
Qed.
End ResMap.

Lemma filter_filter {A} (p q : A -> bool) l :
  List.filter p (List.filter q l) = List.filter (fun x => q x && p x) l.
Proof. induction l as [|x l IH]; [done|]. simpl. destruct (q x); simpl; [|done]. rewrite IH. by destruct (p x). Qed.

Lemma filter_ext_eq {A} (p q : A -> bool) l : (forall x, p x = q x) -> List.filter p l = List.filter q l.
Proof. intros E. induction l as [|x l IH]; [done|]. simpl. by rewrite E, IH. Qed.

Lemma filter_sorted {A} (R : A -> A -> Prop) (p : A -> bool) l :
  StronglySorted R l -> StronglySorted R (List.filter p l).
Proof.
  induction 1 as [|x l _ IH Hx]; [constructor|]. simpl. destruct (p x); [|done]. constructor; [done|].
  apply List.Forall_forall. intros y [Hy _]%filter_In. rewrite List.Forall_forall in Hx. auto.
Qed.

(** * The log of a head *)

Abbreviation key := (string * string)%type.

Definition rkey (row : LogHeadRow) : key := (row.(hr_log_id), row.(hr_head)).

(** The envelopes up to a sequence number. *)
Definition upto (cap : option Z) (es : list GadEnvelope) : list GadEnvelope :=
  List.filter (fun e => within cap e.(ge_seq)) es.

(** Heads whose parents were there before them; ids without the character that
    separates the two parts of a key of the cycle guard. *)
Fixpoint no_nul (s : string) : Prop :=
  match s with EmptyString => True | String c s' => c <> Ascii.zero /\ no_nul s' end.

Definition clean_key (k : key) : Prop := no_nul k.1 /\ no_nul k.2.

Inductive forest : list LogHeadRow -> Prop :=
| forest_nil : forest []
| forest_snoc heads row :
    forest heads -> clean_key (rkey row) -> ~ In (rkey row) (map rkey heads) ->
    (forall logId head seq, fork_of row = Some (logId, head, seq) -> In (logId, head) (map rkey heads)) ->
    forest (heads ++ [row]).

Section Heads.

Lemma is_head_spec k row : is_head k.1 k.2 row = true <-> rkey row = k.
Proof.
  destruct k as [l h]. unfold is_head, rkey. simpl. rewrite andb_true_iff, !String.eqb_eq.
  split; [by intros [-> ->]|by intros [= -> ->]].
Qed.

Lemma of_log_spec k (row : LogEventRow) : of_log k.1 k.2 row = true <-> (row.(er_log_id), row.(er_head)) = k.
Proof.
  destruct k as [l h]. unfold of_log. simpl. rewrite andb_true_iff, !String.eqb_eq.
  split; [by intros [-> ->]|by intros [= -> ->]].
Qed.

Lemma find_head_None k heads :
  List.find (is_head k.1 k.2) heads = None <-> ~ In k (map rkey heads).
Proof.
  induction heads as [|row heads IH]; simpl; [tauto|].
  destruct (is_head k.1 k.2 row) eqn:E.
  - apply is_head_spec in E. split; [done|]. tauto.
  - rewrite IH. assert (rkey row <> k) by (intros Hk; apply (proj2 (is_head_spec k row)) in Hk; congruence). tauto.
Qed.

Lemma find_head_Some k heads row :
  List.find (is_head k.1 k.2) heads = Some row -> In row heads /\ rkey row = k.
Proof. intros [Hi E]%find_some. by apply is_head_spec in E. Qed.

Lemma find_head_In k heads row :
  NoDup (map rkey heads) -> In row heads -> rkey row = k -> List.find (is_head k.1 k.2) heads = Some row.
Proof.
  intros Hnd Hi Hk. induction heads as [|r heads IH]; simpl; [done|].
  simpl in Hnd. apply list.NoDup_cons in Hnd as [Hn Hd]. destruct Hi as [->|Hi].
  - by rewrite (proj2 (is_head_spec k row)).
  - destruct (is_head _ _ r) eqn:E; [|auto]. apply is_head_spec in E. destruct Hn.
    rewrite E, <- Hk. apply list_elem_of_In. by apply in_map.
Qed.

Lemma forest_NoDup heads : forest heads -> NoDup (map rkey heads).
Proof.
  induction 1 as [|heads row Hf IH Hc Hn Hp]; [constructor|]. rewrite map_app. simpl.
  apply list.NoDup_app. split; [done|]. split; [|apply NoDup_singleton].
  intros k Hk ->%list_elem_of_singleton. by apply Hn, list_elem_of_In.
Qed.

Lemma forest_prefix heads1 heads2 : forest (heads1 ++ heads2) -> forest heads1.
Proof.
  induction heads2 as [|row heads2 IH] using rev_ind; [by rewrite app_nil_r|].
  rewrite app_assoc. intros H. apply IH. inversion H as [E|heads row' Hf _ _ _ E].
  - by apply app_cons_not_nil in E.
  - apply app_inj_tail in E as [-> _]. done.
Qed.

Lemma forest_parent heads1 row heads2 logId head seq :
  forest (heads1 ++ row :: heads2) -> fork_of row = Some (logId, head, seq) ->
  In (logId, head) (map rkey heads1).
Proof.
  replace (heads1 ++ row :: heads2) with ((heads1 ++ [row]) ++ heads2) by by rewrite <- app_assoc.
  intros Hf%forest_prefix. inversion Hf as [E|heads r _ _ _ Hp E]; [by apply app_cons_not_nil in E|].
  apply app_inj_tail in E as [-> ->]. apply Hp.
Qed.

Lemma forest_clean heads row : forest heads -> In row heads -> clean_key (rkey row).
Proof.
  induction 1 as [|heads r Hf IH Hc Hn Hp]; [done|]. rewrite in_app_iff. simpl. intros [?|[<-|[]]]; auto.
Qed.

Lemma split_nul a b s t : no_nul a -> no_nul b -> a ^^ NUL ^^ s = b ^^ NUL ^^ t -> a = b /\ s = t.
Proof.
  revert b. induction a as [|c a IH]; intros [|d b] Ha Hb E; simpl in Ha, Hb.
  - split; [done|]. by injection E.
  - exfalso. injection E as E _. destruct Hb as [Hb _]. by destruct Hb.
  - exfalso. injection E as E _. destruct Ha as [Ha _]. by destruct Ha.
  - rewrite !string_app_cons in E. injection E as -> E. destruct (IH b) as [-> ->]; [tauto..|done].
Qed.

Lemma seen_key_inj k k' : clean_key k -> clean_key k' -> seen_key k.1 k.2 = seen_key k'.1 k'.2 -> k = k'.
Proof.
  destruct k as [l h], k' as [l' h']. unfold seen_key. simpl. intros [Hl _] [Hl' _] E.
  apply split_nul in E as [-> ->]; done.
Qed.
End Heads.

Section Reads.
Context {P : Type}.
Implicit Types (g : Gad P) (k : key).

Definition head_of g k : option LogHeadRow := logHeadRow g k.1 k.2.

(** The rows of a head, not of its parents. *)
Definition own g k : list LogEventRow := List.filter (of_log k.1 k.2) g.(g_events).

Inductive log_is g : key -> list GadEnvelope -> Prop :=
| log_absent k : head_of g k = None -> own g k = [] -> log_is g k []
| log_root k row es :
    head_of g k = Some row -> fork_of row = None ->
    res_map mapLogEnvelope (own g k) = Ok es -> log_is g k es
| log_fork k row logId head seq inherited es :
    head_of g k = Some row -> fork_of row = Some (logId, head, seq) ->
    log_is g (logId, head) inherited ->
    res_map mapLogEnvelope (own g k) = Ok es -> log_is g k (upto (Some seq) inherited ++ es).

Lemma log_is_fun g k es1 es2 : log_is g k es1 -> log_is g k es2 -> es1 = es2.
Proof.
  intros H1. revert es2. induction H1 as [k Hn Ho|k row es Hh Hf Hm|k row l h s inh es Hh Hf Hp IH Hm];
    intros es2 H2;
    inversion H2 as [? Hn'|? row' ? Hh' Hf' Hm'|? row' l' h' s' inh' ? Hh' Hf' Hp' Hm']; subst; try congruence;
    assert (row' = row) as -> by congruence; try congruence.
  rewrite Hf in Hf'. injection Hf' as <- <- <-. rewrite (IH _ Hp'). congruence.
Qed.

Lemma upto_upto c d es : upto c (upto (Some d) es) = upto (Some (cap_min c d)) es.
Proof.
  unfold upto. rewrite filter_filter. apply filter_ext_eq. intros e. destruct c as [c|]; simpl.
  - destruct (Z.leb_spec (ge_seq e) d), (Z.leb_spec (ge_seq e) c), (Z.leb_spec (ge_seq e) (Z.min c d)); simpl; lia.
  - by rewrite andb_true_r.
Qed.

Lemma upto_app c es1 es2 : upto c (es1 ++ es2) = upto c es1 ++ upto c es2.
Proof. apply filter_app. Qed.

Lemma upto_None es : upto None es = es.
Proof. unfold upto. simpl. induction es as [|e es IH]; [done|]. simpl. by rewrite IH. Qed.

(** A segment and the envelopes it shows. *)
Definition seg_part g (segment : LineageSegment) (part : list GadEnvelope) : Prop :=
  exists es, res_map mapLogEnvelope (own g (segment.(sg_logId), segment.(sg_head))) = Ok es /\
    part = upto segment.(sg_throughSeq) es.

(** The lineage shows the log, its parts root first. *)
Definition shows g (segments : list LineageSegment) (es : list GadEnvelope) : Prop :=
  exists parts, Forall2 (seg_part g) (rev segments) parts /\ concat parts = es.

Lemma shows_cons g segment segments es part :
  seg_part g segment part -> shows g segments es -> shows g (segment :: segments) (es ++ part).
Proof.
  intros Hp (parts & Hs & <-). exists (parts ++ [part]). simpl. split; [|by rewrite concat_app, concat_cons, app_nil_r].
  apply Forall2_app; [done|]. by constructor.
Qed.

Lemma walk_shows g n heads1 row heads2 es cap seen fuel :
  (length heads1 <= n)%nat -> g.(g_heads) = heads1 ++ row :: heads2 -> forest g.(g_heads) ->
  Forall (fun s => exists r, In r heads2 /\ s = seen_key (rkey r).1 (rkey r).2) seen ->
  (n < fuel)%nat -> log_is g (rkey row) es ->
  exists segments, lineage_walk fuel g (rkey row).1 (rkey row).2 cap seen = Ok segments /\
    shows g segments (upto cap es).
Proof.
  revert heads1 row heads2 es cap seen fuel. induction n as [n IH] using lt_wf_ind.
  intros heads1 row heads2 es cap seen fuel Hn Hheads Hforest Hseen Hfuel Hlog. destruct fuel as [|fuel]; [lia|].
  assert (Hnd := forest_NoDup _ Hforest).
  assert (Hin : In row g.(g_heads)) by (rewrite Hheads, in_app_iff; simpl; auto).
  assert (Hfind : head_of g (rkey row) = Some row) by by apply (find_head_In (rkey row)).
  cbn [lineage_walk]. destruct (existsb _ seen) eqn:Hex.
  { exfalso. apply existsb_exists in Hex as (s & Hs & E%String.eqb_eq).
    rewrite List.Forall_forall in Hseen. destruct (Hseen s Hs) as (r & Hr & ->).
    assert (Hr' : In r g.(g_heads)) by (rewrite Hheads, in_app_iff; simpl; auto).
    apply seen_key_inj in E; [|by eapply forest_clean..].
    rewrite Hheads, map_app in Hnd. simpl in Hnd. apply list.NoDup_app in Hnd as (_ & _ & Hnd).
    apply list.NoDup_cons in Hnd as [Hnd _]. apply Hnd. rewrite E. apply list_elem_of_In. by apply in_map. }
  unfold head_of in Hfind. rewrite Hfind. cbn [mbind option_bind].
  inversion Hlog as [k Hnone|k row' es' Hh Hf Hm|k row' l h s inh es' Hh Hf Hp Hm]; subst.
  - unfold head_of in Hnone. congruence.
  - unfold head_of in Hh. assert (row' = row) as -> by congruence. rewrite Hf.
    eexists. split; [done|]. exists [upto cap es]. split; [|by rewrite concat_cons, app_nil_r].
    constructor; [|constructor]. by exists es.
  - unfold head_of in Hh. assert (row' = row) as -> by congruence. rewrite Hf.
    rewrite Hheads in Hforest. destruct (proj1 (in_map_iff _ _ _) (forest_parent _ _ _ _ _ _ Hforest Hf)) as (p & Ep & Hip).
    apply in_split in Hip as (a & b & ->).
    destruct (IH (length a)) with (heads1 := a) (row := p) (heads2 := b ++ row :: heads2) (es := inh)
      (cap := Some (cap_min cap s)) (seen := seen_key (rkey row).1 (rkey row).2 :: seen) (fuel := fuel)
      as (segments & Hw & Hs).
    + rewrite length_app in Hn. simpl in Hn. lia.
    + done.
    + by rewrite Hheads, <- app_assoc.
    + by rewrite Hheads.
    + constructor.
      * exists row. split; [|done]. rewrite in_app_iff. simpl. auto.
      * eapply List.Forall_impl; [|exact Hseen]. intros x (r & Hr & ->). exists r. split; [|done].
        rewrite in_app_iff. simpl. auto.
    + rewrite length_app in Hn. simpl in Hn. lia.
    + by rewrite Ep.
    + rewrite Ep in Hw. change ((l, h).1) with l in Hw. change ((l, h).2) with h in Hw. rewrite Hw. simpl. eexists. split; [done|].
      rewrite upto_app, upto_upto. apply shows_cons; [|done]. by exists es'.
Qed.

Lemma lineage_shows g k es :
  forest g.(g_heads) -> log_is g k es ->
  exists segments, logLineage g k.1 k.2 = Ok segments /\ shows g segments es.
Proof.
  intros Hf Hlog. unfold logLineage. destruct (head_of g k) as [row|] eqn:Hh.
  - unfold head_of in Hh. apply find_head_Some in Hh as [Hi Hk].
    apply in_split in Hi as (heads1 & heads2 & E).
    destruct (walk_shows g (length heads1) heads1 row heads2 es None [] (S (S (length (g_heads g))))) as (segs & Hw & Hs);
      [done|done|done|constructor|rewrite E, length_app; lia|by rewrite Hk|].
    rewrite Hk in Hw. rewrite upto_None in Hs. eauto.
  - inversion Hlog as [? _ Ho|? ? ? Hh'|? ? ? ? ? ? ? Hh']; simplify_eq.
    unfold head_of in Hh. cbn [lineage_walk existsb]. rewrite Hh. simpl. eexists. split; [done|].
    exists [[]]. split; [|done]. constructor; [|constructor]. exists []. split; [|done].
    cbn [sg_logId sg_head]. rewrite <- surjective_pairing. by rewrite Ho.
Qed.

(** * Reads *)

Definition by_seq (es : list GadEnvelope) : Prop :=
  StronglySorted (fun a b => a.(ge_seq) < b.(ge_seq)) es.

(** The rows of every head lie in the table by number. *)
Definition sorted_tables g : Prop :=
  forall k, StronglySorted (fun a b => row_seq_le a b = true) (own g k).

(** What a read asks for. *)
Definition in_read (input : ReadLogInput) (e : GadEnvelope) : bool :=
  (default 0 input.(ri_afterSeq) <? e.(ge_seq))
  && match input.(ri_beforeSeq) with Some b => e.(ge_seq) <? b | None => true end
  && match input.(ri_payloadKind) with
     | Some kind => (kind =s? "") || (e.(ge_event).(ev_payloadKind) =s? kind)
     | None => true
     end.

Definition asked (input : ReadLogInput) (es : list GadEnvelope) : list GadEnvelope :=
  List.filter (in_read input) es.

Lemma decode_fields row e :
  mapLogEnvelope row = Ok e ->
  e.(ge_logId) = row.(er_log_id) /\ e.(ge_head) = row.(er_head) /\ e.(ge_seq) = row.(er_seq) /\
  e.(ge_event).(ev_envelopeId) = row.(er_envelope_id) /\
  e.(ge_event).(ev_payloadKind) = row.(er_payload_kind) /\
  e.(ge_hash) = row.(er_hash) /\ e.(ge_prevHash) = row.(er_prev_hash).
Proof.
  unfold mapLogEnvelope. intros H. do 5 (apply res_bind_Ok in H as (? & _ & H)). by injection H as <-.
Qed.

(** The rows a read selects of a segment. *)
Definition row_asked (segment : LineageSegment) (input : ReadLogInput) (row : LogEventRow) : bool :=
  (default 0 input.(ri_afterSeq) <? row.(er_seq))
  && within segment.(sg_throughSeq) row.(er_seq)
  && match input.(ri_beforeSeq) with Some b => row.(er_seq) <? b | None => true end
  && match input.(ri_payloadKind) with
     | Some kind => (kind =s? "") || (row.(er_payload_kind) =s? kind)
     | None => true
     end.

Lemma select_own g segment input :
  sorted_tables g ->
  select_segment g segment input
  = List.filter (row_asked segment input) (own g (segment.(sg_logId), segment.(sg_head))).
Proof.
  intros Hs. unfold select_segment. assert (E : forall l, List.filter (where_segment segment input) l
    = List.filter (row_asked segment input) (List.filter (of_log segment.(sg_logId) segment.(sg_head)) l)).
  { intros l. rewrite filter_filter. apply filter_ext_eq. intros row. unfold where_segment, row_asked.
    by rewrite !andb_assoc. }
  rewrite E. apply sort_by_sorted. apply filter_sorted. apply Hs.
Qed.

Lemma select_part g segment input part :
  sorted_tables g -> seg_part g segment part ->
  res_map mapLogEnvelope (select_segment g segment input) = Ok (asked input part).
Proof.
  intros Hs (es & Hm & ->). rewrite select_own by done. unfold asked, upto. rewrite filter_filter.
  apply res_map_filter; [|done]. intros row e He. destruct (decode_fields _ _ He) as (_ & _ & Eq & _ & Ek & _).
  unfold row_asked, in_read. rewrite Eq, Ek.
  destruct (within _ _), (_ <? er_seq row); simpl; done.
Qed.

Lemma asked_app input es1 es2 : asked input (es1 ++ es2) = asked input es1 ++ asked input es2.
Proof. apply filter_app. Qed.

Lemma asked_concat input parts : asked input (concat parts) = concat (map (asked input) parts).
Proof. induction parts as [|p parts IH]; [done|]. simpl. by rewrite asked_app, IH. Qed.

Lemma take_refill {A} n (c l1 l2 : list A) :
  take n (c ++ take (n - length c) l1 ++ l2) = take n (c ++ l1 ++ l2).
Proof.
  rewrite !take_app. f_equal. f_equal.
  - rewrite take_take. f_equal. lia.
  - f_equal. rewrite length_take. lia.
Qed.

Definition take_limit {A} (limit : option nat) (l : list A) : list A :=
  match limit with Some n => take n l | None => l end.

Lemma read_segments_spec g input limit segments parts collected :
  sorted_tables g -> Forall2 (seg_part g) segments parts ->
  (forall n, limit = Some n -> (length collected <= n)%nat) ->
  read_segments g input limit segments collected = Ok (take_limit limit (collected ++ asked input (concat parts))).
Proof.
  intros Hs Hp. revert collected. induction Hp as [|segment part segments parts Hpart Hp IH]; intros collected Hl.
  - simpl. rewrite app_nil_r. destruct limit as [n|]; [|done]. simpl. by rewrite take_ge by auto.
  - cbn [read_segments]. pose proof (select_part g segment input part Hs Hpart) as Hsel.
    rewrite concat_cons, asked_app, app_assoc. destruct limit as [n|].
    + specialize (Hl n eq_refl). destruct (Nat.leb_spec n (length collected)) as [Hle|Hlt].
      * simpl. rewrite <- app_assoc, take_app_le, take_ge by lia. done.
      * rewrite (res_map_take _ _ _ _ Hsel). simpl.
        rewrite IH by (intros m [= <-]; rewrite length_app, length_take; lia). simpl. f_equal.
        rewrite <- !app_assoc. apply take_refill.
    + rewrite Hsel. simpl. by rewrite IH by done.
Qed.

(** The limit of a read; zero or less is none. *)
Definition read_limit (input : ReadLogInput) : option nat :=
  match input.(ri_limit) with Some n => if 0 <? n then Some (Z.to_nat n) else None | None => None end.

(** Reading is cutting the log. *)
Lemma readLog_spec g input es :
  forest g.(g_heads) -> sorted_tables g -> log_is g (input.(ri_logId), input.(ri_head)) es ->
  readLog g input = Ok (take_limit (read_limit input) (asked input es)).
Proof.
  intros Hf Hs Hlog. destruct (lineage_shows g _ es Hf Hlog) as (segments & Hseg & parts & Hparts & <-).
  unfold readLog. simpl in Hseg. rewrite Hseg. simpl.
  rewrite (read_segments_spec g input _ _ parts) by (done || (intros n _; simpl; lia)). done.
Qed.

Lemma tail_segments_spec g input limit segments collected :
  (length collected <= limit)%nat ->
  tail_segments g input limit segments collected
  = take limit (collected ++ concat (map (fun s => rev (select_segment g s input)) segments)).
Proof.
  revert collected. induction segments as [|s segments IH]; intros collected Hl; simpl.
  - rewrite app_nil_r. by rewrite take_ge.
  - destruct (Nat.leb_spec limit (length collected)) as [Hle|Hlt].
    + rewrite take_app_le by lia. by rewrite take_ge by lia.
    + rewrite IH by (rewrite length_app, length_take; lia).
      rewrite <- app_assoc. apply take_refill.
Qed.

Lemma rev_concat {A} (ls : list (list A)) : rev (concat ls) = concat (map (@rev A) (rev ls)).
Proof.
  induction ls as [|l ls IH]; [done|]. simpl. rewrite rev_app_distr, IH, map_app, concat_app. simpl.
  by rewrite app_nil_r.
Qed.

(** The last elements of a list. *)
Definition last_n {A} (n : nat) (l : list A) : list A := rev (take n (rev l)).

Lemma readLogTail_spec g input es n :
  forest g.(g_heads) -> sorted_tables g -> log_is g (input.(ri_logId), input.(ri_head)) es ->
  input.(ri_limit) = Some n ->
  readLogTail g input = Ok (last_n (Z.to_nat n) (asked input es)).
Proof.
  intros Hf Hs Hlog Hn. destruct (lineage_shows g _ es Hf Hlog) as (segments & Hseg & parts & Hparts & <-).
  unfold readLogTail. rewrite Hn. destruct (Z.leb_spec n 0) as [Hle|Hgt].
  { replace (Z.to_nat n) with O by lia. done. }
  simpl in Hseg. rewrite Hseg. simpl. rewrite tail_segments_spec by (simpl; lia). rewrite app_nil_l.
  unfold last_n. apply res_map_rev, res_map_take. rewrite asked_concat.
  assert (Hm : res_map mapLogEnvelope (concat (map (fun s => select_segment g s input) (rev segments)))
               = Ok (concat (map (asked input) parts))).
  { clear Hseg Hlog. induction Hparts as [|s part segs parts Hp _ IH]; [done|].
    simpl. apply res_map_app_ok; [by apply select_part|done]. }
  apply res_map_rev in Hm. rewrite <- Hm. f_equal.
  rewrite rev_concat, <- map_rev, rev_involutive, map_map. done.
Qed.

(** Looking an envelope up by a test of its row. *)
Lemma find_segment_spec g (p : LogEventRow -> bool) (q : GadEnvelope -> bool) segments es :
  (forall row e, mapLogEnvelope row = Ok e -> q e = p row) -> shows g segments es ->
  match find_segment g p segments with
  | Some row => exists e, mapLogEnvelope row = Ok e /\ In e es /\ q e = true
  | None => Forall (fun e => q e = false) es
  end.
Proof.
  intros Hpq (parts & Hparts & <-). revert parts Hparts.
  induction segments as [|s segments IH]; intros parts Hparts; simpl in *.
  { inversion Hparts. constructor. }
  apply Forall2_app_inv_l in Hparts as (parts1 & parts2 & Hp1 & Hp2 & ->).
  inversion Hp2 as [|? part ? ? (es & Hm & Ep) Hnil]; subst. inversion Hnil; subst. clear Hp2 Hnil.
  specialize (IH parts1 Hp1). rewrite concat_app, concat_cons, app_nil_r.
  destruct (List.find _ (g_events g)) as [row|] eqn:Hfind.
  - apply find_some in Hfind as [Hin Hc]. rewrite !andb_true_iff in Hc. destruct Hc as [[Ho Hw] Hp].
    assert (Hrow : In row (own g (s.(sg_logId), s.(sg_head)))) by (apply filter_In; done).
    destruct (res_map_In _ _ _ _ Hm Hrow) as (e & He & Hin'). exists e. split; [done|].
    rewrite (Hpq row e He). split; [|done]. apply in_app_iff. right. apply filter_In. split; [done|].
    destruct (decode_fields _ _ He) as (_ & _ & -> & _). done.
  - assert (Hpart : Forall (fun e => q e = false) (upto s.(sg_throughSeq) es)).
    { apply List.Forall_forall. intros e [He Hw]%filter_In. destruct (res_map_In_inv _ _ _ _ Hm He) as (row & Hdec & [Hi Ho]%filter_In).
      rewrite (Hpq row e Hdec). pose proof (find_none _ _ Hfind row Hi) as Hc.
      change (of_log s.(sg_logId) s.(sg_head) row = true) in Ho. cbn beta in Hc.
      destruct (decode_fields _ _ Hdec) as (_ & _ & Eq & _). rewrite Eq in Hw.
      rewrite Ho, Hw in Hc. done. }
    destruct (find_segment g p segments) as [row|].
    + destruct IH as (e & He & Hi & Hq). exists e. split; [done|]. split; [|done]. apply in_app_iff. auto.
    + apply Forall_app_2; done.
Qed.
End Reads.
