(* ===== verification/GadRefsLaws.v ===== *)
(** The sanitized events of the gad store are values with distinct keys again, and a
    public participant reference is its own public part; a payload moved to the blob
    store comes back. *)
From stdpp Require Import base.
From S2P Require Import Prelude Dict JsValue JsText GadCanon GadCanonLaws GadRefs.
From Stdlib Require Import Sorted.
From S2P Require Import JsJson JsJsonLaws GadLog GadStored.
#[local] Open Scope Z_scope.

Lemma js_get_val k v : js_val v -> js_val v.!k.
Proof.
  destruct v as [| | | | | |fs]; try done. rewrite js_val_obj. intros [_ Hf]. simpl.
  destruct (dict_get k fs) as [x|] eqn:E; [|done]. apply dict_get_In in E.
  rewrite List.Forall_forall in Hf. by apply (Hf _ E).
Qed.

Lemma fields_val v : js_val v -> dict_wf (fields v) /\ Forall (fun kv => js_val kv.2) (fields v).
Proof. destruct v; try (intros _; split; constructor). by rewrite js_val_obj. Qed.

Lemma with_field_val k x v : js_val x -> js_val v -> js_val (with_field k x v).
Proof.
  intros Hx [Hw Hf]%fields_val. unfold with_field. apply js_val_obj. split; [by apply dict_set_wf|].
  apply List.Forall_forall. intros [k' y] [E|Hi]%dict_set_In; [by simplify_eq|].
  rewrite List.Forall_forall in Hf. by apply (Hf _ Hi).
Qed.

Lemma arr_val v : js_val v -> Forall js_val (arr_or_nil v).
Proof. destruct v; try (intros; constructor). by rewrite js_val_arr. Qed.

Lemma summary_val method : js_val method -> Forall js_val (publicMethodSummary method).
Proof.
  intros Hm. unfold publicMethodSummary. destruct (negb _); [constructor|].
  destruct (method.!"name"); try constructor; [|constructor]. apply js_val_obj.
  assert (Hmenu : js_val method.!"menu") by by apply js_get_val.
  destruct (method.!"streaming"), (is_record method.!"menu"); cbn [app]; unfold dict_wf, dict_keys; cbn [map fst];
    (split; [apply base.NoDup_nil_2 || by (apply (bool_decide_unpack _); vm_compute)|]); repeat constructor; done.
Qed.

Lemma omap_scalar_keys metadata keys :
  NoDup keys ->
  NoDup (map fst (omap (fun key => if is_scalar metadata.!key then Some (key, metadata.!key) else None) keys)) /\
  Forall (fun kv => js_val kv.2 /\ In kv.1 keys)
    (omap (fun key => if is_scalar metadata.!key then Some (key, metadata.!key) else None) keys).
Proof.
  induction keys as [|key keys IH]; intros Hn; [split; constructor|].
  apply list.NoDup_cons in Hn as [Hn Hd]. destruct (IH Hd) as [IH1 IH2]. cbn [omap list_omap].
  assert (IH3 : Forall (fun kv : string * val => js_val kv.2 /\ In kv.1 (key :: keys))
            (omap (fun key => if is_scalar metadata.!key then Some (key, metadata.!key) else None) keys)).
  { eapply List.Forall_impl; [|exact IH2]. intros [k v] [? ?]. simpl. auto. }
  destruct (is_scalar _) eqn:E; [|done]. split.
  - simpl. apply list.NoDup_cons. split; [|done]. intros Hi. apply Hn. apply list_elem_of_In in Hi.
    apply in_map_iff in Hi as ([k v] & <- & Hi). rewrite List.Forall_forall in IH2. apply list_elem_of_In. by apply (IH2 _ Hi).
  - constructor; [|done]. simpl. split; [|auto]. by destruct (metadata.!key).
Qed.

Lemma metadata_val metadata : js_val metadata -> js_val (publicParticipantMetadata metadata).
Proof.
  intros Hm. unfold publicParticipantMetadata. destruct (negb _); [done|].
  destruct (omap_scalar_keys metadata PUBLIC_METADATA_KEYS) as [Hn Hf].
  { apply (bool_decide_unpack _). by vm_compute. }
  set (out := omap _ _) in *. clearbody out.
  assert (Hout : js_val (VObj out)).
  { apply js_val_obj. split; [done|]. eapply List.Forall_impl; [|exact Hf]. by intros ? []. }
  assert (Hms : Forall js_val (publicMethodSummaries metadata.!"methods")).
  { unfold publicMethodSummaries. pose proof (arr_val _ (js_get_val "methods" _ Hm)) as Ha.
    induction Ha as [|x l Hx _ IH]; [constructor|]. simpl. apply Forall_app_2; [by apply summary_val|done]. }
  destruct (publicMethodSummaries _) as [|m ms] eqn:E; [by destruct out|].
  destruct (out ++ _) eqn:E2; [done|]. rewrite <- E2. apply js_val_obj. split.
  - unfold dict_wf, dict_keys. rewrite map_app. apply list.NoDup_app. split; [done|].
    split; [|apply NoDup_singleton]. intros k Hk ->%list_elem_of_singleton.
    apply list_elem_of_In, in_map_iff in Hk as ([k v] & Ek & Hi). simpl in Ek. subst k.
    rewrite List.Forall_forall in Hf. destruct (Hf _ Hi) as [_ Hin]. simpl in Hin. intuition congruence.
  - apply js_val_obj in Hout as [_ Hout]. apply Forall_app_2; [done|]. constructor; [|constructor]. by apply js_val_arr.
Qed.

Lemma dict_del_val k v : js_val v -> js_val (VObj (dict_del k (fields v))).
Proof.
  intros [Hw Hf]%fields_val. apply js_val_obj. split; [by apply dict_del_wf|].
  apply List.Forall_forall. intros [k' x] [Hi _]%dict_del_In. rewrite List.Forall_forall in Hf. by apply (Hf _ Hi).
Qed.

Lemma actor_val actor : js_val actor -> js_val (publicActorRef actor).
Proof.
  intros Ha. unfold publicActorRef. pose proof (dict_del_val "metadata" actor Ha) as Hd.
  pose proof (metadata_val _ (js_get_val "metadata" _ Ha)) as Hm. unfold opt_field.
  destruct (truthy _); [|by rewrite app_nil_r]. apply js_val_obj in Hd as [Hw Hf]. apply js_val_obj. split.
  - unfold dict_wf, dict_keys in *. rewrite map_app. apply list.NoDup_app. split; [done|].
    split; [|apply NoDup_singleton]. intros k Hk ->%list_elem_of_singleton.
    apply list_elem_of_In, (dict_keys_del_incl "metadata") in Hk. simpl in Hk. tauto.
  - apply Forall_app_2; [done|]. by repeat constructor.
Qed.

Create HintDb js_vals.
#[export] Hint Resolve js_get_val with_field_val actor_val metadata_val : js_vals.

Ltac js_cases :=
  repeat match goal with |- js_val (if ?b then _ else _) => destruct b end; unfold publicParticipantRef; eauto 8 with js_vals.

Lemma sanitize_payload_val kind payload : js_val payload -> js_val (sanitizePayloadParticipantRefs kind payload).
Proof.
  intros Hp. unfold sanitizePayloadParticipantRefs, sanitizeInvocationPayload, sanitizeApprovalPayload. js_cases.
  all: apply with_field_val; js_cases.
Qed.

Lemma sanitize_event_val event : js_val event -> js_val (sanitizeAgenticEventParticipantRefs event).
Proof.
  intros He. unfold sanitizeAgenticEventParticipantRefs. apply with_field_val; [|js_cases].
  apply sanitize_payload_val. js_cases.
Qed.

Lemma map_val f l : (forall x, js_val x -> js_val (f x)) -> Forall js_val l -> js_val (VArr (map f l)).
Proof. intros Hf Hl. apply js_val_arr. induction Hl; simpl; constructor; auto. Qed.

Lemma roster_val payload : js_val payload -> js_val (sanitizeRosterSnapshotPayload payload).
Proof.
  intros Hp. unfold sanitizeRosterSnapshotPayload. js_cases.
  pose proof (arr_val _ (js_get_val "participants" _ (js_get_val "roster" _ (js_get_val "details" _ Hp)))) as Ha.
  destruct (_ .! "participants"); try done. simpl in Ha.
  repeat (apply with_field_val; [|js_cases]). apply map_val; [|done]. intros x Hx.
  unfold sanitizeRosterParticipant. js_cases; apply with_field_val; js_cases; unfold sanitizeRosterMethodSummaries.
  all: assert (Hm : js_val (publicParticipantMetadata (VObj [("methods", x.!"methods")])))
    by (apply metadata_val, js_val_obj; split; [apply NoDup_singleton|]; repeat constructor; by apply js_get_val).
  all: apply (js_get_val "methods") in Hm; by destruct (_ .! "methods").
Qed.

Lemma audience_val audience v : js_val audience -> sanitizeAudience audience = Some v ->
  js_val v /\ is_undef v = false.
Proof.
  intros Ha E. destruct audience; simpl in E; simplify_eq; try done.
  split; [|done]. apply map_val; [|by apply js_val_arr]. intros x Hx. unfold publicParticipantRef. js_cases.
Qed.

Lemma some_field_val k o : (forall v, o = Some v -> js_val v) -> Forall (fun kv => js_val kv.2) (some_field k o).
Proof. intros Ho. destruct o; simpl; [|constructor]. repeat constructor. by apply Ho. Qed.

Lemma causality_rest_val causality c :
  (forall v, causality = Some v -> js_val v) -> agenticCausality causality = Some c -> js_val c.
Proof.
  intros Hc. destruct causality as [v|]; [|done]. simpl. specialize (Hc v eq_refl).
  pose proof (dict_del_val "originLogId" v Hc) as H1. pose proof (dict_del_val "originHead" _ H1) as H2.
  pose proof (dict_del_val "originEnvelopeId" _ H2) as H3. pose proof (dict_del_val "turnId" _ H3) as H4.
  simpl in H4. destruct (dict_del "turnId" _); [done|]. intros E. simplify_eq. done.
Qed.

Lemma opt_field_val k v : js_val v -> Forall (fun kv => js_val kv.2) (opt_field k v).
Proof. intros Hv. unfold opt_field. destruct (truthy v); repeat constructor; done. Qed.

(** Fields listed with each key at most once, in a fixed order. *)
Lemma keys_sub (ks : list string) (fs : list (string * val)) :
  NoDup ks -> sublist (map fst fs) ks -> dict_wf fs.
Proof. intros Hn Hs. unfold dict_wf, dict_keys. by eapply sublist_NoDup. Qed.

(** Values stored by reference come back: what was moved to the blob store is put back
    where it was. *)
(** No part of the value looks like a reference. *)
Fixpoint ref_free (v : val) : Prop :=
  isStoredValueRef v = false /\
  match v with
  | VArr l => (fix go (l : list val) : Prop := match l with [] => True | x :: l' => ref_free x /\ go l' end) l
  | VObj fs => (fix go (fs : list (string * val)) : Prop := match fs with [] => True | (_, x) :: fs' => ref_free x /\ go fs' end) fs
  | _ => True
  end.

Lemma ref_free_arr l : ref_free (VArr l) <-> Forall ref_free l.
Proof.
  cbn [ref_free]. split.
  - intros [_ H]. induction l as [|x l IH]; [constructor|]. destruct H. constructor; auto.
  - intros H. split; [done|]. induction H; [done|]. by split.
Qed.

Lemma ref_free_obj fs : ref_free (VObj fs) <-> isStoredValueRef (VObj fs) = false /\ Forall (fun kv => ref_free kv.2) fs.
Proof.
  cbn [ref_free]. split; intros [Hr H]; (split; [done|]).
  - clear Hr. induction fs as [|[k x] fs IH]; [constructor|]. destruct H. constructor; auto.
  - clear Hr. induction H as [|[k x] fs Hx _ IH]; [done|]. by split.
Qed.

Lemma ref_free_self v : ref_free v -> isStoredValueRef v = false.
Proof. destruct v; by intros [? _]. Qed.

Section Stored.
Context {B : Type} `{!TextBlobs B, !TextBlobsLaws B}.
Implicit Types b : B.

(** The blobs of [b] are in [b'] too. *)
Definition keeps b b' : Prop := forall digest t, getText b digest = Some t -> getText b' digest = Some t.

#[export] Instance keeps_preorder : PreOrder keeps.
Proof. split; [by intros b digest t|]. intros b1 b2 b3 H1 H2 digest t H. by apply H2, H1. Qed.

Lemma put_text b s : keeps b (putText b s).1.
Proof. intros digest t. by apply put_keeps. Qed.

Lemma hydrate_plain n b v : isStoredValueRef v = false -> (forall l, v <> VArr l) -> (forall fs, v <> VObj fs) ->
  hydrateStoredValueRefs (S n) b v = Ok v.
Proof. intros E H1 H2. cbn [hydrateStoredValueRefs]. destruct v; cbn [isStoredValueRef] in *; rewrite ?E; try done; [by destruct (H1 l)|by destruct (H2 fs)]. Qed.

Definition hydrate_field n b (kv : string * val) : res (string * val) :=
  let! x := hydrateStoredValueRefs (S n) b kv.2 in Ok (kv.1, x).

Lemma hydrate_obj n b fs : isStoredValueRef (VObj fs) = false ->
  hydrateStoredValueRefs (S n) b (VObj fs) = let! fs' := res_map (hydrate_field n b) fs in Ok (VObj fs').
Proof.
  intros E. cbn [hydrateStoredValueRefs]. rewrite E. f_equal.
  assert (Hgen : forall l, (fix go (fs : list (string * val)) : res (list (string * val)) :=
                match fs with
                | [] => Ok []
                | (key, item) :: fs' => let! item := hydrateStoredValueRefs (S n) b item in let! fs' := go fs' in Ok ((key, item) :: fs')
                end) l = res_map (hydrate_field n b) l); [|by rewrite <- Hgen].
  induction l as [|[k x] l IH]; [done|]. cbn [res_map]. unfold hydrate_field at 1. cbn [fst snd]. rewrite IH. by destruct (hydrateStoredValueRefs (S n) b x).
Qed.

Lemma hydrate_arr n b l :
  hydrateStoredValueRefs (S n) b (VArr l) = let! l' := res_map (hydrateStoredValueRefs (S n) b) l in Ok (VArr l').
Proof.
  cbn [hydrateStoredValueRefs]. change (isStoredValueRef (VArr l)) with false. cbn match. f_equal.
  assert (Hgen : forall l, (fix go (l : list val) : res (list val) :=
                match l with
                | [] => Ok []
                | item :: l' => let! item := hydrateStoredValueRefs (S n) b item in let! l' := go l' in Ok (item :: l')
                end) l = res_map (hydrateStoredValueRefs (S n) b) l); [|by rewrite <- Hgen].
  clear l. induction l as [|x l IH]; [done|]. cbn [res_map]. by rewrite IH.
Qed.

(** A value without references is itself. *)
Lemma hydrate_free n b v : ref_free v -> hydrateStoredValueRefs (S n) b v = Ok v.
Proof.
  induction v as [| |x|z|s|l IH|fs IH] using val_ind_nested; try done.
  - rewrite ref_free_arr, hydrate_arr. intros H. assert (E : res_map (hydrateStoredValueRefs (S n) b) l = Ok l); [|by rewrite E].
    induction IH as [|x l Hx _ IHl]; [done|]. apply list.Forall_cons in H as [H1 H2]. cbn [res_map].
    by rewrite (Hx H1), (IHl H2).
  - rewrite ref_free_obj. intros [Hr H]. rewrite hydrate_obj by done. assert (E : res_map (hydrate_field n b) fs = Ok fs); [|by rewrite E].
    clear Hr. induction IH as [|[k x] fs Hx _ IHl]; [done|]. apply list.Forall_cons in H as [H1 H2]. cbn [res_map fst snd] in *. unfold hydrate_field at 1. cbn [fst snd].
    by rewrite (Hx H1), (IHl H2).
Qed.

Lemma stored_is_ref blob encoding n : encoding = "json" \/ encoding = "text" -> isStoredValueRef (stored_ref blob encoding n) = true.
Proof. by intros [-> | ->]. Qed.

(** A text that was put is found. *)
Lemma hydrate_stored n b b' s encoding m : keeps (putText b s).1 b' -> encoding = "json" \/ encoding = "text" ->
  hydrateStoredValueRefs (S n) b' (stored_ref (putText b s).2 encoding m)
  = if encoding =s? "text" then Ok (VStr s) else let! parsed := json_parse s in hydrateStoredValueRefs n b' parsed.
Proof.
  intros Hk He. pose proof (stored_is_ref (putText b s).2 encoding m He) as Hr.
  assert (Hg : getText b' (to_str (stored_ref (putText b s).2 encoding m).!"digest") = Some s) by (apply Hk, put_get).
  unfold stored_ref in *. cbn [hydrateStoredValueRefs]. rewrite Hr, Hg. by destruct He as [-> | ->].
Qed.

Lemma stored_text_back n b b' s : keeps (storeText b s).1 b' -> hydrateStoredValueRefs (S n) b' (storeText b s).2 = Ok (VStr s).
Proof.
  unfold storeText. pose proof (hydrate_stored n b b' s "text" (byteLength s)) as H. destruct (putText b s) as [b1 blob]. cbn [fst snd] in *.
  intros Hk. by rewrite H by auto.
Qed.

Lemma stored_json_back n b b' v : json_val v -> ref_free v -> keeps (storeJson b v).1 b' ->
  hydrateStoredValueRefs (S (S n)) b' (storeJson b v).2 = Ok v.
Proof.
  intros Hj Hr. unfold storeJson. destruct (json_roundtrip v Hj) as (t & Et & Ep). rewrite Et. change (default "undefined" (Some t)) with t.
  pose proof (hydrate_stored (S n) b b' t "json" (byteLength t)) as H. destruct (putText b t) as [b1 blob]. cbn [fst snd] in *.
  intros Hk. rewrite H by auto. change ("json" =s? "text") with false. cbn match. rewrite Ep. by apply hydrate_free.
Qed.

(** Encoding only adds blobs, and what it made reads back. *)
Definition comes_back n (r : res (B * val)) b v : Prop :=
  forall b1 v', r = Ok (b1, v') -> keeps b b1 /\ forall b', keeps b1 b' -> hydrateStoredValueRefs (S (S n)) b' v' = Ok v.

(** The loops of the encoder over items and fields. *)
Definition encode_items (f : string -> val -> B -> res (B * val)) (path : string) :=
  fix go (index : Z) (l : list val) b : res (B * list val) :=
    match l with
    | [] => Ok (b, [])
    | item :: l' =>
        let! first := f (path ^^ "[" ^^ pretty index ^^ "]") item b in
        let! rest := go (index + 1) l' first.1 in
        Ok (rest.1, first.2 :: rest.2)
    end.

Definition encode_fields (f : string -> val -> B -> res (B * val)) :=
  fix go (fs : list (string * val)) b : res (B * list (string * val)) :=
    match fs with
    | [] => Ok (b, [])
    | (key, item) :: fs' =>
        let! first := f key item b in
        let! rest := go fs' first.1 in
        Ok (rest.1, (key, first.2) :: rest.2)
    end.

Lemma items_back n f path index l b b1 l' :
  Forall (fun x => forall p b, comes_back n (f p x b) b x) l -> encode_items f path index l b = Ok (b1, l') ->
  keeps b b1 /\ forall b', keeps b1 b' -> res_map (hydrateStoredValueRefs (S (S n)) b') l' = Ok l.
Proof.
  intros H. revert index b b1 l'. induction H as [|x l Hx _ IH]; intros index b b1 l' E; cbn [encode_items] in E.
  - injection E as <- <-. split; [reflexivity|done].
  - apply res_bind_Ok in E as ([b2 v] & E1 & E). apply res_bind_Ok in E as ([b3 rest] & E2 & E). injection E as <- <-. cbn [fst snd] in *.
    destruct (Hx _ _ _ _ E1) as [K1 H1]. destruct (IH _ _ _ _ E2) as [K2 H2]. split; [by trans b2|]. intros b' K. cbn [res_map].
    rewrite (H1 b') by (by trans b3). cbn [res_bind]. by rewrite (H2 b' K).
Qed.

(** Neither a list nor an object. *)
Definition plain (v : val) : Prop := match v with VArr _ | VObj _ => False | _ => True end.

Lemma fields_back n f fs b b1 fs' :
  (forall k x b b1 v, f k x b = Ok (b1, v) -> plain v -> v = x) ->
  Forall (fun kv => forall b, comes_back n (f kv.1 kv.2 b) b kv.2) fs -> encode_fields f fs b = Ok (b1, fs') ->
  keeps b b1 /\ (forall k v, dict_get k fs' = Some v -> plain v -> dict_get k fs = Some v) /\
  forall b', keeps b1 b' -> res_map (hydrate_field (S n) b') fs' = Ok fs.
Proof.
  intros Hp H. revert b b1 fs'. induction H as [|[k x] fs Hx _ IH]; intros b b1 fs' E; cbn [encode_fields] in E.
  - injection E as <- <-. split; [reflexivity|done].
  - apply res_bind_Ok in E as ([b2 v] & E1 & E). apply res_bind_Ok in E as ([b3 rest] & E2 & E). injection E as <- <-. cbn [fst snd] in *.
    destruct (Hx _ _ _ E1) as [K1 H1]. destruct (IH _ _ _ E2) as (K2 & Hf & H2). split; [by trans b2|]. split.
    { intros k' v'. cbn [dict_get]. destruct (k' =s? k); [|apply Hf]. intros [= <-] Hv. f_equal. symmetry. by apply (Hp _ _ _ _ _ E1). }
    intros b' K. cbn [res_map]. unfold hydrate_field at 1. cbn [fst snd]. rewrite (H1 b') by (by trans b3). cbn [res_bind]. by rewrite (H2 b' K).
Qed.

Lemma encoded_plain options path matchPath x b b1 v :
  encodeStorageClassesInner options path matchPath x b = Ok (b1, v) -> plain v -> v = x.
Proof.
  intros H Hv. destruct x; cbn [encodeStorageClassesInner] in H; repeat (case_match; try discriminate); cbn [storeText storeJson] in *;
    unfold storeText, storeJson, stored_ref in *; repeat case_match; simplify_eq; try done;
    apply res_bind_Ok in H as (? & _ & H); by simplify_eq.
Qed.

Lemma encoded_fields_free (fs fs' : list (string * val)) : isStoredValueRef (VObj fs) = false ->
  (forall k v, dict_get k fs' = Some v -> plain v -> dict_get k fs = Some v) -> isStoredValueRef (VObj fs') = false.
Proof.
  intros Hr Hk. apply not_true_iff_false. intros H. apply not_true_iff_false in Hr. apply Hr. clear Hr.
  assert (Hg : forall k p, plain p -> (VObj fs').!k = p -> p <> VUndef -> (VObj fs).!k = p).
  { intros k p Hp E Hn. cbn [js_get] in *. destruct (dict_get k fs') as [v|] eqn:Eg; [|congruence]. subst v. by rewrite (Hk _ _ Eg Hp). }
  unfold isStoredValueRef in *. repeat (apply andb_prop in H as [H ?]).
  destruct ((VObj fs').!"protocol") as [| | | |p1| |] eqn:E1, ((VObj fs').!"digest") as [| | | |p2| |] eqn:E2,
    ((VObj fs').!"size") as [| | |p3| | |] eqn:E3, ((VObj fs').!"encoding") as [| | | |p4| |] eqn:E4,
    ((VObj fs').!"originalBytes") as [| | |p5| | |] eqn:E5; try done.
  apply Hg in E1, E2, E3, E4, E5; [|done..]. rewrite E1, E2, E3, E4, E5. by repeat (apply andb_true_intro; split).
Qed.

Lemma self_back n b v : ref_free v -> comes_back n (Ok (b, v)) b v.
Proof. intros Hr b1 v' [= <- <-]. split; [reflexivity|]. intros b' _. by apply hydrate_free. Qed.

Lemma text_back n b s : comes_back n (Ok (storeText b s)) b (VStr s).
Proof.
  intros b1 v' E. assert (E1 : storeText b s = (b1, v')) by congruence. split.
  - pose proof (put_text b s) as H. unfold storeText in E1. destruct (putText b s). by injection E1 as <- <-.
  - intros b' K. pose proof (stored_text_back (S n) b b' s) as H. rewrite E1 in H. by apply H.
Qed.

Lemma json_back n b v : json_val v -> ref_free v -> comes_back n (Ok (storeJson b v)) b v.
Proof.
  intros Hj Hr b1 v' E. assert (E1 : storeJson b v = (b1, v')) by congruence. split.
  - pose proof (put_text b (default "undefined" (json_stringify v))) as H. unfold storeJson in E1. destruct (putText b _). by injection E1 as <- <-.
  - intros b' K. pose proof (stored_json_back n b b' v Hj Hr) as H. rewrite E1 in H. by apply H.
Qed.

(** What is stored by reference is what was there. *)
Lemma encode_back options path matchPath v b n : json_val v -> ref_free v ->
  comes_back n (encodeStorageClassesInner options path matchPath v b) b v.
Proof.
  revert path matchPath b. induction v as [| |x|z|s|l IH|fs IH] using val_ind_nested; intros path matchPath b Hj Hr;
    cbn [encodeStorageClassesInner]; rewrite (ref_free_self _ Hr);
    (destruct (existsb _ (so_referencePaths options)); [by first [apply self_back | apply text_back | apply json_back]|]);
    try by apply self_back.
  - destruct (_ <? _); [|by apply self_back]. destruct (so_oversizeInline options); [done|apply text_back].
  - intros b1 v' E. apply res_bind_Ok in E as ([b2 l'] & E & Ev). injection Ev as <- <-.
    rewrite json_val_arr in Hj. rewrite ref_free_arr in Hr.
    destruct (items_back n (fun p => encodeStorageClassesInner options p (matchPath ^^ "[*]")) path 0 l b b2 l') as [K H].
    + apply List.Forall_forall. intros x Hx p b3. rewrite List.Forall_forall in IH, Hj, Hr. by apply IH; auto.
    + exact E.
    + split; [done|]. intros b' Kb. rewrite hydrate_arr. by rewrite (H b' Kb).
  - intros b1 v' E. apply res_bind_Ok in E as ([b2 fs'] & E & Ev). injection Ev as <- <-.
    rewrite json_val_obj in Hj. rewrite ref_free_obj in Hr. destruct Hj as [_ Hj], Hr as [Hself Hr].
    destruct (fields_back n (fun key => encodeStorageClassesInner options (path ^^ "." ^^ key) (matchPath ^^ "." ^^ key)) fs b b2 fs') as (K & Hk & H).
    + intros k x b3 b4 v. apply encoded_plain.
    + apply List.Forall_forall. intros kv Hx b3. rewrite List.Forall_forall in IH, Hj, Hr. by apply IH; auto.
    + exact E.
    + split; [done|]. intros b' Kb. rewrite hydrate_obj by by eapply encoded_fields_free. by rewrite (H b' Kb).
Qed.
End Stored.
