(* ===== verification/GadAppendLaws.v ===== *)
(** How the log tables of the gad store change: what an event becomes when its row is
    written and read back, the well-formedness of the tables, and that appending,
    forking and deleting keep it, each changing only the logs it names. *)
From S2P Require Import Prelude Dict JsValue JsText JsJson JsJsonLaws GadCanon GadCanonLaws GadRefs.
From S2P Require Import GadRefsLaws GadLog GadAppend GadLogLaws.
From Stdlib Require Import Sorted.
#[local] Open Scope Z_scope.

(** * Rows and envelopes *)

(** An event as it comes back from its row. *)
Definition event_norm (event : LogEvent) : LogEvent :=
  {| ev_envelopeId := event.(ev_envelopeId); ev_actor := json_norm event.(ev_actor);
     ev_to := option_map json_norm event.(ev_to); ev_payloadKind := event.(ev_payloadKind);
     ev_payload := json_norm event.(ev_payload);
     ev_annotations := option_map json_norm event.(ev_annotations);
     ev_causality := option_map json_norm event.(ev_causality); ev_appendedAt := event.(ev_appendedAt) |}.

Definition env_norm (e : GadEnvelope) : GadEnvelope :=
  {| ge_logId := e.(ge_logId); ge_head := e.(ge_head); ge_seq := e.(ge_seq); ge_event := event_norm e.(ge_event);
     ge_prevHash := e.(ge_prevHash); ge_hash := e.(ge_hash) |}.

Definition opt_all (Q : val -> Prop) (o : option val) : Prop := match o with Some v => Q v | None => True end.

Definition js_record (v : val) : Prop := js_val v /\ is_record v = true.

(** The declared types of an event. *)
Record typed_event (event : LogEvent) : Prop := {
  te_actor : js_record event.(ev_actor);
  te_to : opt_all (fun v => js_val v /\ is_undef v = false) event.(ev_to);
  te_payload : js_val event.(ev_payload);
  te_annotations : opt_all js_record event.(ev_annotations);
  te_causality : opt_all js_record event.(ev_causality)
}.

Lemma record_defined v : is_record v = true -> is_undef v = false.
Proof. by destruct v. Qed.

Lemma norm_record v : is_record (json_norm v) = is_record v.
Proof. by destruct v. Qed.

Lemma parse_text v t :
  js_val v -> is_undef v = false -> json_stringify v = Some t ->
  (t =s? "") = false /\ json_parse t = Ok (json_norm v).
Proof.
  intros Hv Hu Ht. destruct (stored_text v Hv Hu) as (t' & Ht' & Hp). assert (t' = t) as -> by congruence.
  split; [|done]. apply string_eqb_ne. intros ->. by vm_compute in Hp.
Qed.

Lemma parseJson_text v t :
  js_val v -> is_undef v = false -> json_stringify v = Some t -> parseJson (Some t) = Ok (json_norm v).
Proof. intros Hv Hu Ht. destruct (parse_text v t Hv Hu Ht) as [E Hp]. simpl. by rewrite E. Qed.

Lemma parseRecord_text v t :
  js_record v -> json_stringify v = Some t -> parseRecord (Some t) = Ok (json_norm v).
Proof.
  intros [Hv Hr] Ht. unfold parseRecord. rewrite (parseJson_text v t Hv (record_defined v Hr) Ht). simpl.
  by rewrite norm_record, Hr.
Qed.

Lemma stringify_some v : is_undef v = false -> exists t, json_stringify v = Some t.
Proof. intros Hu. destruct (json_stringify v) eqn:E; [eauto|]. apply stringify_defined in E as ->. done. Qed.

Lemma when_set_text o (f : val -> option string) parse :
  opt_all (fun v => exists t, f v = Some t /\ (t =s? "") = false /\ parse (Some t) = Ok (json_norm v)) o ->
  when_set (o ≫= f) parse = Ok (option_map json_norm o).
Proof. destruct o as [v|]; [|done]. simpl. intros (t & -> & E & Hp). simpl. by rewrite E, Hp. Qed.

Lemma json_record v : js_record v -> exists t, json v = Some t /\ (t =s? "") = false /\ parseRecord (Some t) = Ok (json_norm v).
Proof.
  intros Hv. assert (Hd : is_undef v = false) by apply record_defined, Hv.
  destruct (stringify_some v Hd) as [t Ht]. exists t. split.
  - destruct Hv as [_ Hr]. destruct v; try done.
  - split; [by eapply parse_text; [apply Hv|..]|by apply parseRecord_text].
Qed.

(** Reading back what was written. *)
Lemma decode_row e actor payload :
  typed_event e.(ge_event) ->
  json_stringify e.(ge_event).(ev_actor) = Some actor -> json_stringify e.(ge_event).(ev_payload) = Some payload ->
  mapLogEnvelope (event_row e actor payload) = Ok (env_norm e).
Proof.
  intros [Ha Ht Hp Hn Hc] Eactor Epayload. unfold mapLogEnvelope. cbn [event_row er_actor_json er_to_json
    er_payload_ref_json er_annotations_json er_causality_json er_log_id er_head er_seq er_envelope_id
    er_payload_kind er_appended_at er_prev_hash er_hash].
  rewrite (parseRecord_text _ _ Ha Eactor). cbn [res_bind].
  rewrite when_set_text.
  2:{ destruct (ev_to (ge_event e)) as [v|]; [|done]. destruct Ht as [Hv Hu]. simpl.
      destruct (stringify_some v Hu) as [t Et]. exists t. destruct (parse_text v t Hv Hu Et).
      split; [done|]. split; [done|]. by apply parseJson_text. }
  cbn [res_bind]. rewrite (parseJson_text _ _ Hp) by (done || (destruct (ev_payload (ge_event e)); done)). cbn [res_bind].
  rewrite when_set_text.
  2:{ destruct (ev_annotations (ge_event e)) as [v|]; [|done]. by apply json_record. }
  cbn [res_bind]. rewrite when_set_text.
  2:{ destruct (ev_causality (ge_event e)) as [v|]; [|done]. by apply json_record. }
  done.
Qed.

Lemma norm_some_field k o : opt_all (fun v => is_undef v = false) o ->
  List.filter (fun kv => negb (is_undef kv.2)) (map (fun '(k, x) => (k, json_norm x)) (some_field k o))
  = some_field k (option_map json_norm o).
Proof. destruct o as [v|]; [|done]. simpl. intros Hu. by rewrite json_norm_undef, Hu. Qed.

(** The hash covers what is stored. *)
Lemma semantic_norm event :
  typed_event event -> is_undef event.(ev_payload) = false ->
  logEnvelopeSemantic (event_norm event) = json_norm (logEnvelopeSemantic event).
Proof.
  intros [Ha Ht Hp Hn Hc] Hu. unfold logEnvelopeSemantic. cbn [json_norm]. f_equal.
  rewrite !map_app, !List.filter_app.
  rewrite (norm_some_field "to") by (by destruct (ev_to event); [apply Ht|]).
  rewrite (norm_some_field "annotations") by (by destruct (ev_annotations event); [apply record_defined, Hn|]).
  rewrite (norm_some_field "causality") by (by destruct (ev_causality event); [apply record_defined, Hc|]).
  cbn [map List.filter snd]. rewrite !json_norm_undef, Hu, (record_defined _ (proj2 Ha)). done.
Qed.

Lemma stringify_payload event payload : json_stringify event.(ev_payload) = Some payload -> is_undef event.(ev_payload) = false.
Proof. by destruct (ev_payload event). Qed.

(** The heads whose rows were renamed by the archiving or restoring of a repository. *)
Class Renamed := renamed : list key.

Section Chain.
Context `{!Sha256} {names : Renamed}.

Lemma envelope_hash_norm e :
  typed_event e.(ge_event) -> is_undef e.(ge_event).(ev_payload) = false ->
  envelope_hash (env_norm e) = envelope_hash e.
Proof.
  intros Ht Hu. unfold envelope_hash, computeLogEnvelopeHash, logEnvelopeHashPreimage, env_norm. cbn [ge_prevHash ge_logId ge_head ge_seq ge_event].
  by rewrite semantic_norm, canonical_norm.
Qed.

(** The hash under the name of another head. *)
Definition hash_under (head : string) (e : GadEnvelope) : string :=
  computeLogEnvelopeHash e.(ge_prevHash) e.(ge_logId) head e.(ge_seq) (logEnvelopeSemantic e.(ge_event)).

(** The envelope's hash is the hash of its content under the name of its head or, when
    its head was renamed, under some name. *)
Definition sealed (e : GadEnvelope) : Prop :=
  e.(ge_hash) = envelope_hash e \/
  (In (e.(ge_logId), e.(ge_head)) renamed /\ exists head, e.(ge_hash) = hash_under head e).

(** Envelopes of one head, each numbered and hashed onto the one before. *)
Fixpoint chain (k : key) (seq : Z) (hash : string) (es : list GadEnvelope) : Prop :=
  match es with
  | [] => True
  | e :: es' =>
      (e.(ge_logId), e.(ge_head)) = k /\ e.(ge_seq) = seq + 1 /\ e.(ge_prevHash) = hash /\
      sealed e /\ chain k (seq + 1) e.(ge_hash) es'
  end.

Definition end_hash (hash : string) (es : list GadEnvelope) : string :=
  match list.last es with Some e => e.(ge_hash) | None => hash end.

Lemma end_hash_cons hash e es : end_hash hash (e :: es) = end_hash e.(ge_hash) es.
Proof. unfold end_hash. destruct es as [|e' es]; [done|]. rewrite last_cons_cons.
  destruct (list.last (e' :: es)) eqn:El; [done|]. by apply last_None in El.
Qed.

Lemma end_hash_snoc hash es e : end_hash hash (es ++ [e]) = e.(ge_hash).
Proof. unfold end_hash. by rewrite last_snoc. Qed.

Lemma chain_app k seq hash es1 es2 :
  chain k seq hash (es1 ++ es2) <->
  chain k seq hash es1 /\ chain k (seq + Z.of_nat (length es1)) (end_hash hash es1) es2.
Proof.
  revert seq hash. induction es1 as [|e es1 IH]; intros seq hash.
  - simpl. rewrite Z.add_0_r. unfold end_hash. simpl. tauto.
  - rewrite end_hash_cons. cbn [app chain length]. rewrite IH.
    replace (seq + 1 + Z.of_nat (length es1)) with (seq + Z.of_nat (S (length es1))) by lia. tauto.
Qed.

Lemma chain_bounds k seq hash es :
  chain k seq hash es -> Forall (fun e => seq < e.(ge_seq) <= seq + Z.of_nat (length es)) es.
Proof.
  revert seq hash. induction es as [|e es IH]; intros seq hash; [constructor|].
  cbn [chain length]. intros (_ & E & _ & _ & Hc). constructor; [lia|].
  eapply List.Forall_impl; [|by eapply IH]. intros x. simpl. lia.
Qed.

Lemma chain_by_seq k seq hash es : chain k seq hash es -> by_seq es.
Proof.
  revert seq hash. induction es as [|e es IH]; intros seq hash; [constructor|].
  cbn [chain]. intros (_ & E & _ & _ & Hc). constructor; [by eapply IH|].
  apply chain_bounds in Hc. eapply List.Forall_impl; [|exact Hc]. intros x. simpl. lia.
Qed.
End Chain.

(** Hashed under the names they have, as all envelopes are when no head was renamed. *)
Abbreviation strict_chain := (chain (names := [])).

Lemma sealed_strict {sha : Sha256} e : sealed (names := []) e -> e.(ge_hash) = envelope_hash e.
Proof. by intros [?|[[] _]]. Qed.

(** The envelopes of a head that was not renamed. *)
Lemma chain_strict {sha : Sha256} {names : Renamed} k seq hash es : ~ In k renamed -> chain k seq hash es -> strict_chain k seq hash es.
Proof.
  intros Hk. revert seq hash. induction es as [|e es IH]; intros seq hash; [done|]. cbn [chain].
  intros (E & Es & Ep & Hs & Hc). do 3 (split; [done|]). split; [|by apply IH].
  left. destruct Hs as [?|[Hi _]]; [done|]. by rewrite E in Hi.
Qed.

(** * Prepared events are typed *)

(** The schema gives values with distinct keys for such values. *)
Class EventSchemaLaws `{EventSchema} : Prop :=
  schema_val v w : storedAgenticEventSchema_parse v = Ok w -> js_val v -> js_val w.

(** The declared types of an input. *)
Record typed_input (input : LogAppendEventInput) : Prop := {
  ti_actor : js_val input.(la_actor);
  ti_to : js_val input.(la_to);
  ti_payload : js_val input.(la_payload);
  ti_causality : opt_all js_record (nullish_opt input.(la_causality));
  ti_annotations : opt_all js_record (nullish_opt input.(la_annotations));
  ti_publish : Forall (fun target => js_val target.2) input.(la_publish)
}.

Lemma opt_all_impl (Q R : val -> Prop) o : (forall v, Q v -> R v) -> opt_all Q o -> opt_all R o.
Proof. destruct o; simpl; auto. Qed.

Lemma opt_all_get Q o v : opt_all Q o -> o = Some v -> Q v.
Proof. intros Ho ->. done. Qed.

Lemma causality_get_val key o : opt_all js_record o -> js_val (causality_get key o).
Proof. destruct o as [c|]; [|done]. intros [Hc _]. by apply js_get_val. Qed.

(** The agentic event of an event's fields. *)
Lemma agentic_event_val kind actor causality payload createdAt :
  js_val actor -> opt_all js_record causality -> js_val payload ->
  js_val (VObj ([("kind", VStr kind); ("actor", actor)]
                ++ opt_field "turnId" (causality_get "turnId" causality)
                ++ some_field "causality" (agenticCausality causality)
                ++ [("payload", payload); ("createdAt", VStr createdAt)])).
Proof.
  intros Ha Hc Hp. apply js_val_obj. split.
  - apply (keys_sub ["kind"; "actor"; "turnId"; "causality"; "payload"; "createdAt"]).
    + apply (bool_decide_unpack _). by vm_compute.
    + rewrite !map_app. unfold opt_field. destruct (truthy _), (agenticCausality _); cbn [map some_field app fst];
        repeat (apply sublist_skip || apply sublist_cons); apply sublist_nil_l.
  - apply Forall_app_2; [by repeat constructor|]. apply Forall_app_2.
    { by apply opt_field_val, causality_get_val. }
    apply Forall_app_2; [|by repeat constructor].
    apply some_field_val. intros v. apply causality_rest_val. intros w Ew. by apply (opt_all_get _ _ _ Hc Ew).
Qed.

Lemma Ok_inj {A} (a b : A) : Ok a = Ok b -> a = b.
Proof. by intros [= ->]. Qed.

Section Prepared.
Context {P : Type} {sha : Sha256} {schema : EventSchema} {schema_laws : EventSchemaLaws} {proj : LogProjections P}.
Implicit Types (g : Gad P).

Lemma payload_val g logKind input causality appendedAt payload :
  typed_input input -> opt_all js_record causality ->
  prepare_payload g logKind input causality appendedAt = Ok payload -> js_val payload.
Proof.
  intros [Ha Ht Hp _ _ _] Hc. unfold prepare_payload. destruct (_ && _).
  - intros H. apply res_bind_Ok in H as (parsed & Hparse & H). apply res_bind_Ok in H as ([] & _ & H).
    apply res_bind_Ok in H as ([] & _ & H). apply Ok_inj in H as <-.
    apply roster_val, (js_get_val "payload"), sanitize_event_val. apply schema_val in Hparse; [done|]. by apply agentic_event_val.
  - destruct (_ =s? _); [|by intros <-%Ok_inj]. destruct (negb _); [done|].
    intros H. apply res_bind_Ok in H as (parsed & Hparse & H). apply res_bind_Ok in H as ([] & _ & H). apply Ok_inj in H as <-.
    apply schema_val in Hparse; [|done]. apply sanitize_event_val in Hparse.
    apply with_field_val; [|done]. by apply roster_val, (js_get_val "payload").
Qed.

Lemma prepared_typed g logKind input event :
  typed_input input -> prepareLogEvent g logKind input = Ok event ->
  typed_event event.(pe_event) /\ event.(pe_publish) = input.(la_publish).
Proof.
  intros Hi. unfold prepareLogEvent. destruct (_ =s? _); [done|]. intros H.
  apply res_bind_Ok in H as (payload & Hp & H). apply Ok_inj in H as <-. split; [|done].
  pose proof Hi as [Ha Ht _ Hc Hn _]. constructor; cbn [pe_event ev_actor ev_to ev_payload ev_annotations ev_causality].
  - split; [by apply actor_val|done].
  - destruct (sanitizeAudience _) as [v|] eqn:E; [|done]. by eapply audience_val.
  - exact (payload_val _ _ _ _ _ _ Hi Hc Hp).
  - destruct (nullish_opt (la_annotations input)) as [a|]; [|done]. simpl in Hn |- *. destruct Hn as [Hv Hr].
    destruct (isSome _); [|done]. split; [|done]. apply with_field_val; [|done]. by apply metadata_val, (js_get_val "metadata").
  - done.
Qed.

Lemma publication_typed now e channelId audience :
  typed_event e.(ge_event) -> js_val audience ->
  Forall typed_input (publication_input now e channelId audience).(in_events) /\
  Forall (fun i => i.(la_publish) = []) (publication_input now e channelId audience).(in_events).
Proof.
  intros [Ha Ht Hp Hn Hc] Haud. split; (constructor; [|constructor]); [|done].
  constructor; cbn [la_actor la_to la_payload la_causality la_annotations la_publish].
  - apply Ha.
  - destruct audience; try done; exact Haud.
  - apply agentic_event_val; [apply Ha|done|done].
  - simpl. split; [|done]. apply js_val_obj. split; [|by repeat constructor].
    apply (bool_decide_unpack _). by vm_compute.
  - done.
  - constructor.
Qed.
End Prepared.
