(* ===== verification/GadTables.v ===== *)
(** The tables of the gad store between operations: well-formed tables, the log behind
    each head as one chain from the genesis hash, and what changes when heads and
    events are added. *)
From S2P Require Import Prelude Dict JsValue JsText JsJson GadCanon GadCanonLaws GadRefs GadRefsLaws.
From S2P Require Import GadLog GadAppend GadLogLaws GadAppendLaws.
From Stdlib Require Import Sorted.
#[local] Open Scope Z_scope.

(** * Heads *)

(** A head without its pointer. *)
Definition stem (row : LogHeadRow) : LogHeadRow :=
  {| hr_log_id := row.(hr_log_id); hr_head := row.(hr_head); hr_log_kind := row.(hr_log_kind);
     hr_owner_json := row.(hr_owner_json); hr_parent_log_id := row.(hr_parent_log_id);
     hr_parent_head := row.(hr_parent_head); hr_fork_seq := row.(hr_fork_seq);
     hr_fork_hash := row.(hr_fork_hash); hr_current_seq := 0; hr_current_hash := "";
     hr_current_envelope_id := None; hr_created_at := row.(hr_created_at) |}.

Definition is_root (row : LogHeadRow) : Prop :=
  fork_of row = None /\ row.(hr_fork_seq) = None /\ row.(hr_fork_hash) = None.

Definition base_seq (row : LogHeadRow) : Z := default 0 row.(hr_fork_seq).
Definition base_hash (row : LogHeadRow) : string := default GENESIS_EVENT_HASH row.(hr_fork_hash).

Lemma stem_rkey row row' : stem row = stem row' -> rkey row = rkey row'.
Proof. unfold rkey. intros E. pose proof (f_equal hr_log_id E). pose proof (f_equal hr_head E). simpl in *. congruence. Qed.

Lemma stem_fields row row' : stem row = stem row' ->
  row.(hr_fork_seq) = row'.(hr_fork_seq) /\ row.(hr_fork_hash) = row'.(hr_fork_hash) /\ fork_of row = fork_of row'.
Proof.
  intros E. unfold fork_of. pose proof (f_equal hr_fork_seq E). pose proof (f_equal hr_fork_hash E).
  pose proof (f_equal hr_parent_log_id E). pose proof (f_equal hr_parent_head E). simpl in *.
  split; [congruence|]. split; [congruence|]. destruct row, row'; simpl in *; by subst.
Qed.

Lemma stem_base row row' : stem row = stem row' -> base_seq row = base_seq row' /\ base_hash row = base_hash row'.
Proof. intros (E1 & E2 & _)%stem_fields. unfold base_seq, base_hash. by rewrite E1, E2. Qed.

Lemma map_stem_keys l : map rkey (map stem l) = map rkey l.
Proof. by rewrite map_map. Qed.

Lemma find_stem k l : List.find (is_head k.1 k.2) (map stem l) = option_map stem (List.find (is_head k.1 k.2) l).
Proof. induction l as [|row l IH]; [done|]. simpl. change (is_head k.1 k.2 (stem row)) with (is_head k.1 k.2 row). by destruct (is_head _ _ row). Qed.

Lemma forest_stem l : forest (map stem l) <-> forest l.
Proof.
  split.
  - remember (map stem l) as m eqn:E. intros Hf. revert l E.
    induction Hf as [|m row Hf IH Hc Hn Hp]; intros l E.
    + symmetry in E. apply map_eq_nil in E as ->. constructor.
    + symmetry in E. apply map_eq_app in E as (l1 & l2 & -> & <- & E2).
      destruct l2 as [|r [|]]; simplify_eq/=. rewrite map_stem_keys in Hn, Hp. by constructor; [apply IH|..].
  - induction 1 as [|l row Hf IH Hc Hn Hp]; [constructor|]. rewrite map_app. constructor; [done|done|..].
    + by rewrite map_stem_keys.
    + rewrite map_stem_keys. exact Hp.
Qed.

Lemma forest_extend l news :
  forest l -> NoDup (map rkey (l ++ news)) -> Forall (fun row => clean_key (rkey row) /\ fork_of row = None) news ->
  forest (l ++ news).
Proof.
  intros Hf. induction news as [|row news IH] using rev_ind; intros Hn Hc; [by rewrite app_nil_r|].
  rewrite app_assoc in Hn |- *. apply list.Forall_app in Hc as [Hc Hr]. apply list.Forall_cons in Hr as [[Hck Hfo] _].
  rewrite map_app in Hn. apply list.NoDup_app in Hn as (Hn & Hd & _). constructor; [by apply IH|done|..].
  - intros Hi. apply list_elem_of_In in Hi. apply (Hd _ Hi). simpl. by left.
  - intros l' h s E. congruence.
Qed.

Section Tables.
Context {P : Type} {sha : Sha256} {names : Renamed}.
Implicit Types (g : Gad P) (k : key) (X K : list key).

Lemma head_of_In g k row : head_of g k = Some row -> In row g.(g_heads) /\ rkey row = k.
Proof. apply find_head_Some. Qed.

Lemma In_head_of g row : forest g.(g_heads) -> In row g.(g_heads) -> head_of g (rkey row) = Some row.
Proof. intros Hf Hi. by apply find_head_In; [apply forest_NoDup|..]. Qed.

Lemma head_of_None g k : head_of g k = None <-> ~ In k (map rkey g.(g_heads)).
Proof. apply find_head_None. Qed.

(** * Chains *)

Definition eids (es : list GadEnvelope) : list string := map (fun e => e.(ge_event).(ev_envelopeId)) es.

(** Envelopes of whatever heads, each numbered and hashed onto the one before. *)
Fixpoint linked (seq : Z) (hash : string) (es : list GadEnvelope) : Prop :=
  match es with
  | [] => True
  | e :: es' =>
      e.(ge_seq) = seq + 1 /\ e.(ge_prevHash) = hash /\ sealed e /\
      linked (seq + 1) e.(ge_hash) es'
  end.

Lemma chain_linked k seq hash es : chain k seq hash es -> linked seq hash es.
Proof. revert seq hash. induction es as [|e es IH]; intros seq hash; simpl; [done|]. naive_solver. Qed.

Lemma linked_app seq hash es1 es2 :
  linked seq hash (es1 ++ es2) <->
  linked seq hash es1 /\ linked (seq + Z.of_nat (length es1)) (end_hash hash es1) es2.
Proof.
  revert seq hash. induction es1 as [|e es1 IH]; intros seq hash.
  - simpl. rewrite Z.add_0_r. unfold end_hash. simpl. tauto.
  - rewrite end_hash_cons. cbn [app linked length]. rewrite IH.
    replace (seq + 1 + Z.of_nat (length es1)) with (seq + Z.of_nat (S (length es1))) by lia. tauto.
Qed.

Lemma linked_bounds seq hash es :
  linked seq hash es -> Forall (fun e => seq < e.(ge_seq) <= seq + Z.of_nat (length es)) es.
Proof.
  revert seq hash. induction es as [|e es IH]; intros seq hash; [constructor|].
  cbn [linked length]. intros (E & _ & _ & Hc). constructor; [lia|].
  eapply List.Forall_impl; [|by eapply IH]. intros x. simpl. lia.
Qed.

Lemma linked_by_seq seq hash es : linked seq hash es -> by_seq es.
Proof.
  revert seq hash. induction es as [|e es IH]; intros seq hash; [constructor|].
  cbn [linked]. intros (E & _ & _ & Hc). constructor; [by eapply IH|].
  apply linked_bounds in Hc. eapply List.Forall_impl; [|exact Hc]. intros x. simpl. lia.
Qed.

(** Cutting a chain by number is cutting it by length. *)
Lemma upto_take seq hash es s :
  linked seq hash es -> seq <= s -> upto (Some s) es = take (Z.to_nat (s - seq)) es.
Proof.
  revert seq hash. induction es as [|e es IH]; intros seq hash; [by rewrite take_nil|].
  cbn [linked]. intros (E & _ & _ & Hc) Hs. unfold upto in *. cbn [List.filter within]. rewrite E.
  destruct (Z.leb_spec (seq + 1) s).
  - replace (Z.to_nat (s - seq)) with (S (Z.to_nat (s - (seq + 1)))) by lia. simpl. f_equal. eapply IH; [done|lia].
  - replace (Z.to_nat (s - seq)) with O by lia. simpl.
    apply linked_bounds in Hc. clear IH. induction Hc as [|x l Hx _ IHc]; [done|]. simpl.
    destruct (Z.leb_spec (ge_seq x) s); [lia|done].
Qed.

Lemma decoded_seqs rows es : res_map mapLogEnvelope rows = Ok es -> map er_seq rows = map ge_seq es.
Proof.
  rewrite res_map_Ok. induction 1 as [|row e rows es Hd _ IH]; [done|]. simpl. rewrite IH.
  by destruct (decode_fields _ _ Hd) as (_ & _ & -> & _).
Qed.

Lemma decoded_ids rows es : res_map mapLogEnvelope rows = Ok es -> map er_envelope_id rows = eids es.
Proof.
  rewrite res_map_Ok. induction 1 as [|row e rows es Hd _ IH]; [done|]. simpl. rewrite IH.
  by destruct (decode_fields _ _ Hd) as (_ & _ & _ & -> & _).
Qed.

Lemma chain_seqs k seq hash es n :
  chain k seq hash es -> (n < length es)%nat -> In (seq + Z.of_nat n + 1) (map ge_seq es).
Proof.
  revert seq hash n. induction es as [|e es IH]; intros seq hash n; simpl; [lia|].
  intros (_ & E & _ & _ & Hc) Hn. destruct n as [|n]; [left; lia|]. right.
  replace (seq + Z.of_nat (S n) + 1) with (seq + 1 + Z.of_nat n + 1) by lia. eapply IH; [done|lia].
Qed.

(** * Well-formed tables *)

(** The events of a head, chained from its fork point. *)
Definition own_log g (row : LogHeadRow) (es : list GadEnvelope) : Prop :=
  res_map mapLogEnvelope (own g (rkey row)) = Ok es /\ chain (rkey row) (base_seq row) (base_hash row) es.

Definition points_at (row : LogHeadRow) (es : list GadEnvelope) : Prop :=
  row.(hr_current_seq) = base_seq row + Z.of_nat (length es) /\
  row.(hr_current_hash) = end_hash (base_hash row) es.

(** A forked head continues its parent's log from the envelope it names. *)
Definition fork_ok g (row : LogHeadRow) : Prop :=
  match fork_of row with
  | None => row.(hr_fork_seq) = None /\ row.(hr_fork_hash) = None
  | Some (logId, head, s) =>
      exists inherited, log_is g (logId, head) inherited /\ 0 <= s <= Z.of_nat (length inherited) /\
        row.(hr_fork_hash) = Some (end_hash GENESIS_EVENT_HASH (take (Z.to_nat s) inherited))
  end.

Definition row_key (row : LogEventRow) : key := (row.(er_log_id), row.(er_head)).

(** Well formed but for the pointers of the heads of [X], in the middle of an append
    to them. *)
Record wf_but X g : Prop := {
  wb_forest : forest g.(g_heads);
  wb_own : forall row, In row g.(g_heads) -> exists es, own_log g row es;
  wb_points : forall row es, In row g.(g_heads) -> ~ In (rkey row) X -> own_log g row es -> points_at row es;
  wb_orphans : forall row, In row g.(g_events) -> In (row_key row) (map rkey g.(g_heads));
  wb_forks : forall row, In row g.(g_heads) -> fork_ok g row;
  wb_ids : forall k es, log_is g k es -> NoDup (eids es)
}.

(** The tables between two operations. *)
Definition wf_tables g : Prop := wf_but [] g.

Lemma own_absent g k :
  (forall row, In row g.(g_events) -> In (row_key row) (map rkey g.(g_heads))) ->
  head_of g k = None -> own g k = [].
Proof.
  intros Ho Hn%head_of_None. unfold own. destruct (List.filter _ _) as [|r l] eqn:E; [done|]. exfalso. apply Hn.
  assert (Hr : In r (r :: l)) by by left. rewrite <- E in Hr. apply filter_In in Hr as [Hi Hk].
  apply of_log_spec in Hk. rewrite <- Hk. by apply Ho.
Qed.

Lemma own_log_fun g row es es' : own_log g row es -> own_log g row es' -> es = es'.
Proof. intros [E _] [E' _]. congruence. Qed.

(** Every head has a log. *)
Lemma log_total g k :
  forest g.(g_heads) -> (forall row, In row g.(g_heads) -> exists es, own_log g row es) ->
  (forall row, In row g.(g_events) -> In (row_key row) (map rkey g.(g_heads))) -> exists es, log_is g k es.
Proof.
  intros Hf Hown Ho. assert (Hpre : forall n heads1 row heads2, (length heads1 <= n)%nat ->
    g.(g_heads) = heads1 ++ row :: heads2 -> exists es, log_is g (rkey row) es).
  { induction n as [n IH] using lt_wf_ind. intros heads1 row heads2 Hn E.
    assert (Hi : In row g.(g_heads)) by (rewrite E; apply in_app_iff; right; by left).
    destruct (Hown row Hi) as (es & Hm & _). pose proof (In_head_of g row Hf Hi) as Hh.
    destruct (fork_of row) as [[[l h] s]|] eqn:Hfork.
    - rewrite E in Hf. pose proof (forest_parent _ _ _ _ _ _ Hf Hfork) as Hp.
      apply in_map_iff in Hp as (p & Ep & Hip). apply in_split in Hip as (a & b & ->).
      destruct (IH (length a)) with (heads1 := a) (row := p) (heads2 := b ++ row :: heads2) as (pes & Hpes).
      + rewrite length_app in Hn. simpl in Hn. lia.
      + done.
      + by rewrite E, <- app_assoc.
      + rewrite Ep in Hpes. eexists. by eapply log_fork.
    - eexists. by eapply log_root. }
  destruct (head_of g k) as [row|] eqn:Hh.
  - apply head_of_In in Hh as [Hi <-]. apply in_split in Hi as (a & b & E). by eapply (Hpre (length a)).
  - exists []. apply log_absent; [done|]. by apply own_absent.
Qed.

Lemma wf_log X g k : wf_but X g -> exists es, log_is g k es.
Proof. intros []. by apply log_total. Qed.

(** A log is linked from the genesis hash; its head's own part comes last. *)
Lemma log_linked g k es :
  (forall row, In row g.(g_heads) -> exists es, own_log g row es) ->
  (forall row, In row g.(g_heads) -> fork_ok g row) -> log_is g k es ->
  linked 0 GENESIS_EVENT_HASH es /\
  forall row own_es, head_of g k = Some row -> own_log g row own_es ->
    Z.of_nat (length es) = base_seq row + Z.of_nat (length own_es) /\
    end_hash GENESIS_EVENT_HASH es = end_hash (base_hash row) own_es.
Proof.
  intros Hown Hforks. induction 1 as [k Hn Ho|k row es Hh Hf Hm|k row l h s inh es Hh Hf Hp [IH _] Hm].
  - split; [done|]. intros row own_es Hh. congruence.
  - apply head_of_In in Hh as Hi. destruct Hi as [Hi Hk]. destruct (Hown row Hi) as (es' & Hm' & Hc).
    pose proof (Hforks row Hi) as Hfk. unfold fork_ok in Hfk. rewrite Hf in Hfk. destruct Hfk as [E1 E2].
    unfold base_seq, base_hash in *. rewrite E1, E2 in Hc. simpl in Hc. rewrite Hk in Hm'. assert (es' = es) as -> by congruence.
    split; [by eapply chain_linked|]. intros row' own_es Hh' [Hm2 _]. assert (row' = row) as -> by congruence.
    rewrite Hk in Hm2. assert (own_es = es) as -> by congruence. rewrite E1, E2. simpl. split; [lia|done].
  - apply head_of_In in Hh as Hi. destruct Hi as [Hi Hk]. destruct (Hown row Hi) as (es' & Hm' & Hc).
    rewrite Hk in Hm'. assert (es' = es) as -> by congruence.
    pose proof (Hforks row Hi) as Hfk. unfold fork_ok in Hfk. rewrite Hf in Hfk.
    destruct Hfk as (inh' & Hp' & Hs & Eh). assert (inh' = inh) as -> by by eapply log_is_fun.
    assert (Ebase : base_seq row = s /\ base_hash row = end_hash GENESIS_EVENT_HASH (take (Z.to_nat s) inh)).
    { unfold base_seq, base_hash. rewrite Eh. split; [|done]. unfold fork_of in Hf.
      destruct (hr_parent_log_id row), (hr_parent_head row), (hr_fork_seq row); try done.
      destruct (_ || _); [done|]. by injection Hf as _ _ ->. }
    destruct Ebase as [Es Ehash]. rewrite Es, Ehash in Hc.
    rewrite (upto_take 0 GENESIS_EVENT_HASH) by (done || lia). rewrite Z.sub_0_r.
    assert (El : Z.of_nat (length (take (Z.to_nat s) inh)) = s) by (rewrite length_take; lia).
    split.
    + apply linked_app. split; [|rewrite El; by eapply chain_linked].
      rewrite <- (take_drop (Z.to_nat s) inh) in IH. by apply linked_app in IH as [? _].
    + intros row' own_es Hh' [Hm2 _]. assert (row' = row) as -> by congruence.
      rewrite Hk in Hm2. assert (own_es = es) as -> by congruence. rewrite length_app, Es, Ehash. split; [lia|].
      unfold end_hash. rewrite last_app. by destruct (list.last es).
Qed.
End Tables.

(** What adding heads and events does to the logs of the gad store: each log is only
    extended, by the events added under its own head, and the tables stay well formed. *)
Section Grow.
Context {P : Type} {sha : Sha256} {names : Renamed}.
Implicit Types (g : Gad P) (k : key) (X K : list key).

(** Heads and events are only added, and only those of [K]. *)
Record grows K g g' : Prop := {
  gr_heads : exists news, map stem g'.(g_heads) = map stem g.(g_heads) ++ map stem news /\
    Forall is_root news /\ Forall (fun row => In (rkey row) K) news;
  gr_events : exists rows, g'.(g_events) = g.(g_events) ++ rows /\ Forall (fun row => In (row_key row) K) rows;
  gr_frame : forall k, ~ In k K -> head_of g' k = head_of g k
}.

Lemma grows_refl K g : grows K g g.
Proof.
  constructor; [|..|done].
  - exists []. simpl. rewrite app_nil_r. split; [done|]. split; constructor.
  - exists []. rewrite app_nil_r. split; [done|constructor].
Qed.

Lemma grows_trans K g1 g2 g3 : grows K g1 g2 -> grows K g2 g3 -> grows K g1 g3.
Proof.
  intros [(n1 & E1 & R1 & K1) (r1 & F1 & L1) H1] [(n2 & E2 & R2 & K2) (r2 & F2 & L2) H2]. constructor.
  - exists (n1 ++ n2). rewrite E2, E1, map_app, <- app_assoc. split; [done|]. split; by apply Forall_app_2.
  - exists (r1 ++ r2). rewrite F2, F1, <- app_assoc. split; [done|]. by apply Forall_app_2.
  - intros k Hk. by rewrite H2, H1.
Qed.

Lemma grows_mono K K' g g' : (forall k, In k K -> In k K') -> grows K g g' -> grows K' g g'.
Proof.
  intros HK [(n & E & R & L) (r & F & M) H]. constructor.
  - exists n. split; [done|]. split; [done|]. eapply List.Forall_impl; [|exact L]. simpl. auto.
  - exists r. split; [done|]. eapply List.Forall_impl; [|exact M]. simpl. auto.
  - intros k Hk. apply H. auto.
Qed.

Lemma own_events g g' k : g'.(g_events) = g.(g_events) -> own g' k = own g k.
Proof. unfold own. by intros ->. Qed.

Lemma own_suffix g g' k rows :
  g'.(g_events) = g.(g_events) ++ rows -> own g' k = own g k ++ List.filter (of_log k.1 k.2) rows.
Proof. unfold own. intros ->. apply List.filter_app. Qed.

Lemma own_snoc g g' k row :
  g'.(g_events) = g.(g_events) ++ [row] ->
  own g' k = own g k ++ (if of_log k.1 k.2 row then [row] else []).
Proof. apply own_suffix. Qed.

Lemma own_grows K g g' k : grows K g g' -> exists rows, own g' k = own g k ++ rows /\ (~ In k K -> rows = []).
Proof.
  intros [_ (rows & E & HK) _]. exists (List.filter (of_log k.1 k.2) rows). split; [by apply own_suffix|].
  intros Hk. clear E. induction HK as [|row rows Hrow _ IH]; [done|]. simpl.
  destruct (of_log k.1 k.2 row) eqn:Ho; [|done]. apply of_log_spec in Ho. unfold row_key in Hrow.
  rewrite Ho in Hrow. done.
Qed.

(** A head keeps all but its pointer. *)
Lemma grows_head K g g' k row : grows K g g' -> head_of g k = Some row ->
  exists row', head_of g' k = Some row' /\ stem row' = stem row.
Proof.
  intros [(news & E & _) _ _] Hh. pose proof (find_stem k g'.(g_heads)) as Hf. rewrite E, find_app, find_stem in Hf.
  unfold head_of, logHeadRow in *. rewrite Hh in Hf. simpl in Hf.
  destruct (List.find _ (g_heads g')) as [row'|]; [|done]. exists row'. simpl in Hf. split; congruence.
Qed.

Lemma grows_new_head K g g' k row' : grows K g g' -> head_of g k = None -> head_of g' k = Some row' -> is_root row'.
Proof.
  intros [(news & E & Hr & _) _ _] Hn Hh. pose proof (find_stem k g'.(g_heads)) as Hf. rewrite E, find_app, !find_stem in Hf.
  unfold head_of, logHeadRow in *. rewrite Hn, Hh in Hf. simpl in Hf.
  destruct (List.find _ news) as [row|] eqn:En; [|done]. simpl in Hf.
  apply find_some in En as [Hi _]. rewrite List.Forall_forall in Hr. specialize (Hr _ Hi).
  assert (Es : stem row' = stem row) by congruence. apply stem_fields in Es as (E1 & E2 & E3).
  unfold is_root in *. by rewrite E1, E2, E3.
Qed.

(** The conditions on the tables after a change that do not need the logs. *)
Record tables_ok g : Prop := {
  to_forest : forest g.(g_heads);
  to_own : forall row, In row g.(g_heads) -> exists es, own_log g row es;
  to_orphans : forall row, In row g.(g_events) -> In (row_key row) (map rkey g.(g_heads))
}.

Lemma wf_tables_ok X g : wf_but X g -> tables_ok g.
Proof. intros []. by constructor. Qed.

(** Every log is extended by what is added under its head. *)
Lemma log_grows K g g' k es :
  tables_ok g -> (forall row, In row g.(g_heads) -> fork_ok g row) -> tables_ok g' -> grows K g g' ->
  log_is g k es ->
  exists rows new, own g' k = own g k ++ rows /\ res_map mapLogEnvelope rows = Ok new /\
    log_is g' k (es ++ new) /\ linked 0 GENESIS_EVENT_HASH (es ++ new).
Proof.
  intros [Hf Hown Ho] Hforks [Hf' Hown' Ho'] Hg.
  assert (Hsuffix : forall k row es, head_of g k = Some row -> res_map mapLogEnvelope (own g k) = Ok es ->
    exists row' rows new, head_of g' k = Some row' /\ stem row' = stem row /\ own g' k = own g k ++ rows /\
      res_map mapLogEnvelope rows = Ok new /\ res_map mapLogEnvelope (own g' k) = Ok (es ++ new) /\
      chain k (base_seq row) (base_hash row) (es ++ new)).
  { intros k' row es' Hh Hm. destruct (grows_head _ _ _ _ _ Hg Hh) as (row' & Hh' & Es).
    destruct (own_grows _ _ _ k' Hg) as (rows & Eo & _).
    apply head_of_In in Hh' as Hi. destruct Hi as [Hi Hk]. destruct (Hown' row' Hi) as (es2 & Hm2 & Hc).
    rewrite Hk in Hm2, Hc. rewrite Eo, res_map_app, Hm in Hm2. simpl in Hm2.
    apply res_bind_Ok in Hm2 as (new & Hnew & E). apply Ok_inj in E. subst es2.
    destruct (stem_base _ _ Es) as [E1 E2]. rewrite E1, E2 in Hc.
    exists row', rows, new. rewrite Eo. do 4 (split; [done|]). split; [by apply res_map_app_ok|done]. }
  induction 1 as [k Hn Hnil|k row es Hh Hfork Hm|k row l h s inh es Hh Hfork Hp IH Hm].
  - destruct (log_total g' k Hf' Hown' Ho') as (es' & Hl).
    exists (own g' k), es'. rewrite Hnil. split; [done|].
    inversion Hl as [? Hn' Ho2|? row' ? Hh' Hf2 Hm'|? row' ? ? ? ? ? Hh' Hf2]; subst.
    + by rewrite Ho2.
    + split; [done|]. split; [done|]. apply head_of_In in Hh' as Hi. destruct Hi as [Hi Hk].
      destruct (Hown' row' Hi) as (es2 & Hm2 & Hc). rewrite Hk in Hm2. assert (es2 = es') as -> by congruence.
      destruct (grows_new_head _ _ _ _ _ Hg Hn Hh') as (_ & E1 & E2). unfold base_seq, base_hash in Hc.
      rewrite E1, E2 in Hc. simpl in Hc. by eapply chain_linked.
    + destruct (grows_new_head _ _ _ _ _ Hg Hn Hh') as (E1 & _). congruence.
  - destruct (Hsuffix k row es Hh Hm) as (row' & rows & new & Hh' & Es & Eo & Hnew & Hm' & Hc).
    exists rows, new. split; [done|]. split; [done|]. apply stem_fields in Es as (_ & _ & Ef). split.
    + eapply log_root; [exact Hh'|congruence|done].
    + apply head_of_In in Hh as [Hi Hk]. pose proof (Hforks row Hi) as Hfk. unfold fork_ok in Hfk. rewrite Hfork in Hfk.
      destruct Hfk as [E1 E2]. unfold base_seq, base_hash in Hc. rewrite E1, E2 in Hc. by eapply chain_linked.
  - destruct (Hsuffix k row es Hh Hm) as (row' & rows & new & Hh' & Es & Eo & Hnew & Hm' & Hc).
    destruct IH as (prows & pnew & _ & _ & Hpl & Hplinked).
    exists rows, new. split; [done|]. split; [done|]. apply stem_fields in Es as (_ & _ & Ef).
    apply head_of_In in Hh as Hi. destruct Hi as [Hi Hk]. pose proof (Hforks row Hi) as Hfk. unfold fork_ok in Hfk. rewrite Hfork in Hfk.
    destruct Hfk as (inh' & Hp' & Hs & Eh). assert (inh' = inh) as -> by by eapply log_is_fun.
    assert (Hcut : upto (Some s) (inh ++ pnew) = upto (Some s) inh).
    { pose proof Hplinked as Hl. apply linked_app in Hl as [Hl _].
      rewrite (upto_take 0 GENESIS_EVENT_HASH (inh ++ pnew)), (upto_take 0 GENESIS_EVENT_HASH inh) by (done || lia).
      apply take_app_le. lia. }
    rewrite <- app_assoc. split.
    + rewrite <- Hcut. eapply log_fork; [exact Hh'|rewrite Ef; exact Hfork|done|done].
    + assert (Hl : log_is g k (upto (Some s) inh ++ es)) by by eapply log_fork.
      destruct (log_linked g k _ Hown Hforks Hl) as [Hlk Hend].
      destruct (Hend row es Hh) as [Elen Ehash]; [split; [by rewrite Hk|]|].
      { destruct (Hown row Hi) as (es2 & Hm2 & Hc2). rewrite Hk in Hm2. assert (es2 = es) as -> by congruence. done. }
      rewrite app_assoc. apply linked_app. split; [done|]. rewrite Z.add_0_l, Elen, Ehash.
      apply chain_app in Hc as [_ Hc]. by eapply chain_linked.
Qed.

Lemma grows_forks K g g' :
  tables_ok g -> (forall row, In row g.(g_heads) -> fork_ok g row) -> tables_ok g' -> grows K g g' ->
  forall row, In row g'.(g_heads) -> fork_ok g' row.
Proof.
  intros Ht Hforks Ht' Hg row Hi. pose proof (In_head_of g' row (to_forest _ Ht') Hi) as Hh'.
  destruct (head_of g (rkey row)) as [r|] eqn:Hh.
  - destruct (grows_head _ _ _ _ _ Hg Hh) as (row' & Hh2 & Es). assert (row' = row) as -> by congruence.
    apply head_of_In in Hh as [Hir _]. pose proof (Hforks r Hir) as Hfk. unfold fork_ok in *.
    apply stem_fields in Es as (E1 & E2 & E3). rewrite E3. destruct (fork_of r) as [[[l h] s]|]; [|by rewrite E1, E2].
    destruct Hfk as (inh & Hl & Hs & Eh). destruct (log_grows K g g' (l, h) inh) as (rows & new & _ & _ & Hl' & _); [done..|].
    exists (inh ++ new). split; [done|]. split; [rewrite length_app; lia|]. rewrite E2, Eh. do 2 f_equal.
    rewrite take_app_le by lia. done.
  - destruct (grows_new_head _ _ _ _ _ Hg Hh Hh') as (E1 & E2 & E3). unfold fork_ok. by rewrite E1.
Qed.

(** The rule by which a change keeps the tables well formed. *)
Lemma grows_wf X X' K g g' :
  wf_but X g -> tables_ok g' -> grows K g g' ->
  (forall row es, In row g'.(g_heads) -> ~ In (rkey row) X' -> own_log g' row es -> points_at row es) ->
  (forall k es new, log_is g k es -> log_is g' k (es ++ new) -> own g' k <> own g k -> NoDup (eids (es ++ new))) ->
  wf_but X' g'.
Proof.
  intros Hwf Ht' Hg Hpoints Hids. pose proof (wf_tables_ok _ _ Hwf) as Ht. pose proof (wb_forks _ _ Hwf) as Hforks.
  constructor; try apply Ht'; [done|by eapply grows_forks|].
  intros k es' Hl'. destruct (wf_log X g k Hwf) as (es & Hl).
  destruct (log_grows K g g' k es Ht Hforks Ht' Hg Hl) as (rows & new & Eo & Hnew & Hl2 & _).
  assert (es' = es ++ new) as -> by by eapply log_is_fun.
  destruct rows as [|row rows].
  - apply Ok_inj in Hnew as <-. rewrite app_nil_r. by apply (wb_ids _ _ Hwf k).
  - apply (Hids k); [done|done|]. rewrite Eo. intros E. apply (f_equal length) in E. rewrite length_app in E. simpl in E. lia.
Qed.
End Grow.
