(* ===== verification/GadAppendOk.v ===== *)
(** An append to a log of the gad store: the loop over its new events and their
    publications, the move of its head, and what a successful append has done. *)
From S2P Require Import Prelude Dict JsValue JsText JsJson GadCanon GadCanonLaws GadRefs GadRefsLaws.
From S2P Require Import GadLog GadAppend GadLogLaws GadAppendLaws GadTables.
From Stdlib Require Import Sorted.
#[local] Open Scope Z_scope.

Section Appends.
Context {P : Type} {sha : Sha256} {names : Renamed} {schema : EventSchema} {schema_laws : EventSchemaLaws} {proj : LogProjections P}.
Implicit Types (g : Gad P) (k : key) (X K : list key).

(** * Writing a row *)

Lemma blob_refs_same now e refs g :
  g_heads (fold_left (add_blob_ref now e) refs g) = g.(g_heads) /\
  g_events (fold_left (add_blob_ref now e) refs g) = g.(g_events).
Proof.
  revert g. induction refs as [|[path ref] refs IH]; intros g; [done|]. cbn [fold_left].
  destruct (IH (add_blob_ref now e g (path, ref))) as [E1 E2]. by rewrite E1, E2.
Qed.

Lemma insert_spec now g e g' :
  typed_event e.(ge_event) -> insertLogEvent now g e = Ok g' ->
  exists row, mapLogEnvelope row = Ok (env_norm e) /\ g'.(g_heads) = g.(g_heads) /\
    g'.(g_events) = g.(g_events) ++ [row] /\
    existsb (violates_key row) g.(g_events) = false /\ is_undef e.(ge_event).(ev_payload) = false /\
    row_key row = (e.(ge_logId), e.(ge_head)).
Proof.
  intros Ht H. unfold insertLogEvent in H.
  destruct (json_stringify (ev_actor _)) as [actor|] eqn:Ea; [|done].
  destruct (json_stringify (ev_payload _)) as [payload|] eqn:Ep; [|done].
  destruct (existsb _ _) eqn:Hx; [done|]. apply Ok_inj in H.
  exists (event_row e actor payload). split; [by apply decode_row|].
  pose proof (blob_refs_same now e (collectStoredValueRefs (ev_payload (ge_event e)) "$")
    (mkGad g.(g_heads) (g.(g_events) ++ [event_row e actor payload]) g.(g_blobRefs) g.(g_other))) as [Hh He].
  rewrite H in Hh, He. split; [done|]. split; [done|]. split; [done|]. split; [by eapply stringify_payload|]. done.
Qed.

(** An id that the keys of the table let through is not among the head's own. *)
Lemma unique_own g k row es :
  existsb (violates_key row) g.(g_events) = false -> row_key row = k ->
  res_map mapLogEnvelope (own g k) = Ok es -> ~ In row.(er_envelope_id) (eids es).
Proof.
  intros Hx Hk Hm Hi. rewrite <- (decoded_ids _ _ Hm) in Hi. apply in_map_iff in Hi as (r & Er & [Hr Ho]%filter_In).
  apply of_log_spec in Ho. assert (Hv : violates_key row r = true).
  { unfold violates_key. rewrite Er, String.eqb_refl, orb_true_r, andb_true_r. apply orb_true_iff. left.
    apply (of_log_spec (_, _)). rewrite Ho, <- Hk. done. }
  assert (E : existsb (violates_key row) (g_events g) = true) by (apply existsb_exists; eauto). congruence.
Qed.

Lemma insert_wf X K g g' k row0 es0 L e row :
  wf_but X g -> In k X -> In k K -> head_of g k = Some row0 -> own_log g row0 es0 -> log_is g k L ->
  g'.(g_heads) = g.(g_heads) -> g'.(g_events) = g.(g_events) ++ [row] ->
  mapLogEnvelope row = Ok e -> row_key row = k ->
  chain k (base_seq row0) (base_hash row0) (es0 ++ [e]) -> ~ In (e.(ge_event).(ev_envelopeId)) (eids L) ->
  wf_but X g' /\ grows K g g' /\ own_log g' row0 (es0 ++ [e]) /\ log_is g' k (L ++ [e]).
Proof.
  intros Hwf HX HK Hh [Hm Hc] Hl Eh Ee Hdec Hk Hchain Hfresh. apply head_of_In in Hh as Hi. destruct Hi as [Hi Hk0].
  rewrite Hk0 in Hm, Hc.
  assert (Hownk : own g' k = own g k ++ [row]).
  { rewrite (own_snoc g g' k row) by done. by rewrite (proj2 (of_log_spec k row)). }
  assert (Hother : forall k', k' <> k -> own g' k' = own g k').
  { intros k' Hne. rewrite (own_snoc g g' k' row) by done. destruct (of_log k'.1 k'.2 row) eqn:E; [|by rewrite app_nil_r].
    apply of_log_spec in E. unfold row_key in Hk. congruence. }
  assert (Hm' : res_map mapLogEnvelope (own g' k) = Ok (es0 ++ [e])).
  { rewrite Hownk. apply res_map_app_ok; [done|]. simpl. by rewrite Hdec. }
  assert (Ht' : tables_ok g').
  { constructor; rewrite ?Eh; [apply Hwf| |].
    - intros r Hr. destruct (decide (rkey r = k)) as [E|Hne].
      + assert (r = row0) as -> by (pose proof (In_head_of g r (wb_forest _ _ Hwf) Hr); congruence).
        exists (es0 ++ [e]). split; by rewrite Hk0.
      + destruct (wb_own _ _ Hwf r Hr) as (es & Hmr & Hcr). exists es. split; [by rewrite Hother|done].
    - intros r. rewrite Ee, in_app_iff. simpl. intros [Hr|[<-|[]]]; [by eapply wb_orphans|].
      rewrite Hk, <- Hk0. by apply in_map. }
  assert (Hg : grows K g g').
  { constructor.
    - exists []. rewrite Eh, app_nil_r. split; [done|]. split; constructor.
    - exists [row]. split; [done|]. constructor; [by rewrite Hk|constructor].
    - intros k' _. unfold head_of, logHeadRow. by rewrite Eh. }
  destruct (log_grows K g g' k L) as (rows & new & Eo & Hnew & Hl' & _); [by eapply wf_tables_ok|apply Hwf|done|done|done|].
  rewrite Hownk in Eo. apply app_inv_head in Eo as <-. simpl in Hnew. rewrite Hdec in Hnew. apply Ok_inj in Hnew as <-.
  split; [|split; [done|split; [split; by rewrite Hk0|done]]].
  eapply (grows_wf X X K g g'); [done|done|done|..].
  - rewrite Eh. intros r es Hr HrX [Hmr Hcr]. apply (wb_points _ _ Hwf r es Hr HrX).
    assert (Hne : rkey r <> k) by (intros E; apply HrX; by rewrite E). split; [by rewrite <- Hother|done].
  - intros k' es new Hle Hle' Hdiff. destruct (decide (k' = k)) as [->|Hne]; [|by rewrite Hother in Hdiff].
    rewrite (log_is_fun _ _ _ _ Hle' Hl'). unfold eids. rewrite map_app. apply list.NoDup_app.
    split; [by apply (wb_ids _ _ Hwf k)|]. split; [|apply NoDup_singleton].
    intros x Hx ->%list_elem_of_singleton. by apply Hfresh, list_elem_of_In.
Qed.

(** * The loop of an append *)

Definition input_key (input : AppendLogEventInput) : key := (input.(in_logId), input.(in_head)).

(** The declared types of an append, and ids the cycle guard can tell apart. *)
Record typed_append (input : AppendLogEventInput) : Prop := {
  ta_key : clean_key (input_key input);
  ta_events : Forall typed_input input.(in_events);
  ta_channels : Forall (fun i => Forall (fun target => no_nul target.1) i.(la_publish)) input.(in_events)
}.

(** The channels a prepared event is published to. *)
Definition targets (event : PreparedLogEvent) : list key :=
  map (fun target => (target.1, CHANNEL_LOG_HEAD)) event.(pe_publish).

(** In the loop: [row0], [es0] and [L] are the head, its own events and its log when
    the loop started. *)
Record looped X K k row0 es0 L g0 (st : Appending (P := P)) : Prop := {
  lp_wf : wf_but (k :: X) st.(ap_gad);
  lp_head : head_of st.(ap_gad) k = Some row0;
  lp_own : own_log st.(ap_gad) row0 (es0 ++ map env_norm st.(ap_appended));
  lp_log : log_is st.(ap_gad) k (L ++ map env_norm st.(ap_appended));
  lp_seq : st.(ap_seq) = base_seq row0 + Z.of_nat (length (es0 ++ map env_norm st.(ap_appended)));
  lp_hash : st.(ap_prevHash) = end_hash (base_hash row0) (es0 ++ map env_norm st.(ap_appended));
  lp_grows : grows K g0 st.(ap_gad)
}.

(** What the loop needs of publishing: it leaves the log in the middle of the append
    alone. *)
Definition publish_ok (publish : Gad P -> AppendLogEventInput -> res (Gad P * AppendLogEventResult)) k : Prop :=
  forall g row0 input g' result,
    wf_but [k] g -> head_of g k = Some row0 ->
    In (row0.(hr_current_seq) + 1) (map er_seq (own g k)) ->
    typed_append input -> Forall (fun i => i.(la_publish) = []) input.(in_events) ->
    publish g input = Ok (g', result) ->
    wf_but [k] g' /\ grows [input_key input] g g' /\ head_of g' k = Some row0 /\ own g' k = own g k.

Lemma publishes_ok publish now e k targets_ g published g' published' row0 :
  publish_ok publish k -> typed_event e.(ge_event) ->
  Forall (fun target => js_val target.2 /\ no_nul target.1) targets_ ->
  wf_but [k] g -> head_of g k = Some row0 -> In (row0.(hr_current_seq) + 1) (map er_seq (own g k)) ->
  res_foldl (publish_to publish now e) (g, published) targets_ = Ok (g', published') ->
  wf_but [k] g' /\ grows (map (fun target => (target.1, CHANNEL_LOG_HEAD)) targets_) g g' /\
  head_of g' k = Some row0 /\ own g' k = own g k.
Proof.
  intros Hpub Ht Htargets. revert g published. induction Htargets as [|[channelId audience] ts [Ha Hn] _ IH];
    intros g published Hwf Hh Hd H; cbn [res_foldl] in H.
  - apply Ok_inj in H. simplify_eq. split; [done|]. split; [apply grows_refl|done].
  - apply res_bind_Ok in H as ([g1 published1] & H1 & H). unfold publish_to in H1.
    apply res_bind_Ok in H1 as ([g2 result] & H1 & E). apply Ok_inj in E. simpl in E. simplify_eq.
    destruct (publication_typed now e channelId audience Ht Ha) as [Hti Htp].
    assert (Hta : typed_append (publication_input now e channelId audience)).
    { constructor; [|done|by repeat constructor]. split; [done|].
      vm_compute. repeat (split; [discriminate|]). exact I. }
    destruct (Hpub _ _ _ _ _ Hwf Hh Hd Hta Htp H1) as (Hwf1 & Hg1 & Hh1 & Ho1).
    destruct (IH g1 _ Hwf1 Hh1 ltac:(by rewrite Ho1) H) as (Hwf2 & Hg2 & Hh2 & Ho2).
    split; [done|]. split; [|split; [done|congruence]].
    eapply grows_trans; eapply grows_mono; [|exact Hg1| |exact Hg2]; simpl; intros ?; [|tauto].
    intros [<-|[]]. by left.
Qed.

(** A log whose own events did not change did not change. *)
Lemma log_same X X' K g g' k L :
  wf_but X g -> wf_but X' g' -> grows K g g' -> own g' k = own g k -> log_is g k L -> log_is g' k L.
Proof.
  intros Hwf Hwf' Hg Eo Hl. destruct (log_grows K g g' k L) as (rows & new & Eo' & Hnew & Hl' & _);
    [by eapply wf_tables_ok|apply Hwf|by eapply wf_tables_ok|done|done|].
  rewrite Eo in Eo'. rewrite <- (app_nil_r (own g k)) in Eo' at 1. apply app_inv_head in Eo' as <-.
  apply Ok_inj in Hnew as <-. by rewrite app_nil_r in Hl'.
Qed.

(** What an event to append has to satisfy. *)
Record event_ok K (L : list GadEnvelope) (event : PreparedLogEvent) : Prop := {
  eo_typed : typed_event event.(pe_event);
  eo_targets : Forall (fun target => js_val target.2 /\ no_nul target.1) event.(pe_publish);
  eo_written : forall k, In k (targets event) -> In k K;
  eo_fresh : ~ In event.(pe_event).(ev_envelopeId) (eids L)
}.

Lemma append_one_ok publish X K input logKind row0 es0 L g0 st event st' :
  let k := input_key input in
  looped X K k row0 es0 L g0 st -> points_at row0 es0 -> event_ok K L event -> In k K ->
  (event.(pe_publish) = [] \/ (X = [] /\ publish_ok publish k)) ->
  append_one publish input logKind st event = Ok st' ->
  looped X K k row0 es0 L g0 st' /\
  exists e, st'.(ap_appended) = st.(ap_appended) ++ [e] /\ e.(ge_event) = event.(pe_event) /\
    is_undef event.(pe_event).(ev_payload) = false.
Proof.
  intros k [Hwf Hhead Hown Hlog Hseq Hhash Hgrows] [Hcur _] [Ht Hja Htargets Hfresh] HK Hpub H. unfold append_one in H.
  apply res_bind_Ok in H as (u & _ & H). apply res_bind_Ok in H as (g1 & Hins & H).
  apply res_bind_Ok in H as (other & _ & H). apply res_bind_Ok in H as ([g2 published] & Hfold & H).
  apply Ok_inj in H. subst st'. cbn [fst snd] in *.
  set (e := mkGadEnvelope _ _ _ _ _ _) in *.
  destruct (insert_spec _ _ e _ Ht Hins) as (row & Hdec & Eh & Ee & Hx & Hu & Ek).
  change (row_key row = k) in Ek. apply head_of_In in Hhead as Hi. destruct Hi as [_ Hk0].
  pose proof Hown as [Hm Hchain]. rewrite Hk0 in Hm, Hchain.
  destruct (insert_wf (k :: X) K (ap_gad st) (with_other other g1) k row0
              (es0 ++ map env_norm (ap_appended st)) (L ++ map env_norm (ap_appended st)) (env_norm e) row Hwf) as (Hwf1 & Hg1 & Hown1 & Hlog1);
    [by left|done|done|exact Hown|exact Hlog|done|done|done|done|..].
  { apply chain_app. split; [done|]. cbn [chain]. rewrite <- Hseq, <- Hhash. split; [done|]. split; [done|].
    split; [done|]. split; [|done]. left. by rewrite envelope_hash_norm. }
  { intros Hin. unfold eids in Hin. rewrite map_app in Hin. apply in_app_iff in Hin as [Hin|Hin]; [done|].
    apply (unique_own _ _ _ _ Hx Ek Hm). destruct (decode_fields _ _ Hdec) as (_ & _ & _ & <- & _).
    unfold eids. rewrite map_app. apply in_app_iff. by right. }
  set (g1' := with_other other g1) in *.
  assert (Hhead1 : head_of g1' k = Some row0) by (unfold head_of, logHeadRow; cbn [g1' with_other g_heads]; by rewrite Eh).
  assert (Hall : own g2 k = own g1' k /\ wf_but (k :: X) g2 /\ head_of g2 k = Some row0 /\ grows K g1' g2).
  { destruct Hpub as [Hnil|[-> Hok]].
    - rewrite Hnil in Hfold. simpl in Hfold. apply Ok_inj in Hfold. injection Hfold as <- <-.
      split; [done|]. split; [done|]. split; [done|]. apply grows_refl.
    - destruct Hown1 as [Hm1 Hc1]. rewrite Hk0 in Hm1, Hc1.
      assert (Hd : In (row0.(hr_current_seq) + 1) (map er_seq (own g1' k))).
      { rewrite (decoded_seqs _ _ Hm1), Hcur. apply (chain_seqs k _ _ _ (length es0) Hc1).
        rewrite !length_app. simpl. lia. }
      destruct (publishes_ok publish (in_now input) e k _ _ _ _ _ _ Hok Ht Hja Hwf1 Hhead1 Hd Hfold) as (A & B & C & D).
      split; [done|]. split; [done|]. split; [done|]. by eapply grows_mono. }
  destruct Hall as (Hown2 & Hwf2 & Hhead2 & Hgrows2). split.
  - constructor; cbn [ap_gad ap_seq ap_prevHash ap_appended]; rewrite ?map_app; cbn [map]; rewrite ?app_assoc; try done.
    + destruct Hown1 as [Hm1 Hc1]. split; [by rewrite Hk0 in *; rewrite Hown2|done].
    + by eapply (log_same _ _ K g1' g2).
    + rewrite length_app. simpl. rewrite Hseq. lia.
    + by rewrite end_hash_snoc.
    + eapply grows_trans; [exact Hgrows|]. by eapply grows_trans.
  - by exists e.
Qed.

Lemma loop_ok publish X K input logKind row0 es0 L g0 remaining st st' :
  let k := input_key input in
  looped X K k row0 es0 L g0 st -> points_at row0 es0 -> Forall (event_ok K L) remaining -> In k K ->
  (Forall (fun event => event.(pe_publish) = []) remaining \/ (X = [] /\ publish_ok publish k)) ->
  res_foldl (append_one publish input logKind) st remaining = Ok st' ->
  looped X K k row0 es0 L g0 st' /\
  exists new, st'.(ap_appended) = st.(ap_appended) ++ new /\ map ge_event new = map pe_event remaining /\
    Forall (fun e => is_undef e.(ge_event).(ev_payload) = false) new.
Proof.
  intros k Hl Hcur Hev HK. revert st Hl. induction Hev as [|event remaining He _ IH]; intros st Hl Hpub H.
  - apply Ok_inj in H as <-. split; [done|]. exists []. by rewrite app_nil_r.
  - cbn [res_foldl] in H. apply res_bind_Ok in H as (st1 & H1 & H).
    destruct (append_one_ok publish X K input logKind row0 es0 L g0 st event st1) as [Hl1 (e & Ea & Ee & Hu)]; try done.
    { destruct Hpub as [Hp|Hp]; [|by right]. left. by apply list.Forall_cons in Hp as [? _]. }
    destruct (IH st1 Hl1) as [Hl2 (new & En & Em & Hn)]; [|done|].
    { destruct Hpub as [Hp|Hp]; [|by right]. left. by apply list.Forall_cons in Hp as [_ ?]. }
    split; [done|]. exists (e :: new). rewrite En, Ea, <- app_assoc. split; [done|]. simpl. rewrite Ee, Em.
    split; [done|]. constructor; [by rewrite Ee|done].
Qed.

(** * Moving the head *)

Lemma find_map_heads k (f : LogHeadRow -> LogHeadRow) heads :
  (forall row, rkey (f row) = rkey row) ->
  List.find (is_head k.1 k.2) (map f heads) = option_map f (List.find (is_head k.1 k.2) heads).
Proof.
  intros Hf. assert (E : forall row, is_head k.1 k.2 (f row) = is_head k.1 k.2 row).
  { intros row. apply eq_true_iff_eq. by rewrite !is_head_spec, Hf. }
  induction heads as [|row heads IH]; [done|]. simpl. rewrite E. by destruct (is_head k.1 k.2 row).
Qed.

(** A head moved to the last of some envelopes. *)
Definition moved_to (es : list GadEnvelope) (row : LogHeadRow) : LogHeadRow :=
  match list.last es with Some e => set_pointer e row | None => row end.

Lemma advance_map k appended g :
  advance_head k.1 k.2 appended g
  = with_heads (map (fun row => if is_head k.1 k.2 row then moved_to appended row else row) g.(g_heads)) g.
Proof.
  unfold advance_head, moved_to. destruct (list.last appended); [done|]. destruct g as [heads ? ? ?].
  unfold with_heads. simpl. f_equal. symmetry. rewrite <- (map_id heads) at 2. apply map_ext. intros row. by destruct (is_head _ _ row).
Qed.

Lemma moved_stem es row : stem (moved_to es row) = stem row.
Proof. unfold moved_to. by destruct (list.last es). Qed.

Lemma moved_kind es row : (moved_to es row).(hr_log_kind) = row.(hr_log_kind).
Proof. unfold moved_to. by destruct (list.last es). Qed.

Lemma moved_points es0 new row k :
  points_at row es0 -> chain k (base_seq row) (base_hash row) (es0 ++ map env_norm new) ->
  points_at (moved_to new row) (es0 ++ map env_norm new).
Proof.
  intros Hp Hc. unfold points_at. destruct (stem_base _ _ (moved_stem new row)) as [-> ->].
  unfold moved_to. destruct new as [|e l _] using rev_ind; [by rewrite app_nil_r|].
  rewrite last_snoc, map_app, app_assoc in *. cbn [map set_pointer hr_current_seq hr_current_hash] in *.
  rewrite end_hash_snoc. split; [|done]. apply chain_app in Hc as [_ (_ & Hs & _)]. simpl in Hs. rewrite Hs.
  rewrite (length_app (es0 ++ _)). simpl. lia.
Qed.

(** A change of pointers changes no log. *)
Lemma pointers_grow K g heads :
  map stem heads = map stem g.(g_heads) -> (forall k, ~ In k K -> head_of (with_heads heads g) k = head_of g k) ->
  grows K g (with_heads heads g).
Proof.
  intros E Hf. constructor; cbn [with_heads g_heads g_events]; [| |done].
  - exists []. rewrite app_nil_r. split; [done|]. split; constructor.
  - exists []. rewrite app_nil_r. split; [done|constructor].
Qed.

Lemma advance_ok X K k row0 es0 L g0 st :
  looped X K k row0 es0 L g0 st -> In k K -> points_at row0 es0 ->
  let g' := advance_head k.1 k.2 st.(ap_appended) st.(ap_gad) in
  wf_but X g' /\ grows K g0 g' /\ own g' k = own st.(ap_gad) k /\
  log_is g' k (L ++ map env_norm st.(ap_appended)) /\ head_of g' k = Some (moved_to st.(ap_appended) row0).
Proof.
  intros [Hwf Hhead Hown Hlog _ _ Hgrows] HK Hpoints. cbn zeta. rewrite advance_map.
  set (f := fun row => if is_head k.1 k.2 row then moved_to (ap_appended st) row else row).
  assert (Hstem : forall row, stem (f row) = stem row).
  { intros row. unfold f. destruct (is_head _ _ row); [apply moved_stem|done]. }
  assert (Hkey : forall row, rkey (f row) = rkey row) by (intros row; apply stem_rkey, Hstem).
  set (g' := with_heads (map f (ap_gad st).(g_heads)) (ap_gad st)).
  assert (Hstems : map stem g'.(g_heads) = map stem (ap_gad st).(g_heads)) by (cbn; rewrite map_map; by apply map_ext).
  assert (Hfind : forall k', head_of g' k' = option_map f (head_of (ap_gad st) k')).
  { intros k'. unfold head_of, logHeadRow. cbn [g' with_heads g_heads]. by apply find_map_heads. }
  assert (Hg : grows K (ap_gad st) g').
  { apply pointers_grow; [done|]. intros k' Hk'. change (head_of g' k' = head_of (ap_gad st) k'). rewrite Hfind.
    destruct (head_of (ap_gad st) k') as [row|] eqn:E; [|done]. simpl. f_equal. unfold f.
    apply head_of_In in E as [_ E]. destruct (is_head k.1 k.2 row) eqn:E2; [|done]. apply is_head_spec in E2. congruence. }
  assert (Hownk : forall row, own_log g' (f row) = own_log (ap_gad st) row).
  { intros row. unfold own_log. rewrite Hkey. by destruct (stem_base _ _ (Hstem row)) as [-> ->]. }
  assert (Ht' : tables_ok g').
  { constructor.
    - apply forest_stem. rewrite Hstems. apply forest_stem, Hwf.
    - intros row (r & <- & Hr)%in_map_iff. rewrite Hownk. by apply (wb_own _ _ Hwf).
    - intros row Hr. rewrite <- map_stem_keys, Hstems, map_stem_keys. by apply (wb_orphans _ _ Hwf). }
  assert (Hwf' : wf_but X g').
  { eapply (grows_wf (k :: X) X K (ap_gad st) g'); [done|done|done|..|intros ? ? ? _ _ []; done].
    intros row es (r & <- & Hr)%in_map_iff HrX Hes. rewrite Hownk in Hes. rewrite Hkey in HrX. unfold f.
    destruct (is_head k.1 k.2 r) eqn:E.
    - apply is_head_spec in E. assert (r = row0) as ->.
      { pose proof (In_head_of _ r (wb_forest _ _ Hwf) Hr) as Hh. congruence. }
      rewrite (own_log_fun _ _ _ _ Hes Hown). eapply moved_points; [done|apply Hown].
    - apply (wb_points _ _ Hwf r es Hr); [|done]. intros [Ek|Hx]; [|done].
      rewrite (proj2 (is_head_spec k r)) in E by done. done. }
  split; [done|]. split; [by eapply grows_trans|]. split; [done|]. split.
  - by eapply (log_same _ _ K (ap_gad st) g').
  - rewrite Hfind, Hhead. simpl. unfold f. apply head_of_In in Hhead as [_ Hr]. by rewrite (proj2 (is_head_spec k row0)).
Qed.

(** * One append *)

(** The logs an append may write to. *)
Definition written (input : AppendLogEventInput) : list key :=
  input_key input ::
  flat_map (fun i => map (fun target => (target.1, CHANNEL_LOG_HEAD)) i.(la_publish)) input.(in_events).

Definition by_id (input : AppendLogEventInput) : bool :=
  bool_decide (input.(in_idempotency) = Some "idempotent-by-id").

(** What a successful append has done: [prepared] are its events, [replayed] those in
    the log already, [new] the others, [L] the log it found. *)
Record appended_to g (input : AppendLogEventInput) g' (result : AppendLogEventResult)
    (prepared : list PreparedLogEvent) (replayed new L : list GadEnvelope) : Prop := {
  at_prepared : res_map (prepareLogEvent g input.(in_logKind)) input.(in_events) = Ok prepared;
  at_replayed :
    if isSome (head_of g (input_key input))
    then replay_prefix g input.(in_logId) input.(in_head) (by_id input) prepared = Ok replayed
         /\ check_suffix g input.(in_logId) input.(in_head) (length replayed) (length prepared)
              (drop (length replayed) prepared) = Ok tt
    else replayed = [];
  at_checked : check_head input replayed (drop (length replayed) prepared)
                 (headPointer g input.(in_logId) input.(in_head)) = Ok tt;
  at_log : log_is g (input_key input) L;
  at_log' : log_is g' (input_key input) (L ++ map env_norm new);
  at_new : map ge_event new = map pe_event (drop (length replayed) prepared);
  at_defined : Forall (fun e => is_undef e.(ge_event).(ev_payload) = false) new;
  at_result : result.(ar_envelopes) = replayed ++ new;
  at_head : exists row, head_of g' (input_key input) = Some row /\ row.(hr_log_kind) = input.(in_logKind) /\
    result.(ar_headSeq) = row.(hr_current_seq) /\ result.(ar_headHash) = row.(hr_current_hash)
}.

(** A lookup by id finds nothing exactly when no envelope of the log has the id. *)
Lemma lookup_none X g k L id :
  wf_but X g -> log_is g k L -> lineageEventRow g k.1 k.2 id = Ok None -> ~ In id (eids L).
Proof.
  intros Hwf Hl H. destruct (lineage_shows g k L (wb_forest _ _ Hwf) Hl) as (segments & Hs & Hshows).
  unfold lineageEventRow in H. rewrite Hs in H. cbn [res_bind] in H. apply Ok_inj in H.
  pose proof (find_segment_spec g (fun row => row.(er_envelope_id) =s? id)
    (fun e => e.(ge_event).(ev_envelopeId) =s? id) segments L) as Hf. rewrite H in Hf.
  assert (Hall : Forall (fun e => (e.(ge_event).(ev_envelopeId) =s? id) = false) L).
  { apply Hf; [|done]. intros row e Hd. by destruct (decode_fields _ _ Hd) as (_ & _ & _ & -> & _). }
  intros (e & Ee & Hi)%in_map_iff. rewrite List.Forall_forall in Hall. specialize (Hall _ Hi). simpl in Hall.
  by rewrite Ee, String.eqb_refl in Hall.
Qed.

Lemma suffix_fresh X g k L replayed total suffix :
  wf_but X g -> log_is g k L -> check_suffix g k.1 k.2 replayed total suffix = Ok tt ->
  Forall (fun event => ~ In event.(pe_event).(ev_envelopeId) (eids L)) suffix.
Proof.
  intros Hwf Hl. induction suffix as [|event suffix IH]; intros H; [constructor|]. cbn [check_suffix] in H.
  apply res_bind_Ok in H as (existing & Hr & H). destruct existing; [done|]. constructor; [by eapply lookup_none|auto].
Qed.

Lemma prepared_ok g logKind input prepared :
  typed_append input -> res_map (prepareLogEvent g logKind) input.(in_events) = Ok prepared ->
  Forall (fun event => typed_event event.(pe_event) /\
                       Forall (fun target => js_val target.2 /\ no_nul target.1) event.(pe_publish) /\
                       (forall k, In k (targets event) -> In k (written input)) /\
                       exists i, In i input.(in_events) /\ event.(pe_publish) = i.(la_publish)) prepared.
Proof.
  intros [_ Ht Hc] H. apply List.Forall_forall. intros event He.
  destruct (res_map_In_inv _ _ _ _ H He) as (i & Hp & Hi). rewrite List.Forall_forall in Ht, Hc.
  destruct (prepared_typed g logKind i event (Ht i Hi) Hp) as [Hte Epub]. split; [done|]. rewrite Epub.
  split; [|split; [|eauto]].
  - pose proof (ti_publish _ (Ht i Hi)) as H1. specialize (Hc i Hi). rewrite List.Forall_forall in H1, Hc |- *. auto.
  - intros k Hk. right. apply in_flat_map. exists i. split; [done|]. unfold targets in Hk. by rewrite Epub in Hk.
Qed.

(** The head an append starts from: the one there is, or a new one. *)
Lemma start_ok X g input logKind :
  let k := input_key input in
  let g1 := if isSome (head_of g k) then g else with_heads (g.(g_heads) ++ [new_head input logKind]) g in
  wf_but X g -> ~ In k X -> clean_key k ->
  exists row0 es0 L, wf_but X g1 /\ head_of g1 k = Some row0 /\ own_log g1 row0 es0 /\ points_at row0 es0 /\
    log_is g k L /\ log_is g1 k L /\ grows (written input) g g1 /\ headPointer g1 k.1 k.2 = headPointer g k.1 k.2.
Proof.
  intros k g1 Hwf HX Hck. destruct (wf_log X g k Hwf) as (L & HL). destruct (head_of g k) as [row0|] eqn:Hh; cbn [isSome] in g1.
  - apply head_of_In in Hh as Hi. destruct Hi as [Hi Hk]. destruct (wb_own _ _ Hwf row0 Hi) as (es0 & Hes).
    exists row0, es0, L. do 3 (split; [done|]). split; [apply (wb_points _ _ Hwf); [done|by rewrite Hk|done]|].
    do 2 (split; [done|]). split; [apply grows_refl|done].
  - assert (Hkey : rkey (new_head input logKind) = k) by done.
    assert (Hfind : head_of g1 k = Some (new_head input logKind)).
    { unfold head_of, logHeadRow in *. unfold g1. cbn [with_heads g_heads]. rewrite find_app, Hh. cbn [List.find].
      by rewrite (proj2 (is_head_spec k (new_head input logKind))). }
    assert (Hg : grows (written input) g g1).
    { constructor; unfold g1; cbn [with_heads g_heads g_events].
      - exists [new_head input logKind]. rewrite map_app. split; [done|]. split; (constructor; [|constructor]); [done|by left].
      - exists []. rewrite app_nil_r. split; [done|constructor].
      - intros k' Hk'. unfold head_of, logHeadRow. cbn [with_heads g_heads]. rewrite find_app.
        destruct (List.find _ (g_heads g)) as [r|] eqn:E; [done|]. simpl.
        destruct (is_head k'.1 k'.2 (new_head input logKind)) eqn:E2; [|done].
        apply is_head_spec in E2. rewrite Hkey in E2. destruct Hk'. by left. }
    assert (Hnil : own g k = []) by (apply own_absent; [apply Hwf|done]).
    assert (Ht' : tables_ok g1).
    { constructor; unfold g1; cbn [with_heads g_heads g_events].
      - apply forest_extend; [apply Hwf| |constructor; [by split|constructor]]. rewrite map_app. apply list.NoDup_app.
        split; [apply forest_NoDup, Hwf|]. split; [|apply NoDup_singleton].
        intros x Hx ->%list_elem_of_singleton. apply head_of_None in Hh. by apply Hh, list_elem_of_In.
      - intros r [Hr|[<-|[]]]%in_app_iff; [by apply (wb_own _ _ Hwf)|]. exists []. unfold own_log. rewrite Hkey.
        change (own _ k) with (own g k). by rewrite Hnil.
      - intros r Hr. rewrite map_app, in_app_iff. left. by apply (wb_orphans _ _ Hwf). }
    assert (Hwf1 : wf_but X g1).
    { eapply (grows_wf X X _ g g1); [done|done|exact Hg|..|intros ? ? ? _ _ []; done].
      unfold g1. cbn [with_heads g_heads]. intros r es [Hr|[<-|[]]]%in_app_iff HrX Hes; [by apply (wb_points _ _ Hwf)|].
      destruct Hes as [Hm _]. rewrite Hkey in Hm. change (own _ k) with (own g k) in Hm. rewrite Hnil in Hm.
      apply Ok_inj in Hm as <-. done. }
    exists (new_head input logKind), [], L. split; [done|]. split; [done|]. split.
    { unfold own_log. rewrite Hkey. change (own _ k) with (own g k). by rewrite Hnil. }
    split; [done|]. split; [done|]. split; [by eapply (log_same _ _ _ g g1)|]. split; [done|].
    unfold headPointer. unfold head_of in Hfind, Hh. by rewrite Hfind, Hh.
Qed.
Lemma wf_weaken X X' g : (forall k, In k X -> In k X') -> wf_but X g -> wf_but X' g.
Proof. intros HX [A B C D E F]. constructor; try done. intros row es Hi Hx. apply C; auto. Qed.

Lemma written_flat input :
  Forall (fun i => i.(la_publish) = []) input.(in_events) -> written input = [input_key input].
Proof. intros Hf. unfold written. f_equal. induction Hf as [|i l Hi _ IH]; [done|]. simpl. by rewrite Hi. Qed.

(** The events of an append that are not replays can be appended. *)
Lemma remaining_ok X g logKind input prepared (replayed : list GadEnvelope) total L :
  typed_append input -> wf_but X g -> log_is g (input_key input) L ->
  res_map (prepareLogEvent g logKind) input.(in_events) = Ok prepared ->
  (if isSome (head_of g (input_key input))
   then check_suffix g input.(in_logId) input.(in_head) (length replayed) total (drop (length replayed) prepared)
   else Ok tt) = Ok tt ->
  Forall (event_ok (written input) L) (drop (length replayed) prepared) /\
  (Forall (fun i => i.(la_publish) = []) input.(in_events) ->
   Forall (fun event => event.(pe_publish) = []) (drop (length replayed) prepared)).
Proof.
  intros Ht Hwf Hl Hp Hs. pose proof (prepared_ok _ _ _ _ Ht Hp) as Hall.
  assert (Hfresh : Forall (fun event => ~ In event.(pe_event).(ev_envelopeId) (eids L)) (drop (length replayed) prepared)).
  { destruct (head_of g (input_key input)) as [row|] eqn:Hh; cbn [isSome] in Hs.
    - by eapply (suffix_fresh X g (input_key input)).
    - assert (L = []) as -> by by inversion Hl; congruence. apply List.Forall_forall. intros ? _ []. }
  rewrite <- (take_drop (length replayed) prepared) in Hall. apply list.Forall_app in Hall as [_ Hall]. split.
  - apply List.Forall_forall. intros event He. rewrite List.Forall_forall in Hall, Hfresh.
    destruct (Hall _ He) as (A & B & C & _). constructor; [done|done|done|by apply Hfresh].
  - intros Hf. eapply List.Forall_impl; [|exact Hall]. intros event (_ & _ & _ & i & Hi & ->).
    rewrite List.Forall_forall in Hf. by apply Hf.
Qed.

(** The head keeps the kind the append names. *)
Lemma start_kind g input logKind row0 :
  match head_of g (input_key input) with
  | None => Ok input.(in_logKind)
  | Some row =>
      if row.(hr_log_kind) <>s? input.(in_logKind)
      then Throw ("log kind mismatch for " ^^ (input_key input).1 ^^ ":" ^^ (input_key input).2 ^^ ": "
                  ^^ row.(hr_log_kind) ^^ " != " ^^ input.(in_logKind))
      else Ok row.(hr_log_kind)
  end = Ok logKind ->
  head_of (if isSome (head_of g (input_key input)) then g
           else with_heads (g.(g_heads) ++ [new_head input logKind]) g) (input_key input) = Some row0 ->
  logKind = input.(in_logKind) /\ row0.(hr_log_kind) = input.(in_logKind).
Proof.
  intros Hkind Hh1. destruct (head_of g (input_key input)) as [r|] eqn:Hh; cbn [isSome] in Hh1.
  - destruct (_ <>s? _) eqn:E in Hkind; [done|]. apply Ok_inj in Hkind. apply negb_false_iff, String.eqb_eq in E.
    rewrite Hh in Hh1. split; congruence.
  - apply Ok_inj in Hkind as <-. split; [done|]. unfold head_of, logHeadRow in Hh, Hh1.
    cbn [with_heads g_heads] in Hh1. rewrite find_app, Hh in Hh1. cbn [List.find] in Hh1.
    destruct (is_head _ _ _); [|done]. by injection Hh1 as <-.
Qed.

Lemma body_ok publish X g input g' result :
  wf_but X g -> ~ In (input_key input) X -> typed_append input ->
  (Forall (fun i => i.(la_publish) = []) input.(in_events) \/ (X = [] /\ publish_ok publish (input_key input))) ->
  append_body publish g input = Ok (g', result) ->
  wf_but X g' /\ grows (written input) g g' /\
  exists prepared replayed new L, appended_to g input g' result prepared replayed new L.
Proof.
  intros Hwf HX Htyped Hpub H. unfold append_body in H.
  destruct (in_logId input =s? "") eqn:El; [done|]. destruct (in_head input =s? "") eqn:Eh; [done|].
  destruct (bool_decide _); [done|].
  apply res_bind_Ok in H as (logKind & Hkind & H). apply res_bind_Ok in H as (prepared & Hprep & H).
  apply res_bind_Ok in H as (replayed & Hrep & H). apply res_bind_Ok in H as ([] & Hsuf & H).
  apply res_bind_Ok in H as ([] & Hcheck & H). apply res_bind_Ok in H as (st & Hloop & H). apply Ok_inj in H.
  pose proof (start_ok X g input logKind Hwf HX (ta_key _ Htyped)) as Hstart. cbn zeta in Hstart.
  set (k := input_key input) in *. change (in_logId input) with k.1 in *. change (in_head input) with k.2 in *.
  change (logHeadRow g k.1 k.2) with (head_of g k) in *.
  set (g1 := if isSome (head_of g k) then g else _) in *.
  destruct Hstart as (row0 & es0 & L & Hwf1 & Hh1 & Hown1 & Hpoints & HL & HL1 & Hg1 & Hptr).
  destruct (start_kind g input logKind row0 Hkind Hh1) as [-> Hrowkind].
  destruct (remaining_ok X g (in_logKind input) input prepared replayed _ L Htyped Hwf HL Hprep Hsuf) as [Hev Hnone].
  assert (Hk : In k (written input)) by by left.
  match type of Hloop with res_foldl _ ?st0 _ = _ =>
    destruct (loop_ok publish X (written input) input (in_logKind input) row0 es0 L g (drop (length replayed) prepared) st0 st)
      as [Hlooped (new & En & Em & Hn)]; [|done|done|done|destruct Hpub; auto|exact Hloop|] end.
  { assert (Ep : headPointer g1 k.1 k.2 = mkHeadPointer row0.(hr_current_seq) row0.(hr_current_hash) row0.(hr_current_envelope_id)).
    { unfold headPointer. unfold head_of in Hh1. by rewrite Hh1. }
    rewrite Ep. destruct Hpoints as [Hs Hh]. constructor; cbn [ap_gad ap_seq ap_prevHash ap_appended map hp_seq hp_hash]; rewrite ?app_nil_r; try done.
    eapply wf_weaken; [|exact Hwf1]. intros ? ?. by right. }
  simpl in En. subst new.
  destruct (advance_ok X (written input) k row0 es0 L g st Hlooped Hk Hpoints) as (Hwf' & Hgrows' & _ & Hlog' & Hhead').
  injection H as Hg' Hr. change (in_logId input) with k.1 in *. change (in_head input) with k.2 in *. rewrite Hg' in *.
  split; [done|]. split; [done|]. exists prepared, replayed, (ap_appended st), L. subst result. constructor; try done.
  - change (input_key input) with k. destruct (isSome (head_of g k)); [done|]. by apply Ok_inj in Hrep as <-.
  - change (in_logId input) with k.1. change (in_head input) with k.2. by rewrite <- Hptr.
  - eexists. split; [exact Hhead'|]. split; [by rewrite moved_kind|]. cbn [ar_headSeq ar_headHash]. unfold headPointer.
    unfold head_of in Hhead'. rewrite Hhead'. done.
Qed.

(** * Publications *)

Lemma insert_clash now g e row :
  In row g.(g_events) -> row_key row = (e.(ge_logId), e.(ge_head)) -> row.(er_seq) = e.(ge_seq) ->
  res_ok (insertLogEvent now g e) = false.
Proof.
  intros Hi Hk Hs. unfold insertLogEvent. destruct (json_stringify _) as [a|]; [|done].
  destruct (json_stringify _) as [p|]; [|done].
  assert (E : existsb (violates_key (event_row e a p)) (g_events g) = true); [|by rewrite E].
  apply existsb_exists. exists row. split; [done|]. unfold violates_key. cbn [event_row er_log_id er_head er_seq].
  injection Hk as E1 E2. unfold of_log. by rewrite E1, E2, Hs, !String.eqb_refl, Z.eqb_refl.
Qed.

(** A publication to the log that is in the middle of an append finds the number it
    would take taken: it changes nothing or throws. *)
Lemma dirty_unchanged publish g input row0 g' result :
  head_of g (input_key input) = Some row0 ->
  In (row0.(hr_current_seq) + 1) (map er_seq (own g (input_key input))) ->
  append_body publish g input = Ok (g', result) -> g' = g.
Proof.
  intros Hh Hd H. unfold append_body in H. unfold head_of in Hh. cbn [input_key fst snd] in Hh, Hd.
  destruct (in_logId input =s? "") eqn:El; [done|]. destruct (in_head input =s? "") eqn:Eh; [done|].
  destruct (bool_decide _); [done|].
  apply res_bind_Ok in H as (logKind & _ & H). apply res_bind_Ok in H as (prepared & _ & H).
  apply res_bind_Ok in H as (replayed & _ & H). apply res_bind_Ok in H as ([] & _ & H).
  apply res_bind_Ok in H as ([] & _ & H). apply res_bind_Ok in H as (st & Hloop & H). apply Ok_inj in H.
  rewrite Hh in Hloop. cbn [isSome] in Hloop.
  destruct (drop (length replayed) prepared) as [|event rest].
  - cbn [res_foldl] in Hloop. apply Ok_inj in Hloop as <-. by injection H as <- _.
  - exfalso. cbn [res_foldl] in Hloop. apply res_bind_Ok in Hloop as (st1 & H1 & _). unfold append_one in H1.
    apply res_bind_Ok in H1 as (u & _ & H1). apply res_bind_Ok in H1 as (g2 & Hins & _).
    apply in_map_iff in Hd as (row & Es & [Hi Hk]%filter_In). apply (of_log_spec (_, _)) in Hk.
    cbn [ap_gad ap_seq] in Hins.
    match type of Hins with insertLogEvent ?now _ ?e = _ => pose proof (insert_clash now g e row Hi) as Hc end.
    rewrite Hins in Hc. cbn [ge_logId ge_head ge_seq] in Hc. unfold headPointer in Hc. rewrite Hh in Hc.
    discriminate (Hc Hk Es).
Qed.

Lemma flat_publish_ok publish k : publish_ok (append_body publish) k.
Proof.
  intros g row0 input g' result Hwf Hh Hd Ht Hf H. destruct (decide (input_key input = k)) as [<-|Hk].
  - rewrite (dirty_unchanged _ _ _ _ _ _ Hh Hd H). split; [done|]. split; [apply grows_refl|done].
  - assert (HX : ~ In (input_key input) [k]) by (intros [E|[]]; congruence).
    destruct (body_ok publish [k] g input g' result Hwf HX Ht (or_introl Hf) H) as (Hwf' & Hg & _).
    rewrite (written_flat input Hf) in Hg. split; [done|]. split; [done|].
    assert (HX' : ~ In k [input_key input]) by (intros [E|[]]; congruence). split.
    + rewrite (gr_frame _ _ _ Hg k HX'). done.
    + destruct (own_grows _ _ _ k Hg) as (rows & E & Hr). by rewrite E, Hr, app_nil_r.
Qed.

Lemma append_ok g input g' result :
  wf_tables g -> typed_append input -> appendLogEvent g input = Ok (g', result) ->
  wf_tables g' /\ grows (written input) g g' /\
  exists prepared replayed new L, appended_to g input g' result prepared replayed new L.
Proof.
  intros Hwf Ht H. apply (body_ok (appendLogEventInTxn 1) [] g input g' result); [done|intros []|done| |exact H].
  right. split; [done|]. apply flat_publish_ok.
Qed.
End Appends.
