(* ===== verification/GadForks.v ===== *)
(** Forking and deleting logs of the gad store: a fork shows the log it was made from up
    to the fork point and nothing else changes; a head nothing was forked from can be
    dropped; and well-formed tables pass the integrity check. *)
From S2P Require Import Prelude Dict JsValue JsText JsJson GadCanon GadCanonLaws GadRefs GadRefsLaws.
From S2P Require Import GadLog GadAppend GadLogLaws GadAppendLaws GadTables.
From Stdlib Require Import Sorted.
#[local] Open Scope Z_scope.

Section Forks.
Context {P : Type} {sha : Sha256} {names : Renamed}.
Implicit Types (g : Gad P) (k : key) (X K : list key).

(** * Rows in order *)

Lemma own_log_sorted g k es : res_map mapLogEnvelope (own g k) = Ok es -> by_seq es ->
  StronglySorted (fun a b => row_seq_le a b = true) (own g k).
Proof.
  rewrite res_map_Ok. generalize (own g k). intros rows Hm. induction Hm as [|row e rows es Hd Hm IH]; intros Hs; [constructor|].
  inversion Hs as [|? ? Hs' Hlt]; subst. constructor; [by apply IH|]. apply List.Forall_forall. intros r Hr.
  apply res_map_Ok in Hm. destruct (res_map_In _ _ _ _ Hm Hr) as (e' & Hd' & He').
  rewrite List.Forall_forall in Hlt. specialize (Hlt _ He').
  destruct (decode_fields _ _ Hd) as (_ & _ & E & _). destruct (decode_fields _ _ Hd') as (_ & _ & E' & _).
  unfold row_seq_le. rewrite <- E, <- E'. apply Z.leb_le. lia.
Qed.

Lemma wf_sorted X g : wf_but X g -> sorted_tables g.
Proof.
  intros Hwf k. destruct (head_of g k) as [row|] eqn:Hh.
  - apply head_of_In in Hh as [Hi <-]. destruct (wb_own _ _ Hwf row Hi) as (es & Hm & Hc).
    eapply own_log_sorted; [done|by eapply chain_by_seq].
  - rewrite (own_absent g k) by (apply Hwf || done). constructor.
Qed.

(** * The envelope of a number *)

Lemma linked_lookup seq hash es e : linked seq hash es -> In e es ->
  end_hash hash (take (Z.to_nat (e.(ge_seq) - seq)) es) = e.(ge_hash).
Proof.
  revert seq hash. induction es as [|x es IH]; intros seq hash; [done|]. cbn [linked]. intros (E & _ & _ & Hc) [->|Hi].
  - rewrite E. replace (Z.to_nat (seq + 1 - seq)) with 1%nat by lia. simpl. by rewrite end_hash_cons.
  - pose proof (linked_bounds _ _ _ Hc) as Hb. rewrite List.Forall_forall in Hb. specialize (Hb _ Hi).
    replace (Z.to_nat (e.(ge_seq) - seq)) with (S (Z.to_nat (e.(ge_seq) - (seq + 1)))) by lia.
    simpl. rewrite end_hash_cons. by apply IH.
Qed.

Lemma by_seq_row g k L seq row : forest g.(g_heads) -> log_is g k L ->
  lineageEventBySeq g k.1 k.2 seq = Ok (Some row) ->
  exists e, mapLogEnvelope row = Ok e /\ In e L /\ e.(ge_seq) = seq.
Proof.
  intros Hf Hl H. destruct (lineage_shows g k L Hf Hl) as (segments & Hs & Hshows).
  unfold lineageEventBySeq in H. rewrite Hs in H. cbn [res_bind] in H. apply Ok_inj in H.
  pose proof (find_segment_spec g (fun row => row.(er_seq) =? seq) (fun e => e.(ge_seq) =? seq) segments L) as Hfind.
  rewrite H in Hfind. destruct Hfind as (e & He & Hi & E); [|done|].
  - intros r e Hd. by destruct (decode_fields _ _ Hd) as (_ & _ & -> & _).
  - exists e. split; [done|]. split; [done|]. by apply Z.eqb_eq.
Qed.

(** * Adding a head *)

Lemma add_head_of g row k :
  head_of (with_heads (g.(g_heads) ++ [row]) g) k
  = match head_of g k with Some r => Some r | None => if is_head k.1 k.2 row then Some row else None end.
Proof. unfold head_of, logHeadRow. cbn [with_heads g_heads]. rewrite find_app. by destruct (List.find _ _). Qed.

(** The parent of a head is a head. *)
Lemma parent_in g k row l h s : forest g.(g_heads) -> head_of g k = Some row -> fork_of row = Some (l, h, s) ->
  In (l, h) (map rkey g.(g_heads)).
Proof.
  intros Hf Hh Hfork. apply head_of_In in Hh as [Hi _]. apply in_split in Hi as (a & b & Eh). rewrite Eh in Hf.
  rewrite Eh, map_app, in_app_iff. left. by eapply forest_parent.
Qed.

Lemma add_head_log g row k L : forest g.(g_heads) -> head_of g (rkey row) = None -> k <> rkey row -> log_is g k L ->
  log_is (with_heads (g.(g_heads) ++ [row]) g) k L.
Proof.
  intros Hf Hnew Hne Hl. revert Hne. induction Hl as [k Hn Ho|k r es Hh Hfork Hm|k r l h s inh es Hh Hfork Hp IH Hm]; intros Hne.
  - apply log_absent; [|done]. rewrite add_head_of, Hn. destruct (is_head k.1 k.2 row) eqn:E; [|done].
    apply is_head_spec in E. congruence.
  - eapply log_root; [by rewrite add_head_of, Hh|done|done].
  - eapply log_fork; [by rewrite add_head_of, Hh|done| |done]. apply IH. intros E.
    apply head_of_None in Hnew. rewrite <- E in Hnew. by eapply Hnew, parent_in.
Qed.

(** The log of a new fork is the part of its parent's up to the fork point. *)
Lemma forked_log g row l h s L :
  forest g.(g_heads) -> head_of g (rkey row) = None -> own g (rkey row) = [] ->
  fork_of row = Some (l, h, s) -> In (l, h) (map rkey g.(g_heads)) -> log_is g (l, h) L ->
  linked 0 GENESIS_EVENT_HASH L -> 0 <= s ->
  log_is (with_heads (g.(g_heads) ++ [row]) g) (rkey row) (take (Z.to_nat s) L).
Proof.
  intros Hf Hnew Ho Hfork Hp HL Hlinked Hs. rewrite <- (app_nil_r (take _ _)), <- (Z.sub_0_r s), <- (upto_take _ _ _ _ Hlinked) by done.
  eapply log_fork; [|done| |].
  - rewrite add_head_of, Hnew. by rewrite (proj2 (is_head_spec (rkey row) row)).
  - apply add_head_log; [done|done| |done]. intros E. apply head_of_None in Hnew. by rewrite <- E in Hnew.
  - change (own _ (rkey row)) with (own g (rkey row)). by rewrite Ho.
Qed.

Lemma forked_wf g row l h s L :
  wf_tables g -> clean_key (rkey row) -> head_of g (rkey row) = None ->
  fork_of row = Some (l, h, s) -> In (l, h) (map rkey g.(g_heads)) -> log_is g (l, h) L ->
  0 <= s <= Z.of_nat (length L) -> base_hash row = end_hash GENESIS_EVENT_HASH (take (Z.to_nat s) L) ->
  row.(hr_fork_hash) <> None -> points_at row [] -> base_seq row = s ->
  wf_tables (with_heads (g.(g_heads) ++ [row]) g).
Proof.
  intros Hwf Hck Hnew Hfork Hp HL Hs Hhash Hsome Hpt Hbase. pose proof (wb_forest _ _ Hwf) as Hf.
  assert (Ho : own g (rkey row) = []) by (apply own_absent; [apply Hwf|done]).
  destruct (log_linked g (l, h) L (wb_own _ _ Hwf) (wb_forks _ _ Hwf) HL) as [Hlinked _].
  assert (Hold : forall r, In r g.(g_heads) -> rkey r <> rkey row).
  { intros r Hr E. apply head_of_None in Hnew. apply Hnew. rewrite <- E. by apply in_map. }
  assert (Hrow : own_log (with_heads (g_heads g ++ [row]) g) row []).
  { unfold own_log. change (own _ (rkey row)) with (own g (rkey row)). by rewrite Ho. }
  constructor; cbn [with_heads g_heads g_events].
  - constructor; [done|done|by apply head_of_None|]. intros l' h' s' E. by rewrite Hfork in E; injection E as <- <- <-.
  - intros r [Hr|[<-|[]]]%in_app_iff; [by apply (wb_own _ _ Hwf)|by exists []].
  - intros r es [Hr|[<-|[]]]%in_app_iff HX Hes; [by apply (wb_points _ _ Hwf)|].
    by rewrite (own_log_fun _ _ _ _ Hes Hrow).
  - intros r Hr. rewrite map_app, in_app_iff. left. by apply (wb_orphans _ _ Hwf).
  - intros r [Hr|[<-|[]]]%in_app_iff.
    + pose proof (wb_forks _ _ Hwf r Hr) as Hfk. unfold fork_ok in *. destruct (fork_of r) as [[[l' h'] s']|] eqn:E; [|done].
      destruct Hfk as (inh & Hl & Hrest). exists inh. split; [|done]. apply add_head_log; [done|done| |done].
      intros Ek. apply head_of_None in Hnew. rewrite <- Ek in Hnew. apply Hnew.
      by eapply parent_in; [done|apply In_head_of|].
    + unfold fork_ok. rewrite Hfork. exists L. split; [|split; [done|]].
      * apply add_head_log; [done|done| |done]. intros E. apply head_of_None in Hnew. by rewrite <- E in Hnew.
      * unfold base_hash in Hhash. destruct (hr_fork_hash row); [|done]. simpl in Hhash. by subst.
  - intros k es Hl. destruct (decide (k = rkey row)) as [->|Hne].
    + rewrite (log_is_fun _ _ _ _ Hl (forked_log g row l h s L Hf Hnew Ho Hfork Hp HL Hlinked (proj1 Hs))).
      unfold eids. rewrite <- firstn_map. eapply sublist_NoDup; [by apply (wb_ids _ _ Hwf (l, h))|apply sublist_take].
    + destruct (wf_log [] g k Hwf) as (L' & HL'). rewrite (log_is_fun _ _ _ _ Hl (add_head_log g row k L' Hf Hnew Hne HL')).
      by apply (wb_ids _ _ Hwf k).
Qed.

(** * Counting *)

Lemma fold_add {A} (f : A -> Z) l z : fold_left (fun n x => n + f x) l z = z + fold_left (fun n x => n + f x) l 0.
Proof.
  revert z. induction l as [|x l IH]; intros z; cbn [fold_left]; [lia|]. rewrite IH, (IH (0 + f x)). lia.
Qed.

Lemma own_count g k es s : res_map mapLogEnvelope (own g k) = Ok es ->
  length (List.filter (fun row => of_log k.1 k.2 row && (row.(er_seq) <=? s)) g.(g_events)) = length (upto (Some s) es).
Proof.
  intros Hm. rewrite <- filter_filter. fold (own g k). symmetry. eapply res_map_length, res_map_filter; [|exact Hm].
  intros row e Hd. by destruct (decode_fields _ _ Hd) as (_ & _ & -> & _).
Qed.

Lemma count_through_spec g k L s : forest g.(g_heads) -> log_is g k L ->
  lineageEventCountThrough g k.1 k.2 s = Ok (Z.of_nat (length (upto (Some s) L))).
Proof.
  intros Hf Hl. destruct (lineage_shows g k L Hf Hl) as (segments & Hs & parts & Hparts & <-).
  unfold lineageEventCountThrough. rewrite Hs. cbn [res_bind]. f_equal. clear Hs Hl.
  revert parts Hparts. induction segments as [|segment segments IH]; intros parts Hparts; cbn [rev] in Hparts.
  - by inversion Hparts.
  - apply Forall2_app_inv_l in Hparts as (parts1 & parts2 & Hp1 & Hp2 & ->).
    inversion Hp2 as [|? part ? ? (es & Hm & Ep) Hnil]; subst. inversion Hnil; subst. clear Hp2 Hnil.
    cbn [fold_left]. rewrite fold_add, (IH _ Hp1), concat_app, concat_cons, app_nil_r, upto_app, length_app, Z.add_0_l.
    rewrite (own_count g (sg_logId segment, sg_head segment) es _ Hm).
    assert (E : upto (Some s) (upto (sg_throughSeq segment) es)
              = upto (Some (match sg_throughSeq segment with Some c => Z.min c s | None => s end)) es).
    { destruct (sg_throughSeq segment) as [c|]; [|by rewrite upto_None]. rewrite upto_upto. simpl. by rewrite Z.min_comm. }
    rewrite E. lia.
Qed.

(** A read without bounds asks for all of a log. *)
Lemma asked_all l h es : linked 0 GENESIS_EVENT_HASH es -> asked (mkReadLogInput l h None None (Some 0) None) es = es.
Proof.
  intros Hb%linked_bounds. apply forallb_filter_id, forallb_forall. intros e He.
  rewrite List.Forall_forall in Hb. specialize (Hb e He). unfold in_read. simpl in *.
  destruct (Z.ltb_spec 0 (ge_seq e)); [done|lia].
Qed.

(** * Forking *)

Definition source_key (input : ForkLogInput) : key := (input.(fi_fromLogId), input.(fi_fromHead)).
Definition target_key (input : ForkLogInput) : key := (input.(fi_toLogId), input.(fi_toHead)).

Lemma wf_linked X g k L : wf_but X g -> log_is g k L -> linked 0 GENESIS_EVENT_HASH L.
Proof. intros [] Hl. by apply (log_linked g k L). Qed.

Lemma wf_pointer g k row L : wf_tables g -> head_of g k = Some row -> log_is g k L ->
  row.(hr_current_seq) = Z.of_nat (length L) /\ row.(hr_current_hash) = end_hash GENESIS_EVENT_HASH L.
Proof.
  intros Hwf Hh Hl. pose proof (head_of_In _ _ _ Hh) as [Hi _]. destruct (wb_own _ _ Hwf row Hi) as (es & Hes).
  destruct (log_linked g k L (wb_own _ _ Hwf) (wb_forks _ _ Hwf) Hl) as [_ Hend].
  destruct (Hend row es Hh Hes) as [-> ->]. apply (wb_points _ _ Hwf row es Hi); [by intros []|done].
Qed.

Lemma fork_point_spec {schema : EventSchema} {proj : LogProjections P} g input L s forkHash forkEnvelopeId :
  wf_tables g -> log_is g (source_key input) L -> 0 <= s <= Z.of_nat (length L) ->
  fork_point g input s = Ok (forkHash, forkEnvelopeId) -> forkHash = end_hash GENESIS_EVENT_HASH (take (Z.to_nat s) L).
Proof.
  intros Hwf Hl Hs H. unfold fork_point in H. destruct (Z.ltb_spec 0 s) as [Hlt|Hle].
  - apply res_bind_Ok in H as (found & Hrow & H). destruct found as [row|]; [|done]. apply Ok_inj in H. injection H as <- _.
    destruct (by_seq_row g (source_key input) L s row (wb_forest _ _ Hwf) Hl Hrow) as (e & Hd & Hi & <-).
    destruct (decode_fields _ _ Hd) as (_ & _ & _ & _ & _ & <- & _).
    rewrite <- (linked_lookup 0 GENESIS_EVENT_HASH L e); [|by eapply wf_linked|done]. by rewrite Z.sub_0_r.
  - apply Ok_inj in H. injection H as <- _. replace (Z.to_nat s) with O by lia. done.
Qed.

(** The head a fork makes. *)
Definition is_fork (input : ForkLogInput) (s : Z) (hash : string) (row : LogHeadRow) : Prop :=
  rkey row = target_key input /\ row.(hr_parent_log_id) = Some input.(fi_fromLogId) /\
  row.(hr_parent_head) = Some input.(fi_fromHead) /\ row.(hr_fork_hash) = Some hash /\
  default 0 row.(hr_fork_seq) = s.

(** Logs and well-formedness are about the heads and the events only. *)
Lemma log_other other g k L : log_is g k L -> log_is (with_other other g) k L.
Proof.
  induction 1 as [k Hn Ho|k r es Hh Hfork Hm|k r l h s inh es Hh Hfork Hp IH Hm];
    [by apply log_absent|by eapply log_root|by eapply log_fork].
Qed.

Lemma wf_other other g : wf_tables g -> wf_tables (with_other other g).
Proof.
  intros [A B C D E F]. constructor; try done.
  - intros row Hi. specialize (E row Hi). unfold fork_ok in *. destruct (fork_of row) as [[[l h] s]|]; [|done].
    destruct E as (inh & Hl & Hrest). exists inh. split; [by apply log_other|done].
  - intros k es Hl. apply (F k).
    assert (Eg : g = with_other g.(g_other) (with_other other g)) by by destruct g. rewrite Eg. by apply log_other.
Qed.

(** What a successful fork has done: [L] is the log of its source. *)
Record forked_to g (input : ForkLogInput) g' (result : ForkLogResult) (L : list GadEnvelope) : Prop := {
  ft_source : log_is g (source_key input) L;
  ft_seq : result.(fr_forkSeq) = default (Z.of_nat (length L)) input.(fi_atSeq);
  ft_bounds : 0 <= result.(fr_forkSeq) <= Z.of_nat (length L);
  ft_hash : result.(fr_forkHash) = end_hash GENESIS_EVENT_HASH (take (Z.to_nat result.(fr_forkSeq)) L);
  ft_inherited : result.(fr_inherited) = result.(fr_forkSeq);
  ft_target :
    match head_of g (target_key input) with
    | None => log_is g' (target_key input) (take (Z.to_nat result.(fr_forkSeq)) L)
    | Some _ => g' = g /\ exists own_es, log_is g (target_key input) (take (Z.to_nat result.(fr_forkSeq)) L ++ own_es)
    end;
  ft_head : exists row, head_of g' (target_key input) = Some row /\
              is_fork input result.(fr_forkSeq) result.(fr_forkHash) row;
  ft_others : forall k L', k <> target_key input -> log_is g k L' -> log_is g' k L'
}.

Section Fork.
Context {schema : EventSchema} {proj : LogProjections P}.

(** A fork that was made already. *)
Lemma fork_existing g input row s hash L inherited :
  wf_tables g -> (input.(fi_fromLogId) =s? "") || (input.(fi_fromHead) =s? "") = false ->
  log_is g (source_key input) L -> head_of g (target_key input) = Some row ->
  is_fork input s hash row ->
  lineageEventCountThrough g input.(fi_toLogId) input.(fi_toHead) s = Ok inherited ->
  inherited = s /\ exists own_es, log_is g (target_key input) (take (Z.to_nat s) L ++ own_es).
Proof.
  intros Hwf Hne HL Hh (Hk & Ep & Eh & Efh & Es) Hcount.
  pose proof (head_of_In _ _ _ Hh) as [Hi _]. pose proof (wb_forks _ _ Hwf row Hi) as Hfk. unfold fork_ok in Hfk.
  destruct (fork_of row) as [[[l h] s']|] eqn:Hfork; [|destruct Hfk; congruence].
  assert (E : l = input.(fi_fromLogId) /\ h = input.(fi_fromHead) /\ s' = s).
  { unfold fork_of in Hfork. rewrite Ep, Eh in Hfork. destruct (hr_fork_seq row); [|done].
    rewrite Hne in Hfork. simpl in Es. injection Hfork as <- <- <-. done. }
  destruct E as (-> & -> & ->). destruct Hfk as (inh & Hp & Hs & _).
  assert (inh = L) as -> by by eapply log_is_fun.
  destruct (wb_own _ _ Hwf row Hi) as (es & Hm & _). rewrite Hk in Hm.
  assert (Hl : log_is g (target_key input) (upto (Some s) L ++ es)) by by eapply log_fork.
  rewrite (upto_take 0 GENESIS_EVENT_HASH), Z.sub_0_r in Hl by (lia || by eapply wf_linked). split; [|by exists es].
  change (lineageEventCountThrough g (target_key input).1 (target_key input).2 s = Ok inherited) in Hcount.
  rewrite (count_through_spec g _ _ s (wb_forest _ _ Hwf) Hl) in Hcount. apply Ok_inj in Hcount as <-.
  rewrite (upto_take 0 GENESIS_EVENT_HASH) by (lia || by eapply wf_linked).
  rewrite Z.sub_0_r, take_app_le, take_take, length_take by (rewrite length_take; lia). lia.
Qed.

Lemma forkLog_ok g input g' result :
  wf_tables g -> clean_key (target_key input) -> (forall s, input.(fi_atSeq) = Some s -> 0 <= s) ->
  forkLog g input = Ok (g', result) -> wf_tables g' /\ exists L, forked_to g input g' result L.
Proof.
  intros Hwf Hck Hat H. unfold forkLog in H. destruct input as [fl fh tl th atSeq owner now] eqn:Einput. rewrite <- Einput in *.
  destruct (_ || _) eqn:Hne in H; [done|]. destruct (_ || _) in H; [done|]. destruct (_ && _) eqn:Hdist in H; [done|].
  destruct (logHeadRow g fl fh) as [src|] eqn:Hsrc; [|done].
  change (head_of g (fl, fh) = Some src) in Hsrc. change (logHeadRow g tl th) with (head_of g (tl, th)) in H.
  assert (Ek : source_key input = (fl, fh) /\ target_key input = (tl, th)) by by subst. destruct Ek as [Eks Ekt].
  assert (Ea : fi_atSeq input = atSeq) by by subst. rewrite Ea in *.
  destruct (wf_log [] g (fl, fh) Hwf) as (L & HL). destruct (wf_pointer _ _ _ _ Hwf Hsrc HL) as [Ecur _].
  rewrite Ecur in H. set (s := default (Z.of_nat (length L)) atSeq) in *.
  destruct (Z.ltb_spec (Z.of_nat (length L)) s) as [|Hs]; [done|].
  assert (Hb : 0 <= s <= Z.of_nat (length L)).
  { split; [|done]. unfold s. destruct atSeq as [a|]; simpl; [by apply Hat|lia]. }
  apply res_bind_Ok in H as ([hash id] & Hpoint & H). apply (fork_point_spec _ _ L) in Hpoint as Hhash; [|done|by rewrite Eks|done].
  destruct (head_of g (tl, th)) as [row|] eqn:Hh.
  - destruct (_ && _) eqn:Hsame in H; [|done]. apply res_bind_Ok in H as (inherited & Hcount & H). apply Ok_inj in H.
    injection H as <- <-. rewrite !andb_true_iff, !bool_decide_eq_true, Z.eqb_eq in Hsame. destruct Hsame as [[[Ep Eh] Es] Ef].
    assert (Hf : is_fork input s hash row).
    { rewrite Einput. split; [by apply head_of_In in Hh as [_ ->]|]. done. }
    destruct (fork_existing g input row s hash L inherited) as [-> Htl]; rewrite ?Eks, ?Ekt; try done; [by subst|by subst|].
    split; [done|]. exists L. constructor; cbn [fr_forkSeq fr_forkHash fr_inherited]; rewrite ?Eks, ?Ekt, ?Ea; try done.
    + rewrite Hh. by rewrite Ekt in Htl.
    + by exists row.
  - apply res_bind_Ok in H as (owner' & _ & H). apply res_bind_Ok in H as (inherited & Hread & H).
    apply res_bind_Ok in H as (other & _ & H). apply Ok_inj in H. injection H as <- <-.
    set (row := {| hr_log_id := tl |}) in *. set (g1 := with_heads (g_heads g ++ [row]) g) in *.
    rewrite Ekt in Hck. assert (Hkr : rkey row = (tl, th)) by done. rewrite <- Hkr in Hh, Hck.
    assert (Hfork : fork_of row = Some (fl, fh, s)) by (unfold fork_of; cbn [row hr_parent_log_id hr_parent_head hr_fork_seq]; by rewrite Hne).
    assert (Hpin : In (fl, fh) (map rkey g.(g_heads))) by (apply head_of_In in Hsrc as [? <-]; by apply in_map).
    pose proof (wb_forest _ _ Hwf) as Hf. assert (Ho : own g (rkey row) = []) by (apply own_absent; [apply Hwf|done]).
    assert (Hwf1 : wf_tables g1).
    { apply (forked_wf g row fl fh s L); try done. split; [|done]. cbn [row hr_current_seq length]. unfold base_seq. simpl. lia. }
    assert (Hl1 : log_is g1 (tl, th) (take (Z.to_nat s) L)).
    { apply (forked_log g row fl fh s L); try done; [by apply (wf_linked [] g (fl, fh))|apply Hb]. }
    split; [by apply wf_other|]. exists L.
    rewrite (readLog_spec g1 (mkReadLogInput tl th None None (Some 0) None) _ (wb_forest _ _ Hwf1) (wf_sorted _ _ Hwf1) Hl1) in Hread. apply Ok_inj in Hread.
    assert (Einh : inherited = take (Z.to_nat s) L) by (rewrite <- Hread; apply asked_all; by apply (wf_linked [] g1 (tl, th))).
    constructor; cbn [fr_forkSeq fr_forkHash fr_inherited]; rewrite ?Eks, ?Ekt, ?Ea; try done.
    + rewrite Einh, length_take. lia.
    + rewrite <- Hkr, Hh. by apply log_other.
    + exists row. split; [|by rewrite Einput]. rewrite <- Hkr. change (head_of g1 (rkey row) = Some row). unfold g1.
      rewrite add_head_of, Hh. by rewrite (proj2 (is_head_spec (rkey row) row)).
    + intros k L' Hk Hl. by apply log_other, add_head_log.
Qed.
End Fork.

(** * Deleting a head *)

(** No log was forked from it. *)
Definition unforked g k : Prop := forall row l h s, In row g.(g_heads) -> fork_of row = Some (l, h, s) -> (l, h) <> k.

Lemma forest_filter k heads :
  forest heads -> (forall row l h s, In row heads -> fork_of row = Some (l, h, s) -> (l, h) <> k) ->
  forest (List.filter (fun row => negb (is_head k.1 k.2 row)) heads).
Proof.
  assert (Hkeys : forall x heads, x <> k -> In x (map rkey heads) ->
            In x (map rkey (List.filter (fun row => negb (is_head k.1 k.2 row)) heads))).
  { intros x hs Hx (r & <- & Hr)%in_map_iff. apply in_map, filter_In. split; [done|].
    apply negb_true_iff. destruct (is_head k.1 k.2 r) eqn:E; [|done]. by apply is_head_spec in E. }
  induction 1 as [|heads row Hf IH Hc Hn Hp]; intros Hu; [constructor|]. rewrite List.filter_app. cbn [List.filter].
  assert (IH' := IH (fun r l h s Hr => Hu r l h s (in_or_app _ _ _ (or_introl Hr)))).
  destruct (negb _); [|by rewrite app_nil_r]. constructor; [done|done|..].
  - intros (r & Er & [Hr _]%filter_In)%in_map_iff. apply Hn. rewrite <- Er. by apply in_map.
  - intros l h s E. apply Hkeys; [|by eapply Hp]. eapply Hu; [|done]. apply in_app_iff. right. by left.
Qed.

Section Delete.
Context {proj : LogProjections P}.

Lemma delete_head_of g k k' : k' <> k -> head_of (deleteLogHead g k.1 k.2).1 k' = head_of g k'.
Proof.
  intros Hne. unfold head_of, logHeadRow. cbn [deleteLogHead fst g_heads].
  induction (g_heads g) as [|r l IH]; [done|]. simpl. destruct (is_head k.1 k.2 r) eqn:E; simpl.
  - rewrite IH. destruct (is_head k'.1 k'.2 r) eqn:E'; [|done]. apply is_head_spec in E, E'. congruence.
  - by rewrite IH.
Qed.

Lemma delete_own g k k' : k' <> k -> own (deleteLogHead g k.1 k.2).1 k' = own g k'.
Proof.
  intros Hne. unfold own. cbn [deleteLogHead fst g_events]. rewrite filter_filter. apply filter_ext_eq. intros r.
  destruct (of_log k'.1 k'.2 r) eqn:E'; [|apply andb_false_r]. rewrite andb_true_r. apply negb_true_iff.
  destruct (of_log k.1 k.2 r) eqn:E; [|done]. apply of_log_spec in E, E'. congruence.
Qed.

Lemma delete_gone g k : head_of (deleteLogHead g k.1 k.2).1 k = None /\ own (deleteLogHead g k.1 k.2).1 k = [].
Proof.
  split.
  - apply find_head_None. cbn [deleteLogHead fst g_heads]. intros (r & E & [_ Hr]%filter_In)%in_map_iff.
    by rewrite (proj2 (is_head_spec k r) E) in Hr.
  - unfold own. cbn [deleteLogHead fst g_events]. rewrite filter_filter.
    induction (g_events g) as [|r l IH]; [done|]. simpl. by destruct (of_log k.1 k.2 r).
Qed.

Lemma delete_log g k k' L : unforked g k -> k' <> k -> log_is g k' L -> log_is (deleteLogHead g k.1 k.2).1 k' L.
Proof.
  intros Hu Hne Hl. revert Hne. induction Hl as [k' Hn Ho|k' r es Hh Hfork Hm|k' r l h s inh es Hh Hfork Hp IH Hm]; intros Hne.
  - apply log_absent; [by rewrite delete_head_of|by rewrite delete_own].
  - eapply log_root; [by rewrite delete_head_of|done|by rewrite delete_own].
  - eapply log_fork; [by rewrite delete_head_of|done| |by rewrite delete_own]. apply IH.
    eapply Hu; [|done]. by apply head_of_In in Hh as [? _].
Qed.

Lemma delete_ok g k : wf_tables g -> unforked g k -> wf_tables (deleteLogHead g k.1 k.2).1.
Proof.
  intros Hwf Hu. assert (Hin : forall row, In row (deleteLogHead g k.1 k.2).1.(g_heads) -> In row g.(g_heads) /\ rkey row <> k).
  { intros row [Hi Hr]%filter_In. split; [done|]. intros E. by rewrite (proj2 (is_head_spec k row) E) in Hr. }
  assert (Hown : forall row es, rkey row <> k -> own_log (deleteLogHead g k.1 k.2).1 row es <-> own_log g row es).
  { intros row es Hne. unfold own_log. by rewrite delete_own. }
  constructor.
  - apply forest_filter; [apply Hwf|]. intros row l h s Hi. by apply Hu.
  - intros row [Hi Hne]%Hin. destruct (wb_own _ _ Hwf row Hi) as (es & Hes). exists es. by apply Hown.
  - intros row es [Hi Hne]%Hin HX Hes%Hown; [|done]. by apply (wb_points _ _ Hwf).
  - intros row [Hi Hk]%filter_In. apply (wb_orphans _ _ Hwf) in Hi. apply in_map_iff in Hi as (r & Er & Hr).
    rewrite <- Er. apply in_map, filter_In. split; [done|]. apply negb_true_iff in Hk. apply negb_true_iff.
    destruct (is_head k.1 k.2 r) eqn:E; [|done]. apply is_head_spec in E. rewrite E in Er. unfold row_key in Er.
    by rewrite (proj2 (of_log_spec k row)) in Hk.
  - intros row [Hi Hne]%Hin. pose proof (wb_forks _ _ Hwf row Hi) as Hfk. unfold fork_ok in *.
    destruct (fork_of row) as [[[l h] s]|] eqn:E; [|done]. destruct Hfk as (inh & Hl & Hrest). exists inh. split; [|done].
    apply delete_log; [done|by eapply Hu|done].
  - intros k' es Hl. destruct (decide (k' = k)) as [->|Hne].
    + destruct (delete_gone g k) as [Hn Ho]. inversion Hl; subst; try congruence. constructor.
    + destruct (wf_log [] g k' Hwf) as (L & HL). rewrite (log_is_fun _ _ _ _ Hl (delete_log g k k' L Hu Hne HL)).
      by apply (wb_ids _ _ Hwf k').
Qed.
End Delete.

(** * Renaming a head *)

(** The envelope under the name of another head. *)
Definition reheaded (head : string) (e : GadEnvelope) : GadEnvelope :=
  {| ge_logId := e.(ge_logId); ge_head := head; ge_seq := e.(ge_seq); ge_event := e.(ge_event);
     ge_prevHash := e.(ge_prevHash); ge_hash := e.(ge_hash) |}.

(** The tables with the rows of a head under another name. *)
Definition renamed_tables g (k : key) (to : string) g' : Prop :=
  g'.(g_heads) = map (head_renamed k.1 k.2 to) g.(g_heads) /\
  g'.(g_events) = map (event_renamed k.1 k.2 to) g.(g_events).

Lemma decode_renamed k to row e : of_log k.1 k.2 row = true -> mapLogEnvelope row = Ok e ->
  mapLogEnvelope (event_renamed k.1 k.2 to row) = Ok (reheaded to e).
Proof.
  unfold event_renamed. intros ->. unfold mapLogEnvelope. cbn [er_actor_json er_to_json er_payload_ref_json er_annotations_json er_causality_json].
  intros H. do 5 (let v := fresh in let E := fresh in apply res_bind_Ok in H as (v & E & H); rewrite E; cbn [res_bind]).
  by apply Ok_inj in H as <-.
Qed.

Lemma decode_renamed_all k to rows es : Forall (fun row => of_log k.1 k.2 row = true) rows ->
  res_map mapLogEnvelope rows = Ok es ->
  res_map mapLogEnvelope (map (event_renamed k.1 k.2 to) rows) = Ok (map (reheaded to) es).
Proof.
  intros Ho. revert es. induction Ho as [|row rows Hr _ IH]; intros es H; cbn [res_map map] in *; [by apply Ok_inj in H as <-|].
  apply res_bind_Ok in H as (e & Hd & H). apply res_bind_Ok in H as (l & Hm & H). apply Ok_inj in H as <-.
  by rewrite (decode_renamed k to row e Hr Hd), (IH l Hm).
Qed.

Lemma rehead_chain k to seq hash es : chain k seq hash es ->
  chain (names := (k.1, to) :: names) (k.1, to) seq hash (map (reheaded to) es).
Proof.
  revert seq hash. induction es as [|e es IH]; intros seq hash; [done|]. cbn [chain map reheaded ge_logId ge_head ge_seq ge_prevHash ge_hash].
  intros (Ek & Es & Ep & Hs & Hc). split; [by rewrite <- Ek|]. do 2 (split; [done|]). split; [|by apply IH]. right.
  split; [left; by rewrite <- Ek|]. destruct Hs as [E|[_ [head E]]]; [exists e.(ge_head)|exists head]; exact E.
Qed.

Lemma end_hash_rehead to hash es : end_hash hash (map (reheaded to) es) = end_hash hash es.
Proof. unfold end_hash. rewrite fmap_last. by destruct (list.last es). Qed.

Lemma more_renamed k0 k seq hash es : chain k seq hash es -> chain (names := k0 :: names) k seq hash es.
Proof.
  revert seq hash. induction es as [|e es IH]; intros seq hash; [done|]. cbn [chain]. intros (Ek & Es & Ep & Hs & Hc).
  do 3 (split; [done|]). split; [|by apply IH]. destruct Hs as [?|[Hi He]]; [by left|right]. split; [by right|done].
Qed.

Lemma head_renamed_fields k to row :
  let row' := head_renamed k.1 k.2 to row in
  fork_of row' = fork_of row /\ base_seq row' = base_seq row /\ base_hash row' = base_hash row /\
  row'.(hr_fork_seq) = row.(hr_fork_seq) /\ row'.(hr_fork_hash) = row.(hr_fork_hash) /\
  row'.(hr_current_seq) = row.(hr_current_seq) /\ row'.(hr_current_hash) = row.(hr_current_hash) /\
  rkey row' = (if decide (rkey row = k) then (k.1, to) else rkey row) /\ (rkey row <> k -> row' = row).
Proof.
  cbn zeta. unfold head_renamed. destruct (is_head k.1 k.2 row) eqn:E.
  - apply is_head_spec in E. rewrite decide_True by done. repeat split; [|done]. unfold rkey in *. cbn. by rewrite <- E.
  - rewrite decide_False; [done|]. intros Hk. apply (is_head_spec k row) in Hk. congruence.
Qed.

Section Rename.
Context g k to g' (Hren : renamed_tables g k to g') (Hwf : wf_tables g) (Hu : unforked g k)
  (Hnew : head_of g (k.1, to) = None) (Hclean : clean_key (k.1, to)).
Abbreviation k' := (k.1, to).
Abbreviation ren := (head_renamed k.1 k.2 to).

Lemma rename_key row : rkey (ren row) = (if decide (rkey row = k) then k' else rkey row).
Proof. apply (head_renamed_fields k to row). Qed.

Lemma rename_same row : rkey row <> k -> ren row = row.
Proof. apply (head_renamed_fields k to row). Qed.

Lemma renamed_keys heads x : In x (map rkey (map ren heads)) ->
  x = k' /\ In k (map rkey heads) \/ x <> k /\ In x (map rkey heads).
Proof.
  intros (r & <- & (r0 & <- & Hi)%in_map_iff)%in_map_iff. rewrite rename_key. apply (in_map rkey) in Hi.
  destruct (decide (rkey r0 = k)) as [E|]; [left; by rewrite <- E|by right].
Qed.

Lemma rename_forest : forest g'.(g_heads).
Proof.
  pose proof Hnew as Hfr. apply head_of_None in Hfr. pose proof Hu as Hun. unfold unforked in Hun.
  rewrite (proj1 Hren). pose proof (wb_forest _ _ Hwf) as Hf. clear Hren Hwf Hu Hnew.
  induction Hf as [|heads row Hf IH Hc Hn Hp]; [constructor|].
  rewrite map_app, in_app_iff in Hfr. rewrite map_app. cbn [map]. constructor.
  - apply IH; [tauto|]. intros r l h s Hi. apply Hun. apply in_app_iff. by left.
  - rewrite rename_key. by destruct (decide _).
  - intros Hi%renamed_keys. rewrite rename_key in Hi. destruct (decide (rkey row = k)) as [E|Hne].
    + rewrite E in Hn. tauto.
    + destruct Hi as [[E _]|[_ Hi]]; [|done]. apply Hfr. right. by left.
  - intros l h s E. rewrite (proj1 (head_renamed_fields k to row)) in E. pose proof (Hp l h s E) as Hi.
    assert (Hne : (l, h) <> k) by (eapply Hun; [|exact E]; apply in_app_iff; right; by left).
    apply in_map_iff in Hi as (r & Er & Hr). apply in_map_iff. exists (ren r). rewrite rename_key, decide_False by congruence.
    split; [done|]. by apply in_map.
Qed.

Lemma rename_head row : In row g.(g_heads) -> head_of g' (rkey (ren row)) = Some (ren row).
Proof. intros Hi. apply In_head_of; [apply rename_forest|]. rewrite (proj1 Hren). by apply in_map. Qed.

Lemma rename_head_of x row : head_of g x = Some row -> x <> k -> head_of g' x = Some row.
Proof.
  intros [Hi Hk]%head_of_In Hne. pose proof (rename_head row Hi) as H. by rewrite rename_same, Hk in H by congruence.
Qed.

Lemma rename_none x : head_of g x = None -> (x = k' -> head_of g k = None) -> head_of g' x = None.
Proof.
  intros Hn Hk. apply head_of_None. rewrite (proj1 Hren). intros [[-> Hi]|[_ Hi]]%renamed_keys.
  - by apply head_of_None in Hi; [|apply Hk].
  - by apply head_of_None in Hi.
Qed.

Lemma rename_own x : own g' x = if decide (x = k') then map (event_renamed k.1 k.2 to) (own g k)
                                else if decide (x = k) then [] else own g x.
Proof.
  assert (Ho : own g k' = []) by (apply own_absent; [apply Hwf|done]).
  unfold own in *. rewrite (proj2 Hren). clear Hren. induction (g_events g) as [|r l IH]; [by repeat case_decide|].
  cbn [List.filter] in Ho. destruct (of_log k'.1 k'.2 r) eqn:E'; [done|]. specialize (IH Ho). cbn [map List.filter].
  destruct (of_log k.1 k.2 r) eqn:E.
  - assert (Er : forall y, of_log y.1 y.2 (event_renamed k.1 k.2 to r) = bool_decide (y = k')).
    { intros y. unfold event_renamed. rewrite E. apply of_log_spec in E. apply eq_true_iff_eq. rewrite of_log_spec, bool_decide_eq_true. cbn.
      rewrite <- E. cbn. split; congruence. }
    rewrite Er. destruct (decide (x = k')) as [->|Hne].
    + rewrite bool_decide_eq_true_2 by done. cbn [map]. by rewrite IH.
    + rewrite bool_decide_eq_false_2 by done. rewrite IH. destruct (decide (x = k)) as [->|Hx]; [done|].
      destruct (of_log x.1 x.2 r) eqn:Ex; [|done]. apply of_log_spec in E, Ex. congruence.
  - assert (Er : event_renamed k.1 k.2 to r = r) by (unfold event_renamed; by rewrite E). rewrite Er.
    destruct (of_log x.1 x.2 r) eqn:Ex; [|exact IH].
    rewrite decide_False in IH |- * by (intros ->; congruence). rewrite decide_False in IH |- * by (intros ->; congruence). by rewrite IH.
Qed.

Lemma rename_own_new es : res_map mapLogEnvelope (own g k) = Ok es ->
  res_map mapLogEnvelope (own g' k') = Ok (map (reheaded to) es).
Proof.
  intros Hm. rewrite rename_own, decide_True by done. apply decode_renamed_all; [|done].
  apply List.Forall_forall. by intros r [_ Hr]%filter_In.
Qed.

(** The logs of the other heads are as they were. *)
Lemma rename_log x L : x <> k -> x <> k' -> log_is g x L -> log_is g' x L.
Proof.
  intros Hne Hne' Hl. revert Hne Hne'. induction Hl as [x Hn Ho|x r es Hh Hfork Hm|x r l h s inh es Hh Hfork Hp IH Hm]; intros Hne Hne';
    assert (Hown : own g' x = own g x) by (by rewrite rename_own, !decide_False).
  - apply log_absent; [by apply rename_none|by rewrite Hown].
  - eapply log_root; [by apply rename_head_of|done|by rewrite Hown].
  - eapply log_fork; [by apply rename_head_of|done| |by rewrite Hown]. pose proof Hh as [Hi _]%head_of_In. apply IH; [by eapply Hu|].
    intros E. pose proof Hnew as Hn. apply head_of_None in Hn. apply Hn. rewrite <- E.
    by apply (parent_in g x r l h s (wb_forest _ _ Hwf)).
Qed.

(** The log of the head is under its new name, its own envelopes with it. *)
Lemma rename_moved L : log_is g k L -> exists inherited es,
  L = inherited ++ es /\ res_map mapLogEnvelope (own g k) = Ok es /\ log_is g' k' (inherited ++ map (reheaded to) es).
Proof.
  intros Hl. inversion Hl as [? Hn Ho|? r es Hh Hfork Hm|? r l h s inh es Hh Hfork Hp Hm]; subst.
  - exists [], []. rewrite Ho. do 2 (split; [done|]). apply log_absent; [by apply rename_none|]. by rewrite rename_own, decide_True, Ho.
  - exists [], L. do 2 (split; [done|]). pose proof Hh as [Hi Hk]%head_of_In. pose proof (rename_head r Hi) as Hh'.
    rewrite rename_key, decide_True in Hh' by done. eapply log_root; [exact Hh'| |by apply rename_own_new].
    by rewrite (proj1 (head_renamed_fields k to r)).
  - exists (upto (Some s) inh), es. do 2 (split; [done|]). pose proof Hh as [Hi Hk]%head_of_In. pose proof (rename_head r Hi) as Hh'.
    rewrite rename_key, decide_True in Hh' by done. eapply log_fork; [exact Hh'| | |by apply rename_own_new].
    + by rewrite (proj1 (head_renamed_fields k to r)).
    + apply rename_log; [by eapply Hu| |done]. intros E. pose proof Hnew as Hn. apply head_of_None in Hn. apply Hn. rewrite <- E.
      by apply (parent_in g k r l h s (wb_forest _ _ Hwf)).
Qed.

Lemma rename_own_log row es : In row g.(g_heads) -> own_log g row es ->
  own_log (names := k' :: names) g' (ren row) (if decide (rkey row = k) then map (reheaded to) es else es).
Proof.
  intros Hi [Hm Hc]. unfold own_log. destruct (head_renamed_fields k to row) as (_ & -> & -> & _). rewrite rename_key.
  destruct (decide (rkey row = k)) as [E|Hne].
  - rewrite E in Hm, Hc. split; [by apply rename_own_new|by apply rehead_chain].
  - assert (Hne' : rkey row <> k') by (intros E; apply head_of_None in Hnew; apply Hnew; rewrite <- E; by apply in_map).
    rewrite rename_own, !decide_False by done. split; [done|by apply more_renamed].
Qed.

Lemma rename_points row es : points_at row es ->
  points_at (ren row) (if decide (rkey row = k) then map (reheaded to) es else es).
Proof.
  unfold points_at. destruct (head_renamed_fields k to row) as (_ & -> & -> & _ & _ & -> & -> & _).
  destruct (decide _); [by rewrite length_map, end_hash_rehead|done].
Qed.

Lemma rename_ids x es : log_is g' x es -> NoDup (eids es).
Proof.
  intros Hl. destruct (decide (x = k')) as [->|Hne'].
  - destruct (wf_log [] g k Hwf) as (L & HL). destruct (rename_moved L HL) as (inh & own_es & -> & _ & HL').
    rewrite (log_is_fun _ _ _ _ Hl HL'). pose proof (wb_ids _ _ Hwf k _ HL) as Hnd. unfold eids in *.
    rewrite map_app, map_map in *. exact Hnd.
  - destruct (decide (x = k)) as [->|Hne].
    + assert (Hn : head_of g' k = None).
      { apply head_of_None. rewrite (proj1 Hren). intros [[E _]|[E _]]%renamed_keys; congruence. }
      assert (Ho : own g' k = []) by (by rewrite rename_own, decide_False, decide_True). inversion Hl; subst; [constructor|congruence..].
    + destruct (wf_log [] g x Hwf) as (L & HL). rewrite (log_is_fun _ _ _ _ Hl (rename_log x L Hne Hne' HL)). by apply (wb_ids _ _ Hwf x).
Qed.

(** Renaming a head nothing was forked from keeps the tables in order, but for the name
    its envelopes were hashed under. *)
Lemma rename_ok : wf_tables (names := k' :: names) g'.
Proof.
  assert (Hin : forall row', In row' g'.(g_heads) -> exists row, row' = ren row /\ In row g.(g_heads)).
  { rewrite (proj1 Hren). intros row' (row & <- & Hi)%in_map_iff. by exists row. }
  constructor.
  - exact rename_forest.
  - intros row' (row & -> & Hi)%Hin. destruct (wb_own _ _ Hwf row Hi) as (es & Hes). eexists. by apply rename_own_log.
  - intros row' es' (row & -> & Hi)%Hin _ Hes'. destruct (wb_own _ _ Hwf row Hi) as (es & Hes).
    rewrite (own_log_fun (names := k' :: names) _ _ _ _ Hes' (rename_own_log row es Hi Hes)).
    apply rename_points, (wb_points _ _ Hwf row es Hi); [by intros []|done].
  - rewrite (proj2 Hren). intros r' (r & <- & Hi)%in_map_iff. apply (wb_orphans _ _ Hwf), in_map_iff in Hi as (row & Er & Hrow).
    rewrite (proj1 Hren). apply in_map_iff. exists (ren row). split; [|by apply in_map]. rewrite rename_key, Er.
    unfold event_renamed. destruct (of_log k.1 k.2 r) eqn:E; unfold row_key in *.
    + apply of_log_spec in E. rewrite E, decide_True by done. cbn. by rewrite <- E.
    + rewrite decide_False; [done|]. intros Hk. apply (of_log_spec k r) in Hk. congruence.
  - intros row' (row & -> & Hi)%Hin. pose proof (wb_forks _ _ Hwf row Hi) as Hfk. unfold fork_ok in *.
    destruct (head_renamed_fields k to row) as (-> & _ & _ & -> & -> & _).
    destruct (fork_of row) as [[[l h] s]|] eqn:E; [|done]. destruct Hfk as (inh & Hl & Hrest). exists inh. split; [|done].
    apply rename_log; [by eapply Hu| |done]. intros Ek. pose proof Hnew as Hn. apply head_of_None in Hn. apply Hn. rewrite <- Ek.
    apply (parent_in g (rkey row) row l h s (wb_forest _ _ Hwf)); [|done]. by apply In_head_of; [apply Hwf|].
  - exact rename_ids.
Qed.
End Rename.

(** * The integrity check *)

Lemma check_events_ok k rows es seq hash :
  res_map mapLogEnvelope rows = Ok es -> strict_chain k seq hash es ->
  res_foldl (check_event k.1 k.2) ([], seq, hash) rows
  = Ok ([], seq + Z.of_nat (length es), end_hash hash es) /\
  match list.last rows with Some r => r.(er_seq) | None => seq end = seq + Z.of_nat (length es) /\
  match list.last rows with Some r => r.(er_hash) | None => hash end = end_hash hash es.
Proof.
  rewrite res_map_Ok. intros Hm. revert seq hash. induction Hm as [|row e rows es Hd Hm IH]; intros seq hash Hc.
  - simpl. rewrite Z.add_0_r. done.
  - cbn [chain] in Hc. destruct Hc as (Ek & Es & Ep & Eh%sealed_strict & Hc). destruct (decode_fields _ _ Hd) as (_ & _ & Esq & _ & _ & Ehs & _).
    destruct (IH _ _ Hc) as (IH1 & IH2 & IH3). cbn [res_foldl check_event]. rewrite Hd. cbn [res_bind].
    assert (Ehash : computeLogEnvelopeHash (ge_prevHash e) k.1 k.2 (ge_seq e) (logEnvelopeSemantic (ge_event e)) = ge_hash e)
      by (rewrite Eh; unfold envelope_hash; by subst).
    rewrite Ehash, Es, Ep, Z.eqb_refl, !String.eqb_refl. cbn [negb when_error app]. rewrite IH1.
    replace (Z.of_nat (length (e :: es))) with (1 + Z.of_nat (length es)) by (simpl; lia).
    rewrite end_hash_cons, Z.add_assoc. split; [done|].
    destruct rows as [|row' rows].
    + inversion Hm; subst. simpl. rewrite Z.add_0_r, <- Es, Ehs, Esq. done.
    + rewrite last_cons_cons. destruct (list.last (row' :: rows)) eqn:El; [done|]. by apply last_None in El.
Qed.

Lemma check_head_passes g row es :
  res_map mapLogEnvelope (sort_by row_seq_le (own g (rkey row))) = Ok es ->
  strict_chain (rkey row) (base_seq row) (base_hash row) es -> points_at row es -> check_log_head g row = Ok [].
Proof.
  intros Hm Hc [Es Eh].
  unfold check_log_head. change (List.filter (of_log (hr_log_id row) (hr_head row)) (g_events g)) with (own g (rkey row)).
  destruct (check_events_ok (rkey row) _ es (base_seq row) (base_hash row) Hm Hc) as (E1 & E2 & E3).
  unfold base_seq, base_hash in *. cbn [rkey fst snd] in E1. rewrite E1. cbn [res_bind fst].
  rewrite E2, E3, Es, Eh, Z.eqb_refl, String.eqb_refl. done.
Qed.

Lemma integrity_passes g logId head :
  (forall row, In row g.(g_heads) -> selected logId row.(hr_log_id) && selected head row.(hr_head) = true ->
     check_log_head g row = Ok []) -> checkLogIntegrity g logId head = Ok (true, []).
Proof.
  intros Hall. unfold checkLogIntegrity. set (heads := sort_by _ _).
  assert (Hin : Forall (fun row => check_log_head g row = Ok []) heads).
  { apply List.Forall_forall. intros row Hr. apply (Permutation_in _ (sort_by_perm _ _)), filter_In in Hr as [Hi Hs]. by apply Hall. }
  assert (E : res_map (check_log_head g) heads = Ok (map (fun _ => []) heads)).
  { induction Hin as [|row l Hr _ IH]; [done|]. cbn [res_map]. by rewrite Hr, IH. }
  rewrite E. cbn [res_bind]. assert (En : concat (map (fun _ : LogHeadRow => @nil IntegrityError) heads) = []).
  { clear. by induction heads. }
  by rewrite En.
Qed.

(** The heads that are checked have the names their envelopes were hashed under. *)
Definition original_names (logId head : option string) : Prop :=
  forall k, In k renamed -> selected logId k.1 && selected head k.2 = false.

Lemma integrity_ok g logId head : wf_tables g -> original_names logId head -> checkLogIntegrity g logId head = Ok (true, []).
Proof.
  intros Hwf Hr. apply integrity_passes. intros row Hi Hs. destruct (wb_own _ _ Hwf row Hi) as (es & Hm & Hc).
  assert (Hk : ~ In (rkey row) renamed) by (intros Hk%Hr; unfold rkey in Hk; simpl in Hk; congruence).
  apply (check_head_passes g row es); [|by apply chain_strict|apply (wb_points _ _ Hwf row es Hi); [by intros []|done]].
  by rewrite (sort_by_sorted row_seq_le) by by eapply wf_sorted.
Qed.

(** Nothing else passes: the errors of a round are kept by the next. *)
Lemma check_event_errors k st row st' : check_event k.1 k.2 st row = Ok st' -> st.1.1 <> [] -> st'.1.1 <> [].
Proof.
  destruct st as [[errors seq] hash]. unfold check_event. intros H Hne. apply res_bind_Ok in H as (e & _ & H).
  apply Ok_inj in H as <-. cbn [fst] in *. by destruct errors.
Qed.

Lemma check_events_errors k st rows st' :
  res_foldl (check_event k.1 k.2) st rows = Ok st' -> st'.1.1 = [] -> st.1.1 = [].
Proof.
  revert st. induction rows as [|row rows IH]; intros st H E; cbn [res_foldl] in H; [by apply Ok_inj in H as <-|].
  apply res_bind_Ok in H as (st1 & H1 & H). specialize (IH st1 H E).
  destruct (st.1.1) eqn:Es; [done|]. exfalso. apply (check_event_errors _ _ _ _ H1); [by rewrite Es|done].
Qed.

Lemma when_error_nil b type message : when_error b type message = [] -> b = false.
Proof. by destruct b. Qed.

Lemma check_events_only k rows seq hash seq' hash' :
  Forall (fun row => (row.(er_log_id), row.(er_head)) = k) rows ->
  res_foldl (check_event k.1 k.2) ([], seq, hash) rows = Ok ([], seq', hash') ->
  exists es, res_map mapLogEnvelope rows = Ok es /\ strict_chain k seq hash es.
Proof.
  intros Hk. revert seq hash. induction Hk as [|row rows Hrow _ IH]; intros seq hash H; [by exists []|].
  cbn [res_foldl] in H. apply res_bind_Ok in H as ([[errors seq1] hash1] & H1 & H).
  pose proof (check_events_errors k _ _ _ H eq_refl) as E. cbn [fst] in E. subst errors.
  destruct (IH _ _ H) as (es & Hm & Hc). unfold check_event in H1. apply res_bind_Ok in H1 as (e & Hd & H1). apply Ok_inj in H1.
  injection H1 as E <- <-. apply app_eq_nil in E as [E1 [E2 E3]%app_eq_nil].
  apply when_error_nil, negb_false_iff, Z.eqb_eq in E1. apply when_error_nil, negb_false_iff, String.eqb_eq in E2, E3.
  exists (e :: es). cbn [res_map]. rewrite Hd, Hm. split; [done|].
  destruct (decode_fields _ _ Hd) as (El & Eh & _). assert (Ek : (ge_logId e, ge_head e) = k) by congruence.
  cbn [chain]. rewrite <- E1. split; [done|]. split; [done|]. split; [done|]. split; [|done].
  left. rewrite <- E3. unfold envelope_hash. by rewrite <- Ek.
Qed.

Lemma check_head_only g row :
  check_log_head g row = Ok [] ->
  exists es, res_map mapLogEnvelope (sort_by row_seq_le (own g (rkey row))) = Ok es /\
    strict_chain (rkey row) (base_seq row) (base_hash row) es /\ points_at row es.
Proof.
  unfold check_log_head. intros H. change (List.filter _ (g_events g)) with (own g (rkey row)) in H.
  apply res_bind_Ok in H as ([[errors seq'] hash'] & Hf & H). apply Ok_inj in H. cbn [fst] in H.
  apply app_eq_nil in H as [-> Hp]. apply when_error_nil, orb_false_iff in Hp as [Hs Hh].
  apply negb_false_iff, Z.eqb_eq in Hs. apply negb_false_iff, String.eqb_eq in Hh.
  destruct (check_events_only (rkey row) (sort_by row_seq_le (own g (rkey row))) (base_seq row) (base_hash row) seq' hash')
    as (es & Hm & Hc); [|exact Hf|].
  { apply List.Forall_forall. intros r Hr. apply (Permutation_in _ (sort_by_perm _ _)) in Hr.
    apply filter_In in Hr as [_ Hr]. by apply of_log_spec in Hr. }
  exists es. split; [done|]. split; [done|].
  destruct (check_events_ok (rkey row) _ es _ _ Hm Hc) as (_ & E2 & E3). unfold points_at, base_seq, base_hash in *.
  by rewrite Hs, Hh, E2, E3.
Qed.

Lemma integrity_only g : checkLogIntegrity g None None = Ok (true, []) ->
  forall row, In row g.(g_heads) -> check_log_head g row = Ok [].
Proof.
  unfold checkLogIntegrity. intros H row Hi. apply res_bind_Ok in H as (errors & Hm & H). apply Ok_inj in H.
  injection H as _ Hc.
  assert (Hi' : In row (sort_by head_le (List.filter (fun row => selected None (hr_log_id row) && selected None (hr_head row)) (g_heads g)))).
  { eapply Permutation_in; [symmetry; apply sort_by_perm|]. by apply filter_In. }
  destruct (res_map_In _ _ _ _ Hm Hi') as (es & -> & He). f_equal. apply concat_nil_Forall in Hc. rewrite List.Forall_forall in Hc. by apply Hc.
Qed.

(** * Forking again *)

Lemma linked_nth hash es s : linked 0 hash es -> 0 < s <= Z.of_nat (length es) -> exists e, In e es /\ e.(ge_seq) = s.
Proof.
  intros Hl Hs. destruct (nth_error es (Z.to_nat (s - 1))) as [e|] eqn:E; [|apply nth_error_None in E; lia].
  exists e. split; [by eapply nth_error_In|]. apply nth_error_split in E as (l1 & l2 & -> & Hlen).
  apply linked_app in Hl as [_ (E & _)]. lia.
Qed.

Lemma fork_point_found {schema : EventSchema} {proj : LogProjections P} g input L s :
  wf_tables g -> log_is g (source_key input) L -> 0 <= s <= Z.of_nat (length L) ->
  exists id, fork_point g input s = Ok (end_hash GENESIS_EVENT_HASH (take (Z.to_nat s) L), id).
Proof.
  intros Hwf Hl Hs. assert (Hex : exists hash id, fork_point g input s = Ok (hash, id)).
  { unfold fork_point. destruct (Z.ltb_spec 0 s); [|by eexists _, _].
    pose proof (wf_linked _ _ _ _ Hwf Hl) as Hlk. destruct (linked_nth _ L s Hlk) as (e & Hi & Ee); [lia|].
    destruct (lineage_shows g _ L (wb_forest _ _ Hwf) Hl) as (segments & Hseg & Hshows). unfold lineageEventBySeq.
    simpl in Hseg. rewrite Hseg. cbn [res_bind].
    pose proof (find_segment_spec g (fun row => row.(er_seq) =? s) (fun e => e.(ge_seq) =? s) segments L) as Hfind.
    destruct (find_segment _ _ _) as [row|]; [by eexists _, _|]. exfalso.
    assert (Hnone : Forall (fun e => (e.(ge_seq) =? s) = false) L).
    { apply Hfind; [|done]. intros r x Hd. by destruct (decode_fields _ _ Hd) as (_ & _ & -> & _). }
    rewrite List.Forall_forall in Hnone. specialize (Hnone e Hi). simpl in Hnone. lia. }
  destruct Hex as (hash & id & Hp). exists id. rewrite Hp. by rewrite (fork_point_spec g input L s hash id Hwf Hl Hs Hp).
Qed.

Section Again.
Context {schema : EventSchema} {proj : LogProjections P}.

(** The heads stay, and the source and the target of a fork are named and distinct. *)
Lemma fork_heads g input g' result : forkLog g input = Ok (g', result) ->
  (exists rows, g'.(g_heads) = g.(g_heads) ++ rows) /\ head_of g (source_key input) <> None /\
  (input.(fi_fromLogId) =s? "") || (input.(fi_fromHead) =s? "") = false /\
  (input.(fi_toLogId) =s? "") || (input.(fi_toHead) =s? "") = false /\
  (input.(fi_fromLogId) =s? input.(fi_toLogId)) && (input.(fi_fromHead) =s? input.(fi_toHead)) = false.
Proof.
  unfold forkLog. destruct input as [fl fh tl th atSeq owner now]. unfold head_of, source_key.
  cbn [fst snd fi_fromLogId fi_fromHead fi_toLogId fi_toHead].
  do 2 (destruct (_ || _); [done|]). destruct (_ && _); [done|]. destruct (logHeadRow g fl fh); [|done]. destruct (_ <? _); [done|].
  intros H. apply res_bind_Ok in H as ([hash id] & _ & H). split; [|done]. destruct (logHeadRow g tl th).
  - destruct (_ && _); [|done]. apply res_bind_Ok in H as (n & _ & H). apply Ok_inj in H. injection H as <- _.
    exists []. by rewrite app_nil_r.
  - apply res_bind_Ok in H as (o & _ & H). apply res_bind_Ok in H as (i & _ & H).
    apply res_bind_Ok in H as (p & _ & H). apply Ok_inj in H. injection H as <- _. by eexists [_].
Qed.

(** What a fork of a head that is a fork already answers. *)
Lemma fork_found g input s src row hash id inherited :
  (input.(fi_fromLogId) =s? "") || (input.(fi_fromHead) =s? "") = false ->
  (input.(fi_toLogId) =s? "") || (input.(fi_toHead) =s? "") = false ->
  (input.(fi_fromLogId) =s? input.(fi_toLogId)) && (input.(fi_fromHead) =s? input.(fi_toHead)) = false ->
  input.(fi_atSeq) = Some s -> head_of g (source_key input) = Some src -> s <= src.(hr_current_seq) ->
  fork_point g input s = Ok (hash, id) -> head_of g (target_key input) = Some row -> is_fork input s hash row ->
  lineageEventCountThrough g input.(fi_toLogId) input.(fi_toHead) s = Ok inherited ->
  forkLog g input = Ok (g, mkForked s hash inherited).
Proof.
  intros Hfrom Hto Hdist Hat Hsrc Hs Hp Hrow (_ & Ep & Eh & Ef & Es) Hc. unfold forkLog.
  destruct input as [fl fh tl th a o n]. unfold source_key, target_key, head_of in *.
  cbn [fst snd fi_fromLogId fi_fromHead fi_toLogId fi_toHead fi_atSeq] in *.
  subst a. cbn [fi_atSeq]. rewrite Hfrom, Hto, Hdist, Hsrc. change (default (hr_current_seq src) (Some s)) with s. destruct (Z.ltb_spec (hr_current_seq src) s); [lia|]. rewrite Hp. cbn [res_bind].
  rewrite Hrow, Ep, Eh, Es, Ef, Z.eqb_refl, !bool_decide_eq_true_2 by done. cbn [andb]. by rewrite Hc.
Qed.

Lemma through_count g k L s own_es : wf_tables g -> 0 <= s <= Z.of_nat (length L) -> log_is g k (take (Z.to_nat s) L ++ own_es) ->
  lineageEventCountThrough g k.1 k.2 s = Ok s.
Proof.
  intros Hwf Hs Hl. rewrite (count_through_spec g _ _ s (wb_forest _ _ Hwf) Hl). f_equal.
  rewrite (upto_take 0 GENESIS_EVENT_HASH) by (lia || by eapply wf_linked).
  rewrite Z.sub_0_r, take_app_le, take_take, length_take by (rewrite length_take; lia). lia.
Qed.

(** A fork made at a number the caller names is found again. *)
Lemma fork_again g input g' result s :
  wf_tables g -> clean_key (target_key input) -> input.(fi_atSeq) = Some s -> 0 <= s ->
  forkLog g input = Ok (g', result) -> forkLog g' input = Ok (g', result).
Proof.
  intros Hwf Hck Hat Hs H. assert (Hall : forall s', input.(fi_atSeq) = Some s' -> 0 <= s') by (intros s' E; congruence).
  destruct (forkLog_ok g input g' result Hwf Hck Hall H) as (Hwf' & L & [HL Eseq Hb Ehash Einh Htl (row & Hrow & Hisf) Hothers]).
  destruct (fork_heads g input g' result H) as ((rows & Erows) & Hsrc & Hfrom & Hto & Hdist).
  assert (Hne : source_key input <> target_key input).
  { unfold source_key, target_key. intros [= E1 E2]. by rewrite E1, E2, !String.eqb_refl in Hdist. }
  pose proof (Hothers _ L Hne HL) as HL'. rewrite Hat in Eseq. simpl in Eseq. rewrite Eseq in *.
  destruct (fork_point_found g' input L s Hwf' HL' Hb) as (id & Hpoint).
  assert (Hcount : lineageEventCountThrough g' (target_key input).1 (target_key input).2 s = Ok s).
  { destruct (head_of g (target_key input)).
    - destruct Htl as [-> (own_es & Htl)]. by eapply through_count.
    - eapply (through_count g' _ L s []); [done|done|]. by rewrite app_nil_r. }
  destruct (head_of g' (source_key input)) as [src|] eqn:Hsrc'.
  2:{ exfalso. apply Hsrc. destruct (head_of g (source_key input)) as [src|] eqn:E; [|done].
      unfold head_of, logHeadRow in E, Hsrc'. by rewrite Erows, find_app, E in Hsrc'. }
  destruct (wf_pointer _ _ _ _ Hwf' Hsrc' HL') as [Ecur _].
  rewrite (fork_found g' input s src row (fr_forkHash result) id s); try done; [|lia|by rewrite Ehash].
  destruct result as [rs rh ri]. simpl in *. by subst.
Qed.
End Again.
End Forks.
