(* ===== verification/GadReplay.v ===== *)
(** Repeating an append: an event whose id the log has is answered from the log, and
    a batch that was appended is found again as it was stored. *)
From S2P Require Import Prelude Dict JsValue JsText JsJson GadCanon GadCanonLaws GadRefs GadRefsLaws.
From S2P Require Import GadLog GadAppend GadLogLaws GadAppendLaws GadTables GadAppendOk GadForks.
From Stdlib Require Import Sorted.
#[local] Open Scope Z_scope.

(** States are never lost by folding an event or by noting a blob. *)
Class LogProjectionsLaws {P} `{LogProjections P} : Prop := {
  projections_keep p logKind e p' hash :
    applyProjections p logKind e = Ok p' -> stateExists p hash = true -> stateExists p' hash = true;
  blobs_keep p digest size mime hash :
    stateExists p hash = true -> stateExists (ensureBlob p digest size mime) hash = true
}.

Section Replays.
Context {P : Type} {sha : Sha256} {names : Renamed} {schema : EventSchema} {schema_laws : EventSchemaLaws} {proj : LogProjections P}.
Implicit Types (g : Gad P) (k : key).

(** * Looking an id up *)

Lemma NoDup_eids_inj es e e' : NoDup (eids es) -> In e es -> In e' es ->
  e.(ge_event).(ev_envelopeId) = e'.(ge_event).(ev_envelopeId) -> e = e'.
Proof.
  intros Hn Hi Hi' E. induction es as [|x es IH]; [done|]. unfold eids in Hn. cbn [map] in Hn.
  apply list.NoDup_cons in Hn as [Hx Hn].
  assert (Hout : forall y, In y es -> y.(ge_event).(ev_envelopeId) <> x.(ge_event).(ev_envelopeId)).
  { intros y Hy Ey. apply Hx, list_elem_of_In. rewrite <- Ey. by apply (in_map (fun e => ev_envelopeId (ge_event e))). }
  destruct Hi as [->|Hi], Hi' as [->|Hi']; [done|..|by apply IH].
  - by destruct (Hout e' Hi').
  - by destruct (Hout e Hi).
Qed.

(** A lookup by id answers with the envelope of the log that has the id. *)
Lemma lookup_id X g k L id :
  wf_but X g -> log_is g k L ->
  match List.find (fun e => e.(ge_event).(ev_envelopeId) =s? id) L with
  | Some e => exists row, lineageEventRow g k.1 k.2 id = Ok (Some row) /\ mapLogEnvelope row = Ok e
  | None => lineageEventRow g k.1 k.2 id = Ok None
  end.
Proof.
  intros Hwf Hl. destruct (lineage_shows g k L (wb_forest _ _ Hwf) Hl) as (segments & Hs & Hshows).
  unfold lineageEventRow. rewrite Hs. cbn [res_bind].
  pose proof (find_segment_spec g (fun row => row.(er_envelope_id) =s? id)
    (fun e => e.(ge_event).(ev_envelopeId) =s? id) segments L) as Hf.
  destruct (List.find _ L) as [e|] eqn:Hfind; destruct (find_segment _ _ _) as [row|]; [..|done].
  - destruct Hf as (e' & Hd & Hi & E); [|done|]; [intros r x Hr; by destruct (decode_fields _ _ Hr) as (_ & _ & _ & -> & _)|].
    exists row. split; [done|]. apply find_some in Hfind as [Hie Ee]. apply String.eqb_eq in E, Ee.
    assert (e = e') as ->; [|done]. apply (NoDup_eids_inj L); [by apply (wb_ids _ _ Hwf k)|done|done|congruence].
  - exfalso. apply find_some in Hfind as [Hie Ee].
    assert (Hall : Forall (fun e => (e.(ge_event).(ev_envelopeId) =s? id) = false) L).
    { apply Hf; [|done]. intros r x Hr. by destruct (decode_fields _ _ Hr) as (_ & _ & _ & -> & _). }
    rewrite List.Forall_forall in Hall. by rewrite (Hall e Hie) in Ee.
  - exfalso. destruct Hf as (e' & Hd & Hi & E); [|done|]; [intros r x Hr; by destruct (decode_fields _ _ Hr) as (_ & _ & _ & -> & _)|].
    by rewrite (find_none _ _ Hfind e' Hi) in E.
Qed.

Definition with_id (id : string) (L : list GadEnvelope) : option GadEnvelope :=
  List.find (fun e => e.(ge_event).(ev_envelopeId) =s? id) L.

Lemma with_id_In id L e : NoDup (eids L) -> In e L -> e.(ge_event).(ev_envelopeId) = id -> with_id id L = Some e.
Proof.
  intros Hn Hi E. unfold with_id. destruct (List.find _ L) as [e'|] eqn:Hf.
  - apply find_some in Hf as [Hi' E'%String.eqb_eq]. f_equal. apply (NoDup_eids_inj L); [done..|congruence].
  - pose proof (find_none _ _ Hf e Hi) as Hx. simpl in Hx. by rewrite E, String.eqb_refl in Hx.
Qed.

Lemma with_id_Some id L e : with_id id L = Some e -> In e L /\ e.(ge_event).(ev_envelopeId) = id.
Proof. by intros [Hi E%String.eqb_eq]%find_some. Qed.

(** An event to append and the envelope of the log that answers it. *)
Definition replays (byId : bool) (event : PreparedLogEvent) (stored : GadEnvelope) : Prop :=
  stored.(ge_event).(ev_envelopeId) = event.(pe_event).(ev_envelopeId) /\
  let incoming :=
    if event.(pe_appendedAtExplicit) then event.(pe_event)
    else with_appendedAt stored.(ge_event).(ev_appendedAt) event.(pe_event) in
  same_json (logEnvelopeSemantic incoming) (logEnvelopeSemantic stored.(ge_event)) || byId = true.

(** The replayed prefix: the events answered by the log, up to the first that is not. *)
Lemma replay_prefix_spec X g k L byId prepared replayed :
  wf_but X g -> log_is g k L -> replay_prefix g k.1 k.2 byId prepared = Ok replayed ->
  Forall2 (replays byId) (take (length replayed) prepared) replayed /\
  Forall (fun e => In e L) replayed /\ (length replayed <= length prepared)%nat.
Proof.
  intros Hwf Hl. revert replayed. induction prepared as [|event prepared IH]; intros replayed H; cbn [replay_prefix] in H.
  { apply Ok_inj in H as <-. by repeat constructor. }
  pose proof (lookup_id X g k L event.(pe_event).(ev_envelopeId) Hwf Hl) as Hlook.
  destruct (List.find _ L) as [e|] eqn:Hfind.
  - destruct Hlook as (row & Hrow & Hd). rewrite Hrow in H. cbn [res_bind] in H. rewrite Hd in H. cbn [res_bind] in H.
    destruct (_ && _) eqn:Hc in H; [done|]. apply res_bind_Ok in H as (rest & Hrest & H). apply Ok_inj in H as <-.
    destruct (IH rest Hrest) as (H1 & H2 & H3). apply find_some in Hfind as [Hi E%String.eqb_eq]. cbn [length take].
    split; [|split; [by constructor|lia]]. constructor; [|done]. split; [done|]. cbn zeta.
    apply andb_false_iff in Hc as [Hc|Hc]; apply negb_false_iff in Hc; rewrite Hc; [done|by rewrite orb_true_r].
  - rewrite Hlook in H. apply Ok_inj in H as <-. split; [constructor|]. split; [constructor|simpl; lia].
Qed.

(** Events the log answers are all replayed. *)
Lemma replay_all X g k L byId prepared answers :
  wf_but X g -> log_is g k L -> Forall2 (replays byId) prepared answers -> Forall (fun e => In e L) answers ->
  replay_prefix g k.1 k.2 byId prepared = Ok answers.
Proof.
  intros Hwf Hl. induction 1 as [|event e prepared answers [E Hr] _ IH]; intros Hin; [done|].
  apply list.Forall_cons in Hin as [Hi Hin]. cbn [replay_prefix].
  pose proof (lookup_id X g k L event.(pe_event).(ev_envelopeId) Hwf Hl) as Hlook.
  pose proof (with_id_In event.(pe_event).(ev_envelopeId) L e (wb_ids _ _ Hwf k L Hl) Hi E) as Hw.
  unfold with_id in Hw. rewrite Hw in Hlook. destruct Hlook as (row & -> & Hd). cbn [res_bind]. rewrite Hd. cbn [res_bind].
  cbn zeta in Hr. assert (Hc : negb (same_json (logEnvelopeSemantic (if pe_appendedAtExplicit event then pe_event event
      else with_appendedAt (ev_appendedAt (ge_event e)) (pe_event event))) (logEnvelopeSemantic (ge_event e))) && negb byId = false).
  { apply orb_true_iff in Hr as [->| ->]; [done|apply andb_false_r]. }
  rewrite Hc, IH by done. done.
Qed.

(** * What every step of an append keeps *)

Section Keeps.
Context (R : Gad P -> Gad P -> Prop).

(** A relation the writes of an append are in. *)
Record write_rel : Prop := {
  wr_refl g : R g g;
  wr_trans g1 g2 g3 : R g1 g2 -> R g2 g3 -> R g1 g3;
  wr_heads heads g : R g (with_heads heads g);
  wr_insert now g e g' : insertLogEvent now g e = Ok g' -> R g g';
  wr_project g logKind e other : applyProjections g.(g_other) logKind e = Ok other -> R g (with_other other g)
}.

Context (HR : write_rel) (publish : Gad P -> AppendLogEventInput -> res (Gad P * AppendLogEventResult)).
Context (Hpub : forall g input g' result, publish g input = Ok (g', result) -> R g g').

Lemma publishes_rel now e targets acc acc' :
  res_foldl (publish_to publish now e) acc targets = Ok acc' -> R acc.1 acc'.1.
Proof.
  revert acc. induction targets as [|[channelId audience] targets IH]; intros [g published] H; cbn [res_foldl] in H.
  - apply Ok_inj in H as <-. apply HR.
  - apply res_bind_Ok in H as ([g1 p1] & H1 & H). unfold publish_to in H1. apply res_bind_Ok in H1 as ([g2 r] & H1 & E).
    apply Ok_inj in E. injection E as <- _. eapply wr_trans; [done|by eapply Hpub|]. by apply IH in H.
Qed.

Lemma append_one_rel input logKind st event st' :
  append_one publish input logKind st event = Ok st' -> R st.(ap_gad) st'.(ap_gad).
Proof.
  intros H. unfold append_one in H. apply res_bind_Ok in H as (u & _ & H). apply res_bind_Ok in H as (g1 & Hins & H).
  apply res_bind_Ok in H as (other & Hp & H). apply res_bind_Ok in H as (acc & Hf & H). apply Ok_inj in H as <-.
  apply publishes_rel in Hf. cbn [fst ap_gad] in *. eapply wr_trans; [done|by eapply wr_insert|].
  eapply wr_trans; [done|by eapply wr_project|done].
Qed.

Lemma append_body_rel g input g' result : append_body publish g input = Ok (g', result) -> R g g'.
Proof.
  intros H. unfold append_body in H. do 2 (destruct (_ =s? _); [done|]). destruct (bool_decide _); [done|].
  apply res_bind_Ok in H as (logKind & _ & H). apply res_bind_Ok in H as (prepared & _ & H).
  apply res_bind_Ok in H as (replayed & _ & H). apply res_bind_Ok in H as (u & _ & H).
  apply res_bind_Ok in H as (u2 & _ & H). apply res_bind_Ok in H as (st & Hloop & H). apply Ok_inj in H. injection H as <- _.
  eapply (wr_trans HR _ st.(ap_gad)); [|unfold advance_head; destruct (list.last _); by apply HR].
  set (g1 := if isSome _ then g else _) in *. eapply (wr_trans HR _ g1); [unfold g1; destruct (isSome _); by apply HR|].
  match type of Hloop with res_foldl _ ?a _ = _ => change g1 with (ap_gad a); revert Hloop; generalize a end.
  induction (drop _ prepared) as [|event rest IH]; intros a H; cbn [res_foldl] in H; [apply Ok_inj in H as <-; apply HR|].
  apply res_bind_Ok in H as (st1 & H1 & H). eapply wr_trans; [done|by eapply append_one_rel|auto].
Qed.
End Keeps.

Lemma append_rel R g input g' result : write_rel R -> appendLogEvent g input = Ok (g', result) -> R g g'.
Proof.
  intros HR H. eapply append_body_rel; [done| |exact H]. intros g1 i1 g2 r H1. eapply append_body_rel; [done| |exact H1].
  done.
Qed.

(** The states stay. *)
Definition keeps_states g g' : Prop := forall hash, stateExists g.(g_other) hash = true -> stateExists g'.(g_other) hash = true.

Lemma keeps_states_rel {laws : LogProjectionsLaws} : write_rel keeps_states.
Proof.
  constructor; unfold keeps_states; auto.
  - intros now g e g' H hash Hs. unfold insertLogEvent in H. destruct (json_stringify _) as [a|]; [|done].
    destruct (json_stringify _) as [p|]; [|done]. destruct (existsb _ _); [done|]. apply Ok_inj in H as <-.
    match goal with |- context [fold_left _ _ ?a] => assert (Ha : stateExists (g_other a) hash = true) by done; revert Ha; generalize a end.
    induction (collectStoredValueRefs _ _) as [|[path ref] refs IH]; intros a0 Ha; [done|]. cbn [fold_left]. apply IH.
    by apply blobs_keep.
  - intros g logKind e other H hash. by eapply projections_keep.
Qed.

(** The hashes of the rows are distinct. *)
Definition hashes_distinct g : Prop := NoDup (map er_hash g.(g_events)).

Lemma hashes_rel : write_rel (fun g g' => hashes_distinct g -> hashes_distinct g').
Proof.
  constructor; auto. intros now g e g' H Hd. unfold insertLogEvent in H. destruct (json_stringify _) as [a|]; [|done].
  destruct (json_stringify _) as [p|]; [|done]. destruct (existsb _ _) eqn:Hx; [done|]. apply Ok_inj in H.
  pose proof (blob_refs_same now e (collectStoredValueRefs (ev_payload (ge_event e)) "$")
    (mkGad g.(g_heads) (g.(g_events) ++ [event_row e a p]) g.(g_blobRefs) g.(g_other))) as [_ He]. rewrite H in He.
  unfold hashes_distinct. rewrite He. cbn [g_events]. rewrite map_app. apply list.NoDup_app. split; [done|].
  split; [|apply NoDup_singleton]. intros h Hi%list_elem_of_In ->%list_elem_of_singleton.
  apply in_map_iff in Hi as (r & Er & Hr). assert (E : existsb (violates_key (event_row e a p)) (g_events g) = true).
  { apply existsb_exists. exists r. split; [done|]. unfold violates_key. by rewrite Er, String.eqb_refl, orb_true_r. }
  congruence.
Qed.

(** * Appending again *)

(** The ids and the times of the events are the caller's. *)
Definition explicit (input : AppendLogEventInput) : Prop :=
  Forall (fun i => isSome i.(la_envelopeId) = true /\ isSome i.(la_appendedAt) = true) input.(in_events).

(** The same request at another time. *)
Definition retry_event (uuid now : string) (i : LogAppendEventInput) : LogAppendEventInput :=
  {| la_envelopeId := i.(la_envelopeId); la_actor := i.(la_actor); la_to := i.(la_to);
     la_payloadKind := i.(la_payloadKind); la_payload := i.(la_payload); la_causality := i.(la_causality);
     la_annotations := i.(la_annotations); la_appendedAt := i.(la_appendedAt); la_publish := i.(la_publish);
     la_uuid := uuid; la_now := now |}.

Definition retry (uuid now : string) (input : AppendLogEventInput) : AppendLogEventInput :=
  {| in_logId := input.(in_logId); in_head := input.(in_head); in_logKind := input.(in_logKind);
     in_owner := input.(in_owner); in_expectedHeadHash := input.(in_expectedHeadHash);
     in_idempotency := input.(in_idempotency); in_events := map (retry_event uuid now) input.(in_events);
     in_now := now |}.

Lemma res_map_map {A B C} (f : B -> res C) (h : A -> B) l : res_map f (map h l) = res_map (fun x => f (h x)) l.
Proof. induction l as [|x l IH]; [done|]. simpl. by rewrite IH. Qed.

Lemma prepare_retry g logKind uuid now i :
  isSome i.(la_envelopeId) = true -> isSome i.(la_appendedAt) = true ->
  prepareLogEvent g logKind (retry_event uuid now i) = prepareLogEvent g logKind i.
Proof. intros E1 E2. unfold prepareLogEvent, prepare_payload. cbn. by destruct (la_envelopeId i), (la_appendedAt i). Qed.

Lemma transition_keeps g g' kind payload :
  keeps_states g g' -> assertStateTransitionPayloadValid g kind payload = Ok tt ->
  assertStateTransitionPayloadValid g' kind payload = Ok tt.
Proof.
  intros Hk. unfold assertStateTransitionPayloadValid. destruct (_ =s? _); [done|].
  destruct (payload.!"outputStateHash"); try done. destruct (_ =s? _); [done|].
  destruct (stateExists (g_other g) _) eqn:E; [|done]. by rewrite (Hk _ E).
Qed.

Lemma prepare_keeps g g' logKind i event :
  keeps_states g g' -> prepareLogEvent g logKind i = Ok event -> prepareLogEvent g' logKind i = Ok event.
Proof.
  intros Hk. unfold prepareLogEvent. destruct (_ =s? _); [done|]. intros H. apply res_bind_Ok in H as (payload & Hp & H).
  enough (Hp' : prepare_payload g' logKind i (nullish_opt (la_causality i)) (default (la_now i) (la_appendedAt i)) = Ok payload)
    by (rewrite Hp'; exact H).
  unfold prepare_payload in *. destruct (_ && _); [|done].
  apply res_bind_Ok in Hp as (parsed & Hparse & Hp). rewrite Hparse. cbn [res_bind].
  apply res_bind_Ok in Hp as ([] & Hs & Hp). rewrite Hs. cbn [res_bind].
  apply res_bind_Ok in Hp as ([] & Ht & Hp). destruct (existsb _ _); [|exact Hp].
  rewrite (transition_keeps g g' _ _ Hk Ht). exact Hp.
Qed.

Lemma prepared_again g g' logKind uuid now input prepared :
  keeps_states g g' -> explicit input ->
  res_map (prepareLogEvent g logKind) input.(in_events) = Ok prepared ->
  res_map (prepareLogEvent g' logKind) (retry uuid now input).(in_events) = Ok prepared.
Proof.
  unfold explicit. intros Hk He. cbn [retry in_events]. rewrite res_map_map, !res_map_Ok. intros H.
  induction H as [|i event l prepared Hi _ IH]; [constructor|]. apply list.Forall_cons in He as [[E1 E2] He].
  constructor; [|by apply IH]. cbn beta. rewrite prepare_retry by done. by eapply prepare_keeps.
Qed.

(** A stored new event answers its own request. *)
Lemma replays_self byId event e :
  typed_event event.(pe_event) -> e.(ge_event) = event.(pe_event) -> is_undef event.(pe_event).(ev_payload) = false ->
  replays byId event (env_norm e).
Proof.
  intros Ht E Hu. unfold replays. cbn [env_norm ge_event]. rewrite E. split; [done|]. cbn zeta.
  assert (Ea : (if pe_appendedAtExplicit event then pe_event event
                else with_appendedAt (ev_appendedAt (event_norm (pe_event event))) (pe_event event)) = pe_event event).
  { destruct (pe_appendedAtExplicit event); [done|]. by destruct (pe_event event). }
  rewrite Ea. unfold same_json. rewrite semantic_norm, canonical_norm by done. by rewrite bool_decide_eq_true_2.
Qed.

Lemma replays_new byId prepared new :
  Forall (fun event => typed_event event.(pe_event)) prepared -> map ge_event new = map pe_event prepared ->
  Forall (fun e => is_undef e.(ge_event).(ev_payload) = false) new ->
  Forall2 (replays byId) prepared (map env_norm new).
Proof.
  intros Ht. revert new. induction Ht as [|event prepared Hte _ IH]; intros [|e new] E Hu; try done; simpl in *.
  injection E as E1 E2. apply list.Forall_cons in Hu as [Hu Hus]. constructor; [|by apply IH].
  apply replays_self; [done|done|by rewrite <- E1].
Qed.

(** What an append that finds all its events in the log does. *)
Lemma body_all_replayed publish g input row prepared answers :
  (input.(in_logId) =s? "") = false -> (input.(in_head) =s? "") = false -> input.(in_events) <> [] ->
  head_of g (input_key input) = Some row -> row.(hr_log_kind) = input.(in_logKind) ->
  res_map (prepareLogEvent g input.(in_logKind)) input.(in_events) = Ok prepared ->
  replay_prefix g input.(in_logId) input.(in_head) (by_id input) prepared = Ok answers ->
  length answers = length prepared ->
  exists result, append_body publish g input = Ok (g, result) /\ result.(ar_envelopes) = answers /\
    result.(ar_headSeq) = row.(hr_current_seq) /\ result.(ar_headHash) = row.(hr_current_hash).
Proof.
  intros El Eh Ee Hh Hk Hp Hr Hlen. unfold append_body. rewrite El, Eh.
  change (logHeadRow g (in_logId input) (in_head input)) with (head_of g (input_key input)).
  assert (Hl0 : length (in_events input) <> O) by (by destruct (in_events input)).
  rewrite bool_decide_eq_false_2, Hh by done. rewrite Hk, String.eqb_refl. cbn [negb res_bind].
  rewrite Hp. cbn [res_bind isSome]. unfold by_id in Hr. rewrite Hr. cbn [res_bind].
  rewrite Hlen, drop_all. cbn [check_suffix res_bind].
  assert (Hne : answers <> []).
  { intros ->. apply res_map_length in Hp. simpl in Hlen. congruence. }
  assert (Hc : check_head input answers [] (headPointer g (in_logId input) (in_head input)) = Ok tt).
  { unfold check_head. destruct answers; [done|]. done. }
  rewrite Hc. cbn [res_bind res_foldl ap_appended ap_gad ap_published]. unfold advance_head. cbn [list.last].
  eexists. split; [done|]. cbn [ar_envelopes ar_headSeq ar_headHash]. rewrite app_nil_r. split; [done|].
  unfold headPointer. unfold head_of in Hh. simpl in Hh. by rewrite Hh.
Qed.

Lemma append_named g input g' result : appendLogEvent g input = Ok (g', result) ->
  (input.(in_logId) =s? "") = false /\ (input.(in_head) =s? "") = false /\ input.(in_events) <> [].
Proof.
  unfold appendLogEvent, appendLogEventInTxn, append_body at 1.
  destruct (in_logId input =s? ""); [done|]. destruct (in_head input =s? ""); [done|].
  destruct (bool_decide _) eqn:E; [done|]. apply bool_decide_eq_false in E. intros _. by destruct (in_events input).
Qed.

(** Where an envelope is and which. *)
Definition receipt (e : GadEnvelope) : Z * string * string := (e.(ge_seq), e.(ge_event).(ev_envelopeId), e.(ge_hash)).

Lemma replayed_in_log g input g' result prepared replayed new L :
  wf_tables g -> appended_to g input g' result prepared replayed new L ->
  Forall2 (replays (by_id input)) (take (length replayed) prepared) replayed /\
  Forall (fun e => In e L) replayed /\ (length replayed <= length prepared)%nat.
Proof.
  intros Hwf [_ Hr _ HL _ _ _ _ _]. destruct (isSome (head_of g (input_key input))).
  - destruct Hr as [Hr _]. by eapply (replay_prefix_spec [] g (input_key input)).
  - subst. by repeat constructor; simpl; lia.
Qed.

Lemma appended_answers g input g' result prepared replayed new L :
  wf_tables g -> typed_append input -> appended_to g input g' result prepared replayed new L ->
  Forall2 (replays (by_id input)) prepared (replayed ++ map env_norm new) /\
  Forall (fun e => In e (L ++ map env_norm new)) (replayed ++ map env_norm new) /\
  (length replayed <= length prepared)%nat.
Proof.
  intros Hwf Ht Hat. destruct (replayed_in_log _ _ _ _ _ _ _ _ Hwf Hat) as (H1 & H2 & H3).
  destruct Hat as [Hp _ _ _ _ Hnew Hdef _ _]. split; [|split; [|done]].
  - rewrite <- (take_drop (length replayed) prepared) at 1. apply Forall2_app; [done|].
    apply replays_new; [|done|done]. pose proof (prepared_ok _ _ _ _ Ht Hp) as Hall.
    rewrite <- (take_drop (length replayed) prepared) in Hall. apply list.Forall_app in Hall as [_ Hall].
    eapply List.Forall_impl; [|exact Hall]. simpl. tauto.
  - apply Forall_app_2.
    + eapply List.Forall_impl; [|exact H2]. intros e Hi. apply in_app_iff. by left.
    + apply List.Forall_forall. intros e Hi. apply in_app_iff. by right.
Qed.

Lemma append_again {laws : LogProjectionsLaws} uuid now g input g' result :
  wf_tables g -> typed_append input -> explicit input -> appendLogEvent g input = Ok (g', result) ->
  exists again, appendLogEvent g' (retry uuid now input) = Ok (g', again) /\
    map receipt again.(ar_envelopes) = map receipt result.(ar_envelopes) /\
    again.(ar_headSeq) = result.(ar_headSeq) /\ again.(ar_headHash) = result.(ar_headHash).
Proof.
  intros Hwf Ht He H. destruct (append_named _ _ _ _ H) as (El & Eh & Ee).
  destruct (append_ok g input g' result Hwf Ht H) as (Hwf' & _ & prepared & replayed & new & L & Hat).
  destruct (appended_answers _ _ _ _ _ _ _ _ Hwf Ht Hat) as (Hans & Hin & Hlen).
  destruct Hat as [Hp _ _ _ HL' _ _ Hres (row & Hrow & Hkind & Eseq & Ehash)].
  destruct (body_all_replayed (appendLogEventInTxn 1) g' (retry uuid now input) row prepared (replayed ++ map env_norm new))
    as (again & Hagain & Ea & Es & Eg); [done|done| |done|done|..].
  - cbn [retry in_events]. by destruct (in_events input).
  - eapply (prepared_again g); [|done|done]. by eapply (append_rel _ g), H; apply keeps_states_rel.
  - by eapply (replay_all [] g' (input_key input)).
  - symmetry. by eapply Forall2_length.
  - exists again. split; [exact Hagain|]. rewrite Ea, Hres, Es, Eg, !map_app, map_map. done.
Qed.

(** * What an append refuses *)

Definition incoming_event (event : PreparedLogEvent) (stored : GadEnvelope) : LogEvent :=
  if event.(pe_appendedAtExplicit) then event.(pe_event)
  else with_appendedAt stored.(ge_event).(ev_appendedAt) event.(pe_event).

(** The envelopes of the log that answer the events, up to the first event the log
    does not have; [None] when an id of the log comes with other content. *)
Fixpoint answers (byId : bool) (L : list GadEnvelope) (prepared : list PreparedLogEvent) : option (list GadEnvelope) :=
  match prepared with
  | [] => Some []
  | event :: rest =>
      match with_id event.(pe_event).(ev_envelopeId) L with
      | None => Some []
      | Some e =>
          if same_json (logEnvelopeSemantic (incoming_event event e)) (logEnvelopeSemantic e.(ge_event)) || byId
          then (fun l => e :: l) <$> answers byId L rest else None
      end
  end.

(** New events need the expected head; behind replayed ones, these have to be the head. *)
Definition head_refusal (expected : option (option string)) (headHash : string) (replayed : list GadEnvelope)
    (remaining : list PreparedLogEvent) : option string :=
  match list.last replayed, expected with
  | None, Some hash => if default GENESIS_EVENT_HASH hash =s? headHash then None else Some "head-conflict"
  | None, None => None
  | Some e, _ =>
      if bool_decide (remaining = []) || (e.(ge_hash) =s? headHash) then None else Some "replay-mismatch"
  end.

(** The error an append to the log [L] is refused with, if any. *)
Definition refusal (byId : bool) (expected : option (option string)) (L : list GadEnvelope)
    (prepared : list PreparedLogEvent) : option string :=
  match answers byId L prepared with
  | None => Some "id-collision"
  | Some replayed =>
      let remaining := drop (length replayed) prepared in
      if existsb (fun event => isSome (with_id event.(pe_event).(ev_envelopeId) L)) remaining
      then Some "replay-mismatch"
      else
        head_refusal expected (end_hash GENESIS_EVENT_HASH L) replayed remaining
  end.

Lemma replay_prefix_answers X g k L byId prepared :
  wf_but X g -> log_is g k L ->
  match answers byId L prepared with
  | Some l => replay_prefix g k.1 k.2 byId prepared = Ok l
  | None => exists detail, replay_prefix g k.1 k.2 byId prepared = Throw (gadAppendErrorMessage "id-collision" detail)
  end.
Proof.
  intros Hwf Hl. induction prepared as [|event prepared IH]; [done|]. cbn [answers replay_prefix].
  pose proof (lookup_id X g k L event.(pe_event).(ev_envelopeId) Hwf Hl) as Hlook. unfold with_id.
  destruct (List.find _ L) as [e|]; [|by rewrite Hlook].
  destruct Hlook as (row & -> & Hd). cbn [res_bind]. rewrite Hd. cbn [res_bind]. fold (incoming_event event e).
  destruct (same_json _ _); simpl.
  - destruct (answers byId L prepared) as [l|]; simpl; [by rewrite IH|]. destruct IH as (detail & ->). by exists detail.
  - destruct byId; simpl; [|by eexists]. destruct (answers true L prepared) as [l|]; simpl; [by rewrite IH|].
    destruct IH as (detail & ->). by exists detail.
Qed.

Lemma check_suffix_answers X g k L replayed total suffix :
  wf_but X g -> log_is g k L ->
  if existsb (fun event => isSome (with_id event.(pe_event).(ev_envelopeId) L)) suffix
  then exists detail, check_suffix g k.1 k.2 replayed total suffix = Throw (gadAppendErrorMessage "replay-mismatch" detail)
  else check_suffix g k.1 k.2 replayed total suffix = Ok tt.
Proof.
  intros Hwf Hl. induction suffix as [|event suffix IH]; [done|]. cbn [existsb check_suffix].
  pose proof (lookup_id X g k L event.(pe_event).(ev_envelopeId) Hwf Hl) as Hlook. unfold with_id in *.
  destruct (List.find _ L) as [e|]; cbn [isSome orb].
  - destruct Hlook as (row & -> & _). cbn [res_bind]. by eexists.
  - by rewrite Hlook.
Qed.

Lemma check_head_answers g input L row replayed remaining :
  head_of g (input_key input) = Some row -> row.(hr_current_hash) = end_hash GENESIS_EVENT_HASH L ->
  match head_refusal input.(in_expectedHeadHash) (end_hash GENESIS_EVENT_HASH L) replayed remaining with
  | None => check_head input replayed remaining (headPointer g input.(in_logId) input.(in_head)) = Ok tt
  | Some code => exists detail, check_head input replayed remaining (headPointer g input.(in_logId) input.(in_head))
                                = Throw (gadAppendErrorMessage code detail)
  end.
Proof.
  intros Hh Hc. unfold check_head, headPointer. unfold head_of in Hh. cbn [input_key fst snd] in Hh. rewrite Hh. cbn [hp_hash].
  rewrite Hc. unfold head_refusal. destruct (list.last replayed) as [l|] eqn:El.
  - destruct replayed as [|e replayed]; [done|]. destruct remaining as [|event remaining]; [done|]. cbn [res_bind].
    rewrite bool_decide_eq_false_2 by done. simpl orb. destruct (_ =s? _); cbn [negb]; [done|by eexists].
  - apply last_None in El as ->. destruct (in_expectedHeadHash input) as [hash|]; [|by destruct remaining].
    destruct (_ =s? _); cbn [negb res_bind]; [by destruct remaining|by eexists].
Qed.

Lemma append_refused publish g input row L prepared code :
  wf_tables g -> (input.(in_logId) =s? "") = false -> (input.(in_head) =s? "") = false -> input.(in_events) <> [] ->
  head_of g (input_key input) = Some row -> row.(hr_log_kind) = input.(in_logKind) -> log_is g (input_key input) L ->
  res_map (prepareLogEvent g input.(in_logKind)) input.(in_events) = Ok prepared ->
  refusal (by_id input) input.(in_expectedHeadHash) L prepared = Some code ->
  exists detail, append_body publish g input = Throw (gadAppendErrorMessage code detail).
Proof.
  intros Hwf El Eh Ee Hh Hk Hl Hp Hr. unfold append_body. rewrite El, Eh.
  change (logHeadRow g (in_logId input) (in_head input)) with (head_of g (input_key input)).
  assert (Hl0 : length (in_events input) <> O) by (by destruct (in_events input)).
  rewrite bool_decide_eq_false_2, Hh by done. rewrite Hk, String.eqb_refl. cbn [negb res_bind].
  rewrite Hp. cbn [res_bind isSome]. fold (by_id input). unfold refusal in Hr.
  pose proof (replay_prefix_answers [] g (input_key input) L (by_id input) prepared Hwf Hl) as Hans.
  cbn [input_key fst snd] in Hans. destruct (answers _ _ _) as [replayed|].
  2:{ injection Hr as <-. destruct Hans as (detail & ->). by exists detail. }
  rewrite Hans. cbn [res_bind].
  pose proof (check_suffix_answers [] g (input_key input) L (length replayed) (length prepared) (drop (length replayed) prepared) Hwf Hl) as Hsuf.
  cbn [input_key fst snd] in Hsuf. destruct (existsb _ _).
  { injection Hr as <-. destruct Hsuf as (detail & ->). by exists detail. }
  rewrite Hsuf. cbn [res_bind].
  pose proof (check_head_answers g input L row replayed (drop (length replayed) prepared) Hh) as Hc.
  rewrite Hr in Hc. destruct Hc as (detail & ->); [by eapply wf_pointer|]. by exists detail.
Qed.
End Replays.
