(* ===== verification/GadStore.v ===== *)
(** The gad store over time: the steps its log tables take, what holds in every store
    they reach, and the store as the log service of the agents' fold cache. *)
From stdpp Require Import gmap relations.
From S2P Require Import Prelude Dict JsValue JsText JsJson GadCanon GadCanonLaws GadRefs GadRefsLaws.
From S2P Require Import AgentState AgentFold AgentFoldLaws AgentCache AgentCacheProps.
From S2P Require Import GadLog GadAppend GadLogLaws GadAppendLaws GadTables GadAppendOk GadForks GadReplay.
From Stdlib Require Import Sorted.
#[local] Open Scope Z_scope.

(** What holds between two operations. *)
Record store_ok {P : Type} {sha : Sha256} {names : Renamed} (g : Gad P) : Prop := {
  so_wf : wf_tables g;
  so_hashes : hashes_distinct g
}.

Section Store.
Context {P : Type} {sha : Sha256} {names : Renamed} {schema : EventSchema} {schema_laws : EventSchemaLaws} {proj : LogProjections P}.
Implicit Types (g : Gad P) (k : key).

(** * Steps *)

(** What a step does to the names of the heads: nothing, or drop one, or give the rows
    of one another name. *)
Inductive Change := Kept | Dropped (k : key) | HeadRenamed (from to : key).

(** What changes the store. *)
Inductive store_step : Change -> Gad P -> Gad P -> Prop :=
| step_append input g g' result :
    typed_append input -> appendLogEvent g input = Ok (g', result) -> store_step Kept g g'
| step_fork input g g' result :
    clean_key (target_key input) -> (forall s, input.(fi_atSeq) = Some s -> 0 <= s) ->
    forkLog g input = Ok (g', result) -> store_step Kept g g'
| step_delete k g : store_step (Dropped k) g (deleteLogHead g k.1 k.2).1
| step_archive logId archiveHead g :
    store_step (HeadRenamed (logId, MAIN) (logId, archiveHead)) g (archiveRepoMain g logId archiveHead).1
| step_restore logId archiveHead g :
    store_step (HeadRenamed (logId, archiveHead) (logId, MAIN)) g (restoreRepoMain g logId archiveHead).1
| step_other other g : store_step Kept g (with_other other g).

(** The code deletes, archives and restores a head also when other heads were forked
    from it, and these then name a parent that is gone ([deleted_parent], [archived_parent]
    in GadStoreProps): the steps after which logs are still whole are those that leave no
    such head behind. *)
Definition orderly (change : Change) g : Prop :=
  match change with
  | Kept => True
  | Dropped k => unforked g k
  | HeadRenamed from to => unforked g from /\ clean_key to
  end.

(** The heads whose envelopes were hashed under another name. *)
Definition names_after (change : Change) (names : Renamed) : Renamed :=
  match change with HeadRenamed _ to => to :: names | _ => names end.

Definition touches (change : Change) k : Prop :=
  match change with Kept => False | Dropped k' => k' = k | HeadRenamed from to => from = k \/ to = k end.

(** Orderly steps that neither delete the head [k] nor rename it. *)
Definition later k : relation (Gad P) :=
  rtc (fun g g' => exists change, ~ touches change k /\ orderly change g /\ store_step change g g').

(** The stores that orderly steps reach, with the heads that were renamed on the way. *)
Inductive reachable : Renamed -> Gad P -> Prop :=
| reachable_empty other : reachable [] (mkGad [] [] [] other)
| reachable_step names change g g' :
    reachable names g -> orderly change g -> store_step change g g' -> reachable (names_after change names) g'.

Lemma empty_ok (other : P) : store_ok (mkGad [] [] [] other).
Proof.
  constructor; [|constructor]. constructor; [apply forest_nil|by intros ? []|by intros ? ? []|by intros ? []|by intros ? []|].
  intros k es Hl. inversion Hl as [|? row ? Hh|? row ? ? ? ? ? Hh]; subst; [constructor|done..].
Qed.

Lemma fork_events g input g' result : forkLog g input = Ok (g', result) -> g'.(g_events) = g.(g_events).
Proof.
  unfold forkLog. destruct input as [fl fh tl th atSeq owner now].
  do 3 (destruct (_ : bool); [done|]). destruct (logHeadRow g fl fh); [|done]. destruct (_ <? _); [done|].
  intros H. apply res_bind_Ok in H as ([hash id] & _ & H). destruct (logHeadRow g tl th).
  - destruct (_ : bool); [|done]. apply res_bind_Ok in H as (n & _ & H). apply Ok_inj in H. by injection H as <- _.
  - apply res_bind_Ok in H as (o & _ & H). apply res_bind_Ok in H as (i & _ & H).
    apply res_bind_Ok in H as (p & _ & H). apply Ok_inj in H. by injection H as <- _.
Qed.

(** * Renaming *)

(** The heads and the events are the same. *)
Definition same_tables g g' : Prop := g'.(g_heads) = g.(g_heads) /\ g'.(g_events) = g.(g_events).

Lemma log_tables g g' k L : same_tables g g' -> log_is g k L -> log_is g' k L.
Proof.
  intros [Eh Ee]. assert (Hh : forall x, head_of g' x = head_of g x) by (intros x; unfold head_of, logHeadRow; by rewrite Eh).
  assert (Ho : forall x, own g' x = own g x) by (intros x; unfold own; by rewrite Ee).
  induction 1 as [k Hn Hnil|k r es Hr Hfork Hm|k r l h s inh es Hr Hfork Hp IH Hm];
    [apply log_absent|eapply log_root|eapply log_fork]; rewrite ?Hh, ?Ho; done.
Qed.

(** More heads may count as renamed. *)
Lemma wf_more k0 g g' : same_tables g g' -> wf_tables g -> wf_tables (names := k0 :: names) g'.
Proof.
  intros Ht Hwf. pose proof Ht as [Eh Ee]. assert (Ho : forall x, own g' x = own g x) by (intros x; unfold own; by rewrite Ee).
  assert (Hback : same_tables g' g) by by split. constructor; rewrite ?Eh, ?Ee; [apply Hwf|..].
  - intros row Hi. destruct (wb_own _ _ Hwf row Hi) as (es & Hm & Hc). exists es. split; [by rewrite Ho|by apply more_renamed].
  - intros row es Hi HX [Hm _]. destruct (wb_own _ _ Hwf row Hi) as (es' & Hm' & Hc). rewrite Ho in Hm.
    assert (es' = es) as -> by congruence. by apply (wb_points _ _ Hwf row es Hi).
  - apply Hwf.
  - intros row Hi. pose proof (wb_forks _ _ Hwf row Hi) as Hfk. unfold fork_ok in *.
    destruct (fork_of row) as [[[l h] s]|]; [|done]. destruct Hfk as (inh & Hl & Hrest). exists inh. split; [by eapply log_tables|done].
  - intros k es Hl. apply (wb_ids _ _ Hwf k). by eapply log_tables.
Qed.

Lemma existsb_none {A} (f : A -> bool) l : (forall x, In x l -> f x = false) -> existsb f l = false.
Proof. intros H. apply not_true_iff_false. intros (x & Hi & Hx)%existsb_exists. by rewrite H in Hx. Qed.

(** What the updates do to tables in order: none clashes with an event, and when the
    target is a head, or the source none, they change no row. *)
Lemma rename_lineage_tables g logId from to : wf_tables g ->
  let g' := (rename_lineage g logId from to).1 in
  same_tables g g' \/ (head_of g (logId, to) = None /\ renamed_tables g (logId, from) to g').
Proof.
  intros Hwf. cbn zeta. unfold rename_lineage, heads_clash.
  change (logHeadRow g logId from) with (head_of g (logId, from)). change (logHeadRow g logId to) with (head_of g (logId, to)).
  destruct (head_of g (logId, to)) as [row'|] eqn:Eto.
  - destruct (head_of g (logId, from)) eqn:Efrom; [by left|]. cbn [isSome andb].
    assert (Eh : map (head_renamed logId from to) g.(g_heads) = g.(g_heads)).
    { apply head_of_None in Efrom. clear -Efrom. induction (g_heads g) as [|r l IH]; [done|]. cbn [map] in *. rewrite IH by (intros Hi; apply Efrom; by right).
      f_equal. unfold head_renamed. destruct (is_head logId from r) eqn:E; [|done]. exfalso. apply Efrom. left. by apply (is_head_spec (logId, from)). }
    assert (Ho : own g (logId, from) = []) by (apply own_absent; [apply Hwf|done]). unfold own in Ho. cbn [fst snd] in Ho.
    assert (Ee : map (event_renamed logId from to) g.(g_events) = g.(g_events)).
    { clear -Ho. induction (g_events g) as [|r l IH]; [done|]. cbn [map List.filter] in *. unfold event_renamed at 1.
      destruct (of_log logId from r); [done|]. by rewrite IH. }
    left. unfold same_tables. repeat case_match; cbn [fst g_heads g_events with_heads]; by rewrite ?Eh, ?Ee.
  - rewrite andb_false_r.
    assert (Ec : forall heads, events_clash (with_heads heads g) logId from to = false).
    { intros heads. assert (Ho : own g (logId, to) = []) by (apply own_absent; [apply Hwf|done]). unfold own in Ho. cbn [fst snd] in Ho.
      apply existsb_none. intros r _. destruct (of_log logId from r); [|done]. cbn [andb with_heads g_events].
      apply existsb_none. intros r' Hr'. destruct (of_log logId to r') eqn:E; [|done]. exfalso.
      assert (Hi : In r' (List.filter (of_log logId to) g.(g_events))) by by apply filter_In. by rewrite Ho in Hi. }
    rewrite Ec. right. split; [done|]. by case_match.
Qed.

Lemma archive_tables g logId archiveHead : wf_tables g ->
  let g' := (archiveRepoMain g logId archiveHead).1 in
  same_tables g g' \/ (head_of g (logId, archiveHead) = None /\ renamed_tables g (logId, MAIN) archiveHead g').
Proof.
  intros Hwf. cbn zeta. unfold archiveRepoMain. destruct (_ || _); [by left|]. destruct (worktreeState _ _ _); [|by left].
  destruct (_ || _); [by left|]. pose proof (rename_lineage_tables g logId MAIN archiveHead Hwf) as H. cbn zeta in H.
  by destruct (rename_lineage g logId MAIN archiveHead) as [g' []].
Qed.

Lemma restore_tables g logId archiveHead : wf_tables g ->
  let g' := (restoreRepoMain g logId archiveHead).1 in
  same_tables g g' \/ (head_of g (logId, MAIN) = None /\ renamed_tables g (logId, archiveHead) MAIN g').
Proof.
  intros Hwf. cbn zeta. unfold restoreRepoMain. destruct (_ || _); [by left|]. destruct (isSome _); [by left|].
  destruct (worktreeState _ _ _); [|by left]. pose proof (rename_lineage_tables g logId archiveHead MAIN Hwf) as H. cbn zeta in H.
  by destruct (rename_lineage g logId archiveHead MAIN) as [g' []].
Qed.

(** A step that renames a head does nothing else. *)
Lemma renaming g g' from to : wf_tables g -> store_step (HeadRenamed from to) g g' ->
  from.1 = to.1 /\ (same_tables g g' \/ (head_of g to = None /\ renamed_tables g from to.2 g')).
Proof.
  intros Hwf Hs. inversion Hs; subst; (split; [done|]); [by apply archive_tables|by apply restore_tables].
Qed.

Lemma renamed_hashes g k to g' : renamed_tables g k to g' -> hashes_distinct g -> hashes_distinct g'.
Proof.
  unfold hashes_distinct. intros [_ ->]. rewrite map_map. erewrite map_ext; [done|].
  intros r. unfold event_renamed. by destruct (of_log _ _ r).
Qed.

Lemma renaming_ok g g' from to : store_ok g -> unforked g from -> clean_key to -> store_step (HeadRenamed from to) g g' ->
  store_ok (names := to :: names) g'.
Proof.
  intros [Hwf Hd] Hu Hc Hs. destruct (renaming g g' from to Hwf Hs) as [E [Ht|[Hnew Hren]]].
  - constructor; [by eapply wf_more|]. unfold hashes_distinct. by rewrite (proj2 Ht).
  - destruct to as [l h]. cbn [fst snd] in *. subst l. constructor; [by eapply rename_ok|by eapply renamed_hashes].
Qed.

Lemma step_ok change g g' : store_ok g -> orderly change g -> store_step change g g' ->
  store_ok (names := names_after change names) g'.
Proof.
  intros Hg Ho Hs. destruct change as [|k|from to]; [| |destruct Ho; by eapply renaming_ok]; destruct Hg as [Hwf Hd];
    inversion Hs as [input g0 g1 result Ht H|input g0 g1 result Hc Ha H|k0 g0|?|?|other g0]; subst.
  - constructor; [by apply (append_ok g input g' result)|].
    revert Hd. by eapply (append_rel (fun g g' => hashes_distinct g -> hashes_distinct g')), H; apply hashes_rel.
  - constructor; [by apply (forkLog_ok g input g' result)|]. unfold hashes_distinct. by rewrite (fork_events _ _ _ _ H).
  - constructor; [by apply wf_other|done].
  - constructor; [by apply delete_ok|]. unfold hashes_distinct in *. cbn [deleteLogHead fst g_events].
    induction (g_events g) as [|r l IH]; [constructor|]. apply list.NoDup_cons in Hd as [Hr Hd]. simpl.
    destruct (negb _); simpl; [|by apply IH]. apply list.NoDup_cons. split; [|by apply IH].
    intros Hi. apply Hr, list_elem_of_In. apply list_elem_of_In, in_map_iff in Hi as (x & E & [Hx _]%filter_In).
    rewrite <- E. by apply in_map.
Qed.

(** A log is only ever extended. *)
Lemma step_extends change g g' k L :
  store_ok g -> orderly change g -> store_step change g g' -> ~ touches change k -> log_is g k L ->
  exists new, log_is g' k (L ++ new).
Proof.
  intros [Hwf Hd] Ho Hs Hk Hl. destruct change as [|k'|from to].
  - inversion Hs as [input g0 g1 result Ht H|input g0 g1 result Hc Ha H|?|?|?|other g0]; subst.
    + destruct (append_ok g input g' result Hwf Ht H) as (Hwf' & Hg & _).
      destruct (log_grows (written input) g g' k L) as (rows & new & _ & _ & Hl' & _);
        [by eapply wf_tables_ok|apply Hwf|by eapply wf_tables_ok|done|done|]. eauto.
    + destruct (forkLog_ok g input g' result Hwf Hc Ha H) as (_ & LS & Hf). destruct (decide (k = target_key input)) as [->|Hne].
      * pose proof (ft_target _ _ _ _ _ Hf) as Ht. destruct (head_of g (target_key input)) as [row|] eqn:Hh.
        -- destruct Ht as [-> _]. exists []. by rewrite app_nil_r.
        -- inversion Hl; subst; [|congruence..]. eauto.
      * exists []. rewrite app_nil_r. by eapply ft_others.
    + exists []. rewrite app_nil_r. by apply log_other.
  - exists []. rewrite app_nil_r. inversion Hs; subst. apply delete_log; [done| |done]. simpl in Hk. congruence.
  - exists []. rewrite app_nil_r. simpl in Hk, Ho. destruct Ho as [Hu Hc]. destruct (renaming g g' from to Hwf Hs) as [E [Ht|[Hnew Hren]]].
    + by eapply log_tables.
    + destruct to as [l h]. cbn [fst snd] in *. subst l. apply (rename_log g from h g'); try done; intros E; subst k; tauto.
Qed.
End Store.

Section Stores.
Context {P : Type} {sha : Sha256} {schema : EventSchema} {schema_laws : EventSchemaLaws} {proj : LogProjections P}.
Implicit Types (g : Gad P) (k : key) (names : Renamed).

Lemma reachable_ok names g : reachable names g -> store_ok (names := names) g.
Proof. induction 1 as [other|names change g g' _ IH Ho Hs]; [apply empty_ok|by eapply step_ok]. Qed.

Lemma later_ok names k g g' : store_ok (names := names) g -> later k g g' -> exists names', store_ok (names := names') g'.
Proof.
  intros Hg Hl. revert names Hg. induction Hl as [g|g g1 g' (change & _ & Ho & Hs) _ IH]; intros names Hg; [eauto|].
  exact (IH _ (step_ok _ _ _ Hg Ho Hs)).
Qed.

Lemma later_extends names k g g' L :
  store_ok (names := names) g -> later k g g' -> log_is g k L -> exists new, log_is g' k (L ++ new).
Proof.
  intros Hg Hl. revert names L Hg. induction Hl as [g|g g1 g' (change & Hne & Ho & Hs) _ IH]; intros names L Hg HL.
  - exists []. by rewrite app_nil_r.
  - destruct (step_extends change g g1 k L Hg Ho Hs Hne HL) as (new1 & HL1).
    destruct (IH _ _ (step_ok _ _ _ Hg Ho Hs) HL1) as (new2 & HL2). exists (new1 ++ new2). by rewrite app_assoc.
Qed.
End Stores.

Section Reading.
Context {P : Type} {sha : Sha256} {names : Renamed} {schema : EventSchema} {schema_laws : EventSchemaLaws} {proj : LogProjections P}.
Implicit Types (g : Gad P) (k : key).

(** * A renamed head and the integrity check *)

Lemma strict_chain_hash k seq hash es e : strict_chain k seq hash es -> In e es -> e.(ge_hash) = envelope_hash e.
Proof.
  revert seq hash. induction es as [|x es IH]; intros seq hash; [done|]. cbn [chain].
  intros (_ & _ & _ & Hs%sealed_strict & Hc) [->|Hi]; [done|by eapply IH].
Qed.

(** The check does not pass over an envelope that another name was hashed into. *)
Lemma renamed_fails g k to g' row e : wf_tables g -> renamed_tables g k to g' -> head_of g (k.1, to) = None ->
  In row g.(g_events) -> row_key row = k -> mapLogEnvelope row = Ok e -> e.(ge_hash) <> hash_under to e ->
  checkLogIntegrity g' None None <> Ok (true, []).
Proof.
  intros Hwf Hren Hnew Hi Hk Hd Hne Hcheck. pose proof (wb_orphans _ _ Hwf row Hi) as Hh. rewrite Hk in Hh.
  apply in_map_iff in Hh as (head & Ehead & Hhead). set (head' := head_renamed k.1 k.2 to head).
  assert (Hkey : rkey head' = (k.1, to)) by (unfold head'; rewrite (rename_key k to); by rewrite decide_True).
  assert (Hin : In head' g'.(g_heads)) by (rewrite (proj1 Hren); by apply in_map).
  destruct (check_head_only g' head' (integrity_only g' Hcheck head' Hin)) as (es & Hm & Hc & _). rewrite Hkey in Hm, Hc.
  assert (Ho : of_log k.1 k.2 row = true) by by apply of_log_spec.
  assert (Hrow : In (event_renamed k.1 k.2 to row) (sort_by row_seq_le (own g' (k.1, to)))).
  { eapply Permutation_in; [symmetry; apply sort_by_perm|]. unfold own. apply filter_In. split.
    - rewrite (proj2 Hren). by apply in_map.
    - unfold event_renamed. rewrite Ho. apply (of_log_spec (k.1, to)). unfold row_key in Hk. by rewrite <- Hk. }
  destruct (res_map_In _ _ _ _ Hm Hrow) as (e' & Hd' & He'). rewrite (decode_renamed k to row e Ho Hd) in Hd'. apply Ok_inj in Hd' as <-.
  apply Hne. exact (strict_chain_hash _ _ _ _ _ Hc He').
Qed.

Lemma archived_renamed g logId archiveHead g' moved : archiveRepoMain g logId archiveHead = (g', Ok (Some moved)) ->
  wf_tables g -> head_of g (logId, archiveHead) = None /\ renamed_tables g (logId, MAIN) archiveHead g'.
Proof.
  unfold archiveRepoMain. destruct (_ || _); [by intros [= <- ?]|]. destruct (worktreeState _ _ _); [|by intros [= <- ?]].
  change (logHeadRow g logId archiveHead) with (head_of g (logId, archiveHead)).
  destruct (head_of g (logId, archiveHead)) eqn:En; [by intros [= <- ?]|]. destruct (isSome _); [by intros [= <- ?]|]. cbn [orb isSome].
  intros H Hwf. split; [done|]. unfold rename_lineage in H. repeat case_match; simplify_eq; done.
Qed.

(** Restoring the head archived last gives the heads and the events back. *)
Lemma restore_back g logId archiveHead g1 moved1 g2 moved2 : wf_tables g ->
  archiveRepoMain g logId archiveHead = (g1, Ok (Some moved1)) ->
  restoreRepoMain g1 logId archiveHead = (g2, Ok (Some moved2)) -> same_tables g g2.
Proof.
  intros Hwf H1 H2. destruct (archived_renamed _ _ _ _ _ H1 Hwf) as [Hnew [Eh1 Ee1]]. cbn [fst snd] in *.
  assert (H : g2.(g_heads) = map (head_renamed logId archiveHead MAIN) g1.(g_heads) /\
              g2.(g_events) = map (event_renamed logId archiveHead MAIN) g1.(g_events)).
  { unfold restoreRepoMain, rename_lineage in H2. repeat case_match; simplify_eq; done. }
  unfold same_tables. destruct H as [-> ->]. rewrite Eh1, Ee1, !map_map.
  assert (Ho : own g (logId, archiveHead) = []) by (apply own_absent; [apply Hwf|done]).
  split; rewrite <- (map_id (_ g)) at 2; apply map_ext_in; intros r Hr.
  - unfold head_renamed at 2. destruct (is_head logId MAIN r) eqn:E.
    + apply (is_head_spec (logId, MAIN)) in E. unfold rkey in E. unfold head_renamed, is_head. cbn [hr_log_id hr_head].
      destruct r. cbn in E |- *. injection E as -> ->. by rewrite !String.eqb_refl.
    + unfold head_renamed. destruct (is_head logId archiveHead r) eqn:E'; [|done]. apply (is_head_spec (logId, archiveHead)) in E'.
      apply head_of_None in Hnew. exfalso. apply Hnew. rewrite <- E'. by apply in_map.
  - unfold event_renamed at 2. destruct (of_log logId MAIN r) eqn:E.
    + apply (of_log_spec (logId, MAIN)) in E. unfold event_renamed, of_log. cbn [er_log_id er_head].
      destruct r. cbn in E |- *. injection E as -> ->. by rewrite !String.eqb_refl.
    + unfold event_renamed. destruct (of_log logId archiveHead r) eqn:E'; [|done]. exfalso.
      assert (Hi : In r (own g (logId, archiveHead))) by by apply filter_In. by rewrite Ho in Hi.
Qed.

(** * Distinct hashes *)

Lemma log_rows g k L e : log_is g k L -> In e L -> exists row, In row g.(g_events) /\ mapLogEnvelope row = Ok e.
Proof.
  assert (Hown : forall k es, res_map mapLogEnvelope (own g k) = Ok es -> In e es ->
            exists row, In row g.(g_events) /\ mapLogEnvelope row = Ok e).
  { intros k' es Hm Hi. destruct (res_map_In_inv _ _ _ _ Hm Hi) as (row & Hd & [Hr _]%filter_In). eauto. }
  induction 1 as [k Hn Ho|k row es Hh Hf Hm|k row l h s inh es Hh Hf Hp IH Hm]; intros Hi; [done|by eapply Hown|].
  apply in_app_iff in Hi as [Hi|Hi]; [|by eapply Hown]. apply filter_In in Hi as [Hi _]. auto.
Qed.

Lemma hash_inj g k L e e' : store_ok g -> log_is g k L -> In e L -> In e' L -> e.(ge_hash) = e'.(ge_hash) -> e = e'.
Proof.
  intros [_ Hd] Hl Hi Hi' E. destruct (log_rows _ _ _ _ Hl Hi) as (r & Hr & Hdec). destruct (log_rows _ _ _ _ Hl Hi') as (r' & Hr' & Hdec').
  assert (r = r') as ->; [|congruence].
  destruct (decode_fields _ _ Hdec) as (_ & _ & _ & _ & _ & E1 & _). destruct (decode_fields _ _ Hdec') as (_ & _ & _ & _ & _ & E2 & _).
  assert (Eh : er_hash r = er_hash r') by congruence. clear -Hd Hr Hr' Eh. unfold hashes_distinct in Hd.
  induction (g_events g) as [|x l IH]; [done|]. cbn [map] in Hd. apply list.NoDup_cons in Hd as [Hx Hd].
  assert (Hout : forall y, In y l -> er_hash y <> er_hash x) by (intros y Hy Ey; apply Hx, list_elem_of_In; rewrite <- Ey; by apply in_map).
  destruct Hr as [->|Hr], Hr' as [->|Hr']; [done|by destruct (Hout r')|by destruct (Hout r)|by apply IH].
Qed.

Lemma linked_prev seq hash l1 e l2 : linked seq hash (l1 ++ e :: l2) -> e.(ge_prevHash) = end_hash hash l1.
Proof. intros [_ (_ & E & _)]%linked_app. done. Qed.

(** Prefixes of a log that end with the same hash are the same, when no envelope's
    hash is the genesis hash. *)
Lemma prefix_by_hash g k L l1 l2 r1 r2 :
  store_ok g -> log_is g k L -> L = l1 ++ r1 -> L = l2 ++ r2 ->
  Forall (fun e => e.(ge_hash) <> GENESIS_EVENT_HASH) L ->
  end_hash GENESIS_EVENT_HASH l1 = end_hash GENESIS_EVENT_HASH l2 -> l1 = l2.
Proof.
  intros Hg Hl E1 E2 Hgen Hh. pose proof (wf_linked _ _ _ _ (so_wf _ Hg) Hl) as Hlk.
  assert (Hend : forall l r, L = l ++ r -> l = [] \/ exists e, In e L /\ end_hash GENESIS_EVENT_HASH l = e.(ge_hash) /\
                                                         e.(ge_seq) = Z.of_nat (length l)).
  { intros l r E. destruct l as [|e l _] using rev_ind; [by left|]. right. exists e.
    split; [rewrite E, !in_app_iff; simpl; tauto|]. split; [by rewrite end_hash_snoc|].
    rewrite E, <- app_assoc in Hlk. apply linked_app in Hlk as [_ (Es & _)]. rewrite Es, length_app. simpl. lia. }
  rewrite List.Forall_forall in Hgen.
  destruct (Hend l1 r1 E1) as [->|(e1 & Hi1 & Eh1 & Es1)], (Hend l2 r2 E2) as [->|(e2 & Hi2 & Eh2 & Es2)].
  - done.
  - exfalso. apply (Hgen e2 Hi2). rewrite <- Eh2, <- Hh. done.
  - exfalso. apply (Hgen e1 Hi1). rewrite <- Eh1, Hh. done.
  - assert (e1 = e2) as -> by (apply (hash_inj g k L); try done; congruence).
    assert (Elen : length l1 = length l2) by lia. rewrite E1 in E2. by apply app_inj_1 in E2 as [-> _].
Qed.

(** * What a head hash pins down *)

Definition preimage (e : GadEnvelope) : string :=
  logEnvelopeHashPreimage e.(ge_prevHash) e.(ge_logId) e.(ge_head) e.(ge_seq) (logEnvelopeSemantic e.(ge_event)).

(** No two of the envelopes collide. *)
Definition no_collision (es1 es2 : list GadEnvelope) : Prop :=
  forall e1 e2, In e1 es1 -> In e2 es2 -> sha256_hex (preimage e1) = sha256_hex (preimage e2) -> preimage e1 = preimage e2.

(** The same place, the same link and the same content up to the order of keys. *)
Definition same_envelope (e1 e2 : GadEnvelope) : Prop :=
  e1.(ge_logId) = e2.(ge_logId) /\ e1.(ge_head) = e2.(ge_head) /\ e1.(ge_seq) = e2.(ge_seq) /\
  e1.(ge_prevHash) = e2.(ge_prevHash) /\ e1.(ge_hash) = e2.(ge_hash) /\
  same_json (logEnvelopeSemantic e1.(ge_event)) (logEnvelopeSemantic e2.(ge_event)) = true.

Lemma same_preimage e1 e2 :
  no_newline e1.(ge_prevHash) -> no_newline e2.(ge_prevHash) -> e1.(ge_hash) = e2.(ge_hash) ->
  preimage e1 = preimage e2 -> same_envelope e1 e2.
Proof.
  intros H1 H2 Eh (Ep & El & Ehd & Es & Ec)%preimage_inj; [|done..]. unfold same_envelope. do 5 (split; [done|]).
  unfold same_json. apply bool_decide_eq_true.
  destruct (canonical_defined (logEnvelopeSemantic (ge_event e1))) as (t1 & E1); [done|].
  destruct (canonical_defined (logEnvelopeSemantic (ge_event e2))) as (t2 & E2); [done|].
  rewrite E1, E2 in *. simpl in Ec. congruence.
Qed.

Abbreviation strict_linked := (linked (names := [])).

Lemma strict_no_newline seq hash es :
  (forall s, no_newline (sha256_hex s)) -> no_newline hash -> strict_linked seq hash es ->
  Forall (fun e => no_newline e.(ge_prevHash)) es.
Proof.
  intros Hs. revert seq hash. induction es as [|e es IH]; intros seq hash Hh; [constructor|].
  intros (_ & Ep & Eh & Hl). constructor; [by rewrite Ep|]. eapply IH; [|exact Hl].
  apply sealed_strict in Eh as ->. apply Hs.
Qed.

(** Envelopes of heads that were not renamed. *)
Definition original e : Prop := ~ In (e.(ge_logId), e.(ge_head)) renamed.

Lemma linked_strict seq hash es : Forall original es -> linked seq hash es -> strict_linked seq hash es.
Proof.
  intros Ho. revert seq hash. induction Ho as [|e es He _ IH]; intros seq hash; [done|]. cbn [linked].
  intros (Es & Ep & Hs & Hl). do 2 (split; [done|]). split; [|by apply IH]. left. by destruct Hs as [?|[? _]].
Qed.

Lemma same_history es1 es2 :
  (forall s, no_newline (sha256_hex s)) -> no_collision es1 es2 ->
  strict_linked 0 GENESIS_EVENT_HASH es1 -> strict_linked 0 GENESIS_EVENT_HASH es2 -> length es1 = length es2 ->
  end_hash GENESIS_EVENT_HASH es1 = end_hash GENESIS_EVENT_HASH es2 -> Forall2 same_envelope es1 es2.
Proof.
  intros Hs. revert es2. induction es1 as [|e1 es1 IH] using rev_ind; intros es2 Hc H1 H2 Hlen Hend.
  - by destruct es2.
  - destruct es2 as [|e2 es2 _] using rev_ind; [rewrite length_app in Hlen; simpl in Hlen; lia|].
    rewrite !length_app in Hlen. simpl in Hlen. rewrite !end_hash_snoc in Hend.
    assert (Hg : no_newline GENESIS_EVENT_HASH) by (vm_compute; repeat (split; [discriminate|]); exact I).
    pose proof (strict_no_newline _ _ _ Hs Hg H1) as N1. pose proof (strict_no_newline _ _ _ Hs Hg H2) as N2.
    apply list.Forall_app in N1 as [_ N1], N2 as [_ N2]. apply list.Forall_cons in N1 as [N1 _], N2 as [N2 _].
    apply linked_app in H1 as [H1 (_ & P1 & Q1%sealed_strict & _)], H2 as [H2 (_ & P2 & Q2%sealed_strict & _)].
    assert (Hsame : same_envelope e1 e2).
    { apply same_preimage; [done|done|done|]. apply Hc; [apply in_app_iff; right; by left..|].
      change (envelope_hash e1 = envelope_hash e2). congruence. }
    apply Forall2_app; [|by constructor]. apply IH; [|done|done|lia|].
    + intros a b Ha Hb. apply Hc; apply in_app_iff; by left.
    + destruct Hsame as (_ & _ & _ & Ep & _). congruence.
Qed.

(** * The log service of the agents *)

(** An envelope as the agents read it. *)
Definition agent_envelope (e : GadEnvelope) : LogEnvelope :=
  let event := e.(ge_event) in
  {| env_logId := e.(ge_logId); env_head := e.(ge_head); env_seq := e.(ge_seq);
     env_envelopeId := event.(ev_envelopeId); env_actor := event.(ev_actor);
     env_payloadKind := event.(ev_payloadKind); env_payload := event.(ev_payload);
     env_causality := default VUndef event.(ev_causality); env_appendedAt := event.(ev_appendedAt);
     env_prevHash := e.(ge_prevHash); env_hash := e.(ge_hash) |}.

(** The calls of the fold cache, answered by a store. *)
Definition gad_port g : GadPort := {|
  AgentCache.getLogHead logId head :=
    option_map (fun i => mkLogHead i.(hi_seq) i.(hi_hash) i.(hi_forkSeq) i.(hi_forkHash)) (GadLog.getLogHead g logId head);
  AgentCache.readLog logId head afterSeq limit :=
    match GadLog.readLog g (mkReadLogInput logId head (Some afterSeq) None (Some (Z.of_nat limit)) None) with
    | Ok envelopes => map agent_envelope envelopes
    | Throw _ => []
    end
|}.

Lemma map_filter_env (p : GadEnvelope -> bool) (q : LogEnvelope -> Prop) `{!forall e, Decision (q e)} es :
  (forall e, p e = bool_decide (q (agent_envelope e))) ->
  map agent_envelope (List.filter p es) = base.filter q (map agent_envelope es).
Proof.
  intros Hpq. induction es as [|e es IH]; [done|]. cbn [List.filter map]. rewrite Hpq, filter_cons.
  destruct (decide (q (agent_envelope e))) as [Hq|Hq]; [rewrite bool_decide_eq_true_2 by done|rewrite bool_decide_eq_false_2 by done];
    cbn [map]; by rewrite IH.
Qed.

Lemma linked_numbered seq hash es : linked seq hash es -> numbered (map agent_envelope es).
Proof.
  intros Hl%linked_by_seq. unfold numbered. induction Hl as [|e es _ IH Hlt]; [constructor|]. cbn [map]. constructor; [done|].
  apply List.Forall_forall. intros x (y & <- & Hy)%in_map_iff. rewrite List.Forall_forall in Hlt. by apply Hlt.
Qed.

Lemma map_eq_snoc {A B} (f : A -> B) l m y : map f l = m ++ [y] -> exists l' x, l = l' ++ [x] /\ map f l' = m /\ f x = y.
Proof.
  intros E. apply map_eq_app in E as (l1 & l2 & -> & <- & E). destruct l2 as [|x [|? ?]]; simplify_eq/=. by eexists _, _.
Qed.

(** Every head of a store in order is served. *)
Lemma gad_serves g k row L :
  store_ok g -> head_of g k = Some row -> log_is g k L ->
  @serves (gad_port g) k.1 k.2 (map agent_envelope L)
    (mkLogHead row.(hr_current_seq) row.(hr_current_hash) row.(hr_fork_seq) row.(hr_fork_hash)).
Proof.
  intros [Hwf _] Hh Hl. pose proof (wf_linked _ _ _ _ Hwf Hl) as Hlk. pose proof (wf_pointer _ _ _ _ Hwf Hh Hl) as [Ec Eh].
  constructor.
  - unfold AgentCache.getLogHead, gad_port, GadLog.getLogHead, headPointer. unfold head_of in Hh. by rewrite Hh.
  - intros seq limit Hlimit. unfold AgentCache.readLog, gad_port.
    rewrite (readLog_spec g (mkReadLogInput k.1 k.2 (Some seq) None (Some (Z.of_nat limit)) None) L);
      [|apply Hwf|by eapply wf_sorted|by destruct k].
    unfold read_limit. cbn [ri_limit]. destruct (Z.ltb_spec 0 (Z.of_nat limit)); [|lia]. rewrite Nat2Z.id. cbn [take_limit].
    rewrite <- firstn_map. f_equal. apply map_filter_env. intros e. unfold in_read. simpl.
    rewrite !andb_true_r. destruct (Z.ltb_spec seq (ge_seq e)); [by rewrite bool_decide_eq_true_2|rewrite bool_decide_eq_false_2; [done|simpl; lia]].
  - by eapply linked_numbered.
  - apply linked_bounds in Hlk. apply List.Forall_forall. intros x (e & <- & He)%in_map_iff.
    rewrite List.Forall_forall in Hlk. specialize (Hlk e He). simpl in *. lia.
  - intros log' x (L' & e & E1 & <- & <-)%map_eq_snoc. cbn [lh_seq lh_hash].
    rewrite Ec, Eh, E1, end_hash_snoc. split; [|done]. rewrite E1 in Hlk. apply linked_app in Hlk as [_ (Es & _)].
    simpl. rewrite Es, length_app. simpl. lia.
Qed.

(** A refold stands at the last envelope. *)
Lemma cold_last a ra front e st :
  cold a ra (front ++ [e]) = Ok st -> st.(lastSeq) = e.(env_seq) /\ st.(lastHash) = e.(env_hash).
Proof.
  unfold cold. intros H. apply res_bind_Ok in H as (st1 & Hf & H). apply Ok_inj in H as <-.
  unfold foldEvents in Hf. rewrite res_foldl_app in Hf. apply res_bind_Ok in Hf as (st0 & _ & Hf). simpl in Hf.
  apply res_bind_Ok in Hf as (st2 & Ha & Hf). apply Ok_inj in Hf as <-. by destruct (applyEvent_frame _ _ _ Ha) as (E1 & E2 & _).
Qed.

(** The hashes of a store tell where a log continues a refold of its beginning. *)
Lemma gad_hashes g k row L front rest a ra st :
  store_ok g -> head_of g k = Some row -> log_is g k L -> L = front ++ rest -> front <> [] ->
  Forall (fun e => e.(ge_hash) <> GENESIS_EVENT_HASH) L -> cold a ra (map agent_envelope front) = Ok st ->
  hashes_identify (map agent_envelope L) (map agent_envelope front)
    (mkLogHead row.(hr_current_seq) row.(hr_current_hash) row.(hr_fork_seq) row.(hr_fork_hash)) st.
Proof.
  intros Hg Hh Hl EL Hne Hgen Hcold. destruct (exists_last Hne) as (front' & e & Ef).
  pose proof Hcold as Hlast. rewrite Ef, map_app in Hlast. apply cold_last in Hlast as [Es Eh]. simpl in Es, Eh.
  pose proof (wf_linked _ _ _ _ (so_wf _ Hg) Hl) as Hlk. pose proof (wf_pointer _ _ _ _ (so_wf _ Hg) Hh Hl) as [Ec _].
  assert (Eseq : ge_seq e = Z.of_nat (length front)).
  { pose proof Hlk as Hlk'. rewrite EL, Ef, <- app_assoc in Hlk'. apply linked_app in Hlk' as [_ (E & _)].
    rewrite E, Ef, length_app. simpl. lia. }
  assert (Ehash : end_hash GENESIS_EVENT_HASH front = ge_hash e) by (by rewrite Ef, end_hash_snoc). split.
  - cbn [lh_seq lh_hash]. intros E _. rewrite Ec, Es, Eseq, EL, length_app in E.
    assert (rest = []) as -> by (destruct rest; [done|simpl in E; lia]). by rewrite EL, app_nil_r.
  - intros l1 x l2 E Hprev. apply map_eq_app in E as (L1 & L2 & E & <- & E2). destruct L2 as [|y L2]; [done|].
    injection E2 as <- _. f_equal. apply (prefix_by_hash g k L L1 front (y :: L2) rest); try done.
    rewrite E in Hlk. rewrite <- (linked_prev _ _ _ _ _ Hlk). simpl in Hprev. congruence.
Qed.
End Reading.
