(* ===== verification/GadWindow.v ===== *)
(** The replay windows of a channel of the gad store: the pages a client asks for when
    it joins or scrolls back are slices of the channel's log, and the counts and flags
    beside them are those of the log. *)
From stdpp Require Import sorting.
From S2P Require Import Prelude Dict JsValue JsText JsJson GadCanon GadCanonLaws GadRefs GadRefsLaws.
From S2P Require Import GadLog GadAppend GadLogLaws GadAppendLaws GadTables GadForks.
From Stdlib Require Import Sorted.
#[local] Open Scope Z_scope.

Section Windows.
Context {P : Type} {sha : Sha256} {names : Renamed}.
Implicit Types (g : Gad P) (k : key).

(** * Slices of a chain *)

Lemma linked_after seq hash es s : linked seq hash es ->
  List.filter (fun e => s <? e.(ge_seq)) es = drop (Z.to_nat (s - seq)) es.
Proof.
  revert seq hash. induction es as [|e es IH]; intros seq hash; [by rewrite drop_nil|]. cbn [linked List.filter].
  intros (E & _ & _ & Hl). rewrite E. destruct (Z.ltb_spec s (seq + 1)) as [Hlt|Hge].
  - replace (Z.to_nat (s - seq)) with O by lia. cbn [drop]. f_equal. rewrite (IH _ _ Hl).
    by replace (Z.to_nat (s - (seq + 1))) with O by lia.
  - rewrite (IH _ _ Hl). by replace (Z.to_nat (s - seq)) with (S (Z.to_nat (s - (seq + 1)))) by lia.
Qed.

Lemma linked_before hash es b : linked 0 hash es ->
  List.filter (fun e => e.(ge_seq) <? b) es = take (Z.to_nat (b - 1)) es.
Proof.
  intros Hl. destruct (Z.leb_spec 1 b) as [Hb|Hb].
  - replace (Z.to_nat (b - 1)) with (Z.to_nat (b - 1 - 0)) by lia. rewrite <- (upto_take 0 hash) by (done || lia).
    unfold upto. apply filter_ext_eq. intros e. simpl. destruct (Z.ltb_spec (ge_seq e) b), (Z.leb_spec (ge_seq e) (b - 1)); lia.
  - replace (Z.to_nat (b - 1)) with O by lia. apply linked_bounds in Hl. simpl in Hl.
    induction Hl as [|e l He _ IH]; [done|]. simpl. destruct (Z.ltb_spec (ge_seq e) b); [lia|done].
Qed.

Lemma last_n_drop {A} n (l : list A) : last_n n l = drop (length l - n) l.
Proof. unfold last_n. rewrite !rev_alt. fold (reverse l). rewrite take_reverse. change (rev_append ?x []) with (reverse x). by rewrite reverse_involutive. Qed.

(** * Statistics *)

Definition min_first (first : option Z) (es : list GadEnvelope) : option Z :=
  match es with
  | [] => first
  | e :: _ => Some match first with None => e.(ge_seq) | Some f => Z.min f e.(ge_seq) end
  end.

Lemma stats_fold g input segments parts stats :
  sorted_tables g -> Forall2 (seg_part g) (rev segments) parts -> by_seq (concat (map (asked input) parts)) ->
  fold_left
    (fun stats segment =>
       match select_segment g segment input with
       | [] => stats
       | (row :: _) as rows =>
           mkStats (stats.(st_count) + Z.of_nat (length rows))
             (Some match stats.(st_firstSeq) with None => row.(er_seq) | Some first => Z.min first row.(er_seq) end)
       end) segments stats
  = mkStats (stats.(st_count) + Z.of_nat (length (concat (map (asked input) parts))))
      (min_first stats.(st_firstSeq) (concat (map (asked input) parts))).
Proof.
  intros Hs. revert parts stats. induction segments as [|segment segments IH]; intros parts stats Hp Hsorted; cbn [rev] in Hp.
  - inversion Hp; subst. simpl. rewrite Z.add_0_r. by destruct stats.
  - apply Forall2_app_inv_l in Hp as (parts1 & parts2 & Hp1 & Hp2 & ->).
    inversion Hp2 as [|? part ? ? Hpart Hnil]; subst. inversion Hnil; subst. clear Hp2 Hnil.
    rewrite map_app, concat_app in Hsorted |- *. cbn [map] in Hsorted |- *. rewrite concat_cons, app_nil_r in Hsorted |- *.
    apply StronglySorted_app in Hsorted as (Hlt & Hs1 & _). cbn [fold_left].
    pose proof (select_part g segment input part Hs Hpart) as Hsel. apply res_map_length in Hsel as Hlen.
    rewrite (IH parts1 _ Hp1 Hs1), length_app. destruct (select_segment g segment input) as [|row rows].
    + destruct (asked input part); [|done]. by rewrite app_nil_r, Nat.add_0_r.
    + destruct (asked input part) as [|e es] eqn:Ea; [done|]. cbn [st_count st_firstSeq].
      cbn [res_map] in Hsel. apply res_bind_Ok in Hsel as (e' & Hd & Hsel). apply res_bind_Ok in Hsel as (es' & _ & E).
      apply Ok_inj in E. injection E as -> ->. destruct (decode_fields _ _ Hd) as (_ & _ & Eseq & _). rewrite <- Eseq.
      f_equal; [rewrite Hlen; lia|]. destruct (concat (map (asked input) parts1)) as [|x xs]; [done|]. simpl.
      assert (ge_seq x < ge_seq e) by (apply Hlt; apply list_elem_of_In; by left). f_equal. destruct (st_firstSeq stats); lia.
Qed.

Lemma stats_spec g channelId L :
  wf_tables g -> log_is g (channelId, CHANNEL_LOG_HEAD) L ->
  lineageEventStats g (channel_read channelId None None None)
  = Ok (mkStats (Z.of_nat (length L)) (match L with [] => None | _ => Some 1 end)).
Proof.
  intros Hwf Hl. destruct (lineage_shows g _ L (wb_forest _ _ Hwf) Hl) as (segments & Hs & parts & Hparts & EL).
  pose proof (wf_linked _ _ _ _ Hwf Hl) as Hlk.
  assert (Ea : concat (map (asked (channel_read channelId None None None)) parts) = L).
  { rewrite <- asked_concat, EL. by eapply (asked_all channelId CHANNEL_LOG_HEAD) in Hlk. }
  unfold lineageEventStats. simpl in Hs. cbn [ri_logId ri_head channel_read]. rewrite Hs. cbn [res_bind].
  rewrite (stats_fold g _ segments parts) by (by eapply wf_sorted || done || (rewrite Ea; by eapply linked_by_seq)).
  rewrite Ea. cbn [st_count st_firstSeq]. do 2 f_equal. destruct L as [|e L]; [done|]. destruct Hlk as (E & _). simpl. by rewrite E.
Qed.

(** * Windows *)

Definition clamp (limit : option Z) : nat := Z.to_nat (Z.min (Z.max (default 50 limit) 0) 500).

(** The part of a log a window shows. *)
Definition window_part (L : list GadEnvelope) (mode : ReplayMode) (sinceSeq beforeSeq : option Z) (n : nat) : list GadEnvelope :=
  match mode with
  | ReplayInitial => drop (length L - n) L
  | ReplayAfter => let rest := drop (Z.to_nat (default 0 sinceSeq)) L in if (n =? 0)%nat then rest else take n rest
  | ReplayBefore => let front := take (Z.to_nat (default 0 beforeSeq - 1)) L in drop (length front - n) front
  end.

(** Whether the log has an envelope before the number. *)
Definition earlier (L : list GadEnvelope) (seq : Z) : bool := existsb (fun e => e.(ge_seq) <? seq) L.

Lemma earlier_first hash L seq : linked 0 hash L ->
  earlier L seq = match (match L with [] => None | _ => Some 1 end) with Some first => first <? seq | None => false end.
Proof.
  destruct L as [|e L]; [done|]. intros Hl. pose proof (linked_bounds _ _ _ Hl) as Hb. destruct Hl as (E & _). unfold earlier. cbn [existsb].
  rewrite E, Z.add_0_l. destruct (Z.ltb_spec 1 seq) as [|Hle]; [done|]. simpl.
  apply list.Forall_cons in Hb as [_ Hb]. induction Hb as [|x l Hx _ IH]; [done|]. simpl. rewrite IH.
  destruct (Z.ltb_spec (ge_seq x) seq); [|done]. lia.
Qed.

Lemma window_rows_spec g channelId L mode sinceSeq beforeSeq limit :
  wf_tables g -> log_is g (channelId, CHANNEL_LOG_HEAD) L -> (mode = ReplayBefore -> beforeSeq <> None) ->
  window_rows g channelId mode sinceSeq beforeSeq (Z.of_nat (clamp limit))
  = Ok (window_part L mode sinceSeq beforeSeq (clamp limit)).
Proof.
  intros Hwf Hl Hb. pose proof (wf_linked _ _ _ _ Hwf Hl) as Hlk. pose proof (wf_sorted _ _ Hwf) as Hs. pose proof (wb_forest _ _ Hwf) as Hf.
  set (n := clamp limit). destruct mode; cbn [window_rows window_part].
  - rewrite (readLogTail_spec g (channel_read channelId None None (Some (Z.of_nat n))) L (Z.of_nat n)) by done.
    rewrite Nat2Z.id, last_n_drop. f_equal.
    assert (E : asked (channel_read channelId None None (Some (Z.of_nat n))) L = L) by exact (asked_all channelId CHANNEL_LOG_HEAD L Hlk).
    by rewrite E.
  - rewrite (readLog_spec g (channel_read channelId (Some (default 0 sinceSeq)) None (Some (Z.of_nat n))) L) by done.
    assert (E : asked (channel_read channelId (Some (default 0 sinceSeq)) None (Some (Z.of_nat n))) L
              = drop (Z.to_nat (default 0 sinceSeq)) L).
    { unfold asked. rewrite (filter_ext_eq _ (fun e => default 0 sinceSeq <? e.(ge_seq))).
      - by rewrite (linked_after 0 GENESIS_EVENT_HASH), Z.sub_0_r.
      - intros e. unfold in_read. simpl. by rewrite !andb_true_r. }
    rewrite E. unfold read_limit. cbn [ri_limit channel_read]. f_equal.
    destruct (Z.ltb_spec 0 (Z.of_nat n)), (Nat.eqb_spec n 0); try lia; cbn [take_limit]; [by rewrite Nat2Z.id|done].
  - destruct beforeSeq as [b|]; [|by destruct (Hb eq_refl)]. cbn [default].
    rewrite (readLogTail_spec g (channel_read channelId None (Some b) (Some (Z.of_nat n))) L (Z.of_nat n)) by done.
    assert (E : asked (channel_read channelId None (Some b) (Some (Z.of_nat n))) L = take (Z.to_nat (b - 1)) L).
    { unfold asked. rewrite (filter_ext_in _ (fun e => e.(ge_seq) <? b)); [by eapply linked_before|].
      intros e He. pose proof (linked_bounds _ _ _ Hlk) as Hbd. rewrite List.Forall_forall in Hbd. specialize (Hbd e He).
      unfold in_read. simpl in *. rewrite andb_true_r. by destruct (Z.ltb_spec 0 (ge_seq e)); [|lia]. }
    by rewrite E, Nat2Z.id, last_n_drop.
Qed.

Lemma replay_window_spec g channelId L mode sinceSeq beforeSeq limit :
  wf_tables g -> log_is g (channelId, CHANNEL_LOG_HEAD) L -> (mode = ReplayBefore -> beforeSeq <> None) ->
  let rows := window_part L mode sinceSeq beforeSeq (clamp limit) in
  let from := option_map ge_seq (list.head rows) in
  getChannelReplayWindow g channelId mode sinceSeq beforeSeq limit
  = Ok {| rw_envelopes := map (channelEnvelopeView channelId) rows;
          rw_totalCount := Z.of_nat (length L);
          rw_firstEnvelopeSeq := match L with [] => None | _ => Some 1 end;
          rw_replayFromId := from;
          rw_replayToId := option_map ge_seq (list.last rows);
          rw_hasMoreBefore :=
            match mode with
            | ReplayInitial => Some match from with Some seq => earlier L seq | None => false end
            | ReplayBefore => Some (earlier L (match from with Some seq => seq | None => default 0 beforeSeq end))
            | ReplayAfter => None
            end |}.
Proof.
  intros Hwf Hl Hb. cbn zeta. unfold getChannelReplayWindow. pose proof (wf_linked _ _ _ _ Hwf Hl) as Hlk.
  rewrite (stats_spec g channelId L Hwf Hl). cbn [res_bind].
  replace (Z.min (Z.max (default 50 limit) 0) 500) with (Z.of_nat (clamp limit)) by (unfold clamp; lia).
  rewrite (window_rows_spec g channelId L) by done. cbn [res_bind st_count st_firstSeq]. f_equal. f_equal.
  destruct mode; [|done|].
  - destruct (option_map _ _); [|done]. by rewrite (earlier_first GENESIS_EVENT_HASH).
  - set (anchor := match option_map _ _ with Some s => s | None => _ end). rewrite (earlier_first GENESIS_EVENT_HASH) by done.
    destruct L; [by rewrite andb_false_r|]. destruct (Z.ltb_spec 1 anchor), (Z.ltb_spec 0 anchor); try done. lia.
Qed.
End Windows.
