(* ===== verification/GadSamples.v ===== *)
(** A small gad store: a hash, a schema and projections that can be computed, a store
    reached by an append with a publication, a second append and a fork, and one with a
    repository that is archived. *)
From stdpp Require Import gmap relations.
From S2P Require Import Prelude Dict JsValue JsText JsJson GadCanon GadCanonLaws GadRefs GadRefsLaws.
From S2P Require Import AgentState AgentFold AgentCache AgentCacheProps AgentSamples.
From S2P Require Import GadLog GadAppend GadLogLaws GadAppendLaws GadTables GadAppendOk GadForks GadReplay GadStore.
#[local] Open Scope Z_scope.

(** A text without its line breaks, for a digest. *)
Fixpoint one_line (s : string) : string :=
  match s with
  | EmptyString => EmptyString
  | String c s' => if Ascii.eqb c (Ascii.ascii_of_nat 10%nat) then one_line s' else String c (one_line s')
  end.

Definition toy_digest (s : string) : string :=
  one_line ("h" ^^ pretty (fold_left (fun n c => (n * 31 + Z.of_nat (Ascii.nat_of_ascii c)) mod 1000000007)
                             (String.list_ascii_of_string s) 7)).

#[export] Instance sample_sha : Sha256 := toy_digest.
#[export] Instance sample_schema : EventSchema := fun v => Ok v.

(** The other tables: the states there are. *)
#[export] Instance sample_projections : LogProjections (list string) := {|
  applyProjections p _ _ := Ok p;
  stateExists p hash := existsb (String.eqb hash) p;
  ensureBlob p _ _ _ := p;
  forgetHead p _ _ _ := p;
  worktreeState p logId head :=
    option_map (fun _ => "state:x") (List.find (String.eqb (logId ^^ "@" ^^ head)) p);
  renameWorktreeHead p logId from to :=
    map (fun name => if name =s? logId ^^ "@" ^^ from then logId ^^ "@" ^^ to else name) p;
  forgetMemory p _ _ := p
|}.

#[export] Instance sample_schema_laws : EventSchemaLaws.
Proof. intros v w Hw Hv. apply Ok_inj in Hw. by subst. Qed.

#[export] Instance sample_projections_laws : LogProjectionsLaws.
Proof. constructor; [|done]. intros p logKind e p' hash H. apply Ok_inj in H. by subst. Qed.

Lemma one_line_no_newline s : no_newline (one_line s).
Proof.
  induction s as [|c s IH]; [done|]. simpl. destruct (Ascii.eqb c _) eqn:E; [done|]. split; [|done].
  intros ->. by rewrite Ascii.eqb_refl in E.
Qed.

Lemma sample_no_newline s : no_newline (sha256_hex s).
Proof. apply one_line_no_newline. Qed.

Definition sample_input (id kind turn : string) (actor payload : val) (publish : list (string * val)) : LogAppendEventInput :=
  {| la_envelopeId := Some id; la_actor := actor; la_to := VUndef; la_payloadKind := kind; la_payload := payload;
     la_causality := VObj [("turnId", VStr turn)]; la_annotations := VUndef; la_appendedAt := Some "t0";
     la_publish := publish; la_uuid := ""; la_now := "t0" |}.

Definition sample_append (expected : option (option string)) (events : list LogAppendEventInput) : AppendLogEventInput :=
  {| in_logId := "branch:channel:c"; in_head := "branch:channel:c"; in_logKind := "trajectory"; in_owner := VUndef;
     in_expectedHeadHash := expected; in_idempotency := None; in_now := "t0"; in_events := events |}.

Definition sample_message : val := VObj [("role", VStr "user"); ("blocks", VArr [])].

(** A message, published to a channel, and the turn it opens. *)
Definition sample_batch : AppendLogEventInput :=
  sample_append (Some None)
    [sample_input "e1" "message.completed" "t1" sample_user sample_message [("c", VUndef)];
     sample_input "e2" "turn.opened" "t1" sample_self (VObj []) []].

Definition sample_second : AppendLogEventInput :=
  sample_append None [sample_input "e3" "message.completed" "t1" sample_self sample_message []].

Definition sample_fork : ForkLogInput :=
  {| fi_fromLogId := "branch:channel:c"; fi_fromHead := "branch:channel:c"; fi_toLogId := "branch:channel:d";
     fi_toHead := "branch:channel:d"; fi_atSeq := Some 2; fi_owner := VUndef; fi_now := "t1" |}.

Definition sample_empty : Gad (list string) := mkGad [] [] [] [].
Definition sample_key : key := ("branch:channel:c", "branch:channel:c").

Definition sample_result (r : res (Gad (list string) * AppendLogEventResult)) : Gad (list string) :=
  match r with Ok (g, _) => g | Throw _ => sample_empty end.

Definition sample_first : Gad (list string) := Eval vm_compute in sample_result (appendLogEvent sample_empty sample_batch).
Definition sample_store : Gad (list string) := Eval vm_compute in sample_result (appendLogEvent sample_first sample_second).

(** The log of a head. *)
Definition sample_log_of (g : Gad (list string)) (k : key) : list GadEnvelope :=
  match GadLog.readLog g (mkReadLogInput k.1 k.2 None None None None) with Ok es => es | Throw _ => [] end.

Ltac js_vals :=
  repeat first
    [ progress simpl
    | match goal with
      | |- js_record _ => split; [|reflexivity]
      | |- js_val (VObj _) => apply js_val_obj
      | |- js_val (VArr _) => apply js_val_arr
      | |- dict_wf _ => apply (bool_decide_unpack _); vm_compute; exact I
      | |- _ /\ _ => split
      | |- Forall _ _ => constructor
      | |- _ <> _ => discriminate
      end
    | exact I ].

Lemma sample_batch_typed : typed_append sample_batch.
Proof. constructor; [by js_vals| |by js_vals]. do 2 (constructor; [constructor; by js_vals|]). constructor. Qed.

Lemma sample_second_typed : typed_append sample_second.
Proof. constructor; [by js_vals| |by js_vals]. constructor; [constructor; by js_vals|]. constructor. Qed.

Lemma sample_first_appended : exists result, appendLogEvent sample_empty sample_batch = Ok (sample_first, result).
Proof. eexists. vm_compute. reflexivity. Qed.

Lemma sample_second_appended : exists result, appendLogEvent sample_first sample_second = Ok (sample_store, result).
Proof. eexists. vm_compute. reflexivity. Qed.

Lemma sample_first_reachable : reachable [] sample_first.
Proof.
  destruct sample_first_appended as (result & H). apply (reachable_step [] Kept sample_empty); [constructor|done|].
  by eapply step_append, H; apply sample_batch_typed.
Qed.

Lemma sample_store_later : later sample_key sample_first sample_store.
Proof.
  destruct sample_second_appended as (result & H). apply rtc_once. exists Kept. split; [by intros []|]. split; [done|].
  by eapply step_append, H; apply sample_second_typed.
Qed.

Lemma sample_store_reachable : reachable [] sample_store.
Proof.
  destruct sample_second_appended as (result & H). apply (reachable_step [] Kept sample_first); [apply sample_first_reachable|done|].
  by eapply step_append, H; apply sample_second_typed.
Qed.

(** Reading all of a log gives the log. *)
Lemma read_log_is names (g : Gad (list string)) k L : reachable names g -> sample_log_of g k = L -> log_is g k L.
Proof.
  intros Hr <-. apply reachable_ok in Hr as [Hwf _]. destruct (wf_log [] g k Hwf) as (L & HL).
  assert (E : sample_log_of g k = L); [|by rewrite E]. unfold sample_log_of. destruct k as [l h]. cbn [fst snd].
  rewrite (readLog_spec g (mkReadLogInput l h None None None None) L); [|apply Hwf|by eapply wf_sorted|done].
  unfold read_limit. cbn [ri_limit take_limit]. exact (asked_all l h L (wf_linked _ _ _ _ Hwf HL)).
Qed.

(** * A repository *)

Definition sample_repo_empty : Gad (list string) := mkGad [] [] [] ["vcs:repo@main"].

Definition sample_repo_batch : AppendLogEventInput :=
  {| in_logId := "vcs:repo"; in_head := MAIN; in_logKind := "vcs"; in_owner := VUndef; in_expectedHeadHash := None;
     in_idempotency := None; in_now := "t0";
     in_events := [sample_input "v1" "message.completed" "t1" sample_self sample_message []] |}.

Definition sample_repo : Gad (list string) := Eval vm_compute in sample_result (appendLogEvent sample_repo_empty sample_repo_batch).

(** Its main head under the name of an archive. *)
Definition sample_archived : Gad (list string) := Eval vm_compute in (archiveRepoMain sample_repo "vcs:repo" "archive:x").1.

Definition sample_context_fork : ForkLogInput :=
  {| fi_fromLogId := "vcs:repo"; fi_fromHead := MAIN; fi_toLogId := "vcs:repo"; fi_toHead := "ctx:1"; fi_atSeq := None;
     fi_owner := VUndef; fi_now := "t1" |}.

(** The repository with the head of a context forked from its main. *)
Definition sample_context : Gad (list string) := Eval vm_compute in
  match forkLog sample_repo sample_context_fork with Ok (g, _) => g | Throw _ => sample_empty end.

Lemma sample_repo_typed : typed_append sample_repo_batch.
Proof. constructor; [by js_vals| |by js_vals]. constructor; [constructor; by js_vals|]. constructor. Qed.

Lemma sample_repo_appended : exists result, appendLogEvent sample_repo_empty sample_repo_batch = Ok (sample_repo, result).
Proof. eexists. vm_compute. reflexivity. Qed.

Lemma sample_repo_reachable : reachable [] sample_repo.
Proof.
  destruct sample_repo_appended as (result & H). apply (reachable_step [] Kept sample_repo_empty); [constructor|done|].
  by eapply step_append, H; apply sample_repo_typed.
Qed.

Lemma sample_archived_reachable : reachable [("vcs:repo", "archive:x")] sample_archived.
Proof.
  apply (reachable_step [] (HeadRenamed ("vcs:repo", MAIN) ("vcs:repo", "archive:x")) sample_repo);
    [apply sample_repo_reachable| |exact (step_archive "vcs:repo" "archive:x" sample_repo)].
  split; [|by vm_compute; repeat split]. intros row l h s Hi E. vm_compute in Hi. destruct Hi as [<-|[]]. discriminate E.
Qed.
