(* ===== verification/GadStoreProps.v ===== *)
(** What the unified log of the gad store promises: logs that only grow and stay
    intact, appends that can be repeated, refusals, forks, reads, and the service the
    fold cache of the agents relies on. The stores are those that appends, forks, changes
    of other tables, and deletions, archivings and restorings of heads without forks
    reach; [names] are the heads that were archived or restored to on the way. *)
From stdpp Require Import gmap relations.
From S2P Require Import Prelude Dict JsValue JsText JsJson GadCanon GadCanonLaws GadRefs GadRefsLaws.
From S2P Require Import AgentState AgentFold AgentCache AgentCacheProps AgentSamples.
From S2P Require Import GadLog GadAppend GadLogLaws GadAppendLaws GadTables GadAppendOk GadForks GadReplay GadStore.
From S2P Require Import GadWindow GadSamples.
#[local] Open Scope Z_scope.

Module Logs.
Section Logs.
Context {P : Type} {sha : Sha256} {names : Renamed} {schema : EventSchema} {schema_laws : EventSchemaLaws} {proj : LogProjections P}.
Implicit Types (g : Gad P) (k : key).

(** C4: the log is append-only. In every store the operations reach, a successful
    append extends the log it names by exactly the events of the batch that were not in
    it already, chained to the head it found, and moves the head to the last of them;
    what it answers for the others are envelopes of that log; a log it does not write
    to is unchanged, and one it publishes to only grows. *)
Theorem append_extends g input g' result :
  reachable names g -> typed_append input -> appendLogEvent g input = Ok (g', result) ->
  exists prepared replayed new L,
    res_map (prepareLogEvent g input.(in_logKind)) input.(in_events) = Ok prepared /\
    result.(ar_envelopes) = replayed ++ new /\
    map ge_event new = map pe_event (drop (length replayed) prepared) /\
    log_is g (input_key input) L /\ Forall (fun e => In e L) replayed /\
    log_is g' (input_key input) (L ++ map env_norm new) /\
    linked 0 GENESIS_EVENT_HASH (L ++ map env_norm new) /\
    result.(ar_headSeq) = Z.of_nat (length (L ++ new)) /\
    result.(ar_headHash) = end_hash GENESIS_EVENT_HASH (L ++ map env_norm new) /\
    (forall k L', log_is g k L' -> exists more, log_is g' k (L' ++ more) /\ (~ In k (written input) -> more = [])).
Proof.
  intros Hr Ht H. destruct (reachable_ok _ _ Hr) as [Hwf _].
  destruct (append_ok g input g' result Hwf Ht H) as (Hwf' & Hg & prepared & replayed & new & L & Hat).
  destruct (replayed_in_log g input g' result prepared replayed new L Hwf Hat) as (_ & Hin & _).
  destruct Hat as [Hp _ _ HL HL' Hnew _ Hres (row & Hrow & _ & Eseq & Ehash)].
  destruct (wf_pointer _ _ _ _ Hwf' Hrow HL') as [Es Eh].
  exists prepared, replayed, new, L. do 6 (split; [done|]). split; [by eapply wf_linked|].
  split; [rewrite Eseq, Es, !length_app, length_map; done|]. split; [congruence|].
  intros k L' Hl. destruct (log_grows (written input) g g' k L') as (rows & more & Eo & Hm & Hl' & _);
    [by eapply wf_tables_ok|apply Hwf|by eapply wf_tables_ok|done|done|].
  exists more. split; [done|]. intros Hk. destruct (own_grows _ _ _ k Hg) as (rows' & Eo' & Hnil).
  rewrite Eo in Eo'. apply app_inv_head in Eo' as ->. rewrite (Hnil Hk) in Hm. by apply Ok_inj in Hm.
Qed.

(** C5: appends can be retried. A batch that names the ids and the times of its events,
    appended again after it was appended, changes nothing and answers with the same
    envelopes in the same places and the same head. *)
Theorem append_repeatable {laws : LogProjectionsLaws} uuid now g input g' result :
  reachable names g -> typed_append input -> explicit input -> appendLogEvent g input = Ok (g', result) ->
  exists again, appendLogEvent g' (retry uuid now input) = Ok (g', again) /\
    map receipt again.(ar_envelopes) = map receipt result.(ar_envelopes) /\
    again.(ar_headSeq) = result.(ar_headSeq) /\ again.(ar_headHash) = result.(ar_headHash).
Proof. intros [Hwf _]%reachable_ok. by apply append_again. Qed.

(** C6: what an append is refused for. On a log there is, an append whose events bring
    an id of the log with other content, or an old id behind a new one, or a head that
    is not the expected one, throws the error the reference decision over the log
    gives; nothing of it is written. *)
Theorem append_refusals g input row L prepared code :
  reachable names g -> input.(in_logId) <> "" -> input.(in_head) <> "" -> input.(in_events) <> [] ->
  head_of g (input_key input) = Some row -> row.(hr_log_kind) = input.(in_logKind) -> log_is g (input_key input) L ->
  res_map (prepareLogEvent g input.(in_logKind)) input.(in_events) = Ok prepared ->
  refusal (by_id input) input.(in_expectedHeadHash) L prepared = Some code ->
  exists detail, appendLogEvent g input = Throw (gadAppendErrorMessage code detail).
Proof.
  intros [Hwf _]%reachable_ok Hl Hh He Hrow Hk HL Hp Hr.
  apply (append_refused (appendLogEventInTxn 1) g input row L prepared code); try done; by apply string_eqb_ne.
Qed.

(** C7: the integrity check is exact. Over any tables, it reports no error just when
    the rows of every head decode, in order, to envelopes numbered and hashed on from
    its fork point, with the head's pointer at the last. In a store the operations reach,
    it reports nothing over any heads that were never archived or restored to; and it does
    report an archived main that has an event whose hash under the name of the archive is
    another. *)
Theorem integrity_exact g :
  ((forall row, In row g.(g_heads) -> exists es,
      res_map mapLogEnvelope (sort_by row_seq_le (own g (rkey row))) = Ok es /\
      strict_chain (rkey row) (base_seq row) (base_hash row) es /\ points_at row es)
   <-> checkLogIntegrity g None None = Ok (true, []))
  /\ (reachable names g -> forall logId head, original_names logId head -> checkLogIntegrity g logId head = Ok (true, []))
  /\ (reachable names g -> forall logId archiveHead g' moved row e,
        archiveRepoMain g logId archiveHead = (g', Ok (Some moved)) ->
        In row g.(g_events) -> row_key row = (logId, MAIN) -> mapLogEnvelope row = Ok e ->
        e.(ge_hash) <> hash_under archiveHead e -> checkLogIntegrity g' None None <> Ok (true, [])).
Proof.
  split; [|split].
  - split.
    + intros Hrows. apply integrity_passes. intros row Hi _. destruct (Hrows row Hi) as (es & Hm & Hc & Hp). by apply (check_head_passes g row es).
    + intros H row Hi. by apply check_head_only, integrity_only.
  - intros [Hwf _]%reachable_ok logId head. by apply integrity_ok.
  - intros [Hwf _]%reachable_ok logId archiveHead g' moved row e Ha. destruct (archived_renamed _ _ _ _ _ Ha Hwf) as [Hnew Hren].
    by apply (renamed_fails g (logId, MAIN) archiveHead g').
Qed.

(** C8: a fork is a snapshot. Its log is the source's up to the number it was made at,
    whatever is appended to the source afterwards; making it changes no other log; and
    a fork made at a number the caller names can be made again, with the same answer. *)
Theorem fork_snapshot g input g' result :
  reachable names g -> clean_key (target_key input) -> (forall s, input.(fi_atSeq) = Some s -> 0 <= s) ->
  head_of g (target_key input) = None -> forkLog g input = Ok (g', result) ->
  (exists L, log_is g (source_key input) L /\ result.(fr_forkSeq) = default (Z.of_nat (length L)) input.(fi_atSeq) /\
     result.(fr_inherited) = result.(fr_forkSeq) /\
     log_is g' (target_key input) (take (Z.to_nat result.(fr_forkSeq)) L) /\
     forall append g2 r, typed_append append -> ~ In (target_key input) (written append) ->
       appendLogEvent g' append = Ok (g2, r) -> log_is g2 (target_key input) (take (Z.to_nat result.(fr_forkSeq)) L)) /\
  (forall k L, k <> target_key input -> log_is g k L -> log_is g' k L) /\
  (input.(fi_atSeq) <> None -> forkLog g' input = Ok (g', result)).
Proof.
  intros Hr Hck Hat Hnone H. destruct (reachable_ok _ _ Hr) as [Hwf _].
  destruct (forkLog_ok g input g' result Hwf Hck Hat H) as (Hwf' & L & [HL Es _ _ Ei Htl _ Hothers]).
  rewrite Hnone in Htl. split; [|split; [done|]].
  - exists L. do 4 (split; [done|]). intros append g2 r Ht Hw Happ.
    destruct (append_ok g' append g2 r Hwf' Ht Happ) as (Hwf2 & Hg & _).
    eapply (log_same [] [] _ g' g2); [done|done|done| |done].
    destruct (own_grows _ _ _ (target_key input) Hg) as (rows & -> & Hnil). by rewrite Hnil, app_nil_r.
  - destruct (fi_atSeq input) as [s|] eqn:E; [|done]. intros _. eapply (fork_again g input g' result s); try done. by apply Hat.
Qed.

(** C9: a head hash pins down the history behind it. Two logs, in whatever stores, whose
    heads have the same number and the same hash hold the same envelopes in the same
    places with the same content, unless the hash collides on two of them; the envelopes
    are those of heads that were not archived or restored to. *)
Theorem head_hash_identifies names' g1 g2 k1 k2 row1 row2 L1 L2 :
  (forall s, no_newline (sha256_hex s)) -> reachable names g1 -> reachable names' g2 ->
  head_of g1 k1 = Some row1 -> head_of g2 k2 = Some row2 -> log_is g1 k1 L1 -> log_is g2 k2 L2 ->
  Forall (original (names := names)) L1 -> Forall (original (names := names')) L2 -> no_collision L1 L2 ->
  row1.(hr_current_seq) = row2.(hr_current_seq) -> row1.(hr_current_hash) = row2.(hr_current_hash) ->
  Forall2 same_envelope L1 L2.
Proof.
  intros Hs [Hwf1 _]%reachable_ok [Hwf2 _]%reachable_ok H1 H2 HL1 HL2 Ho1 Ho2 Hc Eseq Ehash.
  destruct (wf_pointer _ _ _ _ Hwf1 H1 HL1) as [S1 E1]. destruct (wf_pointer _ _ _ _ Hwf2 H2 HL2) as [S2 E2].
  pose proof (linked_strict (names := names) _ _ _ Ho1 (wf_linked _ _ _ _ Hwf1 HL1)) as Hk1.
  pose proof (linked_strict (names := names') _ _ _ Ho2 (wf_linked (names := names') _ _ _ _ Hwf2 HL2)) as Hk2.
  apply same_history; [done|done|done|done|lia|congruence].
Qed.

(** C10: replay windows. What a client gets when it joins a channel or scrolls back or
    forward is a slice of the channel's log of at most the clamped limit (all of the
    rest when it asks forward with a limit of zero or less), with the length of the
    log, the ends of the slice, and whether the log has anything before it. *)
Theorem replay_windows g channelId L mode sinceSeq beforeSeq limit :
  reachable names g -> log_is g (channelId, CHANNEL_LOG_HEAD) L -> (mode = ReplayBefore -> beforeSeq <> None) ->
  let rows := window_part L mode sinceSeq beforeSeq (clamp limit) in
  let from := option_map ge_seq (list.head rows) in
  getChannelReplayWindow g channelId mode sinceSeq beforeSeq limit
  = Ok {| rw_envelopes := map (channelEnvelopeView channelId) rows;
          rw_totalCount := Z.of_nat (length L);
          rw_firstEnvelopeSeq := match L with [] => None | _ => Some 1 end;
          rw_replayFromId := from;
          rw_replayToId := option_map ge_seq (list.last rows);
          rw_hasMoreBefore :=
            match mode with
            | ReplayInitial => Some match from with Some seq => earlier L seq | None => false end
            | ReplayBefore => Some (earlier L (match from with Some seq => seq | None => default 0 beforeSeq end))
            | ReplayAfter => None
            end |}.
Proof. intros [Hwf _]%reachable_ok. by apply replay_window_spec. Qed.

End Logs.

Lemma append_extends_witness :
  exists result, appendLogEvent sample_first sample_second = Ok (sample_store, result) /\
  exists prepared replayed new L,
    res_map (prepareLogEvent sample_first sample_second.(in_logKind)) sample_second.(in_events) = Ok prepared /\
    result.(ar_envelopes) = replayed ++ new /\
    map ge_event new = map pe_event (drop (length replayed) prepared) /\
    log_is sample_first sample_key L /\ Forall (fun e => In e L) replayed /\
    log_is sample_store sample_key (L ++ map env_norm new) /\
    linked (names := []) 0 GENESIS_EVENT_HASH (L ++ map env_norm new) /\
    result.(ar_headSeq) = Z.of_nat (length (L ++ new)) /\
    result.(ar_headHash) = end_hash GENESIS_EVENT_HASH (L ++ map env_norm new) /\
    (forall k L', log_is sample_first k L' -> exists more, log_is sample_store k (L' ++ more) /\
       (~ In k (written sample_second) -> more = [])).
Proof.
  destruct sample_second_appended as (result & H). exists result. split; [exact H|].
  exact (append_extends sample_first sample_second sample_store result sample_first_reachable sample_second_typed H).
Defined.

Lemma append_repeatable_witness :
  exists again, appendLogEvent sample_first (retry "u" "t9" sample_batch) = Ok (sample_first, again) /\
    map ge_seq again.(ar_envelopes) = [1; 2].
Proof.
  destruct sample_first_appended as (result & H).
  assert (He : explicit sample_batch) by (repeat constructor).
  destruct (append_repeatable "u" "t9" sample_empty sample_batch sample_first result (reachable_empty []) sample_batch_typed He H)
    as (again & Ha & Hr & _). exists again. split; [exact Ha|].
  assert (E : map receipt result.(ar_envelopes) = map receipt (sample_log_of sample_first sample_key)).
  { vm_compute in H. injection H as <-. vm_compute. reflexivity. }
  rewrite E in Hr. apply (f_equal (map (fun r : Z * string * string => r.1.1))) in Hr. rewrite !map_map in Hr. exact Hr.
Defined.

(** The same id with other content, a head that has moved on, and an old event behind
    a new one. *)
Definition sample_collision : AppendLogEventInput :=
  sample_append None [sample_input "e3" "message.completed" "t1" sample_self (VObj [("role", VStr "assistant")]) []].
Definition sample_stale : AppendLogEventInput :=
  sample_append (Some None) [sample_input "e4" "message.completed" "t1" sample_self sample_message []].
Definition sample_mixed : AppendLogEventInput :=
  sample_append None [sample_input "e4" "message.completed" "t1" sample_self sample_message [];
                      sample_input "e3" "message.completed" "t1" sample_self sample_message []].

Ltac refused input :=
  eapply (append_refusals sample_store input _ (sample_log_of sample_store sample_key));
  [ exact sample_store_reachable | discriminate | discriminate | discriminate | vm_compute; reflexivity | reflexivity
  | apply (read_log_is []); [exact sample_store_reachable|reflexivity] | vm_compute; reflexivity | vm_compute; reflexivity ].

Lemma append_refusals_witness :
  (exists detail, appendLogEvent sample_store sample_collision = Throw (gadAppendErrorMessage "id-collision" detail)) /\
  (exists detail, appendLogEvent sample_store sample_stale = Throw (gadAppendErrorMessage "head-conflict" detail)) /\
  (exists detail, appendLogEvent sample_store sample_mixed = Throw (gadAppendErrorMessage "replay-mismatch" detail)).
Proof. split; [refused sample_collision|]. split; [refused sample_stale|refused sample_mixed]. Defined.

(** A store passes, the archived repository does not. *)
Lemma integrity_exact_witness :
  checkLogIntegrity sample_store (Some "c") None = Ok (true, []) /\
  checkLogIntegrity sample_archived None None <> Ok (true, []).
Proof.
  split.
  - apply (proj1 (proj2 (integrity_exact (names := []) sample_store))); [exact sample_store_reachable|intros ? []].
  - assert (Ha : exists moved, archiveRepoMain sample_repo "vcs:repo" "archive:x" = (sample_archived, Ok (Some moved)))
      by (eexists; vm_compute; reflexivity).
    assert (Hr : exists row e, In row sample_repo.(g_events) /\ row_key row = ("vcs:repo", MAIN) /\ mapLogEnvelope row = Ok e /\
                               (e.(ge_hash) =? hash_under "archive:x" e)%string = false).
    { do 2 eexists. split; [left; reflexivity|]. split; [reflexivity|]. split; [vm_compute; reflexivity|vm_compute; reflexivity]. }
    destruct Ha as (moved & Ha), Hr as (row & e & Hi & Hk & Hd & Hh). apply String.eqb_neq in Hh.
    exact (proj2 (proj2 (integrity_exact (names := []) sample_repo)) sample_repo_reachable _ _ _ _ _ _ Ha Hi Hk Hd Hh).
Defined.

(** The archived repository is reported for the hashes of its events only. *)
Example archived_reported :
  match checkLogIntegrity sample_archived None None with
  | Ok (ok, errors) => ok = false /\ map ie_type errors = [LogHash]
  | Throw _ => False
  end.
Proof. vm_compute. done. Qed.

(** Restored, it passes again, with the rows it had. *)
Example restored_passes :
  let restored := (restoreRepoMain sample_archived "vcs:repo" "archive:x").1 in
  same_tables sample_repo restored /\ checkLogIntegrity restored None None = Ok (true, []).
Proof. vm_compute. done. Qed.

(** A context whose main is archived, or deleted, loses the events it inherited: its
    parent is a name without rows. *)
Example archived_parent :
  let archived := (archiveRepoMain sample_context "vcs:repo" "archive:x").1 in
  map ge_seq (sample_log_of sample_context ("vcs:repo", "ctx:1")) = [1] /\
  sample_log_of archived ("vcs:repo", "ctx:1") = [].
Proof. vm_compute. done. Qed.

Example deleted_parent :
  let deleted := (deleteLogHead sample_context "vcs:repo" MAIN).1 in
  head_of deleted ("vcs:repo", "ctx:1") <> None /\ sample_log_of deleted ("vcs:repo", "ctx:1") = [].
Proof. vm_compute. done. Qed.

(** A repository made again at the path of an archived one cannot be archived while it
    has the same state: the name of its archive is that state's. *)
Definition sample_recreated : Gad (list string) :=
  let g := with_other ["vcs:repo@main"; "vcs:repo@archive:x"] sample_archived in
  sample_result (appendLogEvent g
    {| in_logId := "vcs:repo"; in_head := MAIN; in_logKind := "vcs"; in_owner := VUndef; in_expectedHeadHash := None;
       in_idempotency := None; in_now := "t0";
       in_events := [sample_input "v2" "message.completed" "t1" sample_self sample_message []] |}).

Example archived_twice :
  (archiveRepoMain sample_recreated "vcs:repo" "archive:x").2
  = Throw "archiveRepoMain: archive head already exists: vcs:repo:archive:x".
Proof. vm_compute. done. Qed.

(** A pointer that is not at the end is reported. *)
Example stale_pointer_reported :
  match checkLogIntegrity (with_heads sample_first.(g_heads) sample_store) None None with
  | Ok (ok, errors) => ok = false /\ map ie_type errors = [LogHeadPointer]
  | Throw _ => False
  end.
Proof. vm_compute. done. Qed.

Definition sample_forked : res (Gad (list string) * ForkLogResult) := forkLog sample_store sample_fork.

Lemma fork_snapshot_witness :
  exists g' result, forkLog sample_store sample_fork = Ok (g', result) /\ result.(fr_inherited) = 2 /\
    log_is g' (target_key sample_fork) (take 2 (sample_log_of sample_store sample_key)) /\
    forkLog g' sample_fork = Ok (g', result).
Proof.
  destruct (forkLog sample_store sample_fork) as [[g' result]|e] eqn:H; [|vm_compute in H; discriminate].
  exists g', result. split; [reflexivity|].
  assert (Hc : clean_key (target_key sample_fork)) by (split; vm_compute; repeat (split; [discriminate|]); exact I).
  destruct (fork_snapshot sample_store sample_fork g' result sample_store_reachable Hc) as ((L & HL & Es & Ei & Htl & _) & _ & Hagain);
    [intros s [= <-]; lia|reflexivity|exact H|].
  simpl in Es. rewrite Ei, Es in *. split; [reflexivity|]. split; [|by apply Hagain].
  rewrite (log_is_fun _ _ _ _ HL (read_log_is [] sample_store sample_key _ sample_store_reachable eq_refl)) in Htl. exact Htl.
Defined.

(** The first batch in two appends. *)
Definition sample_half1 : AppendLogEventInput := sample_append (Some None) (take 1 sample_batch.(in_events)).
Definition sample_half2 : AppendLogEventInput := sample_append None (drop 1 sample_batch.(in_events)).
Definition sample_half : Gad (list string) := Eval vm_compute in sample_result (appendLogEvent sample_empty sample_half1).
Definition sample_split : Gad (list string) := Eval vm_compute in sample_result (appendLogEvent sample_half sample_half2).

Lemma sample_split_reachable : reachable [] sample_split.
Proof.
  destruct sample_batch_typed as [Hk He Hc]. simpl in He, Hc.
  apply list.Forall_cons in He as [He1 He2], Hc as [Hc1 Hc2].
  assert (H1 : exists r, appendLogEvent sample_empty sample_half1 = Ok (sample_half, r)) by (eexists; vm_compute; reflexivity).
  assert (H2 : exists r, appendLogEvent sample_half sample_half2 = Ok (sample_split, r)) by (eexists; vm_compute; reflexivity).
  destruct H1 as (r1 & H1), H2 as (r2 & H2). apply (reachable_step [] Kept sample_half); [|done|].
  - apply (reachable_step [] Kept sample_empty); [constructor|done|]. eapply step_append, H1.
    constructor; [exact Hk|constructor; [exact He1|constructor]|constructor; [exact Hc1|constructor]].
  - eapply step_append, H2. constructor; [exact Hk|exact He2|exact Hc2].
Qed.

Definition no_collision_in (es1 es2 : list GadEnvelope) : bool :=
  forallb (fun e1 => forallb (fun e2 =>
    negb (sha256_hex (preimage e1) =s? sha256_hex (preimage e2)) || (preimage e1 =s? preimage e2)) es2) es1.

Lemma no_collision_check es1 es2 : no_collision_in es1 es2 = true -> no_collision es1 es2.
Proof.
  unfold no_collision_in. rewrite forallb_forall. intros H e1 e2 H1 H2 E. specialize (H e1 H1). rewrite forallb_forall in H.
  specialize (H e2 H2). rewrite E, String.eqb_refl in H. by apply String.eqb_eq in H.
Qed.

Lemma sample_all_original L : Forall (original (names := [])) L.
Proof. apply list.Forall_true. intros e He. exact He. Qed.

Lemma head_hash_identifies_witness :
  Forall2 same_envelope (sample_log_of sample_first sample_key) (sample_log_of sample_split sample_key).
Proof.
  eapply (head_hash_identifies (names := []) [] sample_first sample_split sample_key sample_key).
  - exact sample_no_newline.
  - exact sample_first_reachable.
  - exact sample_split_reachable.
  - vm_compute. reflexivity.
  - vm_compute. reflexivity.
  - apply (read_log_is []); [exact sample_first_reachable|reflexivity].
  - apply (read_log_is []); [exact sample_split_reachable|reflexivity].
  - by apply List.Forall_forall; intros e _ [].
  - by apply List.Forall_forall; intros e _ [].
  - apply no_collision_check. vm_compute. reflexivity.
  - reflexivity.
  - reflexivity.
Defined.

Lemma replay_windows_witness :
  getChannelReplayWindow sample_store "c" ReplayBefore None (Some 2) (Some 10)
  = Ok {| rw_envelopes := map (channelEnvelopeView "c") (sample_log_of sample_store ("c", CHANNEL_LOG_HEAD));
          rw_totalCount := 1; rw_firstEnvelopeSeq := Some 1; rw_replayFromId := Some 1; rw_replayToId := Some 1;
          rw_hasMoreBefore := Some false |}.
Proof.
  rewrite (replay_windows (names := []) sample_store "c" (sample_log_of sample_store ("c", CHANNEL_LOG_HEAD)) ReplayBefore None (Some 2) (Some 10));
    [vm_compute; reflexivity|exact sample_store_reachable| |discriminate].
  apply (read_log_is []); [exact sample_store_reachable|reflexivity].
Defined.

(** A page asked forward with a limit of zero is the whole rest of the log. *)
Example forward_zero_is_all :
  match getChannelReplayWindow sample_store "c" ReplayAfter None None (Some 0),
        getChannelReplayWindow sample_store "c" ReplayInitial None None (Some 0) with
  | Ok forward, Ok initial => length forward.(rw_envelopes) = 1%nat /\ initial.(rw_envelopes) = []
  | _, _ => False
  end.
Proof. vm_compute. done. Qed.






End Logs.
