(* ===== verification/ChannelState.v ===== *)
(** The state of a channel and its two ways out (workers/pubsub-channel: types.ts,
    log-store.ts, broadcast.ts): the tables and keys of the durable object, what it
    holds in memory, the services it calls, its access to the log of the gad store, and
    what it sends to its participants. *)
From S2P Require Import Prelude Dict JsValue JsText JsJson JsAsync.
From S2P Require Import GadCanon GadRefs GadLog GadStored.
#[local] Open Scope Z_scope.

(** * Services *)

(** One event to append, as [gad.call("appendLogEvent")] sends it. *)
Record AppendCall := mkAppendCall {
  al_envelopeId : option string;
  al_actor : val;
  al_payloadKind : string;
  al_payload : val;
  al_annotations : val;
  al_idempotency : option string
}.

(** The calls a channel makes to the gad store, each one transaction there; [uuid] and
    [now] are what the store draws. *)
Class ChannelStore (G : Type) := {
  gad_appendLogEvent : G -> string -> AppendCall -> string -> string -> res (G * GadEnvelope);
  gad_getLogEvent : G -> string -> string -> res (option GadEnvelope);
  gad_headSeq : G -> string -> option Z;
  gad_readLog : G -> string -> Z -> Z -> option string -> res (list GadEnvelope);
  gad_getChannelReplayWindow : G -> string -> ReplayMode -> option Z -> option Z -> option Z -> res ChannelReplayWindow;
  gad_forkLog : G -> string -> string -> option Z -> string -> res G
}.

(** * Events *)

Record ChannelEvent := mkChannelEvent {
  ce_id : Z;
  ce_messageId : string;
  ce_type : string;
  ce_payload : val;
  ce_senderId : string;
  ce_senderMetadata : val;
  ce_contentType : val;
  ce_ts : option Z;
  ce_attachments : list val;
  ce_annotations : list (string * val)
}.

(** [JSON.stringify] and [JSON.parse] of one value, as text that may be missing. *)
Definition reparse (payloadJson : option string) : val :=
  match payloadJson with
  | None => VUndef
  | Some s => match json_parse s with Ok v => v | Throw _ => VStr s end
  end.

Definition map_attachment (att : val) : val :=
  VObj [("id", att.!"id");
        ("type", VStr match att.!"mimeType" with
                      | VStr m => if startsWith m "image/" then "image" else "file"
                      | _ => "file"
                      end);
        ("data", att.!"data"); ("mimeType", att.!"mimeType"); ("filename", att.!"name"); ("size", att.!"size")].

Definition buildChannelEvent (id : Z) (messageId type : string) (payloadJson : option string) (senderId : string)
    (senderMetadata : val) (ts : option Z) (attachments : val) (annotations : list (string * val)) : ChannelEvent :=
  let parsedPayload := reparse payloadJson in
  {| ce_id := id;
     ce_messageId := if messageId =s? "" then pretty id else messageId;
     ce_type := type;
     ce_payload := parsedPayload;
     ce_senderId := senderId;
     ce_senderMetadata := senderMetadata;
     ce_contentType := let c := parsedPayload.!"contentType" in if truthy c then c else VUndef;
     ce_ts := ts;
     ce_attachments := map map_attachment (arr_or_nil attachments);
     ce_annotations := annotations |}.

(** [participantIsAgentVessel]. *)
Definition participantIsAgentVessel (metadata : val) : bool := is_true metadata.!"receivesChannelEnvelopes".

(** * Messages to participants *)

Inductive Phase := Replay | Live.

Inductive RpcChannelMessage :=
| RpcLog (phase : Phase) (event : ChannelEvent) (ref : option Z)
| RpcSignal (type : string) (payload : val) (senderId : string) (ts : option Z) (ref : option Z)
| RpcRoster (participants : list (string * val)) (ts : Z)
| RpcReady (ready : list (string * val)).

(** What the channel hands to a participant's queue: an emitted [channel:message], or a
    call of [onChannelEnvelope]. *)
Inductive Delivery :=
| Emit (subscriberId : string) (message : RpcChannelMessage)
| DoEnvelope (participantId : string) (message : RpcChannelMessage).

(** * Tables *)

Inductive Transport := TransportRpc | TransportDo.

Record ParticipantRow := mkParticipantRow {
  pa_id : string;
  pa_metadata : string;
  pa_transport : Transport;
  pa_connectedAt : Z;
  pa_sessionId : option string;
  pa_handle : option string;
  pa_do : option (string * string * string)
}.

(** A row of [pending_calls]. *)
Record CallRow := mkCallRow {
  cr_transportCallId : string;
  cr_invocationId : string;
  cr_turnId : option string;
  cr_callerId : string;
  cr_targetId : string;
  cr_method : string;
  cr_args : option string;
  cr_createdAt : Z;
  cr_deadlineAt : option Z
}.

Record DedupRow := mkDedupRow {
  dk_key : string;
  dk_resultId : option Z;
  dk_createdAt : Z
}.

(** The cached fold of a policy. *)
Record ConversationStateV1 := mkConversation {
  cv_lastCompletedSender : option string;
  cv_lastCompletedMessageId : option string;
  cv_lastCompletedSeq : option Z;
  cv_lastCompletedAt : option string;
  cv_previousCompletedSender : option string;
  cv_previousCompletedMessageId : option string;
  cv_previousCompletedSeq : option Z;
  cv_agentStreak : Z
}.

Record PolicyStateCache := mkPolicyCache {
  pc_state : ConversationStateV1;
  pc_foldedThroughSeq : Z;
  pc_policyVersion : Z
}.

(** The keys of the [state] table the channel uses, each as its text reads back. *)
Record ChannelKeys := mkKeys {
  kv_objectKey : string;
  kv_contextId : option string;
  kv_createdAt : option Z;
  kv_config : option string;
  kv_reconciledThrough : option Z;
  kv_sweptAt : option Z;
  kv_policyState : dict PolicyStateCache;
  kv_forkedFrom : option string;
  kv_forkPointId : option Z
}.

(** A call of [onMethodCall] under way; its answer settles the call. *)
Record MethodDelivery := mkMethodDelivery {
  md_targetPid : string;
  md_transportCallId : string;
  md_invocationId : string;
  md_turnId : option string;
  md_method : string;
  md_args : val
}.

(** Promises are told apart by what they are for and a number; one that has settled is
    in [w_promises], with an event or nothing.
    Everything a channel can see: the two stores and the clocks, its own storage, its
    memory, and what it has sent. *)
Record World (G B : Type) := mkWorld {
  w_store : G;
  w_blobs : B;
  w_now : Z;
  w_uuid : string;
  w_storeNow : string;
  w_participants : list ParticipantRow;
  w_calls : list CallRow;
  w_dedup : list DedupRow;
  w_keys : ChannelKeys;
  w_alarm : option Z;
  w_policies : option (list string);
  w_startInFlight : dict (string * nat);
  w_publishInFlight : dict (string * nat);
  w_promises : list (string * nat * res (option ChannelEvent));
  w_nextPromise : nat;
  w_tasks : list MethodDelivery;
  w_sent : list Delivery
}.
Arguments mkWorld {G B}.
Arguments w_store {G B}. Arguments w_blobs {G B}. Arguments w_now {G B}. Arguments w_uuid {G B}.
Arguments w_storeNow {G B}. Arguments w_participants {G B}. Arguments w_calls {G B}. Arguments w_dedup {G B}.
Arguments w_keys {G B}. Arguments w_alarm {G B}. Arguments w_policies {G B}. Arguments w_startInFlight {G B}.
Arguments w_publishInFlight {G B}. Arguments w_promises {G B}. Arguments w_nextPromise {G B}.
Arguments w_tasks {G B}. Arguments w_sent {G B}.

Section Channel.
Context {G B : Type} `{!ChannelStore G, !TextBlobs B}.
Abbreviation World := (World G B).
Abbreviation prog := (prog World).
Implicit Types w : World.
Context (channelId : string).

(** * Updates *)

Definition set_store (x : G) w : World :=
  mkWorld x w.(w_blobs) w.(w_now) w.(w_uuid) w.(w_storeNow) w.(w_participants) w.(w_calls) w.(w_dedup)
    w.(w_keys) w.(w_alarm) w.(w_policies) w.(w_startInFlight) w.(w_publishInFlight) w.(w_promises)
    w.(w_nextPromise) w.(w_tasks) w.(w_sent).
Definition set_blobs (x : B) w : World :=
  mkWorld w.(w_store) x w.(w_now) w.(w_uuid) w.(w_storeNow) w.(w_participants) w.(w_calls) w.(w_dedup)
    w.(w_keys) w.(w_alarm) w.(w_policies) w.(w_startInFlight) w.(w_publishInFlight) w.(w_promises)
    w.(w_nextPromise) w.(w_tasks) w.(w_sent).
Definition set_participants (x : list ParticipantRow) w : World :=
  mkWorld w.(w_store) w.(w_blobs) w.(w_now) w.(w_uuid) w.(w_storeNow) x w.(w_calls) w.(w_dedup) w.(w_keys)
    w.(w_alarm) w.(w_policies) w.(w_startInFlight) w.(w_publishInFlight) w.(w_promises) w.(w_nextPromise)
    w.(w_tasks) w.(w_sent).
Definition set_calls (x : list CallRow) w : World :=
  mkWorld w.(w_store) w.(w_blobs) w.(w_now) w.(w_uuid) w.(w_storeNow) w.(w_participants) x w.(w_dedup)
    w.(w_keys) w.(w_alarm) w.(w_policies) w.(w_startInFlight) w.(w_publishInFlight) w.(w_promises)
    w.(w_nextPromise) w.(w_tasks) w.(w_sent).
Definition set_dedup (x : list DedupRow) w : World :=
  mkWorld w.(w_store) w.(w_blobs) w.(w_now) w.(w_uuid) w.(w_storeNow) w.(w_participants) w.(w_calls) x
    w.(w_keys) w.(w_alarm) w.(w_policies) w.(w_startInFlight) w.(w_publishInFlight) w.(w_promises)
    w.(w_nextPromise) w.(w_tasks) w.(w_sent).
Definition set_keys (x : ChannelKeys) w : World :=
  mkWorld w.(w_store) w.(w_blobs) w.(w_now) w.(w_uuid) w.(w_storeNow) w.(w_participants) w.(w_calls) w.(w_dedup)
    x w.(w_alarm) w.(w_policies) w.(w_startInFlight) w.(w_publishInFlight) w.(w_promises) w.(w_nextPromise)
    w.(w_tasks) w.(w_sent).
Definition set_alarm (x : option Z) w : World :=
  mkWorld w.(w_store) w.(w_blobs) w.(w_now) w.(w_uuid) w.(w_storeNow) w.(w_participants) w.(w_calls) w.(w_dedup)
    w.(w_keys) x w.(w_policies) w.(w_startInFlight) w.(w_publishInFlight) w.(w_promises) w.(w_nextPromise)
    w.(w_tasks) w.(w_sent).
Definition set_policies (x : option (list string)) w : World :=
  mkWorld w.(w_store) w.(w_blobs) w.(w_now) w.(w_uuid) w.(w_storeNow) w.(w_participants) w.(w_calls) w.(w_dedup)
    w.(w_keys) w.(w_alarm) x w.(w_startInFlight) w.(w_publishInFlight) w.(w_promises) w.(w_nextPromise)
    w.(w_tasks) w.(w_sent).
Definition set_startInFlight (x : dict (string * nat)) w : World :=
  mkWorld w.(w_store) w.(w_blobs) w.(w_now) w.(w_uuid) w.(w_storeNow) w.(w_participants) w.(w_calls) w.(w_dedup)
    w.(w_keys) w.(w_alarm) w.(w_policies) x w.(w_publishInFlight) w.(w_promises) w.(w_nextPromise) w.(w_tasks)
    w.(w_sent).
Definition set_publishInFlight (x : dict (string * nat)) w : World :=
  mkWorld w.(w_store) w.(w_blobs) w.(w_now) w.(w_uuid) w.(w_storeNow) w.(w_participants) w.(w_calls) w.(w_dedup)
    w.(w_keys) w.(w_alarm) w.(w_policies) w.(w_startInFlight) x w.(w_promises) w.(w_nextPromise) w.(w_tasks)
    w.(w_sent).
Definition set_promises (x : list (string * nat * res (option ChannelEvent))) w : World :=
  mkWorld w.(w_store) w.(w_blobs) w.(w_now) w.(w_uuid) w.(w_storeNow) w.(w_participants) w.(w_calls) w.(w_dedup)
    w.(w_keys) w.(w_alarm) w.(w_policies) w.(w_startInFlight) w.(w_publishInFlight) x w.(w_nextPromise)
    w.(w_tasks) w.(w_sent).
Definition set_nextPromise (x : nat) w : World :=
  mkWorld w.(w_store) w.(w_blobs) w.(w_now) w.(w_uuid) w.(w_storeNow) w.(w_participants) w.(w_calls) w.(w_dedup)
    w.(w_keys) w.(w_alarm) w.(w_policies) w.(w_startInFlight) w.(w_publishInFlight) w.(w_promises) x w.(w_tasks)
    w.(w_sent).
Definition set_tasks (x : list MethodDelivery) w : World :=
  mkWorld w.(w_store) w.(w_blobs) w.(w_now) w.(w_uuid) w.(w_storeNow) w.(w_participants) w.(w_calls) w.(w_dedup)
    w.(w_keys) w.(w_alarm) w.(w_policies) w.(w_startInFlight) w.(w_publishInFlight) w.(w_promises)
    w.(w_nextPromise) x w.(w_sent).
Definition set_sent (x : list Delivery) w : World :=
  mkWorld w.(w_store) w.(w_blobs) w.(w_now) w.(w_uuid) w.(w_storeNow) w.(w_participants) w.(w_calls) w.(w_dedup)
    w.(w_keys) w.(w_alarm) w.(w_policies) w.(w_startInFlight) w.(w_publishInFlight) w.(w_promises)
    w.(w_nextPromise) w.(w_tasks) x.

Definition set_reconciledThrough (seq : Z) w : World :=
  let k := w.(w_keys) in
  set_keys (mkKeys k.(kv_objectKey) k.(kv_contextId) k.(kv_createdAt) k.(kv_config) (Some seq) k.(kv_sweptAt)
              k.(kv_policyState) k.(kv_forkedFrom) k.(kv_forkPointId)) w.
Definition set_sweptAt (at_ : Z) w : World :=
  let k := w.(w_keys) in
  set_keys (mkKeys k.(kv_objectKey) k.(kv_contextId) k.(kv_createdAt) k.(kv_config) k.(kv_reconciledThrough)
              (Some at_) k.(kv_policyState) k.(kv_forkedFrom) k.(kv_forkPointId)) w.
Definition set_policyState (caches : dict PolicyStateCache) w : World :=
  let k := w.(w_keys) in
  set_keys (mkKeys k.(kv_objectKey) k.(kv_contextId) k.(kv_createdAt) k.(kv_config) k.(kv_reconciledThrough)
              k.(kv_sweptAt) caches k.(kv_forkedFrom) k.(kv_forkPointId)) w.
Definition set_config (config : option string) w : World :=
  let k := w.(w_keys) in
  set_keys (mkKeys k.(kv_objectKey) k.(kv_contextId) k.(kv_createdAt) config k.(kv_reconciledThrough)
              k.(kv_sweptAt) k.(kv_policyState) k.(kv_forkedFrom) k.(kv_forkPointId)) w.

(** * The log ([ChannelLog]) *)

Record ChannelAppendInput := mkChannelAppend {
  ca_type : string;
  ca_payload : val;
  ca_senderId : string;
  ca_senderMetadata : val;
  ca_messageId : option string;
  ca_idempotency : option string;
  ca_annotations : list (string * val);
  ca_attachments : val
}.

(** Annotations minus the carriers of metadata and attachments. *)
Definition policyAnnotations (annotations : option val) : list (string * val) :=
  match annotations with
  | None => []
  | Some a => dict_del "attachments" (dict_del "metadata" (fields a))
  end.

Definition sender_of (actor : val) : string := to_str (actor.!"participantId" ?? actor.!"id").

Definition eventFromLogEnvelope (e : GadEnvelope) : ChannelEvent :=
  let event := e.(ge_event) in
  let annotations := default (VObj []) event.(ev_annotations) in
  buildChannelEvent e.(ge_seq) event.(ev_envelopeId) event.(ev_payloadKind) (json_stringify event.(ev_payload))
    (sender_of event.(ev_actor)) (annotations.!"metadata" ?? event.(ev_actor).!"metadata")
    (Date_parse event.(ev_appendedAt)) annotations.!"attachments" (policyAnnotations event.(ev_annotations)).

(** References inside a blob are followed this deep. *)
Definition HYDRATE_DEPTH : nat := 64.

Definition hydrate_opt (b : B) (v : option val) : res (option val) :=
  match v with
  | None => Ok None
  | Some v => let! v := hydrateStoredValueRefs HYDRATE_DEPTH b v in Ok (Some v)
  end.

(** [hydrate] of an envelope: its fields that are not scalars. *)
Definition hydrateEnvelope (b : B) (e : GadEnvelope) : res GadEnvelope :=
  let event := e.(ge_event) in
  let! actor := hydrateStoredValueRefs HYDRATE_DEPTH b event.(ev_actor) in
  let! to := hydrate_opt b event.(ev_to) in
  let! payload := hydrateStoredValueRefs HYDRATE_DEPTH b event.(ev_payload) in
  let! annotations := hydrate_opt b event.(ev_annotations) in
  let! causality := hydrate_opt b event.(ev_causality) in
  Ok (mkGadEnvelope e.(ge_logId) e.(ge_head) e.(ge_seq)
        (mkLogEvent event.(ev_envelopeId) actor to event.(ev_payloadKind) payload annotations causality
           event.(ev_appendedAt))
        e.(ge_prevHash) e.(ge_hash)).

(** A read at the gad store. *)
Definition query {A} (f : G -> res A) : prog A := remote (fun w => (w, f w.(w_store))).

Definition hydrate (e : GadEnvelope) : prog GadEnvelope := remote (fun w => (w, hydrateEnvelope w.(w_blobs) e)).

Definition encodePayload (payload : val) : prog val :=
  remote (fun w =>
    match encodeChannelPayloadStoredValues payload w.(w_blobs) with
    | Ok (b, v) => (set_blobs b w, Ok v)
    | Throw e => (w, Throw e)
    end).

Definition append_call (input : ChannelAppendInput) (payload : val) : AppendCall :=
  let publicMetadata := publicParticipantMetadata input.(ca_senderMetadata) in
  let annotations := input.(ca_annotations) in
  let annotations := match publicMetadata with VUndef => annotations | m => dict_set "metadata" m annotations end in
  let annotations :=
    match input.(ca_attachments) with VUndef => annotations | a => dict_set "attachments" a annotations end in
  {| al_envelopeId := input.(ca_messageId);
     al_actor := participantRefFromMetadata input.(ca_senderId) input.(ca_senderMetadata);
     al_payloadKind := input.(ca_type);
     al_payload := payload;
     al_annotations := match annotations with [] => VUndef | _ => VObj annotations end;
     al_idempotency := input.(ca_idempotency) |}.

Definition send_append (call : AppendCall) : prog GadEnvelope :=
  remote (fun w =>
    match gad_appendLogEvent w.(w_store) channelId call w.(w_uuid) w.(w_storeNow) with
    | Ok (g, e) => (set_store g w, Ok e)
    | Throw e => (w, Throw e)
    end).

Definition append (input : ChannelAppendInput) : prog ChannelEvent := async (
  let* payload := encodePayload input.(ca_payload) in
  let* envelope := send_append (append_call input payload) in
  let* envelope := hydrate envelope in
  ret (eventFromLogEnvelope envelope)).

Definition forkFrom (parentChannelId : string) (throughSeq : option Z) : prog unit :=
  remote (fun w =>
    match gad_forkLog w.(w_store) parentChannelId channelId throughSeq w.(w_storeNow) with
    | Ok g => (set_store g w, Ok tt)
    | Throw e => (w, Throw e)
    end).

Definition headSeq : prog Z := async (query (fun g => Ok (default 0 (gad_headSeq g channelId)))).

Definition hasEnvelope (envelopeId : string) : prog bool := async (
  let* envelope := query (fun g => gad_getLogEvent g channelId envelopeId) in ret (isSome envelope)).

Definition getEventByEnvelopeId (envelopeId : string) : prog (option ChannelEvent) := async (
  let* envelope := query (fun g => gad_getLogEvent g channelId envelopeId) in
  match envelope with
  | None => ret None
  | Some e => let* e := hydrate e in ret (Some (eventFromLogEnvelope e))
  end).

Definition read (afterSeq limit : Z) (payloadKind : option string) : prog (list GadEnvelope) :=
  query (fun g => gad_readLog g channelId afterSeq limit payloadKind).

Definition REPLAY_AFTER_LIMIT : Z := 500.

(** * Sending (broadcast.ts) *)

Definition send (deliveries : list Delivery) : prog unit :=
  modify (fun w => set_sent (w.(w_sent) ++ deliveries) w).

Definition parse_metadata (metadata : string) : option val :=
  match json_parse metadata with Ok v => Some v | Throw _ => None end.

Definition participantReceivesChannelEnvelopes (metadataJson : string) : bool :=
  match parse_metadata metadataJson with Some v => participantIsAgentVessel v | None => false end.

Inductive BroadcastEnvelope := BroadcastLog (phase : Phase) (ref : option Z) | BroadcastSignal (ref : option Z).

Definition channelEventToRpcLog (event : ChannelEvent) (phase : Phase) (ref : option Z) : RpcChannelMessage :=
  RpcLog phase event ref.

Definition channelEventToRpcSignal (event : ChannelEvent) (ref : option Z) : RpcChannelMessage :=
  RpcSignal event.(ce_type) event.(ce_payload) event.(ce_senderId) event.(ce_ts) ref.

Definition broadcast_to (event : ChannelEvent) (envelope : BroadcastEnvelope) (p : ParticipantRow) : list Delivery :=
  let msg :=
    match envelope with
    | BroadcastLog phase ref => channelEventToRpcLog event phase ref
    | BroadcastSignal ref => channelEventToRpcSignal event ref
    end in
  Emit p.(pa_id) msg ::
  match p.(pa_transport) with
  | TransportDo =>
      if participantReceivesChannelEnvelopes p.(pa_metadata)
      then [DoEnvelope p.(pa_id)
              match envelope with
              | BroadcastLog phase _ => RpcLog phase event None
              | BroadcastSignal _ => channelEventToRpcSignal event None
              end]
      else []
  | TransportRpc => []
  end.

(** To every participant there is now. The message carries [ref] already when the sender
    is told its [ref] once more. *)
Definition broadcast (event : ChannelEvent) (envelope : BroadcastEnvelope) : prog unit :=
  modify (fun w => set_sent (w.(w_sent) ++ flat_map (broadcast_to event envelope) w.(w_participants)) w).

Definition broadcastLive (event : ChannelEvent) (ref : option Z) : prog unit :=
  broadcast event (BroadcastLog Live ref).

(** A delivery that fails for good drops the participant; [true] when it did. *)
Definition fatal_delivery (code : string) : bool :=
  existsb (String.eqb code) ["TARGET_NOT_REACHABLE"; "RECONNECT_GRACE_EXPIRED"; "DO_NOT_CREATED"].

Definition remove_participant (pid : string) w : World :=
  set_participants (List.filter (fun p => p.(pa_id) <>s? pid) w.(w_participants)) w.

Definition removeParticipantOnFatalDelivery (pid code : string) w : World :=
  if fatal_delivery code then remove_participant pid w else w.

(** * Participants *)

Definition participant_row w (pid : string) : option ParticipantRow :=
  List.find (fun p => p.(pa_id) =s? pid) w.(w_participants).

Definition participantTransport w (pid : string) : option Transport := option_map pa_transport (participant_row w pid).

(** [undefined] when there is no such participant or its metadata is no JSON. *)
Definition getSenderMetadata w (pid : string) : val :=
  default VUndef (participant_row w pid ≫= fun p => parse_metadata p.(pa_metadata)).

Definition participantRef w (pid : string) : val := participantRefFromMetadata pid (getSenderMetadata w pid).

Definition getChannelConfig w : option val :=
  match w.(w_keys).(kv_config) with
  | None => None
  | Some raw => if raw =s? "" then None else match json_parse raw with Ok v => Some v | Throw _ => None end
  end.
End Channel.
