(* ===== verification/ChannelPolicy.v ===== *)
(** The policies of a channel (packages/channel-policies: conversation-v1.ts, index.ts)
    and their host (workers/pubsub-channel/policy-host.ts): the fold over the log that
    counts agent hops, the events of the call transport, the cached fold states and the
    one append pipeline of the channel. *)
From S2P Require Import Prelude Dict JsValue JsText JsJson AgentEffects JsAsync.
From S2P Require Import GadCanon GadRefs GadLog GadStored ChannelState.
#[local] Open Scope Z_scope.

(** * Policies *)

Record PolicyEnvelopeView := mkPolicyView {
  pv_envelopeId : string;
  pv_seq : Z;
  pv_payloadKind : string;
  pv_payload : val;
  pv_senderId : string;
  pv_senderKind : val;
  pv_appendedAt : string
}.

Record PolicyAppendDraft := mkPolicyDraft {
  pd_payloadKind : string;
  pd_payload : val;
  pd_senderId : string;
  pd_senderKind : val
}.

Record ChannelCallDescriptor := mkCallDescriptor {
  cd_channelId : string;
  cd_caller : val;
  cd_invocationId : string;
  cd_transportCallId : string;
  cd_turnId : option string
}.

Definition completedMessage (payloadKind : string) (payload : val) : option val :=
  if payloadKind <>s? AGENTIC_EVENT_PAYLOAD_KIND then None
  else if negb (is_object payload) then None
  else if negb (is_lit payload.!"kind" "message.completed") then None
  else Some payload.

Definition completedMessageFrom (envelope : PolicyEnvelopeView) : option val :=
  completedMessage envelope.(pv_payloadKind) envelope.(pv_payload).

Definition isAgentAuthoredCompleted (draft : PolicyAppendDraft) : option val :=
  match completedMessage draft.(pd_payloadKind) draft.(pd_payload) with
  | Some payload => if is_lit payload.!"actor".!"kind" "agent" then Some payload else None
  | None => None
  end.

(** * The events of a method call *)

Definition turn_field (turnId : option string) : list (string * val) := opt_field "turnId" (of_ostr turnId).

Definition call_causality (invocationId transportCallId : string) : val :=
  VObj ([("invocationId", VStr invocationId)] ++ opt_field "transportCallId" (VStr transportCallId)).

Definition started_payload (descriptor : ChannelCallDescriptor) (target : val) (method : string) (args : val)
    (deadlineAt : option Z) : val :=
  VObj [protocol_field; ("name", VStr method); ("invocationType", VStr "panel");
        ("request", args);
        ("transport",
          VObj ([("kind", VStr "channel"); ("channelId", VStr descriptor.(cd_channelId)); ("target", target);
                 ("transportCallId", VStr descriptor.(cd_transportCallId))]
                ++ def_field "deadlineAt" (of_onum deadlineAt)));
        ("userVisible", VBool false)].

(** [callEventPayload.started]. *)
Definition started (descriptor : ChannelCallDescriptor) (target : val) (method : string) (args : val)
    (deadlineAt : option Z) (createdAt : string) : val :=
  VObj ([("kind", VStr "invocation.started"); ("actor", descriptor.(cd_caller))]
        ++ turn_field descriptor.(cd_turnId)
        ++ [("causality", VObj [("invocationId", VStr descriptor.(cd_invocationId));
                                ("transportCallId", VStr descriptor.(cd_transportCallId))]);
            ("payload", started_payload descriptor target method args deadlineAt);
            ("createdAt", VStr createdAt)]).

Definition call_base (kind : string) (actor : val) (descriptor : ChannelCallDescriptor) : list (string * val) :=
  [("kind", VStr kind); ("actor", actor)] ++ turn_field descriptor.(cd_turnId)
  ++ [("causality", call_causality descriptor.(cd_invocationId) descriptor.(cd_transportCallId))].

Definition is_outcome (terminalOutcome : option string) (s : string) : bool :=
  bool_decide (terminalOutcome = Some s).

(** [callEventPayload.terminal]. *)
Definition terminal (descriptor : ChannelCallDescriptor) (result : val) (isError : bool)
    (terminalOutcome terminalReasonCode : option string) (createdAt : string) : val :=
  let reason := match result with VStr s => if s =s? "" then "method failed" else s | _ => "method failed" end in
  let opts :=
    (if is_str result then [] else [("error", result)]) ++ opt_field "terminalReasonCode" (of_ostr terminalReasonCode) in
  let event kind payload :=
    VObj (call_base kind descriptor.(cd_caller) descriptor ++ [("createdAt", VStr createdAt); ("payload", payload)]) in
  if is_outcome terminalOutcome "cancelled" || is_outcome terminalOutcome "stale_dispatch" then
    event "invocation.cancelled" (invocationFailurePayload (default "" terminalOutcome) reason opts)
  else if is_outcome terminalOutcome "abandoned" then
    event "invocation.abandoned" (invocationFailurePayload "abandoned" reason opts)
  else if isError then
    event "invocation.failed"
      (invocationFailurePayload
         (if is_outcome terminalOutcome "infrastructure_error" then "infrastructure_error" else "tool_error")
         "method failed"
         [("error", result); ("terminalReasonCode", VStr (default "method_failed" terminalReasonCode))])
  else event "invocation.completed" (invocationCompletedPayload [("result", result)]).

Definition output (descriptor : ChannelCallDescriptor) (content : val) (createdAt : string) : val :=
  VObj (call_base "invocation.output" descriptor.(cd_caller) descriptor
        ++ [("payload", VObj [protocol_field; ("output", content)]); ("createdAt", VStr createdAt)]).

Definition cancelled (descriptor : ChannelCallDescriptor) (actor : val) (reason createdAt : string) : val :=
  VObj (call_base "invocation.cancelled" actor descriptor
        ++ [("payload", invocationFailurePayload "cancelled" reason [("terminalReasonCode", VStr "cancelled")]);
            ("createdAt", VStr createdAt)]).

(** * Conversation *)

Definition init : ConversationStateV1 :=
  mkConversation None None None None None None None 0.

Definition reduce (state : ConversationStateV1) (envelope : PolicyEnvelopeView) : ConversationStateV1 :=
  match completedMessageFrom envelope with
  | None => state
  | Some completed =>
      let causality := completed.!"causality" ?? VObj [] in
      {| cv_previousCompletedSender := state.(cv_lastCompletedSender);
         cv_previousCompletedMessageId := state.(cv_lastCompletedMessageId);
         cv_previousCompletedSeq := state.(cv_lastCompletedSeq);
         cv_lastCompletedSender := Some envelope.(pv_senderId);
         cv_lastCompletedMessageId := as_str causality.!"messageId";
         cv_lastCompletedSeq := Some envelope.(pv_seq);
         cv_lastCompletedAt := Some envelope.(pv_appendedAt);
         cv_agentStreak :=
           if negb (is_lit completed.!"actor".!"kind" "agent") then 0
           else if bool_decide (state.(cv_lastCompletedSender) = Some envelope.(pv_senderId))
           then state.(cv_agentStreak) else state.(cv_agentStreak) + 1 |}
  end.

Definition annotate (state : ConversationStateV1) (draft : PolicyAppendDraft) : option (list (string * val)) :=
  match isAgentAuthoredCompleted draft with
  | None => None
  | Some completed =>
      Some [("agentHops",
              completed.!"causality".!"agentHops"
              ?? VNum (if bool_decide (state.(cv_lastCompletedSender) = Some draft.(pd_senderId))
                       then state.(cv_agentStreak) else state.(cv_agentStreak) + 1))]
  end.

(** * The registry *)

(** [callEventPayload] is present on the policy that owns the events of method calls. *)
Record ChannelPolicy := mkPolicy {
  cp_name : string;
  cp_version : Z;
  cp_init : ConversationStateV1;
  cp_reduce : ConversationStateV1 -> PolicyEnvelopeView -> ConversationStateV1;
  cp_annotate : ConversationStateV1 -> PolicyAppendDraft -> option (list (string * val));
  cp_callEventPayload : bool
}.

Definition conversationV1Policy : ChannelPolicy :=
  mkPolicy "agentic.conversation.v1" 1 init reduce annotate true.

Definition CHANNEL_POLICIES : dict ChannelPolicy := [(cp_name conversationV1Policy, conversationV1Policy)].

Definition getChannelPolicy (name : string) : res ChannelPolicy :=
  match dict_get name CHANNEL_POLICIES with
  | Some policy => Ok policy
  | None => Throw ("Unknown channel policy: " ^^ name)
  end.

Definition DEFAULT_CHANNEL_POLICIES : list string := ["agentic.conversation.v1"].

Definition resolveChannelPolicies (names : option (list string)) : res (list ChannelPolicy) :=
  let names := match names with Some ((_ :: _) as names) => names | _ => DEFAULT_CHANNEL_POLICIES end in
  let! resolved := res_map getChannelPolicy names in
  let owners := List.filter cp_callEventPayload resolved in
  if (1 <? length owners)%nat
  then Throw ("Channel policy conflict: more than one policy owns callEventPayload ("
              ^^ String.concat ", " (map cp_name owners) ^^ ")")
  else Ok resolved.

(** * The host *)

(** [policyViewFromLogEnvelope]. *)
Definition policyViewFromLogEnvelope (e : GadEnvelope) : PolicyEnvelopeView :=
  let event := e.(ge_event) in
  {| pv_envelopeId := event.(ev_envelopeId);
     pv_seq := e.(ge_seq);
     pv_payloadKind := event.(ev_payloadKind);
     pv_payload := event.(ev_payload);
     pv_senderId := sender_of event.(ev_actor);
     pv_senderKind := event.(ev_actor).!"kind" ?? VStr "unknown";
     pv_appendedAt := event.(ev_appendedAt) |}.

(** [policyViewFromChannelEvent]; [toISOString] throws on an invalid date. *)
Definition policyViewFromChannelEvent (event : ChannelEvent) : res PolicyEnvelopeView :=
  match event.(ce_ts) with
  | None => Throw "Invalid time value"
  | Some ts =>
      Ok {| pv_envelopeId := event.(ce_messageId);
            pv_seq := event.(ce_id);
            pv_payloadKind := event.(ce_type);
            pv_payload := event.(ce_payload);
            pv_senderId := event.(ce_senderId);
            pv_senderKind := event.(ce_payload).!"actor".!"kind" ?? VStr "unknown";
            pv_appendedAt := toISOString ts |}
  end.

Definition FOLD_PAGE_LIMIT : Z := 500.

Section Host.
Context {G B : Type} `{!ChannelStore G, !TextBlobs B}.
Context (channelId : string).
Abbreviation World := (World G B).
Abbreviation prog := (prog World).
Implicit Types w : World.

(** The names in the configuration; anything but a list of strings is a type error
    when it is resolved. *)
Definition policyNames w : option (list string) :=
  match getChannelConfig w with
  | None => None
  | Some config => match config.!"policies" with VArr l => Some (map to_str l) | _ => None end
  end.

(** [policies()]: resolved once, kept in memory. *)
Definition policies : prog (list ChannelPolicy) :=
  act_res (fun w =>
    match w.(w_policies) with
    | Some names => (w, res_map getChannelPolicy names)
    | None =>
        match resolveChannelPolicies (policyNames w) with
        | Ok resolved => (set_policies (Some (map cp_name resolved)) w, Ok resolved)
        | Throw e => (w, Throw e)
        end
    end).

Definition invalidatePolicySelection : prog unit := modify (set_policies None).

Definition loadCache (policy : ChannelPolicy) w : option PolicyStateCache :=
  match dict_get policy.(cp_name) w.(w_keys).(kv_policyState) with
  | Some cache => if cache.(pc_policyVersion) =? policy.(cp_version) then Some cache else None
  | None => None
  end.

Definition persist (policy : ChannelPolicy) (state : ConversationStateV1) (foldedThroughSeq : Z) w : World :=
  set_policyState
    (dict_set policy.(cp_name) (mkPolicyCache state foldedThroughSeq policy.(cp_version)) w.(w_keys).(kv_policyState)) w.

Definition fold_page (policy : ChannelPolicy) (acc : ConversationStateV1 * Z) (page : list GadEnvelope)
    : ConversationStateV1 * Z :=
  fold_left (fun acc e => (policy.(cp_reduce) acc.1 (policyViewFromLogEnvelope e), e.(ge_seq))) page acc.

(** One round of the loop over pages: [state], [foldedThroughSeq] and [advanced]. *)
Definition catch_up_round (policy : ChannelPolicy) (st : ConversationStateV1 * Z * bool)
    : prog ((ConversationStateV1 * Z * bool) + (ConversationStateV1 * Z * bool)) :=
  let '(state, foldedThroughSeq, advanced) := st in
  let* page := read channelId foldedThroughSeq FOLD_PAGE_LIMIT None in
  match page with
  | [] => ret (inr st)
  | _ =>
      let '(state, foldedThroughSeq) := fold_page policy (state, foldedThroughSeq) page in
      if (Z.of_nat (length page) <? FOLD_PAGE_LIMIT) then ret (inr (state, foldedThroughSeq, true))
      else ret (inl (state, foldedThroughSeq, true))
  end.

(** [getState] of a policy that is known. *)
Definition policy_state (policy : ChannelPolicy) : prog (ConversationStateV1 * Z) :=
  let* cached := get (loadCache policy) in
  let start :=
    match cached with
    | Some cache => (cache.(pc_state), cache.(pc_foldedThroughSeq), false)
    | None => (policy.(cp_init), 0, false)
    end in
  let* caught := while (catch_up_round policy) start in
  let '(state, foldedThroughSeq, advanced) := caught in
  (if advanced || negb (isSome cached) then modify (persist policy state foldedThroughSeq) else ret tt) ;;
  ret (state, foldedThroughSeq).

Definition getState (name : string) : prog (string * Z * Z * ConversationStateV1) := async (
  let* resolved := policies in
  let* policy :=
    match List.find (fun p => p.(cp_name) =s? name) resolved with
    | Some policy => ret policy
    | None => Done (getChannelPolicy name)
    end in
  let* state := policy_state policy in
  ret (policy.(cp_name), policy.(cp_version), state.2, state.1)).

(** The annotations of the policies in turn, merged; [None] when none has any. *)
Fixpoint annotate_all (resolved : list ChannelPolicy) (draft : PolicyAppendDraft)
    (merged : option (list (string * val))) : prog (option (list (string * val))) :=
  match resolved with
  | [] => ret merged
  | policy :: rest =>
      let* got := getState policy.(cp_name) in
      annotate_all rest draft
        match policy.(cp_annotate) got.2 draft with
        | Some annotations => Some (dict_merge (default [] merged) annotations)
        | None => merged
        end
  end.

Definition annotate_draft (draft : PolicyAppendDraft) : prog (option (list (string * val))) := async (let* resolved := policies in annotate_all resolved draft None).

(** One appended envelope into the caches it is next for. *)
Definition fold_one (view : PolicyEnvelopeView) w (policy : ChannelPolicy) : World :=
  match loadCache policy w with
  | None => w
  | Some cache =>
      if view.(pv_seq) <=? cache.(pc_foldedThroughSeq) then w
      else if negb (view.(pv_seq) =? cache.(pc_foldedThroughSeq) + 1) then w
      else persist policy (policy.(cp_reduce) cache.(pc_state) view) view.(pv_seq) w
  end.

Definition foldAppended (view : PolicyEnvelopeView) : prog unit :=
  let* resolved := policies in modify (fun w => fold_left (fold_one view) resolved w).

(** [callBuilders]: the builders above, when a policy owns them. *)
Definition callBuilders : prog unit :=
  let* resolved := policies in
  if existsb cp_callEventPayload resolved then ret tt
  else raise "No configured channel policy owns callEventPayload".

Definition rebuildAfterFork : prog unit := async (
  let* resolved := policies in
  modify (fun w =>
    set_policyState (fold_left (fun caches p => dict_del p.(cp_name) caches) resolved w.(w_keys).(kv_policyState)) w) ;;
  let* resolved := policies in
  for_each (fun p => getState p.(cp_name) ;; ret tt) resolved).

(** * The append pipeline ([appendDurable] of channel-do.ts) *)

Record DurableInput := mkDurable {
  du_type : string;
  du_payload : val;
  du_senderId : string;
  du_senderMetadata : val;
  du_messageId : option string;
  du_idempotency : option string;
  du_attachments : val
}.

Definition appendDurable (input : DurableInput) : prog ChannelEvent := async (
  let payloadRecord := if is_record input.(du_payload) then input.(du_payload) else VUndef in
  let senderKind := payloadRecord.!"actor".!"kind" ?? VStr "unknown" in
  let* annotations :=
    annotate_draft (mkPolicyDraft input.(du_type) input.(du_payload) input.(du_senderId) senderKind) in
  let* event :=
    append channelId
      (mkChannelAppend input.(du_type) input.(du_payload) input.(du_senderId) input.(du_senderMetadata)
         input.(du_messageId) input.(du_idempotency) (default [] annotations) input.(du_attachments)) in
  let* view := Done (policyViewFromChannelEvent event) in
  foldAppended view ;;
  ret event).
End Host.
