(* ===== verification/ChannelCalls.v ===== *)
(** The method calls of a channel (workers/pubsub-channel/calls.ts): the rows of pending
    calls, which are a cache of the log; starting, settling, cancelling, abandoning and
    redelivering calls; the sweep that makes the rows agree with the log; and the alarm
    (channel-do.ts), which wakes the channel for them. *)
From S2P Require Import Prelude Dict JsValue JsText JsJson AgentEffects JsAsync.
From S2P Require Import GadCanon GadRefs GadLog GadStored ChannelState ChannelPolicy.
#[local] Open Scope Z_scope.

(** * Pending calls *)

(** [createdAt] is [None] for [NaN]; [args] is [undefined] when there are none. *)
Record PendingCallRow := mkPending {
  pr_transportCallId : string;
  pr_invocationId : string;
  pr_turnId : option string;
  pr_callerId : string;
  pr_targetId : string;
  pr_method : string;
  pr_args : val;
  pr_createdAt : option Z;
  pr_deadlineAt : option Z
}.

Inductive SubmitterCallResolution :=
| CallPending (pending : PendingCallRow)
| CallTerminal (eventId : Z)
| CallMissing.

Definition TERMINAL_KINDS : list string :=
  ["invocation.completed"; "invocation.failed"; "invocation.cancelled"; "invocation.abandoned"].

Definition terminalId (transportCallId : string) : string := "terminal:" ^^ transportCallId.

(** [String(ref.participantId ?? ref.id ?? fallback)] of a reference. *)
Definition ref_id (ref : val) (fallback : string) : string :=
  to_str (ref.!"participantId" ?? ref.!"id" ?? VStr fallback).

Definition record_of (v : val) : val := v ?? VObj [].

(** The call an agentic event is about. *)
Definition transportCallId_of (event : val) : option string :=
  match (record_of event.!"causality").!"transportCallId" with
  | VStr s => Some s
  | _ => as_str (record_of (record_of event.!"payload").!"transport").!"transportCallId"
  end.

(** One round of the fold over the log. *)
Definition derive_step (pending : dict PendingCallRow) (envelope : GadEnvelope) : dict PendingCallRow :=
  let event := envelope.(ge_event).(ev_payload) in
  if envelope.(ge_event).(ev_payloadKind) <>s? AGENTIC_EVENT_PAYLOAD_KIND then pending
  else if negb (is_object event) then pending
  else
    let kind := event.!"kind" in
    let causality := record_of event.!"causality" in
    let payload := record_of event.!"payload" in
    let transport := record_of payload.!"transport" in
    match transportCallId_of event with
    | None => pending
    | Some transportCallId =>
        if transportCallId =s? "" then pending
        else if is_lit kind "invocation.started" then
          if negb (is_lit transport.!"kind" "channel") then pending
          else
            dict_set transportCallId
              {| pr_transportCallId := transportCallId;
                 pr_invocationId := default transportCallId (as_str causality.!"invocationId");
                 pr_turnId := as_str event.!"turnId";
                 pr_callerId := ref_id (record_of event.!"actor") "unknown";
                 pr_targetId := ref_id (record_of transport.!"target") "unknown";
                 pr_method := default "unknown" (as_str payload.!"name");
                 pr_args := payload.!"request";
                 pr_createdAt := Date_parse envelope.(ge_event).(ev_appendedAt);
                 pr_deadlineAt := as_num transport.!"deadlineAt" |} pending
        else if existsb (is_lit kind) TERMINAL_KINDS then dict_del transportCallId pending
        else pending
    end.

Definition pending_map (envelopes : list GadEnvelope) : dict PendingCallRow := fold_left derive_step envelopes [].

Definition derivePendingCalls (envelopes : list GadEnvelope) : list PendingCallRow := dict_values (pending_map envelopes).

(** * Rows *)

Definition rowFrom (row : CallRow) : PendingCallRow :=
  {| pr_transportCallId := row.(cr_transportCallId);
     pr_invocationId := row.(cr_invocationId);
     pr_turnId := match row.(cr_turnId) with Some t => if t =s? "" then None else Some t | None => None end;
     pr_callerId := row.(cr_callerId);
     pr_targetId := row.(cr_targetId);
     pr_method := row.(cr_method);
     pr_args := match row.(cr_args) with
                | Some raw => match json_parse raw with Ok v => v | Throw _ => VUndef end
                | None => VUndef
                end;
     pr_createdAt := Some row.(cr_createdAt);
     pr_deadlineAt := row.(cr_deadlineAt) |}.

Definition no_call (transportCallId : string) (row : CallRow) : bool := row.(cr_transportCallId) <>s? transportCallId.

(** What [callMethod] and [submitMethodResult] are told beside their arguments. *)
Record CallOptions := mkCallOptions {
  co_invocationId : option string;
  co_transportCallId : option string;
  co_turnId : option string;
  co_timeoutMs : option Z
}.

Record SettleOptions := mkSettleOptions {
  st_terminalOutcome : option string;
  st_terminalReasonCode : option string;
  st_attachments : val;
  st_eventOverride : option val;
  st_senderId : option string
}.

(** [opts?.x ? { x } : {}]. *)
Definition truthy_opt (o : option string) : option string :=
  match o with Some s => if s =s? "" then None else Some s | None => None end.

Definition min_opt (l : list Z) : option Z :=
  match l with [] => None | x :: l' => Some (fold_left Z.min l' x) end.

Definition DEDUP_TTL_MS : Z := 300000.
Definition PARTICIPANT_STALE_MS : Z := 300000.
Definition PENDING_REDELIVERY_STALE_MS : Z := 10000.
Definition PENDING_REDELIVERY_INTERVAL_MS : Z := 15000.

Section Calls.
Context {G B : Type} `{!ChannelStore G, !TextBlobs B}.
Context (channelId : string).
Abbreviation World := (World G B).
Abbreviation prog := (prog World).
Implicit Types w : World.

(** * The alarm *)

Definition nextDedupSweepAt w : option Z := option_map (fun t => t + DEDUP_TTL_MS) (min_opt (map dk_createdAt w.(w_dedup))).

Definition is_rpc (p : ParticipantRow) : bool := match p.(pa_transport) with TransportRpc => true | TransportDo => false end.

Definition nextParticipantSweepAt w : option Z :=
  option_map (fun t => t + PARTICIPANT_STALE_MS) (min_opt (map pa_connectedAt (List.filter is_rpc w.(w_participants)))).

Definition nextCallDeadlineAt w : option Z := min_opt (omap cr_deadlineAt w.(w_calls)).

Definition nextPendingRedeliveryAt w : option Z :=
  option_map
    (fun oldest =>
       let firstEligible := oldest + PENDING_REDELIVERY_STALE_MS in
       let lastSwept := default 0 w.(w_keys).(kv_sweptAt) in
       let nextRecurring := if 0 <? lastSwept then lastSwept + PENDING_REDELIVERY_INTERVAL_MS else firstEligible in
       Z.max firstEligible nextRecurring)
    (min_opt (map cr_createdAt w.(w_calls))).

Definition alarm_at w : option Z :=
  match min_opt (omap id [nextDedupSweepAt w; nextParticipantSweepAt w; nextCallDeadlineAt w; nextPendingRedeliveryAt w]) with
  | None => None
  | Some next => Some (w.(w_now) + Z.max (next - w.(w_now)) 100)
  end.

Definition scheduleNextAlarm : prog unit := modify (fun w => set_alarm (alarm_at w) w).

(** * Access to the rows *)

Definition peek_row w (transportCallId : string) : option PendingCallRow :=
  option_map rowFrom (List.find (fun row => row.(cr_transportCallId) =s? transportCallId) w.(w_calls)).

Definition peek (transportCallId : string) : prog (option PendingCallRow) := get (fun w => peek_row w transportCallId).

Definition pendingFor w (targetId : string) : list PendingCallRow :=
  map rowFrom (List.filter (fun row => row.(cr_targetId) =s? targetId) w.(w_calls)).

Definition call_row (row : PendingCallRow) (createdAt : Z) : CallRow :=
  {| cr_transportCallId := row.(pr_transportCallId);
     cr_invocationId := row.(pr_invocationId);
     cr_turnId := row.(pr_turnId);
     cr_callerId := row.(pr_callerId);
     cr_targetId := row.(pr_targetId);
     cr_method := row.(pr_method);
     cr_args := match row.(pr_args) with VUndef => None | args => json_stringify args end;
     cr_createdAt := createdAt;
     cr_deadlineAt := row.(pr_deadlineAt) |}.

(** [INSERT OR REPLACE], the creation time of a row that is there already kept. *)
Definition insert_row (row : PendingCallRow) w : World * res unit :=
  let createdAt :=
    match peek_row w row.(pr_transportCallId) with
    | Some existing => existing.(pr_createdAt)
    | None => row.(pr_createdAt)
    end in
  match createdAt with
  | None => (w, Throw "NOT NULL constraint failed: pending_calls.created_at")
  | Some createdAt =>
      (set_calls (List.filter (no_call row.(pr_transportCallId)) w.(w_calls) ++ [call_row row createdAt]) w, Ok tt)
  end.

Definition insertRow (row : PendingCallRow) : prog unit := act_res (insert_row row).

Definition delete_row (transportCallId : string) w : World :=
  set_calls (List.filter (no_call transportCallId) w.(w_calls)) w.

Definition deleteRow (transportCallId : string) : prog unit := modify (delete_row transportCallId).

Definition observe_head (seq : Z) w : World :=
  if default 0 w.(w_keys).(kv_reconciledThrough) <? seq then set_reconciledThrough seq w else w.

Definition recordObservedHead (seq : Z) : prog unit := modify (observe_head seq).

(** The row of a call as its journaled start says. *)
Definition pendingFromStartedEvent (event : ChannelEvent) (fallback : PendingCallRow) : PendingCallRow :=
  let agentic := event.(ce_payload) in
  if negb (is_object agentic) || negb (is_lit agentic.!"kind" "invocation.started") then fallback
  else
    let causality := record_of agentic.!"causality" in
    let payload := record_of agentic.!"payload" in
    let transport := record_of payload.!"transport" in
    let createdAt := match agentic.!"createdAt" with VStr s => Date_parse s | _ => None end in
    {| pr_transportCallId := default fallback.(pr_transportCallId) (as_str causality.!"transportCallId");
       pr_invocationId := default fallback.(pr_invocationId) (as_str causality.!"invocationId");
       pr_turnId := as_str agentic.!"turnId";
       pr_callerId := ref_id (record_of agentic.!"actor") fallback.(pr_callerId);
       pr_targetId := ref_id (record_of transport.!"target") fallback.(pr_targetId);
       pr_method := default fallback.(pr_method) (as_str payload.!"name");
       pr_args := payload.!"request";
       pr_createdAt := match createdAt with Some t => Some t | None => fallback.(pr_createdAt) end;
       pr_deadlineAt := match as_num transport.!"deadlineAt" with Some d => Some d | None => fallback.(pr_deadlineAt) end |}.

(** * Promises of starts under way *)

Definition resolved w (promise : string * nat) : bool := existsb (fun p => bool_decide (p.1 = promise)) w.(w_promises).

Definition awaitInFlightStart (transportCallId : string) : prog unit := async (
  let* inFlight := get (fun w => dict_get transportCallId w.(w_startInFlight)) in
  match inFlight with
  | Some promise => Until (fun w => resolved w promise) (ret tt)
  | None => ret tt
  end).

Definition open_start (transportCallId : string) : prog (string * nat) :=
  act (fun w =>
    let promise := (transportCallId, w.(w_nextPromise)) in
    (set_nextPromise (S promise.2) (set_startInFlight (dict_set transportCallId promise w.(w_startInFlight)) w), promise)).

Definition close_start (transportCallId : string) (promise : string * nat) : prog unit :=
  modify (fun w =>
    let w := set_promises (w.(w_promises) ++ [(promise, Ok None)]) w in
    if bool_decide (dict_get transportCallId w.(w_startInFlight) = Some promise)
    then set_startInFlight (dict_del transportCallId w.(w_startInFlight)) w else w).

(** * The log behind the rows *)

Definition terminalEvent (transportCallId : string) : prog (option ChannelEvent) :=
  getEventByEnvelopeId channelId (terminalId transportCallId).

Definition RECONCILE_PAGE : Z := 500.

Definition read_round (st : list GadEnvelope * Z) : prog ((list GadEnvelope * Z) + list GadEnvelope) :=
  let '(envelopes, afterSeq) := st in
  let* page := read channelId afterSeq RECONCILE_PAGE (Some AGENTIC_EVENT_PAYLOAD_KIND) in
  match list.last page with
  | None => ret (inr envelopes)
  | Some e =>
      if (Z.of_nat (length page) <? RECONCILE_PAGE) then ret (inr (envelopes ++ page))
      else ret (inl (envelopes ++ page, e.(ge_seq)))
  end.

(** The pages of the log's agentic events. *)
Definition read_pages : prog (list GadEnvelope) := while read_round ([], 0).

Fixpoint insert_rows (rows : list PendingCallRow) w : World * res unit :=
  match rows with
  | [] => (w, Ok tt)
  | row :: rest =>
      match insert_row row w with
      | (w, Ok _) => insert_rows rest w
      | (w, Throw e) => (w, Throw e)
      end
  end.

(** The rows that are not derived any more go, the derived that are missing come. *)
Definition stale_rows (derived : dict PendingCallRow) w : list CallRow :=
  List.filter (fun row => negb (dict_has row.(cr_transportCallId) derived)) w.(w_calls).
Definition missing_rows (derived : dict PendingCallRow) w : list PendingCallRow :=
  dict_values (fold_left (fun d row => dict_del row.(cr_transportCallId) d) w.(w_calls) derived).

Definition reconcile_table (envelopes : list GadEnvelope) (headSeq : Z) w : World * res (nat * nat) :=
  let derivedByKey := pending_map envelopes in
  let stale := stale_rows derivedByKey w in
  let missing := missing_rows derivedByKey w in
  let w := fold_left (fun w row => delete_row row.(cr_transportCallId) w) stale w in
  match insert_rows missing w with
  | (w, Throw e) => (w, Throw e)
  | (w, Ok _) =>
      let w := set_reconciledThrough headSeq w in
      let w := if (0 <? length stale + length missing)%nat then set_alarm (alarm_at w) w else w in
      (w, Ok (length missing, length stale))
  end.

(** How many rows were inserted and deleted. *)
Definition reconcilePendingCalls (force : bool) : prog (nat * nat) := async (
  let* head := headSeq channelId in
  let* through := get (fun w => default (-1) w.(w_keys).(kv_reconciledThrough)) in
  if negb force && (through =? head) then ret (0%nat, 0%nat)
  else
    let* envelopes := read_pages in
    act_res (reconcile_table envelopes head)).

(** * Settling *)

Definition descriptor_of w (pending : PendingCallRow) : ChannelCallDescriptor :=
  mkCallDescriptor channelId (participantRef w pending.(pr_callerId)) pending.(pr_invocationId)
    pending.(pr_transportCallId) (truthy_opt pending.(pr_turnId)).

Definition nowIso w : string := toISOString w.(w_now).

(** A start for a terminal that has none in the log. *)
Definition ensureMethodRoot (pending : PendingCallRow) : prog unit := async (
  let* rooted := hasEnvelope channelId pending.(pr_invocationId) in
  if rooted then ret tt
  else
    callBuilders ;;
    let* input := get (fun w =>
      mkDurable AGENTIC_EVENT_PAYLOAD_KIND
        (started (descriptor_of w pending) (participantRef w pending.(pr_targetId)) pending.(pr_method)
           pending.(pr_args) None (nowIso w))
        pending.(pr_callerId) (getSenderMetadata w pending.(pr_callerId)) (Some pending.(pr_invocationId)) None VUndef) in
    appendDurable channelId input ;;
    ret tt).

(** The terminal of a call: the one in the log, or [payload] appended under its id. *)
Definition appendTerminal (pending : PendingCallRow) (payload : World -> val) (override : bool) (senderId : string)
    (attachments : val) : prog ChannelEvent :=
  let* existing := terminalEvent pending.(pr_transportCallId) in
  match existing with
  | Some event => ret event
  | None =>
      (if override then ret tt else callBuilders) ;;
      let* input := get (fun w =>
        mkDurable AGENTIC_EVENT_PAYLOAD_KIND (payload w) senderId VUndef
          (Some (terminalId pending.(pr_transportCallId))) (Some "idempotent-by-id") attachments) in
      appendDurable channelId input
  end.

Definition settleCall (transportCallId : string) (result : val) (isError : bool) (opts : SettleOptions)
    : prog (option Z) := async (
  awaitInFlightStart transportCallId ;;
  let* cached := peek transportCallId in
  let* found :=
    match cached with
    | Some pending => ret (inl pending)
    | None =>
        let* existing := terminalEvent transportCallId in
        match existing with
        | Some event => ret (inr (Some event.(ce_id)))
        | None =>
            reconcilePendingCalls true ;;
            let* cached := peek transportCallId in
            match cached with
            | Some pending => ret (inl pending)
            | None =>
                let* existing := terminalEvent transportCallId in
                ret (inr (option_map ce_id existing))
            end
        end
    end in
  match found with
  | inr answer => ret answer
  | inl pending =>
      ensureMethodRoot pending ;;
      let sender := default pending.(pr_callerId) opts.(st_senderId) in
      let payload w :=
        match opts.(st_eventOverride) with
        | Some event => event
        | None =>
            terminal (descriptor_of w pending) result isError (truthy_opt opts.(st_terminalOutcome))
              (truthy_opt opts.(st_terminalReasonCode)) (nowIso w)
        end in
      let* event := appendTerminal pending payload (isSome opts.(st_eventOverride)) sender opts.(st_attachments) in
      deleteRow transportCallId ;;
      recordObservedHead event.(ce_id) ;;
      scheduleNextAlarm ;;
      let* callerPresent :=
        get (fun w => isSome opts.(st_senderId) || isSome (participantTransport w pending.(pr_callerId))) in
      (if callerPresent then broadcastLive event None else ret tt) ;;
      ret (Some event.(ce_id))
  end).

(** A result for a call nothing is known of: it gets a start and a terminal. *)
Definition settleMissingCall (targetId transportCallId : string) (result : val) (isError : bool)
    (invocationId turnId : option string) (opts : SettleOptions) : prog (option Z) := async (
  let* synthetic := get (fun w =>
    {| pr_transportCallId := transportCallId; pr_invocationId := default transportCallId invocationId;
       pr_turnId := truthy_opt turnId; pr_callerId := "unknown"; pr_targetId := targetId; pr_method := "unknown";
       pr_args := VUndef; pr_createdAt := Some w.(w_now); pr_deadlineAt := None |}) in
  ensureMethodRoot synthetic ;;
  let payload w :=
    terminal (descriptor_of w synthetic) result isError (truthy_opt opts.(st_terminalOutcome))
      (truthy_opt opts.(st_terminalReasonCode)) (nowIso w) in
  let* event := appendTerminal synthetic payload false "unknown" opts.(st_attachments) in
  recordObservedHead event.(ce_id) ;;
  scheduleNextAlarm ;;
  broadcastLive event None ;;
  ret (Some event.(ce_id))).

Definition default_settle : SettleOptions := mkSettleOptions None None VUndef None None.

(** * Starting *)

Definition error_result (message : string) : val := VObj [("error", VStr message)].

Definition dispatchCallStart (pendingRow : PendingCallRow) : prog unit := async (
  let* transport := get (fun w => participantTransport w pendingRow.(pr_targetId)) in
  match transport with
  | None =>
      settleCall pendingRow.(pr_transportCallId)
        (error_result ("Target " ^^ pendingRow.(pr_targetId) ^^ " not found")) true default_settle ;;
      ret tt
  | Some transport =>
      let* isAgentVesselTarget := get (fun w => participantIsAgentVessel (getSenderMetadata w pendingRow.(pr_targetId))) in
      match transport, isAgentVesselTarget with
      | TransportDo, true =>
          modify (fun w =>
            set_tasks (w.(w_tasks) ++
              [mkMethodDelivery pendingRow.(pr_targetId) pendingRow.(pr_transportCallId) pendingRow.(pr_invocationId)
                 pendingRow.(pr_turnId) pendingRow.(pr_method) pendingRow.(pr_args)]) w)
      | _, _ => ret tt
      end
  end).

(** [deliverDoMethodCall] once the call of [onMethodCall] has answered or thrown. *)
Definition deliverDoMethodCall (input : MethodDelivery) (answer : res val) : prog unit := async (
  let settled :=
    match answer with
    | Ok (VUndef | VNull) => raise "Cannot read properties of undefined (reading 'result')"
    | Ok res =>
        settleCall input.(md_transportCallId) res.!"result" (truthy res.!"isError") default_settle
    | Throw err => raise err
    end in
  bindr settled (fun r =>
    match r with
    | Ok _ => ret tt
    | Throw err => settleCall input.(md_transportCallId) (VStr err) true default_settle ;; ret tt
    end)).

(** The started event and its row; what is left to do is the dispatch, when the call is
    not settled already. *)
Definition journalCallStart (callerPid targetPid callId method : string) (args : val) (opts : CallOptions)
    : prog (option PendingCallRow) := async (
  let transportCallId := default callId opts.(co_transportCallId) in
  let invocationId := default callId opts.(co_invocationId) in
  let* deadlineAt := get (fun w =>
    match opts.(co_timeoutMs) with Some t => if 0 <? t then Some (w.(w_now) + t) else None | None => None end) in
  let* createdAt := get nowIso in
  let* existingTerminal := terminalEvent transportCallId in
  match existingTerminal with
  | Some event => deleteRow transportCallId ;; broadcastLive event None ;; ret None
  | None =>
      callBuilders ;;
      let* input := get (fun w =>
        mkDurable AGENTIC_EVENT_PAYLOAD_KIND
          (started
             (mkCallDescriptor channelId (participantRef w callerPid) invocationId transportCallId
                (truthy_opt opts.(co_turnId)))
             (participantRef w targetPid) method args deadlineAt createdAt)
          callerPid (getSenderMetadata w callerPid) (Some invocationId) (Some "idempotent-by-id") VUndef) in
      let* callEvent := appendDurable channelId input in
      let* fallbackRow := get (fun w =>
        {| pr_transportCallId := transportCallId; pr_invocationId := invocationId;
           pr_turnId := truthy_opt opts.(co_turnId); pr_callerId := callerPid; pr_targetId := targetPid;
           pr_method := method; pr_args := args; pr_createdAt := Some w.(w_now); pr_deadlineAt := deadlineAt |}) in
      let pendingRow := pendingFromStartedEvent callEvent fallbackRow in
      let* terminalAfterStart := terminalEvent pendingRow.(pr_transportCallId) in
      match terminalAfterStart with
      | Some event => deleteRow pendingRow.(pr_transportCallId) ;; broadcastLive event None ;; ret None
      | None =>
          insertRow pendingRow ;;
          recordObservedHead callEvent.(ce_id) ;;
          scheduleNextAlarm ;;
          broadcastLive callEvent None ;;
          ret (Some pendingRow)
      end
  end).

Definition callMethod (callerPid targetPid callId method : string) (args : val) (opts : CallOptions) : prog unit := async (
  let transportCallId := default callId opts.(co_transportCallId) in
  let* promise := open_start transportCallId in
  let* dispatch :=
    async (bindr (journalCallStart callerPid targetPid callId method args opts)
      (fun r => close_start transportCallId promise ;; Done r)) in
  match dispatch with
  | Some pendingRow => dispatchCallStart pendingRow
  | None => ret tt
  end).

(** * Submitting *)

Definition resolveSubmitterForCall (participantId transportCallId operation : string) : prog SubmitterCallResolution := async (
  awaitInFlightStart transportCallId ;;
  let* cached := peek transportCallId in
  let* found :=
    match cached with
    | Some pending => ret (CallPending pending)
    | None =>
        let* existing := terminalEvent transportCallId in
        match existing with
        | Some event => ret (CallTerminal event.(ce_id))
        | None =>
            reconcilePendingCalls true ;;
            let* cached := peek transportCallId in
            match cached with
            | Some pending => ret (CallPending pending)
            | None =>
                let* existing := terminalEvent transportCallId in
                ret match existing with Some event => CallTerminal event.(ce_id) | None => CallMissing end
            end
        end
    end in
  match found with
  | CallPending pending =>
      if pending.(pr_targetId) <>s? participantId
      then raise (operation ^^ " rejected: participant " ^^ participantId ^^ " is not target " ^^ pending.(pr_targetId)
                  ^^ " for method call " ^^ transportCallId)
      else ret found
  | _ => ret found
  end).

(** [CallTransport.submitMethodProgress]. *)
Definition append_progress (transportCallId : string) (content attachments : val) : prog unit := async (
  let* cached := peek transportCallId in
  match cached with
  | None => ret tt
  | Some pending =>
      ensureMethodRoot pending ;;
      callBuilders ;;
      let* input := get (fun w =>
        mkDurable AGENTIC_EVENT_PAYLOAD_KIND (output (descriptor_of w pending) content (nowIso w))
          pending.(pr_callerId) VUndef None None attachments) in
      let* event := appendDurable channelId input in
      recordObservedHead event.(ce_id) ;;
      broadcastLive event None
  end).

(** * Cancelling *)

Definition cancel_call (callId reason : string) : prog (option PendingCallRow) := async (
  awaitInFlightStart callId ;;
  let* cached := peek callId in
  let* pending :=
    match cached with
    | Some pending => ret (Some pending)
    | None =>
        let* existing := terminalEvent callId in
        match existing with
        | Some _ => ret None
        | None => reconcilePendingCalls true ;; peek callId
        end
    end in
  match pending with
  | None => scheduleNextAlarm ;; ret None
  | Some pending =>
      callBuilders ;;
      let* event := get (fun w => cancelled (descriptor_of w pending) (participantRef w "system") reason (nowIso w)) in
      settleCall callId (VStr reason) true
        (mkSettleOptions (Some "cancelled") (Some "cancelled") VUndef (Some event) (Some "system")) ;;
      ret (Some pending)
  end).

Inductive LeaveReason := LeaveGraceful | LeaveDisconnect | LeaveReplaced.

Definition reason_text (reason : LeaveReason) : string :=
  match reason with LeaveGraceful => "graceful" | LeaveDisconnect => "disconnect" | LeaveReplaced => "replaced" end.

Definition leave_message (targetId : string) (reason : LeaveReason) : string :=
  match reason with
  | LeaveGraceful => "Target " ^^ targetId ^^ " left the channel before the call completed"
  | LeaveDisconnect => "Target " ^^ targetId ^^ " disconnected from the channel before the call completed"
  | LeaveReplaced => "Target " ^^ targetId ^^ " was replaced by a new session before the call completed"
  end.

(** A settle that throws is logged and the next call is tried. *)
Definition failPendingCallsTargeting (targetId : string) (reason : LeaveReason) : prog nat := async (
  let* rows := get (fun w => pendingFor w targetId) in
  for_each
    (fun row =>
       bindr
         (settleCall row.(pr_transportCallId) (error_result (leave_message targetId reason)) true
            (mkSettleOptions (Some "abandoned") (Some (reason_text reason)) VUndef None None))
         (fun _ => ret tt))
    rows ;;
  ret (length rows)).

Definition redelivery w (participantId : string) (row : PendingCallRow) : Delivery :=
  let payload :=
    started
      (mkCallDescriptor channelId (participantRef w row.(pr_callerId)) row.(pr_invocationId)
         row.(pr_transportCallId) (truthy_opt row.(pr_turnId)))
      (participantRef w participantId) row.(pr_method) row.(pr_args) row.(pr_deadlineAt) (nowIso w) in
  Emit participantId
    (channelEventToRpcSignal
       (mkChannelEvent 0 row.(pr_invocationId) AGENTIC_EVENT_PAYLOAD_KIND payload row.(pr_callerId)
          (getSenderMetadata w row.(pr_callerId)) VUndef (Some w.(w_now)) [] []) None).

Definition redeliverPendingCallsTo (participantId : string) : prog unit :=
  let* rows := get (fun w => pendingFor w participantId) in
  match rows with
  | [] => ret tt
  | _ =>
      callBuilders ;;
      modify (fun w => set_sent (w.(w_sent) ++ map (redelivery w participantId) rows) w)
  end.

Definition timeoutExpiredPendingCalls (onTimeout : PendingCallRow -> string -> prog unit) : prog unit := async (
  let* expired := get (fun w =>
    List.filter (fun row => match row.(cr_deadlineAt) with Some d => d <=? w.(w_now) | None => false end) w.(w_calls)) in
  for_each
    (fun row =>
       let* pending := cancel_call row.(cr_transportCallId) "Channel method deadline expired" in
       match pending with
       | Some pending => onTimeout pending "method call deadline expired"
       | None => ret tt
       end)
    expired).
End Calls.
