(* ===== verification/ChannelDo.v ===== *)
(** The durable object of a channel (workers/pubsub-channel/channel-do.ts): who may
    speak for a participant, the roster and its presence events, publishing, the replay a
    subscriber gets, the entry points of method calls, the alarm, and forking. *)
From Stdlib Require Import Ascii.
From S2P Require Import Prelude Dict JsValue JsText JsJson AgentEffects JsAsync.
From S2P Require Import GadCanon GadRefs GadLog GadStored ChannelState ChannelPolicy ChannelCalls.
#[local] Open Scope Z_scope.

(** A double quote. *)
Definition DQ : string := String (ascii_of_nat 34) "".

(** * Callers and metadata *)

Record Caller := mkCaller {
  ca_callerId : string;
  ca_callerKind : string;
  ca_callerPanelId : option string
}.

Definition isAuthorizedParticipantCaller (caller : option Caller) (participantId : string) : bool :=
  match caller with
  | None => true
  | Some c =>
      if c.(ca_callerId) =s? "" then true
      else if c.(ca_callerId) =s? participantId then true
      else (c.(ca_callerKind) =s? "panel") && bool_decide (c.(ca_callerPanelId) = Some participantId)
  end.

Definition caller_id (caller : option Caller) : string :=
  match caller with Some c => c.(ca_callerId) | None => "unknown" end.

Definition assertParticipantCaller (caller : option Caller) (participantId method : string) : res unit :=
  if isAuthorizedParticipantCaller caller participantId then Ok tt
  else Throw (method ^^ ": participant " ^^ participantId ^^ " cannot be used by caller " ^^ caller_id caller).

Definition isPrivilegedRpcCaller (caller : option Caller) : bool :=
  match caller with
  | Some c => (c.(ca_callerId) =s? "main") || (c.(ca_callerKind) =s? "server") || (c.(ca_callerKind) =s? "shell")
  | None => false
  end.

Definition assertAdminCaller (caller : option Caller) (method : string) : res unit :=
  if isPrivilegedRpcCaller caller then Ok tt
  else Throw (method ^^ ": privileged caller required (got "
              ^^ match caller with Some c => c.(ca_callerKind) | None => "unknown" end ^^ " " ^^ caller_id caller ^^ ")").

(** [s.split(":")]. *)
Fixpoint split_colon (s : string) : list string :=
  match s with
  | EmptyString => [""]
  | String c s' =>
      if Ascii.eqb c ":"%char then "" :: split_colon s'
      else match split_colon s' with
           | first :: rest => String c first :: rest
           | [] => [String c ""]
           end
  end.

Definition parseDOParticipantId (participantId : string) : option (string * string * string) :=
  if negb (startsWith participantId "do:") then None
  else
    match split_colon (String.substring 3 (String.length participantId) participantId) with
    | source :: className :: objectKeyParts =>
        let objectKey := String.concat ":" objectKeyParts in
        if (source =s? "") || (className =s? "") || (objectKey =s? "") then None
        else Some (source, className, objectKey)
    | _ => None
    end.

Definition is_letter (c : ascii) : bool := in_range 65 90 (code c) || in_range 97 122 (code c).
Definition is_name_char (c : ascii) : bool :=
  is_letter c || in_range 48 57 (code c) || (code c =? 95) || (code c =? 45).

(** [METHOD_NAME_PATTERN]: a letter and at most 63 letters, digits, underscores, dashes. *)
Definition VALID_METHOD_NAME (name : string) : bool :=
  match name with
  | EmptyString => false
  | String c rest =>
      is_letter c && forallb is_name_char (String.list_ascii_of_string rest) && (String.length rest <=? 63)%nat
  end.

Definition RESERVED_METHOD_NAMES : list string := ["read"; "edit"; "write"; "grep"; "find"; "ls"].

Definition reserved (name : string) : bool := existsb (String.eqb name) RESERVED_METHOD_NAMES.

(** The first advertised method whose name is not allowed. *)
Definition invalid_method (advertisedMethods : val) : option string :=
  List.find (fun name => negb (VALID_METHOD_NAME name) || reserved name)
    (omap (fun m => as_str m.!"name") (arr_or_nil advertisedMethods)).

Definition optional (ok : val -> bool) (v : val) : bool := match v with VUndef => true | _ => ok v end.
Definition is_bool (v : val) : bool := match v with VBool _ => true | _ => false end.
Definition name_ok (v : val) : bool := match v with VStr s => VALID_METHOD_NAME s | _ => false end.
Definition method_ok (v : val) : bool :=
  is_record v
  && optional (fun n => match n with VStr s => VALID_METHOD_NAME s && negb (reserved s) | _ => false end) v.!"name".
Definition array_of (ok : val -> bool) (v : val) : bool := match v with VArr l => forallb ok l | _ => false end.
Definition at_least (bound : Z) (v : val) : bool := match v with VNum n => bound <=? n | _ => false end.

(** [participantMetadataSchema], by the fields it names. *)
Definition METADATA_SCHEMA : list (string * (val -> bool)) :=
  [("name", is_str); ("type", is_str); ("handle", name_ok); ("roles", array_of is_str); ("methods", array_of method_ok);
   ("contextId", is_str); ("channelConfig", is_record); ("replay", is_bool); ("sinceId", at_least 0);
   ("replayMessageLimit", at_least 1); ("receivesChannelEnvelopes", is_bool)].

(** The first field that is not as the schema says; the message of the schema library is
    left out of the error. *)
Definition invalid_field (metadata : val) : option string :=
  if negb (is_record metadata) then Some "$"
  else option_map fst (List.find (fun '(key, ok) => negb (optional ok metadata.!key)) METADATA_SCHEMA).

Definition PARTICIPANT_SESSION_METADATA_KEY : string := "__participantSessionId".

(** The metadata that is stored. *)
Definition stored_metadata (metadata : val) : val :=
  VObj (fold_left (fun fs key => dict_del key fs)
          ["contextId"; "channelConfig"; "replay"; "sinceId"; "replayMessageLimit"; "transport";
           PARTICIPANT_SESSION_METADATA_KEY] (fields metadata)).

Inductive PresenceAction := PresenceJoin | PresenceLeave | PresenceUpdate.

Definition presence_payload (action : PresenceAction) (metadata : val) (leaveReason : option LeaveReason) : val :=
  VObj ([("action", VStr match action with
                         | PresenceJoin => "join" | PresenceLeave => "leave" | PresenceUpdate => "update"
                         end);
         ("metadata", metadata)]
        ++ match leaveReason with Some r => [("leaveReason", VStr (reason_text r))] | None => [] end).

Definition REPLAY_LIMIT : Z := 50.

Record ReplayEnvelope := mkReplay {
  re_mode : ReplayMode;
  re_logEvents : list ChannelEvent;
  re_roster : list (string * val);
  re_ts : Z;
  re_ready : list (string * val)
}.

(** [eventFromChannelView], on a hydrated view. *)
Definition eventFromChannelView (envelope : val) : ChannelEvent :=
  buildChannelEvent (default 0 (as_num envelope.!"seq")) (to_str envelope.!"envelopeId")
    (to_str (envelope.!"payloadKind" ?? VStr "message")) (json_stringify envelope.!"payload")
    (sender_of envelope.!"from") (envelope.!"metadata" ?? envelope.!"from".!"metadata")
    (match envelope.!"publishedAt" with VStr s => Date_parse s | _ => None end)
    envelope.!"attachments" (policyAnnotations match envelope.!"annotations" with VUndef | VNull => None | a => Some a end).

Section ChannelDo.
Context {G B : Type} `{!ChannelStore G, !TextBlobs B}.
Context (channelId : string).
Abbreviation World := (World G B).
Abbreviation prog := (prog World).
Implicit Types w : World.

(** * Roster *)

Definition rosterSnapshot w : list (string * val) :=
  omap (fun p => option_map (fun v => (p.(pa_id), v)) (parse_metadata p.(pa_metadata)))
    (sort_by (fun a b => String.leb a.(pa_id) b.(pa_id)) w.(w_participants)).

(** What [refreshOwnTitle] tells the server is left out. *)
Definition initChannel (contextId : string) (channelConfig : val) : prog unit :=
  act_res (fun w =>
    let k := w.(w_keys) in
    match truthy_opt k.(kv_contextId) with
    | Some existing =>
        if existing <>s? contextId
        then (w, Throw ("Context mismatch: channel bound to " ^^ existing ^^ ", got " ^^ contextId)) else (w, Ok tt)
    | None =>
        (set_keys (mkKeys k.(kv_objectKey) (Some contextId) (Some w.(w_now))
                     (if truthy channelConfig then json_stringify channelConfig else k.(kv_config))
                     k.(kv_reconciledThrough) k.(kv_sweptAt) k.(kv_policyState) k.(kv_forkedFrom) k.(kv_forkPointId)) w,
         Ok tt)
    end).

Definition publishPresenceEvent (senderId : string) (action : PresenceAction) (metadata : val)
    (leaveReason : option LeaveReason) : prog unit := async (
  let publicMetadata := publicParticipantMetadata metadata ?? VObj [] in
  let* event :=
    appendDurable channelId
      (mkDurable "presence" (presence_payload action publicMetadata leaveReason) senderId publicMetadata None None VUndef) in
  broadcastLive event None).

Definition broadcastPresenceSignal (senderId : string) (metadata : val) : prog unit :=
  let* event := get (fun w =>
    buildChannelEvent 0 w.(w_uuid) "presence" (json_stringify (presence_payload PresenceUpdate metadata None))
      senderId metadata (Some w.(w_now)) VUndef []) in
  broadcast event (BroadcastSignal None).

(** * Replay *)

Definition hydrate_views (b : B) (window : ChannelReplayWindow) : res (list val) :=
  res_map (hydrateStoredValueRefs HYDRATE_DEPTH b) window.(rw_envelopes).

Definition replay_window (mode : ReplayMode) (sinceSeq beforeSeq limit : option Z) : prog ReplayEnvelope := async (
  let* context := get (fun w =>
    (w.(w_keys).(kv_contextId), default VUndef (getChannelConfig w), rosterSnapshot w, w.(w_now))) in
  let '(contextId, channelConfig, roster, ts) := context in
  let* window := query (fun g => gad_getChannelReplayWindow g channelId mode sinceSeq beforeSeq limit) in
  let* views := remote (fun w => (w, hydrate_views w.(w_blobs) window)) in
  ret {| re_mode := mode;
         re_logEvents := map eventFromChannelView views;
         re_roster := roster;
         re_ts := ts;
         re_ready :=
           [("contextId", of_ostr contextId); ("channelConfig", channelConfig);
            ("totalCount", VNum window.(rw_totalCount)); ("envelopeCount", VNum window.(rw_totalCount));
            ("firstEnvelopeSeq", of_onum window.(rw_firstEnvelopeSeq));
            ("replayFromId", of_onum window.(rw_replayFromId)); ("replayToId", of_onum window.(rw_replayToId))]
           ++ match window.(rw_hasMoreBefore) with Some b => [("hasMoreBefore", VBool b)] | None => [] end |}).

Definition replayAfter (sinceId : Z) : prog ReplayEnvelope :=
  replay_window ReplayAfter (Some sinceId) None (Some REPLAY_AFTER_LIMIT).
Definition replayBefore (beforeSeq limit : Z) : prog ReplayEnvelope :=
  replay_window ReplayBefore None (Some beforeSeq) (Some limit).
Definition replayInitial (limit : Z) : prog ReplayEnvelope := replay_window ReplayInitial None None (Some limit).

(** A message to the subscriber's queue, and to its structured queue when it takes those. *)
Definition queue_both (subscriberId : string) (deliverToDo : bool) (message : RpcChannelMessage) : list Delivery :=
  Emit subscriberId message :: (if deliverToDo then [DoEnvelope subscriberId message] else []).

Definition queueReplayEnvelope (subscriberId : string) (envelope : ReplayEnvelope) (deliverToDo : bool) : prog unit :=
  send
    (flat_map (fun event => queue_both subscriberId deliverToDo (RpcLog Replay event None)) envelope.(re_logEvents)
     ++ queue_both subscriberId deliverToDo (RpcRoster envelope.(re_roster) envelope.(re_ts))
     ++ queue_both subscriberId deliverToDo (RpcReady envelope.(re_ready))).

(** * Joining and leaving *)

(** The row of a participant, unless its id or its handle is taken. *)
Definition insert_participant (row : ParticipantRow) w : World * res unit :=
  if existsb (fun p => p.(pa_id) =s? row.(pa_id)) w.(w_participants)
  then (w, Throw "UNIQUE constraint failed: participants.id")
  else if isSome row.(pa_handle) && existsb (fun p => bool_decide (p.(pa_handle) = row.(pa_handle))) w.(w_participants)
  then (w, Throw ("Participant handle " ^^ DQ ^^ default "" row.(pa_handle) ^^ DQ ^^ " is already in use by another participant "
                  ^^ "(unknown) in this channel. Handles must be unique."))
  else (set_participants (w.(w_participants) ++ [row]) w, Ok tt).

Definition handle_conflict (handle participantId : string) w : option ParticipantRow :=
  List.find (fun p => bool_decide (p.(pa_handle) = Some handle) && (p.(pa_id) <>s? participantId)) w.(w_participants).

(** The checks of [subscribe] before anything changes. *)
Definition check_subscriber (caller : option Caller) (participantId : string) (metadata : val) : res unit :=
  if negb (isAuthorizedParticipantCaller caller participantId)
  then Throw ("Participant " ^^ participantId ^^ " cannot be subscribed by caller " ^^ caller_id caller)
  else
    match invalid_method metadata.!"methods" with
    | Some name =>
        Throw ("Invalid method name " ^^ DQ ^^ name ^^ DQ ^^ " advertised by participant " ^^ DQ ^^ participantId ^^ DQ ^^ ". "
               ^^ "Method names must match /^[a-zA-Z][a-zA-Z0-9_-]{0,63}$/ and "
               ^^ "not collide with built-in tool names (read, edit, write, grep, find, ls).")
    | None =>
        match invalid_field metadata with
        | Some path => Throw ("subscribe: invalid participant metadata at " ^^ path)
        | None => Ok tt
        end
    end.

Record SubscribeResult := mkSubscribed {
  sr_channelConfig : option val;
  sr_envelope : ReplayEnvelope
}.

(** [resolved] is the answer of the server to [workers.resolveDurableObject]. *)
Definition subscribe (caller : option Caller) (participantId : string) (metadata : val) (resolved : res unit)
    : prog SubscribeResult := async (
  let doRef := parseDOParticipantId participantId in
  let* _ := Done (check_subscriber caller participantId metadata) in
  let participantSessionId := as_str metadata.!PARTICIPANT_SESSION_METADATA_KEY in
  (match metadata.!"contextId" with
   | VStr contextId => if contextId =s? "" then ret tt else initChannel contextId metadata.!"channelConfig"
   | _ => ret tt
   end) ;;
  let handle := as_str metadata.!"handle" in
  let* conflict := get (fun w => match truthy_opt handle with Some h => handle_conflict h participantId w | None => None end) in
  (match conflict with
   | Some other =>
       raise ("Participant handle " ^^ DQ ^^ default "" handle ^^ DQ ^^ " is already in use by another participant "
              ^^ "(" ^^ other.(pa_id) ^^ ") in this channel. Handles must be unique.")
   | None => ret tt
   end) ;;
  (if isSome doRef && match caller with Some c => c.(ca_callerId) <>s? "" | None => false end
   then remote (fun w => (w, resolved)) else ret tt) ;;
  let* existing := get (fun w => participant_row w participantId) in
  let* sessionReplaced :=
    match existing with
    | None => ret false
    | Some row =>
        let sessionReplaced :=
          negb (isSome row.(pa_sessionId) && isSome participantSessionId
                && bool_decide (row.(pa_sessionId) = participantSessionId)) in
        let* oldMetadata := get (fun w => getSenderMetadata w participantId ?? VObj []) in
        publishPresenceEvent participantId PresenceLeave oldMetadata
          (Some (if sessionReplaced then LeaveReplaced else LeaveGraceful)) ;;
        modify (remove_participant participantId) ;;
        ret sessionReplaced
    end in
  let wantsReplay := negb (is_false metadata.!"replay") in
  let stored := stored_metadata metadata in
  act_res (fun w =>
    insert_participant
      {| pa_id := participantId; pa_metadata := default "" (json_stringify stored);
         pa_transport := if isSome doRef then TransportDo else TransportRpc; pa_connectedAt := w.(w_now);
         pa_sessionId := participantSessionId; pa_handle := handle; pa_do := doRef |} w) ;;
  publishPresenceEvent participantId PresenceJoin stored None ;;
  let* envelope :=
    match metadata.!"sinceId" with
    | VNum sinceId =>
        if wantsReplay && (0 <? sinceId) then replayAfter sinceId
        else replayInitial (if wantsReplay then default REPLAY_LIMIT (as_num metadata.!"replayMessageLimit") else 0)
    | _ => replayInitial (if wantsReplay then default REPLAY_LIMIT (as_num metadata.!"replayMessageLimit") else 0)
    end in
  queueReplayEnvelope participantId envelope (isSome doRef && is_true metadata.!"receivesChannelEnvelopes") ;;
  let* isAgentVessel := get (fun w => participantIsAgentVessel (getSenderMetadata w participantId)) in
  (if sessionReplaced && negb isAgentVessel then redeliverPendingCallsTo channelId participantId else ret tt) ;;
  (if negb isAgentVessel then scheduleNextAlarm else ret tt) ;;
  let* config := get getChannelConfig in
  ret (mkSubscribed config envelope)).

Definition unsubscribeParticipant (participantId : string) (leaveReason : LeaveReason) : prog unit := async (
  let* metadata := get (fun w => getSenderMetadata w participantId ?? VObj []) in
  modify (remove_participant participantId) ;;
  failPendingCallsTargeting channelId participantId leaveReason ;;
  publishPresenceEvent participantId PresenceLeave metadata (Some leaveReason) ;;
  scheduleNextAlarm).

Definition unsubscribe (caller : option Caller) (participantId : string) : prog unit :=
  let* _ := Done (assertParticipantCaller caller participantId "unsubscribe") in
  unsubscribeParticipant participantId LeaveGraceful.

Definition adminUnsubscribeParticipant (caller : option Caller) (participantId : string) : prog unit :=
  let* _ := Done (assertAdminCaller caller "adminUnsubscribeParticipant") in
  unsubscribeParticipant participantId LeaveGraceful.

Definition map_participant (pid : string) (f : ParticipantRow -> ParticipantRow) w : World :=
  set_participants (map (fun p => if p.(pa_id) =s? pid then f p else p) w.(w_participants)) w.

Definition with_metadata (metadata : string) (p : ParticipantRow) : ParticipantRow :=
  mkParticipantRow p.(pa_id) metadata p.(pa_transport) p.(pa_connectedAt) p.(pa_sessionId) p.(pa_handle) p.(pa_do).

Definition with_connectedAt (at_ : Z) (p : ParticipantRow) : ParticipantRow :=
  mkParticipantRow p.(pa_id) p.(pa_metadata) p.(pa_transport) at_ p.(pa_sessionId) p.(pa_handle) p.(pa_do).

Definition touch (participantId : string) : prog unit :=
  modify (fun w => map_participant participantId (with_connectedAt w.(w_now)) w).

Definition updateParticipantMetadata (participantId : string) (metadata : val) : prog unit := async (
  modify (map_participant participantId (with_metadata (default "" (json_stringify metadata)))) ;;
  publishPresenceEvent participantId PresenceUpdate metadata None).

Definition updateMetadata (caller : option Caller) (participantId : string) (metadata : val) : prog unit :=
  let* _ := Done (assertParticipantCaller caller participantId "updateMetadata") in
  updateParticipantMetadata participantId metadata.

Definition adminUpdateParticipantMetadata (caller : option Caller) (participantId : string) (metadata : val) : prog unit :=
  let* _ := Done (assertAdminCaller caller "adminUpdateParticipantMetadata") in
  updateParticipantMetadata participantId metadata.

Definition setParticipantTypingState (participantId : string) (typing : bool) : prog unit :=
  let* row := get (fun w => participant_row w participantId) in
  match row with
  | None => ret tt
  | Some row =>
      let* metadata := Done (json_parse row.(pa_metadata)) in
      let final := with_field "typing" (VBool typing) metadata in
      modify (map_participant participantId (with_metadata (default "" (json_stringify final)))) ;;
      broadcastPresenceSignal participantId final
  end.

Definition setTypingState (caller : option Caller) (participantId : string) (typing : bool) : prog unit :=
  let* _ := Done (assertParticipantCaller caller participantId "setTypingState") in
  setParticipantTypingState participantId typing.

Definition adminSetParticipantTypingState (caller : option Caller) (participantId : string) (typing : bool) : prog unit :=
  let* _ := Done (assertAdminCaller caller "adminSetParticipantTypingState") in
  setParticipantTypingState participantId typing.

(** * Publishing *)

Definition dedup_row w (key : string) : option DedupRow := List.find (fun r => r.(dk_key) =s? key) w.(w_dedup).

(** [DELETE FROM dedup_keys WHERE key = ? AND result_id IS NULL]. *)
Definition release_key (key : string) w : World :=
  set_dedup (List.filter (fun r => negb ((r.(dk_key) =s? key) && negb (isSome r.(dk_resultId)))) w.(w_dedup)) w.

(** [INSERT OR IGNORE]. *)
Definition reserve_key (key : string) w : World :=
  if isSome (dedup_row w key) then w else set_dedup (w.(w_dedup) ++ [mkDedupRow key None w.(w_now)]) w.

Definition store_result (key : string) (id : Z) w : World :=
  set_dedup (map (fun r => if r.(dk_key) =s? key then mkDedupRow key (Some id) w.(w_now) else r) w.(w_dedup)) w.

Definition open_publish (key : string) : prog (string * nat) :=
  act (fun w =>
    let promise := (key, w.(w_nextPromise)) in
    (set_nextPromise (S promise.2)
       (set_publishInFlight (dict_set key promise w.(w_publishInFlight)) (reserve_key key w)), promise)).

Definition close_publish (key : string) (promise : string * nat) (r : res ChannelEvent) : prog unit :=
  modify (fun w =>
    let outcome := match r with Ok event => Ok (Some event) | Throw e => Throw e end in
    let w := set_promises (w.(w_promises) ++ [(promise, outcome)]) w in
    if bool_decide (dict_get key w.(w_publishInFlight) = Some promise)
    then set_publishInFlight (dict_del key w.(w_publishInFlight)) w else w).

Definition runDedupedPublish (idempotencyKey : option string) (append : prog ChannelEvent) : prog ChannelEvent := async (
  match truthy_opt idempotencyKey with
  | None => append
  | Some key =>
      let* promise := open_publish key in
      bindr append (fun r =>
        match r with
        | Ok event =>
            modify (store_result key event.(ce_id)) ;;
            scheduleNextAlarm ;;
            close_publish key promise r ;;
            ret event
        | Throw e =>
            modify (release_key key) ;;
            close_publish key promise r ;;
            raise e
        end)
  end).

(** The event of a publish that is under way. *)
Definition await_publish (promise : string * nat) : prog ChannelEvent :=
  Until (fun w => resolved w promise)
    (act_res (fun w =>
       (w, match List.find (fun p => bool_decide (p.1 = promise)) w.(w_promises) with
           | Some (_, Ok (Some event)) => Ok event
           | Some (_, Throw e) => Throw e
           | _ => Throw ""
           end))).

Record PublishOptions := mkPublishOptions {
  po_ref : option Z;
  po_senderMetadata : val;
  po_attachments : val;
  po_idempotencyKey : option string
}.

Definition publish_new (participantId type : string) (payload : val) (opts : PublishOptions) : prog Z :=
  let key := truthy_opt opts.(po_idempotencyKey) in
  let* senderMetadata := get (fun w => getSenderMetadata w participantId ?? opts.(po_senderMetadata)) in
  let* event :=
    runDedupedPublish key
      (appendDurable channelId
         (mkDurable type payload participantId senderMetadata (option_map (fun k => "ik:" ^^ k) key)
            (option_map (fun _ => "idempotent-by-id") key) opts.(po_attachments))) in
  broadcastLive event opts.(po_ref) ;;
  ret event.(ce_id).

Definition publish (caller : option Caller) (participantId type : string) (payload : val) (opts : PublishOptions)
    : prog Z :=
  let* _ := Done (assertParticipantCaller caller participantId "publish") in
  match truthy_opt opts.(po_idempotencyKey) with
  | None => publish_new participantId type payload opts
  | Some key =>
      let* existing := get (fun w => dedup_row w key) in
      match existing ≫= dk_resultId with
      | Some id => ret id
      | None =>
          let* inFlight := get (fun w => dict_get key w.(w_publishInFlight)) in
          match inFlight with
          | Some promise => let* event := await_publish promise in ret event.(ce_id)
          | None =>
              (if isSome existing then modify (release_key key) else ret tt) ;;
              publish_new participantId type payload opts
          end
      end
  end.

(** Envelopes others appended to the log; how many there were. *)
Fixpoint broadcastStoredEnvelopes (envelopeIds : list string) : prog nat :=
  match envelopeIds with
  | [] => ret 0%nat
  | envelopeId :: rest =>
      if envelopeId =s? "" then broadcastStoredEnvelopes rest
      else
        let* event := getEventByEnvelopeId channelId envelopeId in
        match event with
        | None => broadcastStoredEnvelopes rest
        | Some event =>
            let* view := Done (policyViewFromChannelEvent event) in
            foldAppended view ;;
            broadcastLive event None ;;
            let* broadcasted := broadcastStoredEnvelopes rest in
            ret (S broadcasted)
        end
  end.

Definition error (caller : option Caller) (participantId messageId errorMessage : string) (code : option string)
    : prog unit :=
  let* _ := Done (assertParticipantCaller caller participantId "error") in
  let* senderMetadata := get (fun w => getSenderMetadata w participantId) in
  let payload := VObj ([("id", VStr messageId); ("error", VStr errorMessage)] ++ opt_field "code" (of_ostr code)) in
  let* event := appendDurable channelId (mkDurable "error" payload participantId senderMetadata None None VUndef) in
  broadcastLive event None.

Definition sendSignal (caller : option Caller) (participantId content : string) (contentType : option string) : prog unit :=
  let* _ := Done (assertParticipantCaller caller participantId "sendSignal") in
  let* event := get (fun w =>
    buildChannelEvent 0 ("sig_" ^^ w.(w_uuid)) "signal"
      (json_stringify (VObj ([("content", VStr content)] ++ opt_field "contentType" (of_ostr contentType))))
      participantId (getSenderMetadata w participantId) (Some w.(w_now)) VUndef []) in
  broadcast event (BroadcastSignal None).

Definition updateConfig (config : val) : prog val :=
  let* newConfig := act (fun w =>
    let newConfig := VObj (dict_merge (fields (default VUndef (getChannelConfig w))) (fields config)) in
    (set_config (json_stringify newConfig) w, newConfig)) in
  invalidatePolicySelection ;;
  let* event := appendDurable channelId (mkDurable "config-update" newConfig "system" VUndef None None VUndef) in
  broadcastLive event None ;;
  ret newConfig.

(** * Method calls *)

Definition submitMethodResult (caller : option Caller) (participantId transportCallId : string) (content : val)
    (isError : bool) (invocationId turnId : option string) (opts : SettleOptions) : prog (option Z) :=
  let* _ := Done (assertParticipantCaller caller participantId "submitMethodResult") in
  let* resolution := resolveSubmitterForCall channelId participantId transportCallId "submitMethodResult" in
  match resolution with
  | CallTerminal eventId => ret (Some eventId)
  | CallMissing =>
      settleMissingCall channelId participantId transportCallId content isError (truthy_opt invocationId)
        (truthy_opt turnId) opts
  | CallPending _ => settleCall channelId transportCallId content isError opts
  end.

Definition submitMethodProgress (caller : option Caller) (participantId transportCallId : string)
    (content attachments : val) : prog unit :=
  let* _ := Done (assertParticipantCaller caller participantId "submitMethodProgress") in
  let* resolution := resolveSubmitterForCall channelId participantId transportCallId "submitMethodProgress" in
  match resolution with
  | CallPending _ => append_progress channelId transportCallId content attachments
  | _ => ret tt
  end.

Definition cancelMethodCall (callId : string) : prog unit := cancel_call channelId callId "cancelled" ;; ret tt.

(** Tells the target of a call that it was given up; never throws. *)
Definition publishMethodCallFeedback (targetId transportCallId method message : string) : prog unit :=
  bindr
    (let* event := get (fun w =>
       VObj [("kind", VStr "ui.feedback"); ("actor", VObj [("kind", VStr "system"); ("id", VStr "channel")]);
             ("payload",
               VObj [protocol_field; ("target", participantRef w targetId); ("category", VStr "method_call_failed");
                     ("refs", VObj [("callId", VStr transportCallId)]);
                     ("error", VObj [("message", VStr (method ^^ ": " ^^ message))]);
                     ("occurrenceKey", VStr ("method_call_failed:" ^^ transportCallId))]);
             ("createdAt", VStr (nowIso w))]) in
     let* logged :=
       appendDurable channelId (mkDurable AGENTIC_EVENT_PAYLOAD_KIND event "system" VUndef None None VUndef) in
     broadcastLive logged None)
    (fun _ => ret tt).

Definition feedback_for (pending : PendingCallRow) (message : string) : prog unit :=
  publishMethodCallFeedback pending.(pr_targetId) pending.(pr_transportCallId) pending.(pr_method) message.

Definition timeoutMethodCall (callId : string) (reason : option string) : prog unit :=
  let* pending := cancel_call channelId callId (default "timed out" reason) in
  match pending with
  | None => ret tt
  | Some pending => feedback_for pending (default "method call deadline expired" reason)
  end.

(** * The alarm *)

Definition stale_participants w : list ParticipantRow :=
  List.filter (fun p => is_rpc p && (p.(pa_connectedAt) <? w.(w_now) - PARTICIPANT_STALE_MS)) w.(w_participants).

Definition evictStaleParticipants : prog unit := async (
  let* stale := get stale_participants in
  for_each
    (fun p =>
       let metadata := default (VObj []) (parse_metadata p.(pa_metadata)) in
       modify (remove_participant p.(pa_id)) ;;
       failPendingCallsTargeting channelId p.(pa_id) LeaveDisconnect ;;
       publishPresenceEvent p.(pa_id) PresenceLeave metadata (Some LeaveDisconnect))
    stale ;;
  match stale with [] => ret tt | _ => scheduleNextAlarm end).

Definition redeliverStalePendingCalls : prog unit :=
  let* targets := get (fun w =>
    List.filter
      (fun pid => match participantTransport w pid with Some TransportRpc => true | _ => false end)
      (remove_dups (map cr_targetId (List.filter (fun row => row.(cr_createdAt) <? w.(w_now) - 10000) w.(w_calls))))) in
  for_each (redeliverPendingCallsTo channelId) targets.

Definition redelivery_sweep : prog unit :=
  let* pendingCount := get (fun w => length w.(w_calls)) in
  if (0 <? pendingCount)%nat then redeliverStalePendingCalls ;; modify (fun w => set_sweptAt w.(w_now) w)
  else modify (set_sweptAt 0).

Definition alarm : prog unit :=
  modify (set_alarm None) ;;
  evictStaleParticipants ;;
  modify (fun w =>
    set_dedup (List.filter (fun r => negb (r.(dk_createdAt) <? w.(w_now) - DEDUP_TTL_MS)) w.(w_dedup)) w) ;;
  timeoutExpiredPendingCalls channelId feedback_for ;;
  bindr (reconcilePendingCalls channelId false) (fun _ => ret tt) ;;
  bindr redelivery_sweep (fun _ => ret tt) ;;
  scheduleNextAlarm.

(** * Forking *)

(** The channel has the parent's storage; [forkPointId] is where its log is cut. *)
Definition postClone (parentChannelId : string) (forkPointId : Z) (newContextId : option string) : prog unit :=
  modify (fun w =>
    let k := w.(w_keys) in
    set_keys (mkKeys channelId match newContextId with Some c => Some c | None => k.(kv_contextId) end k.(kv_createdAt)
                k.(kv_config) k.(kv_reconciledThrough) k.(kv_sweptAt) k.(kv_policyState) (Some parentChannelId)
                (Some forkPointId)) w) ;;
  forkFrom channelId parentChannelId (Some forkPointId) ;;
  modify (fun w => set_dedup [] (set_calls [] (set_participants [] w))) ;;
  rebuildAfterFork channelId ;;
  reconcilePendingCalls channelId true ;;
  ret tt.

(** * A crash *)

(** What memory held is gone: functions under way, deliveries under way, promises. *)
Definition crash w : World :=
  mkWorld w.(w_store) w.(w_blobs) w.(w_now) w.(w_uuid) w.(w_storeNow) w.(w_participants) w.(w_calls) w.(w_dedup)
    w.(w_keys) w.(w_alarm) None [] [] [] 0%nat [] w.(w_sent).
End ChannelDo.
