(* ===== verification/ChannelLaws.v ===== *)
(** What the channel asks of its stores, and its functions one at a time among others:
    the relation the world moves in, the invariant of every channel, and for each function
    what holds of its answer whatever runs at its awaits. *)
From stdpp Require Import gmap relations.
From S2P Require Import Prelude Dict JsValue JsText JsJson AgentEffects JsAsync.
From S2P Require Import GadCanon GadRefs GadLog GadLogLaws GadTables GadReplay GadWindow GadStored ChannelState ChannelPolicy ChannelCalls ChannelDo.
#[local] Open Scope Z_scope.

(** * The log of a channel *)

Definition read_asked (afterSeq : Z) (payloadKind : option string) (e : GadEnvelope) : bool :=
  (afterSeq <? e.(ge_seq))
  && match payloadKind with Some kind => (kind =s? "") || (e.(ge_event).(ev_payloadKind) =s? kind) | None => true end.

(** The gad store as channels see it: the log of a channel is a list of envelopes with
    distinct ids, numbered from one; an append adds one or finds the one that has its id;
    reads cut the list. *)
Class ChannelStoreLaws (G : Type) `{!ChannelStore G} := {
  cs_ok : G -> Prop;
  cs_log : G -> string -> list GadEnvelope -> Prop;
  cs_channel : string -> Prop;
  cs_total g c : cs_ok g -> exists L, cs_log g c L;
  cs_fun g c L L' : cs_log g c L -> cs_log g c L' -> L = L';
  cs_numbered g c L i e : cs_ok g -> cs_log g c L -> L !! i = Some e -> e.(ge_seq) = Z.of_nat i + 1;
  cs_ids g c L : cs_ok g -> cs_log g c L -> NoDup (eids L);
  cs_append g c L call uuid now g' e :
    cs_ok g -> cs_channel c -> cs_log g c L -> gad_appendLogEvent g c call uuid now = Ok (g', e) ->
    cs_ok g' /\ e.(ge_event).(ev_envelopeId) = default uuid call.(al_envelopeId) /\
    ((In e L /\ cs_log g' c L) \/
     (~ In (default uuid call.(al_envelopeId)) (eids L) /\ cs_log g' c (L ++ [e]) /\
      e.(ge_event).(ev_payloadKind) = call.(al_payloadKind) /\ e.(ge_event).(ev_appendedAt) = now));
  cs_event g c L id : cs_ok g -> cs_log g c L -> gad_getLogEvent g c id = Ok (with_id id L);
  cs_head g c L : cs_ok g -> cs_log g c L -> default 0 (gad_headSeq g c) = Z.of_nat (length L);
  cs_read g c L afterSeq limit kind :
    cs_ok g -> cs_log g c L -> 0 < limit ->
    gad_readLog g c afterSeq limit kind = Ok (take (Z.to_nat limit) (List.filter (read_asked afterSeq kind) L));
  cs_window g c L mode since before limit window :
    cs_ok g -> cs_log g c L -> gad_getChannelReplayWindow g c mode since before limit = Ok window ->
    window.(rw_envelopes) = map (channelEnvelopeView c) (window_part L mode since before (clamp limit));
  cs_fork g from to atSeq now g' : cs_ok g -> cs_channel to -> 0 <= atSeq -> gad_forkLog g from to (Some atSeq) now = Ok g' -> cs_ok g'
}.

(** One statement of a program. *)
Ltac w_seq := eapply wp_seq; [typeclasses eauto|assumption| |].

(** * What is known of the log *)

Section Laws.
Context {G B : Type} `{!ChannelStore G, !ChannelStoreLaws G, !TextBlobs B}.
Context (channelId : string).
Abbreviation World := (World G B).
Abbreviation prog := (prog World).
Implicit Types (w : World) (e : GadEnvelope) (L : list GadEnvelope).

Definition channel_log w L : Prop := cs_log w.(w_store) channelId L.

(** Every append adds to the end. *)
Definition extends w w' : Prop := forall L, channel_log w L -> exists more, channel_log w' (L ++ more).

(** The envelope with this id has this number. *)
Definition at_seq w (id : string) (n : Z) : Prop :=
  exists L e, channel_log w L /\ with_id id L = Some e /\ e.(ge_seq) = n.

(** The event is the one a reader is shown for an envelope of the log. *)
Definition durable w (event : ChannelEvent) : Prop :=
  exists L e b e', channel_log w L /\ In e L /\ hydrateEnvelope b e = Ok e' /\ event = @eventFromLogEnvelope e'.

(** An envelope of the log has the event's number and id. *)
Definition shows w (event : ChannelEvent) : Prop :=
  exists L e, channel_log w L /\ In e L /\ event.(ce_id) = e.(ge_seq) /\
    event.(ce_messageId) = (let id := e.(ge_event).(ev_envelopeId) in if id =s? "" then pretty e.(ge_seq) else id).

#[export] Instance extends_preorder : PreOrder extends.
Proof.
  split.
  - intros w L HL. exists []. by rewrite app_nil_r.
  - intros w1 w2 w3 H1 H2 L HL. destruct (H1 L HL) as (l1 & HL1). destruct (H2 _ HL1) as (l2 & HL2).
    exists (l1 ++ l2). by rewrite app_assoc.
Qed.

Lemma extends_store w w' : w.(w_store) = w'.(w_store) -> extends w w'.
Proof. intros E L HL. exists []. rewrite app_nil_r. unfold channel_log. by rewrite <- E. Qed.

Lemma with_id_app id L more e : with_id id L = Some e -> with_id id (L ++ more) = Some e.
Proof. unfold with_id. intros H. by rewrite find_app, H. Qed.

Lemma at_seq_extends w w' id n : extends w w' -> at_seq w id n -> at_seq w' id n.
Proof. intros H (L & e & HL & Hi & E). destruct (H L HL) as (more & HL'). exists (L ++ more), e. by rewrite (with_id_app id L more e). Qed.

Lemma at_seq_fun w id n n' : at_seq w id n -> at_seq w id n' -> n = n'.
Proof.
  intros (L & e & HL & Hi & <-) (L' & e' & HL' & Hi' & <-). rewrite (cs_fun _ _ _ _ HL HL') in Hi. congruence.
Qed.

Lemma durable_extends w w' event : extends w w' -> durable w event -> durable w' event.
Proof.
  intros H (L & e & b & e' & HL & Hi & Hh & E). destruct (H L HL) as (more & HL').
  exists (L ++ more), e, b, e'. rewrite in_app_iff. auto.
Qed.

Lemma shows_extends w w' event : extends w w' -> shows w event -> shows w' event.
Proof.
  intros H (L & e & HL & Hi & E). destruct (H L HL) as (more & HL'). exists (L ++ more), e. rewrite in_app_iff. auto.
Qed.

Lemma hydrate_fields b e e' : hydrateEnvelope b e = Ok e' ->
  e'.(ge_seq) = e.(ge_seq) /\ e'.(ge_event).(ev_envelopeId) = e.(ge_event).(ev_envelopeId) /\
  e'.(ge_event).(ev_payloadKind) = e.(ge_event).(ev_payloadKind) /\
  e'.(ge_event).(ev_appendedAt) = e.(ge_event).(ev_appendedAt).
Proof.
  unfold hydrateEnvelope. intros (actor & _ & H)%res_bind_Ok. apply res_bind_Ok in H as (to & _ & H).
  apply res_bind_Ok in H as (payload & _ & H). apply res_bind_Ok in H as (annotations & _ & H).
  apply res_bind_Ok in H as (causality & _ & H). by injection H as <-.
Qed.

Lemma durable_shows w event : durable w event -> shows w event.
Proof.
  intros (L & e & b & e' & HL & Hi & Hh & ->). exists L, e. destruct (hydrate_fields _ _ _ Hh) as (E1 & E2 & _).
  unfold eventFromLogEnvelope, buildChannelEvent. cbn [ce_id ce_messageId]. by rewrite E1, E2.
Qed.

Lemma at_seq_In w L e : cs_ok w.(w_store) -> channel_log w L -> In e L -> at_seq w e.(ge_event).(ev_envelopeId) e.(ge_seq).
Proof.
  intros Hok HL Hi. exists L, e. split; [done|]. split; [|done]. apply with_id_In; [|done..]. by apply (cs_ids w.(w_store) channelId).
Qed.

(** * The invariant *)

Definition fold_upto (policy : ChannelPolicy) L (k : Z) : ConversationStateV1 :=
  fold_left (fun s e => policy.(cp_reduce) s (policyViewFromLogEnvelope e)) (take (Z.to_nat k) L) policy.(cp_init).

(** The policy sees in the envelope what it sees in any event that shows it: nothing it
    looks at is stored by reference. *)
Definition readable (policy : ChannelPolicy) e : Prop :=
  forall b e' view, hydrateEnvelope b e = Ok e' -> policyViewFromChannelEvent (@eventFromLogEnvelope e') = Ok view ->
    forall s, policy.(cp_reduce) s view = policy.(cp_reduce) s (policyViewFromLogEnvelope e).

(** The state is the fold of the log up to this number. *)
Definition folded (policy : ChannelPolicy) w (state : ConversationStateV1) (k : Z) : Prop :=
  forall L, channel_log w L ->
    0 <= k <= Z.of_nat (length L) /\ (Forall (readable policy) L -> state = fold_upto policy L k).

Definition cache_ok w (name : string) (cache : PolicyStateCache) : Prop :=
  forall policy, getChannelPolicy name = Ok policy -> cache.(pc_policyVersion) = policy.(cp_version) ->
    folded policy w cache.(pc_state) cache.(pc_foldedThroughSeq).

Definition message_of (d : Delivery) : RpcChannelMessage := match d with Emit _ m | DoEnvelope _ m => m end.

Definition sent_ok w (d : Delivery) : Prop :=
  match message_of d with RpcLog _ event _ => shows w event | _ => True end.

Definition promise_ok w (p : string * nat * res (option ChannelEvent)) : Prop :=
  match p.2 with Ok (Some event) => at_seq w ("ik:" ^^ p.1.1) event.(ce_id) | _ => True end.

Definition dedup_ok w (row : DedupRow) : Prop :=
  match row.(dk_resultId) with Some id => at_seq w ("ik:" ^^ row.(dk_key)) id | None => True end.

(** No two participants with one id or one handle. *)
Definition roster_ok (participants : list ParticipantRow) : Prop :=
  NoDup (map pa_id participants) /\ NoDup (omap pa_handle participants).

(** What holds of a channel whenever its code is at an await. *)
Record inv w : Prop := {
  inv_store : cs_ok w.(w_store);
  inv_sent : forall d, In d w.(w_sent) -> sent_ok w d;
  inv_promises : forall p, In p w.(w_promises) -> promise_ok w p;
  inv_dedup : forall row, In row w.(w_dedup) -> dedup_ok w row;
  inv_caches : forall name cache, dict_get name w.(w_keys).(kv_policyState) = Some cache -> cache_ok w name cache;
  inv_publishing : forall key promise, dict_get key w.(w_publishInFlight) = Some promise -> promise.1 = key;
  inv_roster : roster_ok w.(w_participants)
}.

Lemma sent_extends w w' d : extends w w' -> sent_ok w d -> sent_ok w' d.
Proof. unfold sent_ok. intros H. destruct (message_of d); try done. by apply shows_extends. Qed.

Lemma promise_extends w w' p : extends w w' -> promise_ok w p -> promise_ok w' p.
Proof. unfold promise_ok. intros H. destruct p.2 as [[ev|]|]; try done. by apply at_seq_extends. Qed.

Lemma dedup_extends w w' row : extends w w' -> dedup_ok w row -> dedup_ok w' row.
Proof. unfold dedup_ok. intros H. destruct (dk_resultId row); try done. by apply at_seq_extends. Qed.

Lemma folded_extends policy w w' state k : cs_ok w.(w_store) -> extends w w' -> folded policy w state k -> folded policy w' state k.
Proof.
  intros Hok H Hf L' HL'. destruct (cs_total w.(w_store) channelId Hok) as (L & HL).
  destruct (H L HL) as (more & HL2). rewrite (cs_fun _ _ _ _ HL' HL2). destruct (Hf L HL) as [Hb E].
  rewrite length_app. split; [lia|]. intros [Hr _]%list.Forall_app. rewrite (E Hr). unfold fold_upto. by rewrite take_app_le by lia.
Qed.

Lemma cache_extends w w' name cache : cs_ok w.(w_store) -> extends w w' -> cache_ok w name cache -> cache_ok w' name cache.
Proof. intros Hok H Hc policy Hp Hv. eapply folded_extends; eauto. Qed.

Lemma inv_step w w' : inv w -> cs_ok w'.(w_store) -> extends w w' ->
  (forall d, In d w'.(w_sent) -> In d w.(w_sent) \/ sent_ok w' d) ->
  (forall p, In p w'.(w_promises) -> In p w.(w_promises) \/ promise_ok w' p) ->
  (forall row, In row w'.(w_dedup) -> In row w.(w_dedup) \/ dedup_ok w' row) ->
  (forall name cache, dict_get name w'.(w_keys).(kv_policyState) = Some cache ->
     dict_get name w.(w_keys).(kv_policyState) = Some cache \/ cache_ok w' name cache) ->
  (forall key promise, dict_get key w'.(w_publishInFlight) = Some promise ->
     dict_get key w.(w_publishInFlight) = Some promise \/ promise.1 = key) ->
  (w'.(w_participants) = w.(w_participants) \/ roster_ok w'.(w_participants)) -> inv w'.
Proof.
  intros [Hok Hs Hp Hd Hc Hf Hr] Hok' He Hs' Hp' Hd' Hc' Hf' Hr'. constructor; [done|..].
  - intros d Hi. destruct (Hs' d Hi); [apply (sent_extends w w'); auto|done].
  - intros p Hi. destruct (Hp' p Hi); [apply (promise_extends w w'); auto|done].
  - intros r Hi. destruct (Hd' r Hi); [apply (dedup_extends w w'); auto|done].
  - intros n c Hi. destruct (Hc' n c Hi); [apply (cache_extends w w'); auto|done].
  - intros k p Hi. destruct (Hf' k p Hi); [by apply Hf|done].
  - destruct Hr' as [->|]; done.
Qed.

(** * The moves of the world *)

(** A further relation every move keeps, which depends on the log and the rows only. *)
Class Keep (keep : World -> World -> Prop) : Prop := {
  keep_preorder :: PreOrder keep;
  keep_quiet w w' : w.(w_store) = w'.(w_store) -> w.(w_calls) = w'.(w_calls) -> keep w w'
}.

Class KeepLog (keep : World -> World -> Prop) : Prop := {
  keep_keep :: Keep keep;
  keep_log w w' : w.(w_calls) = w'.(w_calls) -> extends w w' -> keep w w'
}.

Definition moves (keep : World -> World -> Prop) w w' : Prop := extends w w' /\ keep w w'.

#[export] Instance moves_preorder keep `{!Keep keep} : PreOrder (moves keep).
Proof.
  split.
  - intros w. by split.
  - intros w1 w2 w3 [E1 K1] [E2 K2]. split; [by trans w2|by trans w2].
Qed.

(** A step that leaves the log, the rows and what was promised alone. *)
Lemma quiet_step keep `{!Keep keep} w w' : inv w -> w.(w_store) = w'.(w_store) -> w.(w_calls) = w'.(w_calls) ->
  (forall d, In d w'.(w_sent) -> In d w.(w_sent) \/ sent_ok w' d) ->
  (forall p, In p w'.(w_promises) -> In p w.(w_promises) \/ promise_ok w' p) ->
  (forall row, In row w'.(w_dedup) -> In row w.(w_dedup) \/ dedup_ok w' row) ->
  (forall name cache, dict_get name w'.(w_keys).(kv_policyState) = Some cache ->
     dict_get name w.(w_keys).(kv_policyState) = Some cache \/ cache_ok w' name cache) ->
  (forall key promise, dict_get key w'.(w_publishInFlight) = Some promise ->
     dict_get key w.(w_publishInFlight) = Some promise \/ promise.1 = key) ->
  (w'.(w_participants) = w.(w_participants) \/ roster_ok w'.(w_participants)) -> moves keep w w' /\ inv w'.
Proof.
  intros Hi E1 E2 Hs Hp Hd Hc Hf Hr. pose proof (extends_store w w' E1). split; [split; [done|by apply keep_quiet]|].
  eapply inv_step; eauto. rewrite <- E1. apply Hi.
Qed.

(** A crash forgets what nobody was told. *)
Lemma crash_moves keep `{!Keep keep} w : inv w -> moves keep w (crash w) /\ inv (crash w).
Proof. intros Hi. apply quiet_step; auto; [by intros p []|done]. Qed.

(** A step that changes rows as well. *)
Lemma calls_step keep `{!Keep keep} w calls : inv w -> keep w (set_calls calls w) -> moves keep w (set_calls calls w) /\ inv (set_calls calls w).
Proof.
  intros Hi Hk. assert (He : extends w (set_calls calls w)) by by apply extends_store. split; [done|].
  eapply inv_step; eauto. apply Hi.
Qed.

(** * Reads *)

Section Reads.
Context (keep : World -> World -> Prop) `{!Keep keep}.
Abbreviation ends p Q w := (wp (moves keep) inv p (okp Q) w).

Lemma at_seq_moves w w' id n : moves keep w w' -> at_seq w id n -> at_seq w' id n.
Proof. intros [H _]. by apply at_seq_extends. Qed.
Lemma durable_moves w w' event : moves keep w w' -> durable w event -> durable w' event.
Proof. intros [H _]. by apply durable_extends. Qed.
Lemma shows_moves w w' event : moves keep w w' -> shows w event -> shows w' event.
Proof. intros [H _]. by apply shows_extends. Qed.

(** A read of the log is of a log that every later one continues. *)
Lemma query_log A (f : G -> res A) (Q : A -> World -> Prop) w :
  (forall w1 a w2 L more, moves keep w w1 -> inv w1 -> channel_log w1 L -> f w1.(w_store) = Ok a -> moves keep w1 w2 ->
     inv w2 -> channel_log w2 (L ++ more) -> Q a w2) -> ends (query f) Q w.
Proof.
  intros H. unfold query. apply wp_query; [typeclasses eauto|]. intros w1 a w2 H1 Hi1 E [He Hk] Hi2.
  destruct (cs_total w1.(w_store) channelId (inv_store _ Hi1)) as (L & HL). destruct (He L HL) as (more & HL2). by eapply H.
Qed.

Lemma wp_hydrate e (Q : GadEnvelope -> World -> Prop) w :
  (forall b e' w', hydrateEnvelope b e = Ok e' -> moves keep w w' -> inv w' -> Q e' w') -> ends (hydrate e) Q w.
Proof.
  intros H. apply wp_query; [typeclasses eauto|]. intros w1 e' w2 H1 _ E H2 Hi2.
  eapply H; [done| |done]. by trans w1.
Qed.

Lemma wp_headSeq w : inv w ->
  ends (headSeq channelId) (fun n w' => exists L, channel_log w' L /\ n <= Z.of_nat (length L)) w.
Proof.
  intros Hi. apply wp_async_ok; [done| |].
  - intros n w1 w2 _ [He _] _ (L & HL & Hn). destruct (He L HL) as (more & HL2). exists (L ++ more). rewrite length_app. split; [done|lia].
  - apply query_log. intros w1 n w2 L more _ Hi1 HL E _ _ HL2. exists (L ++ more). split; [done|]. rewrite length_app.
    rewrite (cs_head _ _ _ (inv_store _ Hi1) HL) in E. injection E as <-. lia.
Qed.

Lemma wp_lookup id (Q : option GadEnvelope -> World -> Prop) w :
  (forall o w1 w' L, moves keep w w1 -> inv w1 -> channel_log w1 L -> moves keep w1 w' -> inv w' -> o = with_id id L -> Q o w') ->
  ends (query (fun g => gad_getLogEvent g channelId id)) Q w.
Proof.
  intros H. apply query_log. intros w1 o w2 L more H1 Hi1 HL E H2 Hi2 HL2.
  rewrite (cs_event _ _ _ _ (inv_store _ Hi1) HL) in E. injection E as <-. by apply (H _ w1 w2 L).
Qed.

(** What a look-up answers is in the log, and what was in the log is found. *)
Definition looked_up w0 (id : string) (o : option ChannelEvent) w : Prop :=
  match o with
  | Some event => durable w event /\ at_seq w id event.(ce_id)
  | None => forall n, ~ at_seq w0 id n
  end.

Lemma wp_getEvent id w : inv w -> ends (getEventByEnvelopeId channelId id) (looked_up w id) w.
Proof.
  intros Hi. apply wp_async_ok; [done| |].
  { intros [ev|] w1 w2 _ Hm _; cbn [looked_up]; [|done]. intros [H1 H2]. split; [exact (durable_moves _ _ _ Hm H1)|exact (at_seq_moves _ _ _ _ Hm H2)]. }
  w_seq.
  { apply (wp_lookup id (fun o w' => match o with
      | Some e => exists L, channel_log w' L /\ In e L /\ at_seq w' id e.(ge_seq)
      | None => forall n, ~ at_seq w id n end)).
    intros o w1 w' L H1 Hi1 HL H2 Hi2 ->. destruct (with_id id L) as [e|] eqn:Ew.
    - pose proof H2 as [He _]. destruct (He L HL) as (more & HL2). apply with_id_Some in Ew as Hin. destruct Hin as [Hin _].
      exists (L ++ more). rewrite in_app_iff. split; [done|]. split; [by left|]. eapply at_seq_moves; [exact H2|]. by exists L, e.
    - intros n Hn. apply (at_seq_moves _ w1) in Hn; [|done]. destruct Hn as (L' & e & HL' & Hw & _).
      rewrite (cs_fun _ _ _ _ HL' HL) in Hw. congruence. }
  intros o w' H1 Hi1 Ho. destruct o as [e|]; [|done]. destruct Ho as (L & HL & Hin & Hat).
  w_seq.
  { apply (wp_hydrate e (fun e' w2 => durable w2 (eventFromLogEnvelope e') /\ at_seq w2 id e'.(ge_seq))). intros b e' w2 Hh H2 Hi2.
    split; [eapply durable_moves; [exact H2|]; by exists L, e, b, e'|]. destruct (hydrate_fields _ _ _ Hh) as (-> & _).
    by eapply at_seq_moves. }
  intros e' w2 H2 Hi2 He'. exact He'.
Qed.

Lemma wp_hasEnvelope id w : inv w -> ends (hasEnvelope channelId id) (fun _ _ => True) w.
Proof.
  intros Hi. apply wp_async_ok; [done..|]. w_seq.
  { apply (wp_lookup id (fun _ _ => True)). done. }
  done.
Qed.

Lemma wp_terminalEvent id w : inv w -> ends (terminalEvent channelId id) (looked_up w (terminalId id)) w.
Proof. apply wp_getEvent. Qed.

(** * Steps in memory *)

Lemma wp_quiet f w : inv w -> (moves keep w (f w) /\ inv (f w)) -> ends (modify f) (fun _ _ => True) w.
Proof. intros Hi [H1 H2]. by apply wp_modify. Qed.

Ltac quiet := apply quiet_step; [typeclasses eauto|done|done|done|auto|auto|auto|auto|auto|auto].

Lemma wp_send ds w : inv w -> Forall (sent_ok w) ds -> ends (send ds) (fun _ _ => True) w.
Proof.
  intros Hi Hd. apply wp_quiet; [done|]. rewrite List.Forall_forall in Hd. quiet. intros d. cbn. rewrite in_app_iff.
  intros [H|H]; [by left|right]. exact (Hd d H).
Qed.

Lemma broadcast_to_ok event envelope p w :
  match envelope with BroadcastLog _ _ => shows w event | _ => True end -> Forall (sent_ok w) (broadcast_to event envelope p).
Proof. intros H. unfold broadcast_to. destruct envelope; repeat (case_match || constructor); try done. Qed.

Lemma wp_broadcast event envelope w : inv w -> match envelope with BroadcastLog _ _ => shows w event | _ => True end ->
  ends (broadcast event envelope) (fun _ _ => True) w.
Proof.
  intros Hi Hs. apply wp_quiet; [done|]. quiet. intros d. cbn. rewrite in_app_iff, in_flat_map. intros [H|(p & _ & H)]; [by left|right].
  pose proof (broadcast_to_ok event envelope p w Hs) as Hall. rewrite List.Forall_forall in Hall. exact (Hall d H).
Qed.

Lemma wp_broadcastLive event ref w : inv w -> durable w event -> ends (broadcastLive event ref) (fun _ _ => True) w.
Proof. intros Hi Hd. apply wp_broadcast; [done|]. by apply durable_shows. Qed.

Lemma wp_scheduleNextAlarm w : inv w -> ends scheduleNextAlarm (fun _ _ => True) w.
Proof. intros Hi. apply wp_quiet; [done|]. quiet. Qed.

Lemma wp_recordObservedHead n w : inv w -> ends (recordObservedHead n) (fun _ _ => True) w.
Proof. intros Hi. apply wp_quiet; [done|]. unfold observe_head. case_match; [quiet|by split]. Qed.
End Reads.
End Laws.

(** A step in memory. *)
Ltac quiet := apply quiet_step; [typeclasses eauto|done|done|done|auto|auto|auto|auto|auto|auto].

Arguments inv_store {_ _ _ _ _ channelId} w _.
Arguments inv_sent {_ _ _ _ _ channelId} w _ d _.
Arguments inv_promises {_ _ _ _ _ channelId} w _ p _.
Arguments inv_dedup {_ _ _ _ _ channelId} w _ row _.
Arguments inv_caches {_ _ _ _ _ channelId} w _ name cache _ _ _ _.
Arguments inv_publishing {_ _ _ _ _ channelId} w _ key promise _.
Arguments inv_roster {_ _ _ _ _ channelId} w _.
Arguments at_seq_moves {_ _ _ _ channelId} keep w w' id n _ _.
Arguments durable_moves {_ _ _ _ _ channelId} keep w w' event _ _.
Arguments shows_moves {_ _ _ _ channelId} keep w w' event _ _.
Arguments at_seq_fun {_ _ _ _ channelId} w id n n' _ _.
