(* ===== verification/ChannelAppends.v ===== *)
(** What the channel adds to its log, and the states it folds from it: every append
    answers with an event of the log, and every cached state is the fold of the log up to
    its number. What a replay shows of an event is what was shown when it came. *)
From stdpp Require Import gmap relations.
From S2P Require Import Prelude Dict JsValue JsText JsJson AgentEffects JsAsync.
From S2P Require Import GadCanon GadRefs GadLog GadLogLaws GadTables GadReplay GadWindow GadStored ChannelState ChannelPolicy ChannelCalls ChannelDo.
From S2P Require Import ChannelLaws.
From S2P Require Import GadRefsLaws.
#[local] Open Scope Z_scope.

Section Laws.
Context {G B : Type} `{!ChannelStore G, !ChannelStoreLaws G, !TextBlobs B}.
Context (channelId : string).
Abbreviation World := (World G B).
Abbreviation prog := (prog World).
Implicit Types (w : World) (e : GadEnvelope) (L : list GadEnvelope).
Abbreviation channel_log := (@channel_log G B _ _ channelId).
Abbreviation extends := (@extends G B _ _ channelId).
Abbreviation at_seq := (@at_seq G B _ _ channelId).
Abbreviation durable := (@durable G B _ _ _ channelId).
Abbreviation shows := (@shows G B _ _ channelId).
Abbreviation sent_ok := (@sent_ok G B _ _ channelId).
Abbreviation folded := (@folded G B _ _ _ channelId).
Abbreviation inv := (@inv G B _ _ _ channelId).
Abbreviation moves := (@moves G B _ _ channelId).
Abbreviation Keep := (@Keep G B).
Abbreviation KeepLog := (@KeepLog G B _ _ channelId).
Abbreviation looked_up := (@looked_up G B _ _ _ channelId).

(** * The policies *)

Definition known (policy : ChannelPolicy) : Prop := getChannelPolicy policy.(cp_name) = Ok policy.

Lemma getChannelPolicy_known name policy : getChannelPolicy name = Ok policy -> policy.(cp_name) = name /\ known policy.
Proof.
  unfold known, getChannelPolicy, CHANNEL_POLICIES. cbn [dict_get]. destruct (String.eqb_spec name (cp_name conversationV1Policy)) as [->|]; [|done].
  by intros [= <-].
Qed.

Lemma known_list names resolved : res_map getChannelPolicy names = Ok resolved -> Forall known resolved.
Proof.
  rewrite res_map_Ok. induction 1 as [|n p names ps Hp _ IH]; constructor; [|done]. by apply getChannelPolicy_known in Hp as [_ ?].
Qed.

Lemma resolve_known names resolved : resolveChannelPolicies names = Ok resolved -> Forall known resolved.
Proof.
  unfold resolveChannelPolicies. intros (l & Hl & H)%res_bind_Ok. destruct (_ <? _)%nat; [done|]. injection H as <-. by eapply known_list.
Qed.

(** The log at and after a number. *)
Lemma log_at w L e : cs_ok w.(w_store) -> channel_log w L -> In e L ->
  L !! Z.to_nat (e.(ge_seq) - 1) = Some e /\ 1 <= e.(ge_seq) <= Z.of_nat (length L).
Proof.
  intros Hok HL Hi. apply list_elem_of_In, list_elem_of_lookup_1 in Hi as (i & Hi).
  pose proof (cs_numbered _ _ _ _ _ Hok HL Hi) as E. apply lookup_lt_Some in Hi as Hlt. split; [|lia].
  by replace (Z.to_nat (ge_seq e - 1)) with i by lia.
Qed.

Lemma asked_after w L k : cs_ok w.(w_store) -> channel_log w L -> 0 <= k ->
  List.filter (read_asked k None) L = drop (Z.to_nat k) L.
Proof.
  intros Hok HL Hk. assert (Hn : forall i e, L !! i = Some e -> ge_seq e = Z.of_nat i + 1) by (intros; by eapply cs_numbered).
  clear HL Hok. assert (Hgen : forall l j, (forall i e, l !! i = Some e -> ge_seq e = Z.of_nat (i + j) + 1) ->
    List.filter (read_asked k None) l = drop (Z.to_nat k - j) l); [|by rewrite (Hgen L O), Nat.sub_0_r; [|intros; rewrite Nat.add_0_r; auto]].
  induction l as [|x l IH]; intros j Hj; [by rewrite drop_nil|]. simpl.
  pose proof (Hj O x eq_refl) as Ex. rewrite (IH (S j)) by (intros i e Hi; rewrite (Hj (S i) e Hi); lia).
  unfold read_asked. rewrite Ex, andb_true_r. destruct (Z.ltb_spec k (Z.of_nat (0 + j) + 1)).
  - replace (Z.to_nat k - j)%nat with O by lia. replace (Z.to_nat k - S j)%nat with O by lia. done.
  - replace (Z.to_nat k - j)%nat with (S (Z.to_nat k - S j)) by lia. done.
Qed.

Lemma fold_page_spec policy acc page :
  fold_page policy acc page
  = (fold_left (fun s e => policy.(cp_reduce) s (policyViewFromLogEnvelope e)) page acc.1,
     match list.last page with Some e => e.(ge_seq) | None => acc.2 end).
Proof.
  unfold fold_page. revert acc. induction page as [|e page IH]; intros acc; [by destruct acc|]. cbn [fold_left]. rewrite IH.
  destruct page as [|x page]; [done|]. rewrite last_cons_cons.
  f_equal. destruct (list.last (x :: page)) eqn:El; [done|]. by apply last_None in El.
Qed.

(** One more page folded. *)
Lemma folded_page policy w L state k n : cs_ok w.(w_store) -> channel_log w L -> folded policy w state k ->
  let page := take n (drop (Z.to_nat k) L) in
  let acc := fold_page policy (state, k) page in
  folded policy w acc.1 acc.2 /\ acc.2 = k + Z.of_nat (length page).
Proof.
  intros Hok HL Hf. cbn zeta. destruct (Hf L HL) as [Hb E]. rewrite fold_page_spec. cbn [fst snd].
  set (page := take n (drop (Z.to_nat k) L)).
  assert (Eseq : match list.last page with Some e => ge_seq e | None => k end = k + Z.of_nat (length page)).
  { destruct (list.last page) as [e|] eqn:El; [|apply last_None in El; rewrite El; simpl; lia].
    rewrite last_lookup in El. apply lookup_lt_Some in El as Hlt. pose proof El as El'. unfold page in El'.
    apply lookup_take_Some in El' as [El' _]. rewrite lookup_drop in El'. fold page in El'.
    rewrite (cs_numbered _ _ _ _ _ Hok HL El'). lia. }
  rewrite Eseq. split; [|done]. intros L' HL'. rewrite (cs_fun _ _ _ _ HL' HL).
  assert (Hlen : (length page <= length L - Z.to_nat k)%nat) by (unfold page; rewrite length_take, length_drop; lia).
  split; [lia|]. intros Hr. rewrite (E Hr). unfold fold_upto. rewrite <- fold_left_app. f_equal.
  replace (Z.to_nat (k + Z.of_nat (length page))) with (Z.to_nat k + length page)%nat by lia.
  assert (Ep : take (length page) (drop (Z.to_nat k) L) = page).
  { unfold page. by rewrite length_take, <- take_take, (take_ge _ (length _)) by lia. }
  rewrite <- Ep at 1. apply (take_take_drop L (Z.to_nat k) (length page)).
Qed.

Lemma folded_init policy w : folded policy w policy.(cp_init) 0.
Proof. intros L HL. split; [lia|]. done. Qed.

(** * Appends *)

Section Appends.
Context (keep : World -> World -> Prop) `{!KeepLog keep} (Hchannel : cs_channel channelId).
Abbreviation ends p Q w := (wp (moves keep) inv p (okp Q) w).

(** A step that writes to the stores only. *)
Lemma store_step w g : inv w -> cs_ok g -> (forall L, channel_log w L -> exists more, cs_log g channelId (L ++ more)) ->
  moves keep w (set_store g w) /\ inv (set_store g w).
Proof.
  intros Hi Hg He. assert (Hx : extends w (set_store g w)) by exact He. split; [split; [done|by eapply keep_log]|].
  by eapply inv_step; eauto.
Qed.

Lemma wp_encodePayload payload w : inv w -> ends (encodePayload payload) (fun _ _ => True) w.
Proof.
  intros Hi. apply wp_remote. intros w1 _ Hi1. destruct (encodeChannelPayloadStoredValues payload w1.(w_blobs)) as [[b v]|]; cbn [fst snd].
  - assert (H : moves keep w1 (set_blobs b w1) /\ inv (set_blobs b w1)) by quiet. destruct H as [H1 H2]. split; [exact H1|]. by split.
  - split; [reflexivity|]. by split.
Qed.

(** An envelope that is in the log, under the id that was asked for. *)
Definition logged (id : option string) e w : Prop :=
  (exists L, channel_log w L /\ In e L) /\ forall i, id = Some i -> at_seq w i e.(ge_seq).

Lemma wp_send_append call w : inv w -> ends (send_append channelId call) (logged call.(al_envelopeId)) w.
Proof.
  intros Hi. apply wp_remote. intros w1 _ Hi1. destruct (gad_appendLogEvent _ _ _ _ _) as [[g e]|] eqn:E; cbn [fst snd].
  2: { split; [reflexivity|]. by split. }
  destruct (cs_total w1.(w_store) channelId (inv_store _ Hi1)) as (L & HL).
  destruct (cs_append _ _ _ _ _ _ _ _ (inv_store _ Hi1) Hchannel HL E) as (Hg & Eid & Hcase).
  assert (HL' : exists more, cs_log g channelId (L ++ more) /\ In e (L ++ more)).
  { destruct Hcase as [[Hin HL']|(_ & HL' & _)].
    - exists []. by rewrite app_nil_r.
    - exists [e]. split; [done|]. apply in_app_iff. right. by left. }
  destruct HL' as (more & HL' & Hin). split; [|split].
  1, 2: apply store_step; [done|done|]; intros L' HL2; rewrite (cs_fun _ _ _ _ HL2 HL); eauto.
  intros w2 [He _] Hi2. destruct (He _ HL') as (more2 & HL2). assert (Hin2 : In e ((L ++ more) ++ more2)) by (apply in_app_iff; by left).
  split; [eauto|]. intros i Ei. rewrite Ei in Eid. simpl in Eid. rewrite <- Eid. by eapply at_seq_In; [apply Hi2|..].
Qed.

(** The event an append answers with. *)
Definition appended (id : option string) (event : ChannelEvent) w : Prop :=
  durable w event /\ forall i, id = Some i -> at_seq w i event.(ce_id).

Lemma appended_moves id event w w' : moves keep w w' -> appended id event w -> appended id event w'.
Proof. intros H [H1 H2]. split; [exact (durable_moves keep _ _ _ H H1)|]. intros i Ei. exact (at_seq_moves keep _ _ _ _ H (H2 i Ei)). Qed.

Lemma wp_append input w : inv w -> ends (append channelId input) (appended input.(ca_messageId)) w.
Proof.
  intros Hi. apply wp_async_ok; [done| |]; [intros ev w1 w2 _ Hm _; by apply appended_moves|].
  w_seq; [by apply wp_encodePayload|]. intros payload w1 _ Hi1 _. w_seq; [by apply wp_send_append|].
  intros e w2 _ Hi2 [(L & HL & Hin) Hat]. w_seq.
  { apply (wp_hydrate channelId keep e (fun e' w3 => appended input.(ca_messageId) (eventFromLogEnvelope e') w3)). intros b e' w3 Hh H3 Hi3. split.
    - eapply (durable_moves keep); [exact H3|]. by exists L, e, b, e'.
    - intros i Ei. eapply (at_seq_moves keep); [exact H3|]. cbn. destruct (hydrate_fields _ _ _ Hh) as (-> & _). by apply Hat. }
  intros e' w3 _ _ H3. exact H3.
Qed.

(** * The fold states *)

Lemma wp_policies w : inv w -> ends policies (fun ps _ => Forall known ps) w.
Proof.
  intros Hi. unfold policies, act_res. simpl. destruct (w_policies w) as [names|].
  - split; [reflexivity|]. split; [done|]. cbn. destruct (res_map getChannelPolicy names) eqn:E; [|done]. by eapply known_list.
  - destruct (resolveChannelPolicies (policyNames w)) as [ps|] eqn:E; cbn.
    + split; [|split]; [| |by eapply resolve_known]; apply (quiet_step channelId keep w (set_policies _ w)); auto.
    + split; [reflexivity|]. by split.
Qed.

Lemma folded_moves policy w w' state k : inv w -> moves keep w w' -> folded policy w state k -> folded policy w' state k.
Proof. intros Hi [He _]. apply folded_extends; [apply Hi|done]. Qed.

(** A fold state that is at least as far as the log was. *)
Definition caught_up policy w0 state k w : Prop :=
  folded policy w state k /\ forall L, channel_log w0 L -> Z.of_nat (length L) <= k.

Lemma wp_catch_up policy state k adv w : inv w -> folded policy w state k ->
  ends (while (catch_up_round channelId policy) (state, k, adv)) (fun r w' => caught_up policy w r.1.1 r.1.2 w') w.
Proof.
  intros Hi Hf. apply (wp_while _ _ _ _ _ (fun st w' => folded policy w' st.1.1 st.1.2)); [done|].
  intros [[state1 k1] adv1] w1 H1 Hi1 Hf1. cbn [fst snd] in Hf1. unfold catch_up_round. w_seq.
  { apply (query_log channelId keep _ _ (fun page w2 => exists L more, channel_log w2 (L ++ more) /\ (forall L0, channel_log w L0 -> (length L0 <= length L)%nat) /\
      page = take (Z.to_nat FOLD_PAGE_LIMIT) (drop (Z.to_nat k1) L) /\ folded policy w2 state1 k1 /\ k1 <= Z.of_nat (length L))).
    intros w2 page w3 L more H2 Hi2 HL E H3 Hi3 HL3. exists L, more. split; [done|]. split; [|split; [|split]].
    - intros L0 HL0. assert (H02 : moves keep w w2) by (by trans w1). destruct H02 as [He _]. destruct (He _ HL0) as (l & HL').
      rewrite (cs_fun _ _ _ _ HL HL'), length_app. lia.
    - rewrite (cs_read _ _ _ _ _ _ (inv_store _ Hi2) HL) in E by done. injection E as <-. f_equal. eapply asked_after; [apply Hi2|done|].
      destruct (cs_total w1.(w_store) channelId (inv_store _ Hi1)) as (L1 & HL1). by destruct (Hf1 L1 HL1) as [[? _] _].
    - eapply folded_moves; [exact Hi1| |done]. by trans w2.
    - apply (folded_moves policy w1 w2) in Hf1; [|done|done]. by destruct (Hf1 L HL) as [[_ ?] _]. }
  intros page w2 H2 Hi2 (L & more & HL & Hlen & Epage & Hf2 & Hk).
  assert (Hbound : 0 <= k1) by (by destruct (Hf2 _ HL) as [[? _] _]).
  assert (Edrop : page = take (length page) (drop (Z.to_nat k1) (L ++ more))).
  { rewrite Epage, drop_app_le by lia. rewrite length_take. rewrite take_app_le by lia. rewrite <- take_take. by rewrite (take_ge _ (length _)). }
  pose proof (folded_page policy w2 (L ++ more) state1 k1 (length page) (inv_store _ Hi2) HL Hf2) as Hstep. cbn zeta in Hstep. rewrite <- Edrop in Hstep.
  assert (Hshort : Z.of_nat (length page) < FOLD_PAGE_LIMIT -> forall L0, channel_log w L0 -> Z.of_nat (length L0) <= k1 + Z.of_nat (length page)).
  { intros Hs L0 HL0. apply Hlen in HL0. rewrite Epage, length_take, length_drop in Hs |- *. unfold FOLD_PAGE_LIMIT in *. lia. }
  destruct page as [|e0 page'] eqn:Ep.
  - split; [exact Hf2|]. cbn [fst snd]. intros L0 HL0. specialize (Hshort eq_refl L0 HL0). simpl in Hshort. lia.
  - rewrite <- Ep in *. destruct (fold_page policy (state1, k1) page) as [state2 k2]. cbn [fst snd] in Hstep. destruct Hstep as [Hf3 Ek2].
    destruct (Z.ltb_spec (Z.of_nat (length page)) FOLD_PAGE_LIMIT) as [Hs|Hl]; [|exact Hf3].
    split; [exact Hf3|]. cbn [fst snd]. rewrite Ek2. by apply Hshort.
Qed.

Lemma wp_persist policy state k w : inv w -> known policy -> folded policy w state k ->
  ends (modify (persist policy state k)) (fun _ _ => True) w.
Proof.
  intros Hi Hk Hf. apply wp_quiet; [done|]. apply (quiet_step channelId keep w (persist policy state k w)); auto.
  intros name cache. cbn. destruct (decide (name = cp_name policy)) as [->|Hne]; [|rewrite dict_get_set_ne by done; by left].
  rewrite dict_get_set_eq. intros [= <-]. right. intros p Hp _. unfold known in Hk. rewrite Hk in Hp. injection Hp as <-. exact Hf.
Qed.

Lemma wp_policy_state policy w : inv w -> known policy ->
  ends (policy_state channelId policy) (fun r w' => caught_up policy w r.1 r.2 w') w.
Proof.
  intros Hi Hk. unfold policy_state.
  set (start := match loadCache policy w with Some cache => (cache.(pc_state), cache.(pc_foldedThroughSeq), false)
                | None => (policy.(cp_init), 0, false) end).
  assert (Hs : folded policy w start.1.1 start.1.2).
  { unfold start, loadCache. destruct (dict_get _ _) as [cache|] eqn:E; [|apply folded_init].
    destruct (Z.eqb_spec (pc_policyVersion cache) (cp_version policy)); [|apply folded_init].
    exact (inv_caches _ Hi _ _ E policy Hk e). }
  w_seq; [apply (wp_get _ _ _ _ (fun c w' => w' = w /\ c = loadCache policy w)); done|].
  intros c w1 H1 Hi1 [-> ->]. fold start. destruct start as [[state k] adv]. cbn [fst snd] in Hs.
  w_seq; [by apply wp_catch_up|]. intros [[state' k'] adv'] w2 H2 Hi2 [Hf Hn]. cbn [fst snd] in Hf, Hn.
  w_seq; [destruct (_ || _); [by apply wp_persist|exact I]|]. intros _ w3 H3 Hi3 _. split; [|exact Hn].
  by apply (folded_moves policy w2 w3).
Qed.

Lemma wp_getState name w : inv w ->
  ends (getState channelId name) (fun r w' => exists policy, known policy /\ caught_up policy w r.2 r.1.2 w') w.
Proof.
  intros Hi. apply wp_async_ok; [done| |].
  { intros r w1 w2 Hi1 Hm _ (p & Hk & Hf & Hn). exists p. split; [done|]. split; [|done]. by eapply folded_moves. }
  w_seq; [by apply wp_policies|]. intros resolved w1 H1 Hi1 Hps. w_seq.
  { instantiate (1 := fun p _ => known p).
    destruct (List.find _ resolved) as [p|] eqn:E; cbn.
    - apply find_some in E as [Hin _]. rewrite List.Forall_forall in Hps. by apply Hps.
    - destruct (getChannelPolicy name) eqn:Eg; [|done]. by apply getChannelPolicy_known in Eg as [_ ?]. }
  intros p w2 H2 Hi2 Hp. w_seq; [by apply wp_policy_state|]. intros [state k] w3 H3 Hi3 [Hf Hn]. exists p. split; [done|]. split; [done|].
  intros L HL. cbn. assert (Hm : moves keep w w2) by by trans w1. destruct Hm as [He _]. destruct (He L HL) as (more & HL2).
  specialize (Hn _ HL2). rewrite length_app in Hn. cbn in Hn. lia.
Qed.

Lemma wp_annotate_all resolved draft merged w : inv w -> ends (annotate_all channelId resolved draft merged) (fun _ _ => True) w.
Proof.
  revert merged w. induction resolved as [|p resolved IH]; intros merged w Hi; [done|]. cbn [annotate_all].
  w_seq; [by apply wp_getState|]. intros got w1 H1 Hi1 _. by apply IH.
Qed.

Lemma wp_annotate_draft draft w : inv w -> ends (annotate_draft channelId draft) (fun _ _ => True) w.
Proof.
  intros Hi. apply wp_async_ok; [done..|]. w_seq; [by apply wp_policies|]. intros ps w1 H1 Hi1 _. by apply wp_annotate_all.
Qed.

Lemma wp_callBuilders w : inv w -> ends callBuilders (fun _ _ => True) w.
Proof. intros Hi. w_seq; [by apply wp_policies|]. intros ps w1 H1 Hi1 _. by destruct (existsb _ ps). Qed.

(** The next envelope folded into a cache. *)
Lemma folded_next policy w event view state : inv w -> durable w event -> policyViewFromChannelEvent event = Ok view ->
  folded policy w state (view.(pv_seq) - 1) -> folded policy w (policy.(cp_reduce) state view) view.(pv_seq).
Proof.
  intros Hi (L & e & b & e' & HL & Hin & Hh & ->) Hv Hf L' HL'. rewrite (cs_fun _ _ _ _ HL' HL).
  destruct (Hf L HL) as [Hb E]. destruct (log_at w L e (inv_store _ Hi) HL Hin) as [Hat Hseq].
  assert (Es : pv_seq view = ge_seq e).
  { unfold policyViewFromChannelEvent in Hv. destruct (ce_ts _); [|done]. injection Hv as <-. cbn.
    by destruct (hydrate_fields _ _ _ Hh) as (-> & _). }
  rewrite Es in *. split; [lia|]. intros Hr. rewrite (E Hr). rewrite List.Forall_forall in Hr. rewrite (Hr e Hin b e' view Hh Hv).
  unfold fold_upto. replace (Z.to_nat (ge_seq e)) with (S (Z.to_nat (ge_seq e - 1))) by lia.
  by rewrite (take_S_r _ _ _ Hat), fold_left_app.
Qed.

Lemma fold_one_step view event policy w : inv w -> durable w event -> policyViewFromChannelEvent event = Ok view -> known policy ->
  moves keep w (fold_one view w policy) /\ inv (fold_one view w policy).
Proof.
  intros Hi Hd Hv Hk. unfold fold_one. destruct (loadCache policy w) as [cache|] eqn:Ec; [|by split].
  destruct (_ <=? _); [by split|]. destruct (Z.eqb_spec (pv_seq view) (pc_foldedThroughSeq cache + 1)) as [E|]; [|by split]. cbn [negb].
  assert (Hf : folded policy w (cp_reduce policy (pc_state cache) view) (pv_seq view)).
  { eapply folded_next; [done..|]. replace (pv_seq view - 1) with (pc_foldedThroughSeq cache) by lia.
    unfold loadCache in Ec. destruct (dict_get _ _) as [c|] eqn:Eg; [|done]. destruct (Z.eqb_spec (pc_policyVersion c) (cp_version policy)); [|done].
    injection Ec as ->. exact (inv_caches _ Hi _ _ Eg policy Hk e). }
  pose proof (wp_persist policy _ _ w Hi Hk Hf) as (H1 & H2 & _). by split.
Qed.

Lemma wp_foldAppended view event w : inv w -> durable w event -> policyViewFromChannelEvent event = Ok view ->
  ends (foldAppended view) (fun _ _ => True) w.
Proof.
  intros Hi Hd Hv. w_seq; [by apply wp_policies|]. intros ps w1 H1 Hi1 Hk. apply (durable_moves keep _ _ _ H1) in Hd.
  apply wp_quiet; [done|]. cbn in Hk. clear - Hi1 Hd Hv Hk KeepLog0. revert w1 Hi1 Hd. induction Hk as [|p ps Hp _ IH]; intros w Hi Hd; [by split|].
  cbn [fold_left]. destruct (fold_one_step view event p w Hi Hd Hv Hp) as [H1 Hi1].
  destruct (IH _ Hi1 (durable_moves keep _ _ _ H1 Hd)) as [H2 Hi2]. split; [by trans (fold_one view w p)|done].
Qed.

Lemma wp_appendDurable input w : inv w -> ends (appendDurable channelId input) (appended input.(du_messageId)) w.
Proof.
  intros Hi. apply wp_async_ok; [done| |]; [intros ev w1 w2 _ Hm _; by apply appended_moves|].
  w_seq; [by apply wp_annotate_draft|]. intros annotations w1 H1 Hi1 _. w_seq; [by apply wp_append|].
  intros event w2 H2 Hi2 Ha. cbn [ca_messageId] in Ha. w_seq; [instantiate (1 := fun v w' => w' = w2 /\ policyViewFromChannelEvent event = Ok v)|].
  { by destruct (policyViewFromChannelEvent event). }
  intros view w3 H3 Hi3 [-> Hv]. w_seq; [eapply wp_foldAppended; [done|apply Ha|done]|]. intros _ w4 H4 Hi4 _. by eapply appended_moves.
Qed.
End Appends.
End Laws.

(** What a subscriber is shown: a replayed event is the event that was shown live. *)
Section Hydrate.
Context {B : Type} `{!TextBlobs B}.
Implicit Types b : B.

Lemma hydrated_cons n b k x fs fs' : res_map (hydrate_field n b) ((k, x) :: fs) = Ok fs' ->
  exists x' rest, hydrateStoredValueRefs (S n) b x = Ok x' /\ res_map (hydrate_field n b) fs = Ok rest /\ fs' = (k, x') :: rest.
Proof.
  cbn [res_map]. intros (kv & Hkv & H)%res_bind_Ok. apply res_bind_Ok in H as (rest & Hr & H). injection H as <-.
  unfold hydrate_field in Hkv. apply res_bind_Ok in Hkv as (x' & Hx & Hkv). injection Hkv as <-. eauto.
Qed.

Lemma hydrated_get n b fs fs' k : res_map (hydrate_field n b) fs = Ok fs' ->
  hydrateStoredValueRefs (S n) b (default VUndef (dict_get k fs)) = Ok (default VUndef (dict_get k fs')).
Proof.
  revert fs'. induction fs as [|[k' x] fs IH]; intros fs' H; [by injection H as <-|].
  apply hydrated_cons in H as (x' & rest & Hx & Hr & ->). cbn [dict_get]. destruct (k =s? k'); [done|]. by apply IH.
Qed.

Lemma hydrated_del n b fs fs' k : res_map (hydrate_field n b) fs = Ok fs' ->
  res_map (hydrate_field n b) (dict_del k fs) = Ok (dict_del k fs').
Proof.
  revert fs'. induction fs as [|[k' x] fs IH]; intros fs' H; [by injection H as <-|].
  apply hydrated_cons in H as (x' & rest & Hx & Hr & ->). cbn [dict_del]. destruct (k =s? k'); [by apply IH|].
  cbn [res_map]. unfold hydrate_field at 1. cbn [fst snd]. rewrite Hx. cbn [res_bind]. by rewrite (IH rest Hr).
Qed.

Lemma hydrated_app n b fs1 fs2 fs' : res_map (hydrate_field n b) (fs1 ++ fs2) = Ok fs' ->
  exists fs1' fs2', res_map (hydrate_field n b) fs1 = Ok fs1' /\ res_map (hydrate_field n b) fs2 = Ok fs2' /\ fs' = fs1' ++ fs2'.
Proof.
  revert fs'. induction fs1 as [|[k x] fs1 IH]; intros fs' H; [by exists [], fs'|].
  apply hydrated_cons in H as (x' & rest & Hx & Hr & ->). destruct (IH rest Hr) as (fs1' & fs2' & H1 & H2 & ->).
  exists ((k, x') :: fs1'), fs2'. split; [|done]. cbn [res_map]. unfold hydrate_field at 1. cbn [fst snd]. rewrite Hx. cbn [res_bind]. by rewrite H1.
Qed.

(** Fields that are no part of a reference do not make one. *)
Lemma ref_del k fs : existsb (String.eqb k) ["protocol"; "digest"; "size"; "encoding"; "originalBytes"] = false ->
  isStoredValueRef (VObj (dict_del k fs)) = isStoredValueRef (VObj fs).
Proof.
  intros Hk. assert (Hg : forall k', existsb (String.eqb k') ["protocol"; "digest"; "size"; "encoding"; "originalBytes"] = true ->
    dict_get k' (dict_del k fs) = dict_get k' fs).
  { intros k' H'. apply dict_get_del_ne. intros ->. congruence. }
  unfold isStoredValueRef. cbn [js_get]. by rewrite !Hg.
Qed.

Lemma def_field_cases k v : (v = VUndef /\ def_field k v = []) \/ (v <> VUndef /\ def_field k v = [(k, v)]).
Proof. destruct v; first [by left|by right]. Qed.

Definition annotations_of e : val := default (VObj []) e.(ge_event).(ev_annotations).

(** Annotations minus the carriers of metadata and attachments. *)
Definition carried (fs : list (string * val)) : list (string * val) := dict_del "attachments" (dict_del "metadata" fs).

Lemma view_fields c e :
  let view := channelEnvelopeView c e in let event := e.(ge_event) in
  view.!"envelopeId" = VStr event.(ev_envelopeId) /\ view.!"seq" = VNum e.(ge_seq) /\ view.!"from" = event.(ev_actor) /\
  view.!"payload" = event.(ev_payload) /\
  view.!"payloadKind" = (if event.(ev_payloadKind) =s? "opaque" then VUndef else VStr event.(ev_payloadKind)) /\
  view.!"metadata" = (annotations_of e).!"metadata" /\ view.!"attachments" = (annotations_of e).!"attachments" /\
  view.!"annotations" = match carried (fields (annotations_of e)) with [] => VUndef | fs => VObj fs end /\
  view.!"publishedAt" = VStr event.(ev_appendedAt) /\ view.!"protocol" = VUndef.
Proof.
  cbn zeta. unfold channelEnvelopeView, carried, annotations_of. cbn zeta.
  set (annotations := default _ _).
  destruct (def_field_cases "metadata" annotations.!"metadata") as [[E1 ->]|[E1 ->]];
    destruct (def_field_cases "attachments" annotations.!"attachments") as [[E2 ->]|[E2 ->]];
    destruct (ev_to _), (_ =s? "opaque"), (dict_del "attachments" _); cbn; rewrite ?E1, ?E2; by repeat split.
Qed.

Lemma view_hydrated n b c e v k : hydrateStoredValueRefs (S n) b (channelEnvelopeView c e) = Ok v ->
  hydrateStoredValueRefs (S n) b (channelEnvelopeView c e).!k = Ok v.!k.
Proof.
  intros H. assert (Hr : isStoredValueRef (channelEnvelopeView c e) = false).
  { unfold isStoredValueRef. destruct (view_fields c e) as (_ & _ & _ & _ & _ & _ & _ & _ & _ & ->). by rewrite andb_false_r. }
  unfold channelEnvelopeView in *. rewrite hydrate_obj in H by done. apply res_bind_Ok in H as (fs' & Hfs & H). injection H as <-.
  cbn [js_get]. pose proof (hydrated_get n b _ _ k Hfs) as H. unfold default, from_option, id in H.
  destruct (dict_get k fs'), (dict_get k _); done.
Qed.

Lemma hydrate_record n b a a' : isStoredValueRef a = false -> hydrateStoredValueRefs (S n) b a = Ok a' ->
  (forall k, hydrateStoredValueRefs (S n) b a.!k = Ok a'.!k) /\ res_map (hydrate_field n b) (fields a) = Ok (fields a').
Proof.
  intros E H. destruct a as [| | | | |l|fs].
  6: { cbn [hydrateStoredValueRefs] in H. rewrite E in H. apply res_bind_Ok in H as (l' & _ & H). by injection H as <-. }
  6: { rewrite hydrate_obj in H by done. apply res_bind_Ok in H as (fs' & Hfs & H). injection H as <-. split; [|done]. intros k.
       cbn [js_get]. pose proof (hydrated_get n b _ _ k Hfs) as Hg. unfold default, from_option, id in Hg.
       destruct (dict_get k fs'), (dict_get k _); done. }
  all: rewrite hydrate_plain in H by done; by injection H as <-.
Qed.

Lemma carried_carried fs : carried (carried fs) = carried fs.
Proof.
  unfold carried. by rewrite (dict_del_comm "metadata" "attachments"), !dict_del_del.
Qed.

Lemma carried_ref fs : isStoredValueRef (VObj (carried fs)) = isStoredValueRef (VObj fs).
Proof. unfold carried. by rewrite !ref_del. Qed.

(** The annotations a view hands on. *)
Lemma view_annotations n b c e v a' :
  isStoredValueRef (annotations_of e) = false -> hydrateStoredValueRefs (S n) b (channelEnvelopeView c e) = Ok v ->
  hydrateStoredValueRefs (S n) b (annotations_of e) = Ok a' ->
  policyAnnotations match v.!"annotations" with VUndef | VNull => None | x => Some x end = carried (fields a').
Proof.
  intros Href Hv Ha. destruct (hydrate_record n b _ _ Href Ha) as [_ Hfs]. apply (view_hydrated n b c e v "annotations") in Hv.
  destruct (view_fields c e) as (_ & _ & _ & _ & _ & _ & _ & Ean & _). rewrite Ean in Hv. clear Ean.
  assert (Hc : res_map (hydrate_field n b) (carried (fields (annotations_of e))) = Ok (carried (fields a'))) by by do 2 apply hydrated_del.
  destruct (carried (fields (annotations_of e))) as [|kv fs] eqn:Ec.
  - injection Hc as <-. rewrite hydrate_plain in Hv by done. by injection Hv as <-.
  - assert (Er : isStoredValueRef (VObj (kv :: fs)) = false).
    { rewrite <- Ec, carried_ref. destruct (annotations_of e) as [| | | | |l|fs0]; try done. }
    rewrite hydrate_obj in Hv by done. rewrite Hc in Hv. injection Hv as <-.
    unfold policyAnnotations. cbn [fields]. apply carried_carried.
Qed.

(** An event with another type. *)
Definition with_type (type : string) (event : ChannelEvent) : ChannelEvent :=
  {| ce_id := event.(ce_id); ce_messageId := event.(ce_messageId); ce_type := type; ce_payload := event.(ce_payload);
     ce_senderId := event.(ce_senderId); ce_senderMetadata := event.(ce_senderMetadata);
     ce_contentType := event.(ce_contentType); ce_ts := event.(ce_ts); ce_attachments := event.(ce_attachments);
     ce_annotations := event.(ce_annotations) |}.

(** The type an envelope is replayed under: the view has no kind for an opaque one. *)
Definition replayed_type (e : GadEnvelope) : string :=
  let kind := e.(ge_event).(ev_payloadKind) in if kind =s? "opaque" then "message" else kind.

(** A replayed event is the event that was shown live, under its replayed type. *)
Lemma replayed_event b c e e' v :
  hydrateEnvelope b e = Ok e' -> hydrateStoredValueRefs HYDRATE_DEPTH b (channelEnvelopeView c e) = Ok v ->
  isStoredValueRef (annotations_of e) = false ->
  eventFromChannelView v = with_type (replayed_type e) (@eventFromLogEnvelope e').
Proof.
  intros He Hv Href. assert (Hn : exists n, HYDRATE_DEPTH = S n) by by eexists. destruct Hn as (n & En).
  unfold hydrateEnvelope, hydrate_opt in He. rewrite En in He, Hv. clear En.
  apply res_bind_Ok in He as (actor & Hactor & He). apply res_bind_Ok in He as (to & _ & He).
  apply res_bind_Ok in He as (payload & Hpayload & He). apply res_bind_Ok in He as (annotations & Han & He).
  apply res_bind_Ok in He as (causality & _ & He). injection He as <-.
  pose proof (fun k => view_hydrated n b c e v k Hv) as Hget.
  destruct (view_fields c e) as (E1 & E2 & E3 & E4 & E5 & E6 & E7 & _ & E9 & _).
  assert (Ha : hydrateStoredValueRefs (S n) b (annotations_of e) = Ok (default (VObj []) annotations)).
  { unfold annotations_of in *. destruct (ev_annotations (ge_event e)) as [a|]; cbn [default] in *.
    - apply res_bind_Ok in Han as (a' & Ha & Han). injection Han as <-. exact Ha.
    - by injection Han as <-. }
  pose proof (view_annotations n b c e v _ Href Hv Ha) as Ean. destruct (hydrate_record n b _ _ Href Ha) as [Hfield _].
  pose proof (Hget "envelopeId") as G1. pose proof (Hget "seq") as G2. pose proof (Hget "from") as G3. pose proof (Hget "payload") as G4.
  pose proof (Hget "payloadKind") as G5. pose proof (Hget "metadata") as G6. pose proof (Hget "attachments") as G7. pose proof (Hget "publishedAt") as G9.
  rewrite E1 in G1. rewrite E2 in G2. rewrite E3, Hactor in G3. rewrite E4, Hpayload in G4. rewrite E5 in G5.
  rewrite E6, Hfield in G6. rewrite E7, Hfield in G7. rewrite E9 in G9.
  assert (G5' : to_str (v.!"payloadKind" ?? VStr "message") = replayed_type e).
  { unfold replayed_type. destruct (_ =s? _); rewrite hydrate_plain in G5 by done; injection G5 as <-; done. }
  rewrite hydrate_plain in G1, G2, G9 by done. injection G1 as G1. injection G2 as G2. injection G3 as G3. injection G4 as G4.
  injection G6 as G6. injection G7 as G7. injection G9 as G9.
  unfold eventFromChannelView, eventFromLogEnvelope. rewrite Ean, G5', <- G1, <- G2, <- G3, <- G4, <- G6, <- G7, <- G9.
  cbn [ge_seq ge_event ev_envelopeId ev_actor ev_payloadKind ev_payload ev_annotations ev_appendedAt as_num default to_str js_nullish].
  unfold with_type, buildChannelEvent. cbn. by destruct annotations.
Qed.

Lemma hydrate_kind b e e' : hydrateEnvelope b e = Ok e' -> (@eventFromLogEnvelope e').(ce_type) = e.(ge_event).(ev_payloadKind).
Proof.
  unfold hydrateEnvelope. intros (actor & _ & H)%res_bind_Ok. apply res_bind_Ok in H as (to & _ & H).
  apply res_bind_Ok in H as (payload & _ & H). apply res_bind_Ok in H as (annotations & _ & H).
  apply res_bind_Ok in H as (causality & _ & H). by injection H as <-.
Qed.

(** Whatever it carries, it has the number and the id of its envelope. *)
Lemma replayed_shows b c e v : hydrateStoredValueRefs HYDRATE_DEPTH b (channelEnvelopeView c e) = Ok v ->
  (eventFromChannelView v).(ce_id) = e.(ge_seq) /\
  (eventFromChannelView v).(ce_messageId) = (let id := e.(ge_event).(ev_envelopeId) in if id =s? "" then pretty e.(ge_seq) else id).
Proof.
  intros Hv. assert (Hn : exists n, HYDRATE_DEPTH = S n) by by eexists. destruct Hn as (n & En). rewrite En in Hv. clear En.
  pose proof (view_hydrated n b c e v "envelopeId" Hv) as G1. pose proof (view_hydrated n b c e v "seq" Hv) as G2.
  destruct (view_fields c e) as (E1 & E2 & _). rewrite E1 in G1. rewrite E2 in G2. rewrite hydrate_plain in G1, G2 by done.
  injection G1 as G1. injection G2 as G2. unfold eventFromChannelView, buildChannelEvent. cbn [ce_id ce_messageId]. by rewrite <- G1, <- G2.
Qed.
End Hydrate.
