(* ===== verification/ChannelSafety.v ===== *)
(** Every function of the channel, among any others: it keeps the invariant, and what it
    answers of a call or a publish is the place in the log. *)
From stdpp Require Import gmap relations.
From S2P Require Import Prelude Dict JsValue JsText JsJson AgentEffects JsAsync.
From S2P Require Import GadCanon GadRefs GadLog GadLogLaws GadTables GadReplay GadWindow GadStored ChannelState ChannelPolicy ChannelCalls ChannelDo.
From S2P Require Import ChannelLaws ChannelAppends.
#[local] Open Scope Z_scope.

(** A relation every move of the log is in, whatever becomes of the rows. *)
Class KeepAll {G B : Type} `{!ChannelStore G, !ChannelStoreLaws G} (channelId : string) (keep : World G B -> World G B -> Prop) : Prop := {
  keep_all_preorder :: PreOrder keep;
  keep_all w w' : extends channelId w w' -> keep w w'
}.

#[export] Instance keep_all_log {G B} `{!ChannelStore G, !ChannelStoreLaws G} channelId (keep : World G B -> World G B -> Prop)
  `{!KeepAll channelId keep} : KeepLog channelId keep.
Proof.
  split; [split; [typeclasses eauto|]|].
  - intros w w' E _. by eapply keep_all, extends_store.
  - intros w w' _ E. by eapply keep_all.
Qed.

#[export] Hint Extern 0 (Keep _) => typeclasses eauto : core.
#[export] Hint Extern 0 (KeepLog _ _) => typeclasses eauto : core.

Create HintDb channel.
#[export] Hint Resolve wp_terminalEvent wp_getEvent wp_hasEnvelope wp_headSeq wp_send wp_broadcastLive wp_scheduleNextAlarm
  wp_recordObservedHead wp_policies wp_callBuilders wp_appendDurable wp_getState : channel.
#[export] Hint Extern 4 (wp _ _ (get _) _ _) => (apply wp_get; [assumption|reflexivity]) : channel.

(** What is known of the log is still known after the move [Hm]. *)
Ltac carry Hm :=
  lazymatch type of Hm with ChannelLaws.moves _ _ ?w ?w' =>
  repeat match goal with
  | H : ChannelLaws.moves _ _ _ w |- _ => let K := fresh "Hm" in pose proof (transitivity H Hm) as K; clear H
  | H : ChannelLaws.durable _ w _ |- _ => apply (durable_moves _ _ _ _ Hm) in H
  | H : ChannelLaws.at_seq _ w _ _ |- _ => apply (at_seq_moves _ _ _ _ _ Hm) in H
  | H : ChannelLaws.shows _ w _ |- _ => apply (shows_moves _ _ _ _ Hm) in H
  end end.

(** The rest of a program, after a statement with the answer [a] of which [H] is known. *)
Tactic Notation "w_next" simple_intropattern(a) simple_intropattern(H) :=
  let w := fresh "w" in let Hm := fresh "Hm" in let Hi := fresh "Hi" in intros a w Hm Hi H; carry Hm.
Tactic Notation "w_next" := w_next ? _.

(** A statement whose value is of no matter. *)
Ltac w_skip := eapply wp_seq with (Q1 := fun _ _ => True); [typeclasses eauto|assumption| |].

Ltac w_async := apply wp_async_ok; [assumption| |].

Section Any.
Context {G B : Type} `{!ChannelStore G, !ChannelStoreLaws G, !TextBlobs B}.
Context (channelId : string) (keep : World G B -> World G B -> Prop) `{!KeepLog channelId keep} (Hchannel : cs_channel channelId).
Abbreviation World := (World G B).
Abbreviation prog := (prog World).
Implicit Types (w : World) (e : GadEnvelope) (L : list GadEnvelope).
Abbreviation at_seq := (@at_seq G B _ _ channelId).
Abbreviation durable := (@durable G B _ _ _ channelId).
Abbreviation inv := (@inv G B _ _ _ channelId).
Abbreviation moves := (@moves G B _ _ channelId keep).
Abbreviation ends p Q w := (wp moves inv p (okp Q) w).
Abbreviation safe p w := (ends p (fun _ _ => True) w).

Lemma wp_value A (f : World -> A) w : inv w -> safe (get f) w.
Proof. intros Hi. by apply (wp_get _ _ _ _ (fun _ _ => True)). Qed.

Lemma wp_awaitInFlightStart t w : inv w -> safe (awaitInFlightStart t) w.
Proof.
  intros Hi. w_async; [done|]. w_seq; [by apply wp_value|]. w_next. destruct a; [|done]. by intros w1 _ _ _.
Qed.

Lemma wp_ensureMethodRoot pending w : inv w -> safe (ensureMethodRoot channelId pending) w.
Proof.
  intros Hi. w_async; [done|]. w_seq; [by eapply wp_hasEnvelope|]. w_next rooted _. destruct rooted; [done|].
  w_seq; [by eapply wp_callBuilders|]. w_next. w_seq; [by apply wp_value|]. w_next. w_seq; [by apply wp_appendDurable|]. done.
Qed.

(** The event that ended a call. *)
Definition ended (t : string) (event : ChannelEvent) w : Prop := durable w event /\ at_seq w (terminalId t) event.(ce_id).

Lemma wp_appendTerminal pending payload override senderId attachments w : inv w ->
  ends (appendTerminal channelId pending payload override senderId attachments) (ended pending.(pr_transportCallId)) w.
Proof.
  intros Hi. w_seq; [by eapply wp_terminalEvent|]. w_next existing H. destruct existing as [event|]; [exact H|].
  w_skip; [destruct override; [done|by eapply wp_callBuilders]|]. w_next.
  w_seq; [apply (wp_get _ _ _ _ (fun input _ => input.(du_messageId) = Some (terminalId pending.(pr_transportCallId)))); [done|reflexivity]|]. w_next input E.
  eapply wp_ok; [typeclasses eauto|done|by apply wp_appendDurable|]. intros event w3 _ _ [Hd Hat]. split; [done|]. by apply Hat.
Qed.

(** The answer for a call is where it ended; there is none only if it had not ended. *)
Definition settled w0 (t : string) (answer : option Z) w : Prop :=
  match answer with Some n => at_seq w (terminalId t) n | None => forall n, ~ at_seq w0 (terminalId t) n end.

Lemma settled_moves w0 t answer w w' : moves w w' -> settled w0 t answer w -> settled w0 t answer w'.
Proof. destruct answer; [|done]. apply at_seq_moves. Qed.

Lemma looked_before w0 w1 id o w : moves w0 w1 -> looked_up channelId w1 id o w -> looked_up channelId w0 id o w.
Proof. intros Hm. destruct o; [done|]. intros H n Hn. apply (H n). by eapply at_seq_moves. Qed.

(** A look-up that finds nothing: there was nothing at any time before. *)
Lemma wp_looked w0 t w : moves w0 w -> inv w ->
  ends (terminalEvent channelId t) (fun o w' => looked_up channelId w0 (terminalId t) o w' /\ settled w0 t (option_map ce_id o) w') w.
Proof.
  intros Hm Hi. eapply wp_ok; [typeclasses eauto|done|by eapply wp_terminalEvent|]. intros o w' _ _ H%(looked_before w0 w); [|done].
  split; [done|]. destruct o; [apply H|done].
Qed.

Lemma wp_peek t w : inv w -> ends (peek t) (fun o _ => match o with Some pending => pending.(pr_transportCallId) = t | None => True end) w.
Proof.
  intros Hi. apply wp_get; [typeclasses eauto|done|]. unfold peek_row. destruct (List.find _ _) as [row|] eqn:E; [|done].
  apply find_some in E as [_ E%String.eqb_eq]. exact E.
Qed.

End Any.

Section Safety.
Context {G B : Type} `{!ChannelStore G, !ChannelStoreLaws G, !TextBlobs B}.
Context (channelId : string) (keep : World G B -> World G B -> Prop) `{!KeepAll channelId keep} (Hchannel : cs_channel channelId).
Abbreviation World := (World G B).
Abbreviation prog := (prog World).
Implicit Types (w : World) (e : GadEnvelope) (L : list GadEnvelope).
Abbreviation at_seq := (@at_seq G B _ _ channelId).
Abbreviation durable := (@durable G B _ _ _ channelId).
Abbreviation shows := (@shows G B _ _ channelId).
Abbreviation sent_ok := (@sent_ok G B _ _ channelId).
Abbreviation inv := (@inv G B _ _ _ channelId).
Abbreviation moves := (@moves G B _ _ channelId keep).
Abbreviation ends p Q w := (wp moves inv p (okp Q) w).
Abbreviation settled := (@settled G B _ _ channelId).
Abbreviation safe p w := (ends p (fun _ _ => True) w).
#[local] Hint Resolve Hchannel : channel.

(** * Rows *)

Lemma safe_memory f w : inv w -> (moves w (f w) /\ inv (f w)) -> safe (modify f) w.
Proof. intros Hi [H1 H2]. by apply wp_modify. Qed.

Lemma rows_step calls w : inv w -> moves w (set_calls calls w) /\ inv (set_calls calls w).
Proof. intros Hi. apply calls_step; [typeclasses eauto|done|]. by eapply keep_all, extends_store. Qed.

Lemma wp_deleteRow t w : inv w -> safe (deleteRow t) w.
Proof. intros Hi. apply safe_memory; [done|]. by apply rows_step. Qed.

Lemma insert_row_step row w : inv w -> moves w (insert_row row w).1 /\ inv (insert_row row w).1.
Proof.
  intros Hi. unfold insert_row. destruct (match peek_row w _ with Some _ => _ | None => _ end); cbn [fst]; [by apply rows_step|].
  split; [reflexivity|done].
Qed.

Lemma wp_act_res A (f : World -> World * res A) w : moves w (f w).1 -> inv (f w).1 -> safe (act_res f) w.
Proof. intros H1 H2. split; [done|]. split; [done|]. cbn. by destruct (f w).2. Qed.

Lemma wp_insertRow row w : inv w -> safe (insertRow row) w.
Proof. intros Hi. by apply wp_act_res; apply insert_row_step. Qed.

Lemma then_step w w1 w2 : moves w w1 /\ inv w1 -> (inv w1 -> moves w1 w2 /\ inv w2) -> moves w w2 /\ inv w2.
Proof. intros [H1 Hi1] H. destruct (H Hi1) as [H2 Hi2]. split; [by trans w1|done]. Qed.

Lemma insert_rows_step rows w : inv w -> moves w (insert_rows rows w).1 /\ inv (insert_rows rows w).1.
Proof.
  revert w. induction rows as [|row rows IH]; intros w Hi; cbn [insert_rows]; [by split|].
  pose proof (insert_row_step row w Hi) as H1. destruct (insert_row row w) as [w1 [[]|]]; [|done].
  eapply then_step; [exact H1|apply IH].
Qed.

Lemma delete_rows_step rows w : inv w ->
  let w' := fold_left (fun w row => delete_row row.(cr_transportCallId) w) rows w in moves w w' /\ inv w'.
Proof.
  cbn zeta. revert w. induction rows as [|row rows IH]; intros w Hi; cbn [fold_left]; [by split|].
  eapply then_step; [by apply rows_step|]. apply IH.
Qed.

Lemma reconcile_rows_step envelopes head w : inv w -> moves w (reconcile_table envelopes head w).1 /\ inv (reconcile_table envelopes head w).1.
Proof.
  intros Hi. unfold reconcile_table. eapply then_step; [by apply (delete_rows_step (stale_rows (pending_map envelopes) w))|]. intros Hi1.
  pose proof (insert_rows_step (missing_rows (pending_map envelopes) w) _ Hi1) as H2. destruct (insert_rows _ _) as [w2 [[]|]]; [|done].
  eapply then_step; [exact H2|]. intros Hi2. eapply (then_step _ (set_reconciledThrough head w2)); [quiet|]. intros Hi3.
  cbn [fst]. destruct (_ <? _)%nat; [quiet|by split].
Qed.

(** * Calls *)

Lemma wp_read_pages w : inv w -> safe (read_pages channelId) w.
Proof.
  intros Hi. apply (wp_while _ _ _ _ _ (fun _ _ => True)); [done|]. intros [envelopes afterSeq] w1 _ Hi1 _. unfold read_round.
  w_seq; [by apply (query_log channelId keep _ _ (fun _ _ => True))|]. w_next page _. destruct (list.last page); [|done]. by destruct (_ <? _).
Qed.

Lemma wp_reconcile force w : inv w -> safe (reconcilePendingCalls channelId force) w.
Proof.
  intros Hi. w_async; [done|]. w_seq; [by eapply wp_headSeq|]. w_next. w_seq; [by apply wp_value|]. w_next.
  destruct (_ && _); [done|]. w_seq; [by apply wp_read_pages|]. w_next. by apply wp_act_res; apply reconcile_rows_step.
Qed.

Lemma wp_settleCall t result isError opts w : inv w ->
  ends (settleCall channelId t result isError opts) (settled w t) w.
Proof.
  intros Hi. w_async; [intros a w1 w2 _ Hm _; by eapply settled_moves|]. w_skip; [by apply wp_awaitInFlightStart|]. w_next.
  w_seq; [by apply wp_peek|]. w_next cached Hc.
  w_seq; [instantiate (1 := fun found w' => match found with inr answer => settled w t answer w' | inl pending => pending.(pr_transportCallId) = t end)|].
  { destruct cached as [pending|]; [exact Hc|]. w_seq; [by eapply (wp_looked channelId keep w)|]. w_next existing H. destruct existing as [event|]; [apply H|].
    w_skip; [by apply wp_reconcile|]. w_next. w_seq; [by apply wp_peek|]. w_next again Hc2. destruct again as [pending|]; [exact Hc2|].
    w_seq; [by eapply (wp_looked channelId keep w)|]. w_next existing H2. apply H2. }
  w_next found Hf. destruct found as [pending|answer]; [|exact Hf]. w_skip; [by apply wp_ensureMethodRoot|]. w_next.
  w_seq; [by apply wp_appendTerminal|]. w_next event He. destruct He as [Hd Hat]. rewrite Hf in Hat.
  w_skip; [by apply wp_deleteRow|]. w_next. w_skip; [by eapply wp_recordObservedHead|]. w_next.
  w_skip; [by eapply wp_scheduleNextAlarm|]. w_next. w_skip; [by apply wp_value|]. w_next callerPresent _.
  w_skip; [destruct callerPresent; [by eapply wp_broadcastLive|done]|]. w_next. exact Hat.
Qed.

Lemma wp_settleMissingCall targetId t result isError invocationId turnId opts w : inv w ->
  ends (settleMissingCall channelId targetId t result isError invocationId turnId opts) (settled w t) w.
Proof.
  intros Hi. w_async; [intros a w1 w2 _ Hm _; by eapply settled_moves|].
  w_seq; [apply (wp_get _ _ _ _ (fun pending _ => pending.(pr_transportCallId) = t)); [done|reflexivity]|]. w_next pending E.
  w_skip; [by apply wp_ensureMethodRoot|]. w_next. w_seq; [by apply wp_appendTerminal|]. w_next event He. destruct He as [Hd Hat].
  rewrite E in Hat. w_skip; [by eapply wp_recordObservedHead|]. w_next. w_skip; [by eapply wp_scheduleNextAlarm|]. w_next.
  w_skip; [by eapply wp_broadcastLive|]. w_next. exact Hat.
Qed.

Lemma wp_settle t result isError opts w : inv w -> safe (settleCall channelId t result isError opts) w.
Proof. intros Hi. eapply wp_ok; [typeclasses eauto|done|by apply wp_settleCall|done]. Qed.

Lemma wp_dispatchCallStart row w : inv w -> safe (dispatchCallStart channelId row) w.
Proof.
  intros Hi. w_async; [done|]. w_skip; [by apply wp_value|]. w_next transport _. destruct transport as [transport|].
  - w_skip; [by apply wp_value|]. w_next vessel _. destruct transport, vessel; try done. apply safe_memory; [done|]. quiet.
  - w_skip; [by apply wp_settle|]. w_next. done.
Qed.

Lemma wp_deliverDoMethodCall input answer w : inv w -> safe (deliverDoMethodCall channelId input answer) w.
Proof.
  intros Hi. w_async; [done|]. eapply wp_after with (Q1 := fun _ _ => True); [typeclasses eauto|done| |].
  - destruct answer as [[]|]; try done; by apply wp_settle.
  - intros r w1 _ Hi1 _. destruct r; [done|]. w_skip; [by apply wp_settle|]. done.
Qed.

Lemma wp_journalCallStart callerPid targetPid callId method args opts w : inv w ->
  safe (journalCallStart channelId callerPid targetPid callId method args opts) w.
Proof.
  intros Hi. w_async; [done|]. w_skip; [by apply wp_value|]. w_next deadlineAt _. w_skip; [by apply wp_value|]. w_next createdAt _.
  w_seq; [by eapply wp_terminalEvent|]. w_next existing H. destruct existing as [event|].
  { destruct H as [Hd _]. w_skip; [by apply wp_deleteRow|]. w_next. w_skip; [by eapply wp_broadcastLive|]. done. }
  w_skip; [by eapply wp_callBuilders|]. w_next. w_skip; [by apply wp_value|]. w_next input _.
  w_seq; [by apply wp_appendDurable|]. w_next event He. destruct He as [Hd _]. w_skip; [by apply wp_value|]. w_next fallback _.
  w_seq; [by eapply wp_terminalEvent|]. w_next after H2. destruct after as [ended|].
  { destruct H2 as [Hd2 _]. w_skip; [by apply wp_deleteRow|]. w_next. w_skip; [by eapply wp_broadcastLive|]. done. }
  w_skip; [by apply wp_insertRow|]. w_next. w_skip; [by eapply wp_recordObservedHead|]. w_next.
  w_skip; [by eapply wp_scheduleNextAlarm|]. w_next. w_skip; [by eapply wp_broadcastLive|]. done.
Qed.

(** What a start promises carries no event. *)
Lemma open_start_step t w : inv w -> safe (open_start t) w.
Proof.
  intros Hi. assert (H : moves w ((fun w => set_nextPromise (S w.(w_nextPromise)) (set_startInFlight (dict_set t (t, w.(w_nextPromise)) w.(w_startInFlight)) w)) w) /\
    inv ((fun w => set_nextPromise (S w.(w_nextPromise)) (set_startInFlight (dict_set t (t, w.(w_nextPromise)) w.(w_startInFlight)) w)) w)) by quiet.
  destruct H as [H1 H2]. by split; [|split].
Qed.

Lemma wp_close_start t promise w : inv w -> safe (close_start t promise) w.
Proof.
  intros Hi. apply safe_memory; [done|]. eapply (then_step _ (set_promises (w.(w_promises) ++ [(promise, Ok None)]) w)).
  - apply quiet_step; auto. intros p. cbn. rewrite in_app_iff. intros [?|[<-|[]]]; [by left|by right].
  - intros Hi1. cbn zeta beta. destruct (bool_decide _); [quiet|by split].
Qed.

Lemma wp_callMethod callerPid targetPid callId method args opts w : inv w ->
  safe (callMethod channelId callerPid targetPid callId method args opts) w.
Proof.
  intros Hi. w_async; [done|]. w_skip; [by apply open_start_step|]. w_next promise _. w_skip.
  { w_async; [done|]. eapply wp_after with (Q1 := fun _ _ => True); [typeclasses eauto|done|by apply wp_journalCallStart|].
    intros r w2 _ Hi2 _. w_skip; [by apply wp_close_start|]. intros _ w3 _ _ _. by destruct r. }
  w_next dispatch _. destruct dispatch; [by apply wp_dispatchCallStart|done].
Qed.

(** * Submitting and cancelling *)

Lemma wp_resolveSubmitter participantId t operation w : inv w ->
  ends (resolveSubmitterForCall channelId participantId t operation)
    (fun r w' => match r with CallTerminal n => at_seq w' (terminalId t) n | _ => True end) w.
Proof.
  intros Hi. w_async; [intros [|n|] w1 w2 _ Hm _; [done|by eapply at_seq_moves|done]|]. w_skip; [by apply wp_awaitInFlightStart|]. w_next.
  w_skip; [by apply wp_value|]. w_next cached _.
  w_seq; [instantiate (1 := fun r w' => match r with CallTerminal n => at_seq w' (terminalId t) n | _ => True end)|].
  { destruct cached as [pending|]; [done|]. w_seq; [by eapply wp_terminalEvent|]. w_next existing H. destruct existing as [event|]; [apply H|].
    w_skip; [by apply wp_reconcile|]. w_next. w_skip; [by apply wp_value|]. w_next again _. destruct again as [pending|]; [done|].
    w_seq; [by eapply wp_terminalEvent|]. w_next existing H2. destruct existing; [apply H2|done]. }
  w_next found H. destruct found; [by case_match|exact H|done].
Qed.

Lemma wp_append_progress t content attachments w : inv w -> safe (append_progress channelId t content attachments) w.
Proof.
  intros Hi. w_async; [done|]. w_skip; [by apply wp_value|]. w_next cached _. destruct cached as [pending|]; [|done].
  w_skip; [by apply wp_ensureMethodRoot|]. w_next. w_skip; [by eapply wp_callBuilders|]. w_next. w_skip; [by apply wp_value|]. w_next input _.
  w_seq; [by apply wp_appendDurable|]. w_next event He. destruct He as [Hd _]. w_skip; [by eapply wp_recordObservedHead|]. w_next.
  by eapply wp_broadcastLive.
Qed.

Lemma wp_cancel_call t reason w : inv w -> safe (cancel_call channelId t reason) w.
Proof.
  intros Hi. w_async; [done|]. w_skip; [by apply wp_awaitInFlightStart|]. w_next. w_skip; [by apply wp_value|]. w_next cached _. w_skip.
  { destruct cached; [done|]. w_seq; [by eapply wp_terminalEvent|]. w_next existing _. destruct existing; [done|].
    w_skip; [by apply wp_reconcile|]. w_next. by apply wp_value. }
  w_next pending _. destruct pending.
  - w_skip; [by eapply wp_callBuilders|]. w_next. w_skip; [by apply wp_value|]. w_next event _. w_skip; [by apply wp_settle|]. done.
  - w_skip; [by eapply wp_scheduleNextAlarm|]. done.
Qed.

Lemma wp_failPendingCallsTargeting target reason w : inv w -> safe (failPendingCallsTargeting channelId target reason) w.
Proof.
  intros Hi. w_async; [done|]. w_skip; [by apply wp_value|]. w_next rows _. w_skip; [|done].
  apply wp_each; [typeclasses eauto|done|]. intros row w1 _ _ Hi1.
  eapply wp_after; [typeclasses eauto|done|by apply wp_settle|]. done.
Qed.

Lemma redelivery_ok w target rows : Forall (sent_ok w) (map (redelivery channelId w target) rows).
Proof. induction rows; constructor; done. Qed.

Lemma wp_redeliver target w : inv w -> safe (redeliverPendingCallsTo channelId target) w.
Proof.
  intros Hi. w_skip; [by apply wp_value|]. w_next rows _. destruct rows as [|row rows]; [done|]. w_skip; [by eapply wp_callBuilders|]. w_next.
  apply safe_memory; [done|]. apply quiet_step; auto. intros d. cbn [w_sent set_sent]. rewrite in_app_iff. intros [?|Hd]; [by left|right].
  revert Hd. generalize (redelivery_ok w1 target (row :: rows)). rewrite List.Forall_forall. intros H Hd. exact (H d Hd).
Qed.

Lemma wp_timeoutExpired onTimeout w : inv w -> (forall pending message w, inv w -> safe (onTimeout pending message) w) ->
  safe (timeoutExpiredPendingCalls channelId onTimeout) w.
Proof.
  intros Hi Ht. w_async; [done|]. w_skip; [by apply wp_value|]. w_next expired _. apply wp_each; [typeclasses eauto|done|].
  intros row w1 _ _ Hi1. w_skip; [by apply wp_cancel_call|]. w_next pending _. destruct pending; [by apply Ht|done].
Qed.

(** * Replay *)

Lemma window_part_In L mode since before n e : In e (window_part L mode since before n) -> In e L.
Proof.
  rewrite <- !list_elem_of_In. unfold window_part. destruct mode.
  - apply subseteq_drop.
  - cbn zeta. destruct (n =? 0)%nat; [apply subseteq_drop|]. intros H. eapply subseteq_drop, subseteq_take, H.
  - cbn zeta. intros H. eapply subseteq_take, subseteq_drop, H.
Qed.

Lemma wp_replay_window mode since before limit w : inv w ->
  ends (replay_window channelId mode since before limit) (fun r w' => Forall (shows w') r.(re_logEvents)) w.
Proof.
  intros Hi. w_async. { intros r w1 w2 _ Hm _ H. eapply List.Forall_impl; [|exact H]. intros ev Hev. exact (shows_moves keep _ _ _ Hm Hev). }
  w_skip; [by apply wp_value|]. w_next context _. destruct context as [[[contextId channelConfig] roster] ts]. w_seq.
  { apply (query_log channelId keep _ _ (fun window w' => exists L, channel_log channelId w' L /\
      exists rows, window.(rw_envelopes) = map (channelEnvelopeView channelId) rows /\ forall e, In e rows -> In e L)).
    intros w2 window w3 L more _ Hi2 HL E _ _ HL3. exists (L ++ more). split; [done|]. eexists. split; [exact (cs_window _ _ _ _ _ _ _ _ (inv_store _ Hi2) HL E)|].
    intros e He%window_part_In. apply in_app_iff. by left. }
  w_next window Hw. destruct Hw as (L & HL & rows & Erows & Hrows). w_seq.
  { apply wp_query with (f := fun w => hydrate_views w.(w_blobs) window) (Q := fun views w' => Forall (shows w') (map eventFromChannelView views)); [typeclasses eauto|].
    intros w2 views w3 H2 Hi2 E H3 Hi3. unfold hydrate_views in E. rewrite Erows in E. apply List.Forall_map, List.Forall_forall. intros v Hv.
    destruct (res_map_In_inv _ _ _ _ E Hv) as (view & Hd & Hin). apply in_map_iff in Hin as (e & <- & He).
    destruct (replayed_shows _ _ _ _ Hd) as [E1 E2]. eapply (shows_moves keep); [by trans w2|]. exists L, e. auto. }
  w_next views Hv. exact Hv.
Qed.

Lemma queue_both_ok w subscriberId both message :
  match message with RpcLog _ event _ => shows w event | _ => True end -> Forall (sent_ok w) (queue_both subscriberId both message).
Proof. intros H. destruct both; repeat constructor; exact H. Qed.

Lemma wp_queueReplay subscriberId envelope both w : inv w -> Forall (shows w) envelope.(re_logEvents) ->
  safe (queueReplayEnvelope subscriberId envelope both) w.
Proof.
  intros Hi Hs. eapply wp_send; [typeclasses eauto|done|]. apply Forall_app_2; [|apply Forall_app_2; by apply queue_both_ok].
  induction Hs as [|ev l Hev _ IH]; [constructor|]. cbn [flat_map]. apply Forall_app_2; [by apply queue_both_ok|exact IH].
Qed.

(** * Joining and leaving *)

Lemma wp_publishPresenceEvent senderId action metadata reason w : inv w -> safe (publishPresenceEvent channelId senderId action metadata reason) w.
Proof.
  intros Hi. w_async; [done|]. w_seq; [by apply wp_appendDurable|]. w_next event He. destruct He as [Hd _]. by eapply wp_broadcastLive.
Qed.

Lemma wp_broadcastPresenceSignal senderId metadata w : inv w -> safe (broadcastPresenceSignal senderId metadata) w.
Proof. intros Hi. w_skip; [by apply wp_value|]. w_next event _. by eapply wp_broadcast. Qed.

Lemma wp_initChannel contextId config w : inv w -> safe (initChannel contextId config) w.
Proof.
  intros Hi. assert (H : moves w (set_keys (mkKeys w.(w_keys).(kv_objectKey) (Some contextId) (Some w.(w_now))
                     (if truthy config then json_stringify config else w.(w_keys).(kv_config))
                     w.(w_keys).(kv_reconciledThrough) w.(w_keys).(kv_sweptAt) w.(w_keys).(kv_policyState) w.(w_keys).(kv_forkedFrom) w.(w_keys).(kv_forkPointId)) w) /\
    inv (set_keys (mkKeys w.(w_keys).(kv_objectKey) (Some contextId) (Some w.(w_now))
                     (if truthy config then json_stringify config else w.(w_keys).(kv_config))
                     w.(w_keys).(kv_reconciledThrough) w.(w_keys).(kv_sweptAt) w.(w_keys).(kv_policyState) w.(w_keys).(kv_forkedFrom) w.(w_keys).(kv_forkPointId)) w)) by quiet.
  destruct H as [H1 H2]. apply wp_act_res; cbn zeta; destruct (truthy_opt _); try destruct (_ <>s? _); try done; by split.
Qed.

Lemma participants_step ps w : inv w -> roster_ok ps -> moves w (set_participants ps w) /\ inv (set_participants ps w).
Proof. intros Hi Hr. quiet. Qed.

Lemma wp_participants f w : inv w -> (forall w, inv w -> exists ps, f w = set_participants ps w /\ roster_ok ps) -> safe (modify f) w.
Proof. intros Hi Hf. destruct (Hf w Hi) as (ps & E & Hr). apply safe_memory; [done|]. rewrite E. by apply participants_step. Qed.

Lemma roster_filter f ps : roster_ok ps -> roster_ok (List.filter f ps).
Proof.
  intros [H1 H2]. assert (Hs : sublist (List.filter f ps) ps).
  { clear. induction ps as [|p ps IH]; simpl; [constructor|]. by destruct (f p); constructor. }
  split; [eapply sublist_NoDup; [exact H1|]|eapply sublist_NoDup; [exact H2|]]; clear - Hs; induction Hs as [|p l1 l2 _ IH|p l1 l2 _ IH]; simpl; try by constructor.
  - destruct (pa_handle p); [by constructor|done].
  - destruct (pa_handle p); [by constructor|done].
Qed.

Lemma roster_map f ps : (forall p, pa_id (f p) = pa_id p) -> (forall p, pa_handle (f p) = pa_handle p) -> roster_ok ps -> roster_ok (map f ps).
Proof.
  intros E1 E2 [H1 H2]. split.
  - rewrite map_map. erewrite map_ext; [exact H1|]. done.
  - assert (E : omap pa_handle (map f ps) = omap pa_handle ps); [|by rewrite E]. clear - E2. induction ps as [|p ps IH]; [done|].
    csimpl. rewrite E2, IH. done.
Qed.

Lemma wp_remove_participant pid w : inv w -> safe (modify (remove_participant pid)) w.
Proof. intros Hi. apply wp_participants; [done|]. intros w1 Hi1. eexists. split; [done|]. apply roster_filter, Hi1. Qed.

(** An update of a row that keeps its id and handle. *)
Lemma wp_map_participant pid (f : World -> ParticipantRow -> ParticipantRow) w : inv w ->
  (forall w p, pa_id (f w p) = pa_id p /\ pa_handle (f w p) = pa_handle p) -> safe (modify (fun w => map_participant pid (f w) w)) w.
Proof.
  intros Hi Hf. apply wp_participants; [done|]. intros w1 Hi1. eexists. split; [done|].
  apply roster_map; [..|apply Hi1]; intros p; destruct (_ =s? _); try done; apply Hf.
Qed.

Lemma insert_participant_step row w : inv w -> moves w (insert_participant row w).1 /\ inv (insert_participant row w).1.
Proof.
  intros Hi. unfold insert_participant. destruct (existsb _ _) eqn:E1; [by split|]. destruct (_ && _) eqn:E2; [by split|].
  apply participants_step; [done|]. destruct (inv_roster _ Hi) as [H1 H2]. split.
  - rewrite map_app. apply list.NoDup_app. split; [done|]. split; [|apply NoDup_singleton]. intros x Hx ->%list_elem_of_singleton.
    apply list_elem_of_In, in_map_iff in Hx as (p & Ep & Hp). assert (existsb (fun p => pa_id p =s? pa_id row) (w_participants w) = true); [|congruence].
    apply existsb_exists. exists p. split; [done|]. by apply String.eqb_eq.
  - rewrite omap_app. simpl. destruct (pa_handle row) as [h|] eqn:Eh; [|by rewrite app_nil_r]. cbn [isSome andb] in E2.
    apply list.NoDup_app. split; [done|]. split; [|apply NoDup_singleton]. intros x Hx ->%list_elem_of_singleton.
    apply list_elem_of_omap in Hx as (p & Hp%list_elem_of_In & Ep).
    assert (existsb (fun p => bool_decide (pa_handle p = Some h)) (w_participants w) = true); [|congruence].
    apply existsb_exists. exists p. split; [done|]. by apply bool_decide_eq_true.
Qed.

Lemma wp_insert_participant (row : World -> ParticipantRow) w : inv w -> safe (act_res (fun w => insert_participant (row w) w)) w.
Proof. intros Hi. by apply wp_act_res; apply insert_participant_step. Qed.

Lemma wp_throws A (r : res A) w : inv w -> safe (Done r) w.
Proof. by destruct r. Qed.

Lemma wp_subscribe caller participantId metadata resolved w : inv w -> safe (subscribe channelId caller participantId metadata resolved) w.
Proof.
  intros Hi. w_async; [done|]. w_skip; [by apply wp_throws|]. w_next.
  w_skip; [destruct (metadata.!"contextId"); try done; destruct (_ =s? ""); [done|by apply wp_initChannel]|]. w_next.
  w_skip; [by apply wp_value|]. w_next conflict _. w_skip; [by destruct conflict|]. w_next.
  w_skip; [destruct (_ && _); [by apply (wp_query _ _ _ (fun _ => resolved))|done]|]. w_next.
  w_skip; [by apply wp_value|]. w_next existing _. w_skip.
  { destruct existing as [row|]; [|done]. w_skip; [by apply wp_value|]. w_next old _. w_skip; [by apply wp_publishPresenceEvent|]. w_next.
    w_skip; [by apply wp_remove_participant|]. done. }
  w_next sessionReplaced _. w_skip; [by apply wp_insert_participant|]. w_next. w_skip; [by apply wp_publishPresenceEvent|]. w_next.
  w_seq; [instantiate (1 := fun r w' => Forall (shows w') r.(re_logEvents)); repeat case_match; by apply wp_replay_window|]. w_next envelope He.
  w_skip; [by apply wp_queueReplay|]. w_next. w_skip; [by apply wp_value|]. w_next vessel _.
  w_skip; [destruct (_ && _); [by apply wp_redeliver|done]|]. w_next. w_skip; [destruct (negb vessel); [by eapply wp_scheduleNextAlarm|done]|]. w_next.
  w_skip; [by apply wp_value|]. done.
Qed.

Lemma wp_unsubscribeParticipant participantId reason w : inv w -> safe (unsubscribeParticipant channelId participantId reason) w.
Proof.
  intros Hi. w_async; [done|]. w_skip; [by apply wp_value|]. w_next. w_skip; [by apply wp_remove_participant|]. w_next.
  w_skip; [by apply wp_failPendingCallsTargeting|]. w_next. w_skip; [by apply wp_publishPresenceEvent|]. w_next. by eapply wp_scheduleNextAlarm.
Qed.

Lemma wp_touch participantId w : inv w -> safe (touch participantId) w.
Proof. intros Hi. by apply (wp_map_participant participantId (fun w => with_connectedAt w.(w_now))). Qed.

Lemma wp_updateParticipantMetadata participantId metadata w : inv w -> safe (updateParticipantMetadata channelId participantId metadata) w.
Proof. intros Hi. w_async; [done|]. w_skip; [by apply (wp_map_participant participantId (fun _ => with_metadata _))|]. w_next. by apply wp_publishPresenceEvent. Qed.

Lemma wp_setParticipantTypingState participantId typing w : inv w -> safe (setParticipantTypingState participantId typing) w.
Proof.
  intros Hi. w_skip; [by apply wp_value|]. w_next row _. destruct row; [|done]. w_skip; [by apply wp_throws|]. w_next metadata _.
  w_skip; [by apply (wp_map_participant participantId (fun _ => with_metadata _))|]. w_next. by apply wp_broadcastPresenceSignal.
Qed.

(** * Publishing *)

Lemma dedup_step rows w : inv w -> (forall row, In row rows -> In row w.(w_dedup) \/ dedup_ok channelId w row) ->
  moves w (set_dedup rows w) /\ inv (set_dedup rows w).
Proof. intros Hi H. apply quiet_step; auto. Qed.

Lemma wp_release_key key w : inv w -> safe (modify (release_key key)) w.
Proof. intros Hi. apply safe_memory; [done|]. apply dedup_step; [done|]. intros row [H _]%filter_In. by left. Qed.

Lemma wp_store_result key id w : inv w -> at_seq w ("ik:" ^^ key) id -> safe (modify (store_result key id)) w.
Proof.
  intros Hi Hat. apply safe_memory; [done|]. apply dedup_step; [done|]. intros row (r & <- & Hr)%in_map_iff. cbn beta.
  destruct (dk_key r =s? key); [right|by left]. exact Hat.
Qed.

Lemma wp_open_publish key w : inv w -> ends (open_publish key) (fun promise _ => promise.1 = key) w.
Proof.
  intros Hi. unfold open_publish, act. cbn [wp]. cbn [fst snd].
  assert (H : moves w (reserve_key key w) /\ inv (reserve_key key w)).
  { unfold reserve_key. destruct (isSome _); [by split|]. apply dedup_step; [done|]. intros row. rewrite in_app_iff.
    intros [?|[<-|[]]]; [by left|by right]. }
  assert (H2 : let w' := reserve_key key w in
    moves w (set_nextPromise (S w.(w_nextPromise)) (set_publishInFlight (dict_set key (key, w.(w_nextPromise)) w.(w_publishInFlight)) w')) /\
    inv (set_nextPromise (S w.(w_nextPromise)) (set_publishInFlight (dict_set key (key, w.(w_nextPromise)) w.(w_publishInFlight)) w'))).
  { cbn zeta. eapply then_step; [exact H|]. intros Hi1. apply quiet_step; auto. intros k p. cbn [w_publishInFlight set_publishInFlight set_nextPromise].
    destruct (decide (k = key)) as [->|Hne]; [rewrite dict_get_set_eq; intros [= <-]; by right|].
    rewrite dict_get_set_ne by done. unfold reserve_key. destruct (isSome _); by left. }
  destruct H2 as [H2 H3]. by split; [|split].
Qed.

(** What a publish under way promises. *)
Lemma wp_close_publish key promise r w : inv w -> promise.1 = key ->
  match r with Ok event => at_seq w ("ik:" ^^ key) event.(ce_id) | _ => True end -> safe (close_publish key promise r) w.
Proof.
  intros Hi Ek Hr. set (outcome := match r with Ok event => Ok (Some event) | Throw e => Throw e end).
  apply safe_memory; [done|]. eapply (then_step _ (set_promises (w.(w_promises) ++ [(promise, outcome)]) w)).
  - apply quiet_step; auto. intros p. cbn. rewrite in_app_iff. intros [?|[<-|[]]]; [by left|right]. unfold promise_ok, outcome. cbn.
    destruct r; [|done]. by rewrite Ek.
  - intros Hi1. cbn zeta beta. fold outcome. destruct (bool_decide _); [|by split]. apply quiet_step; auto. intros k p. cbn [w_publishInFlight set_publishInFlight].
    destruct (decide (k = key)) as [->|Hne]; [by rewrite dict_get_del_eq|rewrite dict_get_del_ne by done; by left].
Qed.

(** The place of a publish with a key. *)
Definition keyed (key : option string) (n : Z) w : Prop := forall k, key = Some k -> at_seq w ("ik:" ^^ k) n.

Lemma wp_runDedupedPublish key (p : prog ChannelEvent) w : inv w -> truthy_opt key = key ->
  (forall w, inv w -> ends p (appended channelId (option_map (fun k => "ik:" ^^ k) key)) w) ->
  ends (runDedupedPublish key p) (fun event w' => durable w' event /\ keyed key event.(ce_id) w') w.
Proof.
  intros Hi Ek Hp. w_async.
  { intros event w1 w2 _ Hm _ [Hd Hk]. split; [by eapply durable_moves|]. intros k E. eapply at_seq_moves; [done|by apply Hk]. }
  rewrite Ek. destruct key as [key|]; [|eapply wp_ok; [typeclasses eauto|done|by apply Hp|]; intros event w1 _ _ [Hd _]; by split].
  w_seq; [by apply wp_open_publish|]. w_next promise Epr.
  eapply wp_after; [typeclasses eauto|done|by apply Hp|]. intros r w2 _ Hi2 Hr. destruct r as [event|err]; cbn [okp] in Hr.
  - destruct Hr as [Hd Hat]. specialize (Hat _ eq_refl). w_skip; [by apply wp_store_result|]. w_next.
    w_skip; [by eapply wp_scheduleNextAlarm|]. w_next. w_skip; [by apply wp_close_publish|]. w_next. split; [done|]. by intros k [= <-].
  - w_skip; [by apply wp_release_key|]. w_next. w_skip; [by apply wp_close_publish|]. done.
Qed.

Lemma keyed_moves key n w w' : moves w w' -> keyed key n w -> keyed key n w'.
Proof. intros Hm H k E. eapply at_seq_moves; [done|by apply H]. Qed.

Lemma truthy_twice o : truthy_opt (truthy_opt o) = truthy_opt o.
Proof. destruct o as [s|]; [|done]. cbn. destruct (s =s? "") eqn:E; cbn; [done|by rewrite E]. Qed.

Lemma wp_publish_new participantId type payload opts w : inv w ->
  ends (publish_new channelId participantId type payload opts) (keyed (truthy_opt opts.(po_idempotencyKey))) w.
Proof.
  intros Hi. w_skip; [by apply wp_value|]. w_next senderMetadata _. w_seq.
  { apply wp_runDedupedPublish; [done|apply truthy_twice|]. intros w2 Hi2. by apply wp_appendDurable. }
  w_next event He. destruct He as [Hd Hk]. w_skip; [by eapply wp_broadcastLive|]. intros _ w3 Hm _ _. by eapply keyed_moves.
Qed.

Lemma wp_await_publish key promise w : inv w -> promise.1 = key ->
  ends (await_publish promise) (fun event w' => at_seq w' ("ik:" ^^ key) event.(ce_id)) w.
Proof.
  intros Hi Ek. unfold await_publish. cbn [wp]. intros w1 _ Hi1 _. split; [reflexivity|]. split; [done|]. cbn.
  destruct (List.find _ _) as [[pr [[event|]|err]]|] eqn:E; try done. apply find_some in E as [Hin Ep%bool_decide_eq_true].
  pose proof (inv_promises _ Hi1 _ Hin) as H. cbn in Ep. subst pr. unfold promise_ok in H. cbn in H. by rewrite Ek in H.
Qed.

Lemma wp_publish caller participantId type payload opts w : inv w ->
  ends (publish channelId caller participantId type payload opts) (keyed (truthy_opt opts.(po_idempotencyKey))) w.
Proof.
  intros Hi. w_skip; [by apply wp_throws|]. w_next. destruct (truthy_opt _) as [key|] eqn:Ek.
  2: { rewrite <- Ek. by apply wp_publish_new. }
  w_seq; [apply (wp_get _ _ _ _ (fun o w' => match o with
      | Some row => row.(dk_key) = key /\ dedup_ok channelId w' row | None => True end)); [done|]|].
  { destruct (dedup_row w0 key) as [row|] eqn:E; [|done]. apply find_some in E as [Hin E%String.eqb_eq]. split; [done|]. by apply (inv_dedup _ Hi0). }
  intros existing w2 Hm2 Hi2 He. destruct (existing ≫= dk_resultId) as [id|] eqn:Eid.
  { destruct existing as [row|]; [|done]. cbn in Eid. destruct He as [E He]. unfold dedup_ok in He. rewrite Eid, E in He. by intros k [= <-]. }
  w_seq; [apply (wp_get _ _ _ _ (fun o _ => match o with Some promise => promise.1 = key | None => True end)); [done|]|].
  { destruct (dict_get key _) eqn:E; [|done]. by apply (inv_publishing _ Hi2) in E. }
  w_next inFlight Hp. destruct inFlight as [promise|].
  - w_seq; [by apply (wp_await_publish key)|]. w_next event Hat. by intros k [= <-].
  - w_skip; [destruct (isSome existing); [by apply wp_release_key|done]|]. w_next. rewrite <- Ek. by apply wp_publish_new.
Qed.

Lemma wp_broadcastStored ids w : inv w -> safe (broadcastStoredEnvelopes channelId ids) w.
Proof.
  revert w. induction ids as [|id ids IH]; intros w Hi; [done|]. cbn [broadcastStoredEnvelopes]. destruct (id =s? ""); [by apply IH|].
  w_seq; [by eapply wp_getEvent|]. w_next event H. destruct event as [event|]; [|by apply IH]. destruct H as [Hd _].
  destruct (policyViewFromChannelEvent event) as [view|] eqn:Ev; [|done]. change (wp moves inv (foldAppended view ;; broadcastLive event None ;;
    (let* broadcasted := broadcastStoredEnvelopes channelId ids in ret (S broadcasted))) (okp (fun _ _ => True)) w0).
  w_skip; [by eapply wp_foldAppended|]. w_next. w_skip; [by eapply wp_broadcastLive|]. w_next. w_skip; [by apply IH|]. done.
Qed.

Lemma wp_error caller participantId messageId message code w : inv w -> safe (error channelId caller participantId messageId message code) w.
Proof.
  intros Hi. w_skip; [by apply wp_throws|]. w_next. w_skip; [by apply wp_value|]. w_next. w_seq; [by apply wp_appendDurable|].
  w_next event He. destruct He as [Hd _]. by eapply wp_broadcastLive.
Qed.

Lemma wp_sendSignal caller participantId content contentType w : inv w -> safe (sendSignal caller participantId content contentType) w.
Proof. intros Hi. w_skip; [by apply wp_throws|]. w_next. w_skip; [by apply wp_value|]. w_next event _. by eapply wp_broadcast. Qed.

Lemma wp_updateConfig config w : inv w -> safe (updateConfig channelId config) w.
Proof.
  intros Hi. w_skip.
  { set (f := fun w : World => set_config (json_stringify (VObj (dict_merge (fields (default VUndef (getChannelConfig w))) (fields config)))) w).
    assert (H : moves w (f w) /\ inv (f w)) by quiet. destruct H as [H1 H2]. by split; [|split]. }
  w_next newConfig _. w_skip; [apply safe_memory; [done|quiet]|]. w_next. w_seq; [by apply wp_appendDurable|].
  w_next event He. destruct He as [Hd _]. w_skip; [by eapply wp_broadcastLive|]. done.
Qed.

(** * The entry points of calls *)

Lemma wp_submitMethodResult caller participantId t content isError invocationId turnId opts w : inv w ->
  ends (submitMethodResult channelId caller participantId t content isError invocationId turnId opts) (settled w t) w.
Proof.
  intros Hi. w_skip; [by apply wp_throws|]. w_next. w_seq; [by apply wp_resolveSubmitter|]. w_next resolution H.
  destruct resolution as [pending|n|]; [|exact H|].
  - eapply wp_ok; [typeclasses eauto|done|by apply wp_settleCall|]. intros [n|] w2 _ _ Hs; [done|]. intros n Hn. apply (Hs n).
    eapply at_seq_moves; [|done]. done.
  - eapply wp_ok; [typeclasses eauto|done|by apply wp_settleMissingCall|]. intros [n|] w2 _ _ Hs; [done|]. intros n Hn. apply (Hs n).
    eapply at_seq_moves; [|done]. done.
Qed.

Lemma wp_submitMethodProgress caller participantId t content attachments w : inv w ->
  safe (submitMethodProgress channelId caller participantId t content attachments) w.
Proof.
  intros Hi. w_skip; [by apply wp_throws|]. w_next. w_seq; [by apply wp_resolveSubmitter|]. w_next resolution _.
  destruct resolution; [by apply wp_append_progress|done..].
Qed.

Lemma wp_cancelMethodCall t w : inv w -> safe (cancelMethodCall channelId t) w.
Proof. intros Hi. w_skip; [by apply wp_cancel_call|]. done. Qed.

Lemma wp_feedback targetId t method message w : inv w -> safe (publishMethodCallFeedback channelId targetId t method message) w.
Proof.
  intros Hi. eapply wp_after with (Q1 := fun _ _ => True); [typeclasses eauto|done| |done].
  w_skip; [by apply wp_value|]. w_next event _. w_seq; [by apply wp_appendDurable|]. w_next logged He. destruct He as [Hd _]. by eapply wp_broadcastLive.
Qed.

Lemma wp_timeoutMethodCall t reason w : inv w -> safe (timeoutMethodCall channelId t reason) w.
Proof.
  intros Hi. w_skip; [by apply wp_cancel_call|]. w_next pending _. destruct pending; [by apply wp_feedback|done].
Qed.

(** * The alarm *)

Lemma wp_evictStale w : inv w -> safe (evictStaleParticipants channelId) w.
Proof.
  intros Hi. w_async; [done|]. w_skip; [by apply wp_value|]. w_next stale _. w_skip.
  { apply wp_each; [typeclasses eauto|done|]. intros p w2 _ _ Hi2. cbn zeta. w_skip; [by apply wp_remove_participant|]. w_next.
    w_skip; [by apply wp_failPendingCallsTargeting|]. w_next. by apply wp_publishPresenceEvent. }
  w_next. destruct stale; [done|by eapply wp_scheduleNextAlarm].
Qed.

Lemma wp_redelivery_sweep w : inv w -> safe (redelivery_sweep channelId) w.
Proof.
  intros Hi. w_skip; [by apply wp_value|]. w_next pendingCount _. destruct (_ <? _)%nat; [|apply safe_memory; [done|quiet]].
  w_skip; [|w_next; apply safe_memory; [done|quiet]]. w_skip; [by apply wp_value|]. w_next targets _.
  apply wp_each; [typeclasses eauto|done|]. intros target w3 _ _ Hi3. by apply wp_redeliver.
Qed.

Lemma wp_alarm w : inv w -> safe (alarm channelId) w.
Proof.
  intros Hi. w_skip; [apply safe_memory; [done|quiet]|]. w_next. w_skip; [by apply wp_evictStale|]. w_next.
  w_skip; [apply safe_memory; [done|]; apply dedup_step; [done|]; intros row [H _]%filter_In; by left|]. w_next.
  w_skip; [by apply wp_timeoutExpired; [|intros; apply wp_feedback]|]. w_next.
  w_skip; [by eapply wp_after; [typeclasses eauto|done|by apply wp_reconcile|]|]. w_next.
  w_skip; [by eapply wp_after; [typeclasses eauto|done|by apply wp_redelivery_sweep|]|]. w_next. by eapply wp_scheduleNextAlarm.
Qed.
End Safety.
