(* ===== verification/ChannelSystem.v ===== *)
(** The channel as a system: requests that run one among others between awaits, the
    answers of the agents it calls, the alarm, everyone else who writes to the log, and
    crashes. *)
From stdpp Require Import gmap relations.
From S2P Require Import Prelude Dict JsValue JsText JsJson AgentEffects JsAsync.
From S2P Require Import GadCanon GadRefs GadLog GadLogLaws GadTables GadReplay GadWindow GadStored ChannelState ChannelPolicy ChannelCalls ChannelDo.
From S2P Require Import ChannelLaws ChannelAppends ChannelSafety.
#[local] Open Scope Z_scope.

(** The requests a channel serves. *)
Inductive Op :=
| OpSubscribe (caller : option Caller) (participantId : string) (metadata : val) (resolved : res unit)
| OpUnsubscribe (caller : option Caller) (participantId : string)
| OpAdminUnsubscribe (caller : option Caller) (participantId : string)
| OpTouch (participantId : string)
| OpUpdateMetadata (caller : option Caller) (participantId : string) (metadata : val)
| OpAdminUpdateMetadata (caller : option Caller) (participantId : string) (metadata : val)
| OpSetTyping (caller : option Caller) (participantId : string) (typing : bool)
| OpAdminSetTyping (caller : option Caller) (participantId : string) (typing : bool)
| OpPublish (caller : option Caller) (participantId type : string) (payload : val) (opts : PublishOptions)
| OpBroadcastStored (envelopeIds : list string)
| OpError (caller : option Caller) (participantId messageId message : string) (code : option string)
| OpSignal (caller : option Caller) (participantId content : string) (contentType : option string)
| OpUpdateConfig (config : val)
| OpCallMethod (callerPid targetPid callId method : string) (args : val) (opts : CallOptions)
| OpSubmitResult (caller : option Caller) (participantId transportCallId : string) (content : val) (isError : bool)
    (invocationId turnId : option string) (opts : SettleOptions)
| OpSubmitProgress (caller : option Caller) (participantId transportCallId : string) (content attachments : val)
| OpCancel (callId : string)
| OpTimeout (callId : string) (reason : option string)
| OpReplay (mode : ReplayMode) (since before limit : option Z)
| OpPolicyState (name : string)
| OpDelivered (delivery : MethodDelivery) (answer : res val)
| OpAlarm.

Section System.
Context {G B : Type} `{!ChannelStore G, !ChannelStoreLaws G, !TextBlobs B}.
Context (channelId : string).
Abbreviation World := (World G B).
Abbreviation prog := (prog World).
Implicit Types w : World.

(** A request whose answer is no place in the log. *)
Definition no_place {A} (p : prog A) : prog (option Z) := p ;; ret None.

Definition op_prog (op : Op) : prog (option Z) :=
  match op with
  | OpSubscribe caller pid metadata resolved => no_place (subscribe channelId caller pid metadata resolved)
  | OpUnsubscribe caller pid => no_place (unsubscribe channelId caller pid)
  | OpAdminUnsubscribe caller pid => no_place (adminUnsubscribeParticipant channelId caller pid)
  | OpTouch pid => no_place (touch pid)
  | OpUpdateMetadata caller pid metadata => no_place (updateMetadata channelId caller pid metadata)
  | OpAdminUpdateMetadata caller pid metadata => no_place (adminUpdateParticipantMetadata channelId caller pid metadata)
  | OpSetTyping caller pid typing => no_place (setTypingState caller pid typing)
  | OpAdminSetTyping caller pid typing => no_place (adminSetParticipantTypingState caller pid typing)
  | OpPublish caller pid type payload opts => let* id := publish channelId caller pid type payload opts in ret (Some id)
  | OpBroadcastStored ids => no_place (broadcastStoredEnvelopes channelId ids)
  | OpError caller pid messageId message code => no_place (error channelId caller pid messageId message code)
  | OpSignal caller pid content contentType => no_place (sendSignal caller pid content contentType)
  | OpUpdateConfig config => no_place (updateConfig channelId config)
  | OpCallMethod callerPid targetPid callId method args opts =>
      no_place (callMethod channelId callerPid targetPid callId method args opts)
  | OpSubmitResult caller pid t content isError invocationId turnId opts =>
      submitMethodResult channelId caller pid t content isError invocationId turnId opts
  | OpSubmitProgress caller pid t content attachments =>
      no_place (submitMethodProgress channelId caller pid t content attachments)
  | OpCancel callId => no_place (cancelMethodCall channelId callId)
  | OpTimeout callId reason => no_place (timeoutMethodCall channelId callId reason)
  | OpReplay mode since before limit => no_place (replay_window channelId mode since before limit)
  | OpPolicyState name => no_place (getState channelId name)
  | OpDelivered delivery answer => no_place (deliverDoMethodCall channelId delivery answer)
  | OpAlarm => no_place (alarm channelId)
  end.

(** The envelope the answer of a request is the place of: the end of the call, or the
    event with the idempotency key. *)
Definition op_subject (op : Op) : option string :=
  match op with
  | OpPublish _ _ _ _ opts => option_map (fun k => "ik:" ^^ k) (truthy_opt opts.(po_idempotencyKey))
  | OpSubmitResult _ _ t _ _ _ _ _ => Some (terminalId t)
  | _ => None
  end.

(** * Configurations *)

(** The requests under way, and the places answered so far. *)
Record Config := mkConfig {
  cf_world : World;
  cf_threads : list (Op * prog (option Z));
  cf_answers : list (Op * Z)
}.

Definition all_parked (threads : list (Op * prog (option Z))) : Prop := Forall (fun t => parked t.2 = true) threads.

(** The rest of the world moves: the log grows, blobs come, time passes. *)
Definition outside (g : G) (b : B) (now : Z) (uuid storeNow : string) w : World :=
  mkWorld g b now uuid storeNow w.(w_participants) w.(w_calls) w.(w_dedup) w.(w_keys) w.(w_alarm) w.(w_policies)
    w.(w_startInFlight) w.(w_publishInFlight) w.(w_promises) w.(w_nextPromise) w.(w_tasks) w.(w_sent).

Definition answer_of (op : Op) (r : res (option Z)) : list (Op * Z) := match r with Ok (Some n) => [(op, n)] | _ => [] end.

Inductive step : Config -> Config -> Prop :=
| step_request op w threads answers : all_parked threads ->
    step (mkConfig w threads answers) (mkConfig w (threads ++ [(op, op_prog op)]) answers)
| step_run op p p' w w' before after answers : all_parked (before ++ after) -> pstep p w = Some (w', p') ->
    step (mkConfig w (before ++ (op, p) :: after) answers) (mkConfig w' (before ++ (op, p') :: after) answers)
| step_answer op r w before after answers :
    step (mkConfig w (before ++ (op, Done r) :: after) answers) (mkConfig w (before ++ after) (answers ++ answer_of op r))
| step_delivered delivery answer before after w threads answers :
    all_parked threads -> w.(w_tasks) = before ++ delivery :: after ->
    step (mkConfig w threads answers)
         (mkConfig (set_tasks (before ++ after) w)
            (threads ++ [(OpDelivered delivery answer, op_prog (OpDelivered delivery answer))]) answers)
| step_outside g b now uuid storeNow w threads answers :
    all_parked threads -> cs_ok g -> (forall L, channel_log channelId w L -> exists more, cs_log g channelId (L ++ more)) ->
    w.(w_now) <= now ->
    step (mkConfig w threads answers) (mkConfig (outside g b now uuid storeNow w) threads answers)
| step_fatal pid code w threads answers : all_parked threads ->
    step (mkConfig w threads answers) (mkConfig (removeParticipantOnFatalDelivery pid code w) threads answers)
| step_crash w threads answers : step (mkConfig w threads answers) (mkConfig (crash w) [] answers).

(** A channel no one has used. *)
Record unused w : Prop := {
  un_store : cs_ok w.(w_store);
  un_sent : w.(w_sent) = [];
  un_dedup : w.(w_dedup) = [];
  un_promises : w.(w_promises) = [];
  un_caches : w.(w_keys).(kv_policyState) = [];
  un_publishing : w.(w_publishInFlight) = [];
  un_participants : w.(w_participants) = []
}.

(** A channel cloned from another starts with a copy of what the other stored: its rows,
    its keys, its fold states. Nothing of it is in memory. *)
Record copied w : Prop := {
  cp_store : cs_ok w.(w_store);
  cp_sent : w.(w_sent) = [];
  cp_promises : w.(w_promises) = [];
  cp_publishing : w.(w_publishInFlight) = [];
  cp_policies : w.(w_policies) = None
}.

(** [postClone] under way: its steps, and moves of the rest of the world at its awaits.
    No request is served meanwhile: nobody is told of a clone before it is done. *)
Inductive clone_step : World * prog unit -> World * prog unit -> Prop :=
| clone_runs p p' w w' : pstep p w = Some (w', p') -> clone_step (w, p) (w', p')
| clone_outside g b now uuid storeNow p w :
    parked p = true -> cs_ok g -> (forall L, channel_log channelId w L -> exists more, cs_log g channelId (L ++ more)) ->
    w.(w_now) <= now -> clone_step (w, p) (outside g b now uuid storeNow w, p).

Lemma steps_clone n p w : rtc clone_step (w, p) ((steps n p w).1, (steps n p w).2).
Proof.
  revert p w. induction n as [|n IH]; intros p w; simpl; [reflexivity|]. destruct (pstep p w) as [[w1 p1]|] eqn:E; [|reflexivity].
  eapply rtc_l; [by apply clone_runs|]. apply IH.
Qed.

Inductive reachable : Config -> Prop :=
| reachable_start w : unused w -> reachable (mkConfig w [] [])
| reachable_clone parentChannelId forkPointId newContextId w w' :
    copied w -> 0 <= forkPointId ->
    rtc clone_step (w, postClone channelId parentChannelId forkPointId newContextId) (w', Done (Ok tt)) ->
    reachable (mkConfig w' [] [])
| reachable_step c c' : reachable c -> step c c' -> reachable c'.

(** A request served to its end, alone, in at most this many steps. *)
Definition serve (fuel : nat) (op : Op) (c : Config) : Config :=
  let served := steps fuel (op_prog op) c.(cf_world) in
  match outcome served.2 with
  | Some r => mkConfig served.1 [] (c.(cf_answers) ++ answer_of op r)
  | None => c
  end.

Lemma steps_reachable n op p w answers : reachable (mkConfig w [(op, p)] answers) ->
  reachable (mkConfig (steps n p w).1 [(op, (steps n p w).2)] answers).
Proof.
  revert p w. induction n as [|n IH]; intros p w H; simpl; [done|]. destruct (pstep p w) as [[w1 p1]|] eqn:E; [|done].
  apply IH. eapply reachable_step; [exact H|]. exact (step_run op p p1 w w1 [] [] answers (List.Forall_nil _) E).
Qed.

Lemma serve_reachable fuel op c : c.(cf_threads) = [] -> reachable c -> reachable (serve fuel op c) /\ (serve fuel op c).(cf_threads) = [].
Proof.
  intros Et Hc. unfold serve. destruct (outcome _) as [r|] eqn:Eo; [|done]. split; [|done]. apply outcome_Done in Eo.
  destruct c as [w threads answers]. cbn [cf_threads cf_world cf_answers] in *. subst threads.
  assert (H1 : reachable (mkConfig w [(op, op_prog op)] answers)).
  { eapply reachable_step; [exact Hc|]. apply (step_request op w [] answers). constructor. }
  apply (steps_reachable fuel) in H1. rewrite Eo in H1. eapply reachable_step; [exact H1|].
  exact (step_answer op r _ [] [] answers).
Qed.

(** * What holds of every configuration *)

Context (Hchannel : cs_channel channelId).

Definition anyhow w w' : Prop := True.

#[local] Instance anyhow_keep : KeepAll channelId anyhow.
Proof. by split; [split|]. Qed.

Abbreviation inv := (@inv G B _ _ _ channelId).
Abbreviation at_seq := (@at_seq G B _ _ channelId).
Abbreviation moves := (@moves G B _ _ channelId anyhow).
Abbreviation ends p Q w := (wp moves inv p (okp Q) w).

Definition placed (op : Op) (o : option Z) w : Prop :=
  forall id n, op_subject op = Some id -> o = Some n -> at_seq w id n.

Lemma placed_moves op o w w' : moves w w' -> placed op o w -> placed op o w'.
Proof. intros Hm H id n E1 E2. eapply at_seq_moves; [exact Hm|by apply H]. Qed.

Lemma wp_no_place A (p : prog A) op w : inv w -> ends p (fun _ _ => True) w -> ends (no_place p) (placed op) w.
Proof. intros Hi Hp. eapply wp_seq; [typeclasses eauto|done|done|]. intros a w' _ _ _ id n _ E. done. Qed.

Lemma wp_asserted A (r : res unit) (p : prog A) Q w : inv w -> ends p Q w -> ends (let* _ := Done r in p) Q w.
Proof. intros Hi Hp. by destruct r. Qed.

Lemma wp_op op w : inv w -> ends (op_prog op) (placed op) w.
Proof.
  intros Hi. destruct op; cbn [op_prog].
  - apply wp_no_place; [done|]. by apply wp_subscribe.
  - apply wp_no_place; [done|]. apply wp_asserted; [done|]. by apply wp_unsubscribeParticipant.
  - apply wp_no_place; [done|]. apply wp_asserted; [done|]. by apply wp_unsubscribeParticipant.
  - apply wp_no_place; [done|]. by apply wp_touch.
  - apply wp_no_place; [done|]. apply wp_asserted; [done|]. by apply wp_updateParticipantMetadata.
  - apply wp_no_place; [done|]. apply wp_asserted; [done|]. by apply wp_updateParticipantMetadata.
  - apply wp_no_place; [done|]. apply wp_asserted; [done|]. by apply wp_setParticipantTypingState.
  - apply wp_no_place; [done|]. apply wp_asserted; [done|]. by apply wp_setParticipantTypingState.
  - eapply wp_seq; [typeclasses eauto|done|by apply wp_publish|]. intros n w' _ _ Hk id n' E [= <-]. cbn in E.
    destruct (truthy_opt _) as [k|]; [|done]. injection E as <-. by apply Hk.
  - apply wp_no_place; [done|]. by apply wp_broadcastStored.
  - apply wp_no_place; [done|]. by apply wp_error.
  - apply wp_no_place; [done|]. by apply wp_sendSignal.
  - apply wp_no_place; [done|]. by apply wp_updateConfig.
  - apply wp_no_place; [done|]. by apply wp_callMethod.
  - eapply wp_ok; [typeclasses eauto|done|by apply wp_submitMethodResult|]. intros o w' _ _ Hs id n [= <-] ->. exact Hs.
  - apply wp_no_place; [done|]. by apply wp_submitMethodProgress.
  - apply wp_no_place; [done|]. by apply wp_cancelMethodCall.
  - apply wp_no_place; [done|]. by apply wp_timeoutMethodCall.
  - apply wp_no_place; [done|]. eapply wp_ok; [typeclasses eauto|done|by eapply wp_replay_window|done].
  - apply wp_no_place; [done|]. eapply wp_ok; [typeclasses eauto|done|by eapply wp_getState|done].
  - apply wp_no_place; [done|]. by apply wp_deliverDoMethodCall.
  - apply wp_no_place; [done|]. by apply wp_alarm.
Qed.

Record config_ok (c : Config) : Prop := {
  ok_world : inv c.(cf_world);
  ok_threads : Forall (fun t => ends t.2 (placed t.1) c.(cf_world)) c.(cf_threads);
  ok_answers : Forall (fun t => placed t.1 (Some t.2) c.(cf_world)) c.(cf_answers)
}.

(** Those who wait are not disturbed. *)
Lemma threads_moves w w' threads : moves w w' -> all_parked threads ->
  Forall (fun t => ends t.2 (placed t.1) w) threads -> Forall (fun t => ends t.2 (placed t.1) w') threads.
Proof.
  intros Hm Hp H. induction H as [|t l Ht _ IH]; [constructor|]. apply list.Forall_cons in Hp as [Hpt Hpl]. constructor; [|by apply IH].
  apply wp_parked with w; [typeclasses eauto|done| |done|done]. intros [o|]; [|done]. by apply placed_moves.
Qed.

Lemma answers_moves w w' (answers : list (Op * Z)) : moves w w' ->
  Forall (fun t => placed t.1 (Some t.2) w) answers -> Forall (fun t => placed t.1 (Some t.2) w') answers.
Proof. intros Hm. apply List.Forall_impl. intros t. by apply placed_moves. Qed.

Lemma world_moves w w' threads answers : moves w w' /\ inv w' -> all_parked threads ->
  config_ok (mkConfig w threads answers) -> config_ok (mkConfig w' threads answers).
Proof. intros [Hm Hi] Hp [_ Ht Ha]. constructor; [done|by apply threads_moves with w|by apply answers_moves with w]. Qed.

Lemma with_thread op w threads answers : config_ok (mkConfig w threads answers) ->
  config_ok (mkConfig w (threads ++ [(op, op_prog op)]) answers).
Proof.
  intros [Hi Ht Ha]. constructor; [done| |done]. apply Forall_app_2; [done|]. constructor; [|constructor]. by apply wp_op.
Qed.

Lemma outside_step g b now uuid storeNow w : inv w -> cs_ok g ->
  (forall L, channel_log channelId w L -> exists more, cs_log g channelId (L ++ more)) ->
  moves w (outside g b now uuid storeNow w) /\ inv (outside g b now uuid storeNow w).
Proof.
  intros Hi Hg He. assert (Hx : extends channelId w (outside g b now uuid storeNow w)) by exact He. split; [by split|].
  by eapply inv_step; eauto.
Qed.

Lemma config_step_ok c c' : step c c' -> config_ok c -> config_ok c'.
Proof.
  intros Hs. destruct Hs as [op w threads answers Hp|op p p' w w' before after answers Hp E|op r w before after answers
    |delivery answer before after w threads answers Hp E|g b now uuid storeNow w threads answers Hp Hg He _|pid code w threads answers Hp|w threads answers];
    intros Hc; pose proof Hc as [Hi Ht Ha]; cbn [cf_world cf_threads cf_answers] in *.
  - by apply with_thread.
  - apply list.Forall_app in Ht as [Hb [Ht Haf]%list.Forall_cons]. apply list.Forall_app in Hp as [Hpb Hpa]. cbn [fst snd] in Ht.
    destruct (wp_step _ _ _ _ _ _ _ _ Hi (reflexivity w) Ht E) as [[Hm Hi'] Ht']. constructor; [done| |by apply answers_moves with w].
    apply Forall_app_2; [by apply threads_moves with w|]. constructor; [done|by apply threads_moves with w].
  - apply list.Forall_app in Ht as [Hb [Ht Haf]%list.Forall_cons]. constructor; [done|by apply Forall_app_2|].
    apply Forall_app_2; [done|]. cbn in Ht. destruct r as [[n|]|]; constructor; [exact Ht|constructor].
  - apply with_thread. eapply world_moves; [|done|exact Hc]. quiet.
  - eapply world_moves; [by apply outside_step|done|done].
  - eapply world_moves; [|done|exact Hc]. unfold removeParticipantOnFatalDelivery. destruct (fatal_delivery code); [|by split].
    apply quiet_step; auto. right. apply roster_filter, Hi.
  - destruct (crash_moves channelId anyhow w Hi) as [Hm Hi']. constructor; [done|constructor|by apply answers_moves with w].
Qed.

Lemma unused_ok w : unused w -> config_ok (mkConfig w [] []).
Proof.
  intros [H1 H2 H3 H4 H5 H6 H7]. constructor; [|constructor|constructor]. cbn [cf_world].
  constructor; rewrite ?H2, ?H3, ?H4, ?H5, ?H6, ?H7; try done. split; constructor.
Qed.

(** * Clones *)

(** What holds while [postClone] runs: before the fold states of the parent are dropped,
    nothing was sent or promised; then the invariant. *)
Definition cloning (dropped : bool) w : Prop :=
  if dropped then inv w else
    cs_ok w.(w_store) /\ w.(w_sent) = [] /\ w.(w_promises) = [] /\ w.(w_publishInFlight) = [].

Definition others (dropped : bool) w w' : Prop :=
  if dropped then moves w w' else exists g b now uuid storeNow, w' = outside g b now uuid storeNow w.

Definition freely (t : bool) w (t' : bool) w' : Prop := True.
Definition everywhere w : Prop := True.
Definition dropped_at_end (r : res unit) (t : bool) w : Prop := r = Ok tt -> t = true.

Abbreviation cl p Q t w := (owp others freely cloning everywhere p Q t w).

Lemma others_refl t w : everywhere w -> cloning t w -> others t w w.
Proof.
  intros _ _. destruct t; simpl; [reflexivity|]. exists w.(w_store), w.(w_blobs), w.(w_now), w.(w_uuid), w.(w_storeNow). by destruct w.
Qed.

Lemma others_trans t w1 w2 w3 : others t w1 w2 -> others t w2 w3 -> others t w1 w3.
Proof.
  destruct t; simpl; [intros; by trans w2|]. intros (g & b & now & uuid & sn & ->) (g' & b' & now' & uuid' & sn' & ->).
  by exists g', b', now', uuid', sn'.
Qed.

(** The conversation policy is the only one: whatever the channel selects, its state is
    dropped. *)
Lemma resolved_conversation names resolved : resolveChannelPolicies names = Ok resolved -> In conversationV1Policy resolved.
Proof.
  unfold resolveChannelPolicies. set (l := match names with Some ((_ :: _) as names) => names | _ => DEFAULT_CHANNEL_POLICIES end).
  assert (Hl : l <> []) by (unfold l; repeat case_match; done). intros (ps & Hps & H)%res_bind_Ok.
  destruct (_ <? _)%nat; [done|]. injection H as <-. destruct l as [|n l]; [done|]. cbn [res_map] in Hps.
  apply res_bind_Ok in Hps as (p & Hp & Hps). apply res_bind_Ok in Hps as (ps' & _ & Hps). injection Hps as <-. left.
  unfold getChannelPolicy, CHANNEL_POLICIES in Hp. cbn [dict_get] in Hp. destruct (n =? _)%string; [congruence|done].
Qed.

Lemma dropped_caches resolved (caches : dict PolicyStateCache) name cache : In conversationV1Policy resolved ->
  dict_get name (fold_left (fun caches (p : ChannelPolicy) => dict_del p.(cp_name) caches) resolved caches) = Some cache ->
  name <> cp_name conversationV1Policy.
Proof.
  assert (Hkeep : forall l (d : dict PolicyStateCache) n, dict_get n d = None ->
            dict_get n (fold_left (fun caches (p : ChannelPolicy) => dict_del p.(cp_name) caches) l d) = None).
  { induction l as [|p l IH]; intros d n Hn; [done|]. apply IH. destruct (decide (n = p.(cp_name))) as [->|Hne].
    - apply dict_get_del_eq.
    - by rewrite dict_get_del_ne by congruence. }
  intros Hin H ->. revert caches H. induction resolved as [|p l IH]; intros caches H; [done|]. cbn [fold_left] in H. destruct Hin as [->|Hi].
  - rewrite Hkeep in H; [done|]. apply dict_get_del_eq.
  - by eapply IH.
Qed.

Lemma cloned_inv resolved w : cloning false w -> w.(w_dedup) = [] -> w.(w_participants) = [] -> In conversationV1Policy resolved ->
  inv (set_policyState (fold_left (fun caches p => dict_del p.(cp_name) caches) resolved w.(w_keys).(kv_policyState)) w).
Proof.
  intros (H1 & H2 & H3 & H4) Hd Hp Hin. constructor; cbn; rewrite ?H2, ?H3, ?H4, ?Hd, ?Hp; try done; [|by split; constructor].
  intros name cache Hg policy Hk _. exfalso. apply (dropped_caches _ _ _ _ Hin Hg).
  unfold getChannelPolicy, CHANNEL_POLICIES in Hk. cbn [dict_get] in Hk. by destruct (String.eqb_spec name (cp_name conversationV1Policy)).
Qed.

Lemma clone_rest w : inv w ->
  ends (let* resolved := policies in for_each (fun p => getState channelId p.(cp_name) ;; ret tt) resolved) (fun _ _ => True) w.
Proof.
  intros Hi. w_seq; [by apply wp_policies|]. intros ps w1 _ Hi1 _. apply wp_each; [typeclasses eauto|done|].
  intros p w2 _ _ Hi2. w_seq; [by eapply wp_getState|]. done.
Qed.

Lemma cl_of_wp A (p : prog A) Q w : inv w -> ends p Q w -> cl p (fun r t w => t = true /\ okp Q r w) true w.
Proof.
  intros Hi H. by apply (wp_owp others freely cloning everywhere moves inv true).
Qed.

Lemma cl_throw e t w : dropped_at_end (Throw e) t w.
Proof. done. Qed.

(** The second half of [rebuildAfterFork] and what follows it. *)
Lemma cl_rebuild w : cloning false w -> w.(w_dedup) = [] -> w.(w_participants) = [] -> w.(w_policies) = None ->
  cl (rebuildAfterFork channelId ;; reconcilePendingCalls channelId true ;; ret tt) dropped_at_end false w.
Proof.
  intros Hc Hd Hp Hn. apply owp_bindr; [done|done|]. unfold rebuildAfterFork, async. apply owp_bindr; [done|done|].
  unfold policies, act_res, bind at 1. cbn [bindr owp]. intros _. exists false. split; [done|]. rewrite Hn.
  destruct (resolveChannelPolicies (policyNames w)) as [resolved|e] eqn:Er; [|split; [done|]; cbn; intros w' _ _ _; exact (cl_throw _ _ _)].
  cbn [fst snd]. split; [exact Hc|]. intros _. exists true. split; [done|].
  assert (Hi : inv (set_policyState (fold_left (fun caches p => dict_del p.(cp_name) caches) resolved
                      (set_policies (Some (map cp_name resolved)) w).(w_keys).(kv_policyState))
                    (set_policies (Some (map cp_name resolved)) w))).
  { apply cloned_inv; [exact Hc|done|done|]. by eapply resolved_conversation. }
  split; [exact Hi|]. eapply (owp_mono others freely cloning everywhere); [done|exact Hi| |by apply cl_of_wp, clone_rest].
  intros r t w1 _ Hi1 [-> _] w2 _ _ Hi2. destruct r as [[]|e]; [|exact (cl_throw _ _ _)].
  eapply (owp_mono others freely cloning everywhere); [done|exact Hi2| |apply (cl_of_wp _ _ (fun _ _ => True)); [exact Hi2|]].
  - intros r t w3 _ _ [-> _] _. done.
  - w_seq; [by apply wp_reconcile|]. done.
Qed.

(** A clone that is done is as any channel. *)
Lemma postClone_drops parentChannelId forkPointId newContextId w : copied w -> 0 <= forkPointId ->
  cl (postClone channelId parentChannelId forkPointId newContextId) dropped_at_end false w.
Proof.
  intros [H1 H2 H3 H4 H5] Hn. unfold postClone, modify, act. cbn [bind bindr ret].
  intros _. exists false. split; [done|]. split; [done|]. unfold forkFrom, remote. cbn [bind bindr ret].
  intros w2 _ (g & b & now & uuid & sn & ->) (Hg & _). cbn [cloning] in Hg. cbn [owp]. intros _. exists false. split; [done|].
  destruct (gad_forkLog _ _ _ _ _) as [g'|e] eqn:Ef.
  - assert (Hg' : cs_ok g') by (by eapply cs_fork). split; [by cbn|]. cbn [bind bindr owp fst snd].
    intros w3 _ (g3 & b3 & now3 & uuid3 & sn3 & ->) (Hg3 & _). intros _. exists false. split; [done|]. split; [by cbn|].
    by apply cl_rebuild.
  - split; [by cbn|]. cbn. intros w3 _ _ _. exact (cl_throw _ _ _).
Qed.

Lemma clone_sound s s' : rtc clone_step s s' -> forall t, cloning t s.1 -> cl s.2 dropped_at_end t s.1 ->
  exists t', cloning t' s'.1 /\ cl s'.2 dropped_at_end t' s'.1.
Proof.
  induction 1 as [s|s s1 s' Hs _ IH]; intros t Hc Hw; [eauto|].
  destruct Hs as [p p' w w' E|g b now uuid sn p w Hp Hg He _]; cbn [fst snd] in *.
  - destruct (owp_step others freely cloning everywhere _ p p' dropped_at_end t w w') as (t' & _ & Hc' & Hw');
      [exact others_refl|done|done|done|done|done|done|]. by apply (IH t').
  - assert (Ho : others t w (outside g b now uuid sn w) /\ cloning t (outside g b now uuid sn w)).
    { destruct t; cbn [cloning others] in *; [by apply outside_step|]. split; [by exists g, b, now, uuid, sn|]. cbn. by destruct Hc as (_ & ?). }
    destruct Ho as [Ho Hc']. apply (IH t Hc'). by apply (owp_parked others freely cloning everywhere _ p dropped_at_end t w); [exact others_trans|..].
Qed.

Lemma cloned_ok parentChannelId forkPointId newContextId w w' : copied w -> 0 <= forkPointId ->
  rtc clone_step (w, postClone channelId parentChannelId forkPointId newContextId) (w', Done (Ok tt)) -> config_ok (mkConfig w' [] []).
Proof.
  intros Hc Hn Hs. destruct (clone_sound _ _ Hs false) as (t & Hi & Ht); [by destruct Hc|by apply postClone_drops|].
  cbn in Ht, Hi. rewrite (Ht eq_refl) in Hi. constructor; [exact Hi|constructor|constructor].
Qed.

Lemma config_reached_ok c : reachable c -> config_ok c.
Proof. induction 1 as [w Hw|parent n ctx w w' Hw Hn Hs|c c' _ IH Hs]; [by apply unused_ok|by eapply cloned_ok|by eapply config_step_ok]. Qed.
End System.
