(* ===== verification/ChannelCrash.v ===== *)
(** A call is not lost while it is being settled: until its end is in the log its row is
    there, wherever a crash stops the channel. The sweep makes the rows the open calls of the
    log. *)
From Stdlib Require Import Sorted.
From stdpp Require Import gmap relations.
From S2P Require Import Prelude Dict JsValue JsText JsJson AgentEffects JsAsync.
From S2P Require Import GadCanon GadRefs GadLog GadLogLaws GadTables GadReplay GadWindow GadStored ChannelState ChannelPolicy ChannelCalls ChannelDo.
From S2P Require Import ChannelLaws ChannelAppends ChannelSafety.
#[local] Open Scope Z_scope.

Section Crash.
Context {G B : Type} `{!ChannelStore G, !ChannelStoreLaws G, !TextBlobs B}.
Context (channelId : string) (Hchannel : cs_channel channelId) (t : string).
Abbreviation World := (World G B).
Abbreviation prog := (prog World).
Implicit Types w : World.
Abbreviation extends := (@extends G B _ _ channelId).
Abbreviation at_seq := (@at_seq G B _ _ channelId).
Abbreviation inv := (@inv G B _ _ _ channelId).

(** The call has a row. *)
Definition pending w : Prop := In t (map cr_transportCallId w.(w_calls)).

(** The end of the call is in the log. *)
Definition over w : Prop := exists n, at_seq w (terminalId t) n.

(** Nobody loses the call, or brings it back. *)
Definition kept w w' : Prop :=
  extends w w' /\ (pending w \/ over w -> pending w' \/ over w') /\ (~ pending w -> ~ pending w').

Lemma over_extends w w' : extends w w' -> over w -> over w'.
Proof. intros He [n Hn]. exists n. by eapply at_seq_extends. Qed.

#[export] Instance kept_log : KeepLog channelId kept.
Proof.
  split; [split; [split|]|].
  - intros w. by split; [|split].
  - intros w1 w2 w3 (E1 & A1 & B1) (E2 & A2 & B2). split; [by trans w2|]. split; auto.
  - intros w w' E1 E2. assert (He : extends w w') by by apply extends_store. split; [done|]. unfold pending. rewrite E2. split; [|done].
    intros [H|H]; [by left|right]. by eapply over_extends.
  - intros w w' E He. split; [done|]. unfold pending. rewrite E. split; [|done]. intros [H|H]; [by left|right]. by eapply over_extends.
Qed.

Abbreviation moves := (@moves G B _ _ channelId kept).
Abbreviation ends p Q w := (wp moves inv p (okp Q) w).
Abbreviation safe p w := (ends p (fun _ _ => True) w).

Lemma pending_peek w : pending w <-> is_Some (peek_row w t).
Proof.
  unfold pending, peek_row. rewrite in_map_iff. destruct (List.find _ _) as [row|] eqn:E; cbn; split.
  - by eexists.
  - intros _. apply find_some in E as [Hin E%String.eqb_eq]. by exists row.
  - intros (row & <- & Hin). pose proof (find_none _ _ E row Hin) as H. cbn in H. by rewrite String.eqb_refl in H.
  - by intros [? ?].
Qed.

Lemma not_pending_after w : ~ pending (delete_row t w).
Proof.
  unfold pending. cbn. intros (row & E & [_ H]%filter_In)%in_map_iff. unfold no_call in H. by rewrite E, String.eqb_refl in H.
Qed.

Lemma wp_delete_over w : inv w -> over w -> ends (deleteRow t) (fun _ w' => ~ pending w') w.
Proof.
  intros Hi Ho. assert (He : extends w (delete_row t w)) by by apply extends_store.
  assert (Hk : kept w (delete_row t w)).
  { split; [done|]. split; [|intros _; apply not_pending_after]. intros _. right. by eapply over_extends. }
  destruct (calls_step channelId kept w (List.filter (no_call t) w.(w_calls)) Hi Hk) as [H1 H2].
  apply wp_modify; [exact H1|exact H2|apply not_pending_after].
Qed.

Lemma kept_moves w w' : moves w w' -> pending w \/ over w -> pending w' \/ over w'.
Proof. intros [_ (_ & H & _)]. exact H. Qed.

Lemma gone_moves w w' : moves w w' -> ~ pending w -> ~ pending w'.
Proof. intros [_ (_ & _ & H)]. exact H. Qed.

(** What the answer of a settle says: the call is over, at this place, and has no row. *)
Definition answered (answer : option Z) w : Prop := exists n, answer = Some n /\ at_seq w (terminalId t) n /\ ~ pending w.

Lemma wp_settleCall_kept result isError opts w : inv w -> pending w \/ over w ->
  ends (settleCall channelId t result isError opts) answered w.
Proof.
  intros Hi Hk. w_async. { intros o w1 w2 _ Hm _ (n & E & Hat & Hn). exists n. split; [done|]. split; [by eapply at_seq_moves|by eapply gone_moves]. }
  w_skip; [by apply wp_awaitInFlightStart|]. w_next. apply (kept_moves w w0 Hm) in Hk.
  w_seq; [apply (wp_get _ _ _ _ (fun o w' => match o with
      | Some p => p.(pr_transportCallId) = t | None => ~ pending w' end)); [done|]|].
  { destruct (peek_row w0 t) as [p|] eqn:E.
    - unfold peek_row in E. destruct (List.find _ _) as [row|] eqn:Ef; [|done]. injection E as <-. by apply find_some in Ef as [_ E%String.eqb_eq].
    - rewrite pending_peek, E. by intros [? ?]. }
  intros cached w1 Hm1 Hi1 Hc. assert (Hk1 : pending w1 \/ over w1) by by eapply kept_moves.
  w_seq; [instantiate (1 := fun found w' => match found with inr answer => answered answer w' | inl p => p.(pr_transportCallId) = t end)|].
  { destruct cached as [p|]; [exact Hc|]. destruct Hk1 as [|Ho]; [done|]. w_seq; [by eapply wp_terminalEvent|].
    intros o w2 Hm2 Hi2 H. destruct o as [event|].
    - exists event.(ce_id). destruct H as [_ H]. split; [done|]. split; [done|]. by eapply gone_moves.
    - destruct Ho as [n Hn]. by destruct (H n). }
  w_next found Hf. destruct found as [p|answer]; [|exact Hf]. w_skip; [by eapply wp_ensureMethodRoot|]. w_next.
  w_seq; [by eapply wp_appendTerminal|]. w_next event He. destruct He as [Hd Hat]. rewrite Hf in Hat.
  w_seq; [apply wp_delete_over; [done|by eexists]|]. intros ? w5 Hm5 Hi5 Hgone. cbn beta in Hgone. carry Hm5.
  w_skip; [by eapply wp_recordObservedHead|]. intros _ w6 Hm6 Hi6 _. apply (gone_moves _ _ Hm6) in Hgone. carry Hm6.
  w_skip; [by eapply wp_scheduleNextAlarm|]. intros _ w7 Hm7 Hi7 _. apply (gone_moves _ _ Hm7) in Hgone. carry Hm7.
  w_skip; [by eapply wp_value|]. intros callerPresent w8 Hm8 Hi8 _. apply (gone_moves _ _ Hm8) in Hgone. carry Hm8.
  w_skip; [destruct callerPresent; [by eapply wp_broadcastLive|done]|].
  intros _ w9 Hm9 Hi9 _. apply (gone_moves _ _ Hm9) in Hgone. carry Hm9. by exists event.(ce_id).
Qed.

(** The settle of a call, stopped anywhere by a crash, has lost nothing; done again, it
    answers with the one end of the call. *)
Lemma settle_again result isError opts result' isError' opts' n w w' answer :
  inv w -> pending w ->
  let stopped := steps n (settleCall channelId t result isError opts) w in
  run (settleCall channelId t result' isError' opts') (crash stopped.1) w' (Ok answer) ->
  (pending stopped.1 \/ over stopped.1) /\ answered answer w' /\
  (forall k, stopped.2 = Done (Ok (Some k)) -> answer = Some k).
Proof.
  intros Hi Hp stopped Hrun.
  destruct (wp_steps moves inv _ n (settleCall channelId t result isError opts) _ w Hi
              (wp_settleCall_kept result isError opts w Hi (or_introl Hp))) as (Hm & Hi1 & Hwp). fold stopped in Hm, Hi1, Hwp.
  pose proof (kept_moves _ _ Hm (or_introl Hp)) as Hk. split; [done|].
  destruct (crash_moves channelId kept _ Hi1) as [Hmc Hic]. pose proof (kept_moves _ _ Hmc Hk) as Hkc.
  destruct (wp_run moves inv _ _ _ _ _ Hrun _ Hic (wp_settleCall_kept result' isError' opts' _ Hic Hkc)) as (Hm2 & Hi2 & Ha).
  cbn [okp] in Ha. split; [exact Ha|]. intros k E. rewrite E in Hwp. cbn in Hwp. destruct Hwp as (k' & [= <-] & Hat & _).
  destruct Ha as (m & -> & Hat2 & _). f_equal. eapply at_seq_fun; [exact Hat2|].
  eapply at_seq_moves; [exact Hm2|]. by eapply at_seq_moves.
Qed.
End Crash.

(** The rows of pending calls against the log: the sweep reads every agentic event, page
    by page, and leaves a row for exactly the calls that started and have not ended. *)
(** * Calls of a log *)

(** The call an envelope is about, when it is an agentic event with one. *)
Definition call_of (e : GadEnvelope) : option string :=
  let event := e.(ge_event).(ev_payload) in
  if e.(ge_event).(ev_payloadKind) <>s? AGENTIC_EVENT_PAYLOAD_KIND then None
  else if negb (is_object event) then None
  else truthy_opt (transportCallId_of event).

Definition starts (t : string) (e : GadEnvelope) : Prop :=
  call_of e = Some t /\ is_lit e.(ge_event).(ev_payload).!"kind" "invocation.started" = true /\
  is_lit (record_of (record_of e.(ge_event).(ev_payload).!"payload").!"transport").!"kind" "channel" = true.

Definition ends_call (t : string) (e : GadEnvelope) : Prop :=
  call_of e = Some t /\ existsb (is_lit e.(ge_event).(ev_payload).!"kind") TERMINAL_KINDS = true.

(** The call started, and has not ended since. *)
Definition open_call (t : string) (L : list GadEnvelope) : Prop :=
  exists L1 e L2, L = L1 ++ e :: L2 /\ starts t e /\ Forall (fun e' => ~ ends_call t e') L2.

Lemma derive_step_spec pending e :
  (exists t row, starts t e /\ derive_step pending e = dict_set t row pending /\ row.(pr_transportCallId) = t) \/
  (exists t, ends_call t e /\ (forall t, ~ starts t e) /\ derive_step pending e = dict_del t pending) \/
  ((forall t, ~ starts t e) /\ (forall t, ~ ends_call t e) /\ derive_step pending e = pending).
Proof.
  assert (Hnone : call_of e = None -> (forall t, ~ starts t e) /\ (forall t, ~ ends_call t e)).
  { intros E. split; intros t [H _]; congruence. }
  unfold starts, ends_call in *. unfold derive_step, call_of in *. destruct (_ <>s? _); [right; right; by destruct Hnone|].
  destruct (negb (is_object _)); [right; right; by destruct Hnone|].
  destruct (transportCallId_of _) as [t|]; [|right; right; by destruct Hnone]. cbn [truthy_opt] in *.
  destruct (t =s? ""); [right; right; by destruct Hnone|].
  destruct (is_lit (ev_payload (ge_event e)).!"kind" "invocation.started") eqn:Es.
  - assert (Ht : existsb (is_lit (ev_payload (ge_event e)).!"kind") TERMINAL_KINDS = false).
    { destruct ((ev_payload (ge_event e)).!"kind"); try done. cbn in Es. apply String.eqb_eq in Es as ->. done. }
    destruct (is_lit _ "channel") eqn:Ec; cbn [negb].
    + left. exists t. eexists. done.
    + right; right. rewrite Ht. split; [intros t' (_ & _ & ?); congruence|]. split; [intros t' (_ & ?); congruence|done].
  - destruct (existsb _ TERMINAL_KINDS) eqn:Et.
    + right; left. exists t. split; [done|]. split; [intros t' (_ & ? & _); congruence|done].
    + right; right. split; [intros t' (_ & ? & _); congruence|]. split; [intros t' (_ & ?); congruence|done].
Qed.

Lemma open_snoc t L e : open_call t (L ++ [e]) <-> starts t e \/ (open_call t L /\ ~ ends_call t e).
Proof.
  split.
  - intros (L1 & s & L2 & E & Hs & Hl). destruct L2 as [|x L2 _] using rev_ind.
    + apply app_inj_tail in E as [-> <-]. by left.
    + rewrite app_comm_cons, app_assoc in E. apply app_inj_tail in E as [-> <-]. apply list.Forall_app in Hl as [Hl [Hx _]%list.Forall_cons].
      right. split; [by exists L1, s, L2|done].
  - intros [Hs|[(L1 & s & L2 & -> & Hs & Hl) He]]; [by exists L, e, []|]. exists L1, s, (L2 ++ [e]).
    rewrite <- app_assoc, <- app_comm_cons. split; [done|]. split; [done|]. by apply Forall_app_2; [|constructor].
Qed.

Lemma starts_not_ends t t' e : starts t e -> ~ ends_call t' e.
Proof.
  intros (_ & Hs & _) (_ & He). destruct ((ev_payload (ge_event e)).!"kind"); try done. cbn in Hs. apply String.eqb_eq in Hs as ->. done.
Qed.

Lemma starts_fun t t' e : starts t e -> starts t' e -> t = t'.
Proof. intros [E _] [E' _]. congruence. Qed.

(** Exactly the open calls are derived. *)
Lemma pending_map_open L t : In t (dict_keys (pending_map L)) <-> open_call t L.
Proof.
  assert (Hget : forall d : dict PendingCallRow, In t (dict_keys d) <-> is_Some (dict_get t d)).
  { intros d. pose proof (dict_get_None_keys t d) as H. destruct (dict_get t d); split; try done; try by intros [? ?].
    - intros _. destruct (in_dec String.string_dec t (dict_keys d)) as [|Hn]; [done|]. by apply H in Hn.
    - intros Hin. by destruct (proj1 H eq_refl). }
  rewrite Hget. unfold pending_map. induction L as [|e L IH] using rev_ind.
  - split; [by intros [? ?]|]. intros (L1 & e & L2 & E & _). by destruct L1.
  - rewrite fold_left_app, open_snoc. cbn [fold_left]. set (d := fold_left derive_step L []) in *.
    destruct (derive_step_spec d e) as [(t' & row & Hs & -> & _)|[(t' & He & Hs & ->)|(Hs & He & ->)]].
    + destruct (decide (t' = t)) as [->|Hne].
      * rewrite dict_get_set_eq. split; [by left|by eexists].
      * rewrite dict_get_set_ne by done. rewrite IH. split; [intros H; right; split; [done|by eapply starts_not_ends]|].
        intros [H|[H _]]; [by destruct Hne; eapply starts_fun|done].
    + destruct (decide (t' = t)) as [->|Hne].
      * rewrite dict_get_del_eq. split; [by intros [? ?]|]. intros [H|[_ H]]; [by destruct (Hs t)|done].
      * rewrite dict_get_del_ne by done. rewrite IH. split; [intros H; right; split; [done|]|intros [H|[H _]]; [by destruct (Hs t)|done]].
        intros [E _]. destruct He as [E' _]. congruence.
    + rewrite IH. split; [intros H; right; split; [done|apply He]|]. intros [H|[H _]]; [by destruct (Hs t)|done].
Qed.

(** * Reading the log in pages *)

Definition agentic (L : list GadEnvelope) : list GadEnvelope := List.filter (read_asked 0 (Some AGENTIC_EVENT_PAYLOAD_KIND)) L.

(** Other events are no matter. *)
Lemma pending_map_agentic L : Forall (fun e => 0 < e.(ge_seq)) L -> pending_map (agentic L) = pending_map L.
Proof.
  unfold pending_map, agentic. generalize (@nil (string * PendingCallRow)). induction L as [|e L IH]; intros d Hs; [done|].
  apply list.Forall_cons in Hs as [He Hs]. cbn [List.filter fold_left]. unfold read_asked at 1. destruct (Z.ltb_spec 0 (ge_seq e)); [|lia].
  cbn [andb]. replace (AGENTIC_EVENT_PAYLOAD_KIND =s? "") with false by done. cbn [orb].
  destruct (_ =s? AGENTIC_EVENT_PAYLOAD_KIND) eqn:Ek; [by apply IH|]. rewrite IH by done. f_equal. unfold derive_step. by rewrite Ek.
Qed.

Section Rows.
Context {G B : Type} `{!ChannelStore G, !ChannelStoreLaws G, !TextBlobs B}.
Context (channelId : string).
Abbreviation World := (World G B).
Abbreviation prog := (prog World).
Implicit Types (w : World) (e : GadEnvelope) (L : list GadEnvelope).
Abbreviation channel_log := (@channel_log G B _ _ channelId).

Lemma log_sorted w L : cs_ok w.(w_store) -> channel_log w L -> StronglySorted (fun a b => a.(ge_seq) < b.(ge_seq)) L.
Proof.
  intros Hok HL. assert (Hn : forall i e, L !! i = Some e -> ge_seq e = Z.of_nat i + 1) by (intros; by eapply cs_numbered). clear HL Hok.
  assert (Hg : forall l j, (forall i e, l !! i = Some e -> ge_seq e = Z.of_nat (i + j) + 1) -> StronglySorted (fun a b => a.(ge_seq) < b.(ge_seq)) l).
  { induction l as [|x l IH]; intros j Hj; constructor; [apply (IH (S j)); intros i e Hi; rewrite (Hj (S i) e Hi); lia|].
    apply Forall_lookup. intros i y Hi. rewrite (Hj O x eq_refl), (Hj (S i) y Hi). lia. }
  apply (Hg L O). intros i e Hi. rewrite (Hn i e Hi). lia.
Qed.

(** What is left after a full page is what comes after its last event. *)
Lemma filter_after (n : nat) (F : list GadEnvelope) e : StronglySorted (fun a b => a.(ge_seq) < b.(ge_seq)) F ->
  list.last (take n F) = Some e -> List.filter (fun x => e.(ge_seq) <? x.(ge_seq)) F = drop n F.
Proof.
  intros Hs. revert n. induction Hs as [|x F Hs IH Hall]; intros n He; [by rewrite take_nil in He|]. destruct n as [|n]; [done|].
  cbn [take] in He. rewrite List.Forall_forall in Hall. destruct (take n F) as [|y l] eqn:Et.
  - injection He as <-. cbn [List.filter]. rewrite Z.ltb_irrefl.
    assert (Hall' : List.filter (fun y => ge_seq x <? ge_seq y) F = F).
    { clear - Hall. induction F as [|y F IHF]; [done|]. cbn [List.filter]. destruct (Z.ltb_spec (ge_seq x) (ge_seq y)) as [|H]; [|pose proof (Hall y (or_introl eq_refl)); lia].
      f_equal. apply IHF. intros z Hz. apply Hall. by right. }
    rewrite Hall'. destruct n as [|n]; [done|]. destruct F; [done|discriminate].
  - rewrite last_cons_cons in He. rewrite <- Et in He. cbn [List.filter drop]. rewrite <- (IH n He).
    destruct (Z.ltb_spec (ge_seq e) (ge_seq x)) as [Hlt|]; [|done]. exfalso.
    assert (Hin : In e F). { apply list_elem_of_In. apply last_Some_elem_of in He. by eapply subseteq_take. }
    specialize (Hall e Hin). lia.
Qed.

Lemma asked_again k k' kind L : k <= k' ->
  List.filter (fun x => k' <? x.(ge_seq)) (List.filter (read_asked k kind) L) = List.filter (read_asked k' kind) L.
Proof.
  intros Hk. rewrite filter_filter. apply filter_ext_eq. intros e. unfold read_asked.
  destruct (Z.ltb_spec k' (ge_seq e)), (Z.ltb_spec k (ge_seq e)); try lia; cbn; rewrite ?andb_true_r, ?andb_false_r; done.
Qed.

Lemma run_query A (f : G -> res A) w r : f w.(w_store) = r -> run (query f) w w r.
Proof. intros <-. by apply run_remote. Qed.

(** The loop over pages ends, with every agentic event. *)
Lemma run_pages w L acc k : cs_ok w.(w_store) -> channel_log w L -> 0 <= k ->
  run (while (read_round channelId) (acc, k)) w w (Ok (acc ++ List.filter (read_asked k (Some AGENTIC_EVENT_PAYLOAD_KIND)) L)).
Proof.
  intros Hok HL. set (kind := Some AGENTIC_EVENT_PAYLOAD_KIND).
  assert (H : forall n acc k, (length (List.filter (read_asked k kind) L) <= n)%nat -> 0 <= k ->
    run (while (read_round channelId) (acc, k)) w w (Ok (acc ++ List.filter (read_asked k kind) L))); [|intros Hk; by eapply H].
  clear acc k. induction n as [|n IH]; intros acc k Hn Hk; set (F := List.filter (read_asked k kind) L) in *.
  all: assert (Hread : forall B (c : _ -> prog B) w' r, run (c (take (Z.to_nat RECONCILE_PAGE) F)) w w' r ->
      run (bind (read channelId k RECONCILE_PAGE kind) c) w w' r)
    by (intros B' c w' r Hc; eapply run_bind; [apply run_query, (cs_read _ _ _ _ _ _ Hok HL); done|exact Hc]).
  - destruct F eqn:EF; [|simpl in Hn; lia]. rewrite app_nil_r. eapply run_break; [|by constructor]. apply Hread. rewrite take_nil. constructor.
  - destruct (list.last (take (Z.to_nat RECONCILE_PAGE) F)) as [e|] eqn:El.
    2: { apply last_None in El. assert (F = []) as -> by (destruct F; [done|discriminate]). rewrite app_nil_r.
         eapply run_break; [|by constructor]. apply Hread. rewrite take_nil. constructor. }
    assert (Hs : StronglySorted (fun a b => a.(ge_seq) < b.(ge_seq)) F).
    { pose proof (log_sorted w L Hok HL) as HsL. unfold F. clear - HsL. induction HsL as [|x l Hs IH Hall]; [constructor|]. cbn [List.filter].
      destruct (read_asked k kind x); [|done]. constructor; [done|]. apply List.Forall_forall. intros y [Hy _]%filter_In.
      rewrite List.Forall_forall in Hall. by apply Hall. }
    destruct (Z.ltb_spec (Z.of_nat (length (take (Z.to_nat RECONCILE_PAGE) F))) RECONCILE_PAGE) as [Hlt|Hge].
    + rewrite length_take in Hlt. eapply run_break; [|by constructor]. apply Hread. rewrite El.
      rewrite take_ge by (unfold RECONCILE_PAGE in *; lia). destruct (Z.ltb_spec (Z.of_nat (length F)) RECONCILE_PAGE); [constructor|].
      unfold RECONCILE_PAGE in *; lia.
    + assert (He : In e F). { apply list_elem_of_In. apply last_Some_elem_of in El. by eapply subseteq_take. }
      assert (Hke : k < ge_seq e). { apply filter_In in He as [_ He]. unfold read_asked in He. apply andb_prop in He as [He _]. lia. }
      rewrite length_take in Hge. eapply run_again.
      * apply Hread. rewrite El. destruct (Z.ltb_spec (Z.of_nat (length (take (Z.to_nat RECONCILE_PAGE) F))) RECONCILE_PAGE); [|constructor].
        rewrite length_take in *. lia.
      * pose proof (filter_after _ _ _ Hs El) as Ed. unfold F in Ed. rewrite asked_again in Ed by lia. fold F in Ed.
        rewrite <- (take_drop (Z.to_nat RECONCILE_PAGE) F) at 2. rewrite <- Ed, app_assoc. apply IH; [|lia].
        rewrite Ed, length_drop. unfold RECONCILE_PAGE in *. lia.
Qed.

(** * The rows after the sweep *)

Definition call_keys w : list string := map cr_transportCallId w.(w_calls).

Lemma delete_rows_calls rows w :
  (fold_left (fun w row => delete_row row.(cr_transportCallId) w) rows w).(w_calls)
  = List.filter (fun r => forallb (fun s => no_call s.(cr_transportCallId) r) rows) w.(w_calls).
Proof.
  revert w. induction rows as [|s rows IH]; intros w; cbn [fold_left]; [by rewrite filter_true|]. rewrite IH. cbn [w_calls delete_row set_calls].
  rewrite filter_filter. by apply filter_ext_eq.
Qed.

Lemma kept_calls derived w r :
  In r (fold_left (fun w row => delete_row row.(cr_transportCallId) w) (stale_rows derived w) w).(w_calls)
  <-> In r w.(w_calls) /\ In r.(cr_transportCallId) (dict_keys derived).
Proof.
  rewrite delete_rows_calls, filter_In, forallb_forall. split; intros [Hr H]; (split; [done|]).
  - destruct (dict_has r.(cr_transportCallId) derived) eqn:E.
    + unfold dict_has in E. destruct (dict_get _ derived) eqn:Eg; [|done]. apply dict_get_In in Eg. by apply (in_map fst) in Eg.
    + assert (Hs : In r (stale_rows derived w)) by (apply filter_In; by rewrite E). specialize (H r Hs). unfold no_call in H. by rewrite String.eqb_refl in H.
  - intros s [_ Hs]%filter_In. unfold no_call. apply negb_true_iff, String.eqb_neq. intros E. rewrite <- E in Hs. unfold dict_has in Hs.
    destruct (dict_get _ derived) eqn:Eg; [done|]. by apply dict_get_None_keys in Eg.
Qed.

Lemma insert_row_calls row w w' : insert_row row w = (w', Ok tt) ->
  (forall t, In t (call_keys w') <-> In t (call_keys w) \/ t = row.(pr_transportCallId)) /\
  (forall r, In r w.(w_calls) -> r.(cr_transportCallId) <> row.(pr_transportCallId) -> In r w'.(w_calls)).
Proof.
  unfold insert_row. destruct (match peek_row w _ with Some _ => _ | None => _ end) as [at_|]; [|done]. intros [= <-]. unfold call_keys. cbn [w_calls set_calls]. split.
  - intros t. rewrite map_app, in_app_iff, !in_map_iff. split.
    + intros [(r & <- & [Hr _]%filter_In)|(r & <- & [<-|[]])]; [left; by exists r|by right].
    + destruct (decide (t = pr_transportCallId row)) as [->|Hne]; [intros _; right; eexists; split; [|by left]; done|]. intros [(r & <- & Hr)|]; [left|done]. exists r.
      rewrite filter_In. split; [done|]. split; [done|]. unfold no_call. by apply negb_true_iff, String.eqb_neq.
  - intros r Hr Hne. apply in_app_iff. left. apply filter_In. split; [done|]. unfold no_call. by apply negb_true_iff, String.eqb_neq.
Qed.

Lemma insert_rows_calls rows w w' : insert_rows rows w = (w', Ok tt) ->
  (forall t, In t (call_keys w') <-> In t (call_keys w) \/ In t (map pr_transportCallId rows)) /\
  (forall r, In r w.(w_calls) -> ~ In r.(cr_transportCallId) (map pr_transportCallId rows) -> In r w'.(w_calls)).
Proof.
  revert w. induction rows as [|row rows IH]; intros w H; cbn [insert_rows] in H.
  - injection H as <-. split; [|done]. intros t. simpl. tauto.
  - destruct (insert_row row w) as [w1 [[]|]] eqn:E1; [|done]. destruct (insert_row_calls _ _ _ E1) as [K1 R1]. destruct (IH w1 H) as [K2 R2].
    split; [intros t; rewrite K2, K1; cbn [map In]; split; intuition congruence|]. intros r Hr Hn. cbn [map In] in Hn. apply R2; [apply R1; [done|]|]; intros E; apply Hn; auto.
Qed.

(** A derived row is kept under its own id. *)
Lemma pending_map_ids L t row : In (t, row) (pending_map L) -> row.(pr_transportCallId) = t.
Proof.
  unfold pending_map. induction L as [|e L IH] using rev_ind; [done|]. rewrite fold_left_app. cbn [fold_left].
  destruct (derive_step_spec (fold_left derive_step L []) e) as [(t' & row' & _ & -> & E)|[(t' & _ & _ & ->)|(_ & _ & ->)]]; [| |done].
  - intros [[= <- <-]|H]%dict_set_In; [done|by apply IH].
  - intros [H _]%dict_del_In. by apply IH.
Qed.

Lemma missing_ids L w t : In t (map pr_transportCallId (missing_rows (pending_map L) w)) <-> In t (dict_keys (pending_map L)) /\ ~ In t (call_keys w).
Proof.
  unfold missing_rows, call_keys. pose proof (pending_map_ids L) as Hid. revert Hid. generalize (pending_map L), (w_calls w). intros d calls Hid.
  revert d Hid. induction calls as [|r calls IH]; intros d Hid; cbn [fold_left map].
  - assert (E : map pr_transportCallId (dict_values d) = dict_keys d); [|rewrite E; simpl; tauto].
    induction d as [|[k v] d IHd]; [done|]. cbn [dict_values dict_keys map fst snd]. f_equal; [apply (Hid k v); by left|]. apply IHd. intros t' row' H. apply Hid. by right.
  - rewrite IH, dict_del_keys.
    + simpl. split; [intros [[H1 H2] H3]; split; [done|]; intros [E|H]; congruence|]. intros [H1 H2]. split; [split; [done|]|]; [intros ->; apply H2; by left|]. intros H. apply H2. by right.
    + intros t' row' [H _]%dict_del_In. by apply Hid.
Qed.

Lemma reconciled_calls L head w w' counts : reconcile_table L head w = (w', Ok counts) ->
  (forall t, In t (call_keys w') <-> open_call t L) /\
  (forall r, In r w.(w_calls) -> open_call r.(cr_transportCallId) L -> In r w'.(w_calls)) /\
  w'.(w_keys).(kv_reconciledThrough) = Some head.
Proof.
  unfold reconcile_table. set (w1 := fold_left _ (stale_rows (pending_map L) w) w). destruct (insert_rows (missing_rows (pending_map L) w) w1) as [w2 [[]|]] eqn:E2; [|done].
  intros H. assert (Ew : w'.(w_calls) = w2.(w_calls) /\ w'.(w_keys).(kv_reconciledThrough) = Some head).
  { injection H as <- _. by destruct (_ <? _)%nat. }
  destruct Ew as [Ec Eh]. clear H. destruct (insert_rows_calls _ _ _ E2) as [K2 R2]. pose proof (kept_calls (pending_map L) w) as K1. fold w1 in K1.
  assert (Kw1 : forall t, In t (call_keys w1) <-> In t (call_keys w) /\ In t (dict_keys (pending_map L))).
  { intros t. unfold call_keys. rewrite !in_map_iff. split.
    - intros (r & <- & [H1 H2]%K1). split; [by exists r|done].
    - intros [(r & <- & H1) H2]. exists r. split; [done|]. by apply K1. }
  split; [|split; [|done]].
  - intros t. unfold call_keys. rewrite Ec. fold (call_keys w2). rewrite K2, Kw1, missing_ids, <- pending_map_open.
    destruct (in_dec String.string_dec t (call_keys w)); tauto.
  - intros r Hr Ho. rewrite Ec. apply R2; [apply K1; split; [done|by apply pending_map_open]|]. rewrite missing_ids. intros [_ H]. apply H.
    by apply in_map.
Qed.

(** Dates are dates: then no row is refused. *)
Lemma insert_rows_dated rows w : Forall (fun row => isSome row.(pr_createdAt) = true) rows -> exists w', insert_rows rows w = (w', Ok tt).
Proof.
  intros H. revert w. induction H as [|row rows Hr _ IH]; intros w; [by exists w|]. cbn [insert_rows].
  assert (E : exists w1, insert_row row w = (w1, Ok tt)).
  { unfold insert_row, peek_row. destruct (List.find _ _); cbn; [by eexists|]. destruct (pr_createdAt row); [by eexists|done]. }
  destruct E as (w1 & ->). apply IH.
Qed.

Lemma pending_map_dated L t row : Forall (fun e => isSome (Date_parse e.(ge_event).(ev_appendedAt)) = true) L ->
  In (t, row) (pending_map L) -> isSome row.(pr_createdAt) = true.
Proof.
  unfold pending_map. induction L as [|e L IH] using rev_ind; [done|]. intros [HL [He _]%list.Forall_cons]%list.Forall_app. rewrite fold_left_app. cbn [fold_left].
  specialize (IH HL). revert IH. generalize (fold_left derive_step L []). intros d IH. unfold derive_step.
  repeat (case_match; try exact IH).
  - intros [E|H']%dict_set_In; [injection E as _ ->; exact He|by apply IH].
  - intros [H' _]%dict_del_In. by apply IH.
Qed.

Lemma missing_dated L w row : Forall (fun e => isSome (Date_parse e.(ge_event).(ev_appendedAt)) = true) L ->
  In row (missing_rows (pending_map L) w) -> isSome row.(pr_createdAt) = true.
Proof.
  intros HL. unfold missing_rows. generalize (w_calls w). intros calls H0. apply in_map_iff in H0 as ([t row'] & E & H). cbn in E. subst row'.
  eapply pending_map_dated; [exact HL|]. revert H. generalize (pending_map L). induction calls as [|r calls IH]; intros d; [done|].
  cbn [fold_left]. intros H%IH. by apply dict_del_In in H as [H _].
Qed.

(** The sweep, run alone, is [reconcile_table] on the log. *)
Lemma run_reconcile w L : cs_ok w.(w_store) -> channel_log w L ->
  let swept := reconcile_table (B := B) L (Z.of_nat (length L)) w in
  run (reconcilePendingCalls channelId true) w swept.1 swept.2.
Proof.
  intros Hok HL. cbn zeta. apply run_async.
  eapply run_bind; [apply run_async; apply run_query; by rewrite (cs_head _ _ _ Hok HL)|].
  eapply run_bind; [by apply run_Act|]. cbn [negb andb].
  eapply run_bind; [by apply (run_pages w L [] 0)|]. cbn [app].
  assert (E : forall h, reconcile_table (agentic L) h w = reconcile_table L h w).
  { intros h. unfold reconcile_table. rewrite pending_map_agentic; [done|]. apply List.Forall_forall. intros e He.
    apply list_elem_of_In, list_elem_of_lookup_1 in He as (i & Hi). rewrite (cs_numbered _ _ _ _ _ Hok HL Hi). lia. }
  unfold agentic in E. unfold act_res. constructor. rewrite E. constructor.
Qed.
End Rows.
