(* ===== verification/GadChannel.v ===== *)
(** The gad store as the log of the channels: the calls a channel makes, over the tables
    of the store, and what they do to the channel's log. Arguments and results cross as
    JSON. Over it, the configurations the witnesses use. *)
From stdpp Require Import gmap relations.
From S2P Require Import Prelude Dict JsValue JsText JsJson JsJsonLaws JsAsync GadCanon GadCanonLaws GadRefs GadRefsLaws.
From S2P Require Import GadLog GadAppend GadLogLaws GadAppendLaws GadTables GadAppendOk GadForks GadReplay GadStore GadWindow.
From S2P Require Import AgentEffects GadStored ChannelState ChannelPolicy ChannelCalls ChannelDo ChannelLaws.
From Stdlib Require Import Sorted.
From S2P Require Import GadSamples.
From S2P Require Import ChannelAppends ChannelSystem.
#[local] Open Scope Z_scope.

(** * Parsed values *)

Lemma json_val_js v : json_val v -> js_val v.
Proof.
  induction v as [| |b|z|s|l IH|fs IH] using val_ind_nested; try done.
  - rewrite json_val_arr, js_val_arr. intros Hl. induction IH as [|x l Hx _ IHl]; [constructor|].
    apply list.Forall_cons in Hl as [? ?]. constructor; auto.
  - rewrite json_val_obj, js_val_obj. intros [Hw Hl]. split; [done|]. clear Hw.
    induction IH as [|x l Hx _ IHl]; [constructor|]. apply list.Forall_cons in Hl as [? ?]. constructor; auto.
Qed.

Lemma parse_json_val fuel :
  (forall s v rest, parse_value fuel s = Some (v, rest) -> json_val v) /\
  (forall acc s v rest, Forall json_val acc -> parse_items fuel acc s = Some (v, rest) -> json_val v) /\
  (forall acc s v rest, dict_wf acc -> Forall (fun kv => json_val kv.2) acc ->
     parse_fields fuel acc s = Some (v, rest) -> json_val v).
Proof.
  induction fuel as [|fuel (IHv & IHi & IHf)]; [by repeat split|]. split; [|split].
  - intros s v rest. cbn [parse_value]. intros H.
    repeat (case_match; try discriminate; simplify_eq); try exact I.
    + apply (IHi [] (String a0 s1) v rest); [constructor|done].
    + apply json_val_obj. split; [apply NoDup_nil_2|constructor].
    + apply (IHf [] (String a0 s1) v rest); [apply NoDup_nil_2|constructor|done].
  - intros acc s v rest Hacc. cbn [parse_items]. intros H.
    repeat (case_match; try discriminate; simplify_eq).
    + eapply IHi; [|done]. apply Forall_app_2; [done|]. constructor; [|constructor]. by eapply IHv.
    + apply json_val_arr. apply Forall_app_2; [done|]. constructor; [|constructor]. by eapply IHv.
  - intros acc s v rest Hw Hacc. cbn [parse_fields]. intros H.
    assert (Hset : forall k x, json_val x -> Forall (fun kv : string * val => json_val kv.2) (dict_set k x acc)).
    { intros k x Hx. apply List.Forall_forall. intros [k' y] [E|Hi]%dict_set_In; [by simplify_eq|].
      rewrite List.Forall_forall in Hacc. by apply (Hacc (k', y)). }
    repeat (case_match; try discriminate; simplify_eq).
    + eapply IHf; [| |done]; [by apply dict_set_wf|]. apply Hset. by eapply IHv.
    + apply json_val_obj. split; [by apply dict_set_wf|]. apply Hset. by eapply IHv.
Qed.

Lemma json_parse_val s v : json_parse s = Ok v -> json_val v.
Proof.
  unfold json_parse. destruct (parse_value _ _) as [[v' rest]|] eqn:E; [|done].
  destruct (skip_ws rest); [|done]. intros H. simplify_eq. by apply (proj1 (parse_json_val _) _ _ _ E).
Qed.

Lemma json_norm_id v : json_val v -> json_norm v = v.
Proof.
  induction v as [| |b|z|s|l IH|fs IH] using val_ind_nested; try done.
  - rewrite json_val_arr. intros Hl. cbn [json_norm]. f_equal.
    induction IH as [|x l Hx _ IHl]; [done|]. apply list.Forall_cons in Hl as [H1 H2]. simpl. rewrite IHl by done. f_equal.
    destruct x; try done; by apply Hx.
  - rewrite json_val_obj. intros [_ Hl]. cbn [json_norm]. f_equal.
    induction IH as [|[k x] fs Hx _ IHl]; [done|]. apply list.Forall_cons in Hl as [H1 H2]. simpl in *.
    rewrite (Hx H1). destruct x; try done; simpl; by rewrite IHl.
Qed.

Lemma parseJson_val o v : parseJson o = Ok v -> json_val v.
Proof.
  destruct o as [s|]; simpl; [|by intros [= <-]]. destruct (s =s? ""); [by intros [= <-]|]. apply json_parse_val.
Qed.

Lemma parseRecord_val o v : parseRecord o = Ok v -> json_val v.
Proof.
  unfold parseRecord. intros (p & Hp & H)%res_bind_Ok. injection H as <-. destruct (is_record p); [by eapply parseJson_val|].
  by repeat constructor.
Qed.

Section Hydrated.
Context {B : Type} `{!TextBlobs B}.
Implicit Types b : B.
(** At any depth of references. *)
Lemma hydrate_arr_any n b l :
  hydrateStoredValueRefs n b (VArr l) = let! l' := res_map (hydrateStoredValueRefs n b) l in Ok (VArr l').
Proof.
  destruct n; cbn [hydrateStoredValueRefs]; change (isStoredValueRef (VArr l)) with false; cbn match; f_equal.
  all: induction l as [|x l IH]; [done|]; cbn [res_map]; by rewrite <- IH.
Qed.

Definition field_any n b (kv : string * val) : res (string * val) :=
  let! x := hydrateStoredValueRefs n b kv.2 in Ok (kv.1, x).

Lemma hydrate_obj_any n b fs : isStoredValueRef (VObj fs) = false ->
  hydrateStoredValueRefs n b (VObj fs) = let! fs' := res_map (field_any n b) fs in Ok (VObj fs').
Proof.
  intros E. destruct n; cbn [hydrateStoredValueRefs]; rewrite E; f_equal.
  all: clear E; induction fs as [|[k x] fs IH]; [done|]; cbn [res_map]; rewrite <- IH; unfold field_any; cbn [fst snd].
  all: match goal with |- res_bind ?a _ = res_bind (res_bind ?r _) _ => change a with r; by destruct r end.
Qed.

(** What blobs hold reads back as JSON. *)
Lemma hydrate_json b n : forall v v', json_val v -> hydrateStoredValueRefs n b v = Ok v' -> json_val v'.
Proof.
  induction n as [n IHn] using lt_wf_ind. intros v.
  assert (Href : forall v v', isStoredValueRef v = true -> hydrateStoredValueRefs n b v = Ok v' -> json_val v').
  { clear v. intros v v' E H. destruct n as [|n]; destruct v; try done; cbn [hydrateStoredValueRefs] in H; rewrite E in H.
    all: destruct (getText b _) as [t|]; [|by injection H as <-]; destruct (is_lit _ _); [by injection H as <-|]; try done.
    apply res_bind_Ok in H as (p & Hp & H). eapply (IHn n); [lia| |exact H]. by eapply json_parse_val. }
  induction v as [| |x|z|s|l IH|fs IH] using val_ind_nested; intros v' Hj H.
  1-5: destruct n; cbn in H; by injection H as <-.
  - rewrite json_val_arr in Hj. rewrite hydrate_arr_any in H. apply res_bind_Ok in H as (l' & Hl & H). injection H as <-.
    apply json_val_arr. revert l' Hl. induction IH as [|x l Hx _ IHl]; intros l' Hl; cbn [res_map] in Hl; [by injection Hl as <-|].
    apply list.Forall_cons in Hj as [J1 J2]. apply res_bind_Ok in Hl as (x' & Ex & Hl). apply res_bind_Ok in Hl as (l2 & El & Hl).
    injection Hl as <-. constructor; [by apply (Hx x')|by apply IHl].
  - destruct (isStoredValueRef (VObj fs)) eqn:E; [by eapply Href|]. rewrite json_val_obj in Hj. rewrite hydrate_obj_any in H by done.
    apply res_bind_Ok in H as (fs' & Hl & H). injection H as <-. apply json_val_obj. destruct Hj as [Hw Hj].
    assert (Hk : map fst fs' = map fst fs /\ Forall (fun kv => json_val kv.2) fs').
    { clear E Hw. revert fs' Hl. induction IH as [|[k x] l Hx _ IHl]; intros l' Hl; cbn [res_map] in Hl; [by injection Hl as <-|].
      apply list.Forall_cons in Hj as [J1 J2]. apply res_bind_Ok in Hl as (kv & Ex & Hl). apply res_bind_Ok in Hl as (l2 & El & Hl).
      injection Hl as <-. unfold field_any in Ex. apply res_bind_Ok in Ex as (x' & Ex & Ekv). injection Ekv as <-. cbn [fst snd map] in *.
      destruct (IHl J2 l2 El) as [E1 E2]. split; [by rewrite E1|]. constructor; [by apply (Hx x')|done]. }
    destruct Hk as [Hk1 Hk2]. split; [|done]. unfold dict_wf, dict_keys in *. by rewrite Hk1.
Qed.
End Hydrated.

Lemma when_set_norm o parse r :
  (forall v, parse o = Ok v -> json_val v) -> when_set o parse = Ok r -> option_map json_norm r = r.
Proof.
  intros Hp. destruct o as [s|]; simpl; [|by intros [= <-]]. destruct (s =s? ""); [by intros [= <-]|].
  intros (v & Hv & H)%res_bind_Ok. injection H as <-. simpl. by rewrite json_norm_id by auto.
Qed.

(** What is read from a row crosses as it is. *)
Lemma decoded_norm row e : mapLogEnvelope row = Ok e -> env_norm e = e.
Proof.
  unfold mapLogEnvelope. intros (actor & Ha & H)%res_bind_Ok. apply res_bind_Ok in H as (to & Ht & H).
  apply res_bind_Ok in H as (payload & Hp & H). apply res_bind_Ok in H as (annotations & Hn & H).
  apply res_bind_Ok in H as (causality & Hc & H). injection H as <-. unfold env_norm, event_norm. simpl.
  rewrite (json_norm_id actor (parseRecord_val _ _ Ha)), (json_norm_id payload (parseJson_val _ _ Hp)).
  rewrite (when_set_norm _ _ _ (parseJson_val _) Ht), (when_set_norm _ _ _ (parseRecord_val _) Hn),
    (when_set_norm _ _ _ (parseRecord_val _) Hc). done.
Qed.

(** * The instance *)

(** An argument of a call, after it has crossed as JSON. *)
Definition crossed (v : val) : val := reparse (json_stringify v).

Lemma crossed_val v : js_val (crossed v).
Proof.
  unfold crossed, reparse. destruct (json_stringify v) as [s|]; [|done].
  destruct (json_parse s) as [w|] eqn:E; [|done]. by eapply json_val_js, json_parse_val.
Qed.

Lemma linked_at_place {sha : Sha256} {names : Renamed} seq hash L i e :
  linked seq hash L -> L !! i = Some e -> e.(ge_seq) = Z.of_nat i + 1 + seq.
Proof.
  revert seq hash i. induction L as [|x L IH]; intros seq hash i; [done|]. cbn [linked]. intros (E & _ & _ & Hlk) Hi.
  destruct i as [|i]; [injection Hi as <-; lia|]. rewrite (IH _ _ i Hlk Hi). lia.
Qed.

Section Instance.
Context {P : Type} {sha : Sha256} {schema : EventSchema} {schema_laws : EventSchemaLaws} {proj : LogProjections P}.
Implicit Types g : Gad P.

Definition channel_input (channelId : string) (call : AppendCall) (uuid now : string) : AppendLogEventInput :=
  {| in_logId := channelId; in_head := CHANNEL_LOG_HEAD; in_logKind := "channel"; in_owner := VUndef;
     in_expectedHeadHash := None; in_idempotency := call.(al_idempotency); in_now := now;
     in_events :=
       [{| la_envelopeId := call.(al_envelopeId); la_actor := crossed call.(al_actor); la_to := VUndef;
           la_payloadKind := call.(al_payloadKind); la_payload := crossed call.(al_payload); la_causality := VUndef;
           la_annotations := match crossed call.(al_annotations) with VObj fs => VObj fs | _ => VUndef end;
           la_appendedAt := None; la_publish := []; la_uuid := uuid; la_now := now |}] |}.

#[export] Instance gad_channel : ChannelStore (Gad P) := {
  gad_appendLogEvent g channelId call uuid now :=
    let! appended := GadAppend.appendLogEvent g (channel_input channelId call uuid now) in
    match list.last appended.2.(ar_envelopes) with
    | Some e => Ok (appended.1, env_norm e)
    | None => Throw "TypeError: Cannot read properties of undefined"
    end;
  gad_getLogEvent g channelId id := GadLog.getLogEvent g channelId CHANNEL_LOG_HEAD id;
  gad_headSeq g channelId := option_map hi_seq (GadLog.getLogHead g channelId CHANNEL_LOG_HEAD);
  gad_readLog g channelId afterSeq limit payloadKind :=
    GadLog.readLog g (mkReadLogInput channelId CHANNEL_LOG_HEAD (Some afterSeq) None (Some limit) payloadKind);
  gad_getChannelReplayWindow g channelId mode since before limit :=
    GadLog.getChannelReplayWindow g channelId mode since before limit;
  gad_forkLog g from to atSeq now :=
    let! forked := GadAppend.forkLog g (mkFork from CHANNEL_LOG_HEAD to CHANNEL_LOG_HEAD atSeq VUndef now) in Ok forked.1
}.

Definition channel_key (channelId : string) : key := (channelId, CHANNEL_LOG_HEAD).

(** A store in order, whatever heads were renamed in it. *)
Definition in_order g : Prop := exists names : Renamed, store_ok (names := names) g.

Section Laws.
Context {names : Renamed}.

Lemma typed_channel channelId call uuid now : no_nul channelId -> typed_append (channel_input channelId call uuid now).
Proof.
  intros Hc. constructor.
  - split; [done|]. by vm_compute; repeat split.
  - repeat constructor; simpl; try apply crossed_val.
    pose proof (crossed_val call.(al_annotations)) as Hv. destruct (crossed _); try exact I. by split.
  - by repeat constructor.
Qed.

Lemma log_decoded g k L e : log_is g k L -> In e L -> env_norm e = e.
Proof. intros Hl Hi. destruct (log_rows g k L e Hl Hi) as (row & _ & Hd). by eapply decoded_norm. Qed.

Lemma one_replayed X g k L event replayed byId :
  wf_but X g -> log_is g k L -> replay_prefix g k.1 k.2 byId [event] = Ok replayed ->
  check_suffix g k.1 k.2 (length replayed) 1 (drop (length replayed) [event]) = Ok tt ->
  (exists e, replayed = [e] /\ In e L /\ e.(ge_event).(ev_envelopeId) = event.(pe_event).(ev_envelopeId)) \/
  (replayed = [] /\ ~ In event.(pe_event).(ev_envelopeId) (eids L)).
Proof.
  intros Hwf Hl Hr Hc. destruct (replay_prefix_spec _ _ _ _ _ _ _ Hwf Hl Hr) as (H2 & Hin & Hlen). simpl in Hlen.
  destruct replayed as [|e [|? ?]]; [right|left|simpl in Hlen; lia].
  - split; [done|]. pose proof (suffix_fresh _ _ _ _ _ _ _ Hwf Hl Hc) as Hf. by apply list.Forall_cons in Hf as [? _].
  - exists e. split; [done|]. apply list.Forall_cons in Hin as [? _]. split; [done|]. simpl in H2.
    inversion H2 as [|? ? ? ? Hx]; subst. apply Hx.
Qed.

Lemma absent_log g k L : head_of g k = None -> log_is g k L -> L = [].
Proof. intros Hn Hl. inversion Hl; subst; [done|congruence..]. Qed.

Lemma channel_append g c L call uuid now g' e :
  store_ok g -> no_nul c -> log_is g (channel_key c) L -> gad_appendLogEvent g c call uuid now = Ok (g', e) ->
  store_ok g' /\ e.(ge_event).(ev_envelopeId) = default uuid call.(al_envelopeId) /\
  ((In e L /\ log_is g' (channel_key c) L) \/
   (~ In (default uuid call.(al_envelopeId)) (eids L) /\ log_is g' (channel_key c) (L ++ [e]) /\
    e.(ge_event).(ev_payloadKind) = call.(al_payloadKind) /\ e.(ge_event).(ev_appendedAt) = now)).
Proof.
  intros Hg Hc Hl H. cbn [gad_appendLogEvent gad_channel] in H. apply res_bind_Ok in H as ([g1 result] & Happ & H).
  cbn [fst snd] in H. pose proof (typed_channel c call uuid now Hc) as Ht.
  destruct (append_ok g _ g1 result (so_wf _ Hg) Ht Happ) as (Hwf' & _ & prepared & replayed & new & L0 & Ha).
  assert (Hok : store_ok g1) by (eapply (step_ok Kept); [exact Hg|done|by eapply step_append]).
  destruct Ha as [Hp Hr _ HL HL' Hnew _ Hres _]. change (input_key _) with (channel_key c) in *.
  assert (L0 = L) as -> by (by eapply log_is_fun). simpl in Hp. apply res_bind_Ok in Hp as (event & Hev & Hp). injection Hp as <-.
  assert (Eid : event.(pe_event).(ev_envelopeId) = default uuid call.(al_envelopeId) /\
                event.(pe_event).(ev_payloadKind) = call.(al_payloadKind) /\ event.(pe_event).(ev_appendedAt) = now).
  { unfold prepareLogEvent in Hev. simpl in Hev. destruct (_ =s? ""); [done|].
    apply res_bind_Ok in Hev as (payload & _ & Hev). by injection Hev as <-. }
  destruct Eid as (Eid & Ekind & Eat).
  assert (Hcase : (exists e, replayed = [e] /\ In e L /\ e.(ge_event).(ev_envelopeId) = event.(pe_event).(ev_envelopeId)) \/
                  (replayed = [] /\ ~ In event.(pe_event).(ev_envelopeId) (eids L))).
  { destruct (head_of g (channel_key c)) eqn:Hh; cbn [isSome] in Hr.
    - destruct Hr as [Hr Hsuf]. by eapply (one_replayed [] g (channel_key c) L), Hsuf; [apply Hg|..].
    - right. rewrite (absent_log g (channel_key c) L Hh Hl). split; [done|]. intros []. }
  rewrite Hres in H. destruct Hcase as [(e0 & -> & Hi & E)|[-> Hfresh]]; cbn [length drop] in Hnew.
  - destruct new; [|done]. rewrite app_nil_r in *. cbn in H. injection H as <- <-. rewrite (log_decoded g (channel_key c) L) by done.
    split; [done|]. split; [congruence|]. by left.
  - destruct new as [|e0 [|? ?]]; [done| |done]. cbn in H. injection H as <- <-. cbn [map] in Hnew. injection Hnew as Ee.
    split; [done|]. cbn [env_norm ge_event event_norm ev_envelopeId ev_payloadKind ev_appendedAt]. rewrite Ee.
    split; [done|]. right. rewrite <- Eid. by repeat split.
Qed.

Lemma channel_event g c L id : store_ok g -> log_is g (channel_key c) L -> gad_getLogEvent g c id = Ok (with_id id L).
Proof.
  intros Hg Hl. cbn [gad_getLogEvent gad_channel]. unfold getLogEvent, with_id.
  pose proof (lookup_id [] g (channel_key c) L id (so_wf _ Hg) Hl) as Hlook. cbn [fst snd channel_key] in Hlook.
  destruct (List.find _ L) as [e|].
  - destruct Hlook as (row & -> & Hd). cbn [res_bind]. by rewrite Hd.
  - by rewrite Hlook.
Qed.

Lemma channel_head g c L : store_ok g -> log_is g (channel_key c) L -> default 0 (gad_headSeq g c) = Z.of_nat (length L).
Proof.
  intros Hg Hl. cbn [gad_headSeq gad_channel]. unfold getLogHead, headPointer.
  change (logHeadRow g c CHANNEL_LOG_HEAD) with (head_of g (channel_key c)). destruct (head_of g (channel_key c)) as [row|] eqn:Hh.
  - by destruct (wf_pointer g (channel_key c) row L (so_wf _ Hg) Hh Hl) as [<- _].
  - by rewrite (absent_log g (channel_key c) L Hh Hl).
Qed.

Lemma channel_reads g c L afterSeq limit kind : store_ok g -> log_is g (channel_key c) L -> 0 < limit ->
  gad_readLog g c afterSeq limit kind = Ok (take (Z.to_nat limit) (List.filter (read_asked afterSeq kind) L)).
Proof.
  intros Hg Hl Hn. cbn [gad_readLog gad_channel].
  rewrite (readLog_spec g (mkReadLogInput c CHANNEL_LOG_HEAD (Some afterSeq) None (Some limit) kind) L (wb_forest _ _ (so_wf _ Hg)) (wf_sorted _ _ (so_wf _ Hg)) Hl).
  unfold read_limit. cbn [ri_limit]. destruct (Z.ltb_spec 0 limit); [|lia]. cbn [take_limit]. f_equal. f_equal. unfold asked.
  apply filter_ext_eq. intros e. unfold in_read, read_asked. cbn. by rewrite andb_true_r.
Qed.

Lemma channel_window g c L mode since before limit window :
  store_ok g -> log_is g (channel_key c) L -> gad_getChannelReplayWindow g c mode since before limit = Ok window ->
  window.(rw_envelopes) = map (channelEnvelopeView c) (window_part L mode since before (clamp limit)).
Proof.
  intros Hg Hl H. cbn [gad_getChannelReplayWindow gad_channel] in H.
  assert (Hb : mode = ReplayBefore -> before <> None).
  { intros -> ->. unfold getChannelReplayWindow in H. apply res_bind_Ok in H as (stats & _ & H). simpl in H. done. }
  rewrite (replay_window_spec g c L mode since before limit (so_wf _ Hg) Hl Hb) in H. cbn zeta in H. injection H as <-. done.
Qed.

Lemma channel_fork g from to atSeq now g' :
  store_ok g -> no_nul to -> 0 <= atSeq -> gad_forkLog g from to (Some atSeq) now = Ok g' -> store_ok g'.
Proof.
  intros Hg Ht Ha H. cbn [gad_forkLog gad_channel] in H. apply res_bind_Ok in H as ([g1 result] & H & E). injection E as <-.
  eapply (step_ok Kept); [exact Hg|done|]. refine (step_fork _ _ _ _ _ _ H); [|by intros s [= <-]].
  split; [done|]. by vm_compute; repeat split.
Qed.
End Laws.

(** The gad store is the log the channels ask for. *)
#[export] Instance gad_channel_laws : ChannelStoreLaws (Gad P).
Proof.
  refine {| cs_ok := in_order; cs_log g c L := log_is g (channel_key c) L; cs_channel := no_nul |}.
  - intros g c [names Hg]. eapply wf_log, (so_wf (names := names) _ Hg).
  - intros g c L L'. apply log_is_fun.
  - intros g c L i e [names Hg] Hl Hi. pose proof (wf_linked _ _ _ _ (so_wf _ Hg) Hl) as Hlk.
    pose proof (linked_at_place 0 GENESIS_EVENT_HASH L i e Hlk Hi). lia.
  - intros g c L [names Hg]. apply Hg.
  - intros g c L call uuid now g' e [names Hg] Hc Hl H. destruct (channel_append (names := names) g c L call uuid now g' e Hg Hc Hl H) as [Hg' Hr].
    split; [by exists names|exact Hr].
  - intros g c L id [names Hg]. by apply (channel_event (names := names)).
  - intros g c L [names Hg]. by apply (channel_head (names := names)).
  - intros g c L afterSeq limit kind [names Hg]. by apply (channel_reads (names := names)).
  - intros g c L mode since before limit window [names Hg]. by apply (channel_window (names := names)).
  - intros g from to atSeq now g' [names Hg] Ht Ha H. exists names. by eapply (channel_fork (names := names)).
Defined.
End Instance.

(** A channel over the small gad store, and what a few requests make of it. *)
(** Texts under their own text. *)
Definition Texts : Type := list string.

#[export] Instance sample_blobs : TextBlobs Texts := {
  putText b s := (if existsb (String.eqb s) b then b else b ++ [s], (s, byteLength s));
  getText b digest := if existsb (String.eqb digest) b then Some digest else None
}.

#[export] Instance sample_blobs_laws : TextBlobsLaws Texts.
Proof.
  split.
  - intros b s. cbn. destruct (existsb (String.eqb s) b) eqn:E; [by rewrite E|]. rewrite existsb_app. cbn. by rewrite String.eqb_refl, orb_true_r.
  - intros b s digest t. cbn. destruct (existsb (String.eqb digest) b) eqn:E; [|done]. intros [= <-].
    destruct (existsb (String.eqb s) b); [by rewrite E|]. by rewrite existsb_app, E.
Qed.

Definition sample_keys : ChannelKeys := mkKeys "room" None None None None None [] None None.

Definition sample_start : World (Gad (list string)) Texts :=
  mkWorld sample_empty [] 1700000000000 "u0" "2023-11-14T22:13:20.000Z" [] [] [] sample_keys None None [] [] [] 0%nat [] [].

Abbreviation SampleWorld := (World (Gad (list string)) Texts).
Abbreviation SampleConfig := (@Config (Gad (list string)) Texts).

Definition sample_config : SampleConfig := mkConfig sample_start [] [].

(** The store draws another id and a later time. *)
Definition tick (uuid : string) (c : SampleConfig) : SampleConfig :=
  let w := c.(cf_world) in
  mkConfig (outside w.(w_store) w.(w_blobs) (w.(w_now) + 1000) uuid "2023-11-14T22:13:21.000Z" w) c.(cf_threads) c.(cf_answers).

Definition sample_serve (op : Op) (c : SampleConfig) : SampleConfig := serve "room" 5000 op c.

Definition sample_metadata : val := VObj [("name", VStr "Panel"); ("type", VStr "panel"); ("handle", VStr "pan")].
Definition publish_opts (key : string) : PublishOptions := mkPublishOptions None VUndef VUndef (Some key).
Definition call_opts : CallOptions := mkCallOptions None None None (Some 60000).

Definition sample_subscribe : Op := OpSubscribe None "panel:p" sample_metadata (Ok tt).
Definition sample_publish : Op := OpPublish None "panel:p" "message" (VObj [("text", VStr "hi")]) (publish_opts "k").
Definition sample_call : Op := OpCallMethod "user:u" "panel:p" "call1" "show" (VObj [("x", VNum 1)]) call_opts.
Definition sample_submit (content : val) : Op := OpSubmitResult None "panel:p" "call1" content false None None default_settle.

(** A message an agent completed. *)
Definition sample_completed : val :=
  VObj [("kind", VStr "message.completed"); ("actor", VObj [("kind", VStr "agent"); ("id", VStr "agent:a")]);
        ("causality", VObj [("messageId", VStr "m1")]); ("payload", VObj [("role", VStr "assistant")]);
        ("createdAt", VStr "2023-11-14T22:13:21.000Z")].
Definition sample_message : Op :=
  OpPublish None "agent:a" AGENTIC_EVENT_PAYLOAD_KIND sample_completed (publish_opts "m").

Definition sample_joined : SampleConfig := Eval vm_compute in tick "u1" (sample_serve sample_subscribe sample_config).
(** A publish, and a call under way. *)
Definition sample_called : SampleConfig := Eval vm_compute in
  tick "u2" (sample_serve sample_call (sample_serve sample_publish sample_joined)).
(** The call settled, a crash, and both requests again. *)
Definition sample_crashed : SampleConfig := Eval vm_compute in
  let c := sample_serve (sample_submit (VNum 7)) sample_called in mkConfig (crash c.(cf_world)) [] c.(cf_answers).
Definition sample_settled : SampleConfig := Eval vm_compute in
  sample_serve sample_publish (sample_serve (sample_submit (VNum 8)) sample_crashed).
(** A conversation. *)
Definition sample_talk : SampleConfig := Eval vm_compute in sample_serve sample_message sample_joined.

Lemma sample_unused : unused sample_start.
Proof. constructor; try done. exists []. apply empty_ok. Qed.

Lemma sample_channel : cs_channel (G := Gad (list string)) "room".
Proof. by vm_compute; repeat split. Qed.

(** A configuration reached with nothing under way. *)
Definition rests (c : SampleConfig) : Prop := reachable "room" c /\ c.(cf_threads) = [].

Lemma rests_start : rests sample_config.
Proof. split; [|done]. apply reachable_start, sample_unused. Qed.

Lemma rests_serve op c : rests c -> rests (sample_serve op c).
Proof. intros [H E]. by apply serve_reachable. Qed.

Lemma rests_tick uuid c : rests c -> rests (tick uuid c).
Proof.
  intros [H Et]. pose proof (config_reached_ok "room" sample_channel c H) as [Hi _ _]. destruct c as [w threads answers]. cbn [cf_threads cf_world] in *.
  subst threads. split; [|done]. eapply reachable_step; [exact H|]. apply step_outside; [constructor|exact (inv_store _ Hi)| |cbn; lia].
  intros L HL. exists []. by rewrite app_nil_r.
Qed.

Lemma rests_crash c : rests c -> rests (mkConfig (crash c.(cf_world)) [] c.(cf_answers)).
Proof. intros [H _]. destruct c. split; [|done]. eapply reachable_step; [exact H|]. apply step_crash. Qed.

Lemma rests_is c c' : rests c -> c = c' -> rests c'.
Proof. by intros H <-. Qed.

Lemma joined_rests : rests sample_joined.
Proof. eapply rests_is; [apply (rests_tick "u1"), (rests_serve sample_subscribe), rests_start|]. vm_cast_no_check (eq_refl sample_joined). Qed.

Lemma called_rests : rests sample_called.
Proof.
  eapply rests_is; [apply (rests_tick "u2"), (rests_serve sample_call), (rests_serve sample_publish), joined_rests|].
  vm_cast_no_check (eq_refl sample_called).
Qed.

Lemma settled_rests : rests sample_settled.
Proof.
  eapply rests_is; [apply (rests_serve sample_publish), (rests_serve (sample_submit (VNum 8))), rests_crash,
    (rests_serve (sample_submit (VNum 7))), called_rests|]. vm_cast_no_check (eq_refl sample_settled).
Qed.

Lemma talk_rests : rests sample_talk.
Proof. eapply rests_is; [apply (rests_serve sample_message), joined_rests|]. vm_cast_no_check (eq_refl sample_talk). Qed.

(** The log of a configuration, as it is read. *)
Definition sample_read (c : SampleConfig) : list GadEnvelope :=
  match gad_readLog c.(cf_world).(w_store) "room" 0 500 None with Ok l => l | Throw _ => [] end.

Lemma sample_log c : rests c -> (length (sample_read c) < 500)%nat -> channel_log "room" c.(cf_world) (sample_read c).
Proof.
  intros [H _] Hn. pose proof (config_reached_ok "room" sample_channel c H) as [Hi _ _].
  destruct (cs_total (w_store (cf_world c)) "room" (inv_store _ Hi)) as (L & HL).
  assert (E : sample_read c = L); [|by rewrite E]. unfold sample_read in *.
  rewrite (cs_read _ _ _ 0 500 None (inv_store _ Hi) HL) in * by done. rewrite (asked_after "room" _ _ 0 (inv_store _ Hi) HL) in * by done.
  rewrite length_take in Hn. rewrite take_ge; [done|]. cbn in *. lia.
Qed.

(** A clone of the conversation, cut before its message: what is stored is copied. *)
Definition sample_copied : SampleWorld := Eval vm_compute in
  let w := cf_world sample_talk in
  mkWorld w.(w_store) w.(w_blobs) w.(w_now) w.(w_uuid) w.(w_storeNow) w.(w_participants) w.(w_calls) w.(w_dedup) w.(w_keys)
    w.(w_alarm) None [] [] [] 0%nat [] [].

Definition sample_clone : SampleConfig := Eval vm_compute in
  mkConfig (steps 300 (postClone "room2" "room" 1 (Some "ctx:2")) sample_copied).1 [] [].

Lemma sample_clone_ends :
  steps 300 (postClone "room2" "room" 1 (Some "ctx:2")) sample_copied = (cf_world sample_clone, Done (Ok tt)).
Proof. vm_compute. reflexivity. Qed.

Lemma sample_copied_ok : copied sample_copied.
Proof.
  constructor; try reflexivity. pose proof (config_reached_ok "room" sample_channel sample_talk (proj1 talk_rests)) as [Hi _ _].
  exact (inv_store _ Hi).
Qed.

Lemma sample_clone_reachable : reachable "room2" sample_clone.
Proof.
  apply (reachable_clone "room2" "room" 1 (Some "ctx:2") sample_copied (cf_world sample_clone)); [exact sample_copied_ok|lia|].
  pose proof (steps_clone "room2" 300 (postClone "room2" "room" 1 (Some "ctx:2")) sample_copied) as H.
  rewrite sample_clone_ends in H. exact H.
Qed.

Definition sample_clone_log : list GadEnvelope := Eval vm_compute in
  match gad_readLog (w_store (cf_world sample_clone)) "room2" 0 500 None with Ok l => l | Throw _ => [] end.

(** The start of the call in the log; as it is shown live, and as a view of it reads. *)
Definition sample_start_event : GadEnvelope := Eval vm_compute in
  match rev (sample_read sample_called) with e :: _ => e | [] => mkGadEnvelope "" "" 0 (mkLogEvent "" VUndef None "" VUndef None None "") "" "" end.
Definition sample_start_hydrated : GadEnvelope := Eval vm_compute in
  match hydrateEnvelope (w_blobs (cf_world sample_called)) sample_start_event with Ok e => e | Throw _ => sample_start_event end.
Definition sample_start_view : val := Eval vm_compute in
  match hydrateStoredValueRefs HYDRATE_DEPTH (w_blobs (cf_world sample_called)) (channelEnvelopeView "room" sample_start_event) with Ok v => v | Throw _ => VUndef end.

(** * What goes wrong *)

(** Time passes. *)
Definition sample_later (ms : Z) (uuid : string) (c : SampleConfig) : SampleConfig :=
  let w := c.(cf_world) in
  mkConfig (outside w.(w_store) w.(w_blobs) (w.(w_now) + ms) uuid (toISOString (w.(w_now) + ms)) w) c.(cf_threads) c.(cf_answers).

(** A call whose start is in the log when a crash comes before its row is written; then
    another call, served to its end; then the alarm, after the deadline of the first. *)
Definition sample_interrupted : SampleConfig :=
  mkConfig (crash (steps 30 (op_prog "room" sample_call) (cf_world sample_joined)).1) [] [].
Definition sample_other_call : Op := OpCallMethod "user:u" "panel:p" "call2" "show" VUndef (mkCallOptions None None None None).
Definition sample_other_result : Op := OpSubmitResult None "panel:p" "call2" (VNum 1) false None None default_settle.
Definition sample_overdue : SampleConfig := Eval vm_compute in
  sample_serve OpAlarm (sample_serve (OpTouch "panel:p")
    (sample_later 120000 "u3" (sample_serve sample_other_result (sample_serve sample_other_call sample_interrupted)))).

(** A call whose invocation id is the terminal id of another, and then the result of the
    other. *)
Definition sample_squatted : SampleConfig := Eval vm_compute in
  sample_serve (sample_submit (VNum 7))
    (sample_serve (OpCallMethod "user:v" "panel:p" "x" "show" VUndef (mkCallOptions (Some "terminal:call1") None None None)) sample_called).
