(* ===== verification/ChannelProps.v ===== *)
(** What the channel promises: one place in the log for every answer, nothing shown that
    is not in the log, fold states that are folds, a roster without doubles, calls that a
    crash does not lose, rows that agree with the log, replays that show what was shown
    live, and stored values that come back. *)
From stdpp Require Import gmap relations.
From S2P Require Import Prelude Dict JsValue JsText JsJson JsJsonLaws AgentEffects JsAsync.
From S2P Require Import GadCanon GadRefs GadLog GadLogLaws GadTables GadReplay GadWindow GadStore GadSamples GadStored GadRefsLaws.
From S2P Require Import ChannelState ChannelPolicy ChannelCalls ChannelDo ChannelLaws ChannelAppends ChannelSafety ChannelSystem ChannelCrash.
From S2P Require Import GadChannel.
#[local] Open Scope Z_scope.

(** * Envelopes the policies read alike, live and later *)

(** The parts of an envelope a policy looks at are in the log as they are, and its time
    has the form of [toISOString]. *)
Record inline (e : GadEnvelope) : Prop := {
  il_actor : ref_free e.(ge_event).(ev_actor);
  il_json : json_val e.(ge_event).(ev_payload);
  il_whole : isStoredValueRef e.(ge_event).(ev_payload) = false;
  il_read : Forall (fun k => ref_free e.(ge_event).(ev_payload).!k) ["kind"; "actor"; "causality"];
  il_time : match Date_parse e.(ge_event).(ev_appendedAt) with Some t => toISOString t = e.(ge_event).(ev_appendedAt) | None => True end
}.

Lemma hydrate_object {B : Type} `{!TextBlobs B} n (b : B) v v' : isStoredValueRef v = false ->
  hydrateStoredValueRefs (S n) b v = Ok v' -> is_object v' = is_object v.
Proof.
  intros E H. destruct v as [| | | | |l|fs]; try (rewrite hydrate_plain in H by done; by injection H as <-).
  - rewrite hydrate_arr in H. apply res_bind_Ok in H as (l' & _ & H). by injection H as <-.
  - rewrite hydrate_obj in H by done. apply res_bind_Ok in H as (fs' & _ & H). by injection H as <-.
Qed.

Lemma reparsed v : json_val v -> reparse (json_stringify v) = v.
Proof. intros Hv. destruct (json_roundtrip v Hv) as (t & E & Ep). unfold reparse. by rewrite E, Ep. Qed.

Lemma inline_readable {B : Type} `{!TextBlobs B} name policy e :
  getChannelPolicy name = Ok policy -> inline e -> readable (B := B) policy e.
Proof.
  intros Hp [Ha Hj Hw Hr Ht] b e' view Hh Hv s.
  assert (policy = conversationV1Policy) as ->.
  { unfold getChannelPolicy, CHANNEL_POLICIES in Hp. cbn [dict_get] in Hp. destruct (name =? _)%string; congruence. }
  assert (Hn : exists n, HYDRATE_DEPTH = S n) by by eexists. destruct Hn as (n & En).
  unfold hydrateEnvelope, hydrate_opt in Hh. rewrite En in Hh. clear En. rewrite (hydrate_free n b _ Ha) in Hh. cbn [res_bind] in Hh.
  apply res_bind_Ok in Hh as (to & _ & Hh). apply res_bind_Ok in Hh as (payload & Hpl & Hh).
  apply res_bind_Ok in Hh as (annotations & _ & Hh). apply res_bind_Ok in Hh as (causality & _ & Hh). injection Hh as <-.
  unfold policyViewFromChannelEvent, eventFromLogEnvelope, buildChannelEvent in Hv.
  cbn [ce_ts ce_messageId ce_id ce_type ce_payload ce_senderId ge_seq ge_event ev_envelopeId ev_actor ev_payloadKind ev_payload ev_appendedAt] in Hv.
  destruct (Date_parse _) as [ts|] eqn:Ed; [|done]. rewrite Ht in Hv. injection Hv as <-.
  rewrite (reparsed payload) by by eapply hydrate_json. destruct (hydrate_record n b _ _ Hw Hpl) as [Hget _].
  assert (Hsame : Forall (fun k => payload.!k = e.(ge_event).(ev_payload).!k) ["kind"; "actor"; "causality"]).
  { eapply List.Forall_impl; [|exact Hr]. cbn. intros k Hk. specialize (Hget k). rewrite (hydrate_free n b _ Hk) in Hget. congruence. }
  apply list.Forall_cons in Hsame as [E1 Hsame]. apply list.Forall_cons in Hsame as [E2 Hsame]. apply list.Forall_cons in Hsame as [E3 _].
  cbn [cp_reduce conversationV1Policy]. unfold reduce, completedMessageFrom, completedMessage.
  cbn [pv_payloadKind pv_payload pv_senderId pv_seq pv_appendedAt policyViewFromLogEnvelope].
  rewrite (hydrate_object n b _ _ Hw Hpl), E1. destruct (_ <>s? _); [done|]. destruct (negb _); [done|]. destruct (negb _); [done|].
  by rewrite E2, E3.
Qed.

Module Channel.
Section Props.
Context {G B : Type} `{!ChannelStore G, !ChannelStoreLaws G, !TextBlobs B}.
Context (channelId : string) (Hchannel : cs_channel channelId).
Implicit Types (w : World G B) (c : Config (G := G) (B := B)) (L : list GadEnvelope).

(** C15: Whatever runs beside them, and over any number of crashes, all the answers the
    channel gives for one call, or for one idempotency key, are one number, and the
    envelope with that number in the log is the end of that call, or the event with that
    key. *)
Theorem answers_agree c L op1 op2 n1 n2 id :
  reachable channelId c -> channel_log channelId c.(cf_world) L ->
  In (op1, n1) c.(cf_answers) -> In (op2, n2) c.(cf_answers) -> op_subject op1 = Some id -> op_subject op2 = Some id ->
  n1 = n2 /\ exists e, In e L /\ e.(ge_seq) = n1 /\ e.(ge_event).(ev_envelopeId) = id.
Proof.
  intros Hc HL H1 H2 E1 E2. destruct (config_reached_ok channelId Hchannel c Hc) as [_ _ Ha]. rewrite List.Forall_forall in Ha.
  pose proof (Ha _ H1 _ _ E1 eq_refl) as A1. pose proof (Ha _ H2 _ _ E2 eq_refl) as A2. split; [by eapply at_seq_fun|].
  destruct A1 as (L' & e & HL' & Hw & En). rewrite (cs_fun _ _ _ _ HL' HL) in Hw. apply with_id_Some in Hw as [Hin Ei]. by exists e.
Qed.

(** C17: Every event the channel has sent to anyone, live or replayed, is in its log under
    the number and the id it was sent with: nothing is shown before it is durable, and a
    crash takes back nothing that was shown. *)
Theorem shown_is_logged c L d phase event ref :
  reachable channelId c -> channel_log channelId c.(cf_world) L ->
  In d c.(cf_world).(w_sent) -> message_of d = RpcLog phase event ref ->
  exists e, In e L /\ event.(ce_id) = e.(ge_seq) /\
    event.(ce_messageId) = (let id := e.(ge_event).(ev_envelopeId) in if id =s? "" then pretty e.(ge_seq) else id).
Proof.
  intros Hc HL Hd Em. destruct (config_reached_ok channelId Hchannel c Hc) as [Hi _ _]. pose proof (inv_sent _ Hi _ Hd) as H.
  unfold sent_ok in H. rewrite Em in H. destruct H as (L' & e & HL' & H). rewrite (cs_fun _ _ _ _ HL' HL) in H. by exists e.
Qed.

(** C18: In every configuration, those reached by a clone of another channel included, the
    cached state of a policy, at the version of the policy, is the fold of the policy over
    the first envelopes of the log, as many as the cache says; whether the events came one
    by one as they were appended, or from pages read later, or both at once. The envelopes
    of the log are inline: what the policies read of them (sender, kind, actor and
    causality) is not stored by reference, and their times are written the way
    [toISOString] writes them. *)
Theorem fold_states_are_folds c L name cache policy :
  reachable channelId c -> channel_log channelId c.(cf_world) L -> Forall inline L ->
  dict_get name c.(cf_world).(w_keys).(kv_policyState) = Some cache ->
  getChannelPolicy name = Ok policy -> cache.(pc_policyVersion) = policy.(cp_version) ->
  let k := cache.(pc_foldedThroughSeq) in
  0 <= k <= Z.of_nat (length L) /\
  cache.(pc_state) = fold_left (fun s e => policy.(cp_reduce) s (policyViewFromLogEnvelope e)) (take (Z.to_nat k) L) policy.(cp_init).
Proof.
  intros Hc HL Hr Hg Hp Hv. destruct (config_reached_ok channelId Hchannel c Hc) as [Hi _ _].
  destruct (inv_caches _ Hi _ _ Hg policy Hp Hv L HL) as [Hb E]. split; [exact Hb|]. apply E.
  eapply List.Forall_impl; [|exact Hr]. intros e He. by apply (inline_readable name).
Qed.

(** In every configuration no two participants have one id, and no two have one
    handle. *)
Theorem roster_has_no_doubles c : reachable channelId c ->
  NoDup (map pa_id c.(cf_world).(w_participants)) /\ NoDup (omap pa_handle c.(cf_world).(w_participants)).
Proof. intros Hc. destruct (config_reached_ok channelId Hchannel c Hc) as [Hi _ _]. exact (inv_roster _ Hi). Qed.

(** C16: A call is settled, and a crash stops the channel after any number of steps. Then
    the call still has its row, or its end is in the log. A settle after the crash that
    completes answers with the number of that end and leaves no row; and if the first one
    had answered, the answer is the same, whatever result the second one brought. *)
Theorem settle_survives_crash t result isError opts result' isError' opts' n w w' answer :
  inv channelId w -> pending t w ->
  let stopped := steps n (settleCall channelId t result isError opts) w in
  run (settleCall channelId t result' isError' opts') (crash stopped.1) w' (Ok answer) ->
  (pending t stopped.1 \/ over channelId t stopped.1) /\
  (exists k, answer = Some k /\ at_seq channelId w' (terminalId t) k /\ ~ pending t w') /\
  (forall k, stopped.2 = Done (Ok (Some k)) -> answer = Some k).
Proof. exact (settle_again channelId Hchannel t result isError opts result' isError' opts' n w w' answer). Qed.

(** C19: The sweep, forced, ends for every log, however long, and after it there is a row
    for exactly the calls that started in the log and have not ended since; rows of such
    calls are kept as they were, and the sweep is recorded as done up to the end of the
    log. It does not fail unless a date in the log is no date. *)
Theorem sweep_restores_rows w L :
  cs_ok w.(w_store) -> channel_log channelId w L ->
  exists w' r, run (reconcilePendingCalls channelId true) w w' r /\
    (Forall (fun e => isSome (Date_parse e.(ge_event).(ev_appendedAt)) = true) L -> exists counts, r = Ok counts) /\
    (forall counts, r = Ok counts ->
       (forall t, In t (call_keys w') <-> open_call t L) /\
       (forall row, In row w.(w_calls) -> open_call row.(cr_transportCallId) L -> In row w'.(w_calls)) /\
       w'.(w_keys).(kv_reconciledThrough) = Some (Z.of_nat (length L))).
Proof.
  intros Hok HL. eexists _, _. split; [exact (run_reconcile channelId w L Hok HL)|]. split.
  - intros Hd. unfold reconcile_table. destruct (insert_rows_dated (missing_rows (pending_map L) w)
      (fold_left (fun w row => delete_row row.(cr_transportCallId) w) (stale_rows (pending_map L) w) w)) as (w2 & ->); [|by eexists].
    apply List.Forall_forall. intros row Hrow. by eapply missing_dated.
  - intros counts E. eapply (reconciled_calls L (Z.of_nat (length L)) w). rewrite <- E. by rewrite <- surjective_pairing.
Qed.
End Props.

(** C20: A replayed event is the event that was shown live: what a subscriber is shown of
    an envelope through a window of the log equals what it was shown when the envelope was
    appended, sender, metadata, attachments, annotations and stored values included. Only
    an envelope of the kind opaque is replayed under another type, that of a message. The
    annotations are not one reference to a stored value. *)
Theorem replay_shows_live {B : Type} `{!TextBlobs B} (b : B) channelId e e' view :
  hydrateEnvelope b e = Ok e' -> hydrateStoredValueRefs HYDRATE_DEPTH b (channelEnvelopeView channelId e) = Ok view ->
  isStoredValueRef (default (VObj []) e.(ge_event).(ev_annotations)) = false ->
  let live := eventFromLogEnvelope e' in
  eventFromChannelView view
  = if e.(ge_event).(ev_payloadKind) =s? "opaque" then with_type "message" live else live.
Proof.
  intros He Hv Ha. cbn zeta. rewrite (replayed_event b channelId e e' view He Hv Ha). unfold replayed_type. destruct (_ =s? "opaque"); [done|].
  rewrite <- (hydrate_kind b e e' He). by destruct (eventFromLogEnvelope e').
Qed.

(** C21: A payload whose reference fields and long texts were moved to the blob store
    reads back as it was, from the store as it is then or with any blobs added since. *)
Theorem stored_payload_returns {B : Type} `{!TextBlobs B, !TextBlobsLaws B} payload (b b1 b2 : B) encoded :
  json_val payload -> ref_free payload -> encodeChannelPayloadStoredValues payload b = Ok (b1, encoded) ->
  (forall digest t, getText b1 digest = Some t -> getText b2 digest = Some t) ->
  hydrateStoredValueRefs HYDRATE_DEPTH b2 encoded = Ok payload.
Proof.
  intros Hj Hr E Hk. unfold encodeChannelPayloadStoredValues, encodeStorageClasses in E.
  destruct (encode_back _ _ _ _ _ 62 Hj Hr _ _ E) as [_ H]. exact (H b2 Hk).
Qed.

(** * Witnesses *)

Lemma sample_In {A} (f : A -> bool) (l : list A) x : List.find f l = Some x -> In x l.
Proof. by intros [H _]%find_some. Qed.

Lemma answers_agree_witness :
  let L := sample_read sample_settled in
  In (sample_submit (VNum 7), 4) (cf_answers sample_settled) /\ In (sample_submit (VNum 8), 4) (cf_answers sample_settled) /\
  4 = 4 /\ exists e, In e L /\ e.(ge_seq) = 4 /\ e.(ge_event).(ev_envelopeId) = "terminal:call1".
Proof.
  assert (H1 : In (sample_submit (VNum 7), 4) (cf_answers sample_settled)) by (right; left; reflexivity).
  assert (H2 : In (sample_submit (VNum 8), 4) (cf_answers sample_settled)) by (right; right; left; reflexivity).
  split; [exact H1|]. split; [exact H2|].
  refine (answers_agree "room" sample_channel sample_settled (sample_read sample_settled) _ _ 4 4 "terminal:call1" _ _ H1 H2 eq_refl eq_refl).
  - apply settled_rests.
  - apply sample_log; [apply settled_rests|vm_compute; lia].
Defined.

Lemma shown_is_logged_witness :
  exists d event, In d (w_sent (cf_world sample_settled)) /\ message_of d = RpcLog Live event None /\
  exists e, In e (sample_read sample_settled) /\ event.(ce_id) = e.(ge_seq) /\
    event.(ce_messageId) = (let id := e.(ge_event).(ev_envelopeId) in if id =s? "" then pretty e.(ge_seq) else id).
Proof.
  assert (H : exists d event, In d (w_sent (cf_world sample_settled)) /\ message_of d = RpcLog Live event None)
    by (eexists _, _; split; [left; reflexivity|reflexivity]).
  destruct H as (d & event & Hd & Em). exists d, event. split; [exact Hd|]. split; [exact Em|].
  refine (shown_is_logged "room" sample_channel sample_settled (sample_read sample_settled) d Live event None _ _ Hd Em).
  - apply settled_rests.
  - apply sample_log; [apply settled_rests|vm_compute; lia].
Defined.

Lemma talk_inline : Forall inline (sample_read sample_talk).
Proof.
  assert (E : exists L, sample_read sample_talk = L) by by eexists. destruct E as (L & E). rewrite E. vm_compute in E. subst L.
  repeat first [apply List.Forall_cons|apply List.Forall_nil]; (constructor; [..|vm_compute; reflexivity]).
  all: try (vm_compute; reflexivity).
  all: cbn; repeat split; try (by apply (bool_decide_unpack _)).
  all: repeat first [apply List.Forall_cons|apply List.Forall_nil]; cbn; repeat split.
Qed.

Lemma fold_states_are_folds_witness :
  exists cache, dict_get "agentic.conversation.v1" (kv_policyState (w_keys (cf_world sample_talk))) = Some cache /\
  let L := sample_read sample_talk in let k := cache.(pc_foldedThroughSeq) in
  0 <= k <= Z.of_nat (length L) /\
  cache.(pc_state) = fold_left (fun s e => reduce s (policyViewFromLogEnvelope e)) (take (Z.to_nat k) L) init.
Proof.
  eexists. split; [reflexivity|].
  refine (fold_states_are_folds "room" sample_channel sample_talk (sample_read sample_talk) "agentic.conversation.v1" _ conversationV1Policy
            _ _ talk_inline _ _ _); try reflexivity.
  - apply talk_rests.
  - apply sample_log; [apply talk_rests|vm_compute; lia].
Defined.

(** The clone folds its own, shorter log, not the one its parent folded. *)
Example clone_refolds :
  map (fun kv => kv.2.(pc_foldedThroughSeq)) (kv_policyState (w_keys (cf_world sample_talk))) = [2] /\
  map (fun kv => kv.2.(pc_foldedThroughSeq)) (kv_policyState (w_keys (cf_world sample_clone))) = [1] /\
  map ge_seq sample_clone_log = [1] /\ sample_clone.(cf_world).(w_participants) = [].
Proof. vm_compute. done. Qed.

(** A completed message whose time has an offset is folded with one time as it comes and
    with another when it is read later. *)
Definition sample_offset : GadEnvelope :=
  mkGadEnvelope "room" CHANNEL_LOG_HEAD 1
    (mkLogEvent "m" (VObj [("id", VStr "agent:a")]) None AGENTIC_EVENT_PAYLOAD_KIND sample_completed None None
       "2023-11-14T23:13:21.000+01:00") "" "".

Example offset_time_folds_apart :
  match policyViewFromChannelEvent (eventFromLogEnvelope sample_offset) with
  | Ok live => cv_lastCompletedAt (reduce init live) = Some "2023-11-14T22:13:21.000Z"
  | Throw _ => False
  end /\
  cv_lastCompletedAt (reduce init (policyViewFromLogEnvelope sample_offset)) = Some "2023-11-14T23:13:21.000+01:00".
Proof. vm_compute. done. Qed.

(** An opaque envelope is live of the type opaque, and replayed as a message. *)
Definition sample_opaque : GadEnvelope :=
  mkGadEnvelope "room" CHANNEL_LOG_HEAD 1
    (mkLogEvent "o" (VObj [("id", VStr "agent:a")]) None "opaque" (VStr "x") None None "2023-11-14T22:13:21.000Z") "" "".

Example opaque_replayed_as_message :
  (eventFromLogEnvelope sample_opaque).(ce_type) = "opaque" /\
  (eventFromChannelView (channelEnvelopeView "room" sample_opaque)).(ce_type) = "message".
Proof. vm_compute. done. Qed.

Lemma roster_has_no_doubles_witness : NoDup ["panel:p"] /\ NoDup ["pan"].
Proof. exact (roster_has_no_doubles "room" sample_channel sample_settled (proj1 settled_rests)). Defined.

Lemma settle_survives_crash_witness :
  let w := cf_world sample_called in
  let settle result := settleCall "room" "call1" result false default_settle in
  let stopped := steps 20 (settle (VNum 7)) w in
  pending "call1" w /\ exists w' answer, run (settle (VNum 8)) (crash stopped.1) w' (Ok answer) /\
    (pending "call1" stopped.1 \/ over "room" "call1" stopped.1) /\
    (exists k, answer = Some k /\ at_seq "room" w' "terminal:call1" k /\ ~ pending "call1" w') /\
    (forall k, stopped.2 = Done (Ok (Some k)) -> answer = Some k).
Proof.
  cbn zeta. assert (Hp : pending "call1" (cf_world sample_called)) by (left; reflexivity). split; [exact Hp|].
  assert (Hi : inv "room" (cf_world sample_called)) by apply (ok_world _ _ (config_reached_ok "room" sample_channel _ (proj1 called_rests))).
  assert (Hrun : exists w' answer, run (settleCall "room" "call1" (VNum 8) false default_settle)
    (crash (steps 20 (settleCall "room" "call1" (VNum 7) false default_settle) (cf_world sample_called)).1) w' (Ok answer)).
  { eexists _, _. apply (exec_run 5000). vm_compute. reflexivity. }
  destruct Hrun as (w' & answer & Hrun). exists w', answer. split; [exact Hrun|].
  exact (settle_survives_crash "room" sample_channel "call1" (VNum 7) false default_settle (VNum 8) false default_settle 20
           (cf_world sample_called) w' answer Hi Hp Hrun).
Defined.

Lemma sweep_restores_rows_witness :
  let w := set_calls [] (cf_world sample_called) in let L := sample_read sample_called in
  exists w' r, run (reconcilePendingCalls "room" true) w w' r /\
    (Forall (fun e => isSome (Date_parse e.(ge_event).(ev_appendedAt)) = true) L -> exists counts, r = Ok counts) /\
    (forall counts, r = Ok counts ->
       (forall t, In t (call_keys w') <-> open_call t L) /\
       (forall row, In row w.(w_calls) -> open_call row.(cr_transportCallId) L -> In row w'.(w_calls)) /\
       w'.(w_keys).(kv_reconciledThrough) = Some (Z.of_nat (length L))).
Proof.
  refine (sweep_restores_rows "room" (set_calls [] (cf_world sample_called)) (sample_read sample_called) _ _).
  - exact (inv_store _ (ok_world _ _ (config_reached_ok "room" sample_channel _ (proj1 called_rests)))).
  - change (channel_log "room" (cf_world sample_called) (sample_read sample_called)). apply sample_log; [apply called_rests|vm_compute; lia].
Defined.

Lemma replay_shows_live_witness :
  isStoredValueRef sample_start_event.(ge_event).(ev_payload).!"payload".!"request" = true /\
  eventFromChannelView sample_start_view = eventFromLogEnvelope sample_start_hydrated.
Proof.
  split; [reflexivity|].
  refine (replay_shows_live (w_blobs (cf_world sample_called)) "room" sample_start_event sample_start_hydrated sample_start_view _ _ _).
  - vm_compute. reflexivity.
  - vm_compute. reflexivity.
  - reflexivity.
Defined.

Lemma stored_payload_returns_witness :
  let payload := VObj [("kind", VStr "invocation.started"); ("payload", VObj [("request", VArr [VNum 1; VStr "x"]); ("name", VStr "show")])] in
  exists b1 encoded, encodeChannelPayloadStoredValues payload ([] : Texts) = Ok (b1, encoded) /\
    isStoredValueRef encoded.!"payload".!"request" = true /\
    hydrateStoredValueRefs HYDRATE_DEPTH (b1 ++ ["more"] : Texts) encoded = Ok payload.
Proof.
  cbn zeta. set (payload := VObj _).
  assert (H : exists b1 encoded, encodeChannelPayloadStoredValues payload ([] : Texts) = Ok (b1, encoded) /\
    isStoredValueRef encoded.!"payload".!"request" = true) by (eexists _, _; vm_compute; repeat split).
  destruct H as (b1 & encoded & E & Hr). exists b1, encoded. split; [exact E|]. split; [exact Hr|].
  refine (stored_payload_returns payload [] b1 (b1 ++ ["more"]) encoded _ _ E _).
  - unfold payload. cbn [json_val]. repeat split; by apply (bool_decide_unpack _).
  - vm_compute. repeat split.
  - intros digest t. cbn. destruct (existsb (String.eqb digest) b1) eqn:Eb; [|done]. intros [= <-]. by rewrite existsb_app, Eb.
Defined.

(** * What the code does not do *)

(** A call that started, lost its row to a crash and is past its deadline: the alarm
    leaves it without a row and without an end, because a later call has moved the mark
    the sweep compares with the end of the log. *)
Example lost_start_is_hidden :
  map (fun row => (row.(pr_transportCallId), row.(pr_deadlineAt))) (derivePendingCalls (sample_read sample_overdue))
    = [("call1", Some 1700000061000)] /\
  w_now (cf_world sample_overdue) = 1700000121000 /\ call_keys (cf_world sample_overdue) = [] /\
  kv_reconciledThrough (w_keys (cf_world sample_overdue)) = Some 4 /\ length (sample_read sample_overdue) = 4%nat.
Proof. by vm_compute. Qed.

(** The start of a call under the terminal id of another is taken for the end of the
    other: its result is lost, and its row is gone. *)
Example start_taken_for_end :
  In (sample_submit (VNum 7), 4) (cf_answers sample_squatted) /\
  option_map (fun e => e.(ge_event).(ev_payload).!"kind") (List.find (fun e => e.(ge_seq) =? 4) (sample_read sample_squatted))
    = Some (VStr "invocation.started") /\
  call_keys (cf_world sample_squatted) = ["x"].
Proof. split; [right; left; reflexivity|]. by vm_compute. Qed.
End Channel.
