(* ===== verification/AgentLoops.v ===== *)
(** The loops of an agent (agentic-do/src/agent-loop-driver.ts), up to the effects: what
    the driver keeps, loading the loop of a channel, appending to its log, folding what
    was appended and going on with the events of it, settling, waking, and recovering a
    turn that nothing moves any more. The driver runs one function between two awaits;
    the log service, the blobs and the executors answer from outside. *)
From stdpp Require Import gmap.
From S2P Require Import Prelude Dict JsValue JsText JsAsync AgentIds AgentState AgentFold AgentEffects AgentStep.
From S2P Require Import AgentCache AgentOutbox AgentPolicies GadCanon GadRefs GadAppend GadStored.
#[local] Open Scope Z_scope.

(** * What the driver calls *)

(** The calls of the driver on the gad store, each one transaction there. *)
Class AgentStore (G : Type) := {
  as_getLogHead : G -> string -> string -> option LogHead;
  as_readLog : G -> string -> string -> Z -> nat -> res (list LogEnvelope);
  as_getLogEvent : G -> string -> string -> string -> res (option LogEnvelope);
  as_appendLogEvent : G -> AppendLogEventInput -> res (G * (list LogEnvelope * list Publication))
}.

(** What an executor throws, as the failure classifier sees it. *)
Record ThrownError := mkThrown {
  th_message : string;
  th_error : val
}.

(** The dependencies the vessel gives its driver, and the classifier of a failed model call;
    [S] is the vessel's settings, which change. *)
Class DriverDeps (S : Type) := {
  selfRefFor : string -> val;
  configFor : S -> string -> val;
  policiesFor : S -> string -> list StepPolicy;
  connectSpecFor : S -> string -> res val;
  runBackground : bool;
  minEntries : option Z;
  triggerBytes : option Z;
  classifyThrown : ThrownError -> val -> val -> string -> ModelFailureInfo
}.

(** * What the driver keeps *)

(** A loop; its step is the composition of the policies it was made with. *)
Record LoopInstance := mkLoop {
  lp_channelId : string;
  lp_logId : string;
  lp_head : string;
  lp_state : AgentState;
  lp_policies : list StepPolicy
}.

Record ScheduledModelResumeRow := mkResume {
  sm_channelId : string;
  sm_messageId : string;
  sm_resetAtMs : Z;
  sm_createdAt : Z
}.

(** An abort controller, by its number, and the dispatch it belongs to. *)
Record AbortEntry := mkAbort {
  ab_controller : nat;
  ab_branchId : string;
  ab_effectId : string;
  ab_channelId : string
}.

(** A call of an executor, and how it ends. *)
Record ExecRun := mkRun {
  xr_descriptor : EffectDescriptor;
  xr_state : AgentState;
  xr_signal : option nat
}.

Inductive ExecAnswer := XOutcome (outcome : EffectOutcome) | XDeferred | XThrow (error : ThrownError).

(** Work started and not awaited by whoever started it: the pump, a detached dispatch, and
    the members of the [Promise.all] of [dispatchDue]. *)
Inductive Task :=
| TPump
| TDetached (row : OutboxRow)
| TDispatch (row : OutboxRow)
| TFail (row : OutboxRow) (message : string).

(** A trace of the answered appends that nothing reads: the instance, the number its fold
    had reached, the head before, and the envelopes of the answer. *)
Record Served := mkServed {
  sv_loop : nat;
  sv_lastSeq : Z;
  sv_headSeq : Z;
  sv_envelopes : list LogEnvelope
}.

(** The two stores, the settings and the clocks; the tables of the durable object and its
    alarm; its memory, where [w_loops] is the entries of a [Map], a deleted one left empty,
    and loops live at a place of [w_heap]; and what it started or sent. *)
Record World (G B S : Type) := mkWorld {
  w_store : G;
  w_blobs : B;
  w_settings : S;
  w_now : Z;
  w_uuid : string;
  w_storeNow : string;
  w_outbox : Outbox;
  w_cache : CacheTable;
  w_resumes : list ScheduledModelResumeRow;
  w_alarm : option Z;
  w_heap : list LoopInstance;
  w_loops : list (option (string * nat));
  w_aborts : dict AbortEntry;
  w_aborted : list nat;
  w_controllers : nat;
  w_pumping : bool;
  w_repump : bool;
  w_tasks : list Task;
  w_settled : list (nat * res unit);
  w_runs : list ExecRun;
  w_answers : list (nat * ExecAnswer);
  w_broadcasts : list (string * list string);
  w_shown : list EphemeralSignal;
  w_heartbeats : list (string * EffectDescriptor * EffectOutcome);
  w_served : list Served
}.
Arguments mkWorld {G B S}.
Arguments w_store {G B S}. Arguments w_blobs {G B S}. Arguments w_settings {G B S}. Arguments w_now {G B S}.
Arguments w_uuid {G B S}. Arguments w_storeNow {G B S}. Arguments w_outbox {G B S}. Arguments w_cache {G B S}.
Arguments w_resumes {G B S}. Arguments w_alarm {G B S}. Arguments w_heap {G B S}. Arguments w_loops {G B S}.
Arguments w_aborts {G B S}. Arguments w_aborted {G B S}. Arguments w_controllers {G B S}. Arguments w_pumping {G B S}.
Arguments w_repump {G B S}. Arguments w_tasks {G B S}. Arguments w_settled {G B S}. Arguments w_runs {G B S}.
Arguments w_answers {G B S}. Arguments w_broadcasts {G B S}. Arguments w_shown {G B S}. Arguments w_heartbeats {G B S}.
Arguments w_served {G B S}.

Section Loops.
Context {G B S : Type} `{!AgentStore G, !TextBlobs B, !DriverDeps S, !ModelFailureClassifier}.
Abbreviation World := (World G B S).
Abbreviation prog := (prog World).
Implicit Types w : World.

(** * Updates *)

Definition set_store (x : G) w : World :=
  mkWorld
    x w.(w_blobs) w.(w_settings) w.(w_now) w.(w_uuid) w.(w_storeNow) w.(w_outbox) w.(w_cache) w.(w_resumes)
    w.(w_alarm) w.(w_heap) w.(w_loops) w.(w_aborts) w.(w_aborted) w.(w_controllers) w.(w_pumping)
    w.(w_repump) w.(w_tasks) w.(w_settled) w.(w_runs) w.(w_answers) w.(w_broadcasts) w.(w_shown)
    w.(w_heartbeats) w.(w_served).
Definition set_blobs (x : B) w : World :=
  mkWorld
    w.(w_store) x w.(w_settings) w.(w_now) w.(w_uuid) w.(w_storeNow) w.(w_outbox) w.(w_cache) w.(w_resumes)
    w.(w_alarm) w.(w_heap) w.(w_loops) w.(w_aborts) w.(w_aborted) w.(w_controllers) w.(w_pumping)
    w.(w_repump) w.(w_tasks) w.(w_settled) w.(w_runs) w.(w_answers) w.(w_broadcasts) w.(w_shown)
    w.(w_heartbeats) w.(w_served).
Definition set_outbox (x : Outbox) w : World :=
  mkWorld
    w.(w_store) w.(w_blobs) w.(w_settings) w.(w_now) w.(w_uuid) w.(w_storeNow) x w.(w_cache) w.(w_resumes)
    w.(w_alarm) w.(w_heap) w.(w_loops) w.(w_aborts) w.(w_aborted) w.(w_controllers) w.(w_pumping)
    w.(w_repump) w.(w_tasks) w.(w_settled) w.(w_runs) w.(w_answers) w.(w_broadcasts) w.(w_shown)
    w.(w_heartbeats) w.(w_served).
Definition set_cache (x : CacheTable) w : World :=
  mkWorld
    w.(w_store) w.(w_blobs) w.(w_settings) w.(w_now) w.(w_uuid) w.(w_storeNow) w.(w_outbox) x w.(w_resumes)
    w.(w_alarm) w.(w_heap) w.(w_loops) w.(w_aborts) w.(w_aborted) w.(w_controllers) w.(w_pumping)
    w.(w_repump) w.(w_tasks) w.(w_settled) w.(w_runs) w.(w_answers) w.(w_broadcasts) w.(w_shown)
    w.(w_heartbeats) w.(w_served).
Definition set_resumes (x : list ScheduledModelResumeRow) w : World :=
  mkWorld
    w.(w_store) w.(w_blobs) w.(w_settings) w.(w_now) w.(w_uuid) w.(w_storeNow) w.(w_outbox) w.(w_cache) x
    w.(w_alarm) w.(w_heap) w.(w_loops) w.(w_aborts) w.(w_aborted) w.(w_controllers) w.(w_pumping)
    w.(w_repump) w.(w_tasks) w.(w_settled) w.(w_runs) w.(w_answers) w.(w_broadcasts) w.(w_shown)
    w.(w_heartbeats) w.(w_served).
Definition set_alarm (x : option Z) w : World :=
  mkWorld
    w.(w_store) w.(w_blobs) w.(w_settings) w.(w_now) w.(w_uuid) w.(w_storeNow) w.(w_outbox) w.(w_cache)
    w.(w_resumes) x w.(w_heap) w.(w_loops) w.(w_aborts) w.(w_aborted) w.(w_controllers) w.(w_pumping)
    w.(w_repump) w.(w_tasks) w.(w_settled) w.(w_runs) w.(w_answers) w.(w_broadcasts) w.(w_shown)
    w.(w_heartbeats) w.(w_served).
Definition set_heap (x : list LoopInstance) w : World :=
  mkWorld
    w.(w_store) w.(w_blobs) w.(w_settings) w.(w_now) w.(w_uuid) w.(w_storeNow) w.(w_outbox) w.(w_cache)
    w.(w_resumes) w.(w_alarm) x w.(w_loops) w.(w_aborts) w.(w_aborted) w.(w_controllers) w.(w_pumping)
    w.(w_repump) w.(w_tasks) w.(w_settled) w.(w_runs) w.(w_answers) w.(w_broadcasts) w.(w_shown)
    w.(w_heartbeats) w.(w_served).
Definition set_loops (x : list (option (string * nat))) w : World :=
  mkWorld
    w.(w_store) w.(w_blobs) w.(w_settings) w.(w_now) w.(w_uuid) w.(w_storeNow) w.(w_outbox) w.(w_cache)
    w.(w_resumes) w.(w_alarm) w.(w_heap) x w.(w_aborts) w.(w_aborted) w.(w_controllers) w.(w_pumping)
    w.(w_repump) w.(w_tasks) w.(w_settled) w.(w_runs) w.(w_answers) w.(w_broadcasts) w.(w_shown)
    w.(w_heartbeats) w.(w_served).
Definition set_aborts (x : dict AbortEntry) w : World :=
  mkWorld
    w.(w_store) w.(w_blobs) w.(w_settings) w.(w_now) w.(w_uuid) w.(w_storeNow) w.(w_outbox) w.(w_cache)
    w.(w_resumes) w.(w_alarm) w.(w_heap) w.(w_loops) x w.(w_aborted) w.(w_controllers) w.(w_pumping)
    w.(w_repump) w.(w_tasks) w.(w_settled) w.(w_runs) w.(w_answers) w.(w_broadcasts) w.(w_shown)
    w.(w_heartbeats) w.(w_served).
Definition set_aborted (x : list nat) w : World :=
  mkWorld
    w.(w_store) w.(w_blobs) w.(w_settings) w.(w_now) w.(w_uuid) w.(w_storeNow) w.(w_outbox) w.(w_cache)
    w.(w_resumes) w.(w_alarm) w.(w_heap) w.(w_loops) w.(w_aborts) x w.(w_controllers) w.(w_pumping)
    w.(w_repump) w.(w_tasks) w.(w_settled) w.(w_runs) w.(w_answers) w.(w_broadcasts) w.(w_shown)
    w.(w_heartbeats) w.(w_served).
Definition set_controllers (x : nat) w : World :=
  mkWorld
    w.(w_store) w.(w_blobs) w.(w_settings) w.(w_now) w.(w_uuid) w.(w_storeNow) w.(w_outbox) w.(w_cache)
    w.(w_resumes) w.(w_alarm) w.(w_heap) w.(w_loops) w.(w_aborts) w.(w_aborted) x w.(w_pumping) w.(w_repump)
    w.(w_tasks) w.(w_settled) w.(w_runs) w.(w_answers) w.(w_broadcasts) w.(w_shown) w.(w_heartbeats)
    w.(w_served).
Definition set_pumping (x : bool) w : World :=
  mkWorld
    w.(w_store) w.(w_blobs) w.(w_settings) w.(w_now) w.(w_uuid) w.(w_storeNow) w.(w_outbox) w.(w_cache)
    w.(w_resumes) w.(w_alarm) w.(w_heap) w.(w_loops) w.(w_aborts) w.(w_aborted) w.(w_controllers) x
    w.(w_repump) w.(w_tasks) w.(w_settled) w.(w_runs) w.(w_answers) w.(w_broadcasts) w.(w_shown)
    w.(w_heartbeats) w.(w_served).
Definition set_repump (x : bool) w : World :=
  mkWorld
    w.(w_store) w.(w_blobs) w.(w_settings) w.(w_now) w.(w_uuid) w.(w_storeNow) w.(w_outbox) w.(w_cache)
    w.(w_resumes) w.(w_alarm) w.(w_heap) w.(w_loops) w.(w_aborts) w.(w_aborted) w.(w_controllers)
    w.(w_pumping) x w.(w_tasks) w.(w_settled) w.(w_runs) w.(w_answers) w.(w_broadcasts) w.(w_shown)
    w.(w_heartbeats) w.(w_served).
Definition set_tasks (x : list Task) w : World :=
  mkWorld
    w.(w_store) w.(w_blobs) w.(w_settings) w.(w_now) w.(w_uuid) w.(w_storeNow) w.(w_outbox) w.(w_cache)
    w.(w_resumes) w.(w_alarm) w.(w_heap) w.(w_loops) w.(w_aborts) w.(w_aborted) w.(w_controllers)
    w.(w_pumping) w.(w_repump) x w.(w_settled) w.(w_runs) w.(w_answers) w.(w_broadcasts) w.(w_shown)
    w.(w_heartbeats) w.(w_served).
Definition set_settled (x : list (nat * res unit)) w : World :=
  mkWorld
    w.(w_store) w.(w_blobs) w.(w_settings) w.(w_now) w.(w_uuid) w.(w_storeNow) w.(w_outbox) w.(w_cache)
    w.(w_resumes) w.(w_alarm) w.(w_heap) w.(w_loops) w.(w_aborts) w.(w_aborted) w.(w_controllers)
    w.(w_pumping) w.(w_repump) w.(w_tasks) x w.(w_runs) w.(w_answers) w.(w_broadcasts) w.(w_shown)
    w.(w_heartbeats) w.(w_served).
Definition set_runs (x : list ExecRun) w : World :=
  mkWorld
    w.(w_store) w.(w_blobs) w.(w_settings) w.(w_now) w.(w_uuid) w.(w_storeNow) w.(w_outbox) w.(w_cache)
    w.(w_resumes) w.(w_alarm) w.(w_heap) w.(w_loops) w.(w_aborts) w.(w_aborted) w.(w_controllers)
    w.(w_pumping) w.(w_repump) w.(w_tasks) w.(w_settled) x w.(w_answers) w.(w_broadcasts) w.(w_shown)
    w.(w_heartbeats) w.(w_served).
Definition set_broadcasts (x : list (string * list string)) w : World :=
  mkWorld
    w.(w_store) w.(w_blobs) w.(w_settings) w.(w_now) w.(w_uuid) w.(w_storeNow) w.(w_outbox) w.(w_cache)
    w.(w_resumes) w.(w_alarm) w.(w_heap) w.(w_loops) w.(w_aborts) w.(w_aborted) w.(w_controllers)
    w.(w_pumping) w.(w_repump) w.(w_tasks) w.(w_settled) w.(w_runs) w.(w_answers) x w.(w_shown)
    w.(w_heartbeats) w.(w_served).
Definition set_shown (x : list EphemeralSignal) w : World :=
  mkWorld
    w.(w_store) w.(w_blobs) w.(w_settings) w.(w_now) w.(w_uuid) w.(w_storeNow) w.(w_outbox) w.(w_cache)
    w.(w_resumes) w.(w_alarm) w.(w_heap) w.(w_loops) w.(w_aborts) w.(w_aborted) w.(w_controllers)
    w.(w_pumping) w.(w_repump) w.(w_tasks) w.(w_settled) w.(w_runs) w.(w_answers) w.(w_broadcasts) x
    w.(w_heartbeats) w.(w_served).
Definition set_heartbeats (x : list (string * EffectDescriptor * EffectOutcome)) w : World :=
  mkWorld
    w.(w_store) w.(w_blobs) w.(w_settings) w.(w_now) w.(w_uuid) w.(w_storeNow) w.(w_outbox) w.(w_cache)
    w.(w_resumes) w.(w_alarm) w.(w_heap) w.(w_loops) w.(w_aborts) w.(w_aborted) w.(w_controllers)
    w.(w_pumping) w.(w_repump) w.(w_tasks) w.(w_settled) w.(w_runs) w.(w_answers) w.(w_broadcasts)
    w.(w_shown) x w.(w_served).
Definition set_served (x : list Served) w : World :=
  mkWorld
    w.(w_store) w.(w_blobs) w.(w_settings) w.(w_now) w.(w_uuid) w.(w_storeNow) w.(w_outbox) w.(w_cache)
    w.(w_resumes) w.(w_alarm) w.(w_heap) w.(w_loops) w.(w_aborts) w.(w_aborted) w.(w_controllers)
    w.(w_pumping) w.(w_repump) w.(w_tasks) w.(w_settled) w.(w_runs) w.(w_answers) w.(w_broadcasts)
    w.(w_shown) w.(w_heartbeats) x.

(** * The map of loops *)

Definition no_loop : LoopInstance :=
  mkLoop "" "" "" (initialAgentState (mkInitialStateInput "" None None VUndef None None None None)) [].

Definition instance w (i : nat) : LoopInstance := default no_loop (w.(w_heap) !! i).
Definition loop_state w (i : nat) : AgentState := (instance w i).(lp_state).

Definition is_entry (channelId : string) (entry : option (string * nat)) : bool :=
  match entry with Some (k, _) => k =s? channelId | None => false end.

(** [loops.get]. *)
Definition loops_get (channelId : string) (loops : list (option (string * nat))) : option nat :=
  match List.find (is_entry channelId) loops with Some (Some (_, i)) => Some i | _ => None end.

Definition loops_delete (channelId : string) (loops : list (option (string * nat))) : list (option (string * nat)) :=
  map (fun entry => if is_entry channelId entry then None else entry) loops.

(** [loops.set]: an entry there is keeps its place. *)
Definition loops_put (channelId : string) (i : nat) (loops : list (option (string * nat)))
    : list (option (string * nat)) :=
  if isSome (loops_get channelId loops)
  then map (fun entry => if is_entry channelId entry then Some (channelId, i) else entry) loops
  else loops ++ [Some (channelId, i)].

Definition dropLoop (channelId : string) w : World := set_loops (loops_delete channelId w.(w_loops)) w.

Definition with_state (st : AgentState) (l : LoopInstance) : LoopInstance :=
  mkLoop l.(lp_channelId) l.(lp_logId) l.(lp_head) st l.(lp_policies).

(** [loop.state = st]. *)
Definition set_state (i : nat) (st : AgentState) w : World :=
  set_heap (<[i := with_state st (instance w i)]> w.(w_heap)) w.

(** [foldCache.write(loop.state)]. *)
Definition write_cache (i : nat) w : World := set_cache (cache_write w.(w_cache) (loop_state w i)) w.

(** * The alarm and the pump *)

Definition earliestScheduledModelResumeAt w : option Z :=
  match w.(w_resumes) with
  | [] => None
  | row :: rest => Some (fold_left (fun m r => Z.min m r.(sm_resetAtMs)) rest row.(sm_resetAtMs))
  end.

Definition arm (at_ : option Z) w : World := match at_ with Some t => set_alarm (Some t) w | None => w end.

Definition schedule_earliest w : World :=
  arm (AgentOutbox.scheduleEarliest w.(w_outbox) (earliestScheduledModelResumeAt w) w.(w_now)) w.

Definition spawn (task : Task) w : World := set_tasks (w.(w_tasks) ++ [task]) w.

(** The flags of a pump that starts. *)
Definition pump_starts w : World := set_repump false (set_pumping true w).

(** A pump called in the background sets its flags at once; what it does in that turn
    besides may come before anything else does. *)
Definition request_pump w : World :=
  match AgentOutbox.requestPump w.(w_pumping) w.(w_now) with
  | Repump => set_repump true w
  | PumpAt t =>
      let w := set_alarm (Some t) w in
      if runBackground then spawn TPump (pump_starts w) else w
  end.

(** [reconcile] of a loop, in one turn. *)
Definition reconcile_loop (i : nat) w : World :=
  let l := instance w i in
  let '(ob, at_) :=
    AgentOutbox.reconcile w.(w_outbox) l.(lp_logId) l.(lp_state) (earliestScheduledModelResumeAt w) w.(w_now) in
  arm at_ (set_outbox ob w).

Definition reconcile_ (i : nat) : prog unit := async (modify (reconcile_loop i)).

(** * Loading *)

Definition lift {A} (r : res A) : prog A := Done r.

Definition load_input (channelId : string) w : LoadInput :=
  let logId := ids.logIdForChannel channelId in
  {| li_logId := logId; li_head := logId; li_channelId := channelId;
     li_config := configFor w.(w_settings) channelId;
     li_selfId := as_str (selfRefFor channelId).!"id" |}.

(** The pages of a log behind a number, each one read when the one before has come. *)
Definition read_all (logId head : string) (afterSeq : Z) : prog (list LogEnvelope) :=
  async (while
    (fun s : list LogEnvelope * Z =>
       let '(all, cursor) := s in
       let* page := remote (fun w => (w, as_readLog w.(w_store) logId head cursor PAGE)) in
       match list.last page with
       | None => ret (inr all)
       | Some e =>
           if (length page <? PAGE)%nat then ret (inr (all ++ page))
           else ret (inl (all ++ page, e.(env_seq)))
       end) ([], afterSeq)).

Definition refold (initial : AgentState) (forkSeq : Z) (envelopes : list LogEnvelope) : res AgentState :=
  let state := with_lastSeq 0 initial in
  let state := match envelopes with e :: _ => with_lastHash e.(env_prevHash) state | [] => state end in
  let! state := foldEvents state envelopes in
  let state := match envelopes with [] => with_lastSeq forkSeq state | _ => state end in
  Ok (with_forkSeq forkSeq state).

Definition cold_refold (input : LoadInput) (remote : LogHead) : prog AgentState :=
  async (let* envelopes := read_all input.(li_logId) input.(li_head) 0 in
         lift (refold (emptyState input (Some remote)) (default 0 remote.(lh_forkSeq)) envelopes)).

(** [this.write(state)] of the fold cache. *)
Definition stored (state : AgentState) : prog AgentState :=
  modify (fun w => set_cache (cache_write w.(w_cache) state) w) ;; ret state.

(** [FoldCache.loadState] of a log with a head. *)
Definition load_known (input : LoadInput) (remote : LogHead) : prog AgentState :=
  let forkSeq := default 0 remote.(lh_forkSeq) in
  let* row := get (fun w => cache_read w.(w_cache) input.(li_logId) input.(li_head)) in
  match row with
  | None => let* state := cold_refold input remote in stored state
  | Some cached =>
      if (cached.(lastSeq) =? remote.(lh_seq)) && (cached.(lastHash) =s? remote.(lh_hash))
      then ret (overlayCached input forkSeq cached)
      else if cached.(lastSeq) <? remote.(lh_seq) then
        let* tail := read_all input.(li_logId) input.(li_head) cached.(lastSeq) in
        if match tail with e :: _ => e.(env_prevHash) <>s? cached.(lastHash) | [] => false end
        then let* state := cold_refold input remote in stored state
        else let* state := lift (foldEvents (overlayCached input forkSeq cached) tail) in stored state
      else let* state := cold_refold input remote in stored state
  end.

(** [FoldCache.loadState]. *)
Definition load_state (input : LoadInput) : prog AgentState :=
  async (
    let* head := remote (fun w => (w, Ok (as_getLogHead w.(w_store) input.(li_logId) input.(li_head)))) in
    match head with
    | None => ret (emptyState input None)
    | Some remote => load_known input remote
    end).

Definition new_loop (channelId : string) (state : AgentState) w : LoopInstance :=
  let logId := ids.logIdForChannel channelId in
  mkLoop channelId logId logId state (policiesFor w.(w_settings) channelId).

Definition add_loop (channelId : string) (state : AgentState) w : World * nat :=
  let i := length w.(w_heap) in
  (set_loops (loops_put channelId i w.(w_loops)) (set_heap (w.(w_heap) ++ [new_loop channelId state w]) w), i).

(** [loop(channelId)]. *)
Definition loop (channelId : string) : prog nat :=
  async (
    let* existing := get (fun w => loops_get channelId w.(w_loops)) in
    match existing with
    | Some i => ret i
    | None =>
        let* input := get (load_input channelId) in
        let* state := load_state input in
        act (add_loop channelId state)
    end).

(** The loop is thrown away and loaded again. *)
Definition reload (channelId : string) : prog nat := modify (dropLoop channelId) ;; loop channelId.

(** * Appending *)

Inductive GadAppendErrorCode := IdCollision | HeadConflict | ReplayMismatch.

Definition marker (code : GadAppendErrorCode) : string :=
  match code with
  | IdCollision => "GadAppendError[id-collision]"
  | HeadConflict => "GadAppendError[head-conflict]"
  | ReplayMismatch => "GadAppendError[replay-mismatch]"
  end.

(** The first match of the marker pattern in the message. *)
Fixpoint classifyGadAppendError (message : string) : option GadAppendErrorCode :=
  if startsWith message (marker IdCollision) then Some IdCollision
  else if startsWith message (marker HeadConflict) then Some HeadConflict
  else if startsWith message (marker ReplayMismatch) then Some ReplayMismatch
  else match message with String _ rest => classifyGadAppendError rest | EmptyString => None end.

Definition isStaleStateAppendError (message : string) : bool := isSome (classifyGadAppendError message).

(** The payload of an item with its reference fields in the blob store. The items of a batch
    are encoded one after the other; the code starts them together, which only the blob
    store can tell apart. *)
Definition encode_item (channelId : string) (item : AppendItem) : prog AppendItem :=
  let* createdAt := get (fun w => toISOString w.(w_now)) in
  let event := VObj [("kind", VStr item.(ai_payloadKind)); ("actor", selfRefFor channelId);
                     ("payload", item.(ai_payload)); ("createdAt", VStr createdAt)] in
  remote (fun w =>
    match encodeAgenticEventStoredValues event w.(w_blobs) with
    | Throw e => (w, Throw e)
    | Ok (blobs, event, _) =>
        (set_blobs blobs w,
         Ok (mkAppendItem item.(ai_envelopeId) item.(ai_payloadKind) event.!"payload" item.(ai_causality)
               item.(ai_publish)))
    end).

Fixpoint encode_items (channelId : string) (items : list AppendItem) : prog (list AppendItem) :=
  match items with
  | [] => ret []
  | item :: rest =>
      let* item := encode_item channelId item in
      let* rest := encode_items channelId rest in
      ret (item :: rest)
  end.

Definition append_event (uuid now channelId : string) (item : AppendItem) : LogAppendEventInput :=
  {| la_envelopeId := Some item.(ai_envelopeId);
     la_actor := selfRefFor channelId;
     la_to := VUndef;
     la_payloadKind := item.(ai_payloadKind);
     la_payload := item.(ai_payload);
     la_causality := if JsValue.truthy item.(ai_causality) then item.(ai_causality) else VUndef;
     la_annotations := VUndef;
     la_appendedAt := None;
     la_publish := if item.(ai_publish) then [(channelId, VUndef)] else [];
     la_uuid := uuid;
     la_now := now |}.

Definition append_input (l : LoopInstance) (expected : string) (items : list AppendItem) w : AppendLogEventInput :=
  {| in_logId := l.(lp_logId);
     in_head := l.(lp_head);
     in_logKind := "trajectory";
     in_owner := VObj [("kind", VStr "agent"); ("id", (selfRefFor l.(lp_channelId)).!"id")];
     in_expectedHeadHash := Some (Some expected);
     in_idempotency := None;
     in_events := map (append_event w.(w_uuid) w.(w_storeNow) l.(lp_channelId)) items;
     in_now := w.(w_storeNow) |}.

(** The store's turn. *)
Definition serve_append (i : nat) (expected : string) (items : list AppendItem) w
    : World * res (list LogEnvelope * list Publication) :=
  let l := instance w i in
  match as_appendLogEvent w.(w_store) (append_input l expected items w) with
  | Throw e => (w, Throw e)
  | Ok (g, answer) =>
      let before := match as_getLogHead w.(w_store) l.(lp_logId) l.(lp_head) with Some h => h.(lh_seq) | None => 0 end in
      (set_served (w.(w_served) ++ [mkServed i l.(lp_state).(lastSeq) before answer.1]) (set_store g w), Ok answer)
  end.

(** The publications of new envelopes by channel, in the order of their first one. *)
Definition publications_by_channel (newEnvelopes : list LogEnvelope) (published : list Publication)
    : list (string * list string) :=
  fold_left
    (fun byChannel p =>
       if existsb (fun e => e.(env_envelopeId) =s? p.(pb_originEnvelopeId)) newEnvelopes
       then dict_set p.(pb_channelId) (default [] (dict_get p.(pb_channelId) byChannel) ++ [p.(pb_envelopeId)]) byChannel
       else byChannel) published [].

(** A failing broadcast is logged and forgotten. *)
Definition broadcastPublications (newEnvelopes : list LogEnvelope) (published : list Publication) : prog unit :=
  match newEnvelopes, published with
  | [], _ | _, [] => Yield (ret tt)
  | _, _ =>
      modify (fun w => set_broadcasts (w.(w_broadcasts) ++ publications_by_channel newEnvelopes published) w) ;;
      Yield (ret tt)
  end.

(** [append]: the head expected is that of the state when the payloads are stored, and only
    envelopes past the state when the answer has come are returned. *)
Definition append_items (i : nat) (items : list AppendItem) : prog (list LogEnvelope) :=
  async (
    match items with
    | [] => ret []
    | _ =>
        let* channelId := get (fun w => (instance w i).(lp_channelId)) in
        let* items := encode_items channelId items in
        let* expected := get (fun w => (loop_state w i).(lastHash)) in
        let* answer := remote (serve_append i expected items) in
        let* newEnvelopes := get (fun w => List.filter (fun e => (loop_state w i).(lastSeq) <? e.(env_seq)) answer.1) in
        broadcastPublications newEnvelopes answer.2 ;;
        ret newEnvelopes
    end).

(** [loop.state = applyEvent(loop.state, envelope)] for each; what is folded before a throw
    stays. *)
Fixpoint apply_all (st : AgentState) (envelopes : list LogEnvelope) : AgentState * res unit :=
  match envelopes with
  | [] => (st, Ok tt)
  | e :: rest => match applyEvent st e with Ok st => apply_all st rest | Throw err => (st, Throw err) end
  end.

Definition fold_into (i : nat) (envelopes : list LogEnvelope) : prog unit :=
  act_res (fun w => let '(st, r) := apply_all (loop_state w i) envelopes in (set_state i st w, r)).

(** * Stepping *)

(** No step asks for more than one random text. *)
Definition stepCtx (channelId : string) w : StepContext :=
  {| ctx_now := toISOString w.(w_now);
     ctx_random := fun _ => "r:" ^^ pretty w.(w_now) ^^ ":1";
     ctx_selfRef := selfRefFor channelId |}.

Definition step_loop (i : nat) (incoming : Incoming) w : res StepOutput :=
  let l := instance w i in composeStep l.(lp_policies) l.(lp_state) incoming (stepCtx l.(lp_channelId) w).

Definition execute (descriptor : EffectDescriptor) (state : AgentState) (signal : option nat) w : World :=
  set_runs (w.(w_runs) ++ [mkRun descriptor state signal]) w.

(** An effect of a step gets its row; a publication is also executed at once. *)
Definition register_effect (i : nat) w (effect : EffectDescriptor) : World :=
  let w := match effect with EPublishEnvelope _ => execute effect (loop_state w i) None w | _ => w end in
  set_outbox (outbox_insert w.(w_outbox) (instance w i).(lp_logId) effect (initialDeadline effect) w.(w_now)) w.

Definition ingestCommandAlreadyJournaled (i : nat) (incoming : Incoming) : prog bool :=
  async (
    match incoming with
    | ICommand (CPrompt c) | ICommand (CSteer c) =>
        let* l := get (fun w => instance w i) in
        let envelopeId := ids.recvUserMessage l.(lp_channelId) c.(pc_sourceEnvelopeId) in
        let* existing := remote (fun w => (w, as_getLogEvent w.(w_store) l.(lp_logId) l.(lp_head) envelopeId)) in
        ret (isSome existing)
    | _ => ret false
    end).

(** A call of [runStep]. *)
Record Frame := mkFrame {
  fr_loop : nat;
  fr_incoming : Incoming;
  fr_retries : nat
}.

Definition APPEND_RETRIES : nat := 1.

(** One call of [runStep] up to the calls it makes in turn: those of the cascade, or the one
    on the loop loaded again. *)
Definition run_frame (f : Frame) : prog (list Frame) :=
  let '(mkFrame i incoming retries) := f in
  let* output := act_res (fun w => (w, step_loop i incoming w)) in
  match output.(so_append), output.(so_effects) with
  | [], [] => ret []
  | _, _ =>
      bindr (append_items i output.(so_append)) (fun appended =>
        match appended with
        | Throw e =>
            if (0 <? retries)%nat && isStaleStateAppendError e then
              let* channelId := get (fun w => (instance w i).(lp_channelId)) in
              let* fresh := reload channelId in
              ret [mkFrame fresh incoming (retries - 1)]
            else if isStaleStateAppendError e then
              let* journaled := ingestCommandAlreadyJournaled i incoming in
              if journaled then ret [] else raise e
            else raise e
        | Ok envelopes =>
            fold_into i envelopes ;;
            modify (write_cache i) ;;
            modify (fun w => fold_left (register_effect i) output.(so_effects) w) ;;
            ret (map (fun e => mkFrame i (IEventAppended e) retries) envelopes)
        end)
  end.

(** [runStep]; the calls under way are a stack, the deepest first. *)
Definition runStep (i : nat) (incoming : Incoming) (retries : nat) : prog unit :=
  while
    (fun stack =>
       match stack with
       | [] => ret (inr tt)
       | f :: rest => let* calls := async (run_frame f) in ret (inl (calls ++ rest))
       end) [mkFrame i incoming retries].

Definition COMPACTION_MIN_ENTRIES : Z := 24.
Definition COMPACTION_TRIGGER_BYTES : Z := 64 * 1024.

(** Whether an idle loop has enough entries, in number and in bytes, to be compacted. *)
Definition compaction_due (st : AgentState) : bool :=
  negb (isSome st.(openTurn))
  && negb (Z.of_nat (length st.(entries)) <? default COMPACTION_MIN_ENTRIES minEntries)
  && negb (byteLength (default "" (json_stringify (VArr st.(entries)))) <? default COMPACTION_TRIGGER_BYTES triggerBytes).

(** A failing compaction is logged and forgotten. *)
Definition maybeCompact (i : nat) : prog unit :=
  async (
    let* due := get (fun w => compaction_due (loop_state w i)) in
    if due then bindr (runStep i (ICommand CCompact) APPEND_RETRIES) (fun _ => ret tt) else ret tt).

Definition settle (channelId : string) : prog unit :=
  async (
    let* i := loop channelId in
    maybeCompact i ;;
    let* i := loop channelId in
    reconcile_ i ;;
    modify request_pump).

Definition handleIncoming (channelId : string) (incoming : Incoming) : prog unit :=
  async (
    let* i := loop channelId in
    runStep i incoming APPEND_RETRIES ;;
    settle channelId).

(** * Waking *)

Definition rowKey (row : OutboxRow) : string := row.(or_branchId) ^^ String Ascii.zero "" ^^ row.(or_effectId).

Definition inFlightModelCallIsQueuedOrRunningHere (i : nat) w : bool :=
  let l := instance w i in
  match l.(lp_state).(inFlightModelCall) with
  | None => false
  | Some call =>
      match outbox_get w.(w_outbox) l.(lp_logId) (ids.modelEffect call.(im_messageId)) with
      | None => false
      | Some row =>
          match row.(or_leaseExpiresAt) with
          | None => true
          | Some t => if w.(w_now) <? t then true else dict_has (rowKey row) w.(w_aborts)
          end
      end
  end.

Definition hasScheduledModelResumeForTurn (channelId turnId : string) w : bool :=
  existsb (fun row => (row.(sm_channelId) =s? channelId) && startsWith row.(sm_messageId) ("m:" ^^ turnId ^^ ":"))
    w.(w_resumes).

Definition isOpenTurnStranded (i : nat) w : bool :=
  let l := instance w i in
  match l.(lp_state).(openTurn) with
  | None => false
  | Some turn =>
      negb (isSome l.(lp_state).(inFlightModelCall))
      && negb (0 <? turn.(ot_waitingCount))
      && negb (nonempty (derivePendingEffects l.(lp_state)))
      && negb (nonempty (forBranch w.(w_outbox) l.(lp_logId)))
      && negb (hasScheduledModelResumeForTurn l.(lp_channelId) turn.(ot_turnId) w)
  end.

Definition recordPayload (value : val) : val := if is_record value then value else VObj [].

Definition envelopeBelongsToTurn (envelope : LogEnvelope) (turnId : string) : bool :=
  if is_lit envelope.(env_causality).!"turnId" turnId then true
  else startsWith (to_str (envelope.(env_causality).!"messageId" ?? VStr "")) ("m:" ^^ turnId ^^ ":").

Definition isReplayCascadeEnvelope (envelope : LogEnvelope) (turnId : string) : bool :=
  let kind := envelope.(env_payloadKind) in
  let of_turn := is_lit envelope.(env_causality).!"turnId" turnId in
  if kind =s? "message.completed"
  then envelopeBelongsToTurn envelope turnId && is_lit (recordPayload envelope.(env_payload)).!"role" "assistant"
  else if kind =s? "message.failed" then envelopeBelongsToTurn envelope turnId
  else if existsb (String.eqb kind)
            ["invocation.completed"; "invocation.failed"; "invocation.cancelled"; "invocation.abandoned";
             "approval.resolved"]
  then of_turn
  else if kind =s? "system.event" then
    let payload := recordPayload envelope.(env_payload) in
    let details := recordPayload payload.!"details" in
    let detail := to_str (details.!"kind" ?? payload.!"kind" ?? VStr "") in
    of_turn && existsb (String.eqb detail) ["credential.wait_resolved"; "credential.resolved"; "interrupt"]
  else false.

Definition latest_of (turnId : string) (latest : option LogEnvelope) (page : list LogEnvelope) : option LogEnvelope :=
  fold_left (fun latest e => if isReplayCascadeEnvelope e turnId then Some e else latest) page latest.

Definition RECOVERY_READ_PAGE : nat := 500.

Definition latestCascadeEnvelopeForOpenTurn (i : nat) : prog (option LogEnvelope) :=
  async (
    let* l := get (fun w => instance w i) in
    match l.(lp_state).(openTurn) with
    | None => ret None
    | Some turn =>
        while
          (fun s : Z * option LogEnvelope =>
             let '(cursor, latest) := s in
             let* page := remote (fun w => (w, as_readLog w.(w_store) l.(lp_logId) l.(lp_head) cursor RECOVERY_READ_PAGE)) in
             match list.last page with
             | None => ret (inr latest)
             | Some e =>
                 let latest := latest_of turn.(ot_turnId) latest page in
                 if (length page <? RECOVERY_READ_PAGE)%nat then ret (inr latest)
                 else ret (inl (e.(env_seq), latest))
             end) (Z.max 0 (turn.(ot_openedAtSeq) - 1), None)
    end).

Definition strandedInvocationItem (invocation : PendingInvocation) : AppendItem :=
  {| ai_envelopeId := ids.invocationTerminal invocation.(pi_invocationId);
     ai_payloadKind := "invocation.abandoned";
     ai_payload :=
       VObj [protocol_field; ("reason", VStr "Agent turn recovery failed before invocation completed");
             ("terminalOutcome", VStr "abandoned"); ("terminalReasonCode", VStr "stranded_open_turn")];
     ai_causality :=
       VObj [("invocationId", VStr invocation.(pi_invocationId)); ("turnId", VStr invocation.(pi_turnId))];
     ai_publish := true |}.

Definition strandedApprovalItem (approval : PendingApproval) : AppendItem :=
  {| ai_envelopeId := ids.approvalResolved approval.(pa_approvalId);
     ai_payloadKind := "approval.resolved";
     ai_payload :=
       VObj [protocol_field; ("granted", VBool false);
             ("resolvedBy", VObj [("kind", VStr "system"); ("id", VStr "agent-loop")]);
             ("reason", VStr "stranded_open_turn")];
     ai_causality :=
       VObj [("approvalId", VStr approval.(pa_approvalId)); ("invocationId", VStr approval.(pa_invocationId));
             ("turnId", VStr approval.(pa_turnId))];
     ai_publish := true |}.

Definition strandedWaitItem (wait : PendingCredentialWait) : AppendItem :=
  {| ai_envelopeId := ids.systemEvent wait.(pw_credKey) "resolved" (Some wait.(pw_startedAtSeq));
     ai_payloadKind := "system.event";
     ai_payload :=
       VObj [protocol_field; ("kind", VStr "credential.wait_resolved"); ("credKey", VStr wait.(pw_credKey));
             ("details",
               VObj [("kind", VStr "credential.wait_resolved"); ("credKey", VStr wait.(pw_credKey));
                     ("providerId", VStr wait.(pw_providerId)); ("resolved", VBool false);
                     ("reason", VStr "stranded_open_turn")])];
     ai_causality := VObj [("turnId", VStr wait.(pw_turnId))];
     ai_publish := true |}.

Definition strandedOpenTurnCleanupItems (state : AgentState) : list AppendItem :=
  match state.(openTurn) with
  | None => []
  | Some _ =>
      map strandedInvocationItem (dict_values state.(pendingInvocations))
      ++ map strandedApprovalItem (dict_values state.(pendingApprovals))
      ++ map strandedWaitItem (dict_values state.(pendingCredentialWaits))
  end.

Definition STRANDED_REASON : string :=
  "Agent turn recovery failed: replay found an open turn with no pending model call, "
  ^^ "tool, approval, credential wait, scheduled resume, or terminal assistant cascade.".

(** The failure of a turn nothing moves, and its end. *)
Definition stranded_items (state : AgentState) (turn : OpenTurn) : list AppendItem :=
  let messageId := "recovery:" ^^ turn.(ot_turnId) ^^ ":stranded-open-turn" in
  [{| ai_envelopeId := ids.messageTerminal messageId;
      ai_payloadKind := "message.failed";
      ai_payload :=
        VObj [protocol_field; ("reason", VStr STRANDED_REASON); ("recoverable", VBool false);
              ("code", VStr "stranded_open_turn")];
      ai_causality := VObj [("messageId", VStr messageId); ("turnId", VStr turn.(ot_turnId))];
      ai_publish := true |}]
  ++ strandedOpenTurnCleanupItems state
  ++ [{| ai_envelopeId := ids.turnClosed turn.(ot_turnId);
         ai_payloadKind := "turn.closed";
         ai_payload :=
           VObj [protocol_field; ("reason", VStr "work_failed");
                 ("summary", VStr "Recovery failed: no pending work remained for the open turn.")];
         ai_causality := VObj [("turnId", VStr turn.(ot_turnId))];
         ai_publish := true |}].

(** Append, fold and cache, in one [try] or behind a reload. *)
Definition append_and_fold (i : nat) (items : list AppendItem) : prog unit :=
  let* envelopes := append_items i items in
  fold_into i envelopes ;;
  modify (write_cache i).

Definition appendStrandedOpenTurnFailure (i : nat) : prog unit :=
  async (
    let* l := get (fun w => instance w i) in
    match l.(lp_state).(openTurn) with
    | None => ret tt
    | Some turn =>
        let items := stranded_items l.(lp_state) turn in
        bindr (append_and_fold i items) (fun r =>
          match r with
          | Ok _ => ret tt
          | Throw e =>
              if isStaleStateAppendError e then
                let* fresh := reload l.(lp_channelId) in
                let* stranded := get (isOpenTurnStranded fresh) in
                if stranded then append_and_fold fresh items else ret tt
              else raise e
          end)
    end).

Definition recoverOpenTurnAfterReplay (channelId : string) : prog unit :=
  async (
    let* i := loop channelId in
    let* stranded := get (isOpenTurnStranded i) in
    if negb stranded then ret tt
    else
      let close_turn (i : nat) : prog unit := appendStrandedOpenTurnFailure i ;; settle channelId in
      let* cascade := latestCascadeEnvelopeForOpenTurn i in
      match cascade with
      | None => close_turn i
      | Some envelope =>
          runStep i (IEventAppended envelope) APPEND_RETRIES ;;
          settle channelId ;;
          let* i := loop channelId in
          let* stranded := get (isOpenTurnStranded i) in
          if negb stranded then ret tt else close_turn i
      end).

Definition wake (channelId : string) : prog unit :=
  async (
    let* i := reload channelId in
    let* queued := get (inFlightModelCallIsQueuedOrRunningHere i) in
    (if queued then ret tt else runStep i (ICommand CWake) APPEND_RETRIES) ;;
    settle channelId ;;
    recoverOpenTurnAfterReplay channelId).
End Loops.
