(* ===== verification/AgentDriver.v ===== *)
(** The driver of an agent's loops (agentic-do/src/agent-loop-driver.ts), the part on
    effects: dispatching the due rows of the outbox, what becomes of an outcome, of a
    failure and of a missing credential, delivering results from outside, resuming a turn
    at a provider's reset, the pump and the alarm. *)
From stdpp Require Import gmap.
From S2P Require Import Prelude Dict JsValue JsText JsAsync AgentIds AgentState AgentFold AgentEffects AgentStep.
From S2P Require Import AgentCache AgentOutbox AgentPolicies GadCanon GadStored AgentLoops.
From Stdlib Require Import Ascii.
#[local] Open Scope Z_scope.

(** * External ids of outbox rows (agentic-do/src/effect-outbox.ts) *)

(** What [encodeURIComponent] leaves as it is. *)
Definition unreserved (c : ascii) : bool :=
  in_range 48 57 (code c) || in_range 65 90 (code c) || in_range 97 122 (code c)
  || existsb (Ascii.eqb c) ["-"; "_"; "."; "!"; "~"; "*"; "'"; "("; ")"]%char.

Definition upper_hex (n : Z) : ascii := ascii_of_nat (Z.to_nat (if n <? 10 then 48 + n else 55 + n)).

(** [%XX] of a byte. *)
Definition percent (c : ascii) (rest : string) : string :=
  String "%" (String (upper_hex (code c / 16)) (String (upper_hex (code c mod 16)) rest)).

(** [encodeURIComponent], on the bytes of a text. *)
Fixpoint encodeURIComponent (s : string) : string :=
  match s with
  | EmptyString => EmptyString
  | String c s' => if unreserved c then String c (encodeURIComponent s') else percent c (encodeURIComponent s')
  end.

Definition hex_value (c : ascii) : option Z :=
  if in_range 48 57 (code c) then Some (code c - 48)
  else if in_range 65 70 (code c) then Some (code c - 55)
  else if in_range 97 102 (code c) then Some (code c - 87)
  else None.

(** The byte of an escape. *)
Definition escaped (s : string) : option (Z * string) :=
  match s with
  | String p (String a (String b rest)) =>
      if Ascii.eqb p "%" then
        match hex_value a, hex_value b with Some x, Some y => Some (16 * x + y, rest) | _, _ => None end
      else None
  | _ => None
  end.

Definition byte_char (z : Z) : ascii := ascii_of_nat (Z.to_nat z).

(** How many bytes follow the first one of a code point in UTF-8, and the range of the next. *)
Definition utf8_lead (b : Z) : option (nat * (Z * Z)) :=
  if b <? 128 then Some (O, (128, 191))
  else if in_range 194 223 b then Some (1%nat, (128, 191))
  else if b =? 224 then Some (2%nat, (160, 191))
  else if b =? 237 then Some (2%nat, (128, 159))
  else if in_range 225 239 b then Some (2%nat, (128, 191))
  else if b =? 240 then Some (3%nat, (144, 191))
  else if b =? 244 then Some (3%nat, (128, 143))
  else if in_range 241 243 b then Some (3%nat, (128, 191))
  else None.

(** [n] more bytes of a code point, the next one in a range, each escaped. *)
Fixpoint escaped_tail (n : nat) (range : Z * Z) (s : string) : option (string * string) :=
  match n with
  | O => Some ("", s)
  | S n' =>
      match escaped s with
      | Some (b, rest) =>
          if in_range range.1 range.2 b then
            match escaped_tail n' (128, 191) rest with
            | Some (bytes, rest) => Some (String (byte_char b) bytes, rest)
            | None => None
            end
          else None
      | None => None
      end
  end.

Definition URI_ERROR : string := "URI malformed".

(** [decodeURIComponent]; each round reads a character at least. *)
Fixpoint decode_from (fuel : nat) (s : string) : res string :=
  match fuel, s with
  | _, EmptyString => Ok ""
  | O, _ => Throw "out of fuel"
  | S fuel', String c s' =>
      if negb (Ascii.eqb c "%") then let! rest := decode_from fuel' s' in Ok (String c rest)
      else
        match escaped s with
        | None => Throw URI_ERROR
        | Some (b, rest) =>
            match utf8_lead b with
            | None => Throw URI_ERROR
            | Some (n, range) =>
                match escaped_tail n range rest with
                | None => Throw URI_ERROR
                | Some (bytes, rest) =>
                    let! rest := decode_from fuel' rest in
                    Ok (String (byte_char b) (String.append bytes rest))
                end
            end
        end
  end.

Definition decodeURIComponent (s : string) : res string := decode_from (String.length s) s.

Definition OUTBOX_EXTERNAL_ID_PREFIX : string := "outbox:".

Definition outboxExternalId (branchId effectId : string) : string :=
  OUTBOX_EXTERNAL_ID_PREFIX ^^ encodeURIComponent branchId ^^ ":" ^^ encodeURIComponent effectId.

Definition parseOutboxExternalId (value : string) : res (option (string * string)) :=
  if negb (startsWith value OUTBOX_EXTERNAL_ID_PREFIX) then Ok None
  else
    let encoded := str_slice (String.length OUTBOX_EXTERNAL_ID_PREFIX) value in
    match indexOf ":" encoded with
    | None => Ok None
    | Some split =>
        let! branchId := decodeURIComponent (str_take split encoded) in
        let! effectId := decodeURIComponent (str_slice (S split) encoded) in
        Ok (Some (branchId, effectId))
    end.

(** * Descriptors *)

Definition map_base (f : string -> string) (b : EffectBase) : EffectBase :=
  mkEffectBase (f b.(eb_effectId)) b.(eb_channelId) b.(eb_idempotencyKey).

(** [{ ...descriptor, effectId }] of the kinds whose results come from outside. *)
Definition dispatchDescriptor (row : OutboxRow) (descriptor : EffectDescriptor) : EffectDescriptor :=
  let base := map_base (fun _ => outboxExternalId row.(or_branchId) row.(or_effectId)) in
  match descriptor with
  | EModelCall d => EModelCall (mkModelCallEffect (base d.(mc_base)) d.(mc_messageId) d.(mc_turnId) d.(mc_request))
  | EHttpCall d =>
      EHttpCall (mkHttpCallEffect (base d.(hc_base)) d.(hc_invocationId) d.(hc_turnId) d.(hc_targetUrl) d.(hc_request))
  | ECredentialWait d =>
      ECredentialWait
        (mkCredentialWaitEffect (base d.(cw_base)) d.(cw_credKey) d.(cw_startedAtSeq) d.(cw_providerId) d.(cw_turnId)
           d.(cw_connectSpec) d.(cw_modelBaseUrl) d.(cw_waitReason) d.(cw_reason) d.(cw_failureCode) d.(cw_expiresAt))
  | _ => descriptor
  end.

(** How deep references may lead to texts with references in them. *)
Definition HYDRATE_FUEL : nat := 64.

Section Hydrate.
Context {B : Type} `{!TextBlobs B}.

Definition hydrate_base (b : B) (base : EffectBase) : res EffectBase :=
  let! key := hydrateStoredValueRefs HYDRATE_FUEL b base.(eb_idempotencyKey) in
  Ok (mkEffectBase base.(eb_effectId) base.(eb_channelId) key).

(** [hydrateStoredValueRefs] of a descriptor: its fields that can hold references. *)
Definition hydrate_descriptor (b : B) (descriptor : EffectDescriptor) : res EffectDescriptor :=
  let hydrate := hydrateStoredValueRefs HYDRATE_FUEL b in
  match descriptor with
  | EModelCall d =>
      let! base := hydrate_base b d.(mc_base) in
      let! request := hydrate d.(mc_request) in
      Ok (EModelCall (mkModelCallEffect base d.(mc_messageId) d.(mc_turnId) request))
  | ELocalTool d =>
      let! base := hydrate_base b d.(lt_base) in
      let! args := hydrate d.(lt_args) in
      Ok (ELocalTool (mkLocalToolEffect base d.(lt_invocationId) d.(lt_turnId) d.(lt_tool) args))
  | EChannelCall d =>
      let! base := hydrate_base b d.(cc_base) in
      let! transportCallId := hydrate d.(cc_transportCallId) in
      let! target := hydrate d.(cc_target) in
      let! args := hydrate d.(cc_args) in
      Ok (EChannelCall (mkChannelCallEffect base d.(cc_invocationId) d.(cc_turnId) transportCallId target d.(cc_method)
                          args d.(cc_purpose) d.(cc_approvalId)))
  | EHttpCall d =>
      let! base := hydrate_base b d.(hc_base) in
      let! targetUrl := hydrate d.(hc_targetUrl) in
      let! request := hydrate d.(hc_request) in
      Ok (EHttpCall (mkHttpCallEffect base d.(hc_invocationId) d.(hc_turnId) targetUrl request))
  | ECredentialWait d =>
      let! base := hydrate_base b d.(cw_base) in
      let! connectSpec := hydrate d.(cw_connectSpec) in
      Ok (ECredentialWait
            (mkCredentialWaitEffect base d.(cw_credKey) d.(cw_startedAtSeq) d.(cw_providerId) d.(cw_turnId) connectSpec
               d.(cw_modelBaseUrl) d.(cw_waitReason) d.(cw_reason) d.(cw_failureCode) d.(cw_expiresAt)))
  | EPublishEnvelope d =>
      let! base := hydrate_base b d.(pe_base) in
      let! payload := hydrate d.(pe_payload) in
      Ok (EPublishEnvelope (mkPublishEnvelopeEffect base d.(pe_payloadKind) payload))
  end.
End Hydrate.

(** [DETACHABLE_EFFECT_KINDS]. *)
Definition detachable (kind : EffectKind) : bool :=
  match kind with KModelCall | KChannelCall | KHttpCall | KLocalTool => true | _ => false end.

(** Where a result says it belongs. *)
Record OutcomeAddress := mkAddress {
  oa_branchId : option string;
  oa_channelId : option string
}.

Definition truthy_str (s : option string) : option string :=
  match s with Some s => if s =s? "" then None else Some s | None => None end.

Definition deferredErrorMessage (error : option string) (result : val) : string :=
  let blank s := trim s =s? "" in
  match error with
  | Some message => message
  | None =>
      match result with
      | VStr s => if blank s then "Deferred call failed" else s
      | VObj _ =>
          match result.!"message" with
          | VStr m => if blank m then "Deferred call failed" else m
          | _ => "Deferred call failed"
          end
      | _ => "Deferred call failed"
      end
  end.

(** agentic-do/src/model-credential-suspension.ts. *)
Definition modelCredentialReconnectOutcome (providerId : string) (modelBaseUrl : option string)
    (reason failureCode : string) : EffectOutcome :=
  OModelSuspended providerId (truthy_str modelBaseUrl) (Some "model_credential_reconnect_required")
    (truthy_str (Some reason)) (truthy_str (Some failureCode)).

Section Driver.
Context {G B S : Type} `{!AgentStore G, !TextBlobs B, !DriverDeps S, !ModelFailureClassifier}.
Abbreviation World := (World G B S).
Abbreviation prog := (prog World).
Implicit Types w : World.

Definition delete_row (row : OutboxRow) w : World :=
  set_outbox (outbox_delete w.(w_outbox) row.(or_branchId) row.(or_effectId)) w.

(** * Rows *)

Definition outcomeRow (effectId : string) (address : OutcomeAddress) w : res (option OutboxRow) :=
  let! parsed := parseOutboxExternalId effectId in
  match parsed with
  | Some (branchId, effectId) => Ok (outbox_get w.(w_outbox) branchId effectId)
  | None =>
      match truthy_str address.(oa_branchId), truthy_str address.(oa_channelId) with
      | Some branchId, _ => Ok (outbox_get w.(w_outbox) branchId effectId)
      | None, Some channelId => getForChannel w.(w_outbox) channelId effectId
      | None, None => getUnique w.(w_outbox) effectId
      end
  end.

Definition defer_redrive (row : OutboxRow) (delayMs : Z) w : World :=
  let '(ob, at_) := AgentOutbox.deferRedrive w.(w_outbox) row delayMs (earliestScheduledModelResumeAt w) w.(w_now) in
  arm at_ (set_outbox ob w).

Definition nudge_redrive (row : OutboxRow) w : World :=
  request_pump (set_outbox (AgentOutbox.nudgeRedrive w.(w_outbox) row w.(w_pumping) w.(w_now)).1 w).

Definition hasOpenTurn (channelId : string) w : bool :=
  match loops_get channelId w.(w_loops) with
  | Some i => if isSome (loop_state w i).(openTurn) then true
              else nonempty (forBranch w.(w_outbox) (ids.logIdForChannel channelId))
  | None => nonempty (forBranch w.(w_outbox) (ids.logIdForChannel channelId))
  end.

(** * Failing and retrying *)

(** The row goes when the failure is in the log. *)
Definition failEffect (row : OutboxRow) (message : string) : prog unit :=
  async (
    let* i := loop row.(or_channelId) in
    let* channelId := get (fun w => (instance w i).(lp_channelId)) in
    handleIncoming channelId
      (IEffectFailed row.(or_effectId) row.(or_kind) (mkSerializedError message None None) row.(or_attempts)) ;;
    modify (delete_row row)).

Definition retry_effect (row : OutboxRow) (reason : string) (retryAfterMs : option Z) : prog unit :=
  async (
    let* decision := act (fun w =>
      let '(ob, decision) :=
        AgentOutbox.retryEffect w.(w_outbox) row retryAfterMs (earliestScheduledModelResumeAt w) w.(w_now) in
      (set_outbox ob w, decision)) in
    match decision with
    | GiveUp updated => failEffect updated reason
    | RetryLater at_ => modify (arm at_)
    end).

(** * A missing credential *)

Definition wait_summary (waitReason : string) : string :=
  if waitReason =s? "model_credential_reconnect_required" then "Waiting for model credential reconnect"
  else "Waiting for model credential approval".

Definition suspension_items (row : OutboxRow) (turn : option OpenTurn) (lastSeq : Z) (credKey expiresAt providerId : string)
    (connectSpec : val) (modelBaseUrl waitReason diagnosticReason failureCode : option string) : list AppendItem :=
  let waitReason := default "model_credential_required" waitReason in
  let messageId := match row.(or_descriptor) with EModelCall d => truthy_str (Some d.(mc_messageId)) | _ => None end in
  let field (key : string) (s : option string) := opt_field key (of_ostr (truthy_str s)) in
  let turnId := match turn with Some t => [("turnId", VStr t.(ot_turnId))] | None => [] end in
  let message := match messageId with Some m => [("messageId", VStr m)] | None => [] end in
  (match messageId with
   | Some m =>
       [{| ai_envelopeId := ids.messageTerminal m;
           ai_payloadKind := "message.failed";
           ai_payload :=
             VObj ([protocol_field; ("reason", VStr waitReason); ("recoverable", VBool true)] ++ field "code" failureCode);
           ai_causality := VObj [("messageId", VStr m)];
           ai_publish := true |}]
   | None => []
   end)
  ++ [{| ai_envelopeId := ids.systemEvent credKey "started" (Some (lastSeq + 1));
         ai_payloadKind := "system.event";
         ai_payload :=
           VObj ([protocol_field; ("kind", VStr "credential.wait_started"); ("credKey", VStr credKey);
                  ("providerId", VStr providerId); ("expiresAt", VStr expiresAt); ("waitReason", VStr waitReason)]
                 ++ field "reason" diagnosticReason ++ field "failureCode" failureCode ++ message
                 ++ field "modelBaseUrl" modelBaseUrl
                 ++ [("details",
                       VObj ([("kind", VStr "credential.wait_started"); ("credKey", VStr credKey);
                              ("providerId", VStr providerId); ("waitReason", VStr waitReason)]
                             ++ field "reason" diagnosticReason ++ field "failureCode" failureCode ++ message
                             ++ field "modelBaseUrl" modelBaseUrl
                             ++ [("connectSpec", connectSpec); ("expiresAt", VStr expiresAt)] ++ turnId))]);
         ai_causality := VObj (turnId ++ message);
         ai_publish := true |}]
  ++ (match turn with
      | Some t =>
          [{| ai_envelopeId := ids.turnWaiting t.(ot_turnId) t.(ot_waitingCount);
              ai_payloadKind := "turn.waiting";
              ai_payload := VObj [protocol_field; ("reason", VStr waitReason); ("summary", VStr (wait_summary waitReason))];
              ai_causality := VObj [("turnId", VStr t.(ot_turnId))];
              ai_publish := true |}]
      | None => []
      end).

(** What a raced outcome or suspension leaves: the row goes, the log is truth. *)
Definition give_way (row : OutboxRow) (channelId : string) : prog unit :=
  modify (delete_row row) ;;
  let* fresh := reload channelId in
  reconcile_ fresh ;;
  modify request_pump.

Definition suspendOnCredential (i : nat) (row : OutboxRow) (providerId : string)
    (modelBaseUrl waitReason diagnosticReason failureCode : option string) : prog unit :=
  async (
    let* start := get (fun w =>
      let l := instance w i in
      (l.(lp_channelId), l.(lp_state).(openTurn), toISOString (w.(w_now) + 10 * 60 * 1000))) in
    let '(channelId, turn, expiresAt) := start in
    let credKey := ids.credKey channelId providerId in
    let* connectSpec := remote (fun w => (w, connectSpecFor w.(w_settings) providerId)) in
    let* lastSeq := get (fun w => (loop_state w i).(lastSeq)) in
    let items :=
      suspension_items row turn lastSeq credKey expiresAt providerId connectSpec modelBaseUrl waitReason
        diagnosticReason failureCode in
    bindr (append_items i items) (fun appended =>
      match appended with
      | Throw e => if isStaleStateAppendError e then give_way row channelId else raise e
      | Ok envelopes =>
          modify (delete_row row) ;;
          fold_into i envelopes ;;
          modify (write_cache i) ;;
          reconcile_ i ;;
          modify request_pump
      end)).

(** * Outcomes *)

Definition transformOutcome (channelId : string) (state : AgentState) (items : list AppendItem) w : list AppendItem :=
  fold_left
    (fun items policy =>
       match policy.(sp_transformAppend) with Some transform => transform state items | None => items end)
    (policiesFor w.(w_settings) channelId) items.

(** The items of an outcome, as the policies let them through. *)
Definition outcome_items (i : nat) (row : OutboxRow) (outcome : EffectOutcome) w : res (list AppendItem) :=
  let l := instance w i in
  let! items := outcomeEvents row.(or_descriptor) outcome (toISOString w.(w_now)) in
  Ok (transformOutcome l.(lp_channelId) l.(lp_state) items w).

Definition HEAD_CONFLICT_RETRIES : nat := 3.

(** The loop that appends the outcome, on a loop loaded again when another append came
    first: the loop and the envelopes, or nothing when the log has an end already. *)
Definition append_outcome (i : nat) (row : OutboxRow) (outcome : EffectOutcome) : prog (option (nat * list LogEnvelope)) :=
  while
    (fun s : nat * nat =>
       let '(i, attempt) := s in
       let* channelId := get (fun w => (instance w i).(lp_channelId)) in
       let* items := act_res (fun w => (w, outcome_items i row outcome w)) in
       bindr (append_items i items) (fun appended =>
         match appended with
         | Ok envelopes => ret (inr (Some (i, envelopes)))
         | Throw e =>
             match classifyGadAppendError e with
             | Some HeadConflict =>
                 if (attempt <? HEAD_CONFLICT_RETRIES)%nat
                 then let* i := reload channelId in ret (inl (i, Nat.succ attempt))
                 else raise e
             | Some _ => give_way row channelId ;; ret (inr None)
             | None => raise e
             end
         end)) (i, O).

Definition is_heartbeat (descriptor : EffectDescriptor) : bool :=
  match descriptor with
  | EModelCall d => is_lit d.(mc_request).!"turnMetadata".!"origin" "heartbeat"
  | _ => false
  end.

(** Append the outcome, then delete the row, then fold and go on. *)
Definition settle_outcome (i : nat) (row : OutboxRow) (outcome : EffectOutcome) : prog unit :=
  let* appended := append_outcome i row outcome in
  match appended with
  | None => ret tt
  | Some (i, envelopes) =>
      modify (delete_row row) ;;
      fold_into i envelopes ;;
      modify (write_cache i) ;;
      let* channelId := get (fun w => (instance w i).(lp_channelId)) in
      (if is_heartbeat row.(or_descriptor)
       then modify (fun w => set_heartbeats (w.(w_heartbeats) ++ [(channelId, row.(or_descriptor), outcome)]) w) ;;
            Yield (ret tt)
       else ret tt) ;;
      for_each (fun e => runStep i (IEventAppended e) APPEND_RETRIES) envelopes ;;
      settle channelId
  end.

Definition applyOutcome (row : OutboxRow) (outcome : EffectOutcome) : prog unit :=
  async (
    let* i := loop row.(or_channelId) in
    match outcome with
    | ORetry reason retryAfterMs _ => retry_effect row reason retryAfterMs
    | OModelSuspended providerId modelBaseUrl waitReason diagnosticReason failureCode =>
        suspendOnCredential i row providerId modelBaseUrl waitReason diagnosticReason failureCode
    | _ => settle_outcome i row outcome
    end).

Definition deliverEffectOutcome (effectId : string) (outcome : EffectOutcome) (address : OutcomeAddress) : prog bool :=
  async (
    let* row := act_res (fun w => (w, outcomeRow effectId address w)) in
    match row with
    | None => ret false
    | Some row => applyOutcome row outcome ;; ret true
    end).

(** [error] is the message of a result that is an [Error]. *)
Definition deliverDeferredResult (requestId : string) (result : val) (error : option string) (isError : bool)
    (address : OutcomeAddress) : prog unit :=
  async (
    let* row := act_res (fun w => (w, outcomeRow requestId address w)) in
    let message := deferredErrorMessage error result in
    match row with
    | None => ret tt
    | Some row =>
        match row.(or_kind) with
        | KModelCall => if isError then failEffect row message else modify (nudge_redrive row)
        | KCredentialWait => if isError then failEffect row message else applyOutcome row (OCredential true None)
        | _ => applyOutcome row (OTool result None isError (if isError then Some message else None))
        end
    end).

(** * Dispatching *)

Definition answer_of_run (run : nat) w : option ExecAnswer :=
  snd <$> List.find (fun a => Nat.eqb a.1 run) w.(w_answers).

(** An executor is called, and answers at some time. *)
Definition call_executor (descriptor : EffectDescriptor) (i controller : nat) : prog ExecAnswer :=
  let* run := act (fun w => (execute descriptor (loop_state w i) (Some controller) w, length w.(w_runs))) in
  Until (fun w => isSome (answer_of_run run w)) (get (fun w => default XDeferred (answer_of_run run w))).

Definition forget_abort (row : OutboxRow) w : World := set_aborts (dict_del (rowKey row) w.(w_aborts)) w.

(** The row counts the failure, and is given up at its limit. *)
Definition count_failure (row : OutboxRow) (message : string) : prog unit :=
  let* updated := act (fun w =>
    let '(ob, updated) := recordFailure w.(w_outbox) row.(or_branchId) row.(or_effectId) w.(w_now) None in
    (set_outbox ob w, updated)) in
  match updated with
  | Some updated =>
      match maxAttempts updated.(or_kind) false with
      | Some max => if max <=? updated.(or_attempts) then failEffect updated message else modify schedule_earliest
      | None => modify schedule_earliest
      end
  | None => modify schedule_earliest
  end.

(** What a failed execution comes to; [true] when the failure has been dealt with. *)
Definition model_failure (i : nat) (row : OutboxRow) (err : ThrownError) : prog bool :=
  let request := match row.(or_descriptor) with EModelCall d => d.(mc_request) | _ => VUndef end in
  let* failure := get (fun w => classifyThrown err request.!"provider" request.!"model" (toISOString w.(w_now))) in
  match failure.(mf_recoverable), failure.(mf_retryAfterMs) with
  | true, Some after => retry_effect row failure.(mf_reason) (Some after) ;; ret true
  | _, _ =>
      if (failure_code failure.(mf_code) =s? "auth_or_credentials") && JsValue.truthy request.!"provider" then
        match modelCredentialReconnectOutcome (to_str request.!"provider") (as_str request.!"modelBaseUrl")
                failure.(mf_reason) (failure_code failure.(mf_code)) with
        | OModelSuspended providerId modelBaseUrl waitReason diagnosticReason failureCode =>
            suspendOnCredential i row providerId modelBaseUrl waitReason diagnosticReason failureCode ;; ret true
        | _ => ret true
        end
      else if negb failure.(mf_recoverable) then
        applyOutcome row (OModel [] StopError None VUndef (Some err.(th_message)) (Some false) (Some failure)) ;;
        ret true
      else ret false
  end.

Definition dispatch_failed (i : nat) (row : OutboxRow) (err : ThrownError) : prog unit :=
  let* handled := match row.(or_kind) with KModelCall => model_failure i row err | _ => ret false end in
  (if handled then ret tt else count_failure row err.(th_message)) ;;
  modify (forget_abort row).

Definition start_dispatch (row : OutboxRow) w : World * nat :=
  let controller := w.(w_controllers) in
  let entry := mkAbort controller row.(or_branchId) row.(or_effectId) row.(or_channelId) in
  (set_aborts (dict_set (rowKey row) entry w.(w_aborts))
     (set_controllers (Nat.succ controller)
        (set_outbox (lease w.(w_outbox) row.(or_branchId) row.(or_effectId) w.(w_now)) w)), controller).

Definition dispatchRow (row : OutboxRow) : prog unit :=
  async (
    let* i := loop row.(or_channelId) in
    let* controller := act (start_dispatch row) in
    let* hydrated := remote (fun w => (w, hydrate_descriptor w.(w_blobs) row.(or_descriptor))) in
    let* answer := call_executor (dispatchDescriptor row hydrated) i controller in
    match answer with
    | XThrow err => dispatch_failed i row err
    | XDeferred => modify (forget_abort row) ;; modify (defer_redrive row 60000)
    | XOutcome outcome => modify (forget_abort row) ;; applyOutcome row outcome
    end).

Definition expired (row : OutboxRow) (now : Z) : bool :=
  match row.(or_descriptor) with
  | ECredentialWait d => match Date_parse d.(cw_expiresAt) with Some t => t <=? now | None => false end
  | _ => false
  end.

(** One due row: the world with its work started, and the work to wait for. *)
Definition start_work (now : Z) (s : World * list nat) (row : OutboxRow) : World * list nat :=
  let '(w, work) := s in
  if bool_decide (row.(or_kind) = KCredentialWait) && expired row now
  then (spawn (TFail row "credential wait expired") w, work ++ [length w.(w_tasks)])
  else if runBackground && detachable row.(or_kind)
  then (spawn (TDetached row) (set_outbox (lease w.(w_outbox) row.(or_branchId) row.(or_effectId) now) w), work)
  else (spawn (TDispatch row) w, work ++ [length w.(w_tasks)]).

Definition settled_of (w : World) (task : nat) : option (res unit) :=
  snd <$> List.find (fun s => Nat.eqb s.1 task) w.(w_settled).

Definition rejected (work : list nat) w : option string :=
  match List.find (fun s => existsb (Nat.eqb s.1) work && negb (res_ok s.2)) w.(w_settled) with
  | Some (_, Throw e) => Some e
  | _ => None
  end.

(** [Promise.all]: when all have settled, or the first of them is rejected. *)
Definition all_settled (work : list nat) : prog unit :=
  Until (fun w => isSome (rejected work w) || forallb (fun task => isSome (settled_of w task)) work)
    (act_res (fun w => (w, match rejected work w with Some e => Throw e | None => Ok tt end))).

Definition dispatchDue : prog unit :=
  async (
    let* work := act (fun w => fold_left (start_work w.(w_now)) (due w.(w_outbox) w.(w_now)) (w, [])) in
    all_settled work).

(** * The pump *)

(** [for (const loop of this.loops.values()) await this.reconcile(loop)], over the map as it
    changes under the loop. *)
Definition reconcile_loops : prog unit :=
  while
    (fun k : nat =>
       let* entry := get (fun w => w.(w_loops) !! k) in
       match entry with
       | None => ret (inr tt)
       | Some None => ret (inl (Nat.succ k))
       | Some (Some (_, i)) => reconcile_ i ;; ret (inl (Nat.succ k))
       end) O.

(** The pump once its flags are set. *)
Definition pump_rounds : prog unit :=
  bindr
    (while
       (fun _ : unit =>
          reconcile_loops ;;
          dispatchDue ;;
          let* again := get w_repump in
          if again then modify (set_repump false) ;; ret (inl tt) else ret (inr tt)) tt)
    (fun r => modify (set_pumping false) ;; modify schedule_earliest ;; Done r).

Definition pump : prog unit :=
  async (
    let* pumping := get w_pumping in
    if pumping then modify (set_repump true)
    else modify pump_starts ;; pump_rounds).

(** Work that was started. *)
Definition task_body (task : Task) : prog unit :=
  match task with
  | TPump => bindr pump_rounds (fun _ => ret tt)
  | TDetached row =>
      bindr (dispatchRow row) (fun r =>
        match r with Ok _ => ret tt | Throw e => modify schedule_earliest ;; raise e end)
  | TDispatch row => dispatchRow row
  | TFail row message => failEffect row message
  end.

Definition run_task (id : nat) (task : Task) : prog unit :=
  bindr (task_body task) (fun r => modify (fun w => set_settled (w.(w_settled) ++ [(id, r)]) w)).

(** * Resuming at a reset *)

Definition resume_le (a b : ScheduledModelResumeRow) : bool :=
  if a.(sm_resetAtMs) =? b.(sm_resetAtMs) then a.(sm_createdAt) <=? b.(sm_createdAt)
  else a.(sm_resetAtMs) <=? b.(sm_resetAtMs).

Definition scheduledModelResumeRowsDue (now : Z) w : list ScheduledModelResumeRow :=
  sort_by resume_le (List.filter (fun row => row.(sm_resetAtMs) <=? now) w.(w_resumes)).

Definition same_resume (channelId messageId : string) (row : ScheduledModelResumeRow) : bool :=
  (row.(sm_channelId) =s? channelId) && (row.(sm_messageId) =s? messageId).

Definition deleteScheduledModelResume (row : ScheduledModelResumeRow) w : World :=
  set_resumes (List.filter (fun r => negb (same_resume row.(sm_channelId) row.(sm_messageId) r)) w.(w_resumes)) w.

(** A resume that fails is logged and stays. *)
Definition processScheduledModelResumes : prog unit :=
  async (
    let* rows := get (fun w => scheduledModelResumeRowsDue w.(w_now) w) in
    for_each
      (fun row =>
         bindr (handleIncoming row.(sm_channelId)
                  (ICommand (CResumeAfterReset row.(sm_messageId) (toISOString row.(sm_resetAtMs)))) ;;
                modify (deleteScheduledModelResume row))
           (fun _ => ret tt)) rows).

Definition alarm : prog unit := async (processScheduledModelResumes ;; pump).

Inductive ResumeScheduling := Scheduled (wakeAt : string) | NotScheduled (reason : string).

(** [INSERT OR REPLACE]. *)
Definition insert_resume (row : ScheduledModelResumeRow) w : World :=
  set_resumes (List.filter (fun r => negb (same_resume row.(sm_channelId) row.(sm_messageId) r)) w.(w_resumes) ++ [row]) w.

Definition scheduleResumeAtReset (channelId : string) (input_messageId input_resetAt : val) : prog ResumeScheduling :=
  async (
    let messageId := default "" (as_str input_messageId) in
    let resetAt := default "" (as_str input_resetAt) in
    if messageId =s? "" then ret (NotScheduled "messageId is required")
    else
      match Date_parse resetAt with
      | None => ret (NotScheduled "resetAt must be an ISO timestamp")
      | Some resetAtMs =>
          let* i := loop channelId in
          act (fun w =>
            match (loop_state w i).(openTurn) with
            | None => (w, NotScheduled "no open turn to resume")
            | Some turn =>
                if negb (startsWith messageId ("m:" ^^ turn.(ot_turnId) ^^ ":"))
                then (w, NotScheduled "message is not part of the open turn")
                else if isSome (loop_state w i).(inFlightModelCall)
                then (w, NotScheduled "a model call is already running")
                else
                  let wakeAtMs := Z.max resetAtMs (w.(w_now) + 50) in
                  (schedule_earliest (insert_resume (mkResume channelId messageId wakeAtMs w.(w_now)) w),
                   Scheduled (toISOString wakeAtMs))
            end)
      end).

(** * Signals *)

(** The policies see a signal one after the other; one that answers with null stops it. *)
Definition filter_signal (policies : list StepPolicy) (state : AgentState) (signal : EphemeralSignal)
    : option EphemeralSignal :=
  fold_left
    (fun signal policy =>
       match signal, policy.(sp_filterEphemeral) with
       | Some s, Some filter => filter state s
       | signal, _ => signal
       end) policies (Some signal).

Definition emitEphemeral (i : nat) (signal : EphemeralSignal) w : World :=
  let l := instance w i in
  match filter_signal (policiesFor w.(w_settings) l.(lp_channelId)) l.(lp_state) signal with
  | Some s => set_shown (w.(w_shown) ++ [s]) w
  | None => w
  end.

Definition abortChannel (channelId : string) w : World :=
  let entries := List.filter (fun e => e.(ab_channelId) =s? channelId) (dict_values w.(w_aborts)) in
  set_aborted (w.(w_aborted) ++ map ab_controller entries) w.

(** What a crash leaves: the tables and the alarm, and what is outside. *)
Definition crash w : World :=
  mkWorld w.(w_store) w.(w_blobs) w.(w_settings) w.(w_now) w.(w_uuid) w.(w_storeNow) w.(w_outbox) w.(w_cache)
    w.(w_resumes) w.(w_alarm) [] [] [] [] O false false [] [] [] [] w.(w_broadcasts) w.(w_shown) w.(w_heartbeats)
    w.(w_served).
End Driver.
