(* ===== verification/AgentDriverLaws.v ===== *)
(** Laws of the driver: what it asks of the log service, the part of the world that holds
    the folds, and what every function of the driver does to it, whatever runs beside. An
    instance belongs to the function that was answered with new envelopes for it until
    that function has folded them. *)
From stdpp Require Import gmap relations.
From S2P Require Import Prelude Dict JsValue JsText JsAsync AgentIds AgentState AgentFold AgentFoldLaws AgentEffects AgentStep.
From S2P Require Import AgentStepLaws AgentPolicyProps AgentOutboxProps.
From S2P Require Import GadAppendLaws AgentCache AgentCacheProps AgentOutbox AgentPolicies GadAppend GadStored AgentLoops AgentDriver.

#[local] Open Scope Z_scope.

(** * Logs *)

(** Numbered on from a number and chained to a hash. *)
Fixpoint chained (seq : Z) (hash : string) (L : list LogEnvelope) : Prop :=
  match L with
  | [] => True
  | e :: L => e.(env_seq) = seq + 1 /\ e.(env_prevHash) = hash /\ chained (seq + 1) e.(env_hash) L
  end.

Definition chain_end (hash : string) (L : list LogEnvelope) : string :=
  match list.last L with Some e => e.(env_hash) | None => hash end.

Lemma chained_app seq hash L1 L2 :
  chained seq hash (L1 ++ L2) <-> chained seq hash L1 /\ chained (seq + Z.of_nat (length L1)) (chain_end hash L1) L2.
Proof.
  revert seq hash. induction L1 as [|e L1 IH]; intros seq hash; cbn [app chained length].
  - unfold chain_end. simpl. rewrite Z.add_0_r. tauto.
  - rewrite IH. replace (seq + Z.of_nat (S (length L1))) with (seq + 1 + Z.of_nat (length L1)) by lia.
    replace (chain_end hash (e :: L1)) with (chain_end (env_hash e) L1); [tauto|].
    unfold chain_end. rewrite last_cons. by destruct (list.last L1).
Qed.

Lemma chain_end_snoc hash L e : chain_end hash (L ++ [e]) = e.(env_hash).
Proof. unfold chain_end. by rewrite last_snoc. Qed.

Lemma chained_bounds seq hash L : chained seq hash L ->
  Forall (fun e => seq < e.(env_seq) /\ e.(env_seq) <= seq + Z.of_nat (length L)) L.
Proof.
  revert seq hash. induction L as [|e L IH]; intros seq hash; cbn [chained]; [constructor|]. intros (E & _ & H).
  cbn [length]. constructor; [lia|]. eapply Forall_impl; [|exact (IH _ _ H)]. simpl. lia.
Qed.

(** The envelopes behind a number are a suffix. *)
Lemma chained_drop hash L after : chained 0 hash L -> 0 <= after ->
  List.filter (fun e => after <? e.(env_seq)) L = drop (Z.to_nat after) L.
Proof.
  assert (Hg : forall L seq hash, chained seq hash L -> forall after, seq <= after ->
            List.filter (fun e => after <? e.(env_seq)) L = drop (Z.to_nat (after - seq)) L).
  { clear. induction L as [|e L IH]; intros seq hash H after Ha; [by rewrite drop_nil|].
    destruct H as (E & _ & H). cbn [List.filter]. destruct (Z.ltb_spec after (env_seq e)).
    - assert (after = seq) as -> by lia. rewrite Z.sub_diag. simpl. f_equal.
      clear -H E. apply chained_bounds in H. induction H as [|x l [Hx _] _ IHl]; [done|]. simpl.
      destruct (Z.ltb_spec seq (env_seq x)); [|lia]. by f_equal.
    - rewrite (IH _ _ H) by lia. replace (Z.to_nat (after - seq)) with (S (Z.to_nat (after - (seq + 1)))) by lia. done. }
  intros H Ha. rewrite (Hg L 0 hash H) by lia. by rewrite Z.sub_0_r.
Qed.

(** The log service of a channel: one log under the id of the channel, which only grows,
    read and appended to as the gad store does. *)
Class AgentStoreLaws (G : Type) `{AgentStore G} := {
  ds_ok : G -> Prop;
  ds_log : G -> string -> list LogEnvelope -> Prop;
  ds_total : forall g id, ds_ok g -> exists L, ds_log g id L;
  ds_fun : forall g id L L', ds_log g id L -> ds_log g id L' -> L = L';
  ds_chained : forall g id L, ds_ok g -> ds_log g id L -> chained 0 GENESIS_LAST_HASH L;
  ds_distinct : forall g id L, ds_ok g -> ds_log g id L -> NoDup (GENESIS_LAST_HASH :: map env_hash L);
  ds_head : forall g id L, ds_ok g -> ds_log g id L ->
    match as_getLogHead g id id with
    | None => L = []
    | Some h => h.(lh_seq) = Z.of_nat (length L) /\
        (L = [] -> default 0 h.(lh_forkSeq) = 0 /\ default GENESIS_LAST_HASH (AgentCache.truthy h.(lh_forkHash)) = GENESIS_LAST_HASH)
    end;
  ds_read : forall g id L after limit, ds_ok g -> ds_log g id L -> (0 < limit)%nat ->
    as_readLog g id id after limit = Ok (take limit (List.filter (fun e => after <? e.(env_seq)) L));
  ds_append : forall g input id h L g' envelopes published, ds_ok g -> ds_log g id L ->
    input.(in_logId) = id -> input.(in_head) = id -> input.(in_expectedHeadHash) = Some (Some h) ->
    as_appendLogEvent g input = Ok (g', (envelopes, published)) ->
    ds_ok g' /\ (forall id' L', ds_log g id' L' -> exists more, ds_log g' id' (L' ++ more)) /\
    exists replayed new, envelopes = replayed ++ new /\ ds_log g' id (L ++ new) /\ Forall (fun e => In e L) replayed /\
      (new <> [] -> replayed = [] -> h = chain_end GENESIS_LAST_HASH L) /\
      (new <> [] -> forall e, list.last replayed = Some e -> list.last L = Some e)
}.

(** * The part of the world that holds the folds *)

(** The policies a vessel gives its driver publish nothing of their own, as those of the
    source ([source_policies_name_acks]). *)
Class VesselLaws (S : Type) `{!DriverDeps S} :=
  policies_name_acks : forall (settings : S) (channelId : string), Forall names_acks (policiesFor settings channelId).

Section Laws.
Context {G B S : Type} `{!AgentStore G, !AgentStoreLaws G, !TextBlobs B, !DriverDeps S, !VesselLaws S} {classifier : ModelFailureClassifier}.
Abbreviation World := (World G B S).
Abbreviation prog := (prog World).
Implicit Types w : World.

Definition log_id (c : string) : string := ids.logIdForChannel c.

(** Where the fold of a channel's log starts. *)
Definition start (c : string) : AgentState :=
  initialAgentState (mkInitialStateInput c None None VUndef None None None (as_str (selfRefFor c).!"id")).

(** A state is the fold of envelopes, up to its configuration. *)
Definition folds (c : string) (front : list LogEnvelope) (st : AgentState) : Prop :=
  exists st0, foldEvents (start c) front = Ok st0 /\ plain_state st = plain_state st0.

Lemma folds_app c front st envs st' :
  folds c front st -> foldEvents st envs = Ok st' -> folds c (front ++ envs) st'.
Proof.
  intros (st0 & Hf & E) Hst. pose proof (foldEvents_plain envs _ _ E) as Hp. rewrite Hst in Hp.
  destruct (foldEvents st0 envs) as [st1|] eqn:H1; [|done]. exists st1. split; [|by apply Ok_inj].
  unfold foldEvents in *. rewrite res_foldl_app, Hf. exact H1.
Qed.

Lemma folds_plain c front st st' : folds c front st -> plain_state st' = plain_state st -> folds c front st'.
Proof. intros (st0 & Hf & E) E'. exists st0. split; [done|]. congruence. Qed.

(** Where such a state stands. *)
Lemma folds_place c front st : chained 0 GENESIS_LAST_HASH front -> folds c front st ->
  st.(lastSeq) = Z.of_nat (length front) /\ st.(lastHash) = chain_end GENESIS_LAST_HASH front /\
  st.(logId) = log_id c /\ st.(head) = log_id c.
Proof.
  intros Hc (st0 & Hf & (-> & -> & -> & -> & _)%plain_fields). pose proof (foldEvents_identity _ _ _ Hf) as (E1 & E2 & _).
  rewrite <- E1, <- E2. change (logId (start c)) with (log_id c). change (head (start c)) with (log_id c).
  destruct front as [|e front _] using rev_ind.
  - by injection Hf as <-.
  - unfold foldEvents in Hf. rewrite res_foldl_app in Hf. apply res_bind_Ok in Hf as (st1 & _ & Hf). simpl in Hf.
    apply res_bind_Ok in Hf as (st2 & Ha & Hf). apply Ok_inj in Hf as <-. apply applyEvent_frame in Ha as (-> & -> & _).
    apply chained_app in Hc as [_ (E & _)]. rewrite chain_end_snoc, length_app. simpl. split; [lia|done].
Qed.

(** What is folded of a batch before a throw is a part of it. *)
Lemma apply_all_folds c envs : forall front st, folds c front st -> exists done rest,
  envs = done ++ rest /\ folds c (front ++ done) (apply_all st envs).1 /\ ((apply_all st envs).2 = Ok tt -> rest = []).
Proof.
  induction envs as [|e envs IH]; intros front st Hf; simpl.
  - exists [], []. rewrite (app_nil_r front). done.
  - destruct (applyEvent st e) as [st1|err] eqn:Ha.
    + destruct (IH (front ++ [e]) st1) as (done & rest & -> & Hd & Hr).
      { eapply folds_app; [exact Hf|]. unfold foldEvents. simpl. by rewrite Ha. }
      exists (e :: done), rest. rewrite <- app_assoc in Hd. done.
    + exists [], (e :: envs). rewrite app_nil_r. done.
Qed.

(** A state that is the fold of a beginning of its channel's log. *)
Definition fold_ok (g : G) (c : string) (st : AgentState) : Prop :=
  exists front rest, ds_log g (log_id c) (front ++ rest) /\ folds c front st.

Definition grows (g g' : G) : Prop := forall id L, ds_log g id L -> exists more, ds_log g' id (L ++ more).

Lemma fold_ok_grows g g' c st : grows g g' -> fold_ok g c st -> fold_ok g' c st.
Proof. intros Hg (front & rest & HL & Hf). destruct (Hg _ _ HL) as (more & HL'). exists front, (rest ++ more). by rewrite app_assoc. Qed.

Definition valid w (i : nat) (c : string) : Prop := exists l, w.(w_heap) !! i = Some l /\ l.(lp_channelId) = c.

Record Inv w : Prop := {
  inv_store : ds_ok w.(w_store);
  inv_heap : forall i l, w.(w_heap) !! i = Some l ->
    l.(lp_logId) = log_id l.(lp_channelId) /\ l.(lp_head) = log_id l.(lp_channelId) /\
    fold_ok w.(w_store) l.(lp_channelId) l.(lp_state);
  inv_loops : forall c i, In (Some (c, i)) w.(w_loops) -> valid w i c;
  inv_cache : forall k st, w.(w_cache) !! k = Some (Some st) ->
    exists c, k = (log_id c, log_id c) /\ fold_ok w.(w_store) c st;
  inv_policies : forall i l, w.(w_heap) !! i = Some l -> Forall names_acks l.(lp_policies);
  inv_outbox : rows_ok w.(w_outbox)
}.

(** An answered append that replays, behind the number its instance had folded to, events
    that were in the log before. *)
Definition past_fold (s : Served) : bool :=
  existsb (fun e => (s.(sv_lastSeq) <? e.(env_seq)) && (e.(env_seq) <=? s.(sv_headSeq))) s.(sv_envelopes).

Definition Fresh w : Prop := Forall (fun s => past_fold s = false) w.(w_served).

(** The instance a function has new envelopes for, and the envelopes. *)
Definition Own : Type := option (nat * list LogEnvelope).

Definition owned (t : Own) w : Prop :=
  match t with
  | None => True
  | Some (i, envs) =>
      envs <> [] /\ exists l front rest, w.(w_heap) !! i = Some l /\
        ds_log w.(w_store) (log_id l.(lp_channelId)) (front ++ envs ++ rest) /\ folds l.(lp_channelId) front l.(lp_state)
  end.

Definition I (t : Own) w : Prop := Inv w /\ owned t w.

Record Grow w w' : Prop := {
  gr_log : grows w.(w_store) w'.(w_store);
  gr_heap : forall i l, w.(w_heap) !! i = Some l -> exists l', w'.(w_heap) !! i = Some l' /\
    l'.(lp_channelId) = l.(lp_channelId) /\ l.(lp_state).(lastSeq) <= l'.(lp_state).(lastSeq)
}.

Definition keeps_owned (t : Own) w w' : Prop :=
  match t with Some (i, _) => w'.(w_heap) !! i = w.(w_heap) !! i | None => True end.

Definition Rely (t : Own) w w' : Prop := Grow w w' /\ keeps_owned t w w'.

(** The instance has folded its log. *)
Definition at_end w (i : nat) : Prop :=
  exists l L, w.(w_heap) !! i = Some l /\ ds_log w.(w_store) (log_id l.(lp_channelId)) L /\ folds l.(lp_channelId) L l.(lp_state).

Definition Guar (t : Own) w (t' : Own) w' : Prop :=
  Grow w w' /\
  (forall i l, w.(w_heap) !! i = Some l -> w'.(w_heap) !! i = Some l \/ exists envs, t = Some (i, envs)) /\
  (t' = t \/ match t' with Some (i, _) => at_end w i | None => True end).

#[export] Instance Grow_preorder : PreOrder Grow.
Proof.
  split.
  - intros w. split; [|intros i l Hl; exists l; by repeat split]. intros id L HL. exists []. by rewrite (app_nil_r L).
  - intros w1 w2 w3 [H1 H2] [H3 H4]. split.
    + intros id L HL. destruct (H1 _ _ HL) as (m & HL2). destruct (H3 _ _ HL2) as (m' & HL3). exists (m ++ m'). by rewrite (app_assoc L).
    + intros i l Hl. destruct (H2 _ _ Hl) as (l2 & Hl2 & E2 & L2). destruct (H4 _ _ Hl2) as (l3 & Hl3 & E3 & L3).
      exists l3. split; [done|]. split; [congruence|lia].
Qed.

Lemma Rely_trans t w1 w2 w3 : Rely t w1 w2 -> Rely t w2 w3 -> Rely t w1 w3.
Proof. intros [H1 K1] [H2 K2]. split; [by trans w2|]. destruct t as [[i e]|]; simpl in *; congruence. Qed.

Lemma Rely_refl t w : Rely t w w.
Proof. split; [done|]. by destruct t as [[i e]|]. Qed.

Lemma Guar_refl t w : Guar t w t w.
Proof. split; [done|]. split; [by left|by left]. Qed.

(** * Functions beside each other *)

Definition apart (t1 t2 : Own) : Prop :=
  match t1, t2 with Some (i, _), Some (j, _) => i <> j | _, _ => True end.

(** What one function does is what the others rely on. *)
Lemma others_rely tj tk w tk' w' :
  apart tj tk -> I tj w -> Guar tk w tk' w' -> I tk' w' -> Rely tj w w' /\ I tj w' /\ apart tj tk'.
Proof.
  intros Ha [Hi Hj] (Hg & Hs & Hn) [Hi' _]. destruct tj as [[i envs]|]; [|by (split; [split|split; [split|]])].
  destruct Hj as (Hne & l & front & rest & Hl & HL & Hf).
  assert (Hsame : w_heap w' !! i = Some l).
  { destruct (Hs i l Hl) as [|(e & ->)]; [done|]. simpl in Ha. done. }
  split; [split; [done|simpl; by rewrite Hsame, Hl]|]. split.
  - split; [done|]. destruct (gr_log _ _ Hg _ _ HL) as (more & HL'). split; [done|]. exists l, front, (rest ++ more).
    rewrite <- !app_assoc in HL'. done.
  - destruct Hn as [->|Hn]; [done|]. destruct tk' as [[j e]|]; [|done]. simpl. intros <-.
    destruct Hn as (l2 & L & Hl2 & HL2 & Hf2). assert (l2 = l) as -> by congruence.
    rewrite (ds_fun _ _ _ _ HL2 HL) in Hf2. pose proof (ds_chained _ _ _ (inv_store _ Hi) HL) as Hc.
    destruct (folds_place _ _ _ Hc Hf2) as (E2 & _). apply chained_app in Hc as [Hc _].
    destruct (folds_place _ _ _ Hc Hf) as (E & _). rewrite E2, !length_app in E. destruct envs; [done|]. simpl in E. lia.
Qed.

(** * What a function does, from nothing owned to nothing owned *)

Definition ended {A} (Q : A -> World -> Prop) (r : res A) (t : Own) w : Prop :=
  t = None /\ match r with Ok a => Q a w | Throw _ => True end.

Definition does {A} (p : prog A) (Q : A -> World -> Prop) w : Prop :=
  Fresh w -> I None w -> owp Rely Guar I Fresh p (ended Q) None w.

(** ... whatever it is for. *)
Definition harmless {A} (p : prog A) : Prop := forall w, does p (fun _ _ => True) w.

Definition stable {A} (Q : A -> World -> Prop) : Prop := forall a w w', Grow w w' -> Q a w -> Q a w'.

Lemma Rely_Grow t w w' : Rely t w w' -> Grow w w'.
Proof. by intros []. Qed.

Lemma Guar_Grow t w t' w' : Guar t w t' w' -> Grow w w'.
Proof. by intros []. Qed.

Lemma does_mono A (p : prog A) (Q Q' : A -> World -> Prop) w :
  does p Q w -> (forall a w', Grow w w' -> Q a w' -> Q' a w') -> does p Q' w.
Proof.
  intros H HQ HF HI. pose proof (owp_grow _ _ _ _ Grow Rely_Grow Guar_Grow _ p _ w None w (reflexivity w) (H HF HI)) as H1.
  eapply owp_mono; [done|done| |exact H1]. intros r t w' _ _ (Hg & -> & Hr). split; [done|]. destruct r; auto.
Qed.

Lemma does_bindr A C (p : prog A) (k : res A -> prog C) Q1 Q w :
  does p Q1 w -> (forall r w', Grow w w' -> match r with Ok a => Q1 a w' | Throw _ => True end -> does (k r) Q w') ->
  does (bindr p k) Q w.
Proof.
  intros Hp Hk HF HI. eapply (owp_seq _ _ _ _ Grow Rely_Grow Guar_Grow); [done|done|by apply Hp|].
  intros r t' w' HF' HI' Hg [-> Hr]. by apply Hk.
Qed.

Lemma does_ret A (a : A) (Q : A -> World -> Prop) w : Q a w -> does (ret a) Q w.
Proof. by intros H _ _. Qed.

Lemma does_raise A e (Q : A -> World -> Prop) w : does (raise e) Q w.
Proof. by intros _ _. Qed.

Lemma does_lift A (r : res A) (Q : A -> World -> Prop) w : (forall a, r = Ok a -> Q a w) -> does (lift r) Q w.
Proof. intros H _ _. split; [done|]. destruct r; auto. Qed.

Lemma does_bind A C (p : prog A) (k : A -> prog C) Q1 Q w :
  does p Q1 w -> (forall a w', Grow w w' -> Q1 a w' -> does (k a) Q w') -> does (bind p k) Q w.
Proof. intros Hp Hk. eapply does_bindr; [exact Hp|]. intros [a|e] w' Hg Hr; [by apply Hk|by apply does_raise]. Qed.

Lemma does_Act A C (f : World -> World * C) (k : C -> prog A) Q w :
  (Fresh (f w).1 -> I None w -> Guar None w None (f w).1 /\ I None (f w).1 /\ does (k (f w).2) Q (f w).1) -> does (Act f k) Q w.
Proof. intros H _ HI HF. destruct (H HF HI) as (HG & HI' & Hd). exists None. split; [done|]. split; [done|]. by apply Hd. Qed.

Lemma does_act A (f : World -> World * A) (Q : A -> World -> Prop) w :
  (Fresh (f w).1 -> I None w -> Guar None w None (f w).1 /\ I None (f w).1 /\ Q (f w).2 (f w).1) -> does (act f) Q w.
Proof. intros H. apply does_Act. intros HF HI. destruct (H HF HI) as (? & ? & ?). split; [done|]. split; [done|]. by apply does_ret. Qed.

Lemma does_get A (f : World -> A) (Q : A -> World -> Prop) w : (Inv w -> Q (f w) w) -> does (get f) Q w.
Proof. intros H. apply does_act. intros _ HI. split; [apply Guar_refl|]. split; [done|]. apply H, HI. Qed.

Lemma does_act_res A (f : World -> res A) (Q : A -> World -> Prop) w :
  (forall a, f w = Ok a -> Q a w) -> does (act_res (fun w => (w, f w))) Q w.
Proof. intros H. apply does_Act. intros _ HI. split; [apply Guar_refl|]. split; [done|]. by apply does_lift. Qed.

Lemma does_yield A (p : prog A) Q w : (forall w', Grow w w' -> does p Q w') -> does (Yield p) Q w.
Proof. intros H _ _ w' HF HR HI. by apply (H w' (Rely_Grow _ _ _ HR)). Qed.

Lemma does_until A c (p : prog A) Q w : (forall w', Grow w w' -> does p Q w') -> does (Until c p) Q w.
Proof. intros H _ _ w' HF HR HI _. by apply (H w' (Rely_Grow _ _ _ HR)). Qed.

Lemma does_async A (p : prog A) (Q : A -> World -> Prop) w : stable Q -> does p Q w -> does (async p) Q w.
Proof.
  intros HQ Hp. eapply does_bindr; [exact Hp|]. intros r w' _ Hr. apply does_yield. intros w2 Hg.
  apply does_lift. intros a ->. by eapply HQ.
Qed.

Lemma does_query A (f : World -> res A) (Q : A -> World -> Prop) w :
  (forall w1 a w2, Grow w w1 -> Inv w1 -> f w1 = Ok a -> Grow w1 w2 -> Q a w2) -> does (remote (fun w => (w, f w))) Q w.
Proof.
  intros H. apply does_yield. intros w1 H1. apply does_Act. cbn [fst snd]. intros _ HI. split; [apply Guar_refl|]. split; [done|].
  apply does_yield. intros w2 H2. apply does_lift. intros a Ha. eapply H; [exact H1|apply HI|done|done].
Qed.

Lemma does_while X C (body : X -> prog (X + C)) (J : X -> World -> Prop) s (Q : C -> World -> Prop) w : J s w ->
  (forall s w', Grow w w' -> J s w' -> does (body s) (fun r w2 => match r with inl s' => J s' w2 | inr b => Q b w2 end) w') ->
  does (while body s) Q w.
Proof.
  intros Hs Hb HF HI. simpl. exists (fun s t w' => t = None /\ Grow w w' /\ J s w'). split; [split; [done|by split]|].
  intros s1 t1 w1 HF1 HI1 (-> & HR1 & Hs1).
  pose proof (owp_grow _ _ _ _ Grow Rely_Grow Guar_Grow _ (body s1) _ w None w1 HR1 (Hb s1 w1 HR1 Hs1 HF1 HI1)) as Hp.
  eapply owp_mono; [done|done| |exact Hp]. intros [[s'|b]|e] t2 w2 _ _ (HR2 & -> & H2); [split; [done|by split]|by split..].
Qed.

Lemma does_each A (f : A -> prog unit) l w : (forall x w', Grow w w' -> does (f x) (fun _ _ => True) w') -> does (for_each f l) (fun _ _ => True) w.
Proof.
  revert w. induction l as [|x l IH]; intros w Hf; simpl; [by apply does_ret|].
  eapply does_bind; [by apply Hf|]. intros _ w' Hg _. apply IH. intros y w2 Hg2. apply Hf. by trans w'.
Qed.

Lemma harmless_mono A (p : prog A) Q w : does p Q w -> does p (fun _ _ => True) w.
Proof. intros H. by eapply does_mono. Qed.

(** * Steps beside the folds *)

Record same_core w w' : Prop := {
  sc_store : w'.(w_store) = w.(w_store);
  sc_heap : w'.(w_heap) = w.(w_heap);
  sc_loops : w'.(w_loops) = w.(w_loops);
  sc_cache : w'.(w_cache) = w.(w_cache);
  sc_outbox : rows_ok w.(w_outbox) -> rows_ok w'.(w_outbox)
}.

Lemma same_core_refl w : same_core w w.
Proof. done. Qed.

(** A step on the rows. *)
Lemma same_outbox ob w : (rows_ok w.(w_outbox) -> rows_ok ob) -> same_core w (set_outbox ob w).
Proof. by split. Qed.

Lemma same_core_trans w1 w2 w3 : same_core w1 w2 -> same_core w2 w3 -> same_core w1 w3.
Proof. intros [] []. split; [congruence..|]. auto. Qed.

Lemma Grow_same w w' : w'.(w_store) = w.(w_store) -> w'.(w_heap) = w.(w_heap) -> Grow w w'.
Proof.
  intros Es Eh. split; rewrite ?Es, ?Eh; [intros id L HL; exists []; by rewrite app_nil_r|].
  intros i l Hl. exists l. by repeat split.
Qed.

Lemma Guar_same t w w' : w'.(w_store) = w.(w_store) -> w'.(w_heap) = w.(w_heap) -> Guar t w t w'.
Proof. intros Es Eh. split; [by apply Grow_same|]. split; [rewrite Eh; by left|by left]. Qed.

Lemma Inv_same w w' : same_core w w' -> Inv w -> Inv w'.
Proof.
  intros [Es Eh El Ec Eo] [H1 H2 H3 H4 H5 H6]. split; rewrite ?Es, ?Eh, ?El, ?Ec; [done|done| |done|done|by apply Eo].
  intros c i Hi. unfold valid. rewrite Eh. by apply H3.
Qed.

Lemma owned_same t w w' : w'.(w_store) = w.(w_store) -> w'.(w_heap) = w.(w_heap) -> owned t w -> owned t w'.
Proof. intros Es Eh. destruct t as [[i e]|]; simpl; [|done]. by rewrite Es, Eh. Qed.

Lemma does_quiet (f : World -> World) (Q : unit -> World -> Prop) w :
  same_core w (f w) -> Q tt (f w) -> does (modify f) Q w.
Proof.
  intros Hs HQ. apply does_act. cbn [fst snd]. intros _ [Hi Ho]. split; [apply Guar_same; apply Hs|].
  split; [split; [by eapply Inv_same|done]|done].
Qed.

(** A step that also computes something. *)
Lemma does_quiet_act A (f : World -> World * A) (Q : A -> World -> Prop) w :
  same_core w (f w).1 -> Q (f w).2 (f w).1 -> does (act f) Q w.
Proof.
  intros Hs HQ. apply does_act. intros _ [Hi Ho]. split; [apply Guar_same; apply Hs|].
  split; [split; [by eapply Inv_same|done]|done].
Qed.

Lemma valid_grow w w' i c : Grow w w' -> valid w i c -> valid w' i c.
Proof. intros Hg (l & Hl & E). destruct (gr_heap _ _ Hg i l Hl) as (l' & Hl' & E' & _). exists l'. split; [done|congruence]. Qed.

Lemma valid_stable c : stable (fun i w => valid w i c).
Proof. intros i w w'. apply valid_grow. Qed.

Lemma same_schedule w : same_core w (schedule_earliest w).
Proof. unfold schedule_earliest, arm. by destruct (AgentOutbox.scheduleEarliest _ _ _). Qed.

Lemma same_arm at_ w : same_core w (arm at_ w).
Proof. by destruct at_. Qed.

Lemma same_request_pump w : same_core w (request_pump w).
Proof. unfold request_pump. destruct (AgentOutbox.requestPump _ _); [done|]. by destruct runBackground. Qed.

Lemma same_reconcile i w : same_core w (reconcile_loop i w).
Proof.
  unfold reconcile_loop. pose proof (rows_reconcile w.(w_outbox) (lp_logId (instance w i)) (lp_state (instance w i)) (earliestScheduledModelResumeAt w) w.(w_now)) as Hr.
  destruct (AgentOutbox.reconcile _ _ _ _ _) as [ob at_]. by eapply same_core_trans; [|apply same_arm].
Qed.

Lemma same_register i w effects : Forall ack_named effects -> same_core w (fold_left (register_effect i) effects w).
Proof.
  intros Hn. revert w. induction Hn as [|e effects He _ IH]; intros w; simpl; [done|]. eapply same_core_trans; [|apply IH].
  unfold register_effect. destruct e; split; try done; intros Hw; by apply rows_insert.
Qed.

(** The map of loops. *)
Lemma loops_get_In c loops i : loops_get c loops = Some i -> In (Some (c, i)) loops.
Proof.
  unfold loops_get. destruct (List.find _ loops) as [[[k j]|]|] eqn:E; [|done..]. intros [= ->].
  apply find_some in E as [Hin E]. simpl in E. apply String.eqb_eq in E. by subst.
Qed.

Lemma loops_delete_In c loops x : In (Some x) (loops_delete c loops) -> In (Some x) loops.
Proof.
  unfold loops_delete. intros (e & E & Hin)%in_map_iff. destruct (is_entry c e); [done|]. by subst.
Qed.

Lemma loops_put_In c i loops k j : In (Some (k, j)) (loops_put c i loops) -> (k, j) = (c, i) \/ In (Some (k, j)) loops.
Proof.
  unfold loops_put. destruct (isSome _).
  - intros (e & E & Hin)%in_map_iff. destruct (is_entry c e); [left; by injection E as <- <-|right; by subst].
  - intros [H|[H|[]]]%in_app_iff; [by right|left; by injection H as <- <-].
Qed.

Lemma does_drop c : harmless (modify (dropLoop c)).
Proof.
  intros w. apply does_act. cbn [fst snd]. intros _ [Hi Ho]. split; [by apply Guar_same|]. split; [|done]. split; [|done].
  destruct Hi as [H1 H2 H3 H4 H5 H6]. split; [done|done| |done|done|done]. intros k i Hin. apply loops_delete_In in Hin. by apply (H3 k i).
Qed.

(** * Loading *)

Definition log_at w (c : string) (L : list LogEnvelope) : Prop := ds_log w.(w_store) (log_id c) L.

Lemma log_grow w w' c L : Grow w w' -> log_at w c L -> exists more, log_at w' c (L ++ more).
Proof. intros Hg HL. exact (gr_log _ _ Hg _ _ HL). Qed.

Lemma chained_last P page R e : chained 0 GENESIS_LAST_HASH (P ++ page ++ R) -> list.last page = Some e ->
  e.(env_seq) = Z.of_nat (length P + length page).
Proof.
  intros Hc He. apply last_Some in He as (page' & ->). rewrite <- app_assoc, app_assoc in Hc.
  apply chained_app in Hc as [_ (E & _)]. rewrite E, !length_app. simpl. lia.
Qed.

(** A part of the log behind [n], with all that was in the log at first. *)
Definition part (n : nat) (c : string) (L0 all : list LogEnvelope) w : Prop :=
  exists L rest, log_at w c L /\ drop n L = all ++ rest.

Lemma part_stable n c L0 : stable (part n c L0).
Proof.
  intros all w w' Hg (L & rest & HL & E). destruct (log_grow _ _ _ _ Hg HL) as (more & HL').
  exists (L ++ more), (rest ++ drop (n - length L) more). split; [done|]. by rewrite drop_app, E, app_assoc.
Qed.

Lemma does_read_all c after L0 w : 0 <= after -> log_at w c L0 ->
  does (read_all (log_id c) (log_id c) after)
    (fun all w' => part (Z.to_nat after) c L0 all w' /\ (length (drop (Z.to_nat after) L0) <= length all)%nat) w.
Proof.
  intros Ha HL0. set (n := Z.to_nat after). apply does_async.
  { intros all w1 w2 Hg [Hp Hl]. split; [by eapply part_stable|done]. }
  apply does_while with (J := fun s w' => part n c L0 s.1 w' /\ s.2 = after + Z.of_nat (length s.1) /\ (exists m, log_at w' c (L0 ++ m))).
  { split; [|split; [simpl; lia|exists []; by rewrite app_nil_r]]. exists L0, (drop n L0). by split. }
  intros [all cursor] w1 Hg1 (Hp & Hcur & Hm). cbn [fst snd] in *.
  apply does_bind with (Q1 := fun page w2 => exists L rest, log_at w2 c L /\ drop n L = all ++ page ++ rest /\
      (exists m, L = L0 ++ m) /\ ((length page < PAGE)%nat -> (length (drop n L0) <= length (all ++ page))%nat) /\
      (forall e, list.last page = Some e -> e.(env_seq) = cursor + Z.of_nat (length page))).
  - apply does_query. intros w2 page w3 Hg2 Hi Hpage Hg3. destruct (part_stable n c L0 all _ _ Hg2 Hp) as (L & rest & HL & E).
    pose proof (ds_chained _ _ _ (inv_store _ Hi) HL) as Hch.
    rewrite (ds_read _ _ L) in Hpage; [|apply Hi|done|unfold PAGE; lia]. rewrite (chained_drop _ _ _ Hch) in Hpage by lia.
    apply Ok_inj in Hpage. symmetry in Hpage.
    assert (Er : drop (Z.to_nat cursor) L = rest).
    { replace (Z.to_nat cursor) with (n + length all)%nat by lia. by rewrite <- drop_drop, E, drop_app_length. }
    rewrite Er in Hpage. destruct Hm as (m & Hm). destruct (log_grow _ _ _ _ Hg2 Hm) as (m2 & Hm2).
    assert (EL : L = L0 ++ (m ++ m2)) by (rewrite app_assoc; by eapply ds_fun).
    destruct (log_grow _ _ _ _ Hg3 HL) as (more & HL3). exists (L ++ more), (drop PAGE rest ++ drop (n - length L) more).
    split; [done|]. split; [|split; [exists ((m ++ m2) ++ more); by rewrite EL, <- app_assoc|split]].
    + rewrite drop_app, E, Hpage, <- !app_assoc. f_equal. by rewrite (app_assoc (take _ _)), take_drop.
    + intros Hlen. assert (page = rest) as ->.
      { rewrite Hpage in Hlen |- *. rewrite length_take in Hlen. apply take_ge. lia. }
      rewrite <- E, EL, drop_app, length_app. lia.
    + intros e He. assert (El : L = take (Z.to_nat cursor) L ++ page ++ drop PAGE rest).
      { rewrite Hpage, (take_drop PAGE rest), <- Er. symmetry. apply take_drop. }
      rewrite El in Hch. rewrite (chained_last _ _ _ _ Hch He). rewrite Hpage, <- Er in He.
      assert (Hc : (Z.to_nat cursor < length L)%nat).
      { destruct (Nat.lt_ge_cases (Z.to_nat cursor) (length L)) as [|Hge]; [done|]. rewrite drop_ge, take_nil in He by done. done. }
      rewrite length_take. lia.
  - intros page w2 Hg2 (L & rest & HL & E & (m & EL) & Hshort & Hlast). destruct (list.last page) as [e|] eqn:El.
    + assert (Hp' : part n c L0 (all ++ page) w2) by (exists L, rest; by rewrite <- app_assoc).
      destruct (Nat.ltb_spec (length page) PAGE) as [Hlt|Hge]; apply does_ret; [split; [done|by apply Hshort]|].
      split; [done|]. split; [rewrite (Hlast e eq_refl); cbn [fst snd]; rewrite length_app; lia|]. exists m. by rewrite <- EL.
    + apply last_None in El as ->. apply does_ret. simpl in E. split; [by exists L, rest|].
      rewrite app_nil_r in Hshort. apply Hshort. unfold PAGE. simpl. lia.
Qed.

(** What a load is asked for. *)
Record asks (c : string) (input : LoadInput) : Prop := {
  ask_logId : input.(li_logId) = log_id c;
  ask_head : input.(li_head) = log_id c;
  ask_channelId : input.(li_channelId) = c;
  ask_selfId : input.(li_selfId) = as_str (selfRefFor c).!"id"
}.

Lemma asks_input c w : asks c (load_input c w).
Proof. done. Qed.

Lemma plain_at hash seq st :
  plain_state (with_lastHash hash (with_lastSeq seq st))
  = mkAgentState st.(logId) st.(head) st.(channelId) seq hash 0 st.(selfId) VUndef st.(entries) st.(openTurn)
      st.(inFlightModelCall) st.(pendingInvocations) st.(pendingApprovals) st.(pendingCredentialWaits) st.(steeringQueue)
      st.(pendingPrompt) st.(deferredPostTurnQueue).
Proof. by destruct st. Qed.

(** Where a refold starts, once it stands at the beginning. *)
Lemma empty_start c input remote hash : asks c input -> hash = GENESIS_LAST_HASH ->
  plain_state (with_lastHash hash (with_lastSeq 0 (emptyState input remote))) = plain_state (start c).
Proof.
  intros [El Eh Ec Es] ->. rewrite plain_at.
  assert (E : start c = with_lastHash GENESIS_LAST_HASH (with_lastSeq 0 (start c))) by done. rewrite E, plain_at. clear E.
  assert (Eself : selfId (emptyState input remote) = selfId (start c)).
  { cbn. rewrite Es. destruct (as_str _) as [s|]; [|done]. cbn. by destruct (s =s? "") eqn:E; cbn; rewrite ?E. }
  rewrite Eself. cbn. by rewrite El, Eh, Ec.
Qed.

Lemma with_lastHash_same st : with_lastHash st.(lastHash) st = st.
Proof. by destruct st. Qed.

(** The head of a log, as long as the log is empty. *)
Definition head_ok (c : string) (remote : LogHead) w : Prop := exists L, log_at w c L /\ (L = [] ->
  default 0 remote.(lh_forkSeq) = 0 /\ default GENESIS_LAST_HASH (AgentCache.truthy remote.(lh_forkHash)) = GENESIS_LAST_HASH).

Lemma head_ok_stable c : stable (head_ok c).
Proof.
  intros h w w' Hg (L & HL & E). destruct (log_grow _ _ _ _ Hg HL) as (more & HL'). exists (L ++ more). split; [done|].
  intros [-> _]%app_eq_nil. by apply E.
Qed.

Lemma refold_ok c input remote L rest envelopes st w : Inv w -> asks c input -> log_at w c L -> L = envelopes ++ rest ->
  (envelopes = [] -> default 0 remote.(lh_forkSeq) = 0 /\ default GENESIS_LAST_HASH (AgentCache.truthy remote.(lh_forkHash)) = GENESIS_LAST_HASH) ->
  refold (emptyState input (Some remote)) (default 0 remote.(lh_forkSeq)) envelopes = Ok st -> fold_ok w.(w_store) c st.
Proof.
  intros Hi Ha HL EL Hnil H. exists envelopes, rest. split; [by rewrite <- EL|]. unfold refold in H.
  apply res_bind_Ok in H as (st1 & Hf & H). apply Ok_inj in H as <-. destruct envelopes as [|e es].
  - destruct (Hnil eq_refl) as [Es Eh]. apply Ok_inj in Hf as <-. exists (start c). split; [done|]. rewrite Es.
    rewrite <- (empty_start c input (Some remote) GENESIS_LAST_HASH Ha eq_refl), <- Eh. reflexivity.
  - pose proof (ds_chained _ _ _ (inv_store _ Hi) HL) as Hc. rewrite EL in Hc. destruct Hc as (_ & Ep & _).
    pose proof (foldEvents_plain (e :: es) _ _ (empty_start c input (Some remote) _ Ha Ep)) as Hp. rewrite Hf in Hp.
    destruct (foldEvents (start c) (e :: es)) as [st0|] eqn:E0; [|done]. exists st0. split; [done|]. apply Ok_inj in Hp. by rewrite <- Hp.
Qed.

Lemma does_cold_refold c input remote w : asks c input -> head_ok c remote w ->
  does (cold_refold input remote) (fun st w' => fold_ok w'.(w_store) c st) w.
Proof.
  intros Ha (L0 & HL0 & Hh). apply does_async; [intros st w1 w2 Hg; by apply fold_ok_grows, Hg|].
  eapply does_bind; [rewrite (ask_logId _ _ Ha), (ask_head _ _ Ha); by apply (does_read_all c 0 L0)|].
  intros envelopes w' Hg [(L & rest & HL & E) Hlen] HF HI. split; [done|].
  destruct (refold _ _ _) as [st|] eqn:Hr; [|done]. apply (refold_ok c input remote L rest envelopes st w'); try done; [apply HI|].
  intros ->. apply Hh. destruct L0; [done|simpl in Hlen; lia].
Qed.

Lemma Inv_cache c st w : Inv w -> fold_ok w.(w_store) c st -> Inv (set_cache (cache_write w.(w_cache) st) w).
Proof.
  intros Hi Hf. destruct Hi as [H1 H2 H3 H4 H5 H6]. split; [done|done|done| |done|done]. cbn. intros k st1.
  unfold cache_write. revert H4. generalize (w_cache w) as cache. unfold CacheTable. intros cache H4.
  destruct Hf as (front & rest & HL & Hf). pose proof (ds_chained _ _ _ H1 HL) as [Hc _]%chained_app.
  destruct (folds_place _ _ _ Hc Hf) as (_ & _ & El & Eh). rewrite El, Eh. destruct (decide (k = (log_id c, log_id c))) as [->|Hne].
  - rewrite lookup_insert_eq. intros [= <-]. exists c. split; [done|]. by exists front, rest.
  - rewrite lookup_insert_ne by congruence. apply H4.
Qed.

Lemma does_cache (f : World -> World) c st w : f w = set_cache (cache_write w.(w_cache) st) w ->
  fold_ok w.(w_store) c st -> does (modify f) (fun _ w' => fold_ok w'.(w_store) c st) w.
Proof.
  intros Ef Hf. apply does_act. cbn [fst snd]. rewrite Ef. intros _ [Hi _]. split; [by apply Guar_same|].
  split; [|exact Hf]. split; [by eapply Inv_cache|done].
Qed.

Lemma does_stored c st w : fold_ok w.(w_store) c st -> does (stored st) (fun st w' => fold_ok w'.(w_store) c st) w.
Proof. intros Hf. eapply does_bind; [by apply (does_cache _ c st)|]. intros [] w' _ H. by apply does_ret. Qed.

Lemma fold_ok_stable c : stable (fun st w => fold_ok w.(w_store) c st).
Proof. intros st w w' Hg. apply fold_ok_grows, Hg. Qed.

(** A cached row under the settings of now. *)
Lemma overlay_plain c input f cached front : asks c input -> folds c front cached ->
  plain_state (overlayCached input f cached) = plain_state cached.
Proof.
  intros Ha (st0 & Hf & Hp). pose proof (plain_fields _ _ Hp) as (_ & _ & _ & _ & Es).
  pose proof (foldEvents_identity _ _ _ Hf) as (_ & _ & _ & _ & E0). rewrite <- E0 in Es. clear -Ha Es.
  unfold overlayCached. cbv zeta. rewrite (ask_selfId _ _ Ha). unfold start, initialAgentState in Es. cbn in Es.
  destruct (as_str _) as [s|]; cbn in *; [|by destruct cached]. destruct (s =s? ""); cbn; [by destruct cached|].
  destruct cached. cbn in *. by subst.
Qed.

Lemma does_load c input w : asks c input -> does (load_state input) (fun st w' => fold_ok w'.(w_store) c st) w.
Proof.
  intros Ha. apply does_async; [apply fold_ok_stable|].
  apply does_bind with (Q1 := fun h w' => match h with Some remote => head_ok c remote w' | None => exists L, log_at w' c L end).
  { apply does_query. intros w1 h w2 _ Hi Hh Hg. apply Ok_inj in Hh. destruct (ds_total _ (log_id c) (inv_store _ Hi)) as (L & HL).
    pose proof (ds_head _ _ _ (inv_store _ Hi) HL) as Hhead. rewrite (ask_logId _ _ Ha), (ask_head _ _ Ha) in Hh. rewrite Hh in Hhead.
    destruct h as [remote|].
    - apply (head_ok_stable c remote w1); [done|]. exists L. split; [done|]. apply Hhead.
    - destruct (log_grow _ _ _ _ Hg HL) as (more & HL'). by eexists. }
  intros [remote|] w1 Hg1 Hhead; cycle 1.
  { destruct Hhead as (L & HL). apply does_ret. exists [], L. split; [done|]. exists (start c). split; [done|].
    rewrite <- (empty_start c input None GENESIS_LAST_HASH Ha eq_refl). reflexivity. }
  assert (Hcold : forall w2, Grow w1 w2 -> does (let* state := cold_refold input remote in stored state)
                    (fun st w' => fold_ok w'.(w_store) c st) w2).
  { intros w2 Hg2. eapply does_bind; [apply (does_cold_refold c); [done|]; by eapply head_ok_stable|].
    intros st w3 _ H. by apply does_stored. }
  unfold load_known. cbv zeta. apply does_bind with (Q1 := fun row w' => match row with Some cached => fold_ok w'.(w_store) c cached | None => True end).
  { apply does_get. intros Hi. unfold cache_read. rewrite (ask_logId _ _ Ha), (ask_head _ _ Ha).
    destruct (w_cache w1 !! _) as [[cached|]|] eqn:E; [|done..]. destruct (inv_cache _ Hi _ _ E) as (c' & Ek & Hf).
    assert (c' = c) as ->; [|done]. injection Ek as Ek. by apply string_app_inj_l in Ek. }
  intros [cached|] w2 Hg2 Hrow; [|by apply Hcold].
  destruct (_ && _).
  { apply does_ret. destruct Hrow as (front & rest & HL & Hf). exists front, rest. split; [done|]. eapply folds_plain; [exact Hf|by eapply overlay_plain]. }
  destruct (_ <? _); [|by apply Hcold].
  destruct Hrow as (front & rest & HL & Hf).
  intros HF HI. pose proof (ds_chained _ _ _ (inv_store _ (proj1 HI)) HL) as [Hc _]%chained_app.
  destruct (folds_place _ _ _ Hc Hf) as (Eseq & _). revert HF HI.
  eapply does_bind; [rewrite (ask_logId _ _ Ha), (ask_head _ _ Ha); apply (does_read_all c _ (front ++ rest)); [lia|done]|].
  intros tail w3 Hg3 [(L & rest3 & HL3 & E3) _]. cbn beta in *. destruct (match tail with [] => _ | _ => _ end).
  { apply Hcold. by trans w2. }
  apply does_bind with (Q1 := fun st w' => fold_ok w'.(w_store) c st); [|intros st w4 _ H; by apply does_stored].
  apply does_lift. intros st Hst. destruct (log_grow _ _ _ _ Hg3 HL) as (more & HL3').
  assert (E : L = front ++ tail ++ rest3).
  { rewrite (ds_fun _ _ _ _ HL3 HL3') in E3 |- *. rewrite Eseq, Nat2Z.id, <- app_assoc, drop_app_length in E3. by rewrite <- app_assoc, E3. }
  exists (front ++ tail), rest3. rewrite <- app_assoc, <- E. split; [done|]. eapply folds_app; [|exact Hst].
  eapply folds_plain; [exact Hf|by eapply overlay_plain].
Qed.

Lemma does_add_loop c st w : fold_ok w.(w_store) c st -> does (act (add_loop c st)) (fun i w' => valid w' i c) w.
Proof.
  intros Hf. apply does_act. intros _ [Hi _]. cbn [add_loop fst snd].
  assert (Hnew : forall i l, (w_heap w ++ [new_loop c st w]) !! i = Some l ->
            w_heap w !! i = Some l \/ (i = length (w_heap w) /\ l = new_loop c st w)).
  { intros i l. rewrite lookup_app. destruct (w_heap w !! i) as [x|] eqn:E; [by left|].
    intros Hl. right. apply lookup_ge_None in E. apply list_lookup_singleton_Some in Hl as [E2 <-]. split; [lia|done]. }
  assert (Hg : Grow w (set_loops (loops_put c (length (w_heap w)) (w_loops w)) (set_heap (w_heap w ++ [new_loop c st w]) w))).
  { split; [intros id L HL; exists []; by rewrite app_nil_r|]. intros i l Hl. exists l. split; [by apply lookup_app_l_Some|]. by split. }
  assert (Hv : valid (set_loops (loops_put c (length (w_heap w)) (w_loops w)) (set_heap (w_heap w ++ [new_loop c st w]) w)) (length (w_heap w)) c).
  { exists (new_loop c st w). split; [|done]. cbn. rewrite lookup_app_r, Nat.sub_diag by done. done. }
  split; [split; [done|split; [|by left]]|].
  - intros i l Hl. left. by apply lookup_app_l_Some.
  - split; [|done]. split; [|done]. destruct Hi as [H1 H2 H3 H4 H5 H6]. split; [done| | |done| |done].
    + cbn. intros i l [Hl|[-> ->]]%Hnew; [by apply H2 in Hl|]. done.
    + cbn. intros k i [[= -> ->]|Hin]%loops_put_In; [done|]. eapply valid_grow; [exact Hg|by apply H3].
    + cbn. intros i l [Hl|[-> ->]]%Hnew; [exact (H5 i l Hl)|apply policies_name_acks].
Qed.

Lemma does_loop c w : does (loop c) (fun i w' => valid w' i c) w.
Proof.
  apply does_async; [apply valid_stable|].
  apply does_bind with (Q1 := fun e w' => match e with Some i => valid w' i c | None => True end).
  { apply does_get. intros Hi. destruct (loops_get c (w_loops w)) as [i|] eqn:E; [|done]. by apply (inv_loops _ Hi), loops_get_In. }
  intros [i|] w1 Hg1 Hv; [by apply does_ret|].
  apply does_bind with (Q1 := fun input _ => asks c input); [by apply does_get|]. intros input w2 Hg2 Ha.
  eapply does_bind; [by apply (does_load c)|]. intros st w3 Hg3 Hf. by apply does_add_loop.
Qed.

Lemma does_reload c w : does (reload c) (fun i w' => valid w' i c) w.
Proof. eapply does_bind; [apply does_drop|]. intros _ w' _ _. apply does_loop. Qed.

(** * Appending and folding *)

Lemma instance_lookup w i l : w.(w_heap) !! i = Some l -> instance w i = l.
Proof. unfold instance. by intros ->. Qed.

Lemma chain_end_in L l r : L = l ++ r -> l <> [] -> exists e, In e L /\ env_hash e = chain_end GENESIS_LAST_HASH l.
Proof.
  intros -> Hne. destruct l as [|e l _] using rev_ind; [done|]. exists e. rewrite chain_end_snoc.
  split; [apply in_app_iff; left; apply in_app_iff; right; by left|done].
Qed.

(** Beginnings of a log that end with one hash are the same. *)
Lemma prefix_hash L l1 r1 : NoDup (GENESIS_LAST_HASH :: map env_hash L) -> L = l1 ++ r1 ->
  chain_end GENESIS_LAST_HASH l1 = chain_end GENESIS_LAST_HASH L -> r1 = [].
Proof.
  intros [Hg Hd]%list.NoDup_cons -> E. destruct r1 as [|e r1 _] using rev_ind; [done|]. exfalso.
  rewrite app_assoc, chain_end_snoc in E. rewrite app_assoc, map_app in Hd. rewrite app_assoc, map_app in Hg. destruct l1 as [|x l1 _] using rev_ind.
  - apply Hg. unfold chain_end in E. simpl in E. rewrite E. apply elem_of_app. right. by left.
  - rewrite chain_end_snoc in E. apply list.NoDup_app in Hd as (_ & Hd & _). apply (Hd (env_hash x)).
    + apply list_elem_of_In. apply in_map. apply in_app_iff. left. apply in_app_iff. right. by left.
    + simpl. rewrite E. by left.
Qed.

(** What was known when the append was sent. *)
Definition sent (i : nat) (c : string) (expected : string) w : Prop :=
  exists front rest, log_at w c (front ++ rest) /\ expected = chain_end GENESIS_LAST_HASH front /\
    Z.of_nat (length front) <= (loop_state w i).(lastSeq).

Lemma sent_grow i c expected w w' : Grow w w' -> valid w i c -> sent i c expected w -> sent i c expected w'.
Proof.
  intros Hg (l & Hl & _) (front & rest & HL & E & Hle). destruct (log_grow _ _ _ _ Hg HL) as (more & HL').
  destruct (gr_heap _ _ Hg i l Hl) as (l' & Hl' & _ & Hle'). exists front, (rest ++ more). rewrite app_assoc. split; [done|].
  split; [done|]. unfold loop_state in *. rewrite (instance_lookup _ _ _ Hl) in Hle. rewrite (instance_lookup _ _ _ Hl'). lia.
Qed.

(** What an answered append gives whoever sent it. *)
Record answer_for (i : nat) (t : Own) (envelopes : list LogEnvelope) (n : Z) : Prop := {
  an_split : exists replayed new, envelopes = replayed ++ new /\ Forall (fun e => e.(env_seq) <= n) replayed /\
    ((t = None /\ new = []) \/ (t = Some (i, new) /\ Forall (fun e => n < e.(env_seq)) new))
}.

Lemma serve_owned i c expected items w g' envelopes published :
  I None w -> valid w i c -> sent i c expected w ->
  as_appendLogEvent w.(w_store) (append_input (instance w i) expected items w) = Ok (g', (envelopes, published)) ->
  let w' := (serve_append i expected items w).1 in
  Fresh w' -> exists t, Guar None w t w' /\ I t w' /\ answer_for i t envelopes (loop_state w i).(lastSeq).
Proof.
  intros [Hi _] (l & Hl & El) (front & rest & HL & Ee & Hle) Happ. unfold serve_append. rewrite Happ. cbn [fst]. intros Hfresh.
  rewrite (instance_lookup _ _ _ Hl) in *. unfold loop_state in *. rewrite (instance_lookup _ _ _ Hl) in *.
  destruct (inv_heap _ Hi i l Hl) as (Elog & Ehead & (front1 & rest1 & HL1 & Hf1)). rewrite El in *.
  rewrite Elog, Ehead in Hfresh. pose proof (ds_head _ _ _ (inv_store _ Hi) HL1) as Hh.
  pose proof (ds_chained _ _ _ (inv_store _ Hi) HL1) as Hch. set (L := front1 ++ rest1) in *.
  assert (Ebefore : match as_getLogHead (w_store w) (log_id c) (log_id c) with Some h => lh_seq h | None => 0 end = Z.of_nat (length L)).
  { destruct (as_getLogHead _ _ _); [by destruct Hh|by rewrite Hh]. }
  rewrite Ebefore in *. pose proof (proj1 (chained_app _ _ _ _) Hch) as [Hc1 _]. destruct (folds_place _ _ _ Hc1 Hf1) as (Eseq & _).
  destruct (ds_append (w_store w) (append_input l expected items w) (log_id c) expected L g' envelopes published (inv_store _ Hi) HL1 Elog Ehead eq_refl Happ)
    as (Hok & Hgrow & replayed & new & -> & HL' & Hin & Hnew & Hlast).
  unfold Fresh in Hfresh. cbn in Hfresh. apply list.Forall_app in Hfresh as [_ [Hpast _]%list.Forall_cons].
  assert (Hrep : Forall (fun e => e.(env_seq) <= (lp_state l).(lastSeq)) replayed).
  { apply List.Forall_forall. intros e He. rewrite List.Forall_forall in Hin. pose proof (chained_bounds _ _ _ Hch) as Hb.
    rewrite List.Forall_forall in Hb. specialize (Hb e (Hin e He)). unfold past_fold in Hpast. cbn [sv_lastSeq sv_headSeq sv_envelopes] in Hpast.
    rewrite existsb_app in Hpast. apply orb_false_iff in Hpast as [Hpast _]. rewrite <- not_true_iff_false, existsb_exists in Hpast.
    destruct (Z.le_gt_cases (env_seq e) (lastSeq (lp_state l))); [done|]. exfalso. apply Hpast. exists e. split; [done|].
    apply andb_true_iff. split; [by apply Z.ltb_lt|apply Z.leb_le; lia]. }
  set (w' := set_served _ _). assert (Hg : Grow w w').
  { split; [exact Hgrow|]. cbn. intros j x Hx. exists x. by split. }
  assert (Hi' : Inv w').
  { destruct Hi as [H1 H2 H3 H4 H5 H6]. split; [done| |done| |done|done].
    - intros j x Hx. destruct (H2 j x Hx) as (? & ? & ?). split; [done|]. split; [done|]. by eapply fold_ok_grows.
    - intros k st Hk. destruct (H4 k st Hk) as (c' & ? & ?). exists c'. split; [done|]. by eapply fold_ok_grows. }
  destruct new as [|e0 new0]; [exists None|exists (Some (i, e0 :: new0))].
  { split; [split; [done|split; [by left|by left]]|]. split; [done|]. split. exists replayed, []. split; [done|]. split; [done|by left]. }
  set (new := e0 :: new0) in *. assert (Hne : new <> []) by done.
  (* the instance has folded the log *)
  assert (Er : rest1 = []).
  { destruct replayed as [|x replayed' _] using rev_ind.
    - specialize (Hnew Hne eq_refl). rewrite Ee in Hnew. pose proof (ds_fun _ _ _ _ HL HL1) as Efr. fold L in Efr.
      apply (prefix_hash L front rest) in Hnew as ->; [|by eapply ds_distinct, HL1; apply Hi|done].
      rewrite app_nil_r in Efr. subst front. unfold L in Hle. rewrite length_app in Hle. destruct rest1; [done|]. simpl in Hle. lia.
    - specialize (Hlast Hne x). rewrite last_snoc in Hlast. specialize (Hlast eq_refl). apply last_Some in Hlast as (L' & EL').
      apply list.Forall_app in Hrep as [_ [Hx _]%list.Forall_cons]. rewrite EL' in Hch. apply chained_app in Hch as [_ (Ex & _)].
      assert (El2 : length L = (length L' + 1)%nat) by (rewrite EL', length_app; done). unfold L in El2. rewrite length_app in El2.
      destruct rest1; [done|]. simpl in El2. lia. }
  unfold L in *. rewrite Er, app_nil_r in *. pose proof (ds_chained _ _ _ Hok HL') as Hch2. apply chained_app in Hch2 as [_ Hch2].
  split; [split; [done|split; [by left|right]]|].
  - exists l, front1. split; [done|]. by rewrite El.
  - split.
    + split; [done|]. split; [done|]. exists l, front1, []. rewrite El, app_nil_r. done.
    + split. exists replayed, new. split; [done|]. split; [done|]. right. split; [done|]. apply chained_bounds in Hch2.
      eapply Forall_impl; [|exact Hch2]. simpl. intros e Hb. lia.
Qed.

(** What an append ends with: new envelopes are owned. *)
Definition given (i : nat) (envelopes : list LogEnvelope) (t : Own) : Prop := (t = None /\ envelopes = []) \/ t = Some (i, envelopes).

Lemma answer_fresh i t envelopes n m : answer_for i t envelopes n -> n <= m -> (t <> None -> m = n) ->
  given i (List.filter (fun e => m <? e.(env_seq)) envelopes) t.
Proof.
  intros [(replayed & new & -> & Hr & Ht)] Hle Heq. rewrite List.filter_app.
  assert (E : List.filter (fun e => m <? e.(env_seq)) replayed = []).
  { clear -Hr Hle. induction Hr as [|e l He _ IH]; [done|]. simpl. destruct (Z.ltb_spec m (env_seq e)); [lia|done]. }
  rewrite E. destruct Ht as [[-> ->]|[-> Hn]]; [by left|]. right. f_equal. f_equal. rewrite Heq by done. clear -Hn.
  induction Hn as [|e l He _ IH]; [done|]. simpl. destruct (Z.ltb_spec n (env_seq e)); [by f_equal|lia].
Qed.

(** A function that goes on with new envelopes. *)
Definition goes_on {A} (p : prog A) (Q : A -> World -> Prop) (i : nat) (envelopes : list LogEnvelope) w : Prop :=
  forall t, given i envelopes t -> Fresh w -> I t w -> owp Rely Guar I Fresh p (ended Q) t w.

Lemma owp_then A C (p : prog A) (k : A -> prog C) Q1 (Qx : res C -> Own -> World -> Prop) w : Fresh w -> I None w -> does p Q1 w ->
  (forall e w', Qx (Throw e) None w') ->
  (forall a w', Fresh w' -> I None w' -> Grow w w' -> Q1 a w' -> owp Rely Guar I Fresh (k a) Qx None w') ->
  owp Rely Guar I Fresh (bind p k) Qx None w.
Proof.
  intros HF HI Hp He Hk. eapply (owp_seq _ _ _ _ Grow Rely_Grow Guar_Grow); [done|done|by apply Hp|].
  intros [a|e] t w' HF' HI' Hg [-> Hr]; [by apply Hk|by apply He].
Qed.

Lemma I_same t w w' : same_core w w' -> I t w -> I t w'.
Proof. intros Hs [Hi Ho]. split; [by eapply Inv_same|]. eapply owned_same; [apply Hs..|done]. Qed.

(** A step beside the folds, whatever is owned. *)
Lemma owp_quiet A (f : World -> World) (p : prog A) Qx t w : same_core w (f w) -> I t w ->
  (Fresh (f w) -> I t (f w) -> owp Rely Guar I Fresh p Qx t (f w)) -> owp Rely Guar I Fresh (modify f ;; p) Qx t w.
Proof.
  intros Hs HI Hp HF. exists t. split; [apply Guar_same; apply Hs|]. split; [by eapply I_same|]. apply Hp; [done|by eapply I_same].
Qed.

Lemma does_encode_item c item : harmless (encode_item c item).
Proof.
  intros w. eapply does_bind; [by apply (does_get _ _ (fun _ _ => True))|]. intros createdAt w1 _ _. apply does_yield.
  intros w2 _. apply does_Act. intros _ HI. destruct (encodeAgenticEventStoredValues _ _) as [[[b e] ?]|e]; cbn [fst snd].
  - split; [by apply Guar_same|]. split; [by apply (I_same None w2)|]. apply does_yield. intros. by apply does_lift.
  - split; [apply Guar_refl|]. split; [done|]. apply does_yield. intros. by apply does_lift.
Qed.

Lemma does_encode_items c items : harmless (encode_items c items).
Proof.
  induction items as [|item items IH]; intros w; simpl; [by apply does_ret|]. eapply does_bind; [apply does_encode_item|].
  intros it w1 _ _. eapply does_bind; [apply IH|]. intros l w2 _ _. by apply does_ret.
Qed.

(** The end of an append. *)
Definition appends (i : nat) (r : res (list LogEnvelope)) (t : Own) (_ : World) : Prop :=
  match r with Ok envelopes => given i envelopes t | Throw _ => t = None end.

Lemma owp_broadcast i envelopes published t w : given i envelopes t -> I t w ->
  owp Rely Guar I Fresh (broadcastPublications envelopes published ;; ret envelopes) (appends i) t w.
Proof.
  intros Hgv HI. unfold broadcastPublications. destruct envelopes; [by intros ? ? ? ?|]. destruct published; [by intros ? ? ? ?|].
  intros HF. exists t. split; [by apply Guar_same|]. split; [by apply (I_same t w)|]. by intros ? ? ? ?.
Qed.

Lemma owp_serve A i c expected items (k : list LogEnvelope * list Publication -> prog A) Qx w : valid w i c -> sent i c expected w ->
  (forall e w', Qx (Throw e) None w') ->
  (forall t n envelopes published w', Fresh w' -> I t w' -> answer_for i t envelopes n -> n <= (loop_state w' i).(lastSeq) ->
     (t <> None -> (loop_state w' i).(lastSeq) = n) -> owp Rely Guar I Fresh (k (envelopes, published)) Qx t w') ->
  owp Rely Guar I Fresh (bind (remote (serve_append i expected items)) k) Qx None w.
Proof.
  intros Hv Hs He Hk. cbn. intros w1 HF1 HR1 HI1 HF2. apply (valid_grow _ _ _ _ (Rely_Grow _ _ _ HR1)) in Hv as Hv1.
  apply (sent_grow _ _ _ _ _ (Rely_Grow _ _ _ HR1) Hv) in Hs.
  destruct (as_appendLogEvent (w_store w1) (append_input (instance w1 i) expected items w1)) as [[g' [envelopes published]]|e] eqn:Happ.
  - destruct (serve_owned i c expected items w1 g' envelopes published HI1 Hv1 Hs Happ HF2) as (t & HG & HI & Han).
    exists t. split; [done|]. split; [done|]. unfold serve_append in *. rewrite Happ in HG, HI |- *. cbn [fst snd] in *.
    intros w3 HF3 [Hg3 Hk3] HI3. destruct Hv1 as (l & Hl & _).
    destruct (gr_heap _ _ Hg3 i l Hl) as (l' & Hl' & _ & Hle). apply (Hk t (loop_state w1 i).(lastSeq)); [done|done|done|..].
    + unfold loop_state. by rewrite (instance_lookup _ _ _ Hl), (instance_lookup _ _ _ Hl').
    + intros Ht. destruct Han as [(replayed & new & _ & _ & [[-> _]|[-> _]])]; [done|]. simpl in Hk3. unfold loop_state, instance. by rewrite Hk3.
  - exists None. unfold serve_append. rewrite Happ. cbn [fst snd]. split; [apply Guar_refl|]. split; [done|]. intros. apply He.
Qed.

Lemma append_owp i c items w : Fresh w -> I None w -> valid w i c -> owp Rely Guar I Fresh (append_items i items) (appends i) None w.
Proof.
  intros HF HI Hv. eapply (owp_seq _ _ _ _ Grow Rely_Grow Guar_Grow); [done|done| |intros r t w' _ _ _ H w2 _ _ _; exact H].
  destruct items as [|item items]; [by left|]. generalize (item :: items). clear item items. intros items.
  eapply owp_then; [done|done|by apply (does_get _ _ (fun _ _ => True))|done|]. intros channelId w1 HF1 HI1 Hg1 _.
  eapply owp_then; [done|done|apply does_encode_items|done|]. intros items' w2 HF2 HI2 Hg2 _.
  assert (Hv2 : valid w2 i c) by (eapply valid_grow; [|exact Hv]; by trans w1).
  eapply owp_then; [done|done|apply (does_get _ _ (fun e w' => sent i c e w' /\ valid w' i c))|done|].
  { intros Hi. split; [|done]. destruct Hv2 as (l & Hl & <-). destruct (inv_heap _ Hi i l Hl) as (_ & _ & front & rest & HL & Hf).
    exists front, rest. split; [done|]. unfold loop_state. rewrite (instance_lookup _ _ _ Hl).
    pose proof (ds_chained _ _ _ (inv_store _ Hi) HL) as [Hc _]%chained_app. destruct (folds_place _ _ _ Hc Hf) as (E1 & E2 & _).
    split; [done|lia]. }
  intros expected w3 HF3 HI3 Hg3 [Hs Hv3]. apply (owp_serve _ i c); [done|done|done|].
  intros t n envelopes published w4 HF4 HI4 Han Hle Heq. cbn -[broadcastPublications bind]. intros _. exists t. split; [apply Guar_refl|].
  split; [done|]. apply owp_broadcast; [|done]. by eapply answer_fresh.
Qed.

(** An append, and what is done with its answer. *)
Lemma does_append A i c items (k : res (list LogEnvelope) -> prog A) Q w : valid w i c ->
  (forall e w', Grow w w' -> does (k (Throw e)) Q w') ->
  (forall envelopes w', Grow w w' -> goes_on (k (Ok envelopes)) Q i envelopes w') -> does (bindr (append_items i items) k) Q w.
Proof.
  intros Hv He Hk HF HI. eapply (owp_seq _ _ _ _ Grow Rely_Grow Guar_Grow); [done|done|by eapply append_owp|].
  intros [envelopes|e] t w' HF' HI' Hg Hr; [by apply Hk|]. simpl in Hr. subst. by apply He.
Qed.

Lemma goes_on_quiet A (f : World -> World) (p : prog A) Q i envelopes w : same_core w (f w) ->
  goes_on p Q i envelopes (f w) -> goes_on (modify f ;; p) Q i envelopes w.
Proof. intros Hs Hp t Ht HF HI. apply owp_quiet; [done|done|]. intros HF' HI'. by apply Hp. Qed.

(** The instance folds its envelopes, all or as many as it can. *)
Lemma set_state_lookup i st w l j x : w.(w_heap) !! i = Some l -> (set_state i st w).(w_heap) !! j = Some x ->
  (j = i /\ x = with_state st l) \/ (j <> i /\ w.(w_heap) !! j = Some x).
Proof.
  intros Hl. unfold set_state. rewrite (instance_lookup _ _ _ Hl). cbn. rewrite list_lookup_insert_Some.
  intros [(-> & <- & _)|[Hne H]]; [by left|right; by split].
Qed.

Lemma set_state_same i st w l : w.(w_heap) !! i = Some l -> (set_state i st w).(w_heap) !! i = Some (with_state st l).
Proof. intros Hl. unfold set_state. rewrite (instance_lookup _ _ _ Hl). cbn. apply list_lookup_insert_eq. by eapply lookup_lt_Some. Qed.

Lemma set_state_other i j st w : i <> j -> (set_state i st w).(w_heap) !! j = w.(w_heap) !! j.
Proof. intros Hne. unfold set_state. cbn. by apply list_lookup_insert_ne. Qed.

Lemma set_state_stands i st w l : Inv w -> w.(w_heap) !! i = Some l -> fold_ok w.(w_store) l.(lp_channelId) st ->
  l.(lp_state).(lastSeq) <= st.(lastSeq) -> Grow w (set_state i st w) /\ Inv (set_state i st w).
Proof.
  intros Hi Hl Hf Hle. assert (Hg : Grow w (set_state i st w)).
  { split; [intros id L HL; exists []; by rewrite app_nil_r|]. intros j x Hx. destruct (decide (j = i)) as [->|Hne].
    - rewrite (set_state_same _ _ _ _ Hl). assert (x = l) as -> by congruence. exists (with_state st l). done.
    - rewrite set_state_other by done. exists x. done. }
  split; [done|]. destruct Hi as [H1 H2 H3 H4 H5 H6]. split; [done| | |done| |done].
  - intros j x Hx. destruct (set_state_lookup i st w l j x Hl Hx) as [[-> ->]|[_ Hx']]; [|exact (H2 j x Hx')]. destruct (H2 i l Hl) as (E1 & E2 & _). done.
  - intros c j Hin. eapply valid_grow; [exact Hg|by apply H3].
  - intros j x Hx. destruct (set_state_lookup i st w l j x Hl Hx) as [[-> ->]|[_ Hx']]; [exact (H5 i l Hl)|exact (H5 j x Hx')].
Qed.

(** [apply_all] on what is owned. *)
Lemma fold_owned i envelopes t w l : given i envelopes t -> I t w -> w.(w_heap) !! i = Some l ->
  let st := (apply_all l.(lp_state) envelopes).1 in
  Guar t w None (set_state i st w) /\ I None (set_state i st w).
Proof.
  intros Hgv [Hi Ho] Hl. cbv zeta. set (st := (apply_all _ _).1).
  assert (Hst : fold_ok (w_store w) (lp_channelId l) st /\ lastSeq (lp_state l) <= lastSeq st).
  { destruct Hgv as [[-> ->]| ->].
    - unfold st. simpl. destruct (inv_heap _ Hi i l Hl) as (_ & _ & Hf). by split.
    - destruct Ho as (_ & l2 & front & rest & Hl2 & HL & Hf). assert (l2 = l) as -> by congruence.
      destruct (apply_all_folds _ envelopes _ _ Hf) as (done & rest2 & -> & Hd & _). fold st in Hd.
      rewrite <- !app_assoc, (app_assoc front) in HL. pose proof (ds_chained _ _ _ (inv_store _ Hi) HL) as Hc.
      apply chained_app in Hc as [Hc _]. destruct (folds_place _ _ _ Hc Hd) as (E & _). apply chained_app in Hc as [Hc _].
      destruct (folds_place _ _ _ Hc Hf) as (E0 & _). rewrite length_app in E. split; [by exists (front ++ done), (rest2 ++ rest)|lia]. }
  destruct Hst as [Hst Hle]. destruct (set_state_stands i st w l Hi Hl Hst Hle) as [Hg Hi']. split; [|by split].
  split; [done|]. split; [|by right]. intros j x Hx. destruct (decide (j = i)) as [->|Hne]; [|left; by rewrite set_state_other].
  destruct Hgv as [[-> ->]| ->]; [|right; by eexists]. left. unfold st. rewrite (set_state_same _ _ _ _ Hl).
  assert (x = l) as -> by congruence. by destruct l.
Qed.

Lemma goes_on_fold A i c envelopes (p : prog A) Q w : valid w i c ->
  (forall w', Grow w w' -> valid w' i c -> does p Q w') -> goes_on (fold_into i envelopes ;; p) Q i envelopes w.
Proof.
  intros Hv Hp t Ht HF HI. destruct Hv as (l & Hl & El). destruct (fold_owned i envelopes t w l Ht HI Hl) as [HG HI'].
  unfold fold_into, bind. cbn. unfold loop_state. rewrite (instance_lookup _ _ _ Hl).
  destruct (apply_all (lp_state l) envelopes) as [st r]. cbn [fst snd] in *. intros HF'. exists None. split; [done|]. split; [done|].
  destruct r as [[]|e]; [|done]. apply Hp; [by eapply Guar_Grow| |done|done]. eapply valid_grow; [by eapply Guar_Grow|by exists l].
Qed.

Lemma does_write i c w : valid w i c -> does (modify (write_cache i)) (fun _ _ => True) w.
Proof.
  intros (l & Hl & El) HF HI. destruct (inv_heap _ (proj1 HI) i l Hl) as (_ & _ & Hf).
  assert (Hd : does (modify (write_cache i)) (fun _ w' => fold_ok w'.(w_store) l.(lp_channelId) l.(lp_state)) w); [|exact (harmless_mono _ _ _ _ Hd HF HI)].
  apply (does_cache _ _ l.(lp_state)); [|exact Hf]. unfold write_cache, loop_state. by rewrite (instance_lookup _ _ _ Hl).
Qed.

(** The channel an instance says it is for. *)
Lemma instance_channel i c w : valid w i c -> (instance w i).(lp_channelId) = c.
Proof. intros (l & Hl & <-). by rewrite (instance_lookup _ _ _ Hl). Qed.

(** * What every function does *)

Definition alive w (i : nat) : Prop := exists c, valid w i c.

Lemma alive_grow w w' i : Grow w w' -> alive w i -> alive w' i.
Proof. intros Hg (c & Hv). exists c. by eapply valid_grow. Qed.

Lemma valid_alive w i c : valid w i c -> alive w i.
Proof. intros Hv. by exists c. Qed.

Lemma alive_valid w i : alive w i -> valid w i (instance w i).(lp_channelId).
Proof. intros (c & Hv). by rewrite (instance_channel _ _ _ Hv). Qed.

Definition anything {A} (_ : A) (_ : World) : Prop := True.

Lemma anything_stable A : stable (@anything A).
Proof. done. Qed.

Lemma does_async_any A (p : prog A) w : does p anything w -> does (async p) anything w.
Proof. by apply does_async. Qed.

(** First something that leaves nothing to know. *)
Lemma does_then A C (p : prog A) (k : A -> prog C) Q w : does p anything w ->
  (forall a w', Grow w w' -> does (k a) Q w') -> does (bind p k) Q w.
Proof. intros Hp Hk. eapply does_bind; [exact Hp|]. intros a w' Hg _. by apply Hk. Qed.

(** A look at the world as it is. *)
Lemma does_look A C (f : World -> A) (k : A -> prog C) Q w : does (k (f w)) Q w -> does (bind (get f) k) Q w.
Proof. intros Hk HF HI HF'. exists None. split; [apply Guar_refl|]. split; [done|]. by apply Hk. Qed.

Lemma does_result A C (f : World -> res A) (k : A -> prog C) Q w :
  (forall a, f w = Ok a -> does (k a) Q w) -> does (bind (act_res (fun w => (w, f w))) k) Q w.
Proof.
  intros Hk HF HI HF'. exists None. split; [apply Guar_refl|]. split; [done|]. cbn. destruct (f w) as [a|e]; [by apply (Hk a)|done].
Qed.

(** A step beside the folds, and what computes beside them. *)
Lemma does_beside A (f : World -> World) (p : prog A) Q w : same_core w (f w) -> does p Q (f w) -> does (modify f ;; p) Q w.
Proof.
  intros Hs Hp HF HI HF'. exists None. split; [apply Guar_same; apply Hs|].
  assert (I None (f w)) by (by eapply I_same). split; [done|]. by apply Hp.
Qed.

Lemma does_modify (f : World -> World) w : same_core w (f w) -> does (modify f) anything w.
Proof. intros Hs. by apply does_quiet. Qed.

Lemma does_computes A C (f : World -> World * A) (k : A -> prog C) Q w : same_core w (f w).1 ->
  does (k (f w).2) Q (f w).1 -> does (bind (act f) k) Q w.
Proof.
  intros Hs Hp HF HI HF'. exists None. split; [apply Guar_same; apply Hs|].
  assert (I None (f w).1) by (by eapply I_same). split; [done|]. by apply Hp.
Qed.

Lemma does_asks A C (f : World -> res A) (k : A -> prog C) Q w :
  (forall a w', Grow w w' -> does (k a) Q w') -> does (bind (remote (fun w => (w, f w))) k) Q w.
Proof. intros Hk. apply does_then; [by apply does_query|done]. Qed.

Lemma same_core_grow w w' : same_core w w' -> Grow w w'.
Proof. intros Hs. apply Grow_same; apply Hs. Qed.

Lemma does_reconcile i w : does (reconcile_ i) anything w.
Proof. apply does_async_any, does_modify, same_reconcile. Qed.

Lemma does_request w : does (modify request_pump) anything w.
Proof. apply does_modify, same_request_pump. Qed.

Ltac moved Hg :=
  let w := lazymatch type of Hg with Grow ?w _ => w end in
  repeat match goal with
    | H : alive w _ |- _ => apply (alive_grow _ _ _ Hg) in H
    | H : valid w _ _ |- _ => apply (valid_grow _ _ _ _ Hg) in H
    end.

(** Appending, folding and writing the cache. *)
Lemma goes_on_folds A i c envelopes (p : prog A) Q w : valid w i c ->
  (forall w', Grow w w' -> valid w' i c -> does p Q w') -> goes_on (fold_into i envelopes ;; modify (write_cache i) ;; p) Q i envelopes w.
Proof.
  intros Hv Hp. apply (goes_on_fold _ i c); [done|]. intros w1 Hg1 Hv1. apply does_then; [by apply (does_write i c)|].
  intros _ w2 Hg2. apply Hp; [by trans w1|by eapply valid_grow].
Qed.

Lemma does_append_and_fold i c items w : valid w i c -> does (append_and_fold i items) anything w.
Proof.
  intros Hv. apply (does_append _ i c); [done|by intros; apply does_raise|]. intros envelopes w1 Hg1. moved Hg1.
  apply (goes_on_fold _ i c); [done|]. intros w2 Hg2 Hv2. by apply (does_write i c).
Qed.

Definition frames_alive w (stack : list Frame) : Prop := Forall (fun f => alive w f.(fr_loop)) stack.

Lemma frames_alive_stable : stable (fun stack w => frames_alive w stack).
Proof. intros stack w w' Hg Hs. eapply Forall_impl; [|exact Hs]. intros f. by apply alive_grow. Qed.

Lemma does_journaled i incoming w : does (ingestCommandAlreadyJournaled i incoming) anything w.
Proof.
  apply does_async_any. destruct incoming as [[]| |]; try (by apply does_ret).
  all: apply does_look, does_asks; intros existing w1 _; by apply does_ret.
Qed.

(** The invariant is there to use. *)
Lemma does_inv A (p : prog A) Q w : (Inv w -> does p Q w) -> does p Q w.
Proof. intros H HF HI. apply H; [apply HI|done|done]. Qed.

Lemma step_loop_named i incoming w out : Inv w -> alive w i -> step_loop i incoming w = Ok out -> acks_named out.
Proof.
  intros Hi (c & l & Hl & _) H. unfold step_loop in H. rewrite (instance_lookup _ _ _ Hl) in H.
  by apply composeStep_named in H; [|apply (inv_policies _ Hi i l)].
Qed.

Lemma does_run_frame f w : alive w f.(fr_loop) -> does (run_frame f) (fun stack w => frames_alive w stack) w.
Proof.
  destruct f as [i incoming retries]. cbn [fr_loop]. intros Ha. pose proof (alive_valid _ _ Ha) as Hv. set (c := lp_channelId _) in Hv.
  apply does_inv. intros Hi. cbn [run_frame]. apply does_result. intros output Hout.
  apply (step_loop_named i incoming w output Hi Ha) in Hout.
  assert (Happ : does (bindr (append_items i (so_append output)) (fun appended =>
        match appended with
        | Throw e =>
            if (0 <? retries)%nat && isStaleStateAppendError e then
              let* channelId := get (fun w => (instance w i).(lp_channelId)) in
              let* fresh := reload channelId in
              ret [mkFrame fresh incoming (retries - 1)]
            else if isStaleStateAppendError e then
              let* journaled := ingestCommandAlreadyJournaled i incoming in
              if journaled then ret [] else raise e
            else raise e
        | Ok envelopes =>
            fold_into i envelopes ;;
            modify (write_cache i) ;;
            modify (fun w => fold_left (register_effect i) (so_effects output) w) ;;
            ret (map (fun e => mkFrame i (IEventAppended e) retries) envelopes)
        end)) (fun stack w => frames_alive w stack) w).
  { apply (does_append _ i c); [done| |].
    - intros e w1 _. destruct (_ && _).
      + apply does_look. eapply does_bind; [apply does_reload|]. intros fresh w2 _ Hf. apply does_ret.
        constructor; [exact (valid_alive _ _ _ Hf)|constructor].
      + destruct (isStaleStateAppendError e); [|apply does_raise]. eapply does_then; [apply does_journaled|].
        intros [] w2 _; [apply does_ret; constructor|apply does_raise].
    - intros envelopes w1 Hg1. moved Hg1. apply (goes_on_folds _ i c); [done|]. intros w2 Hg2 Hv2.
      apply does_beside; [by apply same_register|]. apply does_ret. unfold frames_alive. apply List.Forall_map, list.Forall_true.
      intros e. cbn [fr_loop]. apply (alive_grow w2); [by apply same_core_grow, same_register|exact (valid_alive _ _ _ Hv2)]. }
  destruct (so_append output), (so_effects output); [apply does_ret; constructor|exact Happ..].
Qed.

Lemma does_runStep i incoming retries w : alive w i -> does (runStep i incoming retries) anything w.
Proof.
  intros Ha. apply does_while with (J := fun s w => frames_alive w s); [constructor; [exact Ha|constructor]|].
  intros [|f rest] w1 _ Hs; [by apply does_ret|]. apply list.Forall_cons in Hs as [Hf Hrest].
  eapply does_bind; [apply does_async; [exact frames_alive_stable|by apply does_run_frame]|].
  intros calls w2 Hg2 Hc. apply does_ret, list.Forall_app. split; [done|by eapply frames_alive_stable].
Qed.

Lemma does_maybeCompact i w : alive w i -> does (maybeCompact i) anything w.
Proof.
  intros Ha. apply does_async_any, does_look. destruct (compaction_due _); [|by apply does_ret].
  eapply does_bindr; [by apply does_runStep|]. intros r w1 _ _. by apply does_ret.
Qed.

Lemma does_settle c w : does (settle c) anything w.
Proof.
  apply does_async_any. eapply does_bind; [apply does_loop|]. intros i w1 _ Hv.
  eapply does_then; [apply does_maybeCompact, (valid_alive _ _ _ Hv)|]. intros _ w2 _.
  eapply does_then; [eapply harmless_mono, does_loop|]. intros j w3 _. eapply does_then; [apply does_reconcile|]. intros _ w4 _. apply does_request.
Qed.

Lemma does_handleIncoming c incoming w : does (handleIncoming c incoming) anything w.
Proof.
  apply does_async_any. eapply does_bind; [apply does_loop|]. intros i w1 _ Hv.
  eapply does_then; [apply does_runStep, (valid_alive _ _ _ Hv)|]. intros _ w2 _. apply does_settle.
Qed.

(** ** Waking *)

Lemma does_latestCascade i w : does (latestCascadeEnvelopeForOpenTurn i) anything w.
Proof.
  apply does_async_any, does_look. destruct (openTurn _); [|by apply does_ret].
  apply does_while with (J := fun _ _ => True); [done|]. intros [cursor latest] w1 _ _. apply does_asks. intros page w2 _.
  destruct (list.last page); [|by apply does_ret]. destruct (_ <? _)%nat; by apply does_ret.
Qed.

Lemma does_appendStranded i w : alive w i -> does (appendStrandedOpenTurnFailure i) anything w.
Proof.
  intros Ha. apply does_async_any, does_look. pose proof (alive_valid _ _ Ha) as Hv. destruct (openTurn _); [|by apply does_ret].
  eapply does_bindr; [by eapply does_append_and_fold|]. intros [[]|e] w1 _ _; [by apply does_ret|].
  destruct (isStaleStateAppendError e); [|apply does_raise]. eapply does_bind; [apply does_reload|]. intros fresh w2 _ Hf.
  apply does_look. destruct (isOpenTurnStranded fresh w2); [eapply does_append_and_fold; exact Hf|by apply does_ret].
Qed.

Lemma does_recover c w : does (recoverOpenTurnAfterReplay c) anything w.
Proof.
  assert (Hgive : forall i w, alive w i -> does (appendStrandedOpenTurnFailure i ;; settle c) anything w).
  { intros i w1 Ha. eapply does_then; [by apply does_appendStranded|]. intros _ w2 _. apply does_settle. }
  apply does_async_any. eapply does_bind; [apply does_loop|]. intros i w1 _ Hv%valid_alive. apply does_look.
  destruct (negb _); [by apply does_ret|]. eapply does_then; [apply does_latestCascade|]. intros [envelope|] w2 Hg2; moved Hg2; [|by apply Hgive].
  eapply does_then; [by apply does_runStep|]. intros _ w3 _. eapply does_then; [apply does_settle|]. intros _ w4 _.
  eapply does_bind; [apply does_loop|]. intros j w5 _ Hj%valid_alive. apply does_look. destruct (negb _); [by apply does_ret|by apply Hgive].
Qed.

Lemma does_wake c w : does (wake c) anything w.
Proof.
  apply does_async_any. eapply does_bind; [apply does_reload|]. intros i w1 _ Hv%valid_alive. apply does_look.
  eapply does_then; [destruct (inFlightModelCallIsQueuedOrRunningHere i w1); [by apply does_ret|by apply does_runStep]|].
  intros _ w2 _. eapply does_then; [apply does_settle|]. intros _ w3 _. apply does_recover.
Qed.

(** ** Outcomes *)

Lemma same_delete row w : same_core w (delete_row row w).
Proof. apply same_outbox, rows_delete. Qed.

Lemma does_delete row w : does (modify (delete_row row)) anything w.
Proof. apply does_modify, same_delete. Qed.

Lemma does_failEffect row message w : does (failEffect row message) anything w.
Proof.
  apply does_async_any. eapply does_bind; [apply does_loop|]. intros i w1 _ _. apply does_look.
  eapply does_then; [apply does_handleIncoming|]. intros _ w2 _. apply does_delete.
Qed.

Lemma does_retry row reason after w : does (retry_effect row reason after) anything w.
Proof.
  apply does_async_any. apply does_computes.
  { pose proof (rows_retry w.(w_outbox) row after (earliestScheduledModelResumeAt w) w.(w_now)) as Hr.
    destruct (AgentOutbox.retryEffect _ _ _ _ _). by apply same_outbox. }
  destruct (snd _); [apply does_modify, same_arm|apply does_failEffect].
Qed.

Lemma does_give_way row c w : does (give_way row c) anything w.
Proof.
  apply does_beside; [apply same_delete|]. eapply does_bind; [apply does_reload|]. intros fresh w1 _ _.
  eapply does_then; [apply does_reconcile|]. intros _ w2 _. apply does_request.
Qed.

Lemma does_suspend i row providerId modelBaseUrl waitReason diagnosticReason failureCode w : alive w i ->
  does (suspendOnCredential i row providerId modelBaseUrl waitReason diagnosticReason failureCode) anything w.
Proof.
  intros Ha. apply does_async_any, does_look. apply does_asks. intros connectSpec w1 Hg1. moved Hg1. apply does_look.
  pose proof (alive_valid _ _ Ha) as Hv. apply (does_append _ _ _ _ _ _ _ Hv).
  - intros e w2 _. destruct (isStaleStateAppendError e); [apply does_give_way|apply does_raise].
  - intros envelopes w2 Hg2. moved Hg2. apply goes_on_quiet; [apply same_delete|]. eapply goes_on_folds; [exact Hv|]. intros w3 _ _.
    eapply does_then; [apply does_reconcile|]. intros _ w4 _. apply does_request.
Qed.

Definition outcome_appends (r : res (option (nat * list LogEnvelope))) (t : Own) w : Prop :=
  match r with
  | Ok (Some (i, envelopes)) => given i envelopes t /\ alive w i
  | _ => t = None
  end.

(** One attempt: done, or another one on a loop loaded again. *)
Lemma owp_attempt i attempt row outcome w : Fresh w -> I None w -> alive w i ->
  owp Rely Guar I Fresh
    (let* channelId := get (fun w => (instance w i).(lp_channelId)) in
     let* items := act_res (fun w => (w, outcome_items i row outcome w)) in
     bindr (append_items i items) (fun appended =>
       match appended with
       | Ok envelopes => ret (inr (Some (i, envelopes)))
       | Throw e =>
           match classifyGadAppendError e with
           | Some HeadConflict =>
               if (attempt <? HEAD_CONFLICT_RETRIES)%nat
               then let* i := reload channelId in ret (inl (i, Nat.succ attempt))
               else raise e
           | Some _ => give_way row channelId ;; ret (inr None)
           | None => raise e
           end
       end))
    (fun r t w =>
       match r with
       | Ok (inl s) => t = None /\ alive w s.1
       | Ok (inr x) => outcome_appends (Ok x) t w
       | Throw _ => t = None
       end) None w.
Proof.
  intros HF HI Ha. eapply owp_then; [done|done|by apply (does_get _ _ anything)|done|]. intros c w1 HF1 HI1 Hg1 _. moved Hg1.
  eapply owp_then; [done|done|by apply (does_act_res _ _ anything)|done|]. intros items w2 HF2 HI2 Hg2 _. moved Hg2.
  pose proof (alive_valid _ _ Ha) as Hv.
  eapply (owp_seq _ _ _ _ Grow Rely_Grow Guar_Grow); [done|done|by eapply append_owp|].
  intros [envelopes|e] t w3 HF3 HI3 Hg3 Hr; simpl in Hr; [by (split; [|eapply alive_grow])|subst t].
  assert (Hlost : owp Rely Guar I Fresh (give_way row c ;; ret (inr None) : prog ((nat * nat) + option (nat * list LogEnvelope)))
    (fun r t w => match r with Ok (inl s) => t = None /\ alive w s.1 | Ok (inr x) => outcome_appends (Ok x) t w | Throw _ => t = None end) None w3).
  { eapply owp_then; [done|done|apply does_give_way|done|done]. }
  destruct (classifyGadAppendError e) as [[]|]; [exact Hlost| |exact Hlost|done].
  destruct (_ <? _)%nat; [|done]. eapply owp_then; [done|done|apply does_reload|done|]. intros j w4 _ _ _ Hj. split; [done|by exists c].
Qed.

Lemma append_outcome_owp i row outcome w : alive w i ->
  owp Rely Guar I Fresh (append_outcome i row outcome) outcome_appends None w.
Proof.
  intros Ha. exists (fun s t w => t = None /\ alive w s.1). split; [done|]. intros [j attempt] t w1 HF HI [-> Hj].
  eapply owp_mono; [done|done| |by apply owp_attempt]. by intros [[s|x]|e] t' w'.
Qed.

Lemma does_settle_outcome i row outcome w : alive w i -> does (settle_outcome i row outcome) anything w.
Proof.
  intros Ha HF HI. eapply (owp_seq _ _ _ _ Grow Rely_Grow Guar_Grow); [done|done|by apply append_outcome_owp|].
  intros [[[j envelopes]|]|e] t w1 HF1 HI1 Hg1 Hr; [|(simpl in Hr; by subst t)..]. destruct Hr as [Hgv Hj].
  eapply (goes_on_quiet _ _ _ anything j envelopes w1); [| |exact Hgv|exact HF1|exact HI1]; [apply same_delete|].
  assert (Hv : valid (delete_row row w1) j (lp_channelId (instance w1 j))) by exact (alive_valid _ _ Hj). apply (goes_on_folds _ _ _ _ _ _ _ Hv).
  intros w2 Hg2 Hv2. apply does_look. eapply does_then with (w := w2).
  { destruct (is_heartbeat _); [|by apply does_ret]. apply does_beside; [done|]. apply does_yield. intros. by apply does_ret. }
  intros _ w3 Hg3. moved Hg3. eapply does_then; [|intros _ w4 _; apply does_settle].
  apply does_each. intros e w4 Hg4. moved Hg4. by apply does_runStep, (valid_alive _ _ _ Hv2).
Qed.

Lemma does_applyOutcome row outcome w : does (applyOutcome row outcome) anything w.
Proof.
  apply does_async_any. eapply does_bind; [apply does_loop|]. intros i w1 _ Hv%valid_alive.
  destruct outcome; try (by apply does_settle_outcome); [apply does_retry|by apply does_suspend].
Qed.

Lemma does_deliver effectId outcome address w : does (deliverEffectOutcome effectId outcome address) anything w.
Proof.
  apply does_async_any, does_result. intros [row|] _; [|by apply does_ret]. eapply does_then; [apply does_applyOutcome|].
  intros _ w1 _. by apply does_ret.
Qed.

Lemma same_nudge row w : same_core w (nudge_redrive row w).
Proof. unfold nudge_redrive. eapply same_core_trans; [|apply same_request_pump]. split; try done. apply rows_nudge. Qed.

Lemma does_deferred requestId result error isError address w : does (deliverDeferredResult requestId result error isError address) anything w.
Proof.
  apply does_async_any, does_result. intros [row|] _; [|by apply does_ret].
  destruct (or_kind row); try apply does_applyOutcome; destruct isError; try apply does_failEffect; try apply does_applyOutcome.
  apply does_modify, same_nudge.
Qed.

(** ** Dispatching and pumping *)

Lemma does_call_executor descriptor i controller w : does (call_executor descriptor i controller) anything w.
Proof. apply does_computes; [done|]. apply does_until. intros w1 _. by apply does_get. Qed.

Lemma does_count_failure row message w : does (count_failure row message) anything w.
Proof.
  apply does_computes.
  { pose proof (rows_failure w.(w_outbox) (or_branchId row) (or_effectId row) w.(w_now) None) as Hr.
    destruct (recordFailure _ _ _ _ _). by apply same_outbox. } destruct (snd _) as [updated|].
  - destruct (maxAttempts _ _) as [max|]; [destruct (max <=? _); [apply does_failEffect|]|]; apply does_modify, same_schedule.
  - apply does_modify, same_schedule.
Qed.

Lemma does_model_failure i row err w : alive w i -> does (model_failure i row err) anything w.
Proof.
  intros Ha. assert (Hd : forall A (p : prog A) b, does p anything w -> does (p ;; ret b : prog bool) anything w).
  { intros A p b Hp. eapply does_then; [exact Hp|]. intros a w' _. by apply does_ret. }
  unfold model_failure. cbv zeta. generalize (match or_descriptor row with EModelCall d => mc_request d | _ => VUndef end) as request.
  intros request. apply does_look. generalize (classifyThrown err request.!"provider" request.!"model" (toISOString (w_now w))) as failure.
  intros failure. destruct (mf_recoverable failure); [destruct (mf_retryAfterMs failure); [apply Hd, does_retry|]|];
    (destruct (_ && _); [apply Hd; by apply does_suspend|]); [by apply does_ret|apply Hd, does_applyOutcome].
Qed.

Lemma does_dispatch_failed i row err w : alive w i -> does (dispatch_failed i row err) anything w.
Proof.
  intros Ha. eapply does_then; [destruct (or_kind row); try (by apply does_ret); by apply does_model_failure|].
  intros handled w1 _. eapply does_then; [destruct handled; [by apply does_ret|apply does_count_failure]|].
  intros _ w2 _. by apply does_modify.
Qed.

Lemma same_defer row delay w : same_core w (defer_redrive row delay w).
Proof.
  unfold defer_redrive. pose proof (rows_defer w.(w_outbox) row delay (earliestScheduledModelResumeAt w) w.(w_now)) as Hr.
  destruct (AgentOutbox.deferRedrive _ _ _ _ _) as [ob at_]. by eapply same_core_trans; [by apply same_outbox|apply same_arm].
Qed.

Lemma same_start row w : same_core w (start_dispatch row w).1.
Proof. split; try done. apply rows_lease. Qed.

Lemma does_dispatchRow row w : does (dispatchRow row) anything w.
Proof.
  apply does_async_any. eapply does_bind; [apply does_loop|]. intros i w1 _ Hv%valid_alive. apply does_computes; [apply same_start|].
  assert (Ha : alive (start_dispatch row w1).1 i) by (by eapply alive_grow; [apply Grow_same|exact Hv]).
  apply does_asks. intros hydrated w2 Hg2. moved Hg2. eapply does_then; [apply does_call_executor|].
  intros [outcome| |err] w3 Hg3; moved Hg3.
  - apply does_beside; [done|]. apply does_applyOutcome.
  - apply does_beside; [done|]. apply does_modify, same_defer.
  - by apply does_dispatch_failed.
Qed.

Lemma same_start_work now rows w work : same_core w (fold_left (start_work now) rows (w, work)).1.
Proof.
  revert w work. induction rows as [|row rows IH]; intros w work; [done|]. cbn [fold_left].
  eapply same_core_trans; [|rewrite (surjective_pairing (start_work now (w, work) row)); apply IH].
  unfold start_work. destruct (_ && _); [done|]. destruct (_ && _); [|done]. split; try done. apply rows_lease.
Qed.

Lemma does_all_settled work w : does (all_settled work) anything w.
Proof. apply does_until. intros w1 _. by apply does_act_res. Qed.

Lemma does_dispatchDue w : does dispatchDue anything w.
Proof. apply does_async_any, does_computes; [apply same_start_work|apply does_all_settled]. Qed.

Lemma does_reconcile_loops w : does reconcile_loops anything w.
Proof.
  apply does_while with (J := fun _ _ => True); [done|]. intros k w1 _ _. apply does_look.
  destruct (w_loops w1 !! k) as [[[c i]|]|]; [|by apply does_ret..]. eapply does_then; [apply does_reconcile|]. intros. by apply does_ret.
Qed.

Lemma does_pump_rounds w : does pump_rounds anything w.
Proof.
  eapply does_bindr with (Q1 := anything).
  - apply does_while with (J := fun _ _ => True); [done|]. intros [] w1 _ _. eapply does_then; [apply does_reconcile_loops|].
    intros _ w2 _. eapply does_then; [apply does_dispatchDue|]. intros _ w3 _. apply does_look.
    destruct (w_repump w3); [apply does_beside; [done|]|]; by apply does_ret.
  - intros r w1 _ _. apply does_beside; [done|]. apply does_beside; [apply same_schedule|]. by apply does_lift.
Qed.

Lemma does_pump w : does pump anything w.
Proof.
  apply does_async_any, does_look. destruct (w_pumping w); [by apply does_modify|]. apply does_beside; [done|]. apply does_pump_rounds.
Qed.

Lemma does_task task w : does (task_body task) anything w.
Proof.
  destruct task as [|row|row|row message]; [..|apply does_failEffect].
  - eapply does_bindr; [apply does_pump_rounds|]. intros. by apply does_ret.
  - eapply does_bindr; [apply does_dispatchRow|]. intros [[]|e] w1 _ _; [by apply does_ret|].
    apply does_beside; [apply same_schedule|]. apply does_raise.
  - apply does_dispatchRow.
Qed.

Lemma does_run_task id task w : does (run_task id task) anything w.
Proof. eapply does_bindr; [apply does_task|]. intros. by apply does_modify. Qed.

Lemma does_resumes w : does processScheduledModelResumes anything w.
Proof.
  apply does_async_any, does_look, does_each. intros row w1 _. eapply does_bindr; [|intros; by apply does_ret].
  eapply does_then; [apply does_handleIncoming|]. intros. by apply does_modify.
Qed.

Lemma does_alarm w : does alarm anything w.
Proof. apply does_async_any. eapply does_then; [apply does_resumes|]. intros. apply does_pump. Qed.

Lemma does_schedule_resume c messageId resetAt w : does (scheduleResumeAtReset c messageId resetAt) anything w.
Proof.
  apply does_async_any. cbv zeta. destruct (_ =s? _); [by apply does_ret|]. destruct (Date_parse _); [|by apply does_ret].
  eapply does_then; [eapply harmless_mono, does_loop|]. intros i w1 _. apply does_quiet_act; [|done].
  destruct (openTurn _); [|done]. destruct (negb _); [done|]. destruct (isSome _); [done|]. cbn [fst]. by eapply same_core_trans; [|apply same_schedule].
Qed.

Lemma same_emit i signal w : same_core w (emitEphemeral i signal w).
Proof. unfold emitEphemeral. by destruct (filter_signal _ _ _). Qed.
End Laws.
