(* ===== verification/AgentDriverProps.v ===== *)
(** The driver of an agent's loops: what holds of it as a system of functions that run
    beside each other and stop at crashes, what a crash leaves, the external ids of its
    rows and the turns it gives up; over the gad store as its log service, and a small
    driver that runs. *)
From stdpp Require Import gmap relations.
From Stdlib Require Import Ascii.
From S2P Require Import Prelude Dict JsValue JsText JsJson JsJsonLaws JsAsync AgentIds AgentState AgentFold AgentFoldLaws AgentEffects AgentStep AgentStepLaws.
From S2P Require Import GadCanon GadCanonLaws GadRefs GadRefsLaws GadLog GadLogLaws GadTables GadAppend GadAppendLaws GadAppendOk GadForks GadReplay GadStore GadStored.
From S2P Require Import AgentCache AgentCacheProps AgentOutbox AgentOutboxProps AgentPolicies AgentPolicyProps AgentSamples GadSamples AgentLoops AgentDriver AgentDriverLaws.
From S2P Require GadChannel.
#[local] Open Scope Z_scope.
#[local] Existing Instance GadChannel.sample_blobs.
#[local] Existing Instance GadChannel.sample_blobs_laws.

Abbreviation crossed := GadChannel.crossed.
Abbreviation crossed_val := GadChannel.crossed_val.
Abbreviation absent_log := GadChannel.absent_log.
Abbreviation log_decoded := GadChannel.log_decoded.
Abbreviation run := JsAsync.run.

(** * The gad store as the log service of an agent *)

Fixpoint clean_id (s : string) : bool :=
  match s with EmptyString => true | String c s' => negb (Ascii.eqb c Ascii.zero) && clean_id s' end.

Lemma clean_id_ok s : clean_id s = true -> no_nul s.
Proof.
  induction s as [|c s IH]; [done|]. simpl. intros [Hc Hs]%andb_true_iff. split; [|by apply IH]. intros ->. done.
Qed.

Section GadAgent.
Context {P : Type} {sha : Sha256} {schema : EventSchema} {schema_laws : EventSchemaLaws} {proj : LogProjections P}.
Context (no_genesis : forall s, sha256_hex s <> GENESIS_EVENT_HASH).
Implicit Types g : Gad P.

(** An input as it arrives: its values have crossed as JSON. *)
Definition crossed_record (v : val) : val := match crossed v with VObj fs => VObj fs | _ => VUndef end.

Definition crossed_event (e : LogAppendEventInput) : LogAppendEventInput :=
  {| la_envelopeId := e.(la_envelopeId); la_actor := crossed e.(la_actor); la_to := crossed e.(la_to);
     la_payloadKind := e.(la_payloadKind); la_payload := crossed e.(la_payload);
     la_causality := crossed_record e.(la_causality); la_annotations := crossed_record e.(la_annotations);
     la_appendedAt := e.(la_appendedAt);
     la_publish := map (fun target => (target.1, crossed target.2)) e.(la_publish);
     la_uuid := e.(la_uuid); la_now := e.(la_now) |}.

Definition crossed_input (input : AppendLogEventInput) : AppendLogEventInput :=
  {| in_logId := input.(in_logId); in_head := input.(in_head); in_logKind := input.(in_logKind);
     in_owner := crossed input.(in_owner); in_expectedHeadHash := input.(in_expectedHeadHash);
     in_idempotency := input.(in_idempotency); in_events := map crossed_event input.(in_events); in_now := input.(in_now) |}.

(** Ids the cycle guard of the store can tell apart. *)
Definition clean_ids (input : AppendLogEventInput) : bool :=
  clean_id input.(in_logId) && clean_id input.(in_head)
  && forallb (fun e => forallb (fun target => clean_id target.1) e.(la_publish)) input.(in_events).

#[export] Instance gad_agent_store : AgentStore (Gad P) := {
  as_getLogHead g logId head :=
    option_map (fun i => mkLogHead i.(hi_seq) i.(hi_hash) i.(hi_forkSeq) i.(hi_forkHash)) (GadLog.getLogHead g logId head);
  as_readLog g logId head afterSeq limit :=
    let! envelopes := GadLog.readLog g (mkReadLogInput logId head (Some afterSeq) None (Some (Z.of_nat limit)) None) in
    Ok (map agent_envelope envelopes);
  as_getLogEvent g logId head id :=
    let! envelope := GadLog.getLogEvent g logId head id in Ok (option_map agent_envelope envelope);
  as_appendLogEvent g input :=
    if clean_ids input then
      let! appended := GadAppend.appendLogEvent g (crossed_input input) in
      Ok (appended.1, (map (fun e => agent_envelope (env_norm e)) appended.2.(ar_envelopes), appended.2.(ar_published)))
    else Throw "a NUL in an id"
}.

Definition agent_log g (id : string) (A : list LogEnvelope) : Prop := exists L, log_is g (id, id) L /\ A = map agent_envelope L.

Lemma crossed_record_val v : opt_all js_record (nullish_opt (crossed_record v)).
Proof. unfold crossed_record. pose proof (crossed_val v) as Hv. destruct (crossed v); try exact Logic.I. by split. Qed.

Lemma typed_crossed input : clean_ids input = true -> typed_append (crossed_input input).
Proof.
  unfold clean_ids. intros [[H1 H2]%andb_true_iff H3]%andb_true_iff. rewrite forallb_forall in H3. constructor.
  - split; by apply clean_id_ok.
  - cbn [crossed_input in_events]. apply List.Forall_map, List.Forall_forall. intros e _.
    constructor; [apply crossed_val|apply crossed_val|apply crossed_val|apply crossed_record_val|apply crossed_record_val|].
    cbn [crossed_event la_publish]. apply List.Forall_map, List.Forall_forall. intros target _. apply crossed_val.
  - cbn [crossed_input in_events]. apply List.Forall_map, List.Forall_forall. intros e He. cbn. apply List.Forall_map, List.Forall_forall.
    intros target Ht. specialize (H3 e He). rewrite forallb_forall in H3. exact (clean_id_ok _ (H3 target Ht)).
Qed.

Section Laws.
Context {names : Renamed}.

Lemma linked_chained seq hash L : linked seq hash L -> chained seq hash (map agent_envelope L).
Proof. revert seq hash. induction L as [|e L IH]; intros seq hash; [done|]. intros (E & Ep & _ & H). cbn. split; [done|]. split; [done|]. by apply IH. Qed.

Lemma agent_end hash L : chain_end hash (map agent_envelope L) = end_hash hash L.
Proof. destruct L as [|e L _] using rev_ind; [done|]. rewrite map_app. cbn [map]. by rewrite chain_end_snoc, end_hash_snoc. Qed.

Lemma linked_hashes seq hash L : linked seq hash L -> Forall (fun e => e.(ge_hash) <> GENESIS_EVENT_HASH) L.
Proof. revert seq hash. induction L as [|e L IH]; intros seq hash; [constructor|]. intros (_ & _ & E & H). constructor; [|by eapply IH]. destruct E as [->|[_ (h & ->)]]; apply no_genesis. Qed.

Lemma agent_hashes L : map env_hash (map agent_envelope L) = map ge_hash L.
Proof. rewrite map_map. done. Qed.

Lemma log_hashes_distinct g k L : store_ok g -> log_is g k L -> NoDup (GENESIS_EVENT_HASH :: map ge_hash L).
Proof.
  intros Hg Hl. apply list.NoDup_cons. split.
  - intros Hin. apply list_elem_of_In, in_map_iff in Hin as (e & E & He). pose proof (wf_linked _ _ _ _ (so_wf _ Hg) Hl) as Hlk.
    apply linked_hashes in Hlk. rewrite List.Forall_forall in Hlk. by apply (Hlk e He).
  - apply NoDup_fmap_2_strong.
    + intros x y Hx%list_elem_of_In Hy%list_elem_of_In E. by apply (hash_inj g k L).
    + eapply (NoDup_fmap_1 (fun e => e.(ge_event).(ev_envelopeId))). by apply (wb_ids _ _ (so_wf _ Hg) k).
Qed.

Lemma agent_head g id L : store_ok g -> log_is g (id, id) L ->
  match as_getLogHead g id id with
  | None => L = []
  | Some h => h.(lh_seq) = Z.of_nat (length L) /\
      (L = [] -> default 0 h.(lh_forkSeq) = 0 /\ default GENESIS_EVENT_HASH (AgentCache.truthy h.(lh_forkHash)) = GENESIS_EVENT_HASH)
  end.
Proof.
  intros Hg Hl. cbn [as_getLogHead gad_agent_store]. unfold GadLog.getLogHead, headPointer.
  change (logHeadRow g id id) with (head_of g (id, id)). destruct (head_of g (id, id)) as [row|] eqn:Hh; cbn; [|by eapply absent_log].
  destruct (wf_pointer g (id, id) row L (so_wf _ Hg) Hh Hl) as [Es Eh]. split; [done|]. intros ->.
  pose proof (head_of_In _ _ _ Hh) as [Hi _]. destruct (wb_own _ _ (so_wf _ Hg) row Hi) as (es & Hes).
  destruct (log_linked g (id, id) [] (wb_own _ _ (so_wf _ Hg)) (wb_forks _ _ (so_wf _ Hg)) Hl) as [_ Hend].
  destruct (Hend row es Hh Hes) as [E1 E2]. assert (Hb : 0 <= base_seq row).
  { pose proof (wb_forks _ _ (so_wf _ Hg) row Hi) as Hf. unfold fork_ok in Hf. unfold base_seq.
    destruct (fork_of row) as [[[l h] s]|] eqn:Ef; [|by destruct Hf as [-> _]].
    destruct Hf as (inh & _ & Hs & _). unfold fork_of in Ef.
    destruct (hr_parent_log_id row), (hr_parent_head row), (hr_fork_seq row); try done. destruct (_ || _); [done|]. injection Ef as _ _ ->. simpl. lia. }
  cbn [length] in E1. assert (es = []) as -> by (destruct es; [done|simpl in E1; lia]). cbn in E1, E2.
  unfold base_seq in E1. split; [lia|]. unfold base_hash in E2. destruct (hr_fork_hash row) as [s|]; cbn in *; [|done].
  by destruct (s =s? "").
Qed.

Lemma agent_reads g id L after limit : store_ok g -> log_is g (id, id) L -> (0 < limit)%nat ->
  as_readLog g id id after limit = Ok (take limit (List.filter (fun e => after <? e.(env_seq)) (map agent_envelope L))).
Proof.
  intros Hg Hl Hn. cbn [as_readLog gad_agent_store].
  rewrite (readLog_spec g (mkReadLogInput id id (Some after) None (Some (Z.of_nat limit)) None) L (wb_forest _ _ (so_wf _ Hg)) (wf_sorted _ _ (so_wf _ Hg)) Hl).
  unfold read_limit. cbn [ri_limit]. destruct (Z.ltb_spec 0 (Z.of_nat limit)); [|lia]. rewrite Nat2Z.id. cbn [take_limit res_bind].
  unfold asked. rewrite <- firstn_map. do 2 f_equal.
  assert (E : forall es, map agent_envelope (List.filter (in_read (mkReadLogInput id id (Some after) None (Some (Z.of_nat limit)) None)) es)
              = List.filter (fun e => after <? e.(env_seq)) (map agent_envelope es)); [|apply E].
  induction es as [|e es IH]; [done|]. cbn [List.filter map]. rewrite <- IH. unfold in_read. cbn. rewrite !andb_true_r. by destruct (_ <? _).
Qed.

Lemma replayed_in g input L prepared replayed : store_ok g -> log_is g (input_key input) L ->
  (if isSome (head_of g (input_key input))
   then replay_prefix g input.(in_logId) input.(in_head) (by_id input) prepared = Ok replayed
        /\ check_suffix g input.(in_logId) input.(in_head) (length replayed) (length prepared) (drop (length replayed) prepared) = Ok tt
   else replayed = []) -> Forall (fun e => In e L) replayed.
Proof.
  intros Hg Hl. destruct (isSome _); [|intros ->; constructor]. intros [Hr _].
  by destruct (replay_prefix_spec _ _ _ _ _ _ _ (so_wf _ Hg) Hl Hr) as (_ & Hin & _).
Qed.

Lemma pointer_end g id L : store_ok g -> log_is g (id, id) L -> (headPointer g id id).(hp_hash) = end_hash GENESIS_EVENT_HASH L.
Proof.
  intros Hg Hl. unfold headPointer. change (logHeadRow g id id) with (head_of g (id, id)). destruct (head_of g (id, id)) as [row|] eqn:Hh; cbn.
  - by destruct (wf_pointer g (id, id) row L (so_wf _ Hg) Hh Hl) as [_ ->].
  - by rewrite (absent_log g (id, id) L Hh Hl).
Qed.

Lemma checked_head input replayed remaining pointer h : input.(in_expectedHeadHash) = Some (Some h) ->
  check_head input replayed remaining pointer = Ok tt -> remaining <> [] ->
  (replayed = [] -> h = pointer.(hp_hash)) /\ (forall e, list.last replayed = Some e -> e.(ge_hash) = pointer.(hp_hash)).
Proof.
  unfold check_head. intros -> H Hne. destruct remaining as [|x remaining]; [done|]. apply res_bind_Ok in H as ([] & H1 & H2). split.
  - intros ->. cbn in H1. destruct (h =s? hp_hash pointer) eqn:E; cbn in H1; [by apply String.eqb_eq|done].
  - intros e He. rewrite He in H2. destruct (ge_hash e =s? hp_hash pointer) eqn:E; cbn in H2; [by apply String.eqb_eq|done].
Qed.

Lemma agent_append g input id h L g' envelopes published : store_ok g -> log_is g (id, id) L ->
  input.(in_logId) = id -> input.(in_head) = id -> input.(in_expectedHeadHash) = Some (Some h) ->
  as_appendLogEvent g input = Ok (g', (envelopes, published)) ->
  store_ok g' /\ (forall id' L', log_is g (id', id') L' -> exists more, log_is g' (id', id') (L' ++ more)) /\
  exists replayed new, envelopes = map agent_envelope (replayed ++ new) /\ log_is g' (id, id) (L ++ new) /\
    Forall (fun e => In e L) replayed /\
    (new <> [] -> replayed = [] -> h = end_hash GENESIS_EVENT_HASH L) /\
    (new <> [] -> forall e, list.last replayed = Some e -> list.last L = Some e).
Proof.
  intros Hg Hl Eid Ehd Eh H. cbn [as_appendLogEvent gad_agent_store] in H. destruct (clean_ids input) eqn:Hclean; [|done].
  apply res_bind_Ok in H as ([g1 result] & Happ & H). apply Ok_inj in H. cbn [fst snd] in H. injection H as <- <- _.
  pose proof (typed_crossed input Hclean) as Ht. pose proof (step_append _ _ _ _ Ht Happ) as Hstep.
  pose proof (step_ok Kept g g1 Hg Logic.I Hstep) as Hok.
  destruct (append_ok g _ g1 result (so_wf _ Hg) Ht Happ) as (_ & _ & prepared & replayed & new & L0 & Ha).
  destruct Ha as [_ Hr Hcheck HL HL' Hnew _ Hres _].
  assert (Ek : input_key (crossed_input input) = (id, id)) by (unfold input_key; cbn; by rewrite Eid, Ehd). rewrite Ek in *.
  assert (L0 = L) as -> by (by eapply log_is_fun). split; [exact Hok|]. split; [intros id' L' HL2; exact (step_extends Kept g g1 (id', id') L' Hg Logic.I Hstep (fun E => E) HL2)|].
  pose proof (replayed_in g (crossed_input input) L prepared replayed Hg) as Hin. rewrite Ek in Hin. specialize (Hin Hl Hr).
  assert (Hne : map env_norm new <> [] -> drop (length replayed) prepared <> []).
  { intros Hn E. rewrite E in Hnew. apply Hn. by destruct new. }
  cbn [crossed_input in_logId in_head] in Hcheck. rewrite Eid, Ehd in Hcheck.
  exists replayed, (map env_norm new). split; [|split; [done|split; [done|split]]].
  - rewrite Hres, !map_app. f_equal.
    + apply map_ext_in. intros e He. rewrite List.Forall_forall in Hin. by rewrite (log_decoded g (id, id) L e Hl (Hin e He)).
    + by rewrite map_map.
  - intros Hn Er. destruct (checked_head (crossed_input input) replayed _ _ h Eh Hcheck (Hne Hn)) as [Hh _]. rewrite (Hh Er). by apply pointer_end.
  - intros Hn e He. destruct (checked_head (crossed_input input) replayed _ _ h Eh Hcheck (Hne Hn)) as [_ Hh]. specialize (Hh e He).
    rewrite (pointer_end g id L Hg Hl) in Hh. assert (HeL : In e L).
    { rewrite List.Forall_forall in Hin. apply Hin. apply last_Some in He as (l' & ->). apply in_app_iff. right. by left. }
    destruct L as [|x L _] using rev_ind; [done|]. rewrite last_snoc. f_equal. rewrite end_hash_snoc in Hh. symmetry in Hh.
    symmetry. eapply (hash_inj g (id, id) (L ++ [x])); [done|done|done| |done]. apply in_app_iff. right. by left.
Qed.

End Laws.

(** The gad store keeps what the driver asks of its log service. *)
#[export] Instance gad_agent_laws : AgentStoreLaws (Gad P).
Proof.
  refine {| ds_ok := GadChannel.in_order; ds_log := agent_log |}.
  - intros g id [names Hg]. destruct (wf_log _ g (id, id) (so_wf _ Hg)) as (L & HL). by exists (map agent_envelope L), L.
  - intros g id A A' (L & HL & ->) (L' & HL' & ->). f_equal. by eapply log_is_fun.
  - intros g id A [names Hg] (L & HL & ->). eapply (linked_chained (names := names)). by apply (wf_linked _ _ _ _ (so_wf _ Hg) HL).
  - intros g id A [names Hg] (L & HL & ->). rewrite agent_hashes. by eapply (log_hashes_distinct (names := names)).
  - intros g id A [names Hg] (L & HL & ->). rewrite length_map. pose proof (agent_head (names := names) g id L Hg HL) as Hh.
    destruct (as_getLogHead g id id) as [h|]; [|by rewrite Hh]. destruct Hh as [Es Hh]. split; [done|]. intros E. apply Hh. by destruct L.
  - intros g id A after limit [names Hg] (L & HL & ->). by apply (agent_reads (names := names)).
  - intros g input id h A g' envelopes published [names Hg] (L & HL & ->) Eid Ehd Eh H.
    destruct (agent_append (names := names) g input id h L g' envelopes published Hg HL Eid Ehd Eh H) as (Hok & Hgrow & replayed & new & -> & HL' & Hin & Hnew & Hlast).
    split; [by exists names|]. split.
    { intros id' A' (L' & HL2 & ->). destruct (Hgrow id' L' HL2) as (more & HL3). exists (map agent_envelope more), (L' ++ more).
      by rewrite map_app. }
    exists (map agent_envelope replayed), (map agent_envelope new). split; [by rewrite map_app|]. split; [exists (L ++ new); by rewrite map_app|].
    split; [apply List.Forall_map; eapply Forall_impl; [|exact Hin]; intros e; apply in_map|]. split.
    + intros Hn Er. rewrite agent_end. apply Hnew; [by intros ->|by destruct replayed].
    + intros Hn e He. destruct replayed as [|x replayed _] using rev_ind; [done|]. rewrite map_app in He. cbn in He. rewrite last_snoc in He.
      injection He as <-. specialize (Hlast (fun E => Hn (f_equal _ E)) x). rewrite last_snoc in Hlast. specialize (Hlast eq_refl).
      apply last_Some in Hlast as (L' & ->). rewrite map_app. cbn [map]. by rewrite last_snoc.
Defined.
End GadAgent.

(** * The driver as a system *)

(** What the vessel calls. *)
Inductive Call :=
| CallLoop (channelId : string)
| CallWake (channelId : string)
| CallIncoming (channelId : string) (incoming : Incoming)
| CallOutcome (effectId : string) (outcome : EffectOutcome) (address : OutcomeAddress)
| CallDeferred (requestId : string) (result : val) (error : option string) (isError : bool) (address : OutcomeAddress)
| CallApply (row : OutboxRow) (outcome : EffectOutcome)
| CallFail (row : OutboxRow) (message : string)
| CallReconcile (instance : nat)
| CallDispatchDue
| CallAlarm
| CallResumeAt (channelId : string) (messageId resetAt : val).

(** What it calls without awaiting anything. *)
Inductive Signal :=
| SignalDrop (channelId : string)
| SignalAbort (channelId : string)
| SignalSchedule
| SignalShow (instance : nat) (signal : EphemeralSignal).

Section System.
Context {G B S : Type} `{!AgentStore G, !AgentStoreLaws G, !TextBlobs B, !DriverDeps S, !VesselLaws S} {classifier : ModelFailureClassifier}.
Abbreviation World := (World G B S).
Abbreviation prog := (prog World).
Implicit Types w : World.

(** Nobody waits for more than the end. *)
Definition forget {A} (p : prog A) : prog unit := bindr p (fun _ => ret tt).

Definition call_prog (call : Call) : prog unit :=
  match call with
  | CallLoop c => forget (loop c)
  | CallWake c => wake c
  | CallIncoming c incoming => handleIncoming c incoming
  | CallOutcome effectId outcome address => forget (deliverEffectOutcome effectId outcome address)
  | CallDeferred requestId result error isError address => deliverDeferredResult requestId result error isError address
  | CallApply row outcome => applyOutcome row outcome
  | CallFail row message => failEffect row message
  | CallReconcile i => reconcile_ i
  | CallDispatchDue => dispatchDue
  | CallAlarm => alarm
  | CallResumeAt c messageId resetAt => forget (scheduleResumeAtReset c messageId resetAt)
  end.

Definition signalled (signal : Signal) w : World :=
  match signal with
  | SignalDrop c => dropLoop c w
  | SignalAbort c => abortChannel c w
  | SignalSchedule => schedule_earliest w
  | SignalShow i s => emitEphemeral i s w
  end.

(** A configuration: the functions under way, the work started by then, and the world. *)
Record Config := mkConfig {
  cf_world : World;
  cf_threads : list (prog unit);
  cf_started : list nat
}.

Definition all_parked (threads : list (prog unit)) : Prop := Forall (fun p => parked p = true) threads.

(** The rest of the world: logs grow, blobs come, settings change, time passes, executors
    answer. *)
Definition outside (g : G) (b : B) (settings : S) (now : Z) (uuid storeNow : string) (answers : list (nat * ExecAnswer)) w : World :=
  mkWorld g b settings now uuid storeNow w.(w_outbox) w.(w_cache) w.(w_resumes) w.(w_alarm) w.(w_heap) w.(w_loops)
    w.(w_aborts) w.(w_aborted) w.(w_controllers) w.(w_pumping) w.(w_repump) w.(w_tasks) w.(w_settled) w.(w_runs)
    answers w.(w_broadcasts) w.(w_shown) w.(w_heartbeats) w.(w_served).

Inductive step : Config -> Config -> Prop :=
| step_call call w threads started : all_parked threads ->
    step (mkConfig w threads started) (mkConfig w (threads ++ [call_prog call]) started)
| step_signal signal w threads started : all_parked threads ->
    step (mkConfig w threads started) (mkConfig (signalled signal w) threads started)
| step_start id task w threads started : all_parked threads -> w.(w_tasks) !! id = Some task -> ~ In id started ->
    step (mkConfig w threads started) (mkConfig w (threads ++ [run_task id task]) (id :: started))
| step_run p p' w w' before after started : all_parked (before ++ after) -> pstep p w = Some (w', p') ->
    step (mkConfig w (before ++ p :: after) started) (mkConfig w' (before ++ p' :: after) started)
| step_end r w before after started :
    step (mkConfig w (before ++ Done r :: after) started) (mkConfig w (before ++ after) started)
| step_outside g b settings now uuid storeNow answers w threads started :
    all_parked threads -> ds_ok g -> grows w.(w_store) g ->
    step (mkConfig w threads started) (mkConfig (outside g b settings now uuid storeNow answers w) threads started)
| step_crash w threads started : step (mkConfig w threads started) (mkConfig (crash w) [] []).

(** A driver that has not run yet. *)
Record unused w : Prop := {
  un_store : ds_ok w.(w_store);
  un_heap : w.(w_heap) = [];
  un_loops : w.(w_loops) = [];
  un_cache : w.(w_cache) = ∅;
  un_outbox : w.(w_outbox) = [];
  un_served : w.(w_served) = []
}.

(** Configurations reached while no append is answered with a replay of events its
    instance has not folded. *)
Inductive reached : Config -> Prop :=
| reached_start w : unused w -> reached (mkConfig w [] [])
| reached_step c c' : reached c -> step c c' -> Fresh c'.(cf_world) -> reached c'.

(** * What holds in every configuration *)

Definition ends_well (w : World) (p : prog unit) (t : Own) : Prop :=
  I t w /\ owp Rely Guar I Fresh p (ended anything) t w.

Fixpoint all_apart (ts : list Own) : Prop :=
  match ts with [] => True | t :: ts => Forall (apart t) ts /\ all_apart ts end.

Record sound (c : Config) : Prop := {
  so_inv : Inv c.(cf_world);
  so_fresh : Fresh c.(cf_world);
  so_threads : exists ts, Forall2 (ends_well c.(cf_world)) c.(cf_threads) ts /\ all_apart ts
}.

Lemma does_forget A (p : prog A) Q w : does p Q w -> does (forget p) anything w.
Proof. intros Hp. eapply does_bindr; [exact Hp|]. intros. by apply does_ret. Qed.

Lemma does_call call w : does (call_prog call) anything w.
Proof.
  destruct call; cbn [call_prog].
  - eapply does_forget, does_loop.
  - apply does_wake.
  - apply does_handleIncoming.
  - eapply does_forget, does_deliver.
  - apply does_deferred.
  - apply does_applyOutcome.
  - apply does_failEffect.
  - apply does_reconcile.
  - apply does_dispatchDue.
  - apply does_alarm.
  - eapply does_forget, does_schedule_resume.
Qed.

Lemma apart_sym t t' : apart t t' -> apart t' t.
Proof. destruct t as [[]|], t' as [[]|]; simpl; congruence. Qed.

Lemma all_apart_app ts ts' : all_apart (ts ++ ts') <-> all_apart ts /\ all_apart ts' /\ Forall (fun t => Forall (apart t) ts') ts.
Proof.
  induction ts as [|t ts IH]; simpl; [pose proof (List.Forall_nil (fun t => Forall (apart t) ts')); tauto|]. rewrite IH, list.Forall_app, list.Forall_cons. tauto.
Qed.

Lemma all_apart_middle ts1 t ts2 : all_apart (ts1 ++ t :: ts2) <-> all_apart (ts1 ++ ts2) /\ Forall (apart t) (ts1 ++ ts2).
Proof.
  rewrite !all_apart_app. cbn [all_apart]. rewrite !list.Forall_app.
  assert (E : Forall (fun x => Forall (apart x) (t :: ts2)) ts1 <-> Forall (apart t) ts1 /\ Forall (fun x => Forall (apart x) ts2) ts1).
  { rewrite !List.Forall_forall. setoid_rewrite List.Forall_cons_iff. split.
    - intros Hx. split; intros x Hi; [by apply apart_sym, Hx|by apply Hx].
    - intros [H1 H2] x Hi. split; [by apply apart_sym, H1|by apply H2]. }
  rewrite E. tauto.
Qed.

Lemma all_apart_none ts : all_apart ts -> all_apart (ts ++ [None]).
Proof.
  intros Ha. apply all_apart_middle. rewrite app_nil_r. split; [done|]. apply List.Forall_forall. by intros x _.
Qed.

Lemma owners_I w ps ts : Forall2 (ends_well w) ps ts -> Forall (fun t => I t w) ts.
Proof. induction 1 as [|p t ps ts [HI _] _ IH]; by constructor. Qed.

(** Functions that wait do not mind. *)
Lemma others_wait w w' ps ts : (forall t, In t ts -> I t w -> Rely t w w' /\ I t w') -> all_parked ps ->
  Forall2 (ends_well w) ps ts -> Forall2 (ends_well w') ps ts.
Proof.
  intros Hr Hp Hall. revert Hr Hp. induction Hall as [|p t ps ts [HI Hw] _ IH]; intros Hr Hp; [constructor|].
  apply list.Forall_cons in Hp as [Hp Hps]. constructor; [|apply IH; [|done]].
  - destruct (Hr t) as [HR HI']; [by left|done|]. split; [done|]. eapply (owp_parked _ _ _ _ _ p); [exact Rely_trans| |exact Hp|exact HR|exact Hw].
    intros r [-> _]. split; [done|]. by destruct r.
  - intros t' Hin. apply Hr. by right.
Qed.

(** A step of the world that leaves the driver as it is. *)
Lemma sound_still w w' threads started : Fresh w' -> all_parked threads -> Inv w' -> Guar None w None w' ->
  sound (mkConfig w threads started) -> sound (mkConfig w' threads started).
Proof.
  intros HF Hp HI HG [_ _ (ts & Hall & Ha)]. split; [done|done|]. exists ts. split; [|done]. eapply others_wait; [|done|exact Hall].
  intros t _ Ht. destruct (others_rely t None w None w') as (HR & HI' & _); try done. by destruct t as [[]|].
Qed.

Lemma sound_spawn w p threads started started' : does p anything w ->
  sound (mkConfig w threads started) -> sound (mkConfig w (threads ++ [p]) started').
Proof.
  intros Hd [Hi HF (ts & Hall & Ha)]. cbn in *. split; [done|done|]. exists (ts ++ [None]). split; [|by apply all_apart_none].
  apply Forall2_app; [exact Hall|]. constructor; [|constructor]. split; [by split|]. by apply Hd.
Qed.

Lemma Guar_drop c w : Inv w -> Guar None w None (dropLoop c w) /\ Inv (dropLoop c w).
Proof.
  intros Hi. split; [by apply Guar_same|]. destruct Hi as [H1 H2 H3 H4 H5 H6]. split; [done|done| |done|done|done].
  intros k i Hin. apply loops_delete_In in Hin. by apply (H3 k i).
Qed.

Lemma Guar_signal signal w : Inv w -> Guar None w None (signalled signal w) /\ Inv (signalled signal w).
Proof.
  intros Hi. destruct signal as [c|c| |i s]; cbn [signalled]; [by apply Guar_drop|..].
  - split; [by apply Guar_same|by apply (Inv_same w)].
  - pose proof (same_schedule w) as Hs. split; [apply Guar_same; apply Hs|by apply (Inv_same w)].
  - pose proof (same_emit i s w) as Hs. split; [apply Guar_same; apply Hs|by apply (Inv_same w)].
Qed.

Lemma Guar_outside g b settings now uuid storeNow answers w : Inv w -> ds_ok g -> grows w.(w_store) g ->
  Guar None w None (outside g b settings now uuid storeNow answers w) /\ Inv (outside g b settings now uuid storeNow answers w).
Proof.
  intros Hi Hok Hg. set (w' := outside _ _ _ _ _ _ _ w). split.
  - split; [split; [done|]|split; [by left|by left]]. intros i l Hl. exists l. by repeat split.
  - destruct Hi as [H1 H2 H3 H4 H5 H6]. split; [done| |done| |done|done].
    + intros i l Hl. destruct (H2 i l Hl) as (? & ? & ?). split; [done|]. split; [done|]. by eapply fold_ok_grows.
    + intros k st Hk. destruct (H4 k st Hk) as (c & ? & ?). exists c. split; [done|]. by eapply fold_ok_grows.
Qed.

Lemma sound_run p p' w w' before after started : Fresh w' -> all_parked (before ++ after) -> pstep p w = Some (w', p') ->
  sound (mkConfig w (before ++ p :: after) started) -> sound (mkConfig w' (before ++ p' :: after) started).
Proof.
  intros HF' Hp Hs [Hi HF (ts & Hall & Ha)]. cbn [cf_world cf_threads] in *.
  apply Forall2_app_inv_l in Hall as (ts1 & ts2 & H1 & H2 & ->). inversion H2 as [|? t ? ts2' [HI Hw] H2' E1 E2]; subst. clear H2.
  destruct (owp_step Rely Guar I Fresh _ p p' _ t w w' (fun t w _ _ => Rely_refl t w) (fun t w _ => Guar_refl t w) HF HI Hw Hs HF')
    as (t' & HG & HI' & Hw').
  apply all_apart_middle in Ha as [Ha Hat]. rewrite List.Forall_forall in Hat.
  assert (Hother : forall x, In x (ts1 ++ ts2') -> I x w -> (Rely x w w' /\ I x w') /\ apart t' x).
  { intros x Hx HIx. destruct (others_rely x t w t' w') as (HR & HIx' & Hax); [by apply apart_sym, Hat|done..|].
    split; [done|by apply apart_sym]. }
  split; [apply HI'|done|]. exists (ts1 ++ t' :: ts2'). apply list.Forall_app in Hp as [Hp1 Hp2].
  assert (Hin1 : Forall2 (ends_well w') before ts1).
  { eapply others_wait; [|done|exact H1]. intros x Hx HIx. apply Hother; [apply in_app_iff; by left|done]. }
  assert (Hin2 : Forall2 (ends_well w') after ts2').
  { eapply others_wait; [|done|exact H2']. intros x Hx HIx. apply Hother; [apply in_app_iff; by right|done]. }
  split; [apply Forall2_app; [exact Hin1|by constructor]|]. apply all_apart_middle. split; [done|]. apply List.Forall_forall.
  intros x Hx. apply (Hother x Hx). pose proof (owners_I _ _ _ H1) as I1. pose proof (owners_I _ _ _ H2') as I2.
  rewrite List.Forall_forall in I1, I2. apply in_app_iff in Hx as [Hx|Hx]; [by apply I1|by apply I2].
Qed.

Lemma sound_end r w before after started : sound (mkConfig w (before ++ Done r :: after) started) -> sound (mkConfig w (before ++ after) started).
Proof.
  intros [Hi HF (ts & Hall & Ha)]. split; [done|done|]. cbn [cf_world cf_threads] in *.
  apply Forall2_app_inv_l in Hall as (ts1 & ts2 & H1 & H2 & ->). inversion H2 as [|? t ? ts2' _ H2']; subst.
  exists (ts1 ++ ts2'). split; [by apply Forall2_app|]. by apply all_apart_middle in Ha as [Ha _].
Qed.

Lemma crash_inv w : Inv w -> Inv (crash w).
Proof. intros [H1 H2 H3 H4 H5 H6]. split; [done|done|by intros c i []|done|done|done]. Qed.

Lemma step_sound c c' : step c c' -> Fresh c'.(cf_world) -> sound c -> sound c'.
Proof.
  intros Hs HF Hc. destruct Hs; cbn [cf_world] in HF.
  - by eapply sound_spawn; [apply does_call|].
  - destruct (Guar_signal signal w (so_inv _ Hc)) as [HG HI]. by apply (sound_still w).
  - by eapply sound_spawn; [apply does_run_task|].
  - by eapply sound_run.
  - by eapply sound_end.
  - destruct (Guar_outside g b settings now uuid storeNow answers w (so_inv _ Hc)) as [HG HI]; [done|done|]. by apply (sound_still w).
  - split; [by apply crash_inv, Hc|done|]. exists []. by split.
Qed.

Lemma reached_sound c : reached c -> sound c.
Proof.
  induction 1 as [w [Hs Hh Hl Hc Ho Hv]|c c' _ IH Hs HF]; [|by eapply step_sound]. split; cbn.
  - split; [done|..].
    + intros i l. rewrite Hh. by rewrite lookup_nil.
    + intros c i. by rewrite Hl.
    + intros k st. rewrite Hc. unfold CacheTable in *. by rewrite lookup_empty.
    + intros i l. rewrite Hh. by rewrite lookup_nil.
    + rewrite Ho. exact rows_empty.
  - unfold Fresh. by rewrite Hv.
  - exists []. by split.
Qed.
(** ** Running one function for a while *)

(** The worlds of [n] steps pass a test. *)
Fixpoint along {A} (ok : World -> bool) (n : nat) (p : prog A) w : bool :=
  match n with
  | O => true
  | Datatypes.S n' => match pstep p w with Some (w', p') => ok w' && along ok n' p' w' | None => true end
  end.

Definition waits_beside (j : nat) (threads : list (prog unit)) : bool :=
  forallb parked (take j threads) && forallb parked (drop (Datatypes.S j) threads).

(** The function at [j] takes up to [n] steps, when the others wait. *)
Definition advance (j n : nat) (c : Config) : Config :=
  let '(mkConfig w threads started) := c in
  match threads !! j with
  | Some p =>
      if waits_beside j threads
      then let '(w', p') := steps n p w in mkConfig w' (take j threads ++ p' :: drop (Datatypes.S j) threads) started
      else c
  | None => c
  end.

Definition advance_ok (ok : World -> bool) (j n : nat) (c : Config) : bool :=
  match c.(cf_threads) !! j with Some p => along ok n p c.(cf_world) | None => true end.

(** One more call. *)
Definition called (call : Call) (c : Config) : Config := mkConfig c.(cf_world) (c.(cf_threads) ++ [call_prog call]) c.(cf_started).

(** Functions that have ended are gone. *)
Definition is_done (p : prog unit) : bool := isSome (outcome p).
Definition cleared (c : Config) : Config :=
  mkConfig c.(cf_world) (List.filter (fun p => negb (is_done p)) c.(cf_threads)) c.(cf_started).

Lemma forallb_parked threads : forallb parked threads = true -> all_parked threads.
Proof. rewrite forallb_forall. intros H. by apply List.Forall_forall. Qed.

Section Closed.
Context (ok : World -> bool) (R : Config -> Prop).
Context (HR : forall c c', R c -> step c c' -> ok c'.(cf_world) = true -> R c').

Lemma run_closed n before after started : all_parked (before ++ after) -> forall p w, R (mkConfig w (before ++ p :: after) started) ->
  along ok n p w = true -> R (mkConfig (steps n p w).1 (before ++ (steps n p w).2 :: after) started).
Proof.
  intros Hp. induction n as [|n IH]; intros p w Hc Hok; [exact Hc|]. cbn [steps along] in *.
  destruct (pstep p w) as [[w1 p1]|] eqn:E; [|exact Hc]. apply andb_true_iff in Hok as [Hok1 Hok].
  apply IH; [|exact Hok]. eapply HR; [exact Hc|by apply step_run|exact Hok1].
Qed.

Lemma advance_closed j n c : R c -> advance_ok ok j n c = true -> R (advance j n c).
Proof.
  destruct c as [w threads started]. unfold advance, advance_ok. cbn [cf_threads cf_world].
  destruct (threads !! j) as [p|] eqn:Ej; [|done]. destruct (waits_beside j threads) eqn:Ew; [|done]. intros Hc Hok.
  apply andb_true_iff in Ew as [H1%forallb_parked H2%forallb_parked].
  pose proof (run_closed n (take j threads) (drop (Datatypes.S j) threads) started) as Hrun.
  specialize (Hrun (proj2 (list.Forall_app _ _ _) (conj H1 H2)) p w). rewrite (take_drop_middle threads j p Ej) in Hrun.
  specialize (Hrun Hc Hok). by destruct (steps n p w).
Qed.

Lemma called_closed call c : R c -> forallb parked c.(cf_threads) = true -> ok c.(cf_world) = true -> R (called call c).
Proof. intros Hc Hp Hok. eapply HR; [exact Hc| |exact Hok]. destruct c. apply step_call. by apply forallb_parked. Qed.

Lemma cleared_closed c : R c -> ok c.(cf_world) = true -> R (cleared c).
Proof.
  destruct c as [w threads started]. unfold cleared. cbn [cf_threads cf_world cf_started]. intros Hc Hok.
  change threads with ([] ++ threads) in Hc. change (List.filter _ threads) with ([] ++ List.filter (fun p => negb (is_done p)) threads).
  revert Hc. generalize (@nil (prog unit)) as before. induction threads as [|p threads IH]; intros before Hc; [exact Hc|].
  cbn [List.filter]. destruct (negb (is_done p)) eqn:E.
  - rewrite (cons_middle p), app_assoc. apply IH. by rewrite <- app_assoc.
  - apply IH. unfold is_done in E. destruct (outcome p) as [r|] eqn:Eo; [|done]. apply outcome_Done in Eo as ->.
    eapply HR; [exact Hc|apply step_end|exact Hok].
Qed.
End Closed.

Definition calm w : bool := forallb (fun s => negb (past_fold s)) w.(w_served).

Lemma calm_fresh w : calm w = true -> Fresh w.
Proof.
  unfold calm. rewrite forallb_forall. intros H. apply List.Forall_forall. intros s Hs. specialize (H s Hs). by destruct (past_fold s).
Qed.

Lemma reached_closed c c' : reached c -> step c c' -> calm c'.(cf_world) = true -> reached c'.
Proof. intros Hc Hs Hok. by eapply reached_step, calm_fresh. Qed.

Lemma runs_closed c0 c c' : rtc step c0 c -> step c c' -> true = true -> rtc step c0 c'.
Proof. intros Hc Hs _. by eapply rtc_r. Qed.

(** C12: whatever the driver is asked to do, in whatever order its functions, the work it
    starts, the executors, other writers of the logs and crashes interleave, every loop in
    memory and every state in the fold cache is, up to its configuration, the fold of a
    beginning of the log of its channel, as long as no append is answered with a replay of
    events its instance has not folded. *)
Theorem fold_never_diverges c : reached c ->
  (forall i l, c.(cf_world).(w_heap) !! i = Some l ->
     exists front rest, ds_log c.(cf_world).(w_store) (ids.logIdForChannel l.(lp_channelId)) (front ++ rest) /\
       folds l.(lp_channelId) front l.(lp_state)) /\
  (forall key st, c.(cf_world).(w_cache) !! key = Some (Some st) ->
     exists channelId front rest, key = (ids.logIdForChannel channelId, ids.logIdForChannel channelId) /\
       ds_log c.(cf_world).(w_store) (ids.logIdForChannel channelId) (front ++ rest) /\ folds channelId front st).
Proof.
  intros Hc. destruct (so_inv _ (reached_sound c Hc)) as [_ Hheap _ Hcache]. split.
  - intros i l Hl. by destruct (Hheap i l Hl) as (_ & _ & Hf).
  - intros key st Hst. destruct (Hcache key st Hst) as (channelId & Ek & front & rest & Hf). by exists channelId, front, rest.
Qed.
End System.

(** * After a crash *)

Section Recovery.
Context {G B S : Type} `{!AgentStore G, !AgentStoreLaws G, !TextBlobs B, !DriverDeps S, !VesselLaws S} {classifier : ModelFailureClassifier}.
Abbreviation World := (World G B S).
Abbreviation prog := (prog World).
Implicit Types w : World.

Lemma run_then_get A C (f : World -> A) (k : A -> prog C) w w' r : run (k (f w)) w w' r -> run (bind (get f) k) w w' r.
Proof. intros H. by constructor. Qed.

Lemma run_then_query A C (f : World -> res A) (k : A -> prog C) a w w' r :
  f w = Ok a -> run (k a) w w' r -> run (bind (remote (fun w => (w, f w))) k) w w' r.
Proof. intros E H. do 3 constructor. cbn. by rewrite E. Qed.

Lemma run_then_lift A C (r0 : res A) (k : A -> prog C) a w w' r : r0 = Ok a -> run (k a) w w' r -> run (bind (lift r0) k) w w' r.
Proof. intros -> H. done. Qed.

(** The pages of a log, read while nobody writes. *)
Lemma run_read_all c L n w : ds_ok w.(w_store) -> ds_log w.(w_store) (log_id c) L -> (n <= length L)%nat ->
  run (read_all (log_id c) (log_id c) (Z.of_nat n)) w w (Ok (drop n L)).
Proof.
  intros Hok HL Hn. apply run_async. unfold while.
  set (body := fun s : list LogEnvelope * Z => _).
  assert (Hg : forall k m all, (length L - m < k)%nat -> (m <= length L)%nat ->
            run (Loop body (all, Z.of_nat m) Done) w w (Ok (all ++ drop m L))); [|by apply (Hg (Datatypes.S (length L)) n []); lia].
  induction k as [|k IH]; intros m all Hk Hm; [lia|].
  assert (Hpage : as_readLog w.(w_store) (log_id c) (log_id c) (Z.of_nat m) PAGE = Ok (take PAGE (drop m L))).
  { rewrite (ds_read _ _ L) by (done || unfold PAGE; lia). rewrite (chained_drop _ _ _ (ds_chained _ _ _ Hok HL)) by lia. by rewrite Nat2Z.id. }
  destruct (list.last (take PAGE (drop m L))) as [e|] eqn:El.
  - destruct (Nat.ltb_spec (length (take PAGE (drop m L))) PAGE) as [Hlt|Hge].
    + eapply run_break; [|constructor]. unfold body. eapply run_then_query; [exact Hpage|]. rewrite El.
      rewrite (proj2 (Nat.ltb_lt _ _) Hlt). rewrite length_take in Hlt. rewrite (take_ge (drop m L)) by lia. constructor.
    + assert (Eseq : e.(env_seq) = Z.of_nat (m + PAGE)).
      { assert (EL : L = take m L ++ take PAGE (drop m L) ++ drop PAGE (drop m L)) by (by rewrite (take_drop PAGE), take_drop).
        pose proof (ds_chained _ _ _ Hok HL) as Hc. rewrite EL in Hc. rewrite (chained_last _ _ _ _ Hc El). rewrite length_take in Hge |- *.
        rewrite length_take_le by lia. lia. }
      eapply run_again.
      * unfold body. eapply run_then_query; [exact Hpage|]. rewrite El. rewrite (proj2 (Nat.ltb_ge _ _) Hge). constructor.
      * rewrite Eseq. rewrite length_take, length_drop in Hge.
        replace (all ++ drop m L) with ((all ++ take PAGE (drop m L)) ++ drop (m + PAGE) L)
          by (rewrite <- app_assoc; f_equal; rewrite <- drop_drop; apply take_drop).
        apply IH; unfold PAGE in *; lia.
  - apply last_None in El. eapply run_break; [|constructor]. unfold body. eapply run_then_query; [exact Hpage|]. rewrite El. cbn [list.last].
    assert (Ed : drop m L = []).
    { destruct (drop m L) as [|x l]; [done|]. unfold PAGE in El. done. }
    rewrite Ed, app_nil_r. constructor.
Qed.

Lemma cold_run c input remote L st0 w : Inv w -> asks c input -> log_at w c L -> foldEvents (start c) L = Ok st0 ->
  (L = [] -> default 0 remote.(lh_forkSeq) = 0 /\ default GENESIS_LAST_HASH (AgentCache.truthy remote.(lh_forkHash)) = GENESIS_LAST_HASH) ->
  exists st, run (cold_refold input remote) w w (Ok st) /\ folds c L st.
Proof.
  intros Hi Ha HL Hf Hnil.
  assert (Hr : exists st, refold (emptyState input (Some remote)) (default 0 remote.(lh_forkSeq)) L = Ok st /\ folds c L st).
  { unfold refold. destruct L as [|e es].
    - destruct (Hnil eq_refl) as [Es Eh]. eexists. split; [reflexivity|]. exists (start c). split; [done|]. rewrite Es.
      rewrite <- (empty_start c input (Some remote) GENESIS_LAST_HASH Ha eq_refl), <- Eh. reflexivity.
    - pose proof (ds_chained _ _ _ (inv_store _ Hi) HL) as Hc. destruct Hc as (_ & Ep & _).
      pose proof (foldEvents_plain (e :: es) _ _ (empty_start c input (Some remote) _ Ha Ep)) as Hp. rewrite Hf in Hp.
      destruct (foldEvents (with_lastHash _ _) (e :: es)) as [st1|]; [|done]. cbn [res_bind]. eexists. split; [reflexivity|].
      exists st0. split; [done|]. apply Ok_inj in Hp. by rewrite <- Hp. }
  destruct Hr as (st & Hr & Hs). exists st. split; [|done]. apply run_async.
  rewrite (ask_logId _ _ Ha), (ask_head _ _ Ha). eapply run_bind; [apply (run_read_all c L 0); [apply Hi|exact HL|lia]|].
  change (drop 0 L) with L. unfold lift. rewrite Hr. constructor.
Qed.

(** A loop is loaded as the fold of its whole log, from the cache or from the log. *)
Lemma run_load c input L st0 w : Inv w -> asks c input -> log_at w c L -> foldEvents (start c) L = Ok st0 ->
  exists w' st, run (load_state input) w w' (Ok st) /\ folds c L st /\ (w' = w \/ exists x, w' = set_cache x w).
Proof.
  intros Hi Ha HL Hf. pose proof (ds_head _ _ _ (inv_store _ Hi) HL) as Hhead.
  destruct (as_getLogHead w.(w_store) (log_id c) (log_id c)) as [remote|] eqn:Eh; cycle 1.
  { exists w, (emptyState input None). split; [|split; [|by left]].
    - apply run_async. eapply (run_then_query _ _ (fun w => Ok (as_getLogHead w.(w_store) input.(li_logId) input.(li_head)))).
      + rewrite (ask_logId _ _ Ha), (ask_head _ _ Ha), Eh. reflexivity.
      + constructor.
    - subst L. exists (start c). split; [done|]. rewrite <- (empty_start c input None GENESIS_LAST_HASH Ha eq_refl). reflexivity. }
  destruct Hhead as [Eseq Hnil].
  assert (Hcold : exists w' st, run (let* state := cold_refold input remote in stored state) w w' (Ok st) /\ folds c L st /\
                    (w' = w \/ exists x, w' = set_cache x w)).
  { destruct (cold_run c input remote L st0 w Hi Ha HL Hf Hnil) as (st & Hr & Hs). eexists _, st.
    split; [eapply run_bind; [exact Hr|do 2 constructor]|]. split; [done|]. right. by eexists. }
  assert (Hstart : forall w' st, run (load_known input remote) w w' (Ok st) -> run (load_state input) w w' (Ok st)).
  { intros w' st Hk. apply run_async. eapply (run_then_query _ _ (fun w => Ok (as_getLogHead w.(w_store) input.(li_logId) input.(li_head))) _ (Some remote)); [|exact Hk].
    by rewrite (ask_logId _ _ Ha), (ask_head _ _ Ha), Eh. }
  destruct (cache_read w.(w_cache) input.(li_logId) input.(li_head)) as [cached|] eqn:Ec; cycle 1.
  { destruct Hcold as (w' & st & Hr & Hs). exists w', st. split; [|done]. apply Hstart. apply run_then_get. by rewrite Ec. }
  assert (Hrow : fold_ok w.(w_store) c cached).
  { unfold cache_read in Ec. rewrite (ask_logId _ _ Ha), (ask_head _ _ Ha) in Ec. destruct (w_cache w !! _) as [[x|]|] eqn:E; [|done..].
    injection Ec as ->. destruct (inv_cache _ Hi _ _ E) as (c' & Ek & Hf'). injection Ek as Ek. by apply string_app_inj_l in Ek as ->. }
  destruct Hrow as (front & rest & HL2 & Hfront). assert (L = front ++ rest) as -> by (by eapply ds_fun).
  pose proof (ds_chained _ _ _ (inv_store _ Hi) HL) as Hch. pose proof (proj1 (chained_app _ _ _ _) Hch) as [Hc1 Hc2].
  destruct (folds_place _ _ _ Hc1 Hfront) as (Ls & Lh & _).
  assert (Hover : folds c front (overlayCached input (default 0 remote.(lh_forkSeq)) cached)).
  { eapply folds_plain; [exact Hfront|by eapply overlay_plain]. }
  destruct ((cached.(lastSeq) =? remote.(lh_seq)) && (cached.(lastHash) =s? remote.(lh_hash))) eqn:E1.
  { apply andb_true_iff in E1 as [E1%Z.eqb_eq E2]. rewrite Ls, Eseq, length_app in E1. assert (rest = []) as -> by (destruct rest; [done|simpl in E1; lia]).
    eexists w, _. split; [apply Hstart|split; [rewrite app_nil_r; exact Hover|by left]].
    apply run_then_get. rewrite Ec. rewrite Ls, Eseq, app_nil_r, Z.eqb_refl, E2. constructor. }
  destruct (Z.ltb_spec cached.(lastSeq) remote.(lh_seq)) as [Hlt|Hge].
  - destruct rest as [|e rest]; [rewrite app_nil_r in Eseq; lia|].
    destruct Hover as (st1 & Hf1 & Hp1).
    assert (Hf2 : foldEvents st1 (e :: rest) = Ok st0).
    { unfold foldEvents in *. rewrite res_foldl_app, Hf1 in Hf. exact Hf. }
    pose proof (foldEvents_plain (e :: rest) _ _ Hp1) as Hp. rewrite Hf2 in Hp.
    destruct (foldEvents (overlayCached _ _ _) (e :: rest)) as [st2|] eqn:Hst2; [|done]. apply Ok_inj in Hp.
    eexists _, st2. split; [apply Hstart|split; [by exists st0|right; by eexists]].
    apply run_then_get. rewrite Ec, E1. rewrite (proj2 (Z.ltb_lt _ _) Hlt).
    rewrite (ask_logId _ _ Ha), (ask_head _ _ Ha), Ls.
    eapply run_bind; [apply (run_read_all c (front ++ e :: rest)); [apply Hi|done|rewrite length_app; lia]|].
    rewrite drop_app_length. destruct Hc2 as (_ & Ep & _). rewrite Ep, <- Lh, String.eqb_refl. cbn [negb]. unfold lift. rewrite Hst2.
    do 3 constructor.
  - destruct Hcold as (w' & st & Hr & Hs). exists w', st. split; [|done]. apply Hstart. apply run_then_get.
    rewrite Ec, E1. rewrite (proj2 (Z.ltb_ge _ _) Hge). exact Hr.
Qed.

(** The ids of the effects a state derives do not depend on its configuration. *)
Lemma derived_ids st st' : plain_state st = plain_state st' ->
  map effectId (derivePendingEffects st) = map effectId (derivePendingEffects st').
Proof.
  intros ->%plain_recast. generalize (forkSeq st) (config st). intros f v. destruct st'. unfold derivePendingEffects, recast. cbn.
  rewrite !map_app, !map_map. by f_equal.
Qed.

Lemma derives_ids (effects effects' : list EffectDescriptor) id : map effectId effects = map effectId effects' ->
  (exists d, In d effects /\ effectId d = id) -> exists d, In d effects' /\ effectId d = id.
Proof.
  intros E (d & Hd & <-). apply (in_map effectId) in Hd. rewrite E in Hd. apply in_map_iff in Hd as (d' & Hd' & Hin). by exists d'.
Qed.

(** The loop of a channel loaded again and reconciled. *)
Definition recover (c : string) : prog nat := let* i := loop c in reconcile_ i ;; ret i.

(** C13: at whatever point a crash stops a driver in such a run, loading the loop of a channel
    again ends, gives the fold of the whole log of the channel, whatever state the cache was
    left in, and reconciling it leaves the outbox of the branch with a row for exactly the
    effects that fold derives: no effect the log asks for is lost, none it has settled comes
    back. *)
Theorem crash_recovers conf c L st0 : reached conf ->
  ds_log conf.(cf_world).(w_store) (ids.logIdForChannel c) L -> foldEvents (start c) L = Ok st0 ->
  exists w' i, run (recover c) (crash conf.(cf_world)) w' (Ok i) /\ loops_get c w'.(w_loops) = Some i /\
    plain_state (loop_state w' i) = plain_state st0 /\
    forall id, (exists row, In row (forBranch w'.(w_outbox) (ids.logIdForChannel c)) /\ row.(or_effectId) = id) <->
               (exists d, In d (derivePendingEffects st0) /\ effectId d = id).
Proof.
  intros Hc HL Hf. pose proof (crash_inv _ (so_inv _ (reached_sound conf Hc))) as Hi. destruct (inv_outbox _ Hi) as [Hob Hacks]. set (w := crash conf.(cf_world)) in *.
  destruct (run_load c (load_input c w) L st0 w Hi (asks_input c w) HL Hf) as (w1 & st & Hload & (st1 & Hf1 & Hp) & Hw1).
  assert (st1 = st0) as -> by (unfold foldEvents in *; congruence).
  assert (E1 : w1.(w_heap) = [] /\ w1.(w_loops) = [] /\ w1.(w_outbox) = w.(w_outbox)) by (destruct Hw1 as [->|(x & ->)]; done).
  destruct E1 as (Eh & El & Eo).
  set (w2 := (add_loop c st w1).1). assert (Hloop : run (loop c) w w2 (Ok 0%nat)).
  { apply run_async, run_then_get. change (loops_get c (w_loops w)) with (@None nat). apply run_then_get.
    eapply run_bind; [exact Hload|]. apply run_Act. unfold w2, add_loop. cbn [fst]. by rewrite Eh. }
  assert (Hl2 : w_heap w2 = [new_loop c st w1]) by (unfold w2; cbn; by rewrite Eh).
  exists (reconcile_loop 0 w2), 0%nat. split; [eapply run_bind; [exact Hloop|]; eapply run_bind; [apply run_async, run_Act; reflexivity|constructor]|].
  destruct (same_reconcile 0 w2) as [_ Hh Hlo _].
  split.
  { rewrite Hlo. unfold w2. cbn. rewrite El, Eh. unfold loops_put, loops_get. cbn. by rewrite String.eqb_refl. }
  assert (Est : forall w, w_heap w = [new_loop c st w1] -> loop_state w 0 = st) by (intros w3 E; unfold loop_state, instance; by rewrite E).
  split; [rewrite (Est (reconcile_loop 0 w2)) by congruence; exact Hp|]. intros id.
  assert (Eob : w_outbox (reconcile_loop 0 w2) = reconcile_rows w.(w_outbox) (ids.logIdForChannel c) st w2.(w_now)).
  { unfold reconcile_loop. change (lp_state (instance w2 0)) with (loop_state w2 0). rewrite (Est w2 Hl2). unfold instance. rewrite Hl2. cbn. unfold AgentOutbox.reconcile. rewrite Eo.
    by destruct (AgentOutbox.scheduleEarliest _ _ _). }
  rewrite Eob, reconcile_ids by done. pose proof (derived_ids _ _ Hp) as Hids. split; by apply derives_ids.
Qed.
End Recovery.

(** * The external ids of rows *)

(** Texts as UTF-8: the bytes behind the first one of a code point, and a text. *)
Fixpoint utf8_rest (n : nat) (range : Z * Z) (s : string) : option string :=
  match n with
  | O => Some s
  | S n' =>
      match s with
      | String c rest => if in_range range.1 range.2 (code c) then utf8_rest n' (128, 191) rest else None
      | EmptyString => None
      end
  end.

Inductive utf8 : string -> Prop :=
| utf8_empty : utf8 ""
| utf8_char c n range s rest :
    utf8_lead (code c) = Some (n, range) -> utf8_rest n range s = Some rest -> utf8 rest -> utf8 (String c s).

Lemma byte_char_code c : byte_char (code c) = c.
Proof. unfold byte_char, code. by rewrite Nat2Z.id, ascii_nat_embedding. Qed.

Lemma code_range c : 0 <= code c < 256.
Proof. unfold code. pose proof (nat_ascii_bounded c). lia. Qed.

Lemma hex_digit n : 0 <= n < 16 -> hex_value (upper_hex n) = Some n.
Proof.
  intros Hn. assert (E : In n (map Z.of_nat (seq 0 16))) by (apply in_map_iff; exists (Z.to_nat n); split; [lia|apply in_seq; lia]).
  clear Hn. revert n E. apply List.Forall_forall. repeat (constructor; [reflexivity|]). constructor.
Qed.

Lemma escaped_percent c rest : escaped (percent c rest) = Some (code c, rest).
Proof.
  pose proof (code_range c). unfold percent, escaped. cbn [Ascii.eqb Bool.eqb].
  assert (0 <= code c / 16 < 16) by (split; [apply Z.div_pos; lia|apply Z.div_lt_upper_bound; lia]).
  rewrite !hex_digit by (done || apply Z.mod_pos_bound; lia). cbn. do 2 f_equal. pose proof (Z.div_mod (code c) 16). lia.
Qed.

Lemma unreserved_ascii c : unreserved c = true -> code c < 128 /\ c <> "%"%char /\ c <> ":"%char.
Proof. destruct c as [[] [] [] [] [] [] [] []]; vm_compute; try discriminate; intros _; repeat split; discriminate. Qed.

Lemma encode_reserved c s : 128 <= code c -> encodeURIComponent (String c s) = percent c (encodeURIComponent s).
Proof.
  intros Hc. cbn [encodeURIComponent]. destruct (unreserved c) eqn:E; [|done]. apply unreserved_ascii in E as [? _]. lia.
Qed.

Lemma in_range_spec lo hi z : in_range lo hi z = true <-> lo <= z <= hi.
Proof. unfold in_range. rewrite andb_true_iff, !Z.leb_le. done. Qed.

(** The bytes behind the first one, escaped and read back. *)
Lemma escaped_tail_encode n : forall range s rest, 128 <= range.1 -> utf8_rest n range s = Some rest ->
  exists bytes, escaped_tail n range (encodeURIComponent s) = Some (bytes, encodeURIComponent rest) /\ s = bytes ^^ rest.
Proof.
  induction n as [|n IH]; intros range s rest Hr H; cbn [utf8_rest] in H.
  - injection H as ->. by exists "".
  - destruct s as [|c s]; [done|]. destruct (in_range range.1 range.2 (code c)) eqn:Ec; [|done].
    destruct (IH (128, 191) s rest ltac:(simpl; lia) H) as (bytes & E & ->). exists (String c bytes). split; [|done].
    apply in_range_spec in Ec as Ec'. rewrite encode_reserved by lia. cbn [escaped_tail]. rewrite escaped_percent, Ec.
    cbn [fst snd]. rewrite E, byte_char_code. done.
Qed.

Lemma lead_range b n range : utf8_lead b = Some (n, range) -> (n = O /\ b < 128) \/ (128 <= range.1 /\ 128 <= b).
Proof.
  unfold utf8_lead. intros H.
  repeat match goal with H : (if ?x then _ else _) = Some _ |- _ => destruct x eqn:? end;
    rewrite ?in_range_spec, ?Z.ltb_lt, ?Z.eqb_eq in *; simplify_eq/=; lia.
Qed.

Lemma encode_length s : (String.length s <= String.length (encodeURIComponent s))%nat.
Proof. induction s as [|c s IH]; [done|]. cbn. destruct (unreserved c); cbn; lia. Qed.

Lemma decode_encode s : utf8 s -> forall fuel, (String.length s <= fuel)%nat -> decode_from fuel (encodeURIComponent s) = Ok s.
Proof.
  induction 1 as [|c n range s rest Hlead Hrest _ IH]; intros fuel Hf; [by destruct fuel|].
  destruct fuel as [|fuel]; [simpl in Hf; lia|]. cbn [String.length] in Hf. destruct (lead_range _ _ _ Hlead) as [[-> Hc]|[Hr Hc]].
  - cbn in Hrest. injection Hrest as ->. cbn [encodeURIComponent]. destruct (unreserved c) eqn:E.
    + apply unreserved_ascii in E as (_ & Hp & _). cbn [decode_from]. destruct (Ascii.eqb_spec c "%"%char) as [|_]; [done|]. cbn [negb].
      rewrite IH by lia. done.
    + unfold percent at 1. cbn [decode_from Ascii.eqb Bool.eqb negb]. change (String "%" _) with (percent c (encodeURIComponent rest)).
      rewrite escaped_percent, Hlead. cbn [escaped_tail]. rewrite IH by lia. cbn. by rewrite byte_char_code.
  - rewrite encode_reserved by done. unfold percent at 1. cbn [decode_from Ascii.eqb Bool.eqb negb].
    change (String "%" _) with (percent c (encodeURIComponent s)). rewrite escaped_percent, Hlead.
    destruct (escaped_tail_encode n range s rest Hr Hrest) as (bytes & -> & ->). rewrite IH.
    + cbn. by rewrite byte_char_code.
    + rewrite string_length_app in Hf. lia.
Qed.

Lemma indexOf_later a c s n : a <> c -> indexOf a s = Some n -> indexOf a (String c s) = Some (S n).
Proof. intros Hc E. cbn [indexOf]. destruct (Ascii.eqb_spec a c); [done|]. by rewrite E. Qed.

Lemma indexOf_encoded s t : indexOf ":" (encodeURIComponent s ^^ String ":" t) = Some (String.length (encodeURIComponent s)).
Proof.
  induction s as [|c s IH]; [done|]. cbn [encodeURIComponent]. destruct (unreserved c) eqn:E.
  - apply unreserved_ascii in E as (_ & _ & Hc). by apply indexOf_later.
  - pose proof (code_range c). assert (Hh : forall n, 0 <= n < 16 -> ":"%char <> upper_hex n).
    { intros n Hn Eh. apply hex_digit in Hn. by rewrite <- Eh in Hn. }
    apply indexOf_later; [done|]. apply indexOf_later; [|apply indexOf_later; [|done]]; apply Hh.
    + split; [apply Z.div_pos|apply Z.div_lt_upper_bound]; lia.
    + apply Z.mod_pos_bound. lia.
Qed.

(** C14: an external id leads back to its row: [parseOutboxExternalId] of the external id of
    a branch and an effect gives that branch and that effect, whatever characters they hold. *)
Theorem external_id_returns branchId effectId : utf8 branchId -> utf8 effectId ->
  parseOutboxExternalId (outboxExternalId branchId effectId) = Ok (Some (branchId, effectId)).
Proof.
  intros Hb He. unfold parseOutboxExternalId, outboxExternalId. rewrite startsWith_app, str_slice_app. cbn [negb].
  change (":" ^^ encodeURIComponent effectId) with (String ":" (encodeURIComponent effectId)). rewrite indexOf_encoded.
  set (b := encodeURIComponent branchId). set (e := encodeURIComponent effectId).
  assert (E1 : str_take (String.length b) (b ^^ String ":" e) = b) by (generalize b; intros x; induction x as [|c x IH]; [done|exact (f_equal (String c) IH)]).
  assert (E2 : str_slice (S (String.length b)) (b ^^ String ":" e) = e) by (generalize b; intros x; induction x as [|c x IH]; [done|exact IH]).
  rewrite E1, E2. unfold decodeURIComponent, b, e. rewrite !decode_encode by (done || apply encode_length). done.
Qed.

Lemma external_id_returns_witness :
  parseOutboxExternalId (outboxExternalId "branch:channel:c" "inv:é:1") = Ok (Some ("branch:channel:c", "inv:é:1")).
Proof.
  apply external_id_returns.
  - repeat (eapply utf8_char; [reflexivity|reflexivity|]). apply utf8_empty.
  - repeat (eapply utf8_char; [reflexivity|reflexivity|]). apply utf8_empty.
Defined.

(** * A stranded turn *)

Lemma abandoned_ends : ends_invocation strandedInvocationItem.
Proof. split; [by right; right; right|done]. Qed.

(** A failed message that is not the call in flight, or is. *)
Lemma message_failed_folds st env st' : env.(env_payloadKind) = "message.failed" -> applyEvent st env = Ok st' ->
  st'.(openTurn) = st.(openTurn) /\ st'.(pendingInvocations) = st.(pendingInvocations) /\
  st'.(pendingApprovals) = st.(pendingApprovals) /\ st'.(pendingCredentialWaits) = st.(pendingCredentialWaits) /\
  st'.(selfId) = st.(selfId).
Proof.
  intros Hk H. unfold applyEvent in H. rewrite Hk in H. cbn in H. injection H as <-. unfold fold_message_failed.
  destruct (isForeignAuthor _ _); [by destruct st|]. cbn. destruct (inFlightModelCall st) as [call|]; [|done]. by destruct (_ <>s? _).
Qed.

Lemma stranded_foldable st turn : forallb foldable (stranded_items st turn) = true.
Proof.
  unfold stranded_items, strandedOpenTurnCleanupItems. rewrite !forallb_app. cbn [forallb]. destruct (openTurn st); [|done].
  rewrite !forallb_app. repeat (apply andb_true_iff; split); try done.
  all: apply forallb_forall; intros item (x & <- & _)%in_map_iff; reflexivity.
Qed.

(** A turn nothing moves any more is closed for good: folding the batch the recovery
    appends leaves no open turn, nothing pending and no effect to derive, so the loop is idle
    and the next prompt opens a new turn; and every tool call that was pending has its result. *)
Theorem stranded_turn_closed st turn envs :
  wf_state st -> st.(openTurn) = Some turn -> appended st.(selfId) st.(lastSeq) (stranded_items st turn) envs ->
  exists st', foldEvents st envs = Ok st' /\ st'.(openTurn) = None /\ derivedTurnStatus st' = Idle /\
    derivePendingEffects st' = [] /\ (forall id, dict_has id st.(pendingInvocations) = true -> answered id st' = true).
Proof.
  intros Hwf Ht Ha. destruct (appended_folds _ _ _ _ st Ha (stranded_foldable st turn)) as [st' Hf]. exists st'. split; [done|].
  unfold stranded_items, strandedOpenTurnCleanupItems in Ha. rewrite Ht in Ha.
  inversion Ha as [|? ? ? env envs' [_ Ek _ _ _] _ Ha']; subst. unfold foldEvents in Hf. simpl in Hf.
  apply res_bind_Ok in Hf as (st1 & H1 & Hf). destruct (message_failed_folds st env st1 Ek H1) as (E1 & E2 & E3 & E4 & E5).
  rewrite <- E2, <- E3, <- E4, <- E5, <- !app_assoc in Ha'.
  assert (Hwf1 : wf_state st1) by (apply (foldEvents_wf st [env]); [done|unfold foldEvents; simpl; by rewrite H1]).
  pose proof (fun H1 H2 => cleanup_batches st1 strandedInvocationItem "agent-loop" "stranded_open_turn" _ turn _ _ _ abandoned_ends Hwf1
                (eq_trans E1 Ht) H1 H2 Ha' Hf) as Hclean.
  destruct (Hclean eq_refl eq_refl) as (T1 & T2 & T3 & T4 & T5 & T6).
  split; [done|]. unfold derivedTurnStatus, derivePendingEffects. rewrite T1, T2, T3, T4, T5. split; [done|]. split; [done|].
  intros id Hid. apply T6. rewrite E2. by apply dict_has_keys.
Qed.

Lemma stranded_turn_closed_witness :
  exists st', derivePendingEffects st' = [] /\ st'.(openTurn) = None /\ answered "i1" st' = true.
Proof.
  destruct (openTurn sample_waiting) as [turn|] eqn:Et; [|vm_compute in Et; discriminate].
  destruct (stranded_turn_closed sample_waiting turn (recorded sample_waiting sample_waiting.(lastSeq) (stranded_items sample_waiting turn)))
    as (st' & _ & H1 & _ & H2 & H3).
  - apply wf_stateb_spec. vm_compute. reflexivity.
  - exact Et.
  - apply recorded_appended.
  - exists st'. split; [exact H2|]. split; [exact H1|]. apply H3. vm_compute. reflexivity.
Defined.

(** * A small driver *)

Lemma sample_no_genesis s : sha256_hex s <> GENESIS_EVENT_HASH.
Proof. by unfold sha256_hex, sample_sha, toy_digest. Qed.

#[export] Instance sample_agent_laws : AgentStoreLaws (Gad (list string)) := gad_agent_laws sample_no_genesis.

#[export] Instance sample_deps : DriverDeps unit := {|
  selfRefFor _ := sample_self;
  configFor _ _ := sample_config;
  policiesFor _ _ := defaultPolicies;
  connectSpecFor _ providerId := Ok (VObj [("providerId", VStr providerId)]);
  runBackground := true;
  minEntries := None;
  triggerBytes := None;
  classifyThrown _ _ _ _ := mkFailureInfo unknown_retryable "model error" true None None
|}.

#[export] Instance sample_vessel : VesselLaws unit.
Proof. intros settings channelId. exact (Forall_inv_tail source_policies_name_acks). Qed.

Abbreviation SampleWorld := (World (Gad (list string)) GadChannel.Texts unit).

Definition sample_world : SampleWorld :=
  mkWorld sample_empty [] tt 1700000000000 "u0" "2023-11-14T22:13:20.000Z" [] ∅ [] None [] [] [] [] O false false [] [] [] [] [] [] [] [].


Definition sample_driver : Config (G := Gad (list string)) (B := GadChannel.Texts) (S := unit) := mkConfig sample_world [] [].
Abbreviation SampleConfig := (Config (G := Gad (list string)) (B := GadChannel.Texts) (S := unit)).

(** A call made and served to its end, alone. *)
Definition sample_serve (call : Call) (c : SampleConfig) : SampleConfig :=
  cleared (advance (length c.(cf_threads)) 2000 (called call c)).

(** A prompt. *)
Definition sample_prompted : SampleConfig := Eval vm_compute in sample_serve (CallIncoming "c" (ICommand (CPrompt sample_prompt))) sample_driver.

Definition sample_reply : EffectOutcome := OModel [VObj [("type", VStr "text"); ("content", VStr "hi")]] StopCompleted None VUndef None None None.
Definition sample_deliver : Call := CallOutcome "model:m:t:c:e1:a1:0" sample_reply (mkAddress None (Some "c")).

(** A delivery of the model's answer that waits for its broadcast, with the answer in the
    log; a second one beside it; and both after they have folded. *)
Definition sample_once : SampleConfig := advance 0 17 (called sample_deliver sample_prompted).
Definition sample_doubled : SampleConfig := advance 1 10 (advance 0 10 (advance 1 17 (called sample_deliver sample_once))).

Lemma sample_start_unused : unused sample_world.
Proof. split; try done. exists []; apply empty_ok. Qed.

Section Reach.
Context (R : SampleConfig -> Prop) (HR : forall c c', R c -> step c c' -> calm c'.(cf_world) = true -> R c') (Hstart : R sample_driver).

Lemma sample_prompted_closed : R sample_prompted.
Proof.
  assert (E : sample_prompted = cleared (advance 0 2000 (called (CallIncoming "c" (ICommand (CPrompt sample_prompt))) sample_driver)))
    by (vm_compute; reflexivity).
  rewrite E. apply (cleared_closed calm _ HR), eq_refl. apply (advance_closed calm _ HR); [|vm_compute; reflexivity].
  by apply (called_closed calm _ HR).
Qed.

Lemma sample_once_closed : R sample_once.
Proof.
  unfold sample_once. apply (advance_closed calm _ HR); [|vm_compute; reflexivity].
  apply (called_closed calm _ HR); [apply sample_prompted_closed|vm_compute; reflexivity..].
Qed.
End Reach.

Lemma sample_prompted_reached : reached sample_prompted.
Proof. apply (sample_prompted_closed reached reached_closed), reached_start, sample_start_unused. Qed.

Lemma sample_once_reached : reached sample_once.
Proof. apply (sample_once_closed reached reached_closed), reached_start, sample_start_unused. Qed.

Lemma fold_never_diverges_witness :
  reached sample_prompted /\
  exists front rest, ds_log sample_prompted.(cf_world).(w_store) (ids.logIdForChannel "c") (front ++ rest) /\
    folds "c" front (loop_state sample_prompted.(cf_world) 0).
Proof.
  split; [exact sample_prompted_reached|].
  destruct (fold_never_diverges sample_prompted sample_prompted_reached) as [H _]. by apply (H 0%nat (instance sample_prompted.(cf_world) 0)).
Defined.

(** A log of one page. *)
Lemma one_page (g : Gad (list string)) id A page : ds_ok g -> ds_log g id A -> as_readLog g id id 0 500 = Ok page -> (length page < 500)%nat -> A = page.
Proof.
  intros Hg HA Hr Hlen. rewrite (ds_read g id A 0 500 Hg HA (Nat.lt_0_succ _)) in Hr. apply Ok_inj in Hr as Hp. symmetry in Hp.
  rewrite (chained_drop _ _ _ (ds_chained g id A Hg HA)) in Hp by lia.
  change (drop (Z.to_nat 0) A) with A in Hp. rewrite Hp, length_take in Hlen. rewrite Hp. symmetry. apply take_ge.
  destruct (Nat.min_spec 500 (length A)) as [[? E]|[? E]]; rewrite E in Hlen; [by apply Nat.lt_irrefl in Hlen|done].
Qed.

(** A prompt stopped when its events are in the log, and neither folded nor registered. *)
Definition sample_cut : SampleConfig := advance 0 28 (called (CallIncoming "c" (ICommand (CPrompt sample_prompt))) sample_driver).

Lemma sample_cut_reached : reached sample_cut.
Proof.
  unfold sample_cut. apply (advance_closed calm _ reached_closed); [|vm_compute; reflexivity].
  apply (called_closed calm _ reached_closed); [|done|done]. apply reached_start, sample_start_unused.
Qed.

Lemma sample_cut_log : exists L st, ds_log sample_cut.(cf_world).(w_store) (ids.logIdForChannel "c") L /\
  foldEvents (start "c") L = Ok st /\ In "model:m:t:c:e1:a1:0" (map effectId (derivePendingEffects st)).
Proof.
  pose proof (inv_store _ (so_inv _ (reached_sound _ sample_cut_reached))) as Hok.
  destruct (ds_total _ (ids.logIdForChannel "c") Hok) as (L & HL).
  assert (Hread : exists page st, as_readLog sample_cut.(cf_world).(w_store) (ids.logIdForChannel "c") (ids.logIdForChannel "c") 0 500 = Ok page /\
            (length page < 500)%nat /\ foldEvents (start "c") page = Ok st /\ In "model:m:t:c:e1:a1:0" (map effectId (derivePendingEffects st))).
  { do 2 eexists. split; [vm_compute; reflexivity|]. split; [apply Nat.ltb_lt; vm_compute; reflexivity|].
    split; [vm_compute; reflexivity|]. vm_compute. by left. }
  destruct Hread as (page & st & Hread & Hlen & Hf & Hin). exists page, st.
  rewrite (one_page _ _ _ page Hok HL Hread Hlen) in HL. exact (conj HL (conj Hf Hin)).
Qed.

(** The model call of the prompt comes back, though it never had a row. *)
Lemma crash_recovers_witness :
  sample_cut.(cf_world).(w_outbox) = [] /\
  exists w i row, run (recover "c") (crash sample_cut.(cf_world)) w (Ok i) /\
    In row (forBranch w.(w_outbox) (ids.logIdForChannel "c")) /\ row.(or_effectId) = "model:m:t:c:e1:a1:0".
Proof.
  assert (E : sample_cut.(cf_world).(w_outbox) = []) by (vm_compute; reflexivity). split; [exact E|].
  destruct sample_cut_log as (L & st & HL & Hf & Hin).
  destruct (crash_recovers sample_cut "c" L st sample_cut_reached HL Hf) as (w & i & Hrun & _ & _ & Hids).
  apply in_map_iff in Hin as (d & Ed & Hd). destruct (proj2 (Hids "model:m:t:c:e1:a1:0") (ex_intro _ d (conj Hd Ed))) as (row & Hrow & Er).
  exists w, i, row. exact (conj Hrun (conj Hrow Er)).
Defined.

(** A state that has counted all of its log, with other entries than the fold. *)
Lemma no_beginning (g : Gad (list string)) c st page : ds_ok g ->
  as_readLog g (ids.logIdForChannel c) (ids.logIdForChannel c) 0 500 = Ok page -> (length page <? 500)%nat = true ->
  st.(lastSeq) = Z.of_nat (length page) ->
  length st.(entries) <> match foldEvents (start c) page with Ok st0 => length st0.(entries) | Throw _ => O end ->
  ~ exists front rest, ds_log g (ids.logIdForChannel c) (front ++ rest) /\ folds c front st.
Proof.
  intros Hok Hread Hlen Hseq Hne (front & rest & HL & Hf). apply Nat.ltb_lt in Hlen.
  pose proof (one_page _ _ _ _ Hok HL Hread Hlen) as Epage. pose proof (ds_chained _ _ _ Hok HL) as [Hc _]%chained_app.
  destruct (folds_place _ _ _ Hc Hf) as (E & _). rewrite <- Epage, length_app in Hseq.
  assert (rest = []) as -> by (destruct rest; [done|simpl in Hseq; lia]). rewrite app_nil_r in Epage. subst front.
  destruct Hf as (st0 & Hf & Hp). rewrite Hf in Hne. apply Hne. exact (f_equal (fun st => length (entries st)) Hp).
Qed.

(** Delivering an outcome twice at once folds it twice: the loop in memory is the fold of no
    beginning of its log. *)
Theorem duplicate_delivery_diverges :
  rtc step sample_driver sample_doubled /\
  ~ exists front rest, ds_log sample_doubled.(cf_world).(w_store) (ids.logIdForChannel "c") (front ++ rest) /\
      folds "c" front (loop_state sample_doubled.(cf_world) 0).
Proof.
  split.
  - assert (Ht : forall j n (c : SampleConfig), rtc step sample_driver c -> rtc step sample_driver (advance j n c)).
    { intros j n c Hc. apply (advance_closed (fun _ => true) _ (runs_closed sample_driver) j n c Hc). unfold advance_ok.
      destruct (cf_threads c !! j) as [p|]; [|done]. generalize (cf_world c). revert p.
      induction n as [|n IH]; intros p w; [done|]. cbn. destruct (pstep p w) as [[w' p']|]; [apply IH|done]. }
    unfold sample_doubled. do 3 apply Ht. apply (called_closed (fun _ => true) _ (runs_closed sample_driver)); [|vm_compute; reflexivity|done].
    apply (sample_once_closed (rtc step sample_driver)); [|by apply rtc_refl]. intros c c' Hc Hs _. by apply (runs_closed _ c).
  - assert (Es : w_store (cf_world sample_doubled) = w_store (cf_world sample_once)) by (vm_compute; reflexivity). rewrite Es.
    pose proof (inv_store _ (so_inv _ (reached_sound _ sample_once_reached))) as Hok.
    eapply (no_beginning _ "c" _ _ Hok); vm_compute; [reflexivity|reflexivity|reflexivity|discriminate].
Qed.
